(* ===== verification/_CoqProject ===== *)
-Q . S2P
Prelude.v
KeyBits.v
Own.v
Critbit.v
CritTree.v
CritMem.v
CritbitProofs.v
MapSpec.v
CritbitMap.v
CritbitTheorems.v
CritTyping.v
Threads.v
CritThreads.v
CritView.v
CritConc.v
CritSteps.v
CritInserter.v
CritDeleter.v
CritRuns.v
CritConcTheorems.v
Heap.v
DictHash.v
Dict.v
DictMem.v
DictProofs.v
DictRehash.v
DictOps.v
DictDelete.v
DictMap.v
DictScan.v
DictRandom.v
DictIter.v
DictTheorems.v
Art.v
ArtArrays.v
ArtNodes.v
ArtAdd.v
ArtRemove.v
ArtPrefix.v
ArtTree.v
ArtInsert.v
ArtDelete.v
ArtMap.v
ArtIter.v
ArtTheorems.v
RbTree.v
RbShape.v
RbMem.v
RbSearch.v
RbInsert.v
RbRemove.v
RbMap.v
RbTheorems.v
SplTree.v
SplShape.v
SplMem.v
SplProofs.v
SplOps.v
SplTheorems.v
Queue.v
QueueMem.v
QueueOps.v
QueueTheorems.v
UtHash.v
UtMem.v
UtTable.v
UtExpand.v
UtAdd.v
UtDelete.v
UtSort.v
UtSortProofs.v
UtFsck.v
UtHashFns.v
UtTheorems.v
Helper.v
CritBench.v
HelperLoops.v
ArtThreads.v
CcMap.v
HelperTheorems.v
