(* ===== verification/Prelude.v ===== *)
(** * A verification of the critbit benchmark

    The repository compares implementations of a string map under one
    interface, [helper.h] ([init], [add], [find], [del], [clear]), driven by
    one benchmark program, [helper.c].  This development models the
    implementations and the driver, and proves them correct against finite
    maps ([gmap]) or lists.

    ** Parts

    - helper.h: [MapSpec].  [MapImpl] is the interface, [MapSpec] its
      contract as operations on a finite map (which keys and values it
      accepts, how many keys it has room for, when it can be searched), and
      [run_ops_refines] lifts the contract to sequences of calls.
    - helper.c: [Helper] (the code: environment, clock, the loops of [set],
      [get], [cleanup] and their random variants, the threads, [main]),
      [HelperLoops] (the loops on any map that meets the contract, and the
      invariant of the threads) and [HelperTheorems].
      The driver is verified against [MapSpec] (and [NullSpec], since its
      threads may add a null value) only, then instantiated with art.c, and
      without its threads with critbit.c, redisdict.c and the C++ maps
      ([del] of bsdtree.c and uthash.c deletes nothing, so they do not meet
      the contract).
    - cc_common.h, stlmap.cc, stluomap.cc, sparsehash.cc, none.c, array.c:
      [CcMap] (with [Container], the interface of the C++ containers and its
      laws, of which those of the standard library are an instance).
    - critbit.c, critbit_common.h: [KeyBits] (bytes, bits, critical bits),
      [Critbit] (the code), [CritTree] (the abstract tree and its lookup,
      insertion and removal), [CritMem] (a tree as blocks of memory),
      [CritbitProofs] (each function runs as the tree operation),
      [CritbitMap] (as an operation on the map, and the [MapSpec] instance),
      [CritbitTheorems], [CritTyping] (the types of the
      tagged pointers in every reachable state).
    - Interleaved threads: [Threads] (resumptions, schedules, and the rules for
      threads that never wait and for threads of which one can always move),
      used for helper.c, art.c and critbit.c.
    - critbit.c with many callers: [CritThreads] (the same functions as
      threads of atomic steps, and schedules), [CritView] (what a change of
      the tree does to the subtree a reader is in; paths), [CritConc] (the
      invariant), [CritSteps] (readers and the mutex), [CritInserter] (the
      inserters), [CritDeleter] (the deleter), [CritRuns] (whole schedules),
      [CritConcTheorems] (with the equivalence of a thread that runs alone);
      [CritBench] (the threads of helper.c over those of critbit.c).
    - redisdict.c, redisdict.h: [Heap] (malloc and calloc), [DictHash] (hash
      functions, [rev]), [Dict] (the code), [DictMem] (a dictionary as blocks
      of memory), [DictProofs], [DictRehash], [DictOps], [DictDelete] (runs of
      the functions), [DictMap] (as operations on the map, and the
      [MapSpec] instance), [DictScan] (the cursor of [dictScan]), [DictIter] (the iterators),
      [DictRandom] ([dictGetRandomKey]), [DictTheorems].
    - art.c, art.h: [Art] (the code), [ArtArrays] (memcpy, memmove, byte
      masks), [ArtNodes] (a node of any of the four kinds as a map from bytes
      to children), [ArtAdd] and [ArtRemove] ([add_child], [remove_child] and
      every change of kind), [ArtPrefix] (stored prefixes and leaves),
      [ArtTree] (the map of a tree; search), [ArtInsert],
      [ArtDelete], [ArtMap] (with the [MapSpec] instance), [ArtIter] (the
      walks), [ArtThreads] (callers that share the lock of art.c, and why it
      makes their calls atomic), [ArtTheorems].
    - tree.h, bsdtree.c: [RbTree] (the functions RB_GENERATE generates, the
      left and right copies of each macro folded into one over a side, and
      bsdtree.c), [RbShape] (coloured trees, their balance and order),
      [RbMem] (a linked tree as blocks of memory, with a focus for the
      rotations), [RbSearch] (searching and walking), [RbInsert], [RbRemove]
      (the two rebalancing loops), [RbMap] (and [clear]), [RbTheorems].
    - tree.h, the splay trees: [SplTree] (the code, for any comparison),
      [SplShape] (trees taken apart into frames, their order), [SplMem] (links
      as a function of address and side), [SplProofs] (the macros and the two
      splays), [SplOps] (the operations), [SplTheorems].
    - queue.h: [Queue] (the macros of its four kinds of list), [QueueMem] (a
      list as words of memory, and the steps of a macro on them), [QueueOps]
      (each macro as a list operation), [QueueTheorems].
    - uthash.h, uthash.c: [UtHash] (the macros uthash.c expands, and its
      functions), [UtMem] (doubly linked lists, and the elements, tables and
      arrays of buckets as blocks of memory), [UtTable] (the invariant of a
      table, the hash function, lookup), [UtExpand] (pushing into a bucket,
      doubling the array), [UtAdd], [UtDelete], [UtSort] (the merge
      sort HASH_SRT, and its passes as functions on lists), [UtSortProofs],
      [UtFsck] (HASH_FSCK), [UtHashFns] (the other hash functions, and the
      Bloom filter), [UtTheorems].
    - Shared: this file and [Own] (exact ownership of memory blocks).

    ** How the code is modelled

    Code is an [outcome] ([Done], or one of three ways not to return: [Undef]
    for undefined behaviour, [Blocked] for a lock that is not granted,
    [NoFuel]), over a state where there is one ([cmd]).  A theorem that says
    [f s = Done ...] therefore also says that [f] terminates, touches no
    memory it does not own and takes no lock twice.

    critbit.c, redisdict.c, bsdtree.c, uthash.c, the splay trees and the lists
    of queue.h share and alias pointers, so their state is a memory: a finite
    map from addresses to typed blocks, in which null, dangling and mistyped
    accesses are [Undef]. Representation predicates give exact ownership
    ([represents], [drepr], [bst], [urepr]: the frame and the blocks of the
    structure, nothing else), so a leak or a double free falsifies them.
    critbit.c tags its pointers; the tag arithmetic is in the model. In art.c
    every node has one owner, so a tree is a value and an update of [*ref] is
    a returned node; the arrays, their stale slots and their bounds are kept.

    A thread is a resumption ([Threads.thread]): a command to run atomically,
    and what follows.  In critbit.c one step is one access to memory that other
    threads can reach, or one allocation or release; [critbit_insert_inplace]
    and [critbit_delete_inplace], too, are threads of such steps.  Comparing
    with the characters of a key, which nobody writes, and filling in a node
    that is not published yet are one step each.  Memory is sequentially
    consistent.  A schedule names the
    thread that moves next; a thread whose lock is not granted stays where it
    is.  The threads of helper.c make the calls that [ThreadImpl] gives them:
    those of art.c are threads, too ([art_threads]), in which taking the lock, a
    search, a change of the tree and releasing the lock are a step each, and
    [atomic_calls] makes a call one step, for maps of which only the contract
    is known.

    Unsigned integers, and conversions to narrower signed ones, are [Z] with
    their wrap-around written out ([u8], [u32], [u64], [s8], [s32], [s64]).
    Signed arithmetic that overflows is [Undef] ([int64_of], [shl64]); counters
    and indices of type int stay within the bounds under Limits.  [char] is signed,
    as on the platforms of the build.

    malloc, calloc, rand, the clock, the environment and the schedule are
    parameters; the laws of allocation ([MallocSpec], [AllocSpec]) are those of
    the C standard, and theorems that need it to succeed say so
    ([MallocTotal], [AllocTotal], and [ArtMallocTotal] for art.c).  The bump
    allocators instantiate them in the witnesses.  art.c stores through what
    malloc and calloc return without looking at it, so that a refused request
    is [Undef] there; [ArtAlloc] says which requests of a call are granted, and
    what the bytes of a new leaf that follow its key hold.

    Fuel: walks over a linked structure take the number of live blocks (a
    longer walk revisits a block), walks down a radix tree the length of the
    key or the height of the tree, counting loops their range, and the walks
    of concurrent threads a bound given from outside, more than the keys there
    can ever be.  The theorems show that none of these bounds is ever reached.

    ** What is proved

    - Each of the implementations: insertion, lookup and deletion act on the
      represented map on every branch, errors included
      ([critbit_insert_correct], [critbit_get_correct],
      [critbit_delete_correct], [dictAdd_correct], [dictFind_correct],
      [dictDelete_correct], [art_insert_correct], [art_search_correct],
      [art_delete_correct], [bsdtree_add_correct], [RB_REMOVE_correct],
      [uthash_add_correct], [HASH_FIND_STR_correct], [HASH_DEL_correct]), and
      sequences of helper.h calls return what the finite map returns
      ([critbit_refines_map], [dict_refines_map], [art_refines_map],
      [bsdtree_refines_map]); the splay trees return what an ordered list
      returns ([splay_refines_list]), and SLIST, STAILQ, LIST and TAILQ what
      lists return ([queue_refines_lists]).
    - Invariants of reachable states: the red-black tree is ordered, balanced
      and consistently linked ([rb_invariant], with [RB_FIND_comparisons] for
      the cost of a search); every tagged pointer of critbit.c has the type
      its tag says ([critbit_heap_typed]).
    - Concurrent callers of critbit.c: any number of
      readers and inserters with one deletion, and a key that stays, are memory
      safe, every lookup is linearizable ([critbit_get_linearizable]), and from
      every state the run can be completed without deadlock or leak
      ([critbit_threads_complete]).  The two translations of the functions, as
      commands and as threads, agree: a thread that runs alone is the
      sequential function (the lemma [critbit_threads_sequential]).
      With two deletions the protocol fails ([critbit_get_use_after_free]),
      in the benchmark, too ([critbit_threads_race]).
    - The benchmark: with any implementation of the contract [main] runs to
      its end and prints its measurements, for every fair schedule of its
      threads ([main_succeeds]), over art.c with threads that
      wait for its lock ([art_main_succeeds]); under every schedule the threads keep all keys
      but the at most 32 that are in their hands ([get_threaded_restores]).
    - Parts with a contract of their own: incremental rehashing keeps the map
      and makes progress ([dictRehash_correct]); a scan of a dictionary that
      is not being rehashed, and an iteration with a safe iterator in any
      state, return every entry once ([dictScan_complete],
      [dict_iterator_complete]), as does a walk
      over a red-black tree, in order ([RB_FOREACH_correct]), or over art.c
      ([art_walks_correct]); sorting a uthash table reorders its elements and
      nothing else ([HASH_SRT_correct]), and its consistency check accepts
      what the operations leave and nothing whose links or counts are wrong
      ([HASH_FSCK_correct]); replacing an element
      ([HASH_REPLACE_STR_correct]); the Bloom filter never denies an element
      ([HASH_BLOOM_correct]); [dictGetRandomKey] returns entries only, and any
      of them ([dictGetRandomKey_correct]); destruction frees everything
      ([critbit_clear_frees_all], [dictRelease_frees_all]); [add_child] and
      [remove_child] through all kinds of node ([add_child_correct],
      [remove_child_correct]).
    - Where the code falls short: searching an empty critbit tree, its
      [clear] and depth histogram, its reader locks; [dictScan] while a table
      shrinks, and the fingerprint of unsafe iterators
      ([dict_iterator_complete]); in art.c unchecked allocation
      ([art_insert_without_memory], [art_delete_without_memory]), long prefixes with bytes above 127, keys that are
      prefixes of others, searches for keys shorter than a prefix, the order
      of children, the walk below a prefix, and destruction; in bsdtree.c an uninitialised root,
      [clear] and [del]; in cc_common.h the search for a missing key, which the
      threads of helper.c make ([cc_threads_undefined]), and the missing deleted
      key of sparsehash.cc ([cc_benchmark_undefined]); in none.c the first
      lookup ([none_main_exits]); in uthash.c the inverted [find] with [del]
      ([uthash_find_inverted]) and [clear] ([uthash_clear_leaks]), and the
      last step of HASH_MUR ([HASH_MUR_overflow]).  Each is a
      theorem about a concrete run or about all states of a kind.

    ** Limits

    Keys have fewer than 2^31 bytes and no NUL (callers pass C strings).
    redisdict.c is proved for fewer than 2^28 keys, where its [int] indices
    cannot overflow.  art.c is proved for key sets without proper prefixes
    and either short keys or ASCII keys of one length ([keyset]), which holds
    of the benchmark; the theorems above show why.  The driver is proved for
    up to 2^26 iterations, where the product with the number of threads fits
    in an int.  Concurrent runs have at
    most one deletion and a key that stays ([calls_ok]); the theorems above
    show why.  uthash.h is proved for fewer than 2^31 elements, and insertion
    for fewer than 2^31 buckets, whose number would wrap around when it is
    doubled again.

    Not modelled: the printing of helper.c; exceptions of operator new; the
    debugging traces of queue.h.  The container of sparsehash.cc and the
    [measure] of array.c, which no file declares, are parameters.  HASH_SELECT of uthash.h, which no file uses, is modelled,
    but only run on an example ([HASH_SELECT_stale_tail]).  queue.h reads a
    field of an element as a head in TAILQ_LAST and TAILQ_PREV, which the C
    standard's aliasing rules do not allow; the model follows the layout.

    ** Plan

    Every part of the program is modelled but the build files, and what the
    paragraphs above leave out.  A theorem on every run of HASH_SELECT, which
    nothing in the program calls, would need uthash's representation with two
    handles in each element; the theory here has one. *)

(** * Prelude: shared vocabulary of the development *)

From stdpp Require Export base tactics numbers list gmap.
From Stdlib Require Export ZArith Lia.

#[global] Set Default Goal Selector "!".

Declare Scope c_scope.
Delimit Scope c_scope with C.
Open Scope Z_scope.

(** ** Outcomes of C code

    [Done] is a normal return; [Undef] is an access the C standard leaves
    undefined (a load through a bad pointer, a read past a buffer);
    [Blocked] is a lock operation that would wait for ever in a sequential
    run; [NoFuel] is a loop whose iteration bound was too small, which the
    theorems exclude. *)
Inductive outcome (A : Type) : Type :=
  | Done (a : A)
  | Undef
  | Blocked
  | NoFuel.
Arguments Done {A} a.
Arguments Undef {A}.
Arguments Blocked {A}.
Arguments NoFuel {A}.

#[export] Instance outcome_ret : MRet outcome := @Done.
#[export] Instance outcome_bind : MBind outcome := λ A B k o,
  match o with
  | Done a => k a
  | Undef => Undef
  | Blocked => Blocked
  | NoFuel => NoFuel
  end.

#[export] Instance outcome_eq_dec `{EqDecision A} : EqDecision (outcome A).
Proof. solve_decision. Defined.

(** A read that is undefined when it misses. *)
Definition of_option {A} (o : option A) : outcome A :=
  match o with Some a => Done a | None => Undef end.

(** Stateful code: a command runs in a state and yields a value with the
    next state. *)
Definition cmd (S A : Type) : Type := S → outcome (A * S).

#[export] Instance cmd_ret {S} : MRet (cmd S) := λ A a s, Done (a, s).
#[export] Instance cmd_bind {S} : MBind (cmd S) := λ A B k c s,
  match c s with
  | Done (a, s') => k a s'
  | Undef => Undef
  | Blocked => Blocked
  | NoFuel => NoFuel
  end.

Definition lift {S A} (o : outcome A) : cmd S A := λ s, a ← o; Done (a, s).
Definition get_state {S} : cmd S S := λ s, Done (s, s).
Definition put_state {S} (s : S) : cmd S unit := λ _, Done (tt, s).
Definition undef {S A} : cmd S A := λ _, Undef.
Definition blocked {S A} : cmd S A := λ _, Blocked.
Definition nofuel {S A} : cmd S A := λ _, NoFuel.

Section cmd_laws.
Context {S A B : Type}.
Implicit Types (c : cmd S A) (k : A → cmd S B).

Lemma bind_done c k s a s' : c s = Done (a, s') → (c ≫= k) s = k a s'.
Proof. intros H. unfold mbind, cmd_bind. by rewrite H. Qed.

(** The head of the goal is the first part of a sequence that has been run. *)
Lemma bind_done2 {D} c k (k' : B → cmd S D) s b s' :
  (c ≫= k) s = Done (b, s') → (c ≫= (λ a, k a ≫= k')) s = k' b s'.
Proof. unfold mbind, cmd_bind. by destruct (c s) as [[a s1]| | |]; [intros ->|..]. Qed.

Lemma bind_same c c' k s s' : c s = c' s' → (c ≫= k) s = (c' ≫= k) s'.
Proof. intros H. unfold mbind, cmd_bind. by rewrite H. Qed.

Lemma bind_inv c k s b s'' :
  (c ≫= k) s = Done (b, s'') → ∃ a s', c s = Done (a, s') ∧ k a s' = Done (b, s'').
Proof.
  unfold mbind, cmd_bind. destruct (c s) as [[a s']| | |] eqn:E; [eauto|done..].
Qed.

Lemma bind_undef c k s : c s = Undef → (c ≫= k) s = Undef.
Proof. intros H. unfold mbind, cmd_bind. by rewrite H. Qed.

Lemma ret_done (a : A) (s : S) : (mret a : cmd S A) s = Done (a, s).
Proof. done. Qed.

Lemma lift_done (a : A) (s : S) : lift (Done a) s = Done (a, s).
Proof. done. Qed.
End cmd_laws.

Create HintDb cmd.
Create Rewrite HintDb cmd.
#[export] Hint Rewrite @ret_done @lift_done : cmd.
#[export] Hint Resolve ret_done lift_done : cmd.

(** [run_to H]: run the head command of the goal with the equation [H]. *)
Ltac run_to H := erewrite bind_done; [| exact H || (eapply H; eauto)]; cbn beta.
(** [run_by tac]: run the head command, proving its equation with [tac]. *)
Tactic Notation "run_by" tactic3(tac) := erewrite bind_done; [| solve [tac]]; cbn beta.

(** ** Machine integers

    Integers are [Z]; a conversion to a fixed width writes its wrap-around
    out. *)
Definition u8 (z : Z) : Z := z mod 2 ^ 8.
Definition u32 (z : Z) : Z := z mod 2 ^ 32.
Definition u64 (z : Z) : Z := z mod 2 ^ 64.
Definition s8 (z : Z) : Z := (z + 2 ^ 7) mod 2 ^ 8 - 2 ^ 7.
Definition s32 (z : Z) : Z := (z + 2 ^ 31) mod 2 ^ 32 - 2 ^ 31.

(** C truth values: a condition is an [int]. *)
Definition of_bool (b : bool) : Z := if b then 1 else 0.

Lemma u8_small z : 0 ≤ z < 256 → u8 z = z.
Proof. intros. by apply Z.mod_small. Qed.
Lemma u32_small z : 0 ≤ z < 2 ^ 32 → u32 z = z.
Proof. intros. by apply Z.mod_small. Qed.
Lemma u64_small z : 0 ≤ z < 2 ^ 64 → u64 z = z.
Proof. intros. by apply Z.mod_small. Qed.
Lemma s8_small z : 0 ≤ z < 128 → s8 z = z.
Proof. intros. unfold s8. rewrite Z.mod_small; lia. Qed.
Lemma s32_small z : - 2 ^ 31 ≤ z < 2 ^ 31 → s32 z = z.
Proof. intros. unfold s32. rewrite Z.mod_small; lia. Qed.

Lemma u64_add_u64 x y : u64 (u64 x + y) = u64 (x + y).
Proof. apply Z.add_mod_idemp_l. done. Qed.
Lemma u64_sub_u64 x y : u64 (u64 x - y) = u64 (x - y).
Proof. unfold u64. by rewrite Zminus_mod_idemp_l. Qed.

Lemma u8_range z : 0 ≤ u8 z < 256.
Proof. apply Z.mod_pos_bound. lia. Qed.
Lemma u32_range z : 0 ≤ u32 z < 2 ^ 32.
Proof. apply Z.mod_pos_bound. lia. Qed.

(** ** Finite case analysis on bytes: a decidable fact about every byte is
    checked by evaluation. *)
Definition bytes : list Z := seqZ 0 256.

Lemma elem_of_bytes c : 0 ≤ c < 256 → c ∈ bytes.
Proof. intros. apply elem_of_seqZ. lia. Qed.

Lemma byte_cases (f : Z → bool) c : forallb f bytes = true → 0 ≤ c < 256 → f c = true.
Proof.
  rewrite forallb_forall. intros Hf Hc. apply Hf, list_elem_of_In, elem_of_bytes, Hc.
Qed.

(** ** Buffers and C strings *)

(** [b[i]], undefined outside of the buffer. *)
Definition buf_get (b : list Z) (i : Z) : outcome Z :=
  if (i <? 0) then Undef else of_option (b !! Z.to_nat i).

(** [strlen]: the position of the first NUL, undefined when there is none. *)
Fixpoint strlen (b : list Z) : outcome Z :=
  match b with
  | [] => Undef
  | c :: b' => if c =? 0 then Done 0 else n ← strlen b'; Done (1 + n)
  end.

(** [strcmp]: the difference of the first bytes that differ (compared as
    [unsigned char]), [0] at a common NUL. *)
Fixpoint strcmp (a b : list Z) : outcome Z :=
  match a, b with
  | x :: a', y :: b' =>
      if x =? y then if x =? 0 then Done 0 else strcmp a' b' else Done (x - y)
  | _, _ => Undef
  end.

(** The first [n] bytes of a buffer, as [memcpy] reads them. *)
Definition buf_take (b : list Z) (n : Z) : outcome (list Z) :=
  if (n <? 0) || (Z.of_nat (length b) <? n) then Undef else Done (take (Z.to_nat n) b).

(** A C string: bytes that are not NUL, then NUL. *)
Definition cstr (k : list Z) : list Z := k ++ [0].
Definition nonul (k : list Z) : Prop := Forall (λ c, 0 < c < 256) k.

#[export] Instance nonul_dec k : Decision (nonul k).
Proof. unfold nonul. apply _. Defined.

Lemma length_cstr k : length (cstr k) = S (length k).
Proof. unfold cstr. rewrite length_app. simpl. lia. Qed.

Lemma nonul_cons c k : nonul (c :: k) ↔ 0 < c < 256 ∧ nonul k.
Proof. unfold nonul. by rewrite Forall_cons. Qed.

Lemma strlen_cstr k : nonul k → strlen (cstr k) = Done (Z.of_nat (length k)).
Proof.
  induction k as [|c k IH]; intros Hk; [done|].
  apply nonul_cons in Hk as [Hc Hk]. cbn -[Z.of_nat].
  destruct (Z.eqb_spec c 0); [lia|]. change (k ++ [0]) with (cstr k). rewrite (IH Hk).
  cbn -[Z.of_nat]. f_equal. lia.
Qed.

Lemma strcmp_cstr k1 k2 :
  nonul k1 → nonul k2 → ∃ d, strcmp (cstr k1) (cstr k2) = Done d ∧ (d = 0 ↔ k1 = k2).
Proof.
  revert k2. induction k1 as [|x k1 IH]; intros [|y k2] H1 H2.
  - exists 0. done.
  - apply nonul_cons in H2 as [Hy _]. exists (0 - y). split; [|split; [lia|done]].
    cbn -[Z.sub]. destruct y; [lia|done..].
  - apply nonul_cons in H1 as [Hx _]. exists (x - 0). split; [|split; [lia|done]].
    cbn -[Z.sub]. destruct (Z.eqb_spec x 0); [lia|done].
  - apply nonul_cons in H1 as [Hx H1], H2 as [Hy H2].
    cbn -[Z.sub]. destruct (Z.eqb_spec x y) as [->|Hne].
    + destruct (Z.eqb_spec y 0); [lia|].
      destruct (IH k2 H1 H2) as (d & Hd & Hiff). exists d. split; [done|].
      rewrite Hiff. split; [by intros ->|by intros [=]].
    + exists (x - y). split; [done|]. split; [lia|]. intros [=]. lia.
Qed.

Lemma strcmp_cstr_eq k : nonul k → strcmp (cstr k) (cstr k) = Done 0.
Proof. intros H. destruct (strcmp_cstr k k H H) as (d & Hd & [_ Hiff]). rewrite Hd, Hiff; done. Qed.

Lemma buf_get_Some b i c : 0 ≤ i → b !! Z.to_nat i = Some c → buf_get b i = Done c.
Proof. intros Hi Hb. unfold buf_get. destruct (Z.ltb_spec i 0); [lia|]. by rewrite Hb. Qed.

Lemma buf_take_cstr k n : n = Z.of_nat (length k) + 1 → buf_take (cstr k) n = Done (cstr k).
Proof.
  intros ->. unfold buf_take. rewrite length_cstr.
  destruct (Z.ltb_spec (Z.of_nat (length k) + 1) 0); [lia|].
  destruct (Z.ltb_spec (Z.of_nat (S (length k))) (Z.of_nat (length k) + 1)); [lia|]. simpl.
  rewrite take_ge; [done|]. rewrite length_cstr. lia.
Qed.

(** ** Lists of lists *)

(** One element of a list of lists, taken out of the concatenation. *)
Lemma concat_take_out {B} (ls : list (list B)) i l :
  ls !! i = Some l → concat ls ≡ₚ l ++ concat (<[i := []]> ls).
Proof.
  revert i. induction ls as [|l0 ls IH]; intros [|i] Hi; cbn in *; simplify_eq; [done|].
  rewrite (IH i Hi). solve_Permutation.
Qed.

Lemma concat_put_in {B} (ls : list (list B)) i l l' :
  ls !! i = Some l → concat (<[i := l']> ls) ≡ₚ l' ++ concat (<[i := []]> ls).
Proof.
  intros Hi. rewrite (concat_take_out (<[i := l']> ls) i l').
  - by rewrite list_insert_insert_eq.
  - apply list_lookup_insert_eq. by eapply lookup_lt_Some.
Qed.

Lemma elem_of_concat {B} (x : B) (ls : list (list B)) : x ∈ concat ls ↔ ∃ l, x ∈ l ∧ l ∈ ls.
Proof.
  rewrite list_elem_of_In, in_concat. split; intros (l & H1 & H2); exists l.
  - by rewrite !list_elem_of_In.
  - by rewrite <-!list_elem_of_In.
Qed.

Lemma fmap_concat {B C} (f : B → C) (ls : list (list B)) :
  f <$> (concat ls : list B) = concat ((λ l : list B, f <$> l) <$> ls).
Proof. induction ls as [|l ls IH]; cbn; [done|]. by rewrite fmap_app, <-IH. Qed.

#[export] Instance concat_perm_proper {B} : Proper ((≡ₚ) ==> (≡ₚ)) (@concat B).
Proof.
  intros l1 l2 Hp. induction Hp; cbn; [done|by rewrite IHHp|solve_Permutation|by etrans].
Qed.
