(* ===== verification/KeyBits.v ===== *)
(** * KeyBits: keys as bit strings

    A critical-bit tree reads a key as the sequence of its bits, most
    significant bit of byte 0 first, followed by zeroes for ever (a read past
    the end of the key counts as a 0 bit).  This file gives that view
    ([kbit]), the numbering of the bits by (byte, otherbits) pairs
    ([crit_index]), and the facts the tree relies on: the byte loop of
    [critbit_insert_inplace] isolates the highest differing bit, the mask
    arithmetic of [get_direction] tests one bit, and keys without NUL bytes
    are equal as soon as their bits are. *)

From S2P Require Import Prelude.

(** ** Bits of a key *)
Definition byte_at (k : list Z) (b : Z) : Z := nth (Z.to_nat b) k 0.

(** Bit [i] of a key: bit [7 - i mod 8] of byte [i / 8]. *)
Definition kbit (k : list Z) (i : Z) : bool := Z.testbit (byte_at k (i / 8)) (7 - i mod 8).

Definition agree_below (i : Z) (k1 k2 : list Z) : Prop :=
  ∀ j, 0 ≤ j < i → kbit k1 j = kbit k2 j.

#[export] Instance agree_below_equiv i : Equivalence (agree_below i).
Proof.
  split.
  - intros k j _. done.
  - intros k1 k2 H j Hj. by rewrite (H j Hj).
  - intros k1 k2 k3 H12 H23 j Hj. by rewrite (H12 j Hj), (H23 j Hj).
Qed.

Lemma agree_below_weaken i i' k1 k2 : i' ≤ i → agree_below i k1 k2 → agree_below i' k1 k2.
Proof. intros Hi H j Hj. apply H. lia. Qed.

(** [otherbits] of a critical bit [j] of a byte: all ones but that bit. *)
Definition mask_of (j : Z) : Z := 255 - 2 ^ j.
Definition bit_of (otherbits : Z) : Z := Z.log2 (255 - otherbits).
Definition is_mask (otherbits : Z) : bool :=
  bool_decide (otherbits ∈ mask_of <$> seqZ 0 8).

(** The position in the bit string of the critical bit (byte, otherbits). *)
Definition crit_index (byte otherbits : Z) : Z := 8 * byte + (7 - bit_of otherbits).

Lemma is_mask_elim ob : is_mask ob = true → ∃ j, 0 ≤ j < 8 ∧ ob = mask_of j.
Proof.
  unfold is_mask. rewrite bool_decide_eq_true, list_elem_of_fmap.
  intros (j & -> & Hj%elem_of_seqZ). exists j. split; [lia|done].
Qed.

Lemma is_mask_mask_of j : 0 ≤ j < 8 → is_mask (mask_of j) = true.
Proof.
  intros Hj. unfold is_mask. apply bool_decide_eq_true, list_elem_of_fmap.
  exists j. split; [done|]. apply elem_of_seqZ. lia.
Qed.

Lemma bit_of_mask_of j : 0 ≤ j < 8 → bit_of (mask_of j) = j.
Proof. intros Hj. unfold bit_of, mask_of. rewrite <-(Z.log2_pow2 j) at 2 by lia. f_equal. lia. Qed.

Lemma crit_index_mask b j : 0 ≤ j < 8 → crit_index b (mask_of j) = 8 * b + (7 - j).
Proof. intros Hj. unfold crit_index. by rewrite bit_of_mask_of. Qed.

Lemma crit_index_nonneg b ob : 0 ≤ b → is_mask ob = true → 0 ≤ crit_index b ob.
Proof. intros Hb (j & Hj & ->)%is_mask_elim. rewrite crit_index_mask; lia. Qed.

Lemma kbit_crit k b j : 0 ≤ b → 0 ≤ j < 8 → kbit k (8 * b + (7 - j)) = Z.testbit (byte_at k b) j.
Proof.
  intros Hb Hj. unfold kbit.
  rewrite (Z.mul_comm 8 b), Z.div_add_l, (Z.div_small (7 - j)) by lia.
  replace ((b * 8 + (7 - j)) mod 8) with (7 - j).
  - f_equal; [f_equal|]; lia.
  - rewrite Z.add_comm, Z.mod_add by lia. by rewrite Z.mod_small by lia.
Qed.

(** The order in which [critbit_insert_inplace] compares critical bits (byte
    first, then otherbits) is the order of their positions. *)
Definition crit_after (b1 ob1 b2 ob2 : Z) : bool :=
  (b2 <? b1) || ((b1 =? b2) && (ob2 <? ob1)).

Lemma mask_of_lt i j : 0 ≤ i < 8 → 0 ≤ j < 8 → mask_of i < mask_of j ↔ j < i.
Proof.
  intros Hi Hj. unfold mask_of. rewrite (Z.pow_lt_mono_r_iff 2 j i) by lia. lia.
Qed.

Lemma crit_after_spec b1 ob1 b2 ob2 :
  is_mask ob1 = true → is_mask ob2 = true →
  crit_after b1 ob1 b2 ob2 = true ↔ crit_index b2 ob2 < crit_index b1 ob1.
Proof.
  intros (i & Hi & ->)%is_mask_elim (j & Hj & ->)%is_mask_elim.
  rewrite !crit_index_mask by done. unfold crit_after.
  rewrite orb_true_iff, andb_true_iff, !Z.ltb_lt, Z.eqb_eq.
  rewrite mask_of_lt by done. lia.
Qed.

(** ** The mask arithmetic of [get_direction], checked on every byte *)
Definition test_mask (otherbits c : Z) : Z := Z.shiftr (1 + Z.lor otherbits c) 8.

Lemma test_mask_spec j c :
  0 ≤ j < 8 → 0 ≤ c < 256 → test_mask (mask_of j) c = of_bool (Z.testbit c j).
Proof.
  intros Hj Hc.
  pose proof (byte_cases (λ c, forallb (λ j,
    test_mask (mask_of j) c =? of_bool (Z.testbit c j)) (seqZ 0 8)) c) as H.
  specialize (H ltac:(vm_compute; reflexivity) Hc). cbv beta in H.
  rewrite forallb_forall in H. apply Z.eqb_eq, H, list_elem_of_In, elem_of_seqZ. lia.
Qed.

(** ** Isolating the highest set bit of a byte *)
Fixpoint clear_low (fuel : nat) (x : Z) : outcome Z :=
  match fuel with
  | O => NoFuel
  | S fuel => if Z.land x (x - 1) =? 0 then Done x else clear_low fuel (Z.land x (x - 1))
  end.

Lemma clear_low_spec x :
  0 < x < 256 → clear_low 8 x = Done (2 ^ Z.log2 x) ∧ 0 ≤ Z.log2 x < 8.
Proof.
  intros Hx. pose proof (byte_cases (λ x, (x =? 0) || bool_decide
    (clear_low 8 x = Done (2 ^ Z.log2 x) ∧ 0 ≤ Z.log2 x < 8)) x) as H.
  cbv beta in H. destruct (Z.eqb_spec x 0); [lia|].
  specialize (H ltac:(vm_compute; reflexivity) ltac:(lia)).
  by apply bool_decide_eq_true_1 in H.
Qed.

Lemma lxor_mask j : 0 ≤ j < 8 → Z.lxor (2 ^ j) 255 = mask_of j.
Proof.
  intros Hj. assert (Forall (λ j, Z.lxor (2 ^ j) 255 = mask_of j) (seqZ 0 8)) as H
    by (repeat constructor).
  rewrite Forall_forall in H. apply H, elem_of_seqZ. lia.
Qed.

(** Two different bytes: the highest bit of their exclusive or is the first
    position (from the top) where they differ. *)
Lemma lxor_high_bit x y :
  0 ≤ x → 0 ≤ y → x ≠ y →
  let j := Z.log2 (Z.lxor x y) in
  Z.testbit x j = negb (Z.testbit y j) ∧ ∀ j', j < j' → Z.testbit x j' = Z.testbit y j'.
Proof.
  intros Hx Hy Hne j.
  assert (0 ≤ Z.lxor x y) as H0 by (apply Z.lxor_nonneg; lia).
  assert (Z.lxor x y ≠ 0) as H1 by (by rewrite Z.lxor_eq_0_iff).
  split.
  - assert (Z.testbit (Z.lxor x y) j = true) as Hb by (apply Z.bit_log2; lia).
    rewrite Z.lxor_spec in Hb. by destruct (Z.testbit x j), (Z.testbit y j).
  - intros j' Hj'.
    assert (Z.testbit (Z.lxor x y) j' = false) as Hb by (by apply Z.bits_above_log2).
    rewrite Z.lxor_spec in Hb. by destruct (Z.testbit x j'), (Z.testbit y j').
Qed.

Lemma lxor_byte_range x y : 0 ≤ x < 256 → 0 ≤ y < 256 → x ≠ y → 0 < Z.lxor x y < 256.
Proof.
  intros Hx Hy Hne.
  assert (0 ≤ Z.lxor x y) as H0 by (apply Z.lxor_nonneg; lia).
  assert (Z.lxor x y ≠ 0) as H1 by (by rewrite Z.lxor_eq_0_iff).
  split; [lia|]. apply (Z.log2_lt_pow2 _ 8); [lia|].
  pose proof (Z.log2_lxor x y ltac:(lia) ltac:(lia)) as H.
  assert (∀ z, 0 ≤ z < 256 → Z.log2 z < 8) as Hlog.
  { intros z Hz. destruct (decide (z = 0)) as [->|]; [done|]. apply Z.log2_lt_pow2; lia. }
  pose proof (Hlog x Hx). pose proof (Hlog y Hy). lia.
Qed.

(** ** Keys: finitely many bytes, none of them NUL *)
Lemma byte_at_range k b : nonul k → 0 ≤ byte_at k b < 256.
Proof.
  intros Hk. unfold byte_at. destruct (nth_in_or_default (Z.to_nat b) k 0) as [Hin| ->]; [|lia].
  unfold nonul in Hk. rewrite Forall_forall in Hk.
  apply list_elem_of_In in Hin. apply Hk in Hin. lia.
Qed.

Lemma byte_at_inside k b : nonul k → 0 ≤ b < Z.of_nat (length k) → 0 < byte_at k b < 256.
Proof.
  intros Hk Hb. unfold byte_at. unfold nonul in Hk. rewrite Forall_forall in Hk.
  apply Hk, list_elem_of_In, nth_In. lia.
Qed.

Lemma byte_at_outside k b : Z.of_nat (length k) ≤ b → byte_at k b = 0.
Proof. intros Hb. unfold byte_at. apply nth_overflow. lia. Qed.

(** Reading byte [b] of the buffer of a key, up to and including its NUL. *)
Lemma buf_get_cstr k b :
  0 ≤ b ≤ Z.of_nat (length k) → buf_get (cstr k) b = Done (byte_at k b).
Proof.
  intros Hb. unfold byte_at, cstr. destruct (decide (b = Z.of_nat (length k))) as [->|Hne].
  - apply buf_get_Some; [lia|]. rewrite Nat2Z.id, list_lookup_middle by done.
    by rewrite nth_overflow.
  - apply buf_get_Some; [lia|]. rewrite lookup_app_l by lia.
    destruct (nth_lookup_or_length k (Z.to_nat b) 0) as [H|H]; [done|lia].
Qed.

(** Bits decide bytes, bytes decide keys. *)
Lemma bits_byte k1 k2 b :
  nonul k1 → nonul k2 → 0 ≤ b → agree_below (8 * b + 8) k1 k2 → byte_at k1 b = byte_at k2 b.
Proof.
  intros H1 H2 Hb Hag. apply Z.bits_inj'. intros j Hj.
  destruct (Z.ltb_spec j 8).
  - rewrite <-!kbit_crit by lia. apply Hag. lia.
  - pose proof (byte_at_range k1 b H1). pose proof (byte_at_range k2 b H2).
    assert (∀ z, 0 ≤ z < 256 → Z.testbit z j = false) as Hhi.
    { intros z Hz. destruct (decide (z = 0)) as [->|]; [apply Z.testbit_0_l|].
      apply Z.bits_above_log2; [lia|]. eapply Z.lt_le_trans; [|eassumption].
      apply Z.log2_lt_pow2; lia. }
    by rewrite !Hhi.
Qed.

Lemma byte_bits k1 k2 b j :
  0 ≤ b → byte_at k1 b = byte_at k2 b → 8 * b ≤ j < 8 * b + 8 → kbit k1 j = kbit k2 j.
Proof.
  intros Hb Heq Hj. unfold kbit. assert (j / 8 = b) as -> by (symmetry; apply Z.div_unique with (j - 8 * b); lia).
  by rewrite Heq.
Qed.

Lemma bytes_agree k1 k2 n :
  (∀ b, 0 ≤ b < n → byte_at k1 b = byte_at k2 b) → agree_below (8 * n) k1 k2.
Proof.
  intros Heq j Hj. apply (byte_bits _ _ (j / 8)).
  - apply Z.div_pos; lia.
  - apply Heq. split; [apply Z.div_pos; lia|]. apply Z.div_lt_upper_bound; lia.
  - pose proof (Z.mod_pos_bound j 8). pose proof (Z.div_mod j 8). lia.
Qed.

Lemma key_ext k1 k2 :
  nonul k1 → nonul k2 → (∀ b, 0 ≤ b → byte_at k1 b = byte_at k2 b) → k1 = k2.
Proof.
  revert k2. induction k1 as [|x k1 IH]; intros [|y k2] H1 H2 Heq; [done|..].
  - apply nonul_cons in H2 as [Hy _]. specialize (Heq 0 ltac:(lia)). unfold byte_at in Heq. simpl in Heq. lia.
  - apply nonul_cons in H1 as [Hx _]. specialize (Heq 0 ltac:(lia)). unfold byte_at in Heq. simpl in Heq. lia.
  - apply nonul_cons in H1 as [Hx H1], H2 as [Hy H2]. f_equal.
    + by specialize (Heq 0 ltac:(lia)).
    + apply IH; [done..|]. intros b Hb. specialize (Heq (b + 1) ltac:(lia)).
      unfold byte_at in Heq. by replace (Z.to_nat (b + 1)) with (S (Z.to_nat b)) in Heq by lia.
Qed.

Lemma key_bits_ext k1 k2 :
  nonul k1 → nonul k2 → (∀ i, 0 ≤ i → kbit k1 i = kbit k2 i) → k1 = k2.
Proof.
  intros H1 H2 Heq. apply key_ext; [done..|]. intros b Hb.
  apply bits_byte; [done..|]. intros j Hj. apply Heq. lia.
Qed.
