(* ===== verification/Own.v ===== *)
(** * Own: exact ownership of a part of memory

    [owns cells fr m]: memory [m] is made of the listed blocks, each at its
    own address, and of the frame [fr], which none of them touches.  The lemmas
    are the rules of loads, stores, allocation and release; because the list
    is exact, they also show that nothing leaks. *)

From S2P Require Import Prelude.

Section own.
Context {V : Type}.
Implicit Types (cells : list (Z * V)) (fr m : gmap Z V) (a : Z) (b : V).

Definition owns cells fr m : Prop :=
  NoDup cells.*1 ∧ (∀ a, a ∈ cells.*1 → fr !! a = None) ∧ m = list_to_map cells ∪ fr.

#[global] Instance owns_proper :
  Proper ((≡ₚ) ==> (=) ==> (=) ==> iff) owns.
Proof.
  assert (∀ c1 c2 fr m, c1 ≡ₚ c2 → owns c1 fr m → owns c2 fr m) as H.
  { intros c1 c2 fr m Hp (Hnd & Hfr & ->). split; [by rewrite <-Hp|]. split.
    - intros a Ha. apply Hfr. by rewrite Hp.
    - by rewrite (list_to_map_proper c1 c2 Hnd Hp). }
  intros c1 c2 Hp fr ? <- m ? <-. split; by apply H.
Qed.

Lemma owns_perm cs cs' fr m : cs ≡ₚ cs' → owns cs fr m → owns cs' fr m.
Proof. by intros ->. Qed.

Lemma owns_lookup cells fr m a b : owns cells fr m → (a, b) ∈ cells → m !! a = Some b.
Proof.
  intros (Hnd & _ & ->) Hin. apply lookup_union_Some_l. by apply elem_of_list_to_map_1.
Qed.

Lemma owns_lookup_hd cells fr m a b : owns ((a, b) :: cells) fr m → m !! a = Some b.
Proof. intros H. eapply owns_lookup; [done|]. apply elem_of_cons. by left. Qed.

Lemma owns_frame cells fr m a b : owns cells fr m → fr !! a = Some b → m !! a = Some b.
Proof.
  intros (Hnd & Hfr & ->) Ha. rewrite lookup_union_r; [done|].
  apply not_elem_of_list_to_map_1. intros Hin%Hfr. congruence.
Qed.

Lemma owns_store cells fr m a b b' :
  owns ((a, b) :: cells) fr m → owns ((a, b') :: cells) fr (<[a := b']> m).
Proof.
  intros (Hnd & Hfr & ->). split; [done|]. split; [done|]. cbn.
  by rewrite !insert_union_l, insert_insert_eq.
Qed.

Lemma owns_alloc cells fr m a b :
  m !! a = None → owns cells fr m → owns ((a, b) :: cells) fr (<[a := b]> m).
Proof.
  intros Hfresh (Hnd & Hfr & ->).
  apply lookup_union_None in Hfresh as [Hc Hf]. split; [|split].
  - cbn. apply NoDup_cons. split; [|done]. by apply not_elem_of_list_to_map in Hc.
  - cbn. intros a' [->|Ha']%elem_of_cons; auto.
  - cbn. by rewrite insert_union_l.
Qed.

Lemma owns_free cells fr m a b : owns ((a, b) :: cells) fr m → owns cells fr (delete a m).
Proof.
  intros (Hnd & Hfr & ->). cbn in Hnd. apply NoDup_cons in Hnd as [Hnin Hnd].
  split; [done|]. split; [intros; apply Hfr; by apply elem_of_cons; right|].
  cbn. rewrite delete_union, delete_insert_id by (by apply not_elem_of_list_to_map).
  rewrite (delete_id fr); [done|]. apply Hfr. by apply elem_of_cons; left.
Qed.

Lemma owns_frame_insert cells fr m a b :
  m !! a = None → owns cells fr m → owns cells (<[a := b]> fr) (<[a := b]> m).
Proof.
  intros Hfresh Hm. apply (owns_alloc _ _ _ a b Hfresh) in Hm as (Hnd & Hfr & Heq).
  cbn in Hnd. apply NoDup_cons in Hnd as [Hnin Hnd]. split; [done|]. split.
  - intros a' Ha'. rewrite lookup_insert_ne by congruence. apply Hfr. by apply elem_of_cons; right.
  - rewrite Heq. cbn. rewrite <-insert_union_l, insert_union_r; [done|].
    by apply not_elem_of_list_to_map_1.
Qed.

(** A block is handed over to the frame. *)
Lemma owns_to_frame cells fr m a b :
  owns ((a, b) :: cells) fr m → owns cells (<[a := b]> fr) m.
Proof.
  intros (Hnd & Hfr & ->). cbn in Hnd. apply NoDup_cons in Hnd as [Hnin Hnd]. split; [done|]. split.
  - intros a' Ha'. rewrite lookup_insert_ne by congruence. apply Hfr. by apply elem_of_cons; right.
  - cbn. rewrite <-insert_union_l, insert_union_r; [done|]. by apply not_elem_of_list_to_map_1.
Qed.

(** And taken back. *)
Lemma owns_from_frame cells fr m a b :
  fr !! a = None → owns cells (<[a := b]> fr) m → owns ((a, b) :: cells) fr m.
Proof.
  intros Ha (Hnd & Hfr & ->). assert (a ∉ cells.*1) as Hnin.
  { intros Hin%Hfr. by rewrite lookup_insert_eq in Hin. }
  split; [by apply NoDup_cons|]. split.
  - intros a' [-> | Ha']%elem_of_cons; [done|]. specialize (Hfr a' Ha'). by apply lookup_insert_None in Hfr as [? _].
  - cbn. rewrite <-insert_union_l, insert_union_r; [done|]. by apply not_elem_of_list_to_map_1.
Qed.

(** Some of the blocks become part of the frame. *)
Lemma owns_split cs1 cs2 fr m :
  owns (cs1 ++ cs2) fr m → ∃ fr', owns cs1 fr fr' ∧ owns cs2 fr' m.
Proof.
  intros (Hnd & Hfr & ->). rewrite fmap_app in Hnd, Hfr. apply NoDup_app in Hnd as (Hnd1 & Hdis & Hnd2).
  exists (list_to_map cs1 ∪ fr). split; (split; [done|]); split.
  - intros a Ha. apply Hfr, elem_of_app. by left.
  - done.
  - intros a Ha. apply lookup_union_None. split; [|apply Hfr, elem_of_app; by right].
    apply not_elem_of_list_to_map_1. intros Hin. by apply (Hdis a Hin).
  - rewrite list_to_map_app, assoc_L by apply _. f_equal. apply map_union_comm, map_disjoint_spec.
    intros a x y Hx Hy. apply (Hdis a).
    + apply elem_of_list_to_map_2 in Hx. by apply (list_elem_of_fmap_2 fst _ (a, x)).
    + apply elem_of_list_to_map_2 in Hy. by apply (list_elem_of_fmap_2 fst _ (a, y)).
Qed.

Lemma owns_join cs1 cs2 fr fr' m : owns cs1 fr fr' → owns cs2 fr' m → owns (cs1 ++ cs2) fr m.
Proof.
  intros (Hnd1 & Hfr1 & ->) (Hnd2 & Hfr2 & ->).
  assert (∀ a, a ∈ cs2.*1 → a ∉ cs1.*1 ∧ fr !! a = None) as Hfr.
  { intros a [Hc Hf]%Hfr2%lookup_union_None. split; [|done]. by apply not_elem_of_list_to_map. }
  split; [|split].
  - rewrite fmap_app. apply NoDup_app. split; [done|]. split; [|done]. intros a Ha Ha'. by apply (Hfr a Ha').
  - intros a. rewrite fmap_app. intros [Ha|Ha]%elem_of_app; [by apply Hfr1|by apply Hfr].
  - rewrite list_to_map_app, (map_union_comm (list_to_map cs1) (list_to_map cs2)); [by rewrite map_union_assoc|].
    apply map_disjoint_spec. intros a b b' Hb Hb'. apply elem_of_list_to_map_2 in Hb, Hb'.
    apply (Hfr a); by apply (list_elem_of_fmap_2 fst _ _) in Hb, Hb'.
Qed.

Lemma owns_frame_delete cells fr m a b :
  owns cells fr m → fr !! a = Some b → owns cells (delete a fr) (delete a m).
Proof.
  intros (Hnd & Hfr & ->) Ha. assert (a ∉ cells.*1) as Hnin by (intros Hin%Hfr; congruence).
  split; [done|]. split.
  - intros a' Ha'. rewrite lookup_delete_ne by congruence. by apply Hfr.
  - rewrite delete_union, (delete_id (list_to_map cells)); [done|]. by apply not_elem_of_list_to_map_1.
Qed.

Lemma owns_size cells fr m : owns cells fr m → (length cells ≤ size m)%nat.
Proof.
  intros (Hnd & Hfr & ->). rewrite map_size_disj_union.
  - rewrite map_size_list_to_map by done. lia.
  - apply map_disjoint_spec. intros a x y Hx Hy.
    assert (a ∈ cells.*1) as Ha.
    { apply elem_of_list_to_map_2 in Hx. apply list_elem_of_fmap. by exists (a, x). }
    rewrite (Hfr a Ha) in Hy. done.
Qed.

Lemma owns_nil fr m : owns [] fr m ↔ m = fr.
Proof.
  split.
  - intros (_ & _ & ->). cbn. by rewrite map_empty_union.
  - intros ->. split; [apply NoDup_nil_2|]. split; [by intros a ?%elem_of_nil|].
    cbn. by rewrite map_empty_union.
Qed.

(** What is owned, with the frame, is the whole memory. *)
Lemma owns_unique cells fr m m' : owns cells fr m → owns cells fr m' → m = m'.
Proof. by intros (_ & _ & ->) (_ & _ & ->). Qed.

Lemma owns_fresh cells fr m a : owns cells fr m → m !! a = None → a ∉ cells.*1.
Proof.
  intros (_ & _ & ->) [Hc _]%lookup_union_None. by apply not_elem_of_list_to_map.
Qed.
End own.

(** [own_store H]: after a store to the first owned block, bring the ownership
    [H] up to the memory in the goal. *)
Ltac own_store H :=
  match goal with
  | |- context [<[?a := ?b]> ?m] =>
      match type of H with
      | owns ((a, _) :: _) _ m => apply (owns_store _ _ _ _ _ b) in H
      end
  end.

(** [in_cells]: a block that is visible in a list of blocks is in it. *)
Ltac in_cells := repeat first [by apply list_elem_of_here | apply list_elem_of_further].
