(* ===== verification/Critbit.v ===== *)
(** * Critbit: the critical-bit tree of critbit.c and critbit_common.h

    The code works on tagged pointers into malloc'ed blocks, so the model
    keeps a memory: a finite map from block addresses to blocks.  Every
    function of critbit.c is a command over that memory ([cmd mem]), written
    in the order of the C statements; [void **wherep] is a [slot], i.e. the
    address of a pointer field.  Loops take the number of live blocks as
    fuel: a pointer chain that visits a block twice is cyclic. *)

From S2P Require Import Prelude.
From S2P Require Import KeyBits.

(** ** Data *)

Record critbit_node := Node {
  child0 : Z;
  child1 : Z;
  byte : Z;
  otherbits : Z;
}.

(** A pthread rwlock: how many readers hold it, whether a writer does. *)
Record rwlock := Rwlock { readers : Z; writer : bool }.
Inductive lock_id := left_lock | right_lock.

Record critbit_root := Root {
  head : Z;
  wlock : bool;
  left_rwlock : rwlock;
  right_rwlock : rwlock;
  cur_rwlock : lock_id;
  prev_rwlock : lock_id;
}.

(** The three kinds of block critbit.c allocates: a node, a root, and a key
    with the value pointer stored in front of it. *)
Inductive block :=
  | BNode (n : critbit_node)
  | BRoot (r : critbit_root)
  | BString (value : Z) (chars : list Z).

Notation mem := (gmap Z block).

#[export] Instance lock_id_eq_dec : EqDecision lock_id.
Proof. solve_decision. Defined.
#[export] Instance rwlock_eq_dec : EqDecision rwlock.
Proof. solve_decision. Defined.
#[export] Instance critbit_root_eq_dec : EqDecision critbit_root.
Proof. solve_decision. Defined.
#[export] Instance critbit_node_eq_dec : EqDecision critbit_node.
Proof. solve_decision. Defined.
#[export] Instance block_eq_dec : EqDecision block.
Proof. solve_decision. Defined.

(** ** Pointers *)
Definition PTR_SIZE : Z := 8.

Definition IS_INTERNAL (ptr : Z) : bool := negb (Z.land ptr 1 =? 0).
Definition TO_NODE (ptr : Z) : Z := Z.land ptr (Z.lnot 1).
Definition FROM_NODE (node : Z) : Z := node + 1.

(** ** Field updates *)
Definition set_head (p : Z) (r : critbit_root) : critbit_root :=
  Root p (wlock r) (left_rwlock r) (right_rwlock r) (cur_rwlock r) (prev_rwlock r).
Definition set_wlock (b : bool) (r : critbit_root) : critbit_root :=
  Root (head r) b (left_rwlock r) (right_rwlock r) (cur_rwlock r) (prev_rwlock r).
Definition set_cur (l : lock_id) (r : critbit_root) : critbit_root :=
  Root (head r) (wlock r) (left_rwlock r) (right_rwlock r) l (prev_rwlock r).
Definition set_prev (l : lock_id) (r : critbit_root) : critbit_root :=
  Root (head r) (wlock r) (left_rwlock r) (right_rwlock r) (cur_rwlock r) l.
Definition get_rwlock (l : lock_id) (r : critbit_root) : rwlock :=
  match l with left_lock => left_rwlock r | right_lock => right_rwlock r end.
Definition set_rwlock (l : lock_id) (w : rwlock) (r : critbit_root) : critbit_root :=
  match l with
  | left_lock => Root (head r) (wlock r) w (right_rwlock r) (cur_rwlock r) (prev_rwlock r)
  | right_lock => Root (head r) (wlock r) (left_rwlock r) w (cur_rwlock r) (prev_rwlock r)
  end.

Definition set_byte (b : Z) (n : critbit_node) : critbit_node :=
  Node (child0 n) (child1 n) b (otherbits n).
Definition set_otherbits (o : Z) (n : critbit_node) : critbit_node :=
  Node (child0 n) (child1 n) (byte n) o.
(** [n->child[dir]]: an array of two. *)
Definition child (n : critbit_node) (dir : Z) : outcome Z :=
  if dir =? 0 then Done (child0 n) else if dir =? 1 then Done (child1 n) else Undef.
Definition set_child (dir p : Z) (n : critbit_node) : outcome critbit_node :=
  if dir =? 0 then Done (Node p (child1 n) (byte n) (otherbits n))
  else if dir =? 1 then Done (Node (child0 n) p (byte n) (otherbits n))
  else Undef.

(** ** Loads and stores *)
Definition load_node (a : Z) : cmd mem critbit_node := λ m,
  match m !! a with Some (BNode n) => Done (n, m) | _ => Undef end.
Definition store_node (a : Z) (n : critbit_node) : cmd mem unit := λ m,
  match m !! a with Some (BNode _) => Done (tt, <[a := BNode n]> m) | _ => Undef end.
Definition load_root (a : Z) : cmd mem critbit_root := λ m,
  match m !! a with Some (BRoot r) => Done (r, m) | _ => Undef end.
Definition store_root (a : Z) (r : critbit_root) : cmd mem unit := λ m,
  match m !! a with Some (BRoot _) => Done (tt, <[a := BRoot r]> m) | _ => Undef end.

(** The characters a key pointer points to, and the value stored in front of
    them: a key pointer is one pointer size into its block. *)
Definition load_chars (p : Z) : cmd mem (list Z) := λ m,
  match m !! (p - PTR_SIZE) with Some (BString _ cs) => Done (cs, m) | _ => Undef end.
Definition load_value (p : Z) : cmd mem Z := λ m,
  match m !! (p - PTR_SIZE) with Some (BString v _) => Done (v, m) | _ => Undef end.
Definition load_byte (p i : Z) : cmd mem Z := cs ← load_chars p; lift (buf_get cs i).

Definition free (a : Z) : cmd mem unit := λ m,
  match m !! a with Some _ => Done (tt, delete a m) | None => Undef end.

(** A pointer variable: the root's [head] or a node's [child[dir]]. *)
Inductive slot := SHead (root : Z) | SChild (node : Z) (dir : Z).

Definition load_slot (s : slot) : cmd mem Z :=
  match s with
  | SHead a => r ← load_root a; mret (head r)
  | SChild a dir => n ← load_node a; lift (child n dir)
  end.
Definition store_slot (s : slot) (p : Z) : cmd mem unit :=
  match s with
  | SHead a => r ← load_root a; store_root a (set_head p r)
  | SChild a dir => n ← load_node a; n' ← lift (set_child dir p n); store_node a n'
  end.

(** The number of live blocks bounds every walk down the tree. *)
Definition walk_fuel : cmd mem nat := λ m, Done (S (size m), m).

(** ** malloc

    [malloc m size] is the address the C library returns in memory [m], or
    [None] for a null pointer.  Fresh memory is indeterminate: it holds
    arbitrary contents.  The laws are those of the C standard: the address is
    not null, not in use, and suitably aligned. *)
Class Malloc := {
  malloc : mem → Z → option Z;
  garbage_node : critbit_node;
  garbage_root : critbit_root;
  garbage_value : Z;
  garbage_chars : list Z;
}.

Class MallocSpec (M : Malloc) := {
  malloc_fresh m n a : malloc m n = Some a → m !! a = None;
  malloc_align m n a : malloc m n = Some a → a mod 16 = 0;
  malloc_nonnull m n a : malloc m n = Some a → 0 < a;
}.

Section code.
Context `{Malloc}.

Definition malloc_block (size : Z) (contents : block) : cmd mem Z := λ m,
  match malloc m size with
  | Some a => Done (a, <[a := contents]> m)
  | None => Done (0, m)
  end.

(** ** critbit_common.h *)

Definition SIZEOF_NODE : Z := 24.
Definition SIZEOF_ROOT : Z := 176.

Definition alloc_string (key : list Z) (len value : Z) : cmd mem Z :=
  p ← malloc_block (u64 (len + PTR_SIZE + 1)) (BString garbage_value garbage_chars);
  if p =? 0 then mret 0
  else
    m ← get_state;
    _ ← put_state (<[p := BString value garbage_chars]> m);
    chars ← lift (buf_take key (len + 1));
    m ← get_state;
    _ ← put_state (<[p := BString value chars]> m);
    mret (p + PTR_SIZE).

Definition free_string (key : Z) : cmd mem unit := free (key - PTR_SIZE).

Definition free_node (node : Z) : cmd mem unit := free node.

Definition alloc_node : cmd mem Z := malloc_block SIZEOF_NODE (BNode garbage_node).

Definition get_direction (node : critbit_node) (bytes : list Z) (bytelen : Z) : outcome Z :=
  if u64 (byte node) <? bytelen then
    c ← buf_get bytes (byte node);
    Done (Z.shiftr (1 + Z.lor (otherbits node) c) 8)
  else Done 0.

Fixpoint find_nearest_loop (fuel : nat) (p : Z) (bytes : list Z) (bytelen : Z) : cmd mem Z :=
  match fuel with
  | O => nofuel
  | S fuel =>
      if IS_INTERNAL p then
        node ← load_node (TO_NODE p);
        dir ← lift (get_direction node bytes bytelen);
        p ← lift (child node dir);
        find_nearest_loop fuel p bytes bytelen
      else mret p
  end.
Definition find_nearest (p : Z) (bytes : list Z) (bytelen : Z) : cmd mem Z :=
  fuel ← walk_fuel; find_nearest_loop fuel p bytes bytelen.
End code.

Section locks.
(** ** The pthread calls, on a lock stored in the root block *)

Definition pthread_mutex_lock (root : Z) : cmd mem unit :=
  r ← load_root root;
  if wlock r then blocked else store_root root (set_wlock true r).
Definition pthread_mutex_unlock (root : Z) : cmd mem unit :=
  r ← load_root root;
  if wlock r then store_root root (set_wlock false r) else undef.

Definition pthread_rwlock_rdlock (root : Z) (l : lock_id) : cmd mem unit :=
  r ← load_root root;
  let w := get_rwlock l r in
  if writer w then blocked
  else store_root root (set_rwlock l (Rwlock (readers w + 1) false) r).
Definition pthread_rwlock_wrlock (root : Z) (l : lock_id) : cmd mem unit :=
  r ← load_root root;
  let w := get_rwlock l r in
  if writer w || (0 <? readers w) then blocked
  else store_root root (set_rwlock l (Rwlock (readers w) true) r).
Definition pthread_rwlock_unlock (root : Z) (l : lock_id) : cmd mem unit :=
  r ← load_root root;
  let w := get_rwlock l r in
  if writer w then store_root root (set_rwlock l (Rwlock (readers w) false) r)
  else if 0 <? readers w then store_root root (set_rwlock l (Rwlock (readers w - 1) false) r)
  else undef.

(** [__sync_val_compare_and_swap] on the two lock pointers: returns the old
    value, and stores the new one when the old one is as expected. *)
Definition cas_cur (root : Z) (old new : lock_id) : cmd mem lock_id :=
  r ← load_root root;
  if decide (cur_rwlock r = old)
  then _ ← store_root root (set_cur new r); mret (cur_rwlock r)
  else mret (cur_rwlock r).
Definition cas_prev (root : Z) (old new : lock_id) : cmd mem lock_id :=
  r ← load_root root;
  if decide (prev_rwlock r = old)
  then _ ← store_root root (set_prev new r); mret (prev_rwlock r)
  else mret (prev_rwlock r).
End locks.

Section critbit.
Context `{Malloc}.

(** ** critbit.c *)

Definition critbit_new : cmd mem Z :=
  root ← malloc_block SIZEOF_ROOT (BRoot garbage_root);
  if root =? 0 then undef
  else
    r ← load_root root;
    _ ← store_root root (set_head 0 r);
    r ← load_root root;
    _ ← store_root root (set_wlock false r);
    r ← load_root root;
    _ ← store_root root (set_rwlock left_lock (Rwlock 0 false) r);
    r ← load_root root;
    _ ← store_root root (set_rwlock right_lock (Rwlock 0 false) r);
    r ← load_root root;
    _ ← store_root root (set_cur left_lock r);
    r ← load_root root;
    _ ← store_root root (set_prev right_lock r);
    mret root.

(** The byte loop: the first position where the nearest key and the new key
    differ, with the exclusive or of the two bytes there (the byte of the
    nearest key itself when the new key ends); [None] for "already there". *)
Fixpoint diff_loop (fuel : nat) (p : Z) (bytes : list Z) (keylen newbyte : Z)
    : cmd mem (option (Z * Z)) :=
  match fuel with
  | O => nofuel
  | S fuel =>
      if newbyte <? u32 keylen then
        x ← load_byte p newbyte;
        y ← lift (buf_get bytes newbyte);
        if x =? y then diff_loop fuel p bytes keylen (u32 (newbyte + 1))
        else mret (Some (newbyte, u8 (Z.lxor x y)))
      else
        x ← load_byte p newbyte;
        if x =? 0 then mret None else mret (Some (newbyte, x))
  end.

(** The second walk: down to the pointer where the new node goes. *)
Fixpoint insert_loop (fuel : nat) (wherep : slot) (newbyte newotherbits : Z)
    (bytes : list Z) (keylen : Z) : cmd mem slot :=
  match fuel with
  | O => nofuel
  | S fuel =>
      p ← load_slot wherep;
      if negb (IS_INTERNAL p) then mret wherep
      else
        q ← load_node (TO_NODE p);
        if newbyte <? u32 (byte q) then mret wherep
        else if (u32 (byte q) =? newbyte) && (newotherbits <? otherbits q) then mret wherep
        else
          dir ← lift (get_direction q bytes (u64 keylen));
          insert_loop fuel (SChild (TO_NODE p) dir) newbyte newotherbits bytes keylen
  end.

(** The tail of [critbit_insert_inplace]: fill in the new node and hang it
    where the second walk stops. *)
Definition insert_link (root : Z) (key : list Z) (keylen node x newbyte newotherbits
    newdirection : Z) : cmd mem Z :=
  n ← load_node node;
  _ ← store_node node (set_byte newbyte n);
  n ← load_node node;
  _ ← store_node node (set_otherbits newotherbits n);
  _ ← store_slot (SChild node (1 - newdirection)) x;
  fuel ← walk_fuel;
  wherep ← insert_loop fuel (SHead root) newbyte newotherbits key keylen;
  old ← load_slot wherep;
  _ ← store_slot (SChild node newdirection) old;
  _ ← store_slot wherep (FROM_NODE node);
  mret 0.

(** The code from the label [found]: [p] is the nearest key, [bits] the
    exclusive or of the first two bytes that differ. *)
Definition insert_found (root : Z) (key : list Z) (keylen value p newbyte bits : Z)
    : cmd mem Z :=
  bits ← lift (clear_low 8 bits);
  let newotherbits := Z.lxor bits 255 in
  c ← load_byte p newbyte;
  let newdirection := Z.shiftr (1 + Z.lor newotherbits c) 8 in
  node ← alloc_node;
  if node =? 0 then mret 1
  else
    x ← alloc_string key keylen value;
    if x =? 0 then _ ← free node; mret 1
    else insert_link root key keylen node x newbyte newotherbits newdirection.

Definition critbit_insert_inplace (root : Z) (key : list Z) (keylen value : Z) : cmd mem Z :=
  r ← load_root root;
  if head r =? 0 then
    p ← alloc_string key keylen value;
    if p =? 0 then mret 1
    else _ ← store_slot (SHead root) p; mret 0
  else
    p ← find_nearest (head r) key (u64 keylen);
    diff ← diff_loop (S (Z.to_nat (u32 keylen))) p key keylen 0;
    match diff with
    | None => mret 1
    | Some (newbyte, bits) => insert_found root key keylen value p newbyte bits
    end.

Definition critbit_insert (root : Z) (key : list Z) (value : Z) : cmd mem Z :=
  len ← lift (strlen key);
  _ ← pthread_mutex_lock root;
  ret ← critbit_insert_inplace root key (s32 len) value;
  _ ← pthread_mutex_unlock root;
  mret ret.

(** The walk of [critbit_delete_inplace]: the leaf reached, with the last
    values of [wherep], [whereq], [q] and [dir]. *)
Fixpoint delete_loop (fuel : nat) (p : Z) (wherep : slot) (whereq : option slot)
    (q dir : Z) (bytes : list Z) (keylen : Z) : cmd mem (Z * option slot * Z * Z) :=
  match fuel with
  | O => nofuel
  | S fuel =>
      if IS_INTERNAL p then
        n ← load_node (TO_NODE p);
        dir ← lift (get_direction n bytes (u64 keylen));
        p' ← load_slot (SChild (TO_NODE p) dir);
        delete_loop fuel p' (SChild (TO_NODE p) dir) (Some wherep) (TO_NODE p) dir bytes keylen
      else mret (p, whereq, q, dir)
  end.

Definition critbit_delete_inplace (root : Z) (key : list Z) (keylen : Z) : cmd mem Z :=
  r ← load_root root;
  if head r =? 0 then mret 0
  else
    fuel ← walk_fuel;
    res ← delete_loop fuel (head r) (SHead root) None 0 0 key keylen;
    let '(p, whereq, q, dir) := res in
    chars ← load_chars p;
    cmp ← lift (strcmp key chars);
    if negb (cmp =? 0) then mret 0
    else
      match whereq with
      | None => _ ← store_slot (SHead root) 0; mret p
      | Some whereq =>
          other ← load_slot (SChild q (1 - dir));
          _ ← store_slot whereq other;
          mret (FROM_NODE q)
      end.

(** The middle of [critbit_delete]: swap the two reader locks, then pass
    through the old one as a writer, i.e. wait for its readers to leave. *)
Definition wait_readers (root : Z) : cmd mem unit :=
  r ← load_root root;
  let lock := cur_rwlock r in
  let newlock := prev_rwlock r in
  _ ← cas_cur root lock newlock;
  _ ← cas_prev root newlock lock;
  _ ← pthread_rwlock_wrlock root lock;
  pthread_rwlock_unlock root lock.

(** The end of [critbit_delete]: free what [critbit_delete_inplace] has
    unlinked, a lone key or a node with the key on one of its sides. *)
Definition free_unlinked (key : list Z) (p : Z) : cmd mem Z :=
  if negb (IS_INTERNAL p) then _ ← free_string p; mret 0
  else
    node ← load_node (TO_NODE p);
    first ←
      (if IS_INTERNAL (child0 node) then mret false
       else
         chars ← load_chars (child0 node);
         cmp ← lift (strcmp key chars);
         mret (cmp =? 0));
    if (first : bool) then
      _ ← free_string (child0 node);
      _ ← free_node (TO_NODE p);
      mret 0
    else
      _ ← free_string (child1 node);
      _ ← free_node (TO_NODE p);
      mret 0.

Definition critbit_delete (root : Z) (key : list Z) : cmd mem Z :=
  len ← lift (strlen key);
  _ ← pthread_mutex_lock root;
  p ← critbit_delete_inplace root key (s32 len);
  _ ← wait_readers root;
  _ ← pthread_mutex_unlock root;
  if p =? 0 then mret 1 else free_unlinked key p.

(** [critbit_get] returns its status and the final contents of [*out]. *)
Definition critbit_get (root : Z) (key : list Z) (out : Z) : cmd mem (Z * Z) :=
  len ← lift (strlen key);
  r ← load_root root;
  let lock := cur_rwlock r in
  _ ← pthread_rwlock_rdlock root lock;
  r ← load_root root;
  nearest ← find_nearest (head r) key (u64 (s32 len));
  chars ← load_chars nearest;
  cmp ← lift (strcmp chars key);
  res ←
    (if cmp =? 0 then v ← load_value nearest; mret (0, v)
     else mret (1, out));
  _ ← pthread_rwlock_unlock root lock;
  mret res.

Definition critbit_contains (root : Z) (key : list Z) : cmd mem Z :=
  res ← critbit_get root key 0; mret res.1.

Fixpoint clear_node_loop (fuel : nat) (p : Z) : cmd mem unit :=
  match fuel with
  | O => nofuel
  | S fuel =>
      if IS_INTERNAL p then
        node ← load_node (TO_NODE p);
        _ ← clear_node_loop fuel (child0 node);
        node ← load_node (TO_NODE p);
        _ ← clear_node_loop fuel (child1 node);
        free (TO_NODE p)
      else free_string p
  end.
Definition clear_node (p : Z) : cmd mem unit := fuel ← walk_fuel; clear_node_loop fuel p.

Definition critbit_clear (root : Z) : cmd mem unit :=
  r ← load_root root;
  if head r =? 0 then mret tt
  else
    _ ← clear_node (head r);
    _ ← store_slot (SHead root) 0;
    free root.

(** ** The depth statistics of critbit_common.h

    [out] is the histogram array; [log] collects what [printf] writes. *)
Inductive message := overflow (depth : Z) | depth_count (depth count : Z) | newline.

Definition incr_at (out : list Z) (i : Z) : outcome (list Z) :=
  n ← buf_get out i; Done (<[Z.to_nat i := n + 1]> out).

Fixpoint fill_depth_loop (fuel : nat) (ptr depth : Z) (out : list Z) (outsize : Z)
    (log : list message) : cmd mem (list Z * list message) :=
  match fuel with
  | O => nofuel
  | S fuel =>
      if negb (IS_INTERNAL ptr) then
        if outsize <? depth then mret (out, log ++ [overflow depth])
        else out ← lift (incr_at out depth); mret (out, log)
      else
        node ← load_node (TO_NODE ptr);
        res ← fill_depth_loop fuel (child0 node) (depth + 1) out outsize log;
        node ← load_node (TO_NODE ptr);
        fill_depth_loop fuel (child1 node) (depth + 1) res.1 outsize res.2
  end.
Definition fill_depth (ptr depth : Z) (out : list Z) (outsize : Z) (log : list message)
    : cmd mem (list Z * list message) :=
  fuel ← walk_fuel; fill_depth_loop fuel ptr depth out outsize log.

Definition DEPTH_SIZE : Z := 100.

(** The lines [info] prints: the depths that occur, in order. *)
Fixpoint print_depths (i : Z) (dist : list Z) : list message :=
  match dist with
  | [] => [newline]
  | n :: dist => (if n =? 0 then [] else [depth_count i n]) ++ print_depths (i + 1) dist
  end.

Definition info (root : Z) : cmd mem (list message) :=
  let depth_dist := replicate (Z.to_nat DEPTH_SIZE) 0 in
  r ← load_root root;
  res ← fill_depth (head r) 0 depth_dist DEPTH_SIZE [];
  mret (res.2 ++ print_depths 0 res.1).

(** ** The map interface of helper.h over the tree (critbit_common.h) *)
Definition init : cmd mem Z := critbit_new.
Definition add (obj : Z) (key : list Z) (val : Z) : cmd mem Z := critbit_insert obj key val.
Definition find (obj : Z) (key : list Z) : cmd mem Z :=
  res ← critbit_get obj key 0; mret res.2.
Definition del (obj : Z) (key : list Z) : cmd mem Z := critbit_delete obj key.
Definition clear (obj : Z) : cmd mem unit := critbit_clear obj.
End critbit.

(** ** A concrete allocator: the next multiple of 16 above every block *)
Definition bump (m : mem) (_ : Z) : option Z :=
  Some (16 * (1 + map_fold (λ a _ r, Z.max (Z.abs a) r) 0 m)).

#[export] Instance bump_malloc : Malloc := {|
  malloc := bump;
  garbage_node := Node 7 7 7 7;
  garbage_root := Root 7 true (Rwlock 7 true) (Rwlock 7 true) right_lock right_lock;
  garbage_value := 7;
  garbage_chars := [7];
|}.

(** An allocator whose memory is exhausted. *)
Definition no_malloc : Malloc := {|
  malloc := λ _ _, None;
  garbage_node := Node 7 7 7 7;
  garbage_root := Root 7 true (Rwlock 7 true) (Rwlock 7 true) right_lock right_lock;
  garbage_value := 7;
  garbage_chars := [7];
|}.
