(* ===== verification/CritTree.v ===== *)
(** * CritTree: the abstract critical-bit tree

    The tree of critbit.c without its memory: leaves hold a key and a value,
    inner nodes a critical bit, and every node remembers the address of its
    block so that the memory can be computed from the tree.  The file states
    the invariant [wf] (all keys below a node agree on the bits before its
    critical bit, and the critical bit decides the side), proves that lookup
    by critical bits finds exactly the keys of the tree, and that insertion
    and removal preserve the invariant and act on the finite map of the tree
    as insertion and deletion. *)

From S2P Require Import Prelude.
From S2P Require Import KeyBits.
From S2P Require Import Critbit.

Inductive tree :=
  | Leaf (a : Z) (k : list Z) (v : Z)
  | Inner (a b ob : Z) (l r : tree).

(** Keys are C strings whose length fits an [int]. *)
Definition key_ok (k : list Z) : Prop := nonul k ∧ Z.of_nat (length k) < 2 ^ 31.

Fixpoint entries (t : tree) : list (list Z * Z) :=
  match t with
  | Leaf _ k v => [(k, v)]
  | Inner _ _ _ l r => entries l ++ entries r
  end.
Notation keys t := (entries t).*1.

Definition to_map (t : tree) : gmap (list Z) Z := list_to_map (entries t).

Fixpoint height (t : tree) : nat :=
  match t with
  | Leaf _ _ _ => O
  | Inner _ _ _ l r => S (Nat.max (height l) (height r))
  end.

Definition addr_ok (a : Z) : Prop := 0 < a ∧ a mod 16 = 0.

Fixpoint wf (t : tree) : Prop :=
  match t with
  | Leaf a k _ => addr_ok a ∧ key_ok k
  | Inner a b ob l r =>
      addr_ok a ∧ 0 ≤ b < 2 ^ 31 ∧ is_mask ob = true ∧ wf l ∧ wf r ∧
      (∀ k, k ∈ keys l → kbit k (crit_index b ob) = false) ∧
      (∀ k, k ∈ keys r → kbit k (crit_index b ob) = true) ∧
      (∀ k1 k2, k1 ∈ keys l ++ keys r → k2 ∈ keys l ++ keys r →
        agree_below (crit_index b ob) k1 k2)
  end.

(** ** The operations, on trees *)

(** The leaf the critical bits of [k] lead to. *)
Fixpoint nearest (k : list Z) (t : tree) : Z * list Z * Z :=
  match t with
  | Leaf a k' v => (a, k', v)
  | Inner _ b ob l r => nearest k (if kbit k (crit_index b ob) then r else l)
  end.
Notation nearest_key k t := (nearest k t).1.2.

(** Put [mk s] where [critbit_insert_inplace] hangs its new node over [s]. *)
Fixpoint insert_at (k : list Z) (nb nob : Z) (mk : tree → tree) (t : tree) : tree :=
  match t with
  | Leaf _ _ _ => mk t
  | Inner a b ob l r =>
      if crit_after b ob nb nob then mk t
      else if kbit k (crit_index b ob) then Inner a b ob l (insert_at k nb nob mk r)
      else Inner a b ob (insert_at k nb nob mk l) r
  end.

(** The new node: the new leaf on the side of its own critical bit. *)
Definition branch (a nb nob : Z) (side : bool) (leaf s : tree) : tree :=
  if side then Inner a nb nob s leaf else Inner a nb nob leaf s.

(** What insertion of a new key does to a tree, whatever blocks it gets. *)
Definition insertion (k : list Z) (v : Z) (t t' : tree) : Prop :=
  ∃ a x nb nob, t' = insert_at k nb nob (branch a nb nob (kbit k (crit_index nb nob)) (Leaf x k v)) t.

(** Drop the leaf [k] leads to and the node above it. *)
Fixpoint remove (k : list Z) (t : tree) : option tree :=
  match t with
  | Leaf _ _ _ => None
  | Inner a b ob l r =>
      if kbit k (crit_index b ob)
      then Some (match remove k r with None => l | Some r' => Inner a b ob l r' end)
      else Some (match remove k l with None => r | Some l' => Inner a b ob l' r end)
  end.

(** ** Facts about the invariant *)

Lemma keys_inner a b ob l r : keys (Inner a b ob l r) = keys l ++ keys r.
Proof. apply fmap_app. Qed.

Lemma wf_key_ok t k : wf t → k ∈ keys t → key_ok k.
Proof.
  induction t as [a k' v|a b ob l IHl r IHr].
  - intros [_ Hk]. cbn. rewrite list_elem_of_singleton. by intros ->.
  - intros (_ & _ & _ & Hl & Hr & _). rewrite keys_inner, elem_of_app. intros [?|?]; auto.
Qed.

Lemma wf_nonul t k : wf t → k ∈ keys t → nonul k.
Proof. intros Hwf Hk. by destruct (wf_key_ok t k Hwf Hk). Qed.

Lemma nearest_in k t : (nearest_key k t, (nearest k t).2) ∈ entries t.
Proof.
  induction t as [a k' v|a b ob l IHl r IHr]; cbn.
  - by apply list_elem_of_singleton.
  - rewrite elem_of_app. case_match; auto.
Qed.

Lemma nearest_key_in k t : nearest_key k t ∈ keys t.
Proof. apply list_elem_of_fmap. eexists (_, _). split; [|apply nearest_in]. done. Qed.

(** A key of the tree is found where its critical bits lead. *)
Lemma nearest_self k t : wf t → k ∈ keys t → nearest_key k t = k.
Proof.
  induction t as [a k' v|a b ob l IHl r IHr].
  - intros _. cbn. rewrite list_elem_of_singleton. done.
  - intros (_ & _ & _ & Hl & Hr & H0 & H1 & _). rewrite keys_inner, elem_of_app.
    cbn. intros [Hk|Hk]; [rewrite (H0 k Hk)|rewrite (H1 k Hk)]; auto.
Qed.

Lemma nearest_key_iff k t : wf t → nearest_key k t = k ↔ k ∈ keys t.
Proof.
  intros Hwf. split; [|by apply nearest_self]. intros <-. apply nearest_key_in.
Qed.

Lemma wf_NoDup t : wf t → NoDup (keys t).
Proof.
  induction t as [a k v|a b ob l IHl r IHr].
  - intros _. apply NoDup_singleton.
  - intros (_ & _ & _ & Hl & Hr & H0 & H1 & _). rewrite keys_inner, NoDup_app.
    split; [auto|split; [|auto]]. intros k Hkl Hkr. specialize (H0 k Hkl). specialize (H1 k Hkr).
    congruence.
Qed.

Lemma to_map_lookup t k v : wf t → to_map t !! k = Some v ↔ (k, v) ∈ entries t.
Proof. intros Hwf. symmetry. apply elem_of_list_to_map. by apply wf_NoDup. Qed.

Lemma to_map_None t k : to_map t !! k = None ↔ k ∉ keys t.
Proof. symmetry. apply not_elem_of_list_to_map. Qed.

(** What the walk of [find_nearest] says about the map. *)
Lemma lookup_nearest t k :
  wf t → to_map t !! k = if decide (nearest_key k t = k) then Some (nearest k t).2 else None.
Proof.
  intros Hwf. case_decide as Hk.
  - apply to_map_lookup; [done|]. rewrite <-Hk at 1. apply nearest_in.
  - apply to_map_None. by rewrite <-(nearest_key_iff k t Hwf).
Qed.

(** ** Insertion *)

(** The first bit where [k] and [p] differ is the critical bit (nb, nob). *)
Definition first_diff (k p : list Z) (nb nob : Z) : Prop :=
  0 ≤ nb < 2 ^ 31 ∧ is_mask nob = true ∧
  agree_below (crit_index nb nob) k p ∧
  kbit k (crit_index nb nob) = negb (kbit p (crit_index nb nob)).

(** The critical bit that [critbit_insert_inplace] computes from the first
    byte where the two keys differ. *)
Lemma first_diff_intro k p nb :
  nonul k → nonul p → 0 ≤ nb < 2 ^ 31 →
  (∀ b, 0 ≤ b < nb → byte_at k b = byte_at p b) → byte_at p nb ≠ byte_at k nb →
  first_diff k p nb (mask_of (Z.log2 (Z.lxor (byte_at p nb) (byte_at k nb)))).
Proof.
  intros Hk Hp Hnb Hag Hne.
  pose proof (byte_at_range k nb Hk). pose proof (byte_at_range p nb Hp).
  destruct (clear_low_spec (Z.lxor (byte_at p nb) (byte_at k nb))) as [_ Hj];
    [by apply lxor_byte_range|].
  destruct (lxor_high_bit (byte_at p nb) (byte_at k nb)) as [Hbit Habove]; [lia..|done|].
  set (j := Z.log2 _) in *. unfold first_diff. rewrite crit_index_mask by done.
  split; [done|]. split; [by apply is_mask_mask_of|]. split.
  - intros i Hi. destruct (Z.ltb_spec i (8 * nb)).
    + apply (bytes_agree _ _ nb Hag). lia.
    + replace i with (8 * nb + (7 - (8 * nb + 7 - i))) by lia.
      rewrite !kbit_crit by lia. symmetry. apply Habove. lia.
  - rewrite !kbit_crit by lia. by rewrite Hbit, negb_involutive.
Qed.

Section insert.
Context (k : list Z) (v a x nb nob : Z) (Hk : key_ok k) (Ha : addr_ok a) (Hx : addr_ok x).
Let i := crit_index nb nob.
Let new s := branch a nb nob (kbit k i) (Leaf x k v) s.

Lemma entries_branch s : entries (new s) ≡ₚ (k, v) :: entries s.
Proof. unfold new, branch. case_match; cbn; [|done]. by rewrite Permutation_app_comm. Qed.

Lemma entries_insert_at t : entries (insert_at k nb nob new t) ≡ₚ (k, v) :: entries t.
Proof.
  induction t as [a' k' v'|a' b ob l IHl r IHr]; cbn [insert_at]; [apply entries_branch|].
  case_match; [apply entries_branch|]. case_match; cbn.
  - rewrite IHr. by rewrite Permutation_middle.
  - by rewrite IHl.
Qed.

Lemma keys_insert_at t : keys (insert_at k nb nob new t) ≡ₚ k :: keys t.
Proof. by rewrite entries_insert_at. Qed.

(** The new node over a subtree whose keys all agree with [p] up to and
    including the critical bit. *)
Lemma wf_branch s p :
  wf s → first_diff k p nb nob →
  (∀ q, q ∈ keys s → agree_below (i + 1) p q) → wf (new s).
Proof.
  intros Hs (Hnb & Hnob & Hag & Hdiff) Hq. fold i in Hag, Hdiff.
  assert (0 ≤ i) as Hi by (apply crit_index_nonneg; [lia|done]).
  assert (∀ q, q ∈ keys s → kbit q i = negb (kbit k i)) as Hside.
  { intros q Hqs. rewrite Hdiff, negb_involutive. symmetry. apply (Hq q Hqs). lia. }
  assert (∀ q, q ∈ k :: keys s → agree_below i k q) as Hbelow.
  { intros q [->|Hqs]%elem_of_cons; [done|].
    transitivity p; [done|]. eapply agree_below_weaken; [|by apply Hq]. lia. }
  assert (∀ q1 q2, q1 ∈ k :: keys s → q2 ∈ k :: keys s → agree_below i q1 q2) as Hall.
  { intros q1 q2 H1 H2. transitivity k; [symmetry|]; auto. }
  unfold new, branch. destruct (kbit k i) eqn:Hki; cbn [wf]; fold i.
  all: change (keys (Leaf x k v)) with [k]; setoid_rewrite list_elem_of_singleton.
  - do 5 (split; [done || (by apply Hside)|]). split; [|split; [by intros ? ->|]].
    + intros q Hqs. by rewrite (Hside q Hqs).
    + intros q1 q2. rewrite <-!Permutation_cons_append. apply Hall.
  - do 5 (split; [done|]). split; [by intros ? ->|]. split; [|exact Hall].
    intros q Hqs. by rewrite (Hside q Hqs).
Qed.

Lemma wf_insert_at t :
  wf t → first_diff k (nearest_key k t) nb nob → wf (insert_at k nb nob new t).
Proof.
  induction t as [a' k' v'|a' b ob l IHl r IHr]; intros Hwf Hd.
  { apply (wf_branch _ k'); [done..|]. intros q. cbn. rewrite list_elem_of_singleton. by intros ->. }
  assert (Hnear := nearest_key_in k (Inner a' b ob l r)).
  set (p := nearest_key k (Inner a' b ob l r)) in *.
  pose proof Hwf as (Ha' & Hb & Hob & Hl & Hr & H0 & H1 & Hag). rewrite keys_inner in Hnear.
  cbn [insert_at]. pose proof Hd as (Hnb & Hnob & Hag' & Hdiff). fold i in Hag', Hdiff.
  destruct (crit_after b ob nb nob) eqn:Hafter.
  - apply crit_after_spec in Hafter; [|done..]. fold i in Hafter.
    apply (wf_branch _ p); [done..|]. intros q Hq. rewrite keys_inner in Hq.
    eapply agree_below_weaken; [|by apply Hag]. lia.
  - assert (kbit p (crit_index b ob) = kbit k (crit_index b ob)) as Hsame.
    { subst p. cbn. destruct (kbit k (crit_index b ob)); [apply H1|apply H0]; apply nearest_key_in. }
    assert (crit_index b ob < i) as Hlt.
    { assert (¬ (i < crit_index b ob)) as Hn.
      { intros Hlt. apply (crit_after_spec b ob) in Hlt; congruence. }
      assert (crit_index b ob ≠ i); [|lia]. intros Heq. rewrite Heq in Hsame.
      rewrite Hsame in Hdiff. by destruct (kbit k i). }
    assert (∀ q, q ∈ keys l ++ keys r → agree_below (crit_index b ob) k q) as Hkag.
    { intros q Hq. transitivity p; [|by apply Hag]. eapply agree_below_weaken; [|done]. lia. }
    assert (∀ q1 q2, q1 ∈ k :: keys l ++ keys r → q2 ∈ k :: keys l ++ keys r →
      agree_below (crit_index b ob) q1 q2) as Hall.
    { intros q1 q2 [->|Hq1]%elem_of_cons [->|Hq2]%elem_of_cons; [done|auto|symmetry; auto|auto]. }
    subst p. cbn in Hd. destruct (kbit k (crit_index b ob)) eqn:Hside.
    + specialize (IHr Hr Hd). cbn [wf]. setoid_rewrite keys_insert_at.
      do 6 (split; [done|]). split; [intros q [->|]%elem_of_cons; auto|].
      intros q1 q2. rewrite <-!Permutation_middle. apply Hall.
    + specialize (IHl Hl Hd). cbn [wf]. setoid_rewrite keys_insert_at.
      do 5 (split; [done|]). split; [intros q [->|]%elem_of_cons; auto|]. split; [done|].
      intros q1 q2. apply Hall.
Qed.

Lemma to_map_insert_at t :
  wf t → first_diff k (nearest_key k t) nb nob → k ∉ keys t →
  to_map (insert_at k nb nob new t) = <[k := v]> (to_map t).
Proof.
  intros Hwf Hd Hnin. unfold to_map.
  rewrite (list_to_map_proper _ _ (wf_NoDup _ (wf_insert_at t Hwf Hd)) (entries_insert_at t)).
  done.
Qed.
End insert.

(** ** Removal *)

Lemma entries_remove k t :
  entries t ≡ₚ (nearest_key k t, (nearest k t).2) :: from_option entries [] (remove k t).
Proof.
  induction t as [a' k' v'|a' b ob l IHl r IHr]; cbn; [done|].
  destruct (kbit k (crit_index b ob)); cbn.
  - rewrite IHr. destruct (remove k r); cbn; by rewrite <-Permutation_middle, ?app_nil_r.
  - rewrite IHl. by destruct (remove k l).
Qed.

Lemma keys_remove k t :
  keys t ≡ₚ nearest_key k t :: from_option (λ t, keys t) [] (remove k t).
Proof. rewrite (entries_remove k t). destruct (remove k t); done. Qed.

Lemma keys_remove_subset k t t' q : remove k t = Some t' → q ∈ keys t' → q ∈ keys t.
Proof. intros Hr Hq. rewrite (keys_remove k t), Hr. by apply elem_of_cons; right. Qed.

Lemma wf_remove k t t' : wf t → remove k t = Some t' → wf t'.
Proof.
  revert t'. induction t as [a k' v|a b ob l IHl r IHr]; intros t' Hwf; [done|].
  pose proof Hwf as (Ha & Hb & Hob & Hl & Hr & H0 & H1 & Hag). cbn.
  destruct (kbit k (crit_index b ob)) eqn:Hside; intros [= <-].
  - destruct (remove k r) as [r'|] eqn:E; [|done].
    assert (∀ q, q ∈ keys r' → q ∈ keys r) by (intros; by eapply keys_remove_subset).
    cbn. do 4 (split; [done|]). split; [by apply IHr|]. split; [done|]. split; [auto|].
    intros q1 q2. rewrite !elem_of_app. intros Hq1 Hq2. apply Hag; rewrite elem_of_app; [destruct Hq1|destruct Hq2]; auto.
  - destruct (remove k l) as [l'|] eqn:E; [|done].
    assert (∀ q, q ∈ keys l' → q ∈ keys l) by (intros; by eapply keys_remove_subset).
    cbn. do 3 (split; [done|]). split; [by apply IHl|]. split; [done|]. split; [auto|]. split; [done|].
    intros q1 q2. rewrite !elem_of_app. intros Hq1 Hq2. apply Hag; rewrite elem_of_app; [destruct Hq1|destruct Hq2]; auto.
Qed.

Lemma to_map_remove k t :
  wf t → k ∈ keys t → from_option to_map ∅ (remove k t) = delete k (to_map t).
Proof.
  intros Hwf Hk. pose proof (entries_remove k t) as Hp. rewrite (nearest_self k t Hwf Hk) in Hp.
  pose proof (wf_NoDup t Hwf) as Hnd. unfold to_map.
  rewrite (list_to_map_proper _ _ Hnd Hp). rewrite Hp in Hnd. cbn in Hnd.
  apply NoDup_cons in Hnd as [Hnin _]. cbn. rewrite delete_insert_id.
  - by destruct (remove k t).
  - apply not_elem_of_list_to_map. by destruct (remove k t).
Qed.
