(* ===== verification/CritMem.v ===== *)
(** * CritMem: the memory of a critical-bit tree

    The blocks of a tree ([cells]), the tagged pointers to them ([ptr]), tree
    contexts (a path from the root to a pointer field, [ctx]) and how the
    memory of a plugged context splits around that field.  On top of that, the
    equations of the loads, stores and small helpers of the code, used by the
    proofs about critbit.c. *)

From S2P Require Import Prelude.
From S2P Require Import KeyBits.
From S2P Require Import Critbit.
From S2P Require Import CritTree.
From S2P Require Import Own.

(** ** Tagged pointers *)

Definition ptr (t : tree) : Z :=
  match t with
  | Leaf a _ _ => a + PTR_SIZE
  | Inner a _ _ _ _ => FROM_NODE a
  end.

Fixpoint cells (t : tree) : list (Z * block) :=
  match t with
  | Leaf a k v => [(a, BString v (cstr k))]
  | Inner a b ob l r => (a, BNode (Node (ptr l) (ptr r) b ob)) :: cells l ++ cells r
  end.

Definition is_leaf (t : tree) : bool := match t with Leaf _ _ _ => true | _ => false end.

Lemma wf_addr_ok t : wf t → addr_ok match t with Leaf a _ _ | Inner a _ _ _ _ => a end.
Proof. by destruct t; intros [? ?]. Qed.

Lemma land_1 z : Z.land z 1 = z mod 2.
Proof. change (Z.land z 1) with (Z.land z (Z.ones 1)). by rewrite Z.land_ones by lia. Qed.

Lemma addr_parity a : addr_ok a → a mod 2 = 0.
Proof.
  intros [_ Ha]. apply Z.mod_divide; [lia|]. apply Z.divide_trans with 16; [by exists 8|].
  apply Z.mod_divide; [lia|done].
Qed.

Lemma IS_INTERNAL_spec p : IS_INTERNAL p = negb (p mod 2 =? 0).
Proof. unfold IS_INTERNAL. by rewrite land_1. Qed.

Lemma IS_INTERNAL_even p : p mod 2 = 0 → IS_INTERNAL p = false.
Proof. rewrite IS_INTERNAL_spec. by intros ->. Qed.

Lemma IS_INTERNAL_string a : addr_ok a → IS_INTERNAL (a + PTR_SIZE) = false.
Proof.
  intros H%addr_parity. apply IS_INTERNAL_even. unfold PTR_SIZE.
  rewrite <-Zplus_mod_idemp_l, H. done.
Qed.

Lemma IS_INTERNAL_node a : addr_ok a → IS_INTERNAL (FROM_NODE a) = true.
Proof.
  intros H%addr_parity. rewrite IS_INTERNAL_spec. unfold FROM_NODE.
  by rewrite <-Zplus_mod_idemp_l, H.
Qed.

Lemma IS_INTERNAL_ptr t : wf t → IS_INTERNAL (ptr t) = negb (is_leaf t).
Proof.
  intros H%wf_addr_ok. destruct t; cbn; [by apply IS_INTERNAL_string|by apply IS_INTERNAL_node].
Qed.

(** Clearing the tag of a node pointer gives the node's address. *)
Lemma TO_NODE_FROM_NODE a : addr_ok a → TO_NODE (FROM_NODE a) = a.
Proof.
  intros H%addr_parity. unfold TO_NODE, FROM_NODE.
  rewrite <-Z.ldiff_land. change 1 with (Z.ones 1) at 2. rewrite Z.ldiff_ones_r by lia.
  rewrite Z.shiftl_mul_pow2, Z.shiftr_div_pow2 by lia. change (2 ^ 1) with 2.
  pose proof (Z.div_mod a 2 ltac:(lia)) as Hd. rewrite H in Hd.
  rewrite Hd at 1. replace (2 * (a / 2) + 0 + 1) with (1 + (a / 2) * 2) by lia.
  rewrite Z.div_add by lia. change (1 / 2) with 0. lia.
Qed.

Lemma ptr_nonzero t : wf t → ptr t ≠ 0.
Proof.
  intros [H _]%wf_addr_ok. destruct t; cbn; unfold PTR_SIZE, FROM_NODE; lia.
Qed.

Lemma string_addr a : a + PTR_SIZE - PTR_SIZE = a.
Proof. lia. Qed.

Lemma height_cells t : (height t < length (cells t))%nat.
Proof.
  induction t as [a k v|a b ob l IHl r IHr]; cbn; [lia|].
  rewrite length_app. lia.
Qed.

(** ** Directions *)

Lemma get_direction_spec n k len :
  0 ≤ byte n < 2 ^ 31 → is_mask (otherbits n) = true → nonul k → len = Z.of_nat (length k) →
  get_direction n (cstr k) len = Done (of_bool (kbit k (crit_index (byte n) (otherbits n)))).
Proof.
  intros Hb Hob Hk ->. unfold get_direction. rewrite u64_small by lia.
  apply is_mask_elim in Hob as (j & Hj & Hob). rewrite Hob, crit_index_mask, kbit_crit by lia.
  destruct (Z.ltb_spec (byte n) (Z.of_nat (length k))).
  - rewrite buf_get_cstr by lia. cbn.
    change (Z.shiftr (1 + Z.lor (mask_of j) ?c) 8) with (test_mask (mask_of j) c).
    rewrite test_mask_spec by (done || by apply byte_at_range). done.
  - rewrite byte_at_outside, Z.testbit_0_l by lia. done.
Qed.

Lemma child_bool n (d : bool) : child n (of_bool d) = Done (if d then child1 n else child0 n).
Proof. by destruct d. Qed.

(** ** Loads and stores that succeed *)

Lemma load_node_at m a n : m !! a = Some (BNode n) → load_node a m = Done (n, m).
Proof. intros H. unfold load_node. by rewrite H. Qed.
Lemma store_node_at m a n n' : m !! a = Some (BNode n) → store_node a n' m = Done (tt, <[a := BNode n']> m).
Proof. intros H. unfold store_node. by rewrite H. Qed.
Lemma load_root_at m a r : m !! a = Some (BRoot r) → load_root a m = Done (r, m).
Proof. intros H. unfold load_root. by rewrite H. Qed.
Lemma store_root_at m a r r' : m !! a = Some (BRoot r) → store_root a r' m = Done (tt, <[a := BRoot r']> m).
Proof. intros H. unfold store_root. by rewrite H. Qed.
Lemma load_chars_at m a v cs :
  m !! a = Some (BString v cs) → load_chars (a + PTR_SIZE) m = Done (cs, m).
Proof. intros H. unfold load_chars. by rewrite string_addr, H. Qed.
Lemma load_value_at m a v cs :
  m !! a = Some (BString v cs) → load_value (a + PTR_SIZE) m = Done (v, m).
Proof. intros H. unfold load_value. by rewrite string_addr, H. Qed.
Lemma load_byte_at m a v k i :
  m !! a = Some (BString v (cstr k)) → 0 ≤ i ≤ Z.of_nat (length k) →
  load_byte (a + PTR_SIZE) i m = Done (byte_at k i, m).
Proof.
  intros H Hi. unfold load_byte. erewrite bind_done by (by eapply load_chars_at).
  unfold lift. by rewrite buf_get_cstr.
Qed.
Lemma free_at m a b : m !! a = Some b → free a m = Done (tt, delete a m).
Proof. intros H. unfold free. by rewrite H. Qed.
Lemma free_string_at m a b :
  m !! a = Some b → free_string (a + PTR_SIZE) m = Done (tt, delete a m).
Proof. intros H. unfold free_string. rewrite string_addr. by eapply free_at. Qed.

#[export] Hint Resolve load_node_at store_node_at load_root_at store_root_at load_chars_at
  load_value_at load_byte_at free_at free_string_at : cmd.

(** A null pointer has no string behind it. *)
Definition no_block_below (m : mem) : Prop := ∀ a b, m !! a = Some b → 0 < a.

(** ** Contexts *)

(** One step of a path: the node, the side taken, and the other subtree. *)
Record frame := Frame { f_addr : Z; f_byte : Z; f_ob : Z; f_dir : bool; f_sib : tree }.
(** A path, innermost node first. *)
Notation ctx := (list frame).

Definition plug1 (f : frame) (t : tree) : tree :=
  if f_dir f then Inner (f_addr f) (f_byte f) (f_ob f) (f_sib f) t
  else Inner (f_addr f) (f_byte f) (f_ob f) t (f_sib f).
Fixpoint plug (C : ctx) (t : tree) : tree :=
  match C with [] => t | f :: C => plug C (plug1 f t) end.

Lemma plug_app C1 C2 t : plug (C1 ++ C2) t = plug C2 (plug C1 t).
Proof. revert t. induction C1 as [|f C1 IH]; intros t; [done|apply IH]. Qed.

Definition frame_node (f : frame) (p : Z) : critbit_node :=
  if f_dir f then Node (ptr (f_sib f)) p (f_byte f) (f_ob f)
  else Node p (ptr (f_sib f)) (f_byte f) (f_ob f).

Section context.
Context (root : Z) (r : critbit_root).

(** The pointer field at the end of a path, and the block that holds it. *)
Definition slot_of (C : ctx) : slot :=
  match C with [] => SHead root | f :: _ => SChild (f_addr f) (of_bool (f_dir f)) end.
Definition slot_cell (C : ctx) (p : Z) : Z * block :=
  match C with
  | [] => (root, BRoot (set_head p r))
  | f :: _ => (f_addr f, BNode (frame_node f p))
  end.
Fixpoint ctx_cells (C : ctx) : list (Z * block) :=
  match C with
  | [] => []
  | f :: C => cells (f_sib f) ++ slot_cell C (FROM_NODE (f_addr f)) :: ctx_cells C
  end.

(** All the blocks of a non-empty tree with its root. *)
Definition root_cells (t : tree) : list (Z * block) :=
  (root, BRoot (set_head (ptr t) r)) :: cells t.

Lemma cells_plug1 f t : cells (plug1 f t) ≡ₚ (f_addr f, BNode (frame_node f (ptr t))) :: cells (f_sib f) ++ cells t.
Proof.
  unfold plug1, frame_node. destruct (f_dir f); cbn; [done|].
  by rewrite (Permutation_app_comm (cells t)).
Qed.

Lemma ptr_plug1 f t : ptr (plug1 f t) = FROM_NODE (f_addr f).
Proof. unfold plug1. by destruct (f_dir f). Qed.

(** The memory of a plugged tree: the block of the pointer field, the rest
    of the context, and the blocks of the subtree. *)
Lemma root_cells_plug C s :
  root_cells (plug C s) ≡ₚ slot_cell C (ptr s) :: ctx_cells C ++ cells s.
Proof.
  revert s. induction C as [|f C IH]; intros s; [done|].
  cbn [plug]. rewrite IH, cells_plug1, ptr_plug1. cbn [slot_cell ctx_cells].
  solve_Permutation.
Qed.

Lemma load_slot_at C p m :
  m !! (slot_cell C p).1 = Some (slot_cell C p).2 → load_slot (slot_of C) m = Done (p, m).
Proof.
  destruct C as [|f C]; cbn; intros H.
  - by erewrite bind_done by eauto with cmd.
  - erewrite bind_done by eauto with cmd. cbn. rewrite child_bool. unfold frame_node.
    by destruct (f_dir f).
Qed.

Lemma store_slot_at C p p' m :
  m !! (slot_cell C p).1 = Some (slot_cell C p).2 →
  store_slot (slot_of C) p' m = Done (tt, <[(slot_cell C p).1 := (slot_cell C p').2]> m).
Proof.
  destruct C as [|f C]; cbn; intros H.
  - erewrite bind_done by eauto with cmd. by erewrite store_root_at.
  - erewrite bind_done by eauto with cmd. unfold frame_node.
    destruct (f_dir f); (erewrite bind_done by done); by erewrite store_node_at.
Qed.

Lemma slot_cell_addr C p p' : (slot_cell C p).1 = (slot_cell C p').1.
Proof. by destruct C. Qed.
Lemma slot_cell_eta C p : slot_cell C p = ((slot_cell C p).1, (slot_cell C p).2).
Proof. by destruct (slot_cell C p). Qed.

(** Fuel: the walk down a tree visits fewer nodes than there are blocks. *)
Lemma owns_height t fr m : owns (root_cells t) fr m → (height t < size m)%nat.
Proof.
  intros H%owns_size. pose proof (height_cells t) as Ht. cbn [root_cells length] in H.
  eapply Nat.lt_trans; [exact Ht|exact H].
Qed.

(** Overwriting the pointer field of an owned context. *)
Lemma owns_slot C p p' cs fr m :
  owns (slot_cell C p :: cs) fr m →
  ∃ m', store_slot (slot_of C) p' m = Done (tt, m') ∧ owns (slot_cell C p' :: cs) fr m'.
Proof.
  rewrite (slot_cell_eta C p). intros H. eexists. split.
  - apply store_slot_at. by eapply owns_lookup_hd.
  - rewrite (slot_cell_eta C p'), (slot_cell_addr C p' p). by eapply owns_store.
Qed.
End context.
