(* ===== verification/CritbitProofs.v ===== *)
(** * CritbitProofs: critbit.c implements a finite map

    The functions of critbit.c, run on a memory that holds a tree, compute
    what the tree operations of CritTree compute, and change the memory to the
    memory of the resulting tree and nothing else. *)

From S2P Require Import Prelude.
From S2P Require Import KeyBits.
From S2P Require Import Critbit.
From S2P Require Import CritTree.
From S2P Require Import Own.
From S2P Require Import CritMem.

(** ** Walking down *)

Definition holds (m : mem) (cs : list (Z * block)) : Prop := ∀ a b, (a, b) ∈ cs → m !! a = Some b.

Lemma holds_cons m c cs : holds m (c :: cs) ↔ m !! c.1 = Some c.2 ∧ holds m cs.
Proof.
  unfold holds. setoid_rewrite elem_of_cons. destruct c as [a b]; cbn. split.
  - intros H. split; [apply H; by left|]. intros; apply H; by right.
  - intros [H1 H2] a' b' [[= -> ->]|]; auto.
Qed.

Lemma holds_app m cs1 cs2 : holds m (cs1 ++ cs2) ↔ holds m cs1 ∧ holds m cs2.
Proof.
  unfold holds. setoid_rewrite elem_of_app. split.
  - intros H. split; intros; apply H; auto.
  - intros [H1 H2] a b [|]; auto.
Qed.

Lemma owns_holds cs fr m : owns cs fr m → holds m cs.
Proof. intros H a b Hin. by eapply owns_lookup. Qed.

#[export] Instance holds_proper m : Proper ((≡ₚ) ==> iff) (holds m).
Proof. intros c1 c2 Hp. unfold holds. by setoid_rewrite Hp. Qed.

Lemma holds_inner m a b ob l r :
  holds m (cells (Inner a b ob l r)) ↔
  m !! a = Some (BNode (Node (ptr l) (ptr r) b ob)) ∧ holds m (cells l) ∧ holds m (cells r).
Proof. cbn. by rewrite holds_cons, holds_app. Qed.

Section walk.
Context (m : mem) (k : list Z) (Hk : key_ok k).
Let len := Z.of_nat (length k).

Lemma keylen_u64 : u64 (s32 len) = len.
Proof. destruct Hk. subst len. rewrite s32_small by lia. apply u64_small. lia. Qed.

Lemma inner_direction a b ob l r :
  wf (Inner a b ob l r) →
  get_direction (Node (ptr l) (ptr r) b ob) (cstr k) len =
  Done (of_bool (kbit k (crit_index b ob))).
Proof. intros (_ & Hb & Hob & _). destruct Hk. by apply get_direction_spec. Qed.

Lemma find_nearest_loop_spec t fuel :
  wf t → holds m (cells t) → (height t < fuel)%nat →
  find_nearest_loop fuel (ptr t) (cstr k) len m = Done ((nearest k t).1.1 + PTR_SIZE, m).
Proof.
  revert t. induction fuel as [|fuel IH]; intros t Hwf Hm Hfuel; [lia|].
  cbn [find_nearest_loop]. rewrite IS_INTERNAL_ptr by done.
  destruct t as [a k' v|a b ob l r]; [done|]. cbn [is_leaf negb ptr].
  pose proof Hwf as (Ha & _ & _ & Hl & Hr & _). apply holds_inner in Hm as (Hn & Hml & Hmr).
  rewrite TO_NODE_FROM_NODE by done. erewrite bind_done by eauto with cmd. cbn beta.
  rewrite (inner_direction a) by done. erewrite bind_done by done. cbn beta.
  rewrite child_bool. erewrite bind_done by done. cbn in Hfuel |- *.
  destruct (kbit k (crit_index b ob)); apply IH; (done || lia).
Qed.

Lemma find_nearest_spec t :
  wf t → holds m (cells t) → (height t < size m)%nat →
  find_nearest (ptr t) (cstr k) len m = Done ((nearest k t).1.1 + PTR_SIZE, m).
Proof.
  intros Hwf Hm Hfuel. unfold find_nearest, walk_fuel. erewrite bind_done by done.
  apply find_nearest_loop_spec; [done..|lia].
Qed.

(** The block of the leaf the walk reaches. *)
Lemma nearest_block t :
  wf t → holds m (cells t) →
  m !! (nearest k t).1.1 = Some (BString (nearest k t).2 (cstr (nearest_key k t))) ∧
  addr_ok (nearest k t).1.1.
Proof.
  induction t as [a k' v|a b ob l IHl r IHr]; intros Hwf Hm.
  - cbn. split; [|by destruct Hwf]. apply Hm. by apply list_elem_of_singleton.
  - destruct Hwf as (_ & _ & _ & Hl & Hr & _). apply holds_inner in Hm as (_ & Hml & Hmr).
    cbn. destruct (kbit k (crit_index b ob)); auto.
Qed.

(** ** The byte loop of insertion *)

Lemma diff_loop_spec a v p fuel n :
  nonul p → m !! a = Some (BString v (cstr p)) →
  0 ≤ n ≤ Z.of_nat (length p) → n ≤ len → (Z.to_nat (len - n) < fuel)%nat →
  (∀ b, 0 ≤ b < n → byte_at k b = byte_at p b) →
  (k = p ∧ diff_loop fuel (a + PTR_SIZE) (cstr k) (s32 len) n m = Done (None, m)) ∨
  (∃ nb, 0 ≤ nb ≤ len ∧ nb ≤ Z.of_nat (length p) ∧
    (∀ b, 0 ≤ b < nb → byte_at k b = byte_at p b) ∧ byte_at p nb ≠ byte_at k nb ∧
    diff_loop fuel (a + PTR_SIZE) (cstr k) (s32 len) n m =
      Done (Some (nb, Z.lxor (byte_at p nb) (byte_at k nb)), m)).
Proof.
  intros Hp Ha. destruct Hk as [Hnk Hlen]. fold len in Hlen.
  rewrite (s32_small len) by lia.
  revert n. induction fuel as [|fuel IH]; intros n Hn Hnlen Hfuel Hag; [lia|].
  cbn [diff_loop]. rewrite (u32_small len) by lia.
  destruct (Z.ltb_spec n len) as [Hlt|Hge];
    erewrite bind_done by (by eapply load_byte_at); cbn beta.
  - rewrite buf_get_cstr by lia. erewrite bind_done by done. cbn beta.
    destruct (Z.eqb_spec (byte_at p n) (byte_at k n)) as [Heq|Hne].
    + rewrite u32_small by lia.
      pose proof (byte_at_inside k n Hnk ltac:(lia)).
      assert (n < Z.of_nat (length p)).
      { destruct (Z.leb_spec (Z.of_nat (length p)) n); [|lia].
        pose proof (byte_at_outside p n). lia. }
      apply IH; [lia..|]. intros b Hb. destruct (decide (b = n)) as [->|]; [done|apply Hag; lia].
    + right. exists n. split_and!; [lia..|done|done|]. rewrite u8_small; [done|].
      pose proof (lxor_byte_range (byte_at p n) (byte_at k n)
        ltac:(by apply byte_at_range) ltac:(by apply byte_at_range) Hne). lia.
  - assert (byte_at k n = 0) as Hk0 by (apply byte_at_outside; lia).
    destruct (Z.eqb_spec (byte_at p n) 0) as [Heq|Hne].
    + left. split; [|done]. apply key_ext; [done..|]. intros b Hb.
      destruct (Z.ltb_spec b n); [by apply Hag|].
      assert (Z.of_nat (length p) ≤ n).
      { destruct (Z.leb_spec (Z.of_nat (length p)) n); [done|].
        pose proof (byte_at_inside p n Hp). lia. }
      rewrite !byte_at_outside by lia. done.
    + right. exists n. split_and!; [lia..|done|congruence|]. by rewrite Hk0, Z.lxor_0_r.
Qed.

(** ** The second walk of insertion *)

Lemma insert_loop_spec root r nb nob s fuel C :
  wf s → holds m (slot_cell root r C (ptr s) :: cells s) → (height s < fuel)%nat →
  0 ≤ nb →
  ∃ C' s', plug C' s' = s ∧ (∀ mk, insert_at k nb nob mk s = plug C' (mk s')) ∧
    insert_loop fuel (slot_of root C) nb nob (cstr k) (s32 len) m =
      Done (slot_of root (C' ++ C), m).
Proof.
  revert s C. induction fuel as [|fuel IH]; intros s C Hwf Hm Hfuel Hnb; [lia|].
  apply holds_cons in Hm as [Hslot Hm]. cbn [insert_loop].
  erewrite bind_done by (by eapply load_slot_at). cbn beta. rewrite IS_INTERNAL_ptr by done.
  destruct s as [a k' v|a b ob l r0].
  { exists [], (Leaf a k' v). by split_and!. }
  cbn [is_leaf negb ptr]. pose proof Hwf as (Ha & Hb & _ & Hl & Hr & _).
  pose proof Hm as Hm'. apply holds_inner in Hm' as (Hn & Hml & Hmr).
  rewrite TO_NODE_FROM_NODE by done. erewrite bind_done by eauto with cmd. cbn beta.
  cbn [byte otherbits insert_at]. rewrite u32_small by lia. unfold crit_after.
  destruct (nb <? b) eqn:H1; cbn [orb].
  { exists [], (Inner a b ob l r0). by split_and!. }
  destruct ((b =? nb) && (nob <? ob)) eqn:H2.
  { exists [], (Inner a b ob l r0). by split_and!. }
  rewrite keylen_u64, (inner_direction a) by done. erewrite bind_done by done. cbn beta.
  cbn in Hfuel. destruct (kbit k (crit_index b ob)) eqn:Hd.
  - destruct (IH r0 (Frame a b ob true l :: C)) as (C' & s' & Hplug & Hins & Hrun); [done| |lia|done|].
    { apply holds_cons. by split. }
    exists (C' ++ [Frame a b ob true l]), s'. rewrite <-app_assoc. setoid_rewrite plug_app.
    split_and!; [by rewrite Hplug|intros mk; by rewrite Hins|exact Hrun].
  - destruct (IH l (Frame a b ob false r0 :: C)) as (C' & s' & Hplug & Hins & Hrun); [done| |lia|done|].
    { apply holds_cons. by split. }
    exists (C' ++ [Frame a b ob false r0]), s'. rewrite <-app_assoc. setoid_rewrite plug_app.
    split_and!; [by rewrite Hplug|intros mk; by rewrite Hins|exact Hrun].
Qed.
End walk.

(** ** Insertion *)

Section insert_link.
Context (k : list Z) (v a x nb nob : Z) (Hk : key_ok k) (Hnb : 0 ≤ nb).
Let side := kbit k (crit_index nb nob).
Let len := Z.of_nat (length k).

(** The new node once its fields are set, except the child that will hold
    the old subtree. *)
Lemma store_new_child n p :
  set_child (1 - of_bool (negb side)) p n =
  Done (if side then Node (child0 n) p (byte n) (otherbits n)
        else Node p (child1 n) (byte n) (otherbits n)).
Proof. unfold set_child, of_bool. by destruct side. Qed.

Lemma store_old_child n p :
  set_child (of_bool (negb side)) p n =
  Done (if side then Node p (child1 n) (byte n) (otherbits n)
        else Node (child0 n) p (byte n) (otherbits n)).
Proof. unfold set_child, of_bool. by destruct side. Qed.

Lemma insert_link_spec root r t fr m n :
  wf t →
  owns ((a, BNode n) :: (x, BString v (cstr k)) :: root_cells root r t) fr m →
  ∃ m', insert_link root (cstr k) (s32 len) a (x + PTR_SIZE) nb nob (of_bool (negb side)) m =
          Done (0, m') ∧
    owns (root_cells root r (insert_at k nb nob (branch a nb nob side (Leaf x k v)) t)) fr m'.
Proof.
  intros Hwf Hm. unfold insert_link.
  erewrite bind_done by (eapply load_node_at, owns_lookup_hd, Hm). cbn beta.
  erewrite bind_done by (eapply store_node_at, owns_lookup_hd, Hm). cbn beta.
  own_store Hm.
  erewrite bind_done by (eapply load_node_at, owns_lookup_hd, Hm). cbn beta.
  erewrite bind_done by (eapply store_node_at, owns_lookup_hd, Hm). cbn beta.
  own_store Hm. cbn [load_slot store_slot].
  erewrite bind_done.
  2:{ erewrite bind_done by (eapply load_node_at, owns_lookup_hd, Hm). cbn beta.
      rewrite store_new_child. erewrite bind_done by done.
      eapply store_node_at, owns_lookup_hd, Hm. }
  cbn beta. own_store Hm. set (n' := if side then _ else _) in Hm |- *.
  match type of Hm with owns _ _ ?mm => set (m1 := mm) in * end.
  unfold walk_fuel. erewrite bind_done by done. cbn beta.
  destruct (insert_loop_spec m1 k Hk root r nb nob t (S (size m1)) [])
    as (C & s & Hplug & Hins & Hrun); [done| | |done|].
  { apply (holds_app m1 [(a, BNode n'); (x, BString v (cstr k))]). eapply owns_holds. exact Hm. }
  { apply owns_size in Hm. cbn in Hm. pose proof (height_cells t). lia. }
  rewrite app_nil_r in Hrun. cbn [slot_of] in Hrun.
  erewrite bind_done by exact Hrun. cbn beta.
  rewrite <-Hplug, (root_cells_plug root r C s) in Hm.
  erewrite bind_done.
  2:{ eapply load_slot_at, owns_lookup; [exact Hm|].
      rewrite <-slot_cell_eta. do 2 (apply elem_of_cons; right). apply elem_of_cons. by left. }
  cbn beta. erewrite bind_done.
  2:{ erewrite bind_done by (eapply load_node_at, owns_lookup_hd, Hm). cbn beta.
      rewrite store_old_child. erewrite bind_done by done.
      eapply store_node_at, owns_lookup_hd, Hm. }
  cbn beta. own_store Hm. set (n'' := if side then _ else _) in Hm |- *.
  match type of Hm with owns (?c1 :: ?c2 :: ?c3 :: ?cs) _ _ =>
    rewrite <-(Permutation_middle [c1; c2] cs c3) in Hm end.
  cbn [app] in Hm.
  destruct (owns_slot root r C (ptr s) (FROM_NODE a) _ fr _ Hm) as (m' & Hst & Hm').
  erewrite bind_done by exact Hst. exists m'. split; [done|].
  rewrite Hins, root_cells_plug.
  eapply owns_perm; [|exact Hm'].
  unfold branch. subst n'' n'. destruct side; cbn; solve_Permutation.
Qed.
End insert_link.

Section alloc.
Context {M : Malloc} {MS : MallocSpec M}.
Implicit Types m fr : mem.

(** Some request of the run was refused. *)
Definition out_of_memory : Prop := ∃ m n, malloc m n = None.

Lemma malloc_ok m n a : malloc m n = Some a → addr_ok a ∧ m !! a = None ∧ (a =? 0) = false.
Proof.
  intros H. pose proof (malloc_nonnull m n a H). split_and!.
  - split; [done|]. by eapply malloc_align.
  - by eapply malloc_fresh.
  - lia.
Qed.

Lemma alloc_string_spec m k v :
  key_ok k →
  (out_of_memory ∧ alloc_string (cstr k) (s32 (Z.of_nat (length k))) v m = Done (0, m)) ∨
  (∃ a, addr_ok a ∧ m !! a = None ∧
    alloc_string (cstr k) (s32 (Z.of_nat (length k))) v m =
    Done (a + PTR_SIZE, <[a := BString v (cstr k)]> m)).
Proof.
  intros [Hk Hlen]. rewrite s32_small by lia. unfold alloc_string, malloc_block.
  set (n := u64 _).
  destruct (malloc m n) as [a|] eqn:E.
  - right. exists a. destruct (malloc_ok _ _ _ E) as (Ha & Hfresh & Hnz). split_and!; [done..|].
    erewrite bind_done by (by rewrite E). cbn beta. rewrite Hnz.
    do 2 (erewrite bind_done by done; cbn beta).
    rewrite buf_take_cstr by done. do 3 (erewrite bind_done by done; cbn beta).
    rewrite ret_done. do 2 f_equal. by rewrite !insert_insert_eq.
  - left. split; [by eexists _, _|]. by erewrite bind_done by (by rewrite E).
Qed.

Lemma alloc_node_spec m :
  (out_of_memory ∧ alloc_node m = Done (0, m)) ∨
  (∃ a n, addr_ok a ∧ m !! a = None ∧ alloc_node m = Done (a, <[a := BNode n]> m)).
Proof.
  unfold alloc_node, malloc_block. destruct (malloc m SIZEOF_NODE) as [a|] eqn:E.
  - right. exists a, garbage_node. destruct (malloc_ok _ _ _ E) as (Ha & Hfresh & _).
    by split_and!.
  - left. split; [|done]. by eexists _, _.
Qed.

Lemma addr_ok_string_nonzero a : addr_ok a → (a + PTR_SIZE =? 0) = false.
Proof. unfold PTR_SIZE. intros [H _]. lia. Qed.

Section inplace.
Context (k : list Z) (v : Z) (Hk : key_ok k).
Let len := Z.of_nat (length k).

Lemma insert_found_spec root r t fr m nb :
  wf t → owns (root_cells root r t) fr m →
  let p := nearest_key k t in
  0 ≤ nb ≤ len → nb ≤ Z.of_nat (length p) →
  (∀ b, 0 ≤ b < nb → byte_at k b = byte_at p b) → byte_at p nb ≠ byte_at k nb →
  let run := insert_found root (cstr k) (s32 len) v ((nearest k t).1.1 + PTR_SIZE) nb
    (Z.lxor (byte_at p nb) (byte_at k nb)) m in
  (out_of_memory ∧ run = Done (1, m)) ∨
  (∃ t' m', wf t' ∧ insertion k v t t' ∧ to_map t' = <[k := v]> (to_map t) ∧
    owns (root_cells root r t') fr m' ∧ run = Done (0, m')).
Proof.
  intros Hwf Hm p Hnb Hnbp Hag Hne run. destruct Hk as [Hnk Hlen].
  assert (nonul p) as Hnp by (eapply wf_nonul, nearest_key_in; done).
  pose proof (byte_at_range k nb Hnk) as Hkb. pose proof (byte_at_range p nb Hnp) as Hpb.
  pose proof (lxor_byte_range _ _ Hpb Hkb Hne) as Hx.
  destruct (clear_low_spec _ Hx) as [Hclear Hj].
  pose proof (first_diff_intro k p nb Hnk Hnp ltac:(lia) Hag Hne) as Hfd.
  assert (k ∉ keys t) as Hnin.
  { intros Hin. apply nearest_self in Hin; [|done]. subst p. by rewrite Hin in Hne. }
  destruct (nearest_block m k t Hwf) as [Hblk Haddr].
  { by apply owns_holds, holds_cons in Hm as [_ ?]. }
  subst run. unfold insert_found. rewrite Hclear. erewrite bind_done by done. cbn beta zeta.
  rewrite lxor_mask by done.
  erewrite bind_done by (eapply load_byte_at; [exact Hblk|split; [lia|exact Hnbp]]). cbn beta.
  set (j := Z.log2 _) in *. change (Z.shiftr (1 + Z.lor (mask_of j) ?c) 8) with (test_mask (mask_of j) c).
  rewrite test_mask_spec by done.
  fold p.
  assert (Z.testbit (byte_at p nb) j = negb (kbit k (crit_index nb (mask_of j)))) as ->.
  { destruct Hfd as (_ & _ & _ & ->). by rewrite negb_involutive, crit_index_mask, kbit_crit by lia. }
  destruct (alloc_node_spec m) as [[Hoom Hrun]|(a & n & Ha & Hfa & Hrun)];
    erewrite bind_done by exact Hrun; cbn beta; [by left|].
  destruct (Z.eqb_spec a 0); [destruct Ha; lia|].
  destruct (alloc_string_spec (<[a := BNode n]> m) k v Hk)
    as [[Hoom Hrun']|(x & Hxok & Hfx & Hrun')]; erewrite bind_done by exact Hrun'; cbn beta.
  - left. split; [done|]. rewrite Z.eqb_refl.
    erewrite bind_done by (eapply free_at, lookup_insert_eq).
    by rewrite delete_insert_id.
  - right. rewrite addr_ok_string_nonzero by done.
    apply (owns_alloc _ _ _ a (BNode n) Hfa) in Hm.
    apply (owns_alloc _ _ _ x (BString v (cstr k)) Hfx) in Hm. rewrite perm_swap in Hm.
    destruct (insert_link_spec k v a x nb (mask_of j) Hk ltac:(lia) root r t fr _ n Hwf Hm)
      as (m' & Hlink & Hm').
    eexists _, m'. split_and!; [..|exact Hm'|exact Hlink].
    + by eapply wf_insert_at.
    + by eexists _, _, _, _.
    + by apply to_map_insert_at.
Qed.
End inplace.
End alloc.

(** ** Deletion *)

(** The variables of the walk of [critbit_delete_inplace] at the end of a path. *)
Definition whereq_of (root : Z) (C : ctx) : option slot :=
  match C with [] => None | _ :: C => Some (slot_of root C) end.
Definition q_of (C : ctx) : Z := match C with [] => 0 | f :: _ => f_addr f end.
Definition dir_of (C : ctx) : Z := match C with [] => 0 | f :: _ => of_bool (f_dir f) end.

(** A path to the leaf that [k] leads to, in a tree. *)
Definition leaf_path (k : list Z) (C : ctx) (t : tree) : Prop :=
  plug C (Leaf (nearest k t).1.1 (nearest_key k t) (nearest k t).2) = t ∧
  remove k t = match C with [] => None | f :: C => Some (plug C (f_sib f)) end.

Lemma leaf_path_snoc k C f t :
  kbit k (crit_index (f_byte f) (f_ob f)) = f_dir f →
  leaf_path k C t → leaf_path k (C ++ [f]) (plug1 f t).
Proof.
  intros Hd [Hplug Hrem]. unfold leaf_path, plug1. rewrite plug_app.
  destruct f as [a b ob [] sib]; cbn in *; rewrite Hd, Hrem, ?Hplug; split; [done|..].
  - destruct C as [|f C]; cbn; [done|]. by rewrite plug_app.
  - done.
  - destruct C as [|f C]; cbn; [done|]. by rewrite plug_app.
Qed.

Section delete.
Context (m : mem) (k : list Z) (Hk : key_ok k).
Let len := Z.of_nat (length k).

Lemma delete_loop_spec root s fuel C :
  wf s → holds m (cells s) → (height s < fuel)%nat →
  ∃ C', leaf_path k C' s ∧
    delete_loop fuel (ptr s) (slot_of root C) (whereq_of root C) (q_of C) (dir_of C)
      (cstr k) (s32 len) m =
    Done (((nearest k s).1.1 + PTR_SIZE, whereq_of root (C' ++ C), q_of (C' ++ C),
           dir_of (C' ++ C)), m).
Proof.
  revert s C. induction fuel as [|fuel IH]; intros s C Hwf Hm Hfuel; [lia|].
  cbn [delete_loop]. rewrite IS_INTERNAL_ptr by done.
  destruct s as [a k' v|a b ob l r]; [by exists []|].
  cbn [is_leaf negb ptr]. pose proof Hwf as (Ha & _ & _ & Hl & Hr & _).
  pose proof Hm as Hm'. apply holds_inner in Hm' as (Hn & Hml & Hmr).
  rewrite TO_NODE_FROM_NODE by done. erewrite bind_done by eauto with cmd. cbn beta.
  unfold len. rewrite keylen_u64, (inner_direction k Hk a) by done. fold len.
  erewrite bind_done by done. cbn beta. set (d := kbit k (crit_index b ob)).
  set (f := Frame a b ob d (if d then l else r)).
  assert (plug1 f (if d then r else l) = Inner a b ob l r) as Hp by (by subst f; destruct d).
  erewrite bind_done.
  2:{ apply (load_slot_at root (Root 0 false (Rwlock 0 false) (Rwlock 0 false) left_lock left_lock)
        (f :: C) (ptr (if d then r else l))). cbn. rewrite Hn. subst f. by destruct d. }
  cbn beta. cbn in Hfuel.
  destruct (IH (if d then r else l) (f :: C)) as (C' & Hpath & Hrun); [by destruct d| |destruct d; lia|].
  { by destruct d. }
  exists (C' ++ [f]). rewrite <-Hp, <-app_assoc. split; [by apply leaf_path_snoc|].
  rewrite Hp. cbn [nearest]. fold d. exact Hrun.
Qed.
End delete.

(** The leaf at the end of the path of [k], taken out of the memory. *)
Lemma wf_plug C s : wf (plug C s) → wf s.
Proof.
  revert s. induction C as [|f C IH]; intros s; [done|]. cbn. intros H%IH.
  unfold plug1 in H. destruct (f_dir f), H as (_ & _ & _ & ? & ? & _); done.
Qed.

Section delete_inplace.
Context (k : list Z) (Hk : key_ok k).
Let len := Z.of_nat (length k).

Lemma strcmp_keys (p : list Z) :
  nonul p → ∃ d, strcmp (cstr k) (cstr p) = Done d ∧ (d =? 0) = bool_decide (p = k).
Proof.
  intros Hp. destruct Hk as [Hnk _]. destruct (strcmp_cstr k p Hnk Hp) as (d & Hd & Hiff).
  exists d. split; [done|]. case_bool_decide as E.
  - by apply Z.eqb_eq, Hiff.
  - apply Z.eqb_neq. intros H. by apply E, eq_sym, Hiff.
Qed.

(** What [critbit_delete_inplace] leaves: the unlinked blocks and the rest. *)
Variant unlinked (root : Z) (r : critbit_root) (t : tree) (fr m : mem) : Z → Prop :=
  | unlinked_leaf a v :
      t = Leaf a k v → addr_ok a →
      owns [(a, BString v (cstr k)); (root, BRoot (set_head 0 r))] fr m →
      unlinked root r t fr m (a + PTR_SIZE)
  | unlinked_node f C a v :
      t = plug (f :: C) (Leaf a k v) →
      remove k t = Some (plug C (f_sib f)) → addr_ok a → addr_ok (f_addr f) →
      wf (f_sib f) → k ∉ keys (f_sib f) →
      owns ((f_addr f, BNode (frame_node f (a + PTR_SIZE))) :: (a, BString v (cstr k)) ::
        root_cells root r (plug C (f_sib f))) fr m →
      unlinked root r t fr m (FROM_NODE (f_addr f)).

Lemma keys_plug C s q : q ∈ keys s → q ∈ keys (plug C s).
Proof.
  revert s. induction C as [|f C IH]; intros s Hq; [done|]. apply IH.
  unfold plug1. destruct (f_dir f); rewrite keys_inner, elem_of_app; auto.
Qed.

(** Making the parent's pointer skip the last node of the path. *)
Lemma unlink_node root r t fr m f C a v :
  wf t → owns (root_cells root r t) fr m →
  plug (f :: C) (Leaf a k v) = t → remove k t = Some (plug C (f_sib f)) →
  load_slot (SChild (f_addr f) (1 - of_bool (f_dir f))) m = Done (ptr (f_sib f), m) ∧
  ∃ m', store_slot (slot_of root C) (ptr (f_sib f)) m = Done (tt, m') ∧
    unlinked root r t fr m' (FROM_NODE (f_addr f)).
Proof.
  intros Hwf Hm Hplug Hrem. rewrite <-Hplug, (root_cells_plug root r (f :: C)) in Hm.
  cbn [slot_cell ptr] in Hm. split.
  { cbn. erewrite bind_done by (eapply load_node_at, owns_lookup_hd, Hm).
    unfold frame_node. by destruct (f_dir f). }
  cbn [ctx_cells] in Hm. rewrite <-app_assoc in Hm.
  match type of Hm with owns (?c1 :: ?cs1 ++ (?c2 :: ?cs2) ++ ?cs3) _ _ =>
    assert (c1 :: cs1 ++ (c2 :: cs2) ++ cs3 ≡ₚ c2 :: c1 :: cs1 ++ cs2 ++ cs3) as Hperm
      by solve_Permutation; rewrite Hperm in Hm; clear Hperm end.
  destruct (owns_slot root r C _ (ptr (f_sib f)) _ _ _ Hm) as (m' & Hst & Hm').
  exists m'. split; [done|].
  assert (wf (plug1 f (Leaf a k v))) as Hwf1.
  { apply (wf_plug C). rewrite <-Hplug in Hwf. exact Hwf. }
  pose proof (wf_NoDup _ Hwf1) as Hnd. unfold plug1 in Hwf1, Hnd.
  apply (unlinked_node _ _ _ _ _ f C a v); [done|done|..].
  - destruct (f_dir f), Hwf1 as (_ & _ & _ & Hl & Hr & _); [by destruct Hr|by destruct Hl].
  - by destruct (f_dir f), Hwf1.
  - destruct (f_dir f), Hwf1 as (_ & _ & _ & ? & ? & _); done.
  - intros Hin. destruct (f_dir f); rewrite keys_inner in Hnd; apply NoDup_app in Hnd as (_ & Hdisj & _);
      eapply Hdisj; [exact Hin|..|exact Hin]; by apply list_elem_of_singleton.
  - rewrite root_cells_plug. eapply owns_perm; [|exact Hm'].
    cbn. solve_Permutation.
Qed.

Lemma delete_inplace_spec root r t fr m :
  wf t → owns (root_cells root r t) fr m →
  (k ∉ keys t ∧ critbit_delete_inplace root (cstr k) (s32 len) m = Done (0, m)) ∨
  (k ∈ keys t ∧ ∃ p m', critbit_delete_inplace root (cstr k) (s32 len) m = Done (p, m') ∧
    unlinked root r t fr m' p).
Proof.
  intros Hwf Hm. unfold critbit_delete_inplace.
  erewrite bind_done by (eapply load_root_at, owns_lookup_hd, Hm). cbn beta.
  cbn [head set_head]. destruct (Z.eqb_spec (ptr t) 0) as [Hp|_]; [by apply ptr_nonzero in Hp|].
  pose proof (owns_holds _ _ _ Hm) as Hh. apply holds_cons in Hh as [_ Hh].
  unfold walk_fuel. erewrite bind_done by done. cbn beta.
  destruct (delete_loop_spec m k Hk root t (S (size m)) [] Hwf Hh) as (C & [Hplug Hrem] & Hrun).
  { apply Nat.lt_lt_succ_r. by eapply owns_height. }
  cbn [slot_of whereq_of q_of dir_of] in Hrun. rewrite app_nil_r in Hrun.
  erewrite bind_done by exact Hrun. cbn beta iota.
  destruct (nearest_block m k t Hwf Hh) as [Hblk Haddr].
  erewrite bind_done by (eapply load_chars_at, Hblk). cbn beta.
  destruct (strcmp_keys (nearest_key k t)) as (d & Hd & Hiff).
  { eapply wf_nonul, nearest_key_in; done. }
  rewrite Hd. erewrite bind_done by done. cbn beta. rewrite Hiff.
  case_bool_decide as Heq; cbn [negb].
  2:{ left. split; [|done]. by rewrite <-nearest_key_iff. }
  right. split; [by apply nearest_key_iff|].
  rewrite Heq in *. set (a := (nearest k t).1.1) in *. set (v := (nearest k t).2) in *.
  destruct C as [|f C]; cbn [whereq_of q_of dir_of].
  - cbn in Hplug. rewrite <-Hplug in Hm.
    destruct (owns_slot root r [] _ 0 _ _ _ Hm) as (m' & Hst & Hm').
    erewrite bind_done by exact Hst. eexists _, m'. split; [done|].
    apply (unlinked_leaf _ _ _ _ _ a v); [done..|].
    rewrite perm_swap. exact Hm'.
  - destruct (unlink_node root r t fr m f C a v Hwf Hm Hplug Hrem) as (Hld & m' & Hst & Hun).
    erewrite bind_done by exact Hld. cbn beta.
    erewrite bind_done by (destruct (f_dir f); exact Hst). by eexists _, m'.
Qed.
End delete_inplace.

(** ** Locks *)

Definition idle : rwlock := Rwlock 0 false.

(** No thread holds a lock of the root, and the two lock pointers differ. *)
Definition locks_idle (r : critbit_root) : Prop :=
  wlock r = false ∧ left_rwlock r = idle ∧ right_rwlock r = idle ∧ cur_rwlock r ≠ prev_rwlock r.

Definition swap_locks (r : critbit_root) : critbit_root :=
  set_cur (prev_rwlock r) (set_prev (cur_rwlock r) r).

Lemma locks_idle_swap r : locks_idle r → locks_idle (swap_locks r).
Proof. intros (? & ? & ? & ?). by split_and!. Qed.

Lemma relock r : wlock r = false → set_wlock false (set_wlock true r) = r.
Proof. destruct r; cbn. by intros ->. Qed.

(** The lock calls on a root block. *)
Section root_block.
Context (root : Z) (m : mem) (r : critbit_root) (Hroot : m !! root = Some (BRoot r)).

Lemma cas_cur_at old new :
  cur_rwlock r = old → cas_cur root old new m = Done (old, <[root := BRoot (set_cur new r)]> m).
Proof.
  intros Hold. unfold cas_cur. erewrite bind_done by eauto with cmd. cbn beta.
  rewrite decide_True by done. erewrite bind_done by eauto with cmd. by rewrite Hold.
Qed.

Lemma cas_prev_at old new :
  prev_rwlock r = old → cas_prev root old new m = Done (old, <[root := BRoot (set_prev new r)]> m).
Proof.
  intros Hold. unfold cas_prev. erewrite bind_done by eauto with cmd. cbn beta.
  rewrite decide_True by done. erewrite bind_done by eauto with cmd. by rewrite Hold.
Qed.

Lemma wrlock_at l :
  get_rwlock l r = idle →
  pthread_rwlock_wrlock root l m = Done (tt, <[root := BRoot (set_rwlock l (Rwlock 0 true) r)]> m).
Proof.
  intros Hl. unfold pthread_rwlock_wrlock. erewrite bind_done by eauto with cmd. cbn beta zeta.
  rewrite Hl. by apply store_root_at with (1 := Hroot).
Qed.

Lemma rdlock_at l :
  get_rwlock l r = idle →
  pthread_rwlock_rdlock root l m = Done (tt, <[root := BRoot (set_rwlock l (Rwlock 1 false) r)]> m).
Proof.
  intros Hl. unfold pthread_rwlock_rdlock. erewrite bind_done by eauto with cmd. cbn beta zeta.
  rewrite Hl. by apply store_root_at with (1 := Hroot).
Qed.

Lemma unlock_at l w :
  get_rwlock l r = w → w = Rwlock 0 true ∨ w = Rwlock 1 false →
  pthread_rwlock_unlock root l m = Done (tt, <[root := BRoot (set_rwlock l idle r)]> m).
Proof.
  intros Hl Hw. unfold pthread_rwlock_unlock. erewrite bind_done by eauto with cmd. cbn beta zeta.
  rewrite Hl. destruct Hw as [-> | ->]; by apply store_root_at with (1 := Hroot).
Qed.
End root_block.

Section locks.
Context (root : Z) (p : Z) (r : critbit_root) (Hidle : locks_idle r).
Implicit Types (m fr : mem) (cs : list (Z * block)).

Lemma lock_spec cs fr m :
  owns ((root, BRoot (set_head p r)) :: cs) fr m →
  ∃ m', pthread_mutex_lock root m = Done (tt, m') ∧
    owns ((root, BRoot (set_head p (set_wlock true r))) :: cs) fr m'.
Proof.
  intros Hm. eexists. unfold pthread_mutex_lock.
  erewrite bind_done by (eapply load_root_at, owns_lookup_hd, Hm). cbn beta.
  destruct Hidle as (Hw & _). cbn [wlock set_head]. rewrite Hw.
  split; [eapply store_root_at, owns_lookup_hd, Hm|]. by eapply owns_store.
Qed.

Lemma unlock_spec cs fr m r' :
  wlock r' = true → owns ((root, BRoot (set_head p r')) :: cs) fr m →
  ∃ m', pthread_mutex_unlock root m = Done (tt, m') ∧
    owns ((root, BRoot (set_head p (set_wlock false r'))) :: cs) fr m'.
Proof.
  intros Hw Hm. eexists. unfold pthread_mutex_unlock.
  erewrite bind_done by (eapply load_root_at, owns_lookup_hd, Hm). cbn beta.
  cbn [wlock set_head]. rewrite Hw.
  split; [eapply store_root_at, owns_lookup_hd, Hm|]. by eapply owns_store.
Qed.

Lemma wait_readers_spec cs fr m :
  owns ((root, BRoot (set_head p (set_wlock true r))) :: cs) fr m →
  ∃ m', wait_readers root m = Done (tt, m') ∧
    owns ((root, BRoot (set_head p (set_wlock true (swap_locks r)))) :: cs) fr m'.
Proof.
  intros Hm. exists (<[root := BRoot (set_head p (set_wlock true (swap_locks r)))]> m).
  split; [|by eapply owns_store]. apply owns_lookup_hd in Hm.
  destruct Hidle as (_ & Hl & Hr & Hcp). destruct r as [h w lr rr cur prev]. simpl in Hl, Hr, Hcp.
  subst lr rr. unfold wait_readers. erewrite bind_done by eauto with cmd. cbn beta zeta.
  erewrite bind_done by (by apply cas_cur_at with (1 := Hm)). cbn beta.
  erewrite bind_done by (eapply cas_prev_at; [apply lookup_insert_eq|done]). cbn beta.
  erewrite bind_done by (eapply wrlock_at; [apply lookup_insert_eq|by destruct cur]). cbn beta.
  erewrite unlock_at with (w := Rwlock 0 true); [|apply lookup_insert_eq|by destruct cur|by left].
  rewrite !insert_insert_eq. by destruct cur, prev.
Qed.

(** [critbit_get] takes the current reader lock and gives it back. *)
Definition with_reader : critbit_root := set_rwlock (cur_rwlock r) (Rwlock 1 false) r.

Lemma rdlock_spec cs fr m :
  owns ((root, BRoot (set_head p r)) :: cs) fr m →
  let m1 := <[root := BRoot (set_head p with_reader)]> m in
  pthread_rwlock_rdlock root (cur_rwlock r) m = Done (tt, m1) ∧
  owns ((root, BRoot (set_head p with_reader)) :: cs) fr m1 ∧
  pthread_rwlock_unlock root (cur_rwlock r) m1 = Done (tt, m).
Proof.
  intros Hm m1. pose proof (owns_lookup_hd _ _ _ _ _ Hm) as Hroot. unfold m1, with_reader.
  split_and!; [|by eapply owns_store|].
  all: destruct Hidle as (_ & Hl & Hr & _), r as [h w lr rr cur prev]; simpl in Hl, Hr; subst lr rr.
  - rewrite (rdlock_at _ _ _ Hroot) by (by destruct cur). by destruct cur.
  - erewrite unlock_at with (w := Rwlock 1 false); [|apply lookup_insert_eq|by destruct cur|by right].
    rewrite insert_insert_eq. do 2 f_equal. apply insert_id. rewrite Hroot. by destruct cur.
Qed.
End locks.
