(* ===== verification/MapSpec.v ===== *)
(** * MapSpec: the contract of helper.h

    helper.h declares the map interface that every benchmarked data structure
    implements ([init], [add], [find], [del], [clear]).  [MapImpl] is a set of
    implementations of those functions over some state; [MapSpec] is the
    contract its comments state, as operations on a finite map.  Clients
    (helper.c) are verified against the class; critbit.c, redisdict.c and
    art.c provide instances.  [run_ops] and the refinement lemma lift the
    contract to arbitrary sequences of calls. *)

From S2P Require Import Prelude.

Notation kvmap := (gmap (list Z) Z).

Class MapImpl (S : Type) := {
  map_init : cmd S Z;
  map_add : Z → list Z → Z → cmd S Z;
  map_find : Z → list Z → cmd S Z;
  map_del : Z → list Z → cmd S Z;
  map_clear : Z → cmd S unit;
}.

(** [find] returns a null pointer for a missing key. *)
Definition find_result (M : kvmap) (k : list Z) : Z := default 0 (M !! k).

(** The keys and values an implementation accepts, the numbers of keys it can
    still extend, the keys it can be asked for in a map (those that are there at
    least), the states it represents a map in and those it starts from. *)
Class MapSpec {S : Type} (I : MapImpl S) := {
  map_key : list Z → Prop;
  map_val : Z → Prop;
  map_room : nat → Prop;
  map_searchable : kvmap → list Z → Prop;
  map_repr : Z → kvmap → S → Prop;
  map_start : S → Prop;

  map_init_ok s :
    map_start s → ∃ obj s', map_init s = Done (obj, s') ∧ map_repr obj ∅ s';
  map_clear_ok obj M s :
    map_repr obj M s → ∃ s', map_clear obj s = Done (tt, s');
  map_searchable_present M k : is_Some (M !! k) → map_searchable M k;

  map_add_new obj M s k v :
    map_repr obj M s → map_key k → map_val v → map_room (size M) → M !! k = None →
    ∃ s', map_add obj (cstr k) v s = Done (0, s') ∧ map_repr obj (<[k := v]> M) s';
  map_add_dup obj M s k v :
    map_repr obj M s → map_key k → map_val v → map_room (size M) → is_Some (M !! k) →
    ∃ s', map_add obj (cstr k) v s = Done (1, s') ∧ map_repr obj M s';
  map_find_ok obj M s k :
    map_repr obj M s → map_key k → map_searchable M k →
    ∃ s', map_find obj (cstr k) s = Done (find_result M k, s') ∧ map_repr obj M s';
  map_del_ok obj M s k :
    map_repr obj M s → map_key k →
    ∃ s', map_del obj (cstr k) s = Done (if decide (is_Some (M !! k)) then 0 else 1, s') ∧
      map_repr obj (delete k M) s';
}.

(** Null is not a value that [find] can report.  [NullSpec] is the contract of
    an implementation that can be given one nevertheless: at most the key
    itself is affected. *)
Class NullSpec {S : Type} {I : MapImpl S} (MS : MapSpec I) : Prop :=
  map_add_null : ∀ obj M s k,
    map_repr obj M s → map_key k → map_room (size M) →
    ∃ r M' s', map_add obj (cstr k) 0 s = Done (r, s') ∧ map_repr obj M' s' ∧
      ∀ k', k' ≠ k → M' !! k' = M !! k'.

(** ** Sequences of calls *)

Inductive op := Add (k : list Z) (v : Z) | Find (k : list Z) | Del (k : list Z).

Section ops.
Context {S : Type} `{MI : MapImpl S}.

Definition run_op (obj : Z) (o : op) : cmd S Z :=
  match o with
  | Add k v => map_add obj (cstr k) v
  | Find k => map_find obj (cstr k)
  | Del k => map_del obj (cstr k)
  end.

Fixpoint run_ops (obj : Z) (os : list op) : cmd S (list Z) :=
  match os with
  | [] => mret []
  | o :: os => x ← run_op obj o; xs ← run_ops obj os; mret (x :: xs)
  end.
End ops.

(** The same calls on the finite map. *)
Definition spec_op (o : op) (M : kvmap) : Z * kvmap :=
  match o with
  | Add k v => match M !! k with None => (0, <[k := v]> M) | Some _ => (1, M) end
  | Find k => (find_result M k, M)
  | Del k => (if decide (is_Some (M !! k)) then 0 else 1, delete k M)
  end.

Fixpoint spec_ops (os : list op) (M : kvmap) : list Z * kvmap :=
  match os with
  | [] => ([], M)
  | o :: os => let '(x, M1) := spec_op o M in let '(xs, M2) := spec_ops os M1 in (x :: xs, M2)
  end.

Section refinement.
Context {S : Type} {I : MapImpl S} {MS : MapSpec I}.

Definition op_ok (o : op) (M : kvmap) : Prop :=
  match o with
  | Add k v => map_key k ∧ map_val v ∧ map_room (size M)
  | Find k => map_key k ∧ map_searchable M k
  | Del k => map_key k
  end.

(** Every call of the sequence is made within its domain. *)
Fixpoint ops_ok (os : list op) (M : kvmap) : Prop :=
  match os with
  | [] => True
  | o :: os => op_ok o M ∧ ops_ok os (spec_op o M).2
  end.

Lemma run_op_refines obj o M s :
  map_repr obj M s → op_ok o M →
  ∃ s', run_op obj o s = Done ((spec_op o M).1, s') ∧ map_repr obj (spec_op o M).2 s'.
Proof.
  intros Hs Ho. destruct o as [k v|k|k]; cbn in Ho |- *.
  - destruct Ho as (Hk & Hv & Hroom). destruct (M !! k) eqn:Hlook; cbn.
    + by apply map_add_dup.
    + by apply map_add_new.
  - destruct Ho. by apply map_find_ok.
  - by apply map_del_ok.
Qed.

Lemma run_ops_refines os : ∀ obj M s,
  map_repr obj M s → ops_ok os M →
  ∃ s', run_ops obj os s = Done ((spec_ops os M).1, s') ∧ map_repr obj (spec_ops os M).2 s'.
Proof.
  induction os as [|o os IH]; intros obj M s Hs Hos; cbn in Hos |- *; [by exists s|].
  destruct Hos as [Ho Hos]. destruct (run_op_refines obj o M s Hs Ho) as (s1 & Hrun & Hs1).
  destruct (spec_op o M) as [x M1]. cbn in *.
  destruct (IH obj M1 s1 Hs1 Hos) as (s2 & Hrun2 & Hs2).
  destruct (spec_ops os M1) as [xs M2]. exists s2.
  erewrite bind_done by exact Hrun. cbn beta. by erewrite bind_done by exact Hrun2.
Qed.
End refinement.
