(* ===== verification/CritbitMap.v ===== *)
(** * CritbitMap: the map a critbit root represents

    [represents root M fr m]: memory [m] is the frame [fr] plus exactly the
    blocks of a well-formed tree under [root] whose bindings are the finite
    map [M], and no lock of the root is held.  The lemmas give each public
    function of critbit.c as an operation on [M]. *)

From S2P Require Import Prelude.
From S2P Require Import KeyBits.
From S2P Require Import Critbit.
From S2P Require Import CritTree.
From S2P Require Import Own.
From S2P Require Import CritMem.
From S2P Require Import CritbitProofs.
From S2P Require Import MapSpec.

Implicit Types (root : Z) (r : critbit_root) (fr m : mem) (M : gmap (list Z) Z) (k : list Z).

Definition tree_state root r (ot : option tree) fr m : Prop :=
  match ot with
  | None => owns [(root, BRoot (set_head 0 r))] fr m
  | Some t => wf t ∧ owns (root_cells root r t) fr m
  end.

Definition tree_map (ot : option tree) : gmap (list Z) Z := from_option to_map ∅ ot.

Definition represents root M fr m : Prop :=
  ∃ r ot, locks_idle r ∧ tree_state root r ot fr m ∧ M = tree_map ot.

(** The head pointer and the other blocks of a tree. *)
Definition head_of (ot : option tree) : Z := from_option ptr 0 ot.
Definition body_of (ot : option tree) : list (Z * block) := from_option cells [] ot.

Lemma tree_state_owns root r ot fr m :
  tree_state root r ot fr m ↔
  from_option wf True ot ∧ owns ((root, BRoot (set_head (head_of ot) r)) :: body_of ot) fr m.
Proof. destruct ot; cbn; tauto. Qed.

Lemma to_map_nonempty t : to_map t ≠ ∅.
Proof.
  intros H. assert (to_map t !! nearest_key [] t = None) as Hn by (by rewrite H).
  apply to_map_None in Hn. apply Hn, nearest_key_in.
Qed.

Lemma tree_map_empty ot : tree_map ot = ∅ ↔ ot = None.
Proof. destruct ot; cbn; [|done]. split; [|done]. intros H. by apply to_map_nonempty in H. Qed.

(** ** Lookup *)

Section get.
Context k (Hk : key_ok k) root r fr m (Hidle : locks_idle r).

Lemma get_tree t out :
  wf t → owns (root_cells root r t) fr m →
  critbit_get root (cstr k) out m =
  Done (match to_map t !! k with Some v => (0, v) | None => (1, out) end, m).
Proof.
  intros Hwf Hm. unfold critbit_get. destruct (Hk) as [Hnk Hlen].
  rewrite strlen_cstr by done. erewrite bind_done by done. cbn beta.
  erewrite bind_done by (eapply load_root_at, owns_lookup_hd, Hm). cbn beta zeta.
  destruct (rdlock_spec root (ptr t) r Hidle _ _ _ Hm) as (Hlock & Hm1 & Hunlock).
  cbn [cur_rwlock set_head]. erewrite bind_done by exact Hlock. cbn beta.
  set (m1 := <[root := _]> m) in *.
  erewrite bind_done by (eapply load_root_at, owns_lookup_hd, Hm1). cbn beta.
  pose proof (owns_holds _ _ _ Hm1) as Hh. apply holds_cons in Hh as [_ Hh].
  rewrite keylen_u64 by done. cbn [head set_head].
  erewrite bind_done.
  2:{ apply find_nearest_spec; [done..|]. by eapply owns_height. }
  cbn beta. destruct (nearest_block m1 k t Hwf Hh) as [Hblk Haddr].
  erewrite bind_done by (eapply load_chars_at, Hblk). cbn beta.
  assert (nonul (nearest_key k t)) as Hnp by (eapply wf_nonul, nearest_key_in; done).
  destruct (strcmp_cstr _ _ Hnp Hnk) as (d & Hd & Hiff).
  rewrite Hd. erewrite bind_done by done. cbn beta. rewrite lookup_nearest by done.
  case_decide as Hn.
  - rewrite (proj2 Hiff Hn), Z.eqb_refl. erewrite bind_done.
    2:{ erewrite bind_done by (eapply load_value_at, Hblk). done. }
    cbn beta. by erewrite bind_done by exact Hunlock.
  - destruct (Z.eqb_spec d 0) as [H0|_]; [by apply Hiff in H0|].
    erewrite bind_done by done. cbn beta. by erewrite bind_done by exact Hunlock.
Qed.

(** With a null head the code compares the key with the string at address 0. *)
Lemma get_empty out :
  owns [(root, BRoot (set_head 0 r))] fr m → root ≠ - PTR_SIZE → m !! (- PTR_SIZE) = None →
  critbit_get root (cstr k) out m = Undef.
Proof.
  intros Hm Hroot Hnull. unfold critbit_get. destruct (Hk) as [Hnk Hlen].
  rewrite strlen_cstr by done. erewrite bind_done by done. cbn beta.
  erewrite bind_done by (eapply load_root_at, owns_lookup_hd, Hm). cbn beta zeta.
  destruct (rdlock_spec root 0 r Hidle _ _ _ Hm) as (Hlock & Hm1 & _).
  cbn [cur_rwlock set_head]. erewrite bind_done by exact Hlock. cbn beta.
  set (m1 := <[root := _]> m) in *.
  erewrite bind_done by (eapply load_root_at, owns_lookup_hd, Hm1). cbn beta.
  cbn [head set_head]. erewrite bind_done by done. cbn beta.
  apply bind_undef. unfold load_chars. change (0 - PTR_SIZE) with (- PTR_SIZE).
  subst m1. by rewrite lookup_insert_ne, Hnull.
Qed.
End get.

Section ops.
Context {MA : Malloc} {MS : MallocSpec MA}.

(** ** Insertion *)

Section insert.
Context k (Hk : key_ok k) (v : Z).
Let len := Z.of_nat (length k).

Lemma insert_inplace_spec root r ot fr m :
  tree_state root r ot fr m →
  let run := critbit_insert_inplace root (cstr k) (s32 len) v m in
  match tree_map ot !! k with
  | Some _ => run = Done (1, m)
  | None =>
      (out_of_memory ∧ run = Done (1, m)) ∨
      (∃ t' m', run = Done (0, m') ∧ to_map t' = <[k := v]> (tree_map ot) ∧
        from_option (λ t, insertion k v t t') True ot ∧ tree_state root r (Some t') fr m')
  end.
Proof.
  intros Hst run. subst run. unfold critbit_insert_inplace. destruct ot as [t|]; cbn in Hst |- *.
  - destruct Hst as [Hwf Hm].
    erewrite bind_done by (eapply load_root_at, owns_lookup_hd, Hm). cbn beta.
    cbn [head set_head]. destruct (Z.eqb_spec (ptr t) 0) as [Hp|_]; [by apply ptr_nonzero in Hp|].
    pose proof (owns_holds _ _ _ Hm) as Hh. apply holds_cons in Hh as [_ Hh].
    unfold len. rewrite keylen_u64 by done.
    erewrite bind_done.
    2:{ apply find_nearest_spec; [done..|]. by eapply owns_height. }
    cbn beta.
    destruct (nearest_block m k t Hwf Hh) as [Hblk Haddr].
    assert (nonul (nearest_key k t)) as Hnp by (eapply wf_nonul, nearest_key_in; done).
    destruct (Hk) as [_ Hlen].
    destruct (diff_loop_spec m k Hk _ _ (nearest_key k t)
      (S (Z.to_nat (u32 (s32 (Z.of_nat (length k)))))) 0 Hnp Hblk)
      as [[Heq Hrun]|(nb & Hnb & Hnbp & Hag & Hne & Hrun)]; [lia|lia| | | |].
    { rewrite s32_small, u32_small by lia. lia. }
    { intros; lia. }
    + erewrite bind_done by exact Hrun. cbn beta iota.
      rewrite lookup_nearest by done. by rewrite decide_True.
    + erewrite bind_done by exact Hrun. cbn beta iota.
      rewrite lookup_nearest by done. rewrite decide_False by (intros Heq; by rewrite Heq in Hne).
      destruct (insert_found_spec k v Hk root r t fr m nb Hwf Hm)
        as [?|(t' & m' & Hwf' & Hins & Hmap & Hm' & Hrun')]; [done..|by left|].
      right. by exists t', m'.
  - erewrite bind_done by (eapply load_root_at, owns_lookup_hd, Hst). cbn beta.
    cbn [head set_head]. rewrite Z.eqb_refl. rewrite lookup_empty.
    destruct (alloc_string_spec m k v Hk) as [[Hoom Hrun]|(a & Ha & Hfresh & Hrun)];
      unfold len; erewrite bind_done by exact Hrun; cbn beta; [by left|].
    rewrite addr_ok_string_nonzero by done. right.
    apply (owns_alloc _ _ _ a (BString v (cstr k)) Hfresh) in Hst. rewrite perm_swap in Hst.
    destruct (owns_slot root r [] 0 (a + PTR_SIZE) _ _ _ Hst) as (m' & Hrun' & Hm').
    erewrite bind_done by exact Hrun'. exists (Leaf a k v), m'.
    split_and!; [done..|by split|exact Hm'].
Qed.

Lemma insert_spec root M fr m :
  represents root M fr m →
  match M !! k with
  | Some _ => ∃ m', critbit_insert root (cstr k) v m = Done (1, m') ∧ represents root M fr m'
  | None =>
      (out_of_memory ∧ ∃ m', critbit_insert root (cstr k) v m = Done (1, m') ∧
        represents root M fr m') ∨
      (∃ m', critbit_insert root (cstr k) v m = Done (0, m') ∧
        represents root (<[k := v]> M) fr m')
  end.
Proof.
  intros (r & ot & Hidle & Hst & ->). apply tree_state_owns in Hst as [Hwf Hm].
  destruct (lock_spec root _ r Hidle _ _ _ Hm) as (m1 & Hlock & Hm1).
  assert (tree_state root (set_wlock true r) ot fr m1) as Hst1 by (by apply tree_state_owns).
  assert (∀ x ot' m2, critbit_insert_inplace root (cstr k) (s32 len) v m1 = Done (x, m2) →
    tree_state root (set_wlock true r) ot' fr m2 →
    ∃ m3, critbit_insert root (cstr k) v m = Done (x, m3) ∧ represents root (tree_map ot') fr m3)
    as Hfinish.
  { intros x ot' m2 Hins [Hwf2 Hm2]%tree_state_owns.
    destruct (unlock_spec root _ _ _ _ (set_wlock true r) eq_refl Hm2) as (m3 & Hun & Hm3).
    exists m3. split.
    - unfold critbit_insert. rewrite strlen_cstr by apply Hk. erewrite bind_done by done.
      cbn beta. fold len. erewrite bind_done by exact Hlock. cbn beta.
      erewrite bind_done by exact Hins. cbn beta. by erewrite bind_done by exact Hun.
    - rewrite relock in Hm3 by apply Hidle.
      exists r, ot'. split_and!; [done| |done]. by apply tree_state_owns. }
  pose proof (insert_inplace_spec root _ ot fr m1 Hst1) as Hins. cbv zeta in Hins.
  destruct (tree_map ot !! k) as [v'|].
  - by eapply Hfinish.
  - destruct Hins as [[Hoom Hins]|(t' & m2 & Hins & Hmap & _ & Hst2)].
    + left. split; [done|]. by eapply Hfinish.
    + right. rewrite <-Hmap. by eapply (Hfinish _ (Some t')).
Qed.
End insert.
End ops.

(** ** Deletion *)

Section delete.
Context k (Hk : key_ok k).
Let len := Z.of_nat (length k).

(** Only the root's block depends on the root's lock fields. *)
Lemma unlinked_root root r t fr m p :
  unlinked k root r t fr m p →
  ∃ h cs, owns ((root, BRoot (set_head h r)) :: cs) fr m ∧
    ∀ r' m', owns ((root, BRoot (set_head h r')) :: cs) fr m' → unlinked k root r' t fr m' p.
Proof.
  intros [a v -> Ha Hm|f C a v Ht Hrem Ha Hf Hwf Hnin Hm].
  - eexists 0, _. split; [rewrite perm_swap in Hm; exact Hm|].
    intros r' m' Hm'. rewrite perm_swap in Hm'. by eapply unlinked_leaf.
  - unfold root_cells in Hm. exists (ptr (plug C (f_sib f))),
      ((f_addr f, BNode (frame_node f (a + PTR_SIZE))) :: (a, BString v (cstr k)) ::
        cells (plug C (f_sib f))).
    split.
    + eapply owns_perm; [|exact Hm]. solve_Permutation.
    + intros r' m' Hm'. eapply (unlinked_node _ _ _ _ _ _ f C a v); [done..|].
      eapply owns_perm; [|exact Hm']. unfold root_cells. solve_Permutation.
Qed.

Lemma free_unlinked_spec root r t fr m p :
  wf t → unlinked k root r t fr m p →
  p ≠ 0 ∧ ∃ m', free_unlinked (cstr k) p m = Done (0, m') ∧ tree_state root r (remove k t) fr m'.
Proof.
  intros Hwft [a v -> Ha Hm|f C a v Ht Hrem Ha Hf Hwf Hnin Hm]; unfold free_unlinked.
  - pose proof (addr_ok_string_nonzero a Ha). split; [lia|]. rewrite IS_INTERNAL_string by done.
    cbn [negb]. erewrite bind_done by (eapply free_string_at, owns_lookup_hd, Hm).
    eexists. split; [done|]. by apply owns_free in Hm.
  - split; [destruct Hf; unfold FROM_NODE; lia|].
    rewrite IS_INTERNAL_node, TO_NODE_FROM_NODE by done. cbn [negb].
    erewrite bind_done by (eapply load_node_at, owns_lookup_hd, Hm). cbn beta.
    assert (∃ m', (_ ← free_string (a + PTR_SIZE); _ ← free_node (f_addr f); mret 0) m = Done (0, m') ∧
      tree_state root r (remove k t) fr m') as (m' & Hfree & Hst).
    { rewrite perm_swap in Hm.
      erewrite bind_done by (eapply free_string_at, owns_lookup_hd, Hm). cbn beta.
      apply owns_free in Hm. unfold free_node.
      erewrite bind_done by (eapply free_at, owns_lookup_hd, Hm). cbn beta.
      eexists. split; [done|]. rewrite Hrem. split; [exact (wf_remove _ _ _ Hwft Hrem)|]. by apply owns_free in Hm. }
    exists m'. split; [|done]. unfold frame_node. destruct (f_dir f); cbn [child0 child1].
    + rewrite (bind_done _ _ m false m); [exact Hfree|]. rewrite IS_INTERNAL_ptr by done.
      destruct (f_sib f) as [a2 k2 v2|] eqn:Hsib; [|done]. cbn [is_leaf negb ptr].
      erewrite bind_done.
      2:{ eapply load_chars_at, owns_lookup; [exact Hm|]. do 2 (apply elem_of_cons; right).
          rewrite root_cells_plug. apply elem_of_cons. right. apply elem_of_app. right.
          by apply list_elem_of_singleton. }
      cbn beta. destruct (strcmp_keys k Hk k2) as (d & Hd & Hiff); [by destruct Hwf as [_ [? _]]|].
      rewrite Hd. erewrite bind_done by done. rewrite Hiff. rewrite bool_decide_eq_false_2; [done|].
      intros ->. apply Hnin. by apply list_elem_of_singleton.
    + rewrite (bind_done _ _ m true m); [exact Hfree|]. rewrite IS_INTERNAL_string by done.
      erewrite bind_done by (eapply load_chars_at, (owns_lookup _ _ _ a); [exact Hm|];
        do 2 (apply elem_of_cons; (by left) || right)). cbn beta.
      rewrite strcmp_cstr_eq by apply Hk. by erewrite bind_done by done.
Qed.

Lemma delete_spec root M fr m :
  represents root M fr m →
  ∃ m', critbit_delete root (cstr k) m = Done (if decide (is_Some (M !! k)) then 0 else 1, m') ∧
    represents root (delete k M) fr m'.
Proof.
  intros (r & ot & Hidle & Hst & ->). apply tree_state_owns in Hst as [Hwf Hm].
  destruct (lock_spec root _ r Hidle _ _ _ Hm) as (m1 & Hlock & Hm1).
  (* the rest of the function after the unlinking *)
  assert (∀ p h cs m2, critbit_delete_inplace root (cstr k) (s32 len) m1 = Done (p, m2) →
    owns ((root, BRoot (set_head h (set_wlock true r))) :: cs) fr m2 →
    ∃ m3, owns ((root, BRoot (set_head h (swap_locks r))) :: cs) fr m3 ∧
      critbit_delete root (cstr k) m = (if p =? 0 then mret 1 else free_unlinked (cstr k) p) m3)
    as Hfinish.
  { intros p h cs m2 Hdel Hm2.
    destruct (wait_readers_spec root h r Hidle _ _ _ Hm2) as (m3 & Hwait & Hm3).
    destruct (unlock_spec root _ _ _ _ (set_wlock true (swap_locks r)) eq_refl Hm3)
      as (m4 & Hun & Hm4).
    rewrite relock in Hm4 by apply Hidle. exists m4. split; [done|].
    unfold critbit_delete. rewrite strlen_cstr by apply Hk. erewrite bind_done by done. cbn beta.
    fold len. erewrite bind_done by exact Hlock. cbn beta. erewrite bind_done by exact Hdel. cbn beta.
    erewrite bind_done by exact Hwait. cbn beta. by erewrite bind_done by exact Hun. }
  pose proof (locks_idle_swap r Hidle) as Hidle'.
  destruct ot as [t|]; cbn [tree_map from_option head_of body_of] in *.
  - destruct (delete_inplace_spec k Hk root (set_wlock true r) t fr m1 Hwf Hm1)
      as [[Hnin Hdel]|(Hin & p & m2 & Hdel & Hun)].
    + destruct (Hfinish _ _ _ _ Hdel Hm1) as (m3 & Hm3 & ->). exists m3.
      apply to_map_None in Hnin. rewrite decide_False by (rewrite Hnin; by intros [? ?]).
      split; [done|]. exists (swap_locks r), (Some t). rewrite delete_id by done.
      split_and!; [done| |done]. by apply tree_state_owns.
    + destruct (unlinked_root _ _ _ _ _ _ Hun) as (h & cs & Hm2 & Hback).
      destruct (Hfinish _ _ _ _ Hdel Hm2) as (m3 & Hm3 & ->).
      destruct (free_unlinked_spec _ _ _ _ _ _ Hwf (Hback _ _ Hm3)) as (Hp & m4 & Hfree & Hst).
      exists m4. destruct (Z.eqb_spec p 0); [done|]. rewrite Hfree. split.
      * rewrite decide_True; [done|]. apply not_eq_None_Some. rewrite to_map_None. intros Hn. by apply Hn.
      * exists (swap_locks r), (remove k t). split_and!; [done..|].
        by rewrite <-to_map_remove.
  - destruct (Hfinish 0 0 [] m1) as (m3 & Hm3 & ->); [|done|].
    { unfold critbit_delete_inplace.
      erewrite bind_done by (eapply load_root_at, owns_lookup_hd, Hm1). done. }
    exists m3. rewrite decide_False by (rewrite lookup_empty; by intros [? ?]). split; [done|].
    exists (swap_locks r), None. by rewrite delete_empty.
Qed.
End delete.

(** ** Construction and destruction *)

Lemma clear_node_loop_spec s : ∀ fuel cs fr m,
  wf s → owns (cells s ++ cs) fr m → (height s < fuel)%nat →
  ∃ m', clear_node_loop fuel (ptr s) m = Done (tt, m') ∧ owns cs fr m'.
Proof.
  induction s as [a k v|a b ob l IHl r IHr]; intros [|fuel] cs fr m Hwf Hm Hfuel;
    [lia| |lia|]; cbn [clear_node_loop]; rewrite IS_INTERNAL_ptr by done; cbn [is_leaf negb ptr].
  - eexists. split; [eapply free_string_at, owns_lookup_hd, Hm|]. by apply owns_free in Hm.
  - destruct Hwf as (Ha & _ & _ & Hl & Hr & _). cbn in Hm, Hfuel.
    rewrite TO_NODE_FROM_NODE by done.
    erewrite bind_done by (eapply load_node_at, owns_lookup_hd, Hm). cbn beta.
    apply (owns_perm _ (cells l ++ cells r ++ (a, BNode (Node (ptr l) (ptr r) b ob)) :: cs)) in Hm;
      [|solve_Permutation].
    destruct (IHl fuel _ _ _ Hl Hm ltac:(lia)) as (m1 & Hrun1 & Hm1).
    cbn [child0 child1]. erewrite bind_done by exact Hrun1. cbn beta.
    pose proof Hm1 as Hload. rewrite <-Permutation_middle in Hload.
    erewrite bind_done by (eapply load_node_at, owns_lookup_hd, Hload). cbn beta.
    destruct (IHr fuel _ _ _ Hr Hm1 ltac:(lia)) as (m2 & Hrun2 & Hm2).
    cbn [child0 child1]. erewrite bind_done by exact Hrun2. cbn beta.
    eexists. split; [eapply free_at, owns_lookup_hd, Hm2|]. by apply owns_free in Hm2.
Qed.

Lemma clear_spec root M fr m :
  represents root M fr m →
  critbit_clear root m = Done (tt, if decide (M = ∅) then m else fr).
Proof.
  intros (r & ot & Hidle & Hst & ->). apply tree_state_owns in Hst as [Hwf Hm].
  unfold critbit_clear. erewrite bind_done by (eapply load_root_at, owns_lookup_hd, Hm). cbn beta.
  cbn [head set_head]. destruct ot as [t|]; cbn [tree_map from_option head_of body_of] in *.
  - rewrite decide_False by apply to_map_nonempty.
    destruct (Z.eqb_spec (ptr t) 0) as [Hp|_]; [by apply ptr_nonzero in Hp|].
    rewrite Permutation_cons_append in Hm.
    destruct (clear_node_loop_spec t (S (size m)) _ _ _ Hwf Hm) as (m1 & Hrun & Hm1).
    { apply Nat.lt_lt_succ_r. rewrite <-Permutation_cons_append in Hm. by eapply owns_height. }
    unfold clear_node, walk_fuel. erewrite bind_done; [|by erewrite bind_done by done]. cbn beta.
    destruct (owns_slot root r [] _ 0 _ _ _ Hm1) as (m2 & Hst & Hm2).
    erewrite bind_done by exact Hst. cbn beta.
    erewrite free_at by (eapply owns_lookup_hd, Hm2).
    apply owns_free, owns_nil in Hm2. by rewrite Hm2.
  - by rewrite decide_True.
Qed.

Section new.
Context {MA : Malloc} {MS : MallocSpec MA}.

Lemma new_spec m root :
  malloc m SIZEOF_ROOT = Some root →
  ∃ m', critbit_new m = Done (root, m') ∧ represents root ∅ m m'.
Proof.
  intros Hmal. destruct (malloc_ok _ _ _ Hmal) as (Ha & Hfresh & Hnz).
  set (r := Root 0 false idle idle left_lock right_lock).
  exists (<[root := BRoot r]> m). split.
  - unfold critbit_new, malloc_block. erewrite bind_done by (by rewrite Hmal). cbn beta.
    rewrite Hnz.
    do 6 (erewrite bind_done by (apply load_root_at, lookup_insert_eq); cbn beta;
      erewrite bind_done by (eapply store_root_at, lookup_insert_eq); cbn beta;
      rewrite insert_insert_eq).
    done.
  - exists r, None. split_and!; [by split_and!| |done].
    apply (owns_alloc [] m m root); [done|]. by apply owns_nil.
Qed.
End new.

(** ** The depth histogram *)

Lemma incr_at_spec out i n : 0 ≤ i → out !! Z.to_nat i = Some n →
  incr_at out i = Done (<[Z.to_nat i := n + 1]> out).
Proof. intros Hi Hn. unfold incr_at. by rewrite (buf_get_Some _ _ _ Hi Hn). Qed.

Lemma incr_at_end out : incr_at out (Z.of_nat (length out)) = Undef.
Proof.
  unfold incr_at, buf_get. destruct (Z.ltb_spec (Z.of_nat (length out)) 0); [lia|].
  rewrite Nat2Z.id, lookup_ge_None_2 by done. done.
Qed.

(** ** critbit.c implements helper.h

    The functions [init], [add], [find], [del] and [clear] at the end of
    critbit_common.h satisfy the contract of MapSpec, as long as malloc does
    not run out of memory, with one restriction: [find] must not be called on
    an empty tree (there [critbit_get] compares with the string at a null
    pointer). *)

(** Memory is never exhausted. *)
Class MallocTotal (M : Malloc) : Prop := malloc_total : ∀ m n, malloc m n ≠ None.

Lemma not_out_of_memory {MA : Malloc} {MT : MallocTotal MA} : ¬ out_of_memory.
Proof. intros (m & n & H). by apply MT in H. Qed.

#[export] Instance critbit_impl {MA : Malloc} : MapImpl mem := {|
  map_init := Critbit.init;
  map_add := Critbit.add;
  map_find := Critbit.find;
  map_del := Critbit.del;
  map_clear := Critbit.clear;
|}.

Section instance.
Context {MA : Malloc} {MS : MallocSpec MA} {MT : MallocTotal MA}.
Context (fr : mem).

#[refine] Instance critbit_spec : MapSpec critbit_impl := {|
  map_key := key_ok;
  map_val := λ _, True;
  map_room := λ _, True;
  map_searchable := λ M _, M ≠ ∅;
  map_repr := λ root M m, represents root M fr m;
  map_start := λ m, m = fr;
|}.
Proof.
  - intros s ->. destruct (malloc fr SIZEOF_ROOT) as [root|] eqn:Hmal.
    + exists root. by apply new_spec.
    + by apply malloc_total in Hmal.
  - intros obj M s Hrep. eexists. by apply clear_spec.
  - intros M k [v Hv] ->. by rewrite lookup_empty in Hv.
  - intros obj M s k v Hrep Hk _ _ Hnone. pose proof (insert_spec k Hk v obj M fr s Hrep) as H.
    rewrite Hnone in H. destruct H as [[Hoom _]|H]; [by apply not_out_of_memory in Hoom|exact H].
  - intros obj M s k v Hrep Hk _ _ [x Hx]. pose proof (insert_spec k Hk v obj M fr s Hrep) as H.
    by rewrite Hx in H.
  - intros obj M s k (r & ot & Hidle & Hst & ->) Hk Hne. exists s.
    destruct ot as [t|]; [|done]. destruct Hst as [Hwf Hm]. split.
    + cbn. unfold find. erewrite bind_done by (by eapply get_tree). cbn.
      unfold find_result. by destruct (to_map t !! k).
    + by exists r, (Some t).
  - intros obj M s k Hrep Hk. by apply delete_spec.
Defined.
End instance.

(** ** The bump allocator satisfies the laws of malloc *)

Lemma bump_bound (m : mem) a b : m !! a = Some b → Z.abs a ≤ map_fold (λ a _ (r : Z), Z.max (Z.abs a) r) 0 m.
Proof.
  intros Ha. revert a b Ha. refine (map_fold_weak_ind (λ (r : Z) (m : mem), ∀ a b, m !! a = Some b → Z.abs a ≤ r) _ 0 _ _ m).
  - intros a b. by rewrite lookup_empty.
  - intros i x m' r0 _ IH a b. rewrite lookup_insert_Some. intros [[<- _]|[_ H]]; [lia|].
    apply IH in H. lia.
Qed.

Lemma bump_nonneg (m : mem) : 0 ≤ map_fold (λ a _ (r : Z), Z.max (Z.abs a) r) 0 m.
Proof.
  refine (map_fold_weak_ind (λ (r : Z) (_ : mem), 0 ≤ r) _ 0 _ _ m); [done|]. intros; lia.
Qed.

#[export] Instance bump_malloc_spec : MallocSpec bump_malloc.
Proof.
  split; cbn; unfold bump.
  - intros m n a [= <-]. apply eq_None_not_Some. intros [b Hb].
    apply bump_bound in Hb. pose proof (bump_nonneg m). lia.
  - intros m n a [= <-]. rewrite Z.mul_comm. by apply Z.mod_mul.
  - intros m n a [= <-]. pose proof (bump_nonneg m). lia.
Qed.

#[export] Instance bump_malloc_total : MallocTotal bump_malloc.
Proof. by intros m n. Qed.

Lemma no_malloc_spec : MallocSpec no_malloc.
Proof. by split. Qed.
