(* ===== verification/CritbitTheorems.v ===== *)
(** * CritbitTheorems: what critbit.c guarantees

    The properties of the public functions of critbit.c, stated on the map a
    root represents, each with an instance on a small tree built by the code
    itself over the bump allocator. *)

From S2P Require Import Prelude.
From S2P Require Import KeyBits.
From S2P Require Import Critbit.
From S2P Require Import CritTree.
From S2P Require Import Own.
From S2P Require Import CritMem.
From S2P Require Import CritbitProofs.
From S2P Require Import CritbitMap.
From S2P Require Import MapSpec.

(** ** A small tree to instantiate the theorems at *)

Definition key_a : list Z := [97].
Definition key_ab : list Z := [97; 98].

Lemma key_a_ok : key_ok key_a.
Proof. split; [repeat constructor; lia|vm_compute; done]. Qed.
Lemma key_ab_ok : key_ok key_ab.
Proof. split; [repeat constructor; lia|vm_compute; done]. Qed.

Lemma demo_malloc : malloc ∅ SIZEOF_ROOT = Some 16.
Proof. reflexivity. Qed.

Lemma demo_empty : ∃ m, represents 16 ∅ ∅ m.
Proof. destruct (new_spec ∅ 16 demo_malloc) as (m & _ & Hm). by exists m. Qed.

Lemma demo_tree : ∃ m, represents 16 {[key_a := 5]} ∅ m.
Proof.
  destruct demo_empty as [m Hm]. pose proof (insert_spec key_a key_a_ok 5 16 ∅ ∅ m Hm) as H.
  rewrite lookup_empty in H. destruct H as [[Hoom _]|(m' & _ & Hm')].
  - by apply not_out_of_memory in Hoom.
  - by exists m'.
Qed.

Section theorems.
Context {MA : Malloc} {MS : MallocSpec MA}.
Implicit Types (root : Z) (M : gmap (list Z) Z) (fr m : mem) (k : list Z).

(** Claim C2: [critbit_get] on a non-empty tree returns 0 and the stored
    value when the key is in the map, 1 and an untouched [*out] when it is
    not; it terminates, reads only live memory and leaves the memory (the
    lock state included) exactly as it was. *)
Theorem critbit_get_correct root M fr m k out :
  represents root M fr m → key_ok k → M ≠ ∅ →
  critbit_get root (cstr k) out m =
  Done (match M !! k with Some v => (0, v) | None => (1, out) end, m).
Proof.
  intros (r & [t|] & Hidle & Hst & ->) Hk Hne; [|done].
  destruct Hst as [Hwf Hm]. by eapply get_tree.
Qed.

(** Claim C1: [critbit_insert] of a key that is present returns 1 and keeps
    the map; of a new key it returns 0 and the memory then represents the
    extended map, or returns 1 with the map unchanged and nothing leaked,
    and only if some malloc request was refused. *)
Theorem critbit_insert_correct root M fr m k v :
  represents root M fr m → key_ok k →
  ∃ ret m', critbit_insert root (cstr k) v m = Done (ret, m') ∧
    match M !! k with
    | Some _ => ret = 1 ∧ represents root M fr m'
    | None => (ret = 0 ∧ represents root (<[k := v]> M) fr m') ∨
              (ret = 1 ∧ represents root M fr m' ∧ out_of_memory)
    end.
Proof.
  intros Hm Hk. pose proof (insert_spec k Hk v root M fr m Hm) as H.
  destruct (M !! k).
  - destruct H as (m' & Hrun & Hrep). by exists 1, m'.
  - destruct H as [(Hoom & m' & Hrun & Hrep)|(m' & Hrun & Hrep)].
    + exists 1, m'. split; [done|]. by right.
    + exists 0, m'. split; [done|]. by left.
Qed.

(** Claim C3: [critbit_delete] returns 0 exactly when the key was in the
    map; afterwards the memory represents the map without the key, so the
    key's string and node have been freed and nothing else has, and all
    locks are free again. *)
Theorem critbit_delete_correct root M fr m k :
  represents root M fr m → key_ok k →
  ∃ m', critbit_delete root (cstr k) m = Done (if decide (is_Some (M !! k)) then 0 else 1, m') ∧
    represents root (delete k M) fr m'.
Proof. intros Hm Hk. by apply delete_spec. Qed.

(** [critbit_clear] on a non-empty tree frees every block of the
    tree and the root itself: what remains is the frame. *)
Lemma critbit_clear_frees_all root M fr m :
  represents root M fr m → M ≠ ∅ → critbit_clear root m = Done (tt, fr).
Proof. intros Hm Hne. rewrite (clear_spec root M fr m Hm). by rewrite decide_False. Qed.

(** [critbit_clear] on an empty tree returns at once and does not
    free the root that it frees otherwise: the memory is unchanged. *)
Lemma critbit_clear_empty_leaks root fr m :
  represents root ∅ fr m → critbit_clear root m = Done (tt, m) ∧ m !! root ≠ None.
Proof.
  intros Hm. split; [rewrite (clear_spec root ∅ fr m Hm); by rewrite decide_True|].
  destruct Hm as (r & ot & _ & [_ Ho]%tree_state_owns & _). by rewrite (owns_lookup_hd _ _ _ _ _ Ho).
Qed.

(** [critbit_get] on an empty tree is undefined behaviour: the
    walk returns the null head and [strcmp] reads through it. *)
Lemma critbit_get_empty_undefined root fr m k out :
  represents root ∅ fr m → key_ok k → 0 < root → m !! (- PTR_SIZE) = None →
  critbit_get root (cstr k) out m = Undef.
Proof.
  intros (r & ot & Hidle & Hst & Hmap) Hk Hroot Hnull.
  symmetry in Hmap. apply tree_map_empty in Hmap as ->.
  eapply get_empty; [done..| |done]. unfold PTR_SIZE. lia.
Qed.

(** [critbit_new] returns a root that represents the empty map,
    with both reader locks free and distinct, in otherwise unchanged memory. *)
Lemma critbit_new_empty m root :
  malloc m SIZEOF_ROOT = Some root →
  ∃ m', critbit_new m = Done (root, m') ∧ represents root ∅ m m'.
Proof. apply new_spec. Qed.

(** [critbit_contains] is 0 exactly for the keys of the map. *)
Lemma critbit_contains_correct root M fr m k :
  represents root M fr m → key_ok k → M ≠ ∅ →
  ∃ ret, critbit_contains root (cstr k) m = Done (ret, m) ∧ (ret = 0 ↔ is_Some (M !! k)).
Proof.
  intros (r & [t|] & Hidle & Hst & ->) Hk Hne; [|done]. destruct Hst as [Hwf Hm].
  unfold critbit_contains. cbn [tree_map from_option]. eexists.
  erewrite bind_done by (by eapply get_tree). cbn beta. split; [done|].
  destruct (to_map t !! k); cbn; [by split|]. split; [done|]. by intros [? ?].
Qed.

(** Claim C4: any sequence of [add], [find] and [del] calls on a critbit
    tree, with C-string keys and no lookup in an empty tree, returns what
    the same calls on a finite map return, and ends in a memory that
    represents the final map. *)
Theorem critbit_refines_map `{!MallocTotal MA} root M fr m os :
  represents root M fr m → @ops_ok _ _ (critbit_spec fr) os M →
  ∃ m', run_ops root os m = Done ((spec_ops os M).1, m') ∧
    represents root (spec_ops os M).2 fr m'.
Proof. intros Hm Hos. exact (@run_ops_refines _ _ (critbit_spec fr) os root M m Hm Hos). Qed.

(** [get_direction] returns the bit of the key at the node's
    critical position, 0 when the key is too short to have it. *)
Lemma get_direction_bit n k :
  0 ≤ byte n < 2 ^ 31 → is_mask (otherbits n) = true → nonul k →
  get_direction n (cstr k) (Z.of_nat (length k)) =
  Done (of_bool (kbit k (crit_index (byte n) (otherbits n)))).
Proof. intros. by apply get_direction_spec. Qed.

(** [fill_depth] guards the histogram with [depth > outsize]; a
    leaf at depth [outsize] passes the guard and is counted one past the
    end of the array, undefined behaviour. *)
Lemma fill_depth_out_of_bounds m p out log :
  IS_INTERNAL p = false →
  fill_depth p (Z.of_nat (length out)) out (Z.of_nat (length out)) log m = Undef.
Proof.
  intros Hp. unfold fill_depth, walk_fuel. erewrite bind_done by done. cbn [fill_depth_loop].
  rewrite Hp. cbn [negb]. rewrite Z.ltb_irrefl. apply bind_undef.
  unfold lift. by rewrite incr_at_end.
Qed.
End theorems.

(** ** Instances *)

Lemma critbit_get_correct_witness :
  ∃ m, critbit_get 16 (cstr key_a) 0 m = Done ((0, 5), m) ∧
    critbit_get 16 (cstr key_ab) 9 m = Done ((1, 9), m).
Proof.
  destruct demo_tree as [m Hm]. exists m. split.
  - exact (critbit_get_correct 16 _ ∅ m key_a 0 Hm key_a_ok (insert_non_empty ∅ key_a 5)).
  - exact (critbit_get_correct 16 _ ∅ m key_ab 9 Hm key_ab_ok (insert_non_empty ∅ key_a 5)).
Defined.

Lemma critbit_insert_correct_witness :
  ∃ m ret m', critbit_insert 16 (cstr key_ab) 6 m = Done (ret, m') ∧ ret = 0 ∧
    represents 16 {[key_ab := 6; key_a := 5]} ∅ m'.
Proof.
  destruct demo_tree as [m Hm]. exists m.
  destruct (critbit_insert_correct 16 _ ∅ m key_ab 6 Hm key_ab_ok) as (ret & m' & Hrun & H).
  exists ret, m'. split; [exact Hrun|].
  change ({[key_a := 5]} !! key_ab) with (@None Z) in H. cbn iota in H.
  destruct H as [H|(_ & _ & Hoom)]; [exact H|]. by apply not_out_of_memory in Hoom.
Defined.

Lemma critbit_delete_correct_witness :
  ∃ m m', critbit_delete 16 (cstr key_a) m = Done (0, m') ∧ represents 16 ∅ ∅ m'.
Proof.
  destruct demo_tree as [m Hm]. exists m.
  destruct (critbit_delete_correct 16 _ ∅ m key_a Hm key_a_ok) as (m' & Hrun & Hrep).
  exists m'. split; [exact Hrun|]. exact Hrep.
Defined.

Lemma critbit_clear_frees_all_witness : ∃ m, critbit_clear 16 m = Done (tt, ∅).
Proof.
  destruct demo_tree as [m Hm]. exists m.
  exact (critbit_clear_frees_all 16 _ ∅ m Hm (insert_non_empty ∅ key_a 5)).
Defined.

Lemma critbit_clear_empty_leaks_witness :
  ∃ m, critbit_clear 16 m = Done (tt, m) ∧ m !! 16 ≠ None.
Proof. destruct demo_empty as [m Hm]. exists m. exact (critbit_clear_empty_leaks 16 ∅ m Hm). Defined.

Lemma critbit_get_empty_undefined_witness :
  ∃ m, critbit_new ∅ = Done (16, m) ∧ critbit_get 16 (cstr key_a) 0 m = Undef.
Proof.
  destruct (new_spec ∅ 16 demo_malloc) as (m & Hrun & Hm). exists m. split; [exact Hrun|].
  apply (critbit_get_empty_undefined 16 ∅ m key_a 0 Hm key_a_ok); [lia|].
  injection Hrun as <-. reflexivity.
Defined.

Lemma critbit_new_empty_witness : ∃ m, critbit_new ∅ = Done (16, m) ∧ represents 16 ∅ ∅ m.
Proof. exact (critbit_new_empty ∅ 16 demo_malloc). Defined.

Lemma critbit_contains_correct_witness :
  ∃ m ret, critbit_contains 16 (cstr key_a) m = Done (ret, m) ∧ (ret = 0 ↔ is_Some (Some 5)).
Proof.
  destruct demo_tree as [m Hm]. exists m.
  exact (critbit_contains_correct 16 _ ∅ m key_a Hm key_a_ok (insert_non_empty ∅ key_a 5)).
Defined.

Lemma critbit_refines_map_witness :
  ∃ m m', run_ops 16 [Add key_a 5; Find key_a; Add key_ab 6; Del key_a; Find key_a] m =
    Done ([0; 5; 0; 0; 0], m') ∧ represents 16 {[key_ab := 6]} ∅ m'.
Proof.
  destruct demo_empty as [m Hm]. exists m.
  apply (critbit_refines_map 16 ∅ ∅ m
    [Add key_a 5; Find key_a; Add key_ab 6; Del key_a; Find key_a] Hm).
  pose proof key_a_ok. pose proof key_ab_ok. cbn -[key_ok].
  repeat (split; [done|]). done.
Defined.

Lemma get_direction_bit_witness :
  get_direction (Node 0 0 0 (mask_of 5)) (cstr key_a) 1 = Done (of_bool true).
Proof.
  apply (get_direction_bit (Node 0 0 0 (mask_of 5)) key_a); [cbn; lia|reflexivity|].
  apply key_a_ok.
Defined.

Lemma fill_depth_out_of_bounds_witness :
  fill_depth 24 100 (replicate 100 0) 100 [] ∅ = Undef.
Proof. exact (fill_depth_out_of_bounds ∅ 24 (replicate 100 0) [] eq_refl). Defined.
