(* ===== verification/CritTyping.v ===== *)
(** * CritTyping: the types of the tagged pointers

    critbit.c keeps nodes and keys behind one [void *] and tells them apart by
    the lowest bit.  [heap_typed] is the typing this relies on, for every
    pointer in the heap; [reachable] are the states the public functions lead
    to, and they are all well typed. *)

From S2P Require Import Prelude.
From S2P Require Import KeyBits.
From S2P Require Import Critbit.
From S2P Require Import CritTree.
From S2P Require Import Own.
From S2P Require Import CritMem.
From S2P Require Import CritbitProofs.
From S2P Require Import CritbitMap.
From S2P Require Import CritbitTheorems.

(** A tagged pointer leads to a node, an untagged one to a key: bytes that end
    in the NUL that [strcmp] looks for. *)
Definition typed_pointer (m : mem) (p : Z) : Prop :=
  if IS_INTERNAL p then ∃ n, m !! TO_NODE p = Some (BNode n)
  else ∃ v k, m !! (p - PTR_SIZE) = Some (BString v (cstr k)) ∧ nonul k.

Definition typed_block (root : Z) (m : mem) (a : Z) (b : block) : Prop :=
  match b with
  | BNode n =>
      a mod 16 = 0 ∧ typed_pointer m (child0 n) ∧ typed_pointer m (child1 n) ∧
      0 ≤ byte n < 2 ^ 31 ∧ is_mask (otherbits n) = true
  | BRoot r => a = root ∧ (head r = 0 ∨ typed_pointer m (head r))
  | BString _ chars => a mod 16 = 0 ∧ ∃ k, chars = cstr k ∧ key_ok k
  end.
Definition heap_typed (root : Z) (m : mem) : Prop := map_Forall (typed_block root m) m.

(** The memories the functions of critbit.c lead to, from an empty one. *)
Inductive reachable `{Malloc} (root : Z) : mem → Prop :=
  | reach_new m : critbit_new ∅ = Done (root, m) → reachable root m
  | reach_insert m k v ret m' :
      reachable root m → key_ok k →
      critbit_insert root (cstr k) v m = Done (ret, m') → reachable root m'
  | reach_delete m k ret m' :
      reachable root m → key_ok k →
      critbit_delete root (cstr k) m = Done (ret, m') → reachable root m'
  | reach_get m k out res m' :
      reachable root m → key_ok k →
      critbit_get root (cstr k) out m = Done (res, m') → reachable root m'.

(** ** Trees are well typed *)

Lemma ptr_typed m t : wf t → holds m (cells t) → typed_pointer m (ptr t).
Proof.
  intros Hwf Hh. unfold typed_pointer. rewrite IS_INTERNAL_ptr by done.
  destruct t as [a k v|a b ob l r]; cbn [is_leaf negb ptr].
  - exists v, k. rewrite string_addr. split; [apply Hh; by left|by destruct Hwf as [_ [? _]]].
  - destruct Hwf as (Ha & _). rewrite TO_NODE_FROM_NODE by done. eexists. by apply holds_inner in Hh as [? _].
Qed.

Lemma cells_typed root m t a b :
  wf t → holds m (cells t) → (a, b) ∈ cells t → typed_block root m a b.
Proof.
  induction t as [a' k v|a' bt ob l IHl r IHr]; intros Hwf Hh Hin.
  - apply list_elem_of_singleton in Hin as [= -> ->]. destruct Hwf as [[_ Ha] Hk].
    split; [done|]. by exists k.
  - destruct Hwf as ([_ Ha] & Hb & Hob & Hl & Hr & _). apply holds_inner in Hh as (_ & Hhl & Hhr).
    apply elem_of_cons in Hin as [[= -> ->]|[Hin|Hin]%elem_of_app]; [|auto..].
    split; [done|]. split; [by apply ptr_typed|]. split; [by apply ptr_typed|]. done.
Qed.

Lemma represents_typed root M m : represents root M ∅ m → heap_typed root m.
Proof.
  intros (r & ot & _ & Hst & _). apply tree_state_owns in Hst as [Hwf Ho].
  pose proof (owns_holds _ _ _ Ho) as Hh. intros a b Hab.
  destruct Ho as (_ & _ & Heq). rewrite Heq, map_union_empty in Hab.
  apply elem_of_list_to_map_2, elem_of_cons in Hab as [[= -> ->]|Hin].
  - split; [done|]. destruct ot as [t|]; [right|by left]. apply ptr_typed; [done|].
    by apply holds_cons in Hh as [_ ?].
  - destruct ot as [t|]; [|by apply elem_of_nil in Hin].
    apply (cells_typed root m t); [done| |done]. by apply holds_cons in Hh as [_ ?].
Qed.

Section theorems.
Context {MA : Malloc} {MS : MallocSpec MA}.

Lemma new_inv root m : critbit_new ∅ = Done (root, m) → represents root ∅ ∅ m ∧ 0 < root.
Proof.
  intros Hrun. destruct (malloc ∅ SIZEOF_ROOT) as [a|] eqn:Hmal.
  - destruct (new_spec ∅ a Hmal) as (m' & Hrun' & Hm). rewrite Hrun in Hrun'.
    injection Hrun' as <- <-. split; [done|].
    by eapply malloc_nonnull.
  - unfold critbit_new, malloc_block in Hrun. erewrite bind_done in Hrun by (by rewrite Hmal). done.
Qed.

Lemma null_unmapped root M m :
  represents root M ∅ m → 0 < root → m !! (- PTR_SIZE) = None.
Proof.
  intros Hrep Hroot. destruct (m !! (- PTR_SIZE)) as [b|] eqn:Hb; [|done].
  apply represents_typed in Hrep as Hty. specialize (Hty _ _ Hb).
  destruct b as [n|r|v cs]; [by destruct Hty|destruct Hty; unfold PTR_SIZE in *; lia|by destruct Hty].
Qed.

Lemma reachable_represents root m : reachable root m → 0 < root ∧ ∃ M, represents root M ∅ m.
Proof.
  induction 1 as [m Hrun|m k v ret m' _ [Hr [M IH]] Hk Hrun|m k ret m' _ [Hr [M IH]] Hk Hrun
    |m k out res m' Hm [Hr [M IH]] Hk Hrun].
  - apply new_inv in Hrun as [Hrep Hr]. eauto.
  - split; [done|]. pose proof (insert_spec k Hk v root M ∅ m IH) as Hins.
    destruct (M !! k).
    + destruct Hins as (m1 & H1 & H2). rewrite Hrun in H1. simplify_eq. by exists M.
    + destruct Hins as [(_ & m1 & H1 & H2)|(m1 & H1 & H2)]; rewrite Hrun in H1; simplify_eq; eauto.
  - split; [done|]. destruct (delete_spec k Hk root M ∅ m IH) as (m1 & H1 & H2).
    rewrite Hrun in H1. simplify_eq. by exists (delete k M).
  - split; [done|]. exists M. destruct IH as (r & [t|] & Hidle & Hst & ->).
    + destruct Hst as [Hwf Ho]. rewrite (get_tree k Hk root r ∅ m Hidle t out Hwf Ho) in Hrun.
      simplify_eq. exists r, (Some t). by split_and!.
    + assert (represents root ∅ ∅ m) as Hrep by (by exists r, None).
      rewrite (get_empty k Hk root r ∅ m Hidle out) in Hrun; [done..| |by eapply null_unmapped].
      unfold PTR_SIZE. lia.
Qed.

(** Claim C18: in every state the public functions of critbit.c lead to, the
    heap is well typed: each pointer with the tag bit set leads to a live
    node, each pointer without it to a live, NUL-terminated key (only the head
    may be null), nodes and keys are 16-aligned so that the tag bit is free,
    [byte] fits an [int] and [otherbits] is a byte with one bit clear. *)
Theorem critbit_heap_typed root m : reachable root m → heap_typed root m.
Proof. intros (_ & M & Hrep)%reachable_represents. by eapply represents_typed. Qed.
End theorems.

Lemma critbit_heap_typed_witness :
  ∃ m m', critbit_new ∅ = Done (16, m) ∧ critbit_insert 16 (cstr key_a) 5 m = Done (0, m') ∧
    heap_typed 16 m'.
Proof.
  assert (match critbit_new ∅ with
    | Done (root, m) =>
        match critbit_insert root (cstr key_a) 5 m with
        | Done (ret, m') => bool_decide (root = 16) && bool_decide (ret = 0)
        | _ => false end
    | _ => false end = true) as H by (vm_compute; reflexivity).
  destruct (critbit_new ∅) as [[root m]| | |] eqn:Hnew; [|discriminate H..].
  destruct (critbit_insert root (cstr key_a) 5 m) as [[ret m']| | |] eqn:Hins; [|discriminate H..].
  apply andb_prop in H as [->%bool_decide_eq_true ->%bool_decide_eq_true].
  exists m, m'. split; [done|]. split; [done|]. apply critbit_heap_typed.
  exact (reach_insert 16 m key_a 5 0 m' (reach_new 16 m Hnew) key_a_ok Hins).
Defined.
