(* ===== verification/Threads.v ===== *)
(** * Threads: interleaved threads over a shared state

    A thread is a resumption: a command to run atomically, and what follows.
    [run_schedule] interleaves threads in the order of a schedule, at the
    granularity of their steps (the state is sequentially consistent); a
    thread whose step is [Blocked] waits and may be scheduled again. *)

From S2P Require Import Prelude.

(** A thread is finished, or a command to run atomically and what follows. *)
Inductive thread (S A : Type) : Type :=
  | Ret (a : A)
  | Step (B : Type) (c : cmd S B) (k : B → thread S A).
Arguments Ret {S A} a.
Arguments Step {S A B} c k.

#[export] Instance thread_ret {S} : MRet (thread S) := @Ret S.
#[export] Instance thread_bind {S} : MBind (thread S) := λ A B k,
  fix go t := match t with Ret a => k a | Step c k' => Step c (λ b, go (k' b)) end.

Section threads.
Context {S : Type}.

Definition atomic {B} (c : cmd S B) : thread S B := Step c Ret.

(** A thread that runs without interruption. *)
Fixpoint solo {A} (t : thread S A) : cmd S A :=
  match t with Ret a => mret a | Step c k => c ≫= λ b, solo (k b) end.

(** The next step of a thread: a command that yields the rest of it. *)
Definition advance {A} (t : thread S A) : cmd S (thread S A) :=
  match t with Ret a => mret (Ret a) | Step c k => b ← c; mret (k b) end.

(** Thread [i] is scheduled: a thread that cannot move waits. *)
Definition step_thread {A} (i : nat) (m : S) (ts : list (thread S A))
    : outcome (S * list (thread S A)) :=
  match ts !! i with
  | Some t =>
      match advance t m with
      | Done (t', m') => Done (m', <[i := t']> ts)
      | Blocked => Done (m, ts)
      | Undef => Undef
      | NoFuel => NoFuel
      end
  | None => Done (m, ts)
  end.

Fixpoint run_schedule {A} (sched : list nat) (m : S) (ts : list (thread S A))
    : outcome (S * list (thread S A)) :=
  match sched with
  | [] => Done (m, ts)
  | i :: sched => s ← step_thread i m ts; run_schedule sched s.1 s.2
  end.

Definition finished {A} (t : thread S A) : bool := match t with Ret _ => true | _ => false end.

(** ** Facts about threads *)

Lemma step_thread_run {A} i m (ts : list (thread S A)) t t' m' :
  ts !! i = Some t → advance t m = Done (t', m') → step_thread i m ts = Done (m', <[i := t']> ts).
Proof. intros Hi Ha. unfold step_thread. by rewrite Hi, Ha. Qed.

Lemma step_thread_undef {A} i m (ts : list (thread S A)) t :
  ts !! i = Some t → advance t m = Undef → step_thread i m ts = Undef.
Proof. intros Hi Ha. unfold step_thread. by rewrite Hi, Ha. Qed.

Lemma solo_bind {A B} (t : thread S A) (k : A → thread S B) m :
  solo (t ≫= k) m = (solo t ≫= λ a, solo (k a)) m.
Proof.
  revert m. induction t as [a|C c k' IH]; intros m; [done|].
  change (solo (Step c k' ≫= k)) with (c ≫= λ b, solo (k' b ≫= k)).
  change (solo (Step c k')) with (c ≫= λ b, solo (k' b)).
  unfold mbind, cmd_bind. destruct (c m) as [[b m']| | |]; [|done..]. apply IH.
Qed.

Lemma bind_ext {A B} (c : cmd S A) (k1 k2 : A → cmd S B) m :
  (∀ a m', c m = Done (a, m') → k1 a m' = k2 a m') → (c ≫= k1) m = (c ≫= k2) m.
Proof. intros H. unfold mbind, cmd_bind. destruct (c m) as [[a m']| | |]; [by apply H|done..]. Qed.

Lemma bind_assoc {A B C} (c : cmd S A) (k1 : A → cmd S B) (k2 : B → cmd S C) m :
  ((c ≫= k1) ≫= k2) m = (c ≫= λ a, k1 a ≫= k2) m.
Proof. unfold mbind, cmd_bind. by destruct (c m) as [[a m']| | |]. Qed.

Lemma run_schedule_app {A} s1 s2 m (ts : list (thread S A)) :
  run_schedule (s1 ++ s2) m ts = (s ← run_schedule s1 m ts; run_schedule s2 s.1 s.2).
Proof.
  revert m ts. induction s1 as [|i s1 IH]; intros m ts; [done|]. cbn [app run_schedule].
  destruct (step_thread i m ts) as [[m' ts']| | |]; [|done..]. apply IH.
Qed.

Lemma run_schedule_length {A} sched m (ts : list (thread S A)) m' ts' :
  run_schedule sched m ts = Done (m', ts') → length ts' = length ts.
Proof.
  revert m ts. induction sched as [|i sched IH]; intros m ts; cbn [run_schedule]; [by intros [= _ <-]|].
  destruct (step_thread i m ts) as [[m1 ts1]| | |] eqn:Hi; [|done..]. intros Hrun%IH.
  unfold step_thread in Hi. destruct (ts !! i) as [t|]; [|by simplify_eq].
  by destruct (advance t m) as [[t1 m2]| | |]; simplify_eq; cbn in Hrun; rewrite ?length_insert in Hrun.
Qed.

Section advance.
Context {A B C : Type}.
Implicit Types (c : cmd S B) (k : B → thread S A) (f : B → thread S C) (m : S).

Lemma advance_done c k m b m' : c m = Done (b, m') → advance (atomic c ≫= k) m = Done (k b, m').
Proof. intros H. cbn. by erewrite bind_done by exact H. Qed.

Lemma advance_done2 c f (k : C → thread S A) m b m' :
  c m = Done (b, m') → advance ((atomic c ≫= f) ≫= k) m = Done (f b ≫= k, m').
Proof. intros H. cbn. by erewrite bind_done by exact H. Qed.

Lemma advance_blocked c k m : c m = Blocked → advance (atomic c ≫= k) m = Blocked.
Proof. intros H. cbn. unfold mbind, cmd_bind. by rewrite H. Qed.

Lemma advance_blocked2 c f (k : C → thread S A) m :
  c m = Blocked → advance ((atomic c ≫= f) ≫= k) m = Blocked.
Proof. intros H. cbn. unfold mbind, cmd_bind. by rewrite H. Qed.
End advance.

Lemma unfinished_lookup {A} (ts : list (thread S A)) :
  forallb finished ts = false → ∃ i t, ts !! i = Some t ∧ finished t = false.
Proof.
  induction ts as [|t ts IH]; cbn; [done|]. intros [Ht|Hts]%andb_false_iff; [by exists 0%nat, t|].
  destruct (IH Hts) as (i & u & ? & ?). by exists (Datatypes.S i), u.
Qed.

Lemma finished_lookup {A} (ts : list (thread S A)) i t :
  forallb finished ts = true → ts !! i = Some t → finished t = true.
Proof. intros Hfin Hi. rewrite forallb_forall in Hfin. apply Hfin, list_elem_of_In. by eapply list_elem_of_lookup_2. Qed.

(** ** Threads that never wait

    [finishes n t]: the thread [t] ends within [n] steps, whatever they yield. *)
Inductive finishes {A} : nat → thread S A → Prop :=
  | finishes_ret n a : finishes n (Ret a)
  | finishes_step n B (c : cmd S B) k : (∀ b, finishes n (k b)) → finishes (Datatypes.S n) (Step c k).

Lemma finishes_le {A} n n' (t : thread S A) : (n ≤ n')%nat → finishes n t → finishes n' t.
Proof.
  intros Hle H. revert n' Hle. induction H as [n a|n B c k _ IH]; intros [|n'] Hle; try lia; constructor.
  intros b. apply IH. lia.
Qed.

Lemma finishes_0 {A} (t : thread S A) : finishes 0 t → ∃ a, t = Ret a.
Proof. intros H. inversion H. by eexists. Qed.

Lemma finishes_advance {A} n (t t' : thread S A) m m' :
  finishes n t → advance t m = Done (t', m') → finishes (pred n) t'.
Proof.
  intros H Ha. destruct H as [n a|n B c k H]; cbn in Ha.
  - injection Ha as <- _. constructor.
  - apply bind_inv in Ha as (b & m1 & _ & [= <- _]). apply H.
Qed.

Lemma finishes_bind {A B} n n' (t : thread S A) (k : A → thread S B) :
  finishes n t → (∀ a, finishes n' (k a)) → finishes (n + n') (t ≫= k).
Proof.
  intros H Hk. induction H as [n a|n C c k' _ IH]; [apply (finishes_le n'); [lia|apply Hk]|by constructor].
Qed.

Section safe.
Context {A : Type} (P : S → list (thread S A) → Prop).
Hypothesis Hstep : ∀ m ts i t, P m ts → ts !! i = Some t →
  ∃ t' m', advance t m = Done (t', m') ∧ P m' (<[i := t']> ts).

(** An invariant that every step preserves, and that lets every thread move:
    no schedule goes wrong, and a thread that is scheduled often enough is
    finished. *)
Lemma run_safe sched : ∀ m ts ns,
  P m ts → Forall2 finishes ns ts →
  ∃ m' ts' ns', run_schedule sched m ts = Done (m', ts') ∧ P m' ts' ∧ Forall2 finishes ns' ts' ∧
    ∀ i n, ns !! i = Some n → ns' !! i = Some (n - count_occ Nat.eq_dec sched i)%nat.
Proof.
  induction sched as [|i sched IH]; intros m ts ns HP Hf.
  - exists m, ts, ns. split_and!; try done. intros i n Hn. by rewrite Nat.sub_0_r.
  - cbn [run_schedule]. unfold step_thread. destruct (ts !! i) as [t|] eqn:Hi.
    + destruct (Hstep m ts i t HP Hi) as (t' & m1 & Ha & HP1). rewrite Ha. cbn.
      destruct (Forall2_lookup_r _ _ _ _ _ Hf Hi) as (n & Hn & Ht).
      destruct (IH m1 (<[i := t']> ts) (<[i := pred n]> ns) HP1) as (m' & ts' & ns' & Hrun & HP' & Hf' & Hc).
      { apply Forall2_insert; [done|]. by eapply finishes_advance. }
      exists m', ts', ns'. split_and!; try done. intros j nj Hj. cbn [count_occ].
      destruct (Nat.eq_dec i j) as [<- |Hne].
      * rewrite (Hc i (pred n)) by (apply list_lookup_insert_eq; by eapply lookup_lt_Some).
        simplify_eq. f_equal. lia.
      * apply Hc. by rewrite list_lookup_insert_ne.
    + destruct (IH m ts ns HP Hf) as (m' & ts' & ns' & Hrun & HP' & Hf' & Hc).
      exists m', ts', ns'. split_and!; try done. intros j nj Hj. cbn [count_occ].
      destruct (Nat.eq_dec i j) as [<- |Hne]; [|by apply Hc].
      apply (Forall2_lookup_l _ _ _ _ _ Hf) in Hj as (t & Ht & _). congruence.
Qed.
End safe.

(** ** Threads that wait for each other

    A thread may be [Blocked], but as long as one is not finished, one of those
    can move.  When every thread is scheduled in every one of as many rounds as
    the threads have steps, all finish. *)
Lemma sum_list_insert l i x y :
  l !! i = Some y → (sum_list (<[i := x]> l) + y = sum_list l + x)%nat.
Proof.
  intros Hi. rewrite <-(take_drop_middle l i y Hi) at 2. rewrite insert_take_drop by (by eapply lookup_lt_Some).
  rewrite !sum_list_with_app. cbn. lia.
Qed.

Section waiting.
Context {A : Type} (P : S → list (thread S A) → Prop).
Hypothesis Hstep : ∀ m ts i t, P m ts → ts !! i = Some t →
  advance t m = Blocked ∨ ∃ t' m', advance t m = Done (t', m') ∧ P m' (<[i := t']> ts).
Hypothesis Hprogress : ∀ m ts, P m ts → forallb finished ts = false →
  ∃ i t t' m', ts !! i = Some t ∧ finished t = false ∧ advance t m = Done (t', m').

Definition movable (m : S) (ts : list (thread S A)) (i : nat) : Prop :=
  ∃ t t' m', ts !! i = Some t ∧ finished t = false ∧ advance t m = Done (t', m').

Lemma step_waits i m ts ns :
  P m ts → Forall2 finishes ns ts →
  ∃ m' ts' ns', step_thread i m ts = Done (m', ts') ∧ P m' ts' ∧ Forall2 finishes ns' ts' ∧
    (ns' = ns ∧ m' = m ∧ ts' = ts ∧ ¬ movable m ts i ∨ (sum_list ns' < sum_list ns)%nat).
Proof.
  intros HP Hf. unfold step_thread. destruct (ts !! i) as [t|] eqn:Hi.
  2: { exists m, ts, ns. split_and!; try done. left. split_and!; try done. intros (t & ? & ? & Ht & _). congruence. }
  destruct (Hstep m ts i t HP Hi) as [Hb|(t' & m' & Ha & HP')].
  { rewrite Hb. exists m, ts, ns. split_and!; try done. left. split_and!; try done.
    intros (t' & ? & ? & Ht & _ & Ha). congruence. }
  rewrite Ha. destruct t as [a|B c k].
  - injection Ha as <- <-. rewrite list_insert_id in * by done. exists m, ts, ns. split_and!; try done. left.
    split_and!; try done. intros (t' & ? & ? & Ht & Hfin & _). rewrite Hi in Ht. by injection Ht as <-.
  - destruct (Forall2_lookup_r _ _ _ _ _ Hf Hi) as (n & Hn & Ht).
    exists m', (<[i := t']> ts), (<[i := pred n]> ns). split_and!; try done.
    + apply Forall2_insert; [done|]. by eapply finishes_advance.
    + right. assert (0 < n)%nat by (inversion Ht; lia). pose proof (sum_list_insert ns i (pred n) n Hn). lia.
Qed.

Lemma round_waits round : ∀ m ts ns,
  P m ts → Forall2 finishes ns ts →
  ∃ m' ts' ns', run_schedule round m ts = Done (m', ts') ∧ P m' ts' ∧ Forall2 finishes ns' ts' ∧
    (sum_list ns' ≤ sum_list ns)%nat ∧ ((∃ i, i ∈ round ∧ movable m ts i) → (sum_list ns' < sum_list ns)%nat).
Proof.
  induction round as [|i round IH]; intros m ts ns HP Hf.
  - exists m, ts, ns. split_and!; try done. by intros (i & Hi%elem_of_nil & _).
  - cbn [run_schedule]. destruct (step_waits i m ts ns HP Hf) as (m1 & ts1 & ns1 & -> & HP1 & Hf1 & Hc).
    change (mbind (λ s, run_schedule round s.1 s.2) (Done (m1, ts1))) with (run_schedule round m1 ts1).
    destruct (IH m1 ts1 ns1 HP1 Hf1) as (m' & ts' & ns' & Hrun & HP' & Hf' & Hle & Hlt).
    exists m', ts', ns'. split_and!; try done.
    + destruct Hc as [(-> & _)|Hc]; lia.
    + intros (j & [-> |Hj]%elem_of_cons & Hmv); destruct Hc as [(-> & -> & -> & Hn)|Hc]; try done; try lia.
      apply Hlt. by exists j.
Qed.

Lemma finished_finishes (ts : list (thread S A)) :
  forallb finished ts = true → Forall2 finishes (replicate (length ts) 0%nat) ts.
Proof.
  induction ts as [|[a|B c k] ts IH]; cbn; [constructor|intros H|done].
  constructor; [constructor|by apply IH].
Qed.

Lemma unfinished_sum m ts ns i :
  Forall2 finishes ns ts → movable m ts i → (0 < sum_list ns)%nat ∧ (i < length ts)%nat.
Proof.
  intros Hf (t & t' & m' & Hi & Ht & _). split; [|by eapply lookup_lt_Some].
  destruct (Forall2_lookup_r _ _ _ _ _ Hf Hi) as (n & Hn & Hft).
  apply list_elem_of_lookup_2 in Hn. apply (sum_list_with_in n id) in Hn. unfold id in Hn at 1.
  inversion Hft; subst; [done|]. change (sum_list_with id ns) with (sum_list ns) in Hn. lia.
Qed.

Lemma rounds_finish rounds : ∀ m ts ns,
  P m ts → Forall2 finishes ns ts → Forall (λ round, ∀ i, (i < length ts)%nat → i ∈ round) rounds →
  (sum_list ns ≤ length rounds)%nat →
  ∃ m' ts', run_schedule (mjoin rounds) m ts = Done (m', ts') ∧ P m' ts' ∧ forallb finished ts' = true.
Proof.
  induction rounds as [|round rounds IH]; intros m ts ns HP Hf Hall Hlen.
  - exists m, ts. split_and!; try done. destruct (forallb finished ts) eqn:Hfin; [done|exfalso].
    destruct (Hprogress m ts HP Hfin) as (i & Hi).
    destruct (unfinished_sum m ts ns i Hf Hi) as [Hpos _]. cbn in Hlen. lia.
  - apply Forall_cons in Hall as [Hround Hall].
    assert (∃ ns0, Forall2 finishes ns0 ts ∧
      (sum_list ns0 ≤ Datatypes.S (length rounds))%nat ∧ (sum_list ns0 = 0 ∨ ∃ i, i ∈ round ∧ movable m ts i)%nat)
      as (ns0 & Hf0 & Hlen0 & Hmv).
    { destruct (forallb finished ts) eqn:Hfin.
      - exists (replicate (length ts) 0%nat). rewrite sum_list_replicate, Nat.mul_0_r.
        split_and!; [by apply finished_finishes|lia|by left].
      - exists ns. split_and!; [done|done|right]. destruct (Hprogress m ts HP Hfin) as (i & Hi). exists i.
        split; [|done]. apply Hround. by eapply unfinished_sum. }
    destruct (round_waits round m ts ns0 HP Hf0) as (m1 & ts1 & ns1 & Hrun1 & HP1 & Hf1 & Hle & Hlt).
    destruct (IH m1 ts1 ns1 HP1 Hf1) as (m' & ts' & Hrun & HP' & Hfin).
    + by rewrite (run_schedule_length _ _ _ _ _ Hrun1).
    + destruct Hmv as [|Hmv]; [lia|]. apply Hlt in Hmv. lia.
    + exists m', ts'. split; [|done]. cbn [mjoin list_join]. by rewrite run_schedule_app, Hrun1.
Qed.
End waiting.
End threads.
