(* ===== verification/CritThreads.v ===== *)
(** * CritThreads: the operations of critbit.c as interleaved threads

    [Critbit] runs each function as one command, which is right for one
    thread.  critbit.c is meant for many: readers take a read lock, writers a
    mutex, and [critbit_delete] swaps two read-write locks to wait for the
    readers it could disturb.  Here the same functions are resumptions
    ([Threads]), one atomic step for every access to memory that other threads
    can reach.

    [critbit_insert_inplace] and [critbit_delete_inplace] are threads, too:
    every load on the way down, every allocation and the store that publishes
    the change is a step.  Three things stay one step: comparing with the
    characters of a key, which nobody writes; reading the two fields of a node
    that are never written again; and filling in a node that nobody else has a
    pointer to. *)

From S2P Require Import Prelude.
From S2P Require Import Threads.
From S2P Require Import KeyBits.
From S2P Require Import Critbit.

(** The threads of critbit.c share the memory. *)
Notation thread := (Threads.thread mem).

(** ** The functions of critbit.c *)

(** The byte and mask of a node are read before its child. *)
Fixpoint find_nearest_thread (fuel : nat) (p : Z) (bytes : list Z) (bytelen : Z) : thread Z :=
  match fuel with
  | O => atomic nofuel
  | S fuel =>
      if IS_INTERNAL p then
        dir ← atomic (node ← load_node (TO_NODE p); lift (get_direction node bytes bytelen));
        p ← atomic (load_slot (SChild (TO_NODE p) dir));
        find_nearest_thread fuel p bytes bytelen
      else mret p
  end.

Definition critbit_get_thread (fuel : nat) (root : Z) (key : list Z) (out : Z) : thread (Z * Z) :=
  len ← atomic (lift (strlen key));
  lock ← atomic (r ← load_root root; mret (cur_rwlock r));
  _ ← atomic (pthread_rwlock_rdlock root lock);
  p ← atomic (load_slot (SHead root));
  nearest ← find_nearest_thread fuel p key (u64 (s32 len));
  cmp ← atomic (chars ← load_chars nearest; lift (strcmp chars key));
  res ←
    (if cmp =? 0 then v ← atomic (load_value nearest); mret (0, v)
     else mret (1, out));
  _ ← atomic (pthread_rwlock_unlock root lock);
  mret res.

(** ** Insertion *)

(** The second walk: the pointer, then the node it leads to. *)
Fixpoint insert_loop_thread (fuel : nat) (wherep : slot) (newbyte newotherbits : Z) (bytes : list Z)
    (keylen : Z) : thread slot :=
  match fuel with
  | O => atomic nofuel
  | S fuel =>
      p ← atomic (load_slot wherep);
      if negb (IS_INTERNAL p) then mret wherep
      else
        next ← atomic (
          q ← load_node (TO_NODE p);
          if newbyte <? u32 (byte q) then mret None
          else if (u32 (byte q) =? newbyte) && (newotherbits <? otherbits q) then mret None
          else
            dir ← lift (get_direction q bytes (u64 keylen));
            mret (Some (SChild (TO_NODE p) dir)));
        match next with
        | None => mret wherep
        | Some wherep => insert_loop_thread fuel wherep newbyte newotherbits bytes keylen
        end
  end.

Definition insert_link_thread (fuel : nat) (root : Z) (key : list Z)
    (keylen node x newbyte newotherbits newdirection : Z) : thread Z :=
  _ ← atomic (
    n ← load_node node;
    _ ← store_node node (set_byte newbyte n);
    n ← load_node node;
    _ ← store_node node (set_otherbits newotherbits n);
    store_slot (SChild node (1 - newdirection)) x);
  wherep ← insert_loop_thread fuel (SHead root) newbyte newotherbits key keylen;
  old ← atomic (load_slot wherep);
  _ ← atomic (store_slot (SChild node newdirection) old);
  _ ← atomic (store_slot wherep (FROM_NODE node));
  mret 0.

Definition insert_found_thread `{Malloc} (fuel : nat) (root : Z) (key : list Z)
    (keylen value p newbyte bits : Z) : thread Z :=
  crit ← atomic (
    bits ← lift (clear_low 8 bits);
    let newotherbits := Z.lxor bits 255 in
    c ← load_byte p newbyte;
    mret (newotherbits, Z.shiftr (1 + Z.lor newotherbits c) 8));
  node ← atomic alloc_node;
  if node =? 0 then mret 1
  else
    x ← atomic (alloc_string key keylen value);
    if x =? 0 then _ ← atomic (free node); mret 1
    else insert_link_thread fuel root key keylen node x newbyte crit.1 crit.2.

(** The second walk may meet two blocks more than the first. *)
Definition critbit_insert_inplace_thread `{Malloc} (fuel : nat) (root : Z) (key : list Z)
    (keylen value : Z) : thread Z :=
  p ← atomic (load_slot (SHead root));
  if p =? 0 then
    p ← atomic (alloc_string key keylen value);
    if p =? 0 then mret 1
    else _ ← atomic (store_slot (SHead root) p); mret 0
  else
    p ← atomic (load_slot (SHead root));
    p ← find_nearest_thread fuel p key (u64 keylen);
    diff ← atomic (diff_loop (S (Z.to_nat (u32 keylen))) p key keylen 0);
    match diff with
    | None => mret 1
    | Some (newbyte, bits) => insert_found_thread (2 + fuel) root key keylen value p newbyte bits
    end.

Definition critbit_insert_thread `{Malloc} (fuel : nat) (root : Z) (key : list Z) (value : Z) : thread Z :=
  len ← atomic (lift (strlen key));
  _ ← atomic (pthread_mutex_lock root);
  ret ← critbit_insert_inplace_thread fuel root key (s32 len) value;
  _ ← atomic (pthread_mutex_unlock root);
  mret ret.

(** ** Deletion *)

Fixpoint delete_loop_thread (fuel : nat) (p : Z) (wherep : slot) (whereq : option slot)
    (q dir : Z) (bytes : list Z) (keylen : Z) : thread (Z * option slot * Z * Z) :=
  match fuel with
  | O => atomic nofuel
  | S fuel =>
      if IS_INTERNAL p then
        dir ← atomic (n ← load_node (TO_NODE p); lift (get_direction n bytes (u64 keylen)));
        p' ← atomic (load_slot (SChild (TO_NODE p) dir));
        delete_loop_thread fuel p' (SChild (TO_NODE p) dir) (Some wherep) (TO_NODE p) dir bytes keylen
      else mret (p, whereq, q, dir)
  end.

(** The end of [critbit_delete_inplace], after the comparison with the leaf
    [p] that the walk has reached. *)
Definition unlink_thread (root p : Z) (whereq : option slot) (q dir cmp : Z) : thread Z :=
  if negb (cmp =? 0) then mret 0
  else
    match whereq with
    | None => _ ← atomic (store_slot (SHead root) 0); mret p
    | Some whereq =>
        other ← atomic (load_slot (SChild q (1 - dir)));
        _ ← atomic (store_slot whereq other);
        mret (FROM_NODE q)
    end.
Definition delete_found_thread (root : Z) (key : list Z) (p : Z) (whereq : option slot) (q dir : Z)
    : thread Z :=
  cmp ← atomic (chars ← load_chars p; lift (strcmp key chars));
  unlink_thread root p whereq q dir cmp.

Definition critbit_delete_inplace_thread (fuel : nat) (root : Z) (key : list Z) (keylen : Z) : thread Z :=
  p ← atomic (load_slot (SHead root));
  if p =? 0 then mret 0
  else
    p ← atomic (load_slot (SHead root));
    res ← delete_loop_thread fuel p (SHead root) None 0 0 key keylen;
    let '(p, whereq, q, dir) := res in
    delete_found_thread root key p whereq q dir.

(** The end of [critbit_delete], one step for each access to the blocks it
    has unlinked. *)
Definition free_unlinked_thread (key : list Z) (p : Z) : thread Z :=
  if negb (IS_INTERNAL p) then _ ← atomic (free_string p); mret 0
  else
    first ← atomic (load_slot (SChild (TO_NODE p) 0));
    same ←
      (if IS_INTERNAL first then mret false
       else
         cmp ← atomic (chars ← load_chars first; lift (strcmp key chars));
         mret (cmp =? 0));
    if (same : bool) then
      first ← atomic (load_slot (SChild (TO_NODE p) 0));
      _ ← atomic (free_string first);
      _ ← atomic (free_node (TO_NODE p));
      mret 0
    else
      second ← atomic (load_slot (SChild (TO_NODE p) 1));
      _ ← atomic (free_string second);
      _ ← atomic (free_node (TO_NODE p));
      mret 0.

Definition critbit_delete_thread (fuel : nat) (root : Z) (key : list Z) : thread Z :=
  len ← atomic (lift (strlen key));
  _ ← atomic (pthread_mutex_lock root);
  p ← critbit_delete_inplace_thread fuel root key (s32 len);
  lock ← atomic (r ← load_root root; mret (cur_rwlock r));
  newlock ← atomic (r ← load_root root; mret (prev_rwlock r));
  _ ← atomic (cas_cur root lock newlock);
  _ ← atomic (cas_prev root newlock lock);
  _ ← atomic (pthread_rwlock_wrlock root lock);
  _ ← atomic (pthread_rwlock_unlock root lock);
  _ ← atomic (pthread_mutex_unlock root);
  if p =? 0 then mret 1 else free_unlinked_thread key p.

(** ** Calls

    A thread makes one call; a result is the status, and the contents of
    [*out] for [critbit_get]. *)
Inductive call :=
  | Get (key : list Z) (out : Z)
  | Insert (key : list Z) (value : Z)
  | Delete (key : list Z).

Definition start `{Malloc} (fuel : nat) (root : Z) (c : call) : thread (Z * Z) :=
  match c with
  | Get key out => critbit_get_thread fuel root (cstr key) out
  | Insert key value => ret ← critbit_insert_thread fuel root (cstr key) value; mret (ret, 0)
  | Delete key => ret ← critbit_delete_thread fuel root (cstr key); mret (ret, 0)
  end.
