(* ===== verification/CritView.v ===== *)
(** * CritView: subtrees that survive a change of the tree

    A reader of critbit.c holds a pointer into the tree while a writer changes
    it.  [subtree] says where such a pointer can be, and [follows] how the
    subtree it points to changes: the block at the pointer stays, entries only
    come from the new tree and only disappear with it.  Insertion keeps every
    subtree; removal keeps every subtree but those of the node it cuts out. *)

From S2P Require Import Prelude.
From S2P Require Import KeyBits.
From S2P Require Import Critbit.
From S2P Require Import CritTree.
From S2P Require Import Own.
From S2P Require Import CritMem.
From S2P Require Import CritbitProofs.

Implicit Types (s t : tree) (k q : list Z).

Fixpoint subtree s t : Prop :=
  s = t ∨ match t with Leaf _ _ _ => False | Inner _ _ _ l r => subtree s l ∨ subtree s r end.

Lemma subtree_refl t : subtree t t.
Proof. destruct t; by left. Qed.

Lemma subtree_trans s t t' : subtree s t → subtree t t' → subtree s t'.
Proof.
  intros Hs. induction t' as [a k v|a b ob l IHl r IHr]; cbn [subtree].
  - intros [Ht|[]]. rewrite Ht in Hs. exact Hs.
  - intros [Ht|[H|H]]; [|right; left; auto|right; right; auto].
    rewrite Ht in Hs. exact Hs.
Qed.

Lemma subtree_child a b ob l r (d : bool) t :
  subtree (Inner a b ob l r) t → subtree (if d then r else l) t.
Proof.
  intros H. eapply subtree_trans; [|exact H]. right. destruct d; [right|left]; apply subtree_refl.
Qed.

Lemma subtree_wf s t : wf t → subtree s t → wf s.
Proof.
  induction t as [a k v|a b ob l IHl r IHr]; intros Hwf; [by intros [-> | []]|].
  intros [-> | H]; [done|]. destruct Hwf as (_ & _ & _ & Hl & Hr & _). destruct H; auto.
Qed.

Lemma subtree_holds m s t : holds m (cells t) → subtree s t → holds m (cells s).
Proof.
  induction t as [a k v|a b ob l IHl r IHr]; intros Hm; [by intros [-> | []]|].
  intros [-> | H]; [done|]. apply holds_inner in Hm as (_ & Hl & Hr). destruct H; auto.
Qed.

Lemma subtree_entries s t e : subtree s t → e ∈ entries s → e ∈ entries t.
Proof.
  induction t as [a k v|a b ob l IHl r IHr]; [by intros [-> | []]|].
  intros [-> | H] He; [done|]. cbn. apply elem_of_app. destruct H; auto.
Qed.

(** ** The block at a pointer *)

Definition same_top s s' : Prop :=
  match s, s' with
  | Leaf _ _ _, Leaf _ _ _ => s' = s
  | Inner a b ob _ _, Inner a' b' ob' _ _ => a = a' ∧ b = b' ∧ ob = ob'
  | _, _ => False
  end.

Lemma same_top_refl s : same_top s s.
Proof. by destruct s. Qed.

Lemma same_top_ptr s s' : same_top s s' → ptr s' = ptr s.
Proof. destruct s, s'; cbn; [by intros [=-> -> ->]|done..|by intros (-> & _)]. Qed.

Lemma same_top_leaf a k v s' : same_top (Leaf a k v) s' → s' = Leaf a k v.
Proof. by destruct s'. Qed.

Lemma same_top_inner a b ob l r s' :
  same_top (Inner a b ob l r) s' → ∃ l' r', s' = Inner a b ob l' r'.
Proof. destruct s'; [done|]. intros (<- & <- & <-). eauto. Qed.

(** ** Change *)

(** What becomes of the entries below a pointer when the tree becomes [t']
    and heights grow by at most [d]. *)
Record changes (t' : tree) (d : nat) s s' : Prop := {
  changes_new e : e ∈ entries s' → e ∈ entries s ∨ e ∈ entries t';
  changes_old q : q ∈ keys s → q ∈ keys s' ∨ q ∉ keys t';
  changes_height : (height s' ≤ d + height s)%nat;
}.

Definition follows (t' : tree) (d : nat) s s' : Prop := same_top s s' ∧ changes t' d s s'.

Lemma follows_refl t' d s : follows t' d s s.
Proof. split; [apply same_top_refl|]. split; [auto..|lia]. Qed.

(** ** Insertion *)

Section insertion.
Context k (v a x nb nob : Z) (d : bool).
Let new s := branch a nb nob d (Leaf x k v) s.
Let ins t := insert_at k nb nob new t.

Lemma height_branch s : height (new s) = S (height s).
Proof. unfold new, branch. destruct d; cbn; lia. Qed.

Lemma height_insert_at t : (height (ins t) ≤ S (height t))%nat.
Proof.
  unfold ins. induction t as [a' k' v'|a' b ob l IHl r IHr]; cbn [insert_at].
  - by rewrite height_branch.
  - destruct crit_after; [by rewrite height_branch|]. destruct kbit; cbn; lia.
Qed.

Lemma subtree_branch s t : subtree s t → subtree s (new t).
Proof. unfold new, branch. destruct d; cbn; auto. Qed.

Lemma entries_ins t e : e ∈ entries (ins t) ↔ e = (k, v) ∨ e ∈ entries t.
Proof.
  assert (∀ s, e ∈ entries (new s) ↔ e = (k, v) ∨ e ∈ entries s) as Hnew.
  { intros s. unfold new, branch. destruct d; cbn.
    - rewrite elem_of_app, list_elem_of_singleton. tauto.
    - apply elem_of_cons. }
  unfold ins. induction t as [a' k' v'|a' b ob l IHl r IHr]; cbn [insert_at]; [apply Hnew|].
  destruct crit_after; [apply Hnew|].
  destruct kbit; cbn; rewrite !elem_of_app, ?IHl, ?IHr; tauto.
Qed.

(** The subtrees of the new tree that replace those of the old one. *)
Lemma follows_insert_at t s :
  subtree s t → ∃ s', subtree s' (ins t) ∧ same_top s s' ∧ (s' = s ∨ s' = ins s).
Proof.
  unfold ins. induction t as [a' k' v'|a' b ob l IHl r IHr]; cbn [insert_at].
  { intros Hs. exists s. split_and!; [by apply subtree_branch|apply same_top_refl|by left]. }
  intros Hs. destruct (crit_after b ob nb nob) eqn:Haf.
  { exists s. split_and!; [by apply subtree_branch|apply same_top_refl|by left]. }
  destruct Hs as [->|Hs].
  - exists (insert_at k nb nob new (Inner a' b ob l r)). cbn [insert_at]. rewrite Haf.
    destruct kbit; (split_and!; [by left|done|by right]).
  - destruct kbit, Hs as [Hs|Hs].
    1, 4: exists s; split_and!; [right; tauto|apply same_top_refl|by left].
    + destruct (IHr Hs) as (s' & ? & ? & ?). exists s'. split_and!; [right; by right|done..].
    + destruct (IHl Hs) as (s' & ? & ? & ?). exists s'. split_and!; [right; by left|done..].
Qed.
End insertion.

Lemma insertion_follows k v t t' s :
  insertion k v t t' → subtree s t → ∃ s', subtree s' t' ∧ follows t' 1 s s'.
Proof.
  intros (a & x & nb & nob & ->) Hs.
  destruct (follows_insert_at k v a x nb nob (kbit k (crit_index nb nob)) t s Hs)
    as (s' & Hs' & Htop & Hcase). exists s'. split; [done|]. split; [done|].
  destruct Hcase as [-> | ->]; [by apply follows_refl|]. split.
  - intros e He. apply entries_ins in He as [->|He]; [|by left]. right. apply entries_ins. by left.
  - intros q Hq. left. apply list_elem_of_fmap in Hq as (e & -> & He). apply list_elem_of_fmap_2.
    apply entries_ins. by right.
  - apply height_insert_at.
Qed.

Lemma insertion_height k v t t' : insertion k v t t' → (height t' ≤ S (height t))%nat.
Proof. intros (a & x & nb & nob & ->). apply height_insert_at. Qed.

(** ** Removal *)

Section removal.
Context k (f : frame) (a v : Z) (t' : tree) (Hnin : k ∉ keys t').
(** The node that is cut out, with the leaf on one side. *)
Let cut := plug1 f (Leaf a k v).

Lemma changes_cut : changes t' 0 cut (f_sib f).
Proof.
  unfold cut, plug1. destruct f as [fa b ob [] sib]; cbn; split; cbn.
  1, 4: intros e He; left; rewrite ?elem_of_app, ?elem_of_cons; auto.
  2, 4: lia.
  all: intros q; rewrite ?fmap_app, ?elem_of_app, ?elem_of_cons; cbn;
    rewrite ?list_elem_of_singleton; intros [Hq|Hq]; subst; auto.
Qed.

Lemma changes_plug1 g s s' : changes t' 0 s s' → changes t' 0 (plug1 g s) (plug1 g s').
Proof.
  intros [Hn Ho Hh]. unfold plug1. destruct g as [ga b ob [] sib]; cbn; split; cbn; try lia.
  1, 3: intros e; rewrite !elem_of_app; intros [He|He]; auto; destruct (Hn e He); auto.
  all: intros q; rewrite !fmap_app, !elem_of_app; intros [Hq|Hq]; auto; destruct (Ho q Hq); auto.
Qed.

Lemma changes_plug C s s' : changes t' 0 s s' → changes t' 0 (plug C s) (plug C s').
Proof.
  revert s s'. induction C as [|g C IH]; intros s s' H; [done|]. by apply IH, changes_plug1.
Qed.

(** Outside of the node that is cut out every subtree stays in place. *)
Lemma follows_unlink C s :
  subtree s (plug C cut) →
  ∃ s', (subtree s' (plug C (f_sib f)) ∨ subtree s' cut) ∧ follows t' 0 s s'.
Proof.
  assert (∀ t1 t2, changes t' 0 t1 t2 →
    (∀ s, subtree s t1 → ∃ s', (subtree s' t2 ∨ subtree s' cut) ∧ follows t' 0 s s') →
    subtree s (plug C t1) →
    ∃ s', (subtree s' (plug C t2) ∨ subtree s' cut) ∧ follows t' 0 s s') as Hgen.
  { revert s. induction C as [|g C IH]; intros s t1 t2 Hch Hall Hs; [by apply Hall|].
    cbn [plug] in *. apply (IH s (plug1 g t1) (plug1 g t2)); [by apply changes_plug1| |done].
    clear s Hs. intros s Hs.
    assert (s = plug1 g t1 ∨ subtree s t1 ∨ subtree s (f_sib g)) as [->|[Hs1|Hs1]].
    { unfold plug1 in *. destruct (f_dir g); cbn in Hs; tauto. }
    - exists (plug1 g t2). split; [left; apply subtree_refl|]. split; [|by apply changes_plug1].
      unfold plug1. by destruct (f_dir g).
    - destruct (Hall s Hs1) as (s' & Hs' & Hf). exists s'. split; [|done].
      destruct Hs' as [Hs'|]; [left|by right]. unfold plug1. destruct (f_dir g); cbn; tauto.
    - exists s. split; [left|apply follows_refl]. unfold plug1. destruct (f_dir g); cbn; tauto. }
  apply Hgen; [apply changes_cut|]. intros s1 Hs1. exists s1. split; [by right|apply follows_refl].
Qed.
End removal.

Lemma subtree_plug C s : subtree s (plug C s).
Proof.
  assert (∀ u, subtree s u → subtree s (plug C u)) as H; [|apply H, subtree_refl].
  induction C as [|f C IH]; intros u Hu; [done|]. apply IH.
  unfold plug1. destruct (f_dir f); cbn; auto.
Qed.

(** Heights and the number of bindings. *)
Lemma height_entries t : (height t < length (entries t))%nat.
Proof. induction t as [a k v|a b ob l IHl r IHr]; cbn; [lia|]. rewrite length_app. lia. Qed.

Lemma height_size t : wf t → (height t < size (to_map t))%nat.
Proof.
  intros Hwf. unfold to_map. rewrite map_size_list_to_map by (by apply wf_NoDup).
  apply height_entries.
Qed.

(** ** The path of a writer

    The frames of a path lie on the way of [k]; on the way of an insertion none
    of them comes after the new critical bit. *)
Definition on_path (k : list Z) (f : frame) : Prop := f_dir f = kbit k (crit_index (f_byte f) (f_ob f)).
Definition before_crit (nb nob : Z) (f : frame) : Prop := crit_after (f_byte f) (f_ob f) nb nob = false.

Section path.
Context (k : list Z).

Lemma nearest_plug C s : Forall (on_path k) C → nearest k (plug C s) = nearest k s.
Proof.
  revert s. induction C as [|f C IH]; intros s HC; [done|]. apply Forall_cons in HC as [Hf HC].
  cbn [plug]. rewrite IH by done. unfold on_path in Hf. unfold plug1. rewrite Hf.
  destruct (kbit k (crit_index (f_byte f) (f_ob f))) eqn:Hb; cbn; by rewrite Hb.
Qed.

(** Removal takes out the leaf at the end, with the node above it. *)
Lemma remove_plug C s :
  Forall (on_path k) C →
  remove k (plug C s) =
    match remove k s, C with
    | Some s', _ => Some (plug C s')
    | None, f :: C => Some (plug C (f_sib f))
    | None, [] => None
    end.
Proof.
  revert s. induction C as [|f C IH]; intros s HC; [cbn [plug]; by destruct (remove k s)|].
  apply Forall_cons in HC as [Hf HC]. cbn [plug]. rewrite IH by done.
  assert (remove k (plug1 f s) = Some (match remove k s with Some s' => plug1 f s' | None => f_sib f end)) as ->.
  { unfold on_path in Hf. unfold plug1. rewrite Hf.
    destruct (kbit k (crit_index (f_byte f) (f_ob f))) eqn:Hb; cbn; rewrite Hb; by destruct (remove k s). }
  by destruct (remove k s).
Qed.

Lemma insert_at_plug nb nob mk C s :
  Forall (λ f, on_path k f ∧ before_crit nb nob f) C →
  insert_at k nb nob mk (plug C s) = plug C (insert_at k nb nob mk s).
Proof.
  revert s. induction C as [|f C IH]; intros s HC; [done|]. apply Forall_cons in HC as [[Hf Hc] HC].
  cbn [plug]. rewrite IH by done. unfold on_path in Hf. unfold before_crit in Hc. unfold plug1.
  rewrite Hf. destruct (kbit k (crit_index (f_byte f) (f_ob f))) eqn:Hb; cbn [insert_at]; by rewrite Hc, Hb.
Qed.
End path.
