(* ===== verification/CritConc.v ===== *)
(** * CritConc: the invariant of concurrent readers and writers

    Any number of [critbit_get] and [critbit_insert] calls and one
    [critbit_delete] run interleaved over one tree.  The invariant says which
    tree the memory holds, who holds which lock ([ghost], one record per
    thread), how far the deleter has come ([phase]), and for each thread where
    in its function it is and what it knows: a reader points into the tree, or
    into the node the deleter has cut out while it still holds the lock the
    deleter waits for; the thread that holds the mutex knows the tree, which
    nobody else changes, up to the place where it is, and owns the blocks it
    has allocated. *)

From S2P Require Import Prelude.
From S2P Require Import KeyBits.
From S2P Require Import Critbit.
From S2P Require Import CritTree.
From S2P Require Import Own.
From S2P Require Import CritMem.
From S2P Require Import CritbitProofs.
From S2P Require Import CritbitMap.
From S2P Require Import Threads.
From S2P Require Import CritThreads.
From S2P Require Import CritView.

(** ** The order of the writes

    [writes calls M log M']: the calls in [log] (latest first, with the status
    each returned), run one after the other on the map [M], give [M']; no call
    is run twice. *)
Inductive writes `{Malloc} (calls : list call) (M : gmap (list Z) Z)
    : list (nat * Z) → gmap (list Z) Z → Prop :=
  | writes_nil : writes calls M [] M
  | writes_insert log M' i k v :
      writes calls M log M' → i ∉ log.*1 → calls !! i = Some (Insert k v) → M' !! k = None →
      writes calls M ((i, 0) :: log) (<[k := v]> M')
  | writes_refuse log M' i k v :
      writes calls M log M' → i ∉ log.*1 → calls !! i = Some (Insert k v) →
      is_Some (M' !! k) ∨ out_of_memory → writes calls M ((i, 1) :: log) M'
  | writes_delete log M' i k :
      writes calls M log M' → i ∉ log.*1 → calls !! i = Some (Delete k) → is_Some (M' !! k) →
      writes calls M ((i, 0) :: log) (delete k M')
  | writes_miss log M' i k :
      writes calls M log M' → i ∉ log.*1 → calls !! i = Some (Delete k) → M' !! k = None →
      writes calls M ((i, 1) :: log) M'.

(** The tree under [root] holds the map [M]. *)
Definition tree_in (root : Z) (M : gmap (list Z) Z) (m : mem) : Prop :=
  ∃ t r, wf t ∧ M = to_map t ∧ m !! root = Some (BRoot r) ∧ head r = ptr t ∧ holds m (cells t).

(** What [critbit_get] returns. *)
Definition lookup_result (o : option Z) (out : Z) : Z * Z :=
  match o with Some v => (0, v) | None => (1, out) end.

(** ** Ghost state *)

(** The read lock and the mutex a thread holds, its insertions to come (0 or
    1), and a bound on its steps to come. *)
Record ghost := Ghost {
  g_lock : option lock_id;
  g_mutex : bool;
  g_pend : nat;
  g_left : nat;
}.

Definition total (f : ghost → nat) (gs : list ghost) : nat := sum_list_with f gs.
Definition reads (l : lock_id) (g : ghost) : nat := if decide (g_lock g = Some l) then 1 else 0.
Definition locks (g : ghost) : nat := if g_mutex g then 1 else 0.

Lemma reads_some l b p n : reads l (Ghost (Some l) b p n) = 1%nat.
Proof. unfold reads. by rewrite decide_True. Qed.
Lemma reads_none l b p n : reads l (Ghost None b p n) = O.
Proof. unfold reads. by rewrite decide_False. Qed.

Lemma total_update f gs i g g' :
  gs !! i = Some g → (total f (<[i := g']> gs) + f g = total f gs + f g')%nat.
Proof.
  revert i. induction gs as [|h gs IH]; intros [|i] Hi; simplify_eq/=; [lia|].
  specialize (IH i Hi). unfold total in *. cbn. lia.
Qed.

Lemma total_same f gs i g g' :
  gs !! i = Some g → f g' = f g → total f (<[i := g']> gs) = total f gs.
Proof. intros Hi Hf. pose proof (total_update f gs i g g' Hi). lia. Qed.

Lemma total_ge f gs i g : gs !! i = Some g → (f g ≤ total f gs)%nat.
Proof.
  revert i. induction gs as [|h gs IH]; intros [|i] Hi; simplify_eq/=; unfold total in *; cbn; [lia|].
  specialize (IH i Hi). lia.
Qed.

Lemma total_pos f gs : (0 < total f gs)%nat → ∃ i g, gs !! i = Some g ∧ (0 < f g)%nat.
Proof.
  induction gs as [|h gs IH]; unfold total in *; cbn; [lia|]. intros H.
  destruct (decide (0 < f h)%nat) as [Hh|Hh]; [by exists O, h|].
  destruct IH as (i & g & Hi & Hg); [lia|]. by exists (S i), g.
Qed.

Lemma total_two f gs i j g h :
  i ≠ j → gs !! i = Some g → gs !! j = Some h → (f g + f h ≤ total f gs)%nat.
Proof.
  revert i j. induction gs as [|x gs IH]; intros [|i] [|j] Hne Hi Hj; simplify_eq/=;
    unfold total in *; cbn.
  - pose proof (total_ge f gs j h Hj). unfold total in *. lia.
  - pose proof (total_ge f gs i g Hi). unfold total in *. lia.
  - specialize (IH i j ltac:(congruence) Hi Hj). lia.
Qed.

(** How far [critbit_delete] has come: before the unlinking, after it, one
    lock pointer swapped, both swapped, inside the old lock as a writer,
    after that. *)
Inductive phase := Before | Unlinked | Swapping | Swapped | Writing | After.

Definition phase_open (ph : phase) : Prop := ph = Unlinked ∨ ph = Swapping ∨ ph = Swapped.
Definition phase_busy (ph : phase) : Prop := phase_open ph ∨ ph = Writing.

Lemma phase_busy_not ph : ¬ phase_busy ph → ph = Before ∨ ph = After.
Proof. unfold phase_busy, phase_open. destruct ph; tauto. Qed.

(** The tree, the writes so far, the phase, the node that has been cut out
    while readers may still be in it, the blocks cut out and not freed, and
    those allocated for an insertion and not published. *)
Record shared := Shared {
  sh_tree : tree;
  sh_log : list (nat * Z);
  sh_phase : phase;
  sh_limbo : option tree;
  sh_garbage : list (Z * block);
  sh_priv : list (Z * block);
}.

Section conc.
Context {MA : Malloc} {MS : MallocSpec MA}.
Context (root : Z) (fr : mem) (fuel : nat) (calls : list call) (c0 c1 : lock_id).
Context (m0 : mem) (M0 : gmap (list Z) Z) (k0 : list Z).

(** ** The root block *)

Definition phase_cur (ph : phase) : lock_id :=
  match ph with Before | Unlinked => c0 | _ => c1 end.
Definition phase_prev (ph : phase) : lock_id :=
  match ph with Before | Unlinked | Swapping => c1 | _ => c0 end.
Definition phase_writer (ph : phase) (l : lock_id) : bool :=
  match ph with Writing => bool_decide (l = c0) | _ => false end.

Definition lock_of (gs : list ghost) (ph : phase) (l : lock_id) : rwlock :=
  Rwlock (Z.of_nat (total (reads l) gs)) (phase_writer ph l).
Definition root_of (gs : list ghost) (ph : phase) : critbit_root :=
  Root 0 (0 <? Z.of_nat (total locks gs)) (lock_of gs ph left_lock) (lock_of gs ph right_lock)
    (phase_cur ph) (phase_prev ph).

Definition mem_ok (gs : list ghost) (sh : shared) (m : mem) : Prop :=
  ∃ fr', owns (sh_garbage sh ++ sh_priv sh) fr fr' ∧
    owns (root_cells root (root_of gs (sh_phase sh)) (sh_tree sh)) fr' m.

(** ** What readers have seen *)

Definition now (s : list nat) (M : gmap (list Z) Z) : Prop :=
  ∃ m ts, run_schedule s m0 (start fuel root <$> calls) = Done (m, ts) ∧ tree_in root M m.

(** At some moment since thread [i] started (and, for [seen_done], before it
    finished) the map had [o] for [k]. *)
Definition seen (i : nat) (s : list nat) (k : list Z) (o : option Z) : Prop :=
  ∃ s1 s2 M, s = s1 ++ s2 ∧ i ∈ s1 ∧ now s1 M ∧ M !! k = o.
Definition seen_done (i : nat) (s : list nat) (k : list Z) (o : option Z) : Prop :=
  ∃ s1 s2 M, s = s1 ++ s2 ∧ i ∈ s1 ∧ i ∈ s2 ∧ now s1 M ∧ M !! k = o.

Lemma seen_app i s s' k o : seen i s k o → seen i (s ++ s') k o.
Proof. intros (s1 & s2 & M & -> & H). exists s1, (s2 ++ s'), M. by rewrite <-app_assoc. Qed.

Lemma seen_done_app i s s' k o : seen_done i s k o → seen_done i (s ++ s') k o.
Proof.
  intros (s1 & s2 & M & -> & Hi & Hi2 & H). exists s1, (s2 ++ s'), M. rewrite <-app_assoc.
  split_and!; [done..| |apply H|apply H]. apply elem_of_app. by left.
Qed.

Lemma seen_finish i s k o : seen i s k o → seen_done i (s ++ [i]) k o.
Proof.
  intros (s1 & s2 & M & -> & Hi & H). exists s1, (s2 ++ [i]), M. rewrite <-app_assoc.
  split_and!; [done..| |apply H|apply H]. apply elem_of_app. right. by apply list_elem_of_singleton.
Qed.

Lemma seen_now i s k M : i ∈ s → now s M → seen i s k (M !! k).
Proof. intros Hi HM. exists s, [], M. by rewrite app_nil_r. Qed.

Definition knows (i : nat) (s : list nat) (k : list Z) (t : tree) : Prop :=
  (∀ v, (k, v) ∈ entries t → seen i s k (Some v)) ∧ (k ∈ keys t ∨ seen i s k None).

(** Where a reader that holds lock [l] can be. *)
Definition in_view (sh : shared) (l : lock_id) (t : tree) : Prop :=
  subtree t (sh_tree sh) ∨ (l = c0 ∧ ∃ N, sh_limbo sh = Some N ∧ subtree t N).

(** ** Readers *)

Section get.
Context (i : nat) (k : list Z) (out : Z).
Let len := u64 (s32 (Z.of_nat (length k))).

Definition get_end (l : lock_id) (res : Z * Z) : thread (Z * Z) :=
  _ ← atomic (pthread_rwlock_unlock root l); mret res.
Definition get_value (l : lock_id) (p : Z) : thread (Z * Z) :=
  res ← (v ← atomic (load_value p); mret (0, v)); get_end l res.
Definition get_cmp (l : lock_id) (p : Z) : thread (Z * Z) :=
  cmp ← atomic (chars ← load_chars p; lift (strcmp chars (cstr k)));
  res ← (if cmp =? 0 then v ← atomic (load_value p); mret (0, v) else mret (1, out));
  get_end l res.
Definition get_walk (l : lock_id) (f : nat) (p : Z) : thread (Z * Z) :=
  nearest ← find_nearest_thread f p (cstr k) len; get_cmp l nearest.
Definition get_child (l : lock_id) (f : nat) (a dir : Z) : thread (Z * Z) :=
  nearest ← (p ← atomic (load_slot (SChild a dir)); find_nearest_thread f p (cstr k) len);
  get_cmp l nearest.
Definition get_head (l : lock_id) : thread (Z * Z) :=
  p ← atomic (load_slot (SHead root)); get_walk l fuel p.
Definition get_lock (l : lock_id) : thread (Z * Z) :=
  _ ← atomic (pthread_rwlock_rdlock root l); get_head l.
Definition get_cur : thread (Z * Z) :=
  lock ← atomic (r ← load_root root; mret (cur_rwlock r)); get_lock lock.

Inductive reader_ok (s : list nat) (sh : shared) (pend : nat) : ghost → thread (Z * Z) → Prop :=
  | rd_start :
      reader_ok s sh pend (Ghost None false 0 (2 * fuel + 7)) (critbit_get_thread fuel root (cstr k) out)
  | rd_cur : reader_ok s sh pend (Ghost None false 0 (2 * fuel + 6)) get_cur
  | rd_lock l :
      (sh_phase sh = Before → l = c0) →
      reader_ok s sh pend (Ghost None false 0 (2 * fuel + 5)) (get_lock l)
  | rd_head l : reader_ok s sh pend (Ghost (Some l) false 0 (2 * fuel + 4)) (get_head l)
  | rd_walk l f t :
      i ∈ s → in_view sh l t → knows i s k t → (height t + pend < f)%nat →
      reader_ok s sh pend (Ghost (Some l) false 0 (2 * f + 3)) (get_walk l f (ptr t))
  | rd_child l f a b ob tl tr :
      i ∈ s → in_view sh l (Inner a b ob tl tr) → knows i s k (Inner a b ob tl tr) →
      (height (Inner a b ob tl tr) + pend < S f)%nat →
      reader_ok s sh pend (Ghost (Some l) false 0 (2 * f + 4))
        (get_child l f a (of_bool (kbit k (crit_index b ob))))
  | rd_value l a v :
      in_view sh l (Leaf a k v) → seen i s k (Some v) →
      reader_ok s sh pend (Ghost (Some l) false 0 2) (get_value l (a + PTR_SIZE))
  | rd_end l o :
      seen i s k o → reader_ok s sh pend (Ghost (Some l) false 0 1) (get_end l (lookup_result o out))
  | rd_done o :
      seen_done i s k o → reader_ok s sh pend (Ghost None false 0 0) (Ret (lookup_result o out)).
End get.

(** ** Inserters *)

Section insert.
Context (i : nat) (k : list Z) (v : Z).
Let key := cstr k.
Let len := s32 (Z.of_nat (length k)).

(** What follows the in-place insertion. *)
Definition insert_ctx (t : thread Z) : thread (Z * Z) :=
  ret ← (ret ← t; _ ← atomic (pthread_mutex_unlock root); mret ret); mret (ret, 0).
Definition insert_lock : thread (Z * Z) :=
  ret ← (_ ← atomic (pthread_mutex_lock root);
         ret ← critbit_insert_inplace_thread fuel root key len v;
         _ ← atomic (pthread_mutex_unlock root); mret ret);
  mret (ret, 0).

Definition i_publish (w : slot) (a : Z) : thread Z := _ ← atomic (store_slot w (FROM_NODE a)); mret 0.
Definition i_link (w : slot) (a dir old : Z) : thread Z :=
  _ ← atomic (store_slot (SChild a dir) old); i_publish w a.
Definition i_old (a dir : Z) (w : slot) : thread Z := old ← atomic (load_slot w); i_link w a dir old.
Definition i_walk (f : nat) (w : slot) (a nb nob dir : Z) : thread Z :=
  w ← insert_loop_thread f w nb nob key len; i_old a dir w.
Definition i_next (f : nat) (w : slot) (a nb nob dir p : Z) : thread Z :=
  w ← (next ← atomic (
         q ← load_node (TO_NODE p);
         if nb <? u32 (byte q) then mret None
         else if (u32 (byte q) =? nb) && (nob <? otherbits q) then mret None
         else
           dir ← lift (get_direction q key (u64 len));
           mret (Some (SChild (TO_NODE p) dir)));
       match next with
       | None => mret w
       | Some w => insert_loop_thread f w nb nob key len
       end);
  i_old a dir w.
Definition i_fill (a x nb nob dir : Z) : thread Z :=
  insert_link_thread (2 + fuel) root key len a x nb nob dir.
Definition i_free (a : Z) : thread Z := _ ← atomic (free a); mret 1.
Definition i_string (a nb nob dir : Z) : thread Z :=
  x ← atomic (alloc_string key len v);
  if x =? 0 then i_free a else i_fill a x nb nob dir.
Definition i_alloc (nb nob dir : Z) : thread Z :=
  node ← atomic alloc_node;
  if node =? 0 then mret 1 else i_string node nb nob dir.
Definition i_found (p nb bits : Z) : thread Z :=
  insert_found_thread (2 + fuel) root key len v p nb bits.
Definition i_diff (p : Z) : thread Z :=
  diff ← atomic (diff_loop (S (Z.to_nat (u32 len))) p key len 0);
  match diff with None => mret 1 | Some (nb, bits) => i_found p nb bits end.
Definition i_near (f : nat) (p : Z) : thread Z := p ← find_nearest_thread f p key (u64 len); i_diff p.
Definition i_child (f : nat) (a dir : Z) : thread Z :=
  p ← (p ← atomic (load_slot (SChild a dir)); find_nearest_thread f p key (u64 len)); i_diff p.
Definition i_head : thread Z := p ← atomic (load_slot (SHead root)); i_near fuel p.
Definition i_body : thread Z := critbit_insert_inplace_thread fuel root key len v.

Definition side (nb nob : Z) : bool := kbit k (crit_index nb nob).
Definition dir_of_side (nb nob : Z) : Z := of_bool (negb (side nb nob)).

(** The node that is filled in: without the old subtree, and with it. *)
Definition half_node (n : critbit_node) (x nb nob : Z) : critbit_node :=
  if side nb nob then Node (child0 n) (x + PTR_SIZE) nb nob else Node (x + PTR_SIZE) (child1 n) nb nob.
Definition full_node (x nb nob old : Z) : critbit_node :=
  if side nb nob then Node old (x + PTR_SIZE) nb nob else Node (x + PTR_SIZE) old nb nob.
Definition new_tree (a x nb nob : Z) (s : tree) : tree := branch a nb nob (side nb nob) (Leaf x k v) s.

(** [k] is not in the tree, and differs from it at the critical bit (nb, nob). *)
Record crit_ok (T : tree) (nb nob : Z) : Prop := {
  crit_new : k ∉ keys T;
  crit_diff : first_diff k (nearest_key k T) nb nob;
}.

(** The two new blocks. *)
Record blocks_ok (pr : list (Z * block)) (a x : Z) (n : critbit_node) : Prop := {
  bl_node : addr_ok a;
  bl_leaf : addr_ok x;
  bl_priv : pr = [(a, BNode n); (x, BString v key)];
}.

(** Where the second walk is: the path [C] leads to [s]. *)
Record walk_ok (T : tree) (nb nob : Z) (C : ctx) (s : tree) : Prop := {
  walk_plug : plug C s = T;
  walk_path : Forall (λ f, on_path k f ∧ before_crit nb nob f) C;
}.
Definition walk_ends (nb nob : Z) (s : tree) : Prop := ∀ mk, insert_at k nb nob mk s = mk s.

Local Notation holding n := (Ghost None true 1 n).

(** The thread holds the mutex and has not decided yet. *)
Inductive inserting (T : tree) (pr : list (Z * block)) : nat → thread Z → Prop :=
  | ii_body : pr = [] → inserting T pr (4 * fuel + 13) i_body
  | ii_head : pr = [] → inserting T pr (4 * fuel + 12) i_head
  | ii_near f t :
      pr = [] → subtree t T → nearest k t = nearest k T →
      (height t < f)%nat → inserting T pr (2 * f + 2 * fuel + 11) (i_near f (ptr t))
  | ii_child f a b ob tl tr :
      pr = [] → subtree (Inner a b ob tl tr) T →
      nearest k (Inner a b ob tl tr) = nearest k T →
      (height (Inner a b ob tl tr) < S f)%nat →
      inserting T pr (2 * f + 2 * fuel + 12) (i_child f a (of_bool (kbit k (crit_index b ob))))
  | ii_found nb :
      let p := nearest_key k T in
      pr = [] → 0 ≤ nb ≤ Z.of_nat (length k) → nb ≤ Z.of_nat (length p) →
      (∀ b, 0 ≤ b < nb → byte_at k b = byte_at p b) → byte_at p nb ≠ byte_at k nb →
      inserting T pr (2 * fuel + 12)
        (i_found ((nearest k T).1.1 + PTR_SIZE) nb (Z.lxor (byte_at p nb) (byte_at k nb)))
  | ii_alloc nb nob :
      pr = [] → crit_ok T nb nob →
      inserting T pr (2 * fuel + 11) (i_alloc nb nob (dir_of_side nb nob))
  | ii_string a n nb nob :
      pr = [(a, BNode n)] → addr_ok a → crit_ok T nb nob →
      inserting T pr (2 * fuel + 10) (i_string a nb nob (dir_of_side nb nob))
  | ii_fill a x n nb nob :
      blocks_ok pr a x n → crit_ok T nb nob →
      inserting T pr (2 * fuel + 9) (i_fill a (x + PTR_SIZE) nb nob (dir_of_side nb nob))
  | ii_walk f a x n nb nob C s :
      blocks_ok pr a x (half_node n x nb nob) → crit_ok T nb nob →
      walk_ok T nb nob C s → (height s < f)%nat →
      inserting T pr (2 * f + 4) (i_walk f (slot_of root C) a nb nob (dir_of_side nb nob))
  | ii_next f a x n nb nob C b c ob tl tr :
      blocks_ok pr a x (half_node n x nb nob) → crit_ok T nb nob →
      walk_ok T nb nob C (Inner b c ob tl tr) → (height (Inner b c ob tl tr) < S f)%nat →
      inserting T pr (2 * f + 5) (i_next f (slot_of root C) a nb nob (dir_of_side nb nob) (FROM_NODE b))
  | ii_old a x n nb nob C s :
      blocks_ok pr a x (half_node n x nb nob) → crit_ok T nb nob →
      walk_ok T nb nob C s → walk_ends nb nob s →
      inserting T pr 4 (i_old a (dir_of_side nb nob) (slot_of root C))
  | ii_link a x n nb nob C s :
      blocks_ok pr a x (half_node n x nb nob) → crit_ok T nb nob →
      walk_ok T nb nob C s → walk_ends nb nob s →
      inserting T pr 3 (i_link (slot_of root C) a (dir_of_side nb nob) (ptr s))
  | ii_publish a x nb nob C s :
      blocks_ok pr a x (full_node x nb nob (ptr s)) → crit_ok T nb nob →
      walk_ok T nb nob C s → walk_ends nb nob s →
      inserting T pr 2 (i_publish (slot_of root C) a).

(** The call is in the log once it is decided. *)
Inductive inserter_ok (sh : shared) : ghost → thread (Z * Z) → Prop :=
  | ins_start :
      i ∉ (sh_log sh).*1 → inserter_ok sh (Ghost None false 1 (4 * fuel + 15)) (start fuel root (Insert k v))
  | ins_lock : i ∉ (sh_log sh).*1 → inserter_ok sh (Ghost None false 1 (4 * fuel + 14)) insert_lock
  | ins_body n t :
      i ∉ (sh_log sh).*1 → inserting (sh_tree sh) (sh_priv sh) n t → inserter_ok sh (holding n) (insert_ctx t)
  | ins_free a n :
      (i, 1) ∈ sh_log sh → sh_priv sh = [(a, BNode n)] →
      inserter_ok sh (Ghost None true 0 2) (insert_ctx (i_free a))
  | ins_end ret :
      (i, ret) ∈ sh_log sh → sh_priv sh = [] →
      inserter_ok sh (Ghost None true 0 1) (insert_ctx (mret ret))
  | ins_done ret : (i, ret) ∈ sh_log sh → inserter_ok sh (Ghost None false 0 0) (Ret (ret, 0)).
End insert.

(** ** The deleter *)

Section delete.
Context (i : nat) (k : list Z).
Let key := cstr k.

Definition wrap (t : thread Z) : thread (Z * Z) := ret ← t; mret (ret, 0).

Definition f_node (n : Z) : thread Z := _ ← atomic (free_node n); mret 0.
Definition f_str (n q : Z) : thread Z := _ ← atomic (free_string q); f_node n.
Definition f_side (n dir : Z) : thread Z := q ← atomic (load_slot (SChild n dir)); f_str n q.
Definition f_same (n : Z) (same : bool) : thread Z := if same then f_side n 0 else f_side n 1.
Definition f_cmp (n first : Z) : thread Z :=
  same ← (cmp ← atomic (chars ← load_chars first; lift (strcmp key chars)); mret (cmp =? 0));
  f_same n same.
Definition f_first (n : Z) : thread Z :=
  first ← atomic (load_slot (SChild n 0));
  same ← (if IS_INTERNAL first then mret false
          else cmp ← atomic (chars ← load_chars first; lift (strcmp key chars)); mret (cmp =? 0));
  f_same n same.

Definition d_finish (p : Z) : thread Z :=
  if p =? 0 then mret 1 else free_unlinked_thread key p.
Definition d_mutex (p : Z) : thread Z := _ ← atomic (pthread_mutex_unlock root); d_finish p.
Definition d_unlock (p : Z) : thread Z := _ ← atomic (pthread_rwlock_unlock root c0); d_mutex p.
Definition d_wrlock (p : Z) : thread Z := _ ← atomic (pthread_rwlock_wrlock root c0); d_unlock p.
Definition d_cas2 (p : Z) : thread Z := _ ← atomic (cas_prev root c1 c0); d_wrlock p.
Definition d_cas1 (p : Z) : thread Z := _ ← atomic (cas_cur root c0 c1); d_cas2 p.
Definition d_swap (p : Z) (lock newlock : lock_id) : thread Z :=
  _ ← atomic (cas_cur root lock newlock);
  _ ← atomic (cas_prev root newlock lock);
  _ ← atomic (pthread_rwlock_wrlock root lock);
  _ ← atomic (pthread_rwlock_unlock root lock);
  d_mutex p.
Definition d_prev (p : Z) (lock : lock_id) : thread Z :=
  newlock ← atomic (r ← load_root root; mret (prev_rwlock r)); d_swap p lock newlock.
Definition d_cur (p : Z) : thread Z :=
  lock ← atomic (r ← load_root root; mret (cur_rwlock r)); d_prev p lock.
Let len := s32 (Z.of_nat (length k)).

(** The in-place deletion: the walk has come along the path [C]. *)
Definition d_publish (w : slot) (q other : Z) : thread Z :=
  p ← (_ ← atomic (store_slot w other); mret (FROM_NODE q)); d_cur p.
Definition d_other (w : slot) (q dir : Z) : thread Z :=
  p ← (other ← atomic (load_slot (SChild q (1 - dir))); _ ← atomic (store_slot w other); mret (FROM_NODE q));
  d_cur p.
Definition d_found (res : Z * option slot * Z * Z) : thread Z :=
  let '(p, whereq, q, dir) := res in delete_found_thread root key p whereq q dir.
Definition d_walk (f : nat) (p : Z) (C : ctx) : thread Z :=
  p ← (res ← delete_loop_thread f p (slot_of root C) (whereq_of root C) (q_of C) (dir_of C) key len;
       d_found res);
  d_cur p.
Definition d_child (f : nat) (a : Z) (dir : bool) (C : ctx) : thread Z :=
  p ← (res ← (p ← atomic (load_slot (SChild a (of_bool dir)));
              delete_loop_thread f p (SChild a (of_bool dir)) (Some (slot_of root C)) a (of_bool dir) key len);
       d_found res);
  d_cur p.
Definition d_head : thread Z :=
  p ← (p ← atomic (load_slot (SHead root));
       res ← delete_loop_thread fuel p (SHead root) None 0 0 key len; d_found res);
  d_cur p.
Definition d_body : thread Z := p ← critbit_delete_inplace_thread fuel root key len; d_cur p.
Definition d_lock : thread Z := _ ← atomic (pthread_mutex_lock root); d_body.

(** The node [f] with the leaf of the key is out of the tree and not freed;
    its other child may have changed below its top block since. *)
Definition cut_blocks (f : frame) (a v : Z) : list (Z * block) :=
  [(a, BString v key); (f_addr f, BNode (frame_node f (a + PTR_SIZE)))].
Record cut_ok (sh : shared) (f : frame) (a v : Z) : Prop := {
  cut_leaf_addr : addr_ok a;
  cut_node_addr : addr_ok (f_addr f);
  cut_garbage : sh_garbage sh = cut_blocks f a v;
  cut_log : (i, 0) ∈ sh_log sh;
  cut_sib_wf : wf (f_sib f);
  cut_sib : ∃ s, subtree s (sh_tree sh) ∧ same_top (f_sib f) s;
  cut_key : k ∉ keys (f_sib f);
}.

(** The pointer [critbit_delete_inplace] has returned. *)
Variant unlinked_ok (sh : shared) : Z → Prop :=
  | unlinked_none : sh_garbage sh = [] → (i, 1) ∈ sh_log sh → unlinked_ok sh 0
  | unlinked_cut f a v : cut_ok sh f a v → unlinked_ok sh (FROM_NODE (f_addr f)).

(** Where the walk is: the path [C] leads to [s]. *)
Record descent_ok (T : tree) (C : ctx) (s : tree) : Prop := {
  descent_plug : plug C s = T;
  descent_path : Forall (on_path k) C;
}.

(** The thread holds the mutex and has not decided yet. *)
Inductive deleting (T : tree) : nat → thread Z → Prop :=
  | di_body : deleting T (2 * fuel + 15) d_body
  | di_head : deleting T (2 * fuel + 14) d_head
  | di_walk f C s :
      descent_ok T C s → (height s < f)%nat → deleting T (2 * f + 13) (d_walk f (ptr s) C)
  | di_child f C a b ob tl tr :
      descent_ok T C (Inner a b ob tl tr) → (height (Inner a b ob tl tr) < S f)%nat →
      deleting T (2 * f + 14) (d_child f a (kbit k (crit_index b ob)) C)
  | di_other f C a v :
      descent_ok T (f :: C) (Leaf a k v) →
      deleting T 14 (d_other (slot_of root C) (f_addr f) (of_bool (f_dir f)))
  | di_publish f C a v :
      descent_ok T (f :: C) (Leaf a k v) →
      deleting T 13 (d_publish (slot_of root C) (f_addr f) (ptr (f_sib f))).

Inductive deleter_ok (sh : shared) : ghost → thread (Z * Z) → Prop :=
  | dl_start :
      sh_phase sh = Before → sh_garbage sh = [] → i ∉ (sh_log sh).*1 →
      deleter_ok sh (Ghost None false 0 (2 * fuel + 17)) (start fuel root (Delete k))
  | dl_lock :
      sh_phase sh = Before → sh_garbage sh = [] → i ∉ (sh_log sh).*1 →
      deleter_ok sh (Ghost None false 0 (2 * fuel + 16)) (wrap d_lock)
  | dl_body n t :
      sh_phase sh = Before → sh_garbage sh = [] → i ∉ (sh_log sh).*1 → deleting (sh_tree sh) n t →
      deleter_ok sh (Ghost None true 0 n) (wrap t)
  | dl_cur p :
      sh_phase sh = Unlinked → unlinked_ok sh p →
      deleter_ok sh (Ghost None true 0 12) (wrap (d_cur p))
  | dl_prev p :
      sh_phase sh = Unlinked → unlinked_ok sh p →
      deleter_ok sh (Ghost None true 0 11) (wrap (d_prev p c0))
  | dl_cas1 p :
      sh_phase sh = Unlinked → unlinked_ok sh p →
      deleter_ok sh (Ghost None true 0 10) (wrap (d_cas1 p))
  | dl_cas2 p :
      sh_phase sh = Swapping → unlinked_ok sh p →
      deleter_ok sh (Ghost None true 0 9) (wrap (d_cas2 p))
  | dl_wrlock p :
      sh_phase sh = Swapped → unlinked_ok sh p →
      deleter_ok sh (Ghost None true 0 8) (wrap (d_wrlock p))
  | dl_unlock p :
      sh_phase sh = Writing → unlinked_ok sh p →
      deleter_ok sh (Ghost None true 0 7) (wrap (d_unlock p))
  | dl_mutex p :
      sh_phase sh = After → unlinked_ok sh p →
      deleter_ok sh (Ghost None true 0 6) (wrap (d_mutex p))
  | dl_first f a v :
      sh_phase sh = After → cut_ok sh f a v →
      deleter_ok sh (Ghost None false 0 5) (wrap (f_first (f_addr f)))
  | dl_cmp f a v first :
      sh_phase sh = After → cut_ok sh f a v → IS_INTERNAL first = false →
      first = (if f_dir f then ptr (f_sib f) else a + PTR_SIZE) →
      deleter_ok sh (Ghost None false 0 4) (wrap (f_cmp (f_addr f) first))
  | dl_side f a v :
      sh_phase sh = After → cut_ok sh f a v →
      deleter_ok sh (Ghost None false 0 3) (wrap (f_side (f_addr f) (of_bool (f_dir f))))
  | dl_str f a v :
      sh_phase sh = After → cut_ok sh f a v →
      deleter_ok sh (Ghost None false 0 2) (wrap (f_str (f_addr f) (a + PTR_SIZE)))
  | dl_node a n :
      sh_phase sh = After → sh_garbage sh = [(a, BNode n)] → (i, 0) ∈ sh_log sh →
      deleter_ok sh (Ghost None false 0 1) (wrap (f_node a))
  | dl_done ret :
      sh_phase sh = After → sh_garbage sh = [] → (i, ret) ∈ sh_log sh →
      deleter_ok sh (Ghost None false 0 0) (Ret (ret, 0)).
End delete.

(** ** The invariant *)

Definition thread_ok (i : nat) (c : call) (s : list nat) (sh : shared) (pend : nat)
    : ghost → thread (Z * Z) → Prop :=
  match c with
  | Get k out => reader_ok i k out s sh pend
  | Insert k v => inserter_ok i k v sh
  | Delete k => deleter_ok i k sh
  end.

(** The node that has been cut out still leads into the tree. *)
Definition limbo_ok (sh : shared) (N : tree) : Prop :=
  wf N ∧ ∃ f a k v, N = plug1 f (Leaf a k v) ∧ subtree (f_sib f) (sh_tree sh) ∧
    sh_garbage sh = cut_blocks k f a v.

Record glob (gs : list ghost) (sh : shared) (m : mem) : Prop := {
  gl_wf : wf (sh_tree sh);
  gl_mem : mem_ok gs sh m;
  gl_log : writes calls M0 (sh_log sh) (to_map (sh_tree sh));
  gl_mutex : (total locks gs ≤ 1)%nat;
  gl_fuel : (height (sh_tree sh) + total g_pend gs < fuel)%nat;
  gl_limbo N : sh_limbo sh = Some N → phase_open (sh_phase sh) ∧ limbo_ok sh N;
  gl_busy : phase_busy (sh_phase sh) →
    ∃ j k g, calls !! j = Some (Delete k) ∧ gs !! j = Some g ∧ g_mutex g = true;
  gl_writing : sh_phase sh = Writing → total (reads c0) gs = O;
  gl_before : sh_phase sh = Before → total (reads c1) gs = O;
  gl_keep : k0 ∈ keys (sh_tree sh);
  gl_clean : (∀ j k, calls !! j ≠ Some (Delete k)) → sh_garbage sh = [];
  gl_priv : sh_priv sh ≠ [] →
    ∃ j k v g, calls !! j = Some (Insert k v) ∧ gs !! j = Some g ∧ g_mutex g = true;
}.

Record inv (s : list nat) (gs : list ghost) (sh : shared) (m : mem) (ts : list (thread (Z * Z)))
    : Prop := {
  inv_glob : glob gs sh m;
  inv_ghosts : length gs = length calls;
  inv_length : length ts = length calls;
  inv_bound : (total g_left gs ≤ (4 * fuel + 17) * length calls)%nat;
  inv_threads i c : calls !! i = Some c →
    ∃ g th, gs !! i = Some g ∧ ts !! i = Some th ∧ thread_ok i c s sh (total g_pend gs) g th;
}.

(** What a step of thread [j] may do to what the others rely on; [P] are the
    read locks that other threads hold, [Q] says that one of them holds the
    mutex. *)
Record evolves (j : nat) (P : lock_id → Prop) (Q : Prop) (sh : shared) (pend : nat) (sh' : shared)
    (pend' : nat) : Prop := {
  ev_view l t : P l → in_view sh l t →
    ∃ t' d, in_view sh' l t' ∧ follows (sh_tree sh') d t t' ∧ (d + pend' ≤ pend)%nat;
  ev_log e : e ∈ sh_log sh → e ∈ sh_log sh';
  ev_new i : i ∉ (sh_log sh).*1 → i ≠ j → i ∉ (sh_log sh').*1;
  ev_phase : sh_phase sh' = Before → sh_phase sh = Before;
  ev_rest : (∀ k, calls !! j ≠ Some (Delete k)) →
    sh_phase sh' = sh_phase sh ∧ sh_garbage sh' = sh_garbage sh ∧
    ∀ t, subtree t (sh_tree sh) → ∃ t', subtree t' (sh_tree sh') ∧ same_top t t';
  ev_frozen : Q → sh_tree sh' = sh_tree sh ∧ sh_priv sh' = sh_priv sh;
}.

Lemma evolves_same j P Q sh pend : evolves j P Q sh pend sh pend.
Proof.
  split; [|done|done|done| |done].
  - intros l t _ Ht. exists t, O. split_and!; [done|apply follows_refl|lia].
  - intros _. split_and!; [done..|]. intros t Ht. exists t. split; [done|apply same_top_refl].
Qed.
End conc.

Arguments gl_wf {MA root fr fuel calls c0 c1 M0 k0 gs sh m} _.
Arguments gl_mem {MA root fr fuel calls c0 c1 M0 k0 gs sh m} _.
Arguments gl_log {MA root fr fuel calls c0 c1 M0 k0 gs sh m} _.
Arguments gl_mutex {MA root fr fuel calls c0 c1 M0 k0 gs sh m} _.
Arguments gl_fuel {MA root fr fuel calls c0 c1 M0 k0 gs sh m} _.
Arguments gl_limbo {MA root fr fuel calls c0 c1 M0 k0 gs sh m} _ _.
Arguments gl_busy {MA root fr fuel calls c0 c1 M0 k0 gs sh m} _.
Arguments gl_writing {MA root fr fuel calls c0 c1 M0 k0 gs sh m} _ _.
Arguments gl_before {MA root fr fuel calls c0 c1 M0 k0 gs sh m} _ _.
Arguments gl_keep {MA root fr fuel calls c0 c1 M0 k0 gs sh m} _.
Arguments gl_clean {MA root fr fuel calls c0 c1 M0 k0 gs sh m} _.
Arguments gl_priv {MA root fr fuel calls c0 c1 M0 k0 gs sh m} _ _.
Arguments ev_view {calls c0 j P Q sh pend sh' pend'} _ _ _.
Arguments ev_log {calls c0 j P Q sh pend sh' pend'} _ _.
Arguments ev_new {calls c0 j P Q sh pend sh' pend'} _ _.
Arguments ev_phase {calls c0 j P Q sh pend sh' pend'} _ _.
Arguments ev_rest {calls c0 j P Q sh pend sh' pend'} _.
Arguments ev_frozen {calls c0 j P Q sh pend sh' pend'} _ _.
Arguments inv_glob {MA root fr fuel calls c0 c1 m0 M0 k0 s gs sh m ts} _.
Arguments inv_ghosts {MA root fr fuel calls c0 c1 m0 M0 k0 s gs sh m ts} _.
Arguments inv_length {MA root fr fuel calls c0 c1 m0 M0 k0 s gs sh m ts} _.
Arguments inv_bound {MA root fr fuel calls c0 c1 m0 M0 k0 s gs sh m ts} _.
Arguments inv_threads {MA root fr fuel calls c0 c1 m0 M0 k0 s gs sh m ts} _ _ _ _.
