(* ===== verification/CritSteps.v ===== *)
(** * CritSteps: every step of a thread preserves the invariant

    First what the steps of one thread mean for the others
    ([thread_ok_stable]), then the steps themselves: the readers, and the mutex
    of the writers. *)

From S2P Require Import Prelude.
From S2P Require Import KeyBits.
From S2P Require Import Critbit.
From S2P Require Import CritTree.
From S2P Require Import Own.
From S2P Require Import CritMem.
From S2P Require Import CritbitProofs.
From S2P Require Import CritbitMap.
From S2P Require Import Threads.
From S2P Require Import CritThreads.
From S2P Require Import CritView.
From S2P Require Import CritConc.

Section steps.
Context {MA : Malloc} {MS : MallocSpec MA}.
Context (root : Z) (fr : mem) (fuel : nat) (calls : list call) (c0 c1 : lock_id) (Hc : c0 ≠ c1).
Context (m0 : mem) (M0 : gmap (list Z) Z) (k0 : list Z).

Notation now := (now root fuel calls m0).
Notation seen := (seen root fuel calls m0).
Notation knows := (knows root fuel calls m0).
Notation in_view := (in_view c0).
Notation root_of := (root_of c0 c1).
Notation mem_ok := (mem_ok root fr c0 c1).
Notation reader_ok := (reader_ok root fuel calls c0 m0).
Notation inserter_ok := (inserter_ok root fuel).
Notation deleter_ok := (deleter_ok root fuel c0 c1).
Notation thread_ok := (thread_ok root fuel calls c0 c1 m0).
Notation glob := (glob root fr fuel calls c0 c1 M0 k0).
Notation evolves := (evolves calls c0).

(** ** Other threads *)

Lemma knows_stable i j s k t t' T d :
  i ∈ s → wf T → now (s ++ [j]) (to_map T) → follows T d t t' →
  knows i s k t → knows i (s ++ [j]) k t'.
Proof.
  intros Hi Hwf Hnow [_ [Hnew Hold _]] [Hin Hout].
  assert (∀ o, to_map T !! k = o → seen i (s ++ [j]) k o) as Hseen.
  { intros o <-. apply seen_now; [|done]. apply elem_of_app. by left. }
  split.
  - intros v [He|He]%Hnew; [by apply seen_app, Hin|]. apply Hseen. by apply to_map_lookup.
  - destruct Hout as [Hk|Hk]; [|right; by apply seen_app].
    destruct (Hold k Hk) as [?|Hn]; [by left|]. right. apply Hseen. by apply to_map_None.
Qed.

Section stable.
Context (i j : nat) (s : list nat) (P : lock_id → Prop) (Q : Prop) (sh sh' : shared) (pend pend' : nat).
Context (Hne : i ≠ j ∨ sh' = sh) (Hev : evolves j P Q sh pend sh' pend').
Context (Hwf : wf (sh_tree sh')) (Hnow : now (s ++ [j]) (to_map (sh_tree sh'))).

Lemma reader_stable k out g th :
  (∀ l, g_lock g = Some l → P l) →
  reader_ok i k out s sh pend g th → reader_ok i k out (s ++ [j]) sh' pend' g th.
Proof.
  intros HP H. destruct H as [| |l Hl| |l f t Hi Hv Hk Hf|l f a b ob tl tr Hi Hv Hk Hf|l a v Hv Hk|l o Hk|o Hk];
    cbn in HP; [by constructor..| |constructor| | | | |].
  - constructor. intros Hph. by apply Hl, (ev_phase Hev).
  - destruct (ev_view Hev l t (HP l eq_refl) Hv) as (t' & d & Hv' & Hfo & Hd).
    pose proof (same_top_ptr _ _ (proj1 Hfo)) as <-. constructor; [|done|by eapply knows_stable|].
    + apply elem_of_app. by left.
    + pose proof (changes_height _ _ _ _ (proj2 Hfo)). lia.
  - destruct (ev_view Hev l _ (HP l eq_refl) Hv) as (t' & d & Hv' & Hfo & Hd).
    destruct (same_top_inner _ _ _ _ _ _ (proj1 Hfo)) as (tl' & tr' & ->).
    eapply (rd_child _ _ _ _ _ _ _ _ _ _ _ l f a b ob tl' tr'); [|done|by eapply knows_stable|].
    + apply elem_of_app. by left.
    + pose proof (changes_height _ _ _ _ (proj2 Hfo)). lia.
  - destruct (ev_view Hev l _ (HP l eq_refl) Hv) as (t' & d & Hv' & Hfo & Hd).
    rewrite (same_top_leaf _ _ _ _ (proj1 Hfo)) in Hv'. eapply rd_value; [exact Hv'|by apply seen_app].
  - constructor. by apply seen_app.
  - constructor. by apply seen_done_app.
Qed.

Lemma log_new : i ∉ (sh_log sh).*1 → i ∉ (sh_log sh').*1.
Proof. intros Hn. destruct Hne as [? | ->]; [|done]. by eapply ev_new. Qed.

Lemma inserter_stable k v g th :
  (g_mutex g = true → Q) → inserter_ok i k v sh g th → inserter_ok i k v sh' g th.
Proof.
  intros HQ H. destruct H as [| |n t Hn Hi|a n Hl Hp|ret Hl Hp|ret Hl]; cbn in HQ;
    try (destruct (ev_frozen Hev (HQ eq_refl)) as [HT HP]).
  1, 2: constructor; by apply log_new.
  - constructor; [by apply log_new|by rewrite HT, HP].
  - apply (ins_free _ _ _ _ _ _ a n); [by eapply ev_log|by rewrite HP].
  - constructor; [by eapply ev_log|by rewrite HP].
  - constructor. by eapply ev_log.
Qed.

Lemma cut_stable k f a v :
  (∀ k, calls !! j ≠ Some (Delete k)) → cut_ok i k sh f a v → cut_ok i k sh' f a v.
Proof.
  intros (Hph & Hg & Hsub)%(ev_rest Hev) [Ha Hf Hgb Hl Hw (t & Ht & Htop) Hk].
  split; [done..|by rewrite Hg|by eapply ev_log|done| |done].
  destruct (Hsub t Ht) as (t' & Ht' & Htop'). exists t'. split; [done|].
  destruct (f_sib f); [by rewrite (same_top_leaf _ _ _ _ Htop) in Htop'|].
  destruct (same_top_inner _ _ _ _ _ _ Htop) as (l & r & ->). exact Htop'.
Qed.

Lemma deleter_stable k g th :
  (∀ k, calls !! j ≠ Some (Delete k)) → (g_mutex g = true → Q) →
  deleter_ok i k sh g th → deleter_ok i k sh' g th.
Proof.
  intros Hj HQ H. pose proof (ev_rest Hev Hj) as (Hph & Hg & _).
  assert (∀ p, unlinked_ok i k sh p → unlinked_ok i k sh' p) as Hun.
  { intros p [Hn Hl|f a v Hcut]; [|econstructor; by apply cut_stable].
    constructor; [by rewrite Hg|by eapply ev_log]. }
  assert (∀ f a v, cut_ok i k sh f a v → cut_ok i k sh' f a v) as Hcut by (intros; by apply cut_stable).
  destruct H; cbn in HQ;
    try (destruct (ev_frozen Hev (HQ eq_refl)) as [HT _]);
    econstructor; rewrite ?Hph, ?Hg, ?HT; eauto;
    by apply log_new || by (eapply ev_log; [exact Hev|..]).
Qed.

Lemma thread_ok_stable c g th :
  (∀ k k', c = Delete k → sh' = sh ∨ calls !! j ≠ Some (Delete k')) →
  (∀ l, g_lock g = Some l → P l) → (g_mutex g = true → Q) →
  thread_ok i c s sh pend g th → thread_ok i c (s ++ [j]) sh' pend' g th.
Proof.
  intros Hdel HP HQ. destruct c as [k out|k v|k]; cbn.
  - by apply reader_stable.
  - by apply inserter_stable.
  - destruct (calls !! j) as [[k' ?|k' ?|k']|] eqn:Hj.
    3: { destruct (Hdel k k' eq_refl) as [-> |]; done. }
    all: by apply deleter_stable; [congruence|].
Qed.
End stable.

(** ** The memory of a configuration *)

Section memory.
Context (gs : list ghost) (sh : shared) (m : mem) (Hm : mem_ok gs sh m).
Let T := sh_tree sh.
Let ph := sh_phase sh.

Lemma mem_root : m !! root = Some (BRoot (set_head (ptr T) (root_of gs ph))).
Proof. destruct Hm as (fr' & _ & Ho). by eapply owns_lookup_hd. Qed.

Lemma mem_tree : holds m (cells T).
Proof. destruct Hm as (fr' & _ & Ho). by apply owns_holds, holds_cons in Ho as [_ ?]. Qed.

Lemma mem_garbage a b : (a, b) ∈ sh_garbage sh → m !! a = Some b.
Proof.
  destruct Hm as (fr' & Hg & Ho). intros Hin. eapply owns_frame; [exact Ho|].
  eapply owns_lookup; [exact Hg|]. apply elem_of_app. by left.
Qed.

Lemma mem_priv a b : (a, b) ∈ sh_priv sh → m !! a = Some b.
Proof.
  destruct Hm as (fr' & Hg & Ho). intros Hin. eapply owns_frame; [exact Ho|].
  eapply owns_lookup; [exact Hg|]. apply elem_of_app. by right.
Qed.

Lemma mem_store gs' sh' :
  sh_tree sh' = T → sh_garbage sh' = sh_garbage sh → sh_priv sh' = sh_priv sh →
  mem_ok gs' sh' (<[root := BRoot (set_head (ptr T) (root_of gs' (sh_phase sh')))]> m).
Proof.
  destruct Hm as (fr' & Hg & Ho). intros HT Hgb Hp. exists fr'. rewrite HT, Hgb, Hp. split; [done|].
  by eapply owns_store.
Qed.

Lemma mem_same gs' sh' :
  sh_tree sh' = T → sh_garbage sh' = sh_garbage sh → sh_priv sh' = sh_priv sh →
  root_of gs' (sh_phase sh') = root_of gs ph → mem_ok gs' sh' m.
Proof.
  intros HT Hgb Hp Hr. pose proof (mem_store gs' sh' HT Hgb Hp) as H. rewrite Hr in H.
  by rewrite insert_id in H by exact mem_root.
Qed.

Lemma mem_tree_in : wf T → tree_in root (to_map T) m.
Proof.
  intros Hwf. exists T, (set_head (ptr T) (root_of gs ph)).
  split_and!; [done..|exact mem_root|done|exact mem_tree].
Qed.

(** ** Lock calls on the root *)

Lemma get_rwlock_root l p : get_rwlock l (set_head p (root_of gs ph)) = lock_of c0 gs ph l.
Proof. by destruct l. Qed.

Lemma set_rwlock_root l gs' ph' p :
  total locks gs' = total locks gs → phase_cur c0 c1 ph' = phase_cur c0 c1 ph →
  phase_prev c0 c1 ph' = phase_prev c0 c1 ph →
  (∀ l', l' ≠ l → lock_of c0 gs' ph' l' = lock_of c0 gs ph l') →
  set_rwlock l (lock_of c0 gs' ph' l) (set_head p (root_of gs ph)) = set_head p (root_of gs' ph').
Proof.
  intros Hl Hcur Hprev Ho. unfold set_head, CritConc.root_of. cbn. rewrite Hl, Hcur, Hprev.
  destruct l; cbn; [rewrite (Ho right_lock) by done|rewrite (Ho left_lock) by done]; done.
Qed.

Lemma rdlock_step l :
  pthread_rwlock_rdlock root l m =
  if phase_writer c0 ph l then Blocked
  else Done (tt, <[root := BRoot (set_rwlock l (Rwlock (Z.of_nat (total (reads l) gs) + 1) false)
    (set_head (ptr T) (root_of gs ph)))]> m).
Proof.
  unfold pthread_rwlock_rdlock. erewrite bind_done by exact (load_root_at _ _ _ mem_root).
  cbn beta zeta. rewrite get_rwlock_root. cbn. destruct phase_writer; [done|].
  by apply store_root_at with (1 := mem_root).
Qed.

Lemma rdunlock_step l n :
  phase_writer c0 ph l = false → total (reads l) gs = S n →
  pthread_rwlock_unlock root l m =
  Done (tt, <[root := BRoot (set_rwlock l (Rwlock (Z.of_nat n) false)
    (set_head (ptr T) (root_of gs ph)))]> m).
Proof.
  intros Hw Hn. unfold pthread_rwlock_unlock.
  erewrite bind_done by exact (load_root_at _ _ _ mem_root). cbn beta zeta.
  rewrite get_rwlock_root. unfold lock_of. rewrite Hw, Hn. cbn [writer readers].
  destruct (Z.ltb_spec 0 (Z.of_nat (S n))); [|lia].
  replace (Z.of_nat (S n) - 1) with (Z.of_nat n) by lia.
  by apply store_root_at with (1 := mem_root).
Qed.
End memory.

(** The read locks when thread [i] takes or drops one. *)
Lemma lock_of_other gs i g g' ph l :
  gs !! i = Some g → g_lock g ≠ Some l → g_lock g' ≠ Some l →
  lock_of c0 (<[i := g']> gs) ph l = lock_of c0 gs ph l.
Proof.
  intros Hi H1 H2. unfold lock_of. rewrite (total_same _ _ _ g) by (done || (unfold reads; by rewrite !decide_False)). done.
Qed.

(** ** Where readers can be *)

Lemma glob_view gs sh m l t :
  glob gs sh m → in_view sh l t → wf t ∧ holds m (cells t).
Proof.
  intros Hg [Ht|(-> & N & HN & Ht)].
  - split; [by eapply subtree_wf, Ht; apply Hg|].
    eapply subtree_holds, Ht. eapply mem_tree. apply Hg.
  - destruct (gl_limbo Hg N HN) as (_ & Hwf & f & a & k & v & -> & Hs & Hgb).
    split; [by eapply subtree_wf, Ht|]. eapply subtree_holds, Ht.
    assert (Hmem := gl_mem Hg).
    intros a' b' Hin. rewrite cells_plug1 in Hin.
    apply elem_of_cons in Hin as [Heq|[Hin|Hin]%elem_of_app].
    + simplify_eq. eapply mem_garbage; [done|]. rewrite Hgb. right. by left.
    + eapply subtree_holds; [eapply mem_tree, Hmem|exact Hs|done].
    + apply list_elem_of_singleton in Hin. simplify_eq. eapply mem_garbage; [done|]. rewrite Hgb.
      by left.
Qed.

Lemma view_child sh l a b ob tl tr (d : bool) :
  in_view sh l (Inner a b ob tl tr) → in_view sh l (if d then tr else tl).
Proof.
  intros [H|(-> & N & HN & H)]; [left|right; split; [done|exists N; split; [done|]]];
    by eapply subtree_child.
Qed.

Lemma knows_child i s k a b ob tl tr :
  wf (Inner a b ob tl tr) → knows i s k (Inner a b ob tl tr) →
  knows i s k (if kbit k (crit_index b ob) then tr else tl).
Proof.
  intros (_ & _ & _ & _ & _ & Hl & Hr & _) [Hin Hout]. split.
  - intros v Hv. apply Hin. cbn. apply elem_of_app. case_match; auto.
  - destruct Hout as [Hk|]; [left|by right]. rewrite keys_inner, elem_of_app in Hk.
    destruct Hk as [Hk|Hk]; [rewrite (Hl k Hk)|rewrite (Hr k Hk)]; done.
Qed.

Lemma knows_leaf i s k a k' v :
  knows i s k (Leaf a k' v) → if decide (k' = k) then seen i s k (Some v) else seen i s k None.
Proof.
  intros [Hin Hout]. case_decide as Hk.
  - subst. apply Hin. by apply list_elem_of_singleton.
  - destruct Hout as [Hi|]; [|done]. apply list_elem_of_singleton in Hi. by subst.
Qed.

(** ** One step of a thread *)

Definition others (gs : list ghost) (i : nat) (l : lock_id) : Prop :=
  ∃ j h, j ≠ i ∧ gs !! j = Some h ∧ g_lock h = Some l.
Definition other_holds (gs : list ghost) (i : nat) : Prop :=
  ∃ j h, j ≠ i ∧ gs !! j = Some h ∧ g_mutex h = true.

Lemma holder_alone (gs : list ghost) (i : nat) (g : ghost) :
  (total locks gs ≤ 1)%nat → gs !! i = Some g → g_mutex g = true → ¬ other_holds gs i.
Proof.
  intros Hl Hi Hm (j & h & Hne & Hj & Hh). pose proof (total_two locks gs j i h g Hne Hj Hi) as H.
  unfold locks in H at 1 2. rewrite Hm, Hh in H. lia.
Qed.

(** Why a thread may have to wait: somebody else holds the mutex, the deleter
    is inside a read lock as a writer, or it waits for a reader. *)
Definition waits (gs : list ghost) (sh : shared) (g : ghost) : Prop :=
  g_lock g = None ∧
  ((g_mutex g = false ∧ (phase_busy (sh_phase sh) ∨ (0 < total locks gs)%nat)) ∨
   ∃ j h l, gs !! j = Some h ∧ g_lock h = Some l).

Variant step_ok (i : nat) (c : call) (s : list nat) (gs : list ghost) (sh : shared) (m : mem)
    (g : ghost) : thread (Z * Z) → Prop :=
  | step_done res :
      g_lock g = None → g_mutex g = false → step_ok i c s gs sh m g (Ret res)
  | step_waits th :
      advance th m = Blocked → waits gs sh g → step_ok i c s gs sh m g th
  | step_moves th th' m' g' sh' :
      let gs' := <[i := g']> gs in
      advance th m = Done (th', m') → glob gs' sh' m' →
      (now (s ++ [i]) (to_map (sh_tree sh')) →
        thread_ok i c (s ++ [i]) sh' (total g_pend gs') g' th') →
      evolves i (others gs i) (other_holds gs i) sh (total g_pend gs) sh' (total g_pend gs') →
      (g_left g' < g_left g)%nat → step_ok i c s gs sh m g th.

Lemma holder_stays (gs : list ghost) (i j : nat) (g g' h : ghost) :
  gs !! i = Some g → g_mutex g' = g_mutex g → gs !! j = Some h → g_mutex h = true →
  ∃ h', <[i := g']> gs !! j = Some h' ∧ g_mutex h' = true.
Proof.
  intros Hi Hmu Hj Hh. destruct (decide (i = j)) as [<-|Hne].
  - exists g'. rewrite list_lookup_insert_eq by (by eapply lookup_lt_Some). split; [done|]. congruence.
  - exists h. by rewrite list_lookup_insert_ne.
Qed.

(** A step that changes neither the tree nor the phase, and the mutex and the
    count of insertions to come not at all: at most the read locks. *)
Lemma glob_locks gs sh m i g g' m' :
  gs !! i = Some g → g_mutex g' = g_mutex g → g_pend g' = g_pend g →
  (sh_phase sh = Writing → total (reads c0) (<[i := g']> gs) = O) →
  (sh_phase sh = Before → total (reads c1) (<[i := g']> gs) = O) →
  glob gs sh m → mem_ok (<[i := g']> gs) sh m' → glob (<[i := g']> gs) sh m'.
Proof.
  intros Hi Hmu Hp Hw H1 [Hwf Hmem Hlog Hmut Hf Hli Hb _ _ Hk Hcl Hpr] Hmem'.
  split; [done..| | |done| |done|done|done|done|].
  - rewrite (total_same _ _ _ g); [done..|]. unfold locks. by rewrite Hmu.
  - by rewrite (total_same _ _ _ g).
  - intros (j & k & h & Hj & Hgj & Hm)%Hb. destruct (holder_stays gs i j g g' h) as (h' & Hj' & Hh'); [done..|].
    by exists j, k, h'.
  - intros (j & k & v & h & Hj & Hgj & Hm)%Hpr.
    destruct (holder_stays gs i j g g' h) as (h' & Hj' & Hh'); [done..|]. by exists j, k, v, h'.
Qed.

Lemma root_of_same gs i g g' ph :
  gs !! i = Some g → g_lock g' = g_lock g → g_mutex g' = g_mutex g →
  root_of (<[i := g']> gs) ph = root_of gs ph.
Proof.
  intros Hi Hl Hm. unfold CritConc.root_of, lock_of.
  rewrite !(total_same _ gs i g g' Hi); [done|..]; unfold reads, locks; by rewrite ?Hl, ?Hm.
Qed.

Lemma glob_local gs sh m i g g' :
  gs !! i = Some g → g_lock g' = g_lock g → g_mutex g' = g_mutex g → g_pend g' = g_pend g →
  glob gs sh m → glob (<[i := g']> gs) sh m.
Proof.
  intros Hi Hl Hm Hp Hg. assert (∀ l, total (reads l) (<[i := g']> gs) = total (reads l) gs) as Hr.
  { intros l. apply (total_same _ _ _ g); [done|]. unfold reads. by rewrite Hl. }
  apply (glob_locks gs sh m i g); [done..| | |done|].
  { rewrite Hr. apply (gl_writing Hg). }
  { rewrite Hr. apply (gl_before Hg). }
  eapply mem_same; [apply Hg|done..|by eapply root_of_same].
Qed.

(** ** Readers *)

Section reader.
Context (i : nat) (k : list Z) (Hk : key_ok k) (out : Z) (s : list nat).
Context (gs : list ghost) (sh : shared) (m : mem) (Hg : glob gs sh m).
Let ok := step_ok i (Get k out) s gs sh m.

Lemma reader_local g g' th th' :
  gs !! i = Some g → g_lock g' = g_lock g → g_mutex g' = g_mutex g → g_pend g' = g_pend g →
  (g_left g' < g_left g)%nat → advance th m = Done (th', m) →
  (now (s ++ [i]) (to_map (sh_tree sh)) →
    reader_ok i k out (s ++ [i]) sh (total g_pend gs) g' th') →
  ok g th.
Proof.
  intros Hi Hl Hm Hp Hle Hrun Hok. eapply (step_moves _ _ _ _ _ _ _ th th' m g' sh).
  - done.
  - by apply (glob_local gs sh m i g).
  - cbn. by rewrite (total_same _ _ _ g).
  - rewrite (total_same _ _ _ g) by done. apply evolves_same.
  - done.
Qed.

(** The next step is a local one, after which the thread has the ghost [g]. *)
Local Ltac local_to Hi g :=
  eapply (reader_local _ g); [exact Hi|done|done|done|cbn; lia| |].

Lemma reader_rdlock l :
  (sh_phase sh = Before → l = c0) →
  gs !! i = Some (Ghost None false 0 (2 * fuel + 5)) →
  ok (Ghost None false 0 (2 * fuel + 5)) (get_lock root fuel k out l).
Proof.
  intros Hl0 Hi. pose proof (gl_mem Hg) as Hm. pose proof (rdlock_step _ _ _ Hm l) as Hrun.
  destruct (phase_writer c0 (sh_phase sh) l) eqn:Hw.
  { apply step_waits; [by apply advance_blocked|]. split; [done|]. left. split; [done|]. left.
    right. by destruct (sh_phase sh). }
  set (g' := Ghost (Some l) false 0 (2 * fuel + 4)).
  assert (lock_of c0 (<[i := g']> gs) (sh_phase sh) l =
    Rwlock (Z.of_nat (total (reads l) gs) + 1) false) as Hl.
  { unfold lock_of. pose proof (total_update (reads l) gs i _ g' Hi) as Ht.
    subst g'. rewrite reads_some, reads_none in Ht. rewrite Hw. f_equal. lia. }
  rewrite <-Hl, set_rwlock_root in Hrun.
  - eapply (step_moves _ _ _ _ _ _ _ _ _ _ g' sh).
    + by apply advance_done.
    + eapply glob_locks; [exact Hi|done|done| | |done|by apply (mem_store gs sh m Hm)].
      * intros Hph. rewrite Hph in Hw. cbn in Hw. apply bool_decide_eq_false in Hw.
        rewrite (total_same _ _ _ _ _ Hi); [by apply (gl_writing Hg)|].
        unfold reads. cbn. rewrite !decide_False by congruence. done.
      * intros Hph. rewrite (total_same _ _ _ _ _ Hi); [by apply (gl_before Hg)|].
        specialize (Hl0 Hph). unfold reads. cbn. rewrite !decide_False by congruence. done.
    + intros _. apply rd_head.
    + rewrite (total_same _ _ _ _ _ Hi) by done. apply evolves_same.
    + cbn. lia.
  - by apply (total_same _ _ _ _ _ Hi).
  - done.
  - done.
  - intros l' Hne. eapply lock_of_other; [exact Hi|done|]. cbn. congruence.
Qed.

Lemma reader_head l :
  gs !! i = Some (Ghost (Some l) false 0 (2 * fuel + 4)) →
  ok (Ghost (Some l) false 0 (2 * fuel + 4)) (get_head root fuel k out l).
Proof.
  intros Hi. pose proof (gl_mem Hg) as Hm. pose proof (gl_wf Hg) as Hwf.
  local_to Hi (Ghost (Some l) false 0 (2 * fuel + 3)).
  { apply advance_done. cbn. by erewrite bind_done by exact (load_root_at _ _ _ (mem_root _ _ _ Hm)). }
  intros Hnow. assert (i ∈ s ++ [i]) as Hs by (apply elem_of_app; right; by left).
  apply rd_walk; [done|left; apply subtree_refl| |apply (gl_fuel Hg)]. split.
  - intros v Hv. apply to_map_lookup in Hv; [|done]. rewrite <-Hv. by apply seen_now.
  - destruct (decide (k ∈ keys (sh_tree sh))) as [|Hn]; [by left|right].
    apply to_map_None in Hn. rewrite <-Hn. by apply seen_now.
Qed.

Lemma reader_cmp l f t :
  is_leaf t = true → i ∈ s → in_view sh l t → knows i s k t →
  gs !! i = Some (Ghost (Some l) false 0 (2 * f + 3)) →
  ok (Ghost (Some l) false 0 (2 * f + 3)) (get_cmp root k out l (ptr t)).
Proof.
  destruct t as [a k' v|]; [|done]. intros _ Hs Hv Hkn Hi.
  destruct (glob_view gs sh m l _ Hg Hv) as [[Ha [Hnk' _]] Hh].
  assert (m !! a = Some (BString v (cstr k'))) as Hblk by (apply Hh; by left).
  destruct (strcmp_cstr k' k Hnk' (proj1 Hk)) as (d & Hd & Hiff).
  pose proof (knows_leaf _ _ _ _ _ _ Hkn) as Hseen.
  assert (advance (get_cmp root k out l (ptr (Leaf a k' v))) m =
    Done (if decide (k' = k) then get_value root l (a + PTR_SIZE)
          else get_end root l (1, out), m)) as Hrun.
  { unfold get_cmp. erewrite advance_done.
    2:{ erewrite bind_done by (eapply load_chars_at, Hblk). by rewrite Hd. }
    do 2 f_equal. case_decide as Heq.
    - by rewrite (proj2 Hiff Heq).
    - destruct (Z.eqb_spec d 0) as [H0|_]; [by apply Hiff in H0|done]. }
  case_decide as Heq.
  - subst k'. local_to Hi (Ghost (Some l) false 0 2); [exact Hrun|].
    intros _. eapply rd_value; [exact Hv|by apply seen_app].
  - local_to Hi (Ghost (Some l) false 0 1); [exact Hrun|].
    intros _. apply (rd_end _ _ _ _ _ _ _ _ _ _ _ l None). by apply seen_app.
Qed.

Lemma reader_walk l f t :
  i ∈ s → in_view sh l t → knows i s k t → (height t + total g_pend gs < f)%nat →
  gs !! i = Some (Ghost (Some l) false 0 (2 * f + 3)) →
  ok (Ghost (Some l) false 0 (2 * f + 3)) (get_walk root k out l f (ptr t)).
Proof.
  intros Hs Hv Hkn Hf Hi. destruct (glob_view gs sh m l _ Hg Hv) as [Hwf Hh].
  destruct f as [|f]; [lia|]. unfold get_walk. cbn [find_nearest_thread].
  rewrite IS_INTERNAL_ptr by done.
  destruct t as [a k' v|a b ob tl tr]; [by eapply reader_cmp|]. cbn [is_leaf negb ptr].
  pose proof Hwf as (Ha & _). rewrite TO_NODE_FROM_NODE by done.
  apply holds_inner in Hh as (Hn & _).
  local_to Hi (Ghost (Some l) false 0 (2 * f + 4)).
  { apply advance_done2. erewrite bind_done by (eapply load_node_at, Hn). cbn beta.
       rewrite keylen_u64, (inner_direction k Hk a) by done. by rewrite lift_done. }
  intros _. apply (rd_child _ _ _ _ _ _ _ _ _ _ _ l f a b ob tl tr); [|done| |done].
  - apply elem_of_app. by left.
  - destruct Hkn as [Hin Hout]. split; [intros; by apply seen_app, Hin|].
    destruct Hout; [by left|right; by apply seen_app].
Qed.

Lemma reader_child l f a b ob tl tr :
  i ∈ s → in_view sh l (Inner a b ob tl tr) → knows i s k (Inner a b ob tl tr) →
  (height (Inner a b ob tl tr) + total g_pend gs < S f)%nat →
  gs !! i = Some (Ghost (Some l) false 0 (2 * f + 4)) →
  ok (Ghost (Some l) false 0 (2 * f + 4))
    (get_child root k out l f a (of_bool (kbit k (crit_index b ob)))).
Proof.
  intros Hs Hv Hkn Hf Hi. destruct (glob_view gs sh m l _ Hg Hv) as [Hwf Hh].
  apply holds_inner in Hh as (Hn & _). set (d := kbit k (crit_index b ob)).
  local_to Hi (Ghost (Some l) false 0 (2 * f + 3)).
  { apply advance_done2. cbn. erewrite bind_done by (eapply load_node_at, Hn). cbn beta.
       rewrite child_bool. by rewrite lift_done. }
  cbn [child0 child1]. intros _.
  replace (if d then ptr tr else ptr tl) with (ptr (if d then tr else tl)) by (by destruct d).
  apply rd_walk.
  - apply elem_of_app. by left.
  - by eapply view_child.
  - apply (knows_child _ _ _ _ _ _ _ _ Hwf) in Hkn as [Hin Hout].
    split; [intros; by apply seen_app, Hin|]. destruct Hout; [by left|right; by apply seen_app].
  - cbn in Hf. destruct d; lia.
Qed.

Lemma reader_value l a v :
  in_view sh l (Leaf a k v) → seen i s k (Some v) → gs !! i = Some (Ghost (Some l) false 0 2) →
  ok (Ghost (Some l) false 0 2) (get_value root l (a + PTR_SIZE)).
Proof.
  intros Hv Hseen Hi. destruct (glob_view gs sh m l _ Hg Hv) as [_ Hh].
  local_to Hi (Ghost (Some l) false 0 1).
  { apply advance_done2. eapply load_value_at, Hh. by left. }
  intros _. apply (rd_end _ _ _ _ _ _ _ _ _ _ _ l (Some v)). by apply seen_app.
Qed.

Lemma reader_end l o :
  seen i s k o → gs !! i = Some (Ghost (Some l) false 0 1) →
  ok (Ghost (Some l) false 0 1) (get_end root l (lookup_result o out)).
Proof.
  intros Hseen Hi. pose proof (gl_mem Hg) as Hm. set (g' := Ghost None false 0 0).
  pose proof (total_update (reads l) gs i _ g' Hi) as Ht.
  subst g'. rewrite reads_some, reads_none in Ht. set (g' := Ghost None false 0 0) in *.
  assert (phase_writer c0 (sh_phase sh) l = false) as Hw.
  { destruct (sh_phase sh) eqn:Hph; try done. cbn. apply bool_decide_eq_false. intros ->.
    pose proof (gl_writing Hg Hph). lia. }
  pose proof (rdunlock_step _ _ _ Hm l (total (reads l) (<[i := g']> gs)) Hw ltac:(lia)) as Hrun.
  assert (lock_of c0 (<[i := g']> gs) (sh_phase sh) l =
    Rwlock (Z.of_nat (total (reads l) (<[i := g']> gs))) false) as Hl by (unfold lock_of; by rewrite Hw).
  rewrite <-Hl, set_rwlock_root in Hrun.
  - eapply (step_moves _ _ _ _ _ _ _ _ _ _ g' sh).
    + by apply advance_done.
    + assert (∀ l', total (reads l') gs = O → total (reads l') (<[i := g']> gs) = O) as Hdrop.
      { intros l' H0. pose proof (total_update (reads l') gs i _ g' Hi) as H1.
        unfold g' in H1 at 2. rewrite reads_none in H1. lia. }
      eapply glob_locks; [exact Hi|done|done| | |done|by apply (mem_store gs sh m Hm)];
        intros Hph; apply Hdrop; [by apply (gl_writing Hg)|by apply (gl_before Hg)].
    + intros _. apply (rd_done _ _ _ _ _ _ _ _ _ _ _ o). by apply seen_finish.
    + rewrite (total_same _ _ _ _ _ Hi) by done. apply evolves_same.
    + cbn. lia.
  - by apply (total_same _ _ _ _ _ Hi).
  - done.
  - done.
  - intros l' Hne. eapply lock_of_other; [exact Hi| |done]. cbn. congruence.
Qed.

Lemma reader_step g th :
  gs !! i = Some g → reader_ok i k out s sh (total g_pend gs) g th → ok g th.
Proof.
  intros Hi H. destruct H as [| |l Hl|l|l f t|l f a b ob tl tr|l a v|l o|o].
  - local_to Hi (Ghost None false 0 (2 * fuel + 6)).
    { apply advance_done. rewrite (strlen_cstr _ (proj1 Hk)). apply lift_done. }
    intros _. apply rd_cur.
  - local_to Hi (Ghost None false 0 (2 * fuel + 5)).
    { apply advance_done.
         by erewrite bind_done by exact (load_root_at _ _ _ (mem_root _ _ _ (gl_mem Hg))). }
    intros _. apply rd_lock. cbn. by intros ->.
  - by apply reader_rdlock.
  - by apply reader_head.
  - by apply reader_walk.
  - by eapply reader_child.
  - by eapply reader_value.
  - by apply reader_end.
  - by apply step_done.
Qed.
End reader.

(** ** The mutex *)

Lemma glob_idle_update gs gs' sh m m' :
  ¬ phase_busy (sh_phase sh) → sh_priv sh = [] → (total locks gs' ≤ 1)%nat → total g_pend gs' = total g_pend gs →
  (∀ l, total (reads l) gs' = total (reads l) gs) → glob gs sh m → mem_ok gs' sh m' → glob gs' sh m'.
Proof.
  intros Hn Hpr Hl Hp Hr [Hwf Hmem Hlog Hmut Hf Hli Hb _ H1 Hk Hcl _] Hmem'.
  split; [done..| |done| | | |done|done|done].
  - by rewrite Hp.
  - intros Hbusy. by apply Hn in Hbusy.
  - intros Hw. destruct Hn. by right.
  - by rewrite Hr.
Qed.

(** The mutex is free, or whoever holds it is not this thread. *)
Lemma idle_of_free gs sh m : glob gs sh m → total locks gs = O → ¬ phase_busy (sh_phase sh).
Proof.
  intros Hg Hl (j & k & h & _ & Hj & Hm)%(gl_busy Hg).
  pose proof (total_ge locks gs j h Hj) as H. unfold locks in H at 1. rewrite Hm in H. lia.
Qed.

Lemma priv_of_free gs sh m : glob gs sh m → total locks gs = O → sh_priv sh = [].
Proof.
  intros Hg Hl. destruct (decide (sh_priv sh = [])) as [|Hn]; [done|].
  destruct (gl_priv Hg Hn) as (j & k & v & h & _ & Hj & Hm).
  pose proof (total_ge locks gs j h Hj) as H. unfold locks in H at 1. rewrite Hm in H. lia.
Qed.

Lemma priv_of_deleter gs sh m i k g :
  glob gs sh m → calls !! i = Some (Delete k) → gs !! i = Some g → g_mutex g = true → sh_priv sh = [].
Proof.
  intros Hg Hci Hi Hm. destruct (decide (sh_priv sh = [])) as [|Hn]; [done|].
  destruct (gl_priv Hg Hn) as (j & k' & v & h & Hcj & Hj & Hmj).
  destruct (holder_alone gs i g (gl_mutex Hg) Hi Hm). exists j, h. split; [congruence|done].
Qed.

Lemma idle_of_holder gs sh m i g :
  glob gs sh m → gs !! i = Some g → g_mutex g = true → (∀ k, calls !! i ≠ Some (Delete k)) →
  ¬ phase_busy (sh_phase sh).
Proof.
  intros Hg Hi Hm Hn (j & k & h & Hj & Hgj & Hmj)%(gl_busy Hg).
  assert (i ≠ j) as Hne by (intros ->; by eapply Hn).
  pose proof (total_two locks gs i j g h Hne Hi Hgj) as H. unfold locks in H at 1 2.
  rewrite Hm, Hmj in H. pose proof (gl_mutex Hg). lia.
Qed.

Section mutex.
Context (i : nat) (c : call) (s : list nat) (gs : list ghost) (sh : shared) (m : mem).
Context (Hg : glob gs sh m) (p n : nat).

Lemma root_of_wlock b b' n' ph :
  gs !! i = Some (Ghost None b p n) →
  (0 <? Z.of_nat (total locks (<[i := Ghost None b' p n']> gs))) = b' →
  set_wlock b' (set_head (ptr (sh_tree sh)) (root_of gs ph)) =
  set_head (ptr (sh_tree sh)) (root_of (<[i := Ghost None b' p n']> gs) ph).
Proof.
  intros Hi Hb. unfold CritConc.root_of, lock_of, set_wlock, set_head. cbn. rewrite Hb.
  by rewrite !(total_same (reads _) gs i _ _ Hi) by (by rewrite !reads_none).
Qed.

Lemma mutex_lock_step n' (k : unit → thread (Z * Z)) :
  gs !! i = Some (Ghost None false p n) → (n' < n)%nat →
  (∀ s' pend, ¬ phase_busy (sh_phase sh) → sh_priv sh = [] →
    thread_ok i c s' sh pend (Ghost None true p n') (k tt)) →
  ∀ th, (∀ b m', pthread_mutex_lock root m = Done (b, m') → advance th m = Done (k tt, m')) →
  (pthread_mutex_lock root m = Blocked → advance th m = Blocked) →
  step_ok i c s gs sh m (Ghost None false p n) th.
Proof.
  intros Hi Hn Hok th Hgo Hstop. pose proof (gl_mem Hg) as Hm.
  assert (pthread_mutex_lock root m = if 0 <? Z.of_nat (total locks gs) then Blocked
    else Done (tt, <[root := BRoot (set_wlock true (set_head (ptr (sh_tree sh))
      (root_of gs (sh_phase sh))))]> m)) as Hlock.
  { unfold pthread_mutex_lock. erewrite bind_done by exact (load_root_at _ _ _ (mem_root _ _ _ Hm)).
    cbn beta. cbn [wlock set_head CritConc.root_of]. destruct (_ <? _); [done|].
    by apply store_root_at with (1 := mem_root _ _ _ Hm). }
  destruct (Z.ltb_spec 0 (Z.of_nat (total locks gs))) as [Hpos|H0].
  { apply step_waits; [by apply Hstop|]. split; [done|]. left. split; [done|]. right. lia. }
  assert (total locks gs = O) as Hz by lia. pose proof (idle_of_free _ _ _ Hg Hz) as Hidle.
  pose proof (priv_of_free _ _ _ Hg Hz) as Hpr.
  set (g' := Ghost None true p n').
  pose proof (total_update locks gs i _ g' Hi) as Ht. cbn in Ht.
  rewrite (root_of_wlock false true n') in Hlock; [|done|].
  2: { fold g'. destruct (Z.ltb_spec 0 (Z.of_nat (total locks (<[i := g']> gs)))); [done|lia]. }
  eapply (step_moves _ _ _ _ _ _ _ _ _ _ g' sh).
  - by eapply Hgo.
  - eapply (glob_idle_update gs); [done|done|lia| | |done|by apply (mem_store gs sh m Hm)].
    + by apply (total_same _ _ _ _ _ Hi).
    + intros l. apply (total_same _ _ _ _ _ Hi). by rewrite !reads_none.
  - intros _. by apply Hok.
  - rewrite (total_same _ _ _ _ _ Hi) by done. apply evolves_same.
  - done.
Qed.

Lemma mutex_unlock_step n' (k : unit → thread (Z * Z)) :
  gs !! i = Some (Ghost None true p n) → (n' < n)%nat → ¬ phase_busy (sh_phase sh) → sh_priv sh = [] →
  (∀ s' pend, thread_ok i c s' sh pend (Ghost None false p n') (k tt)) →
  ∀ th, (∀ m', pthread_mutex_unlock root m = Done (tt, m') → advance th m = Done (k tt, m')) →
  step_ok i c s gs sh m (Ghost None true p n) th.
Proof.
  intros Hi Hn Hidle Hpr Hok th Hgo. pose proof (gl_mem Hg) as Hm. pose proof (gl_mutex Hg) as H1.
  set (g' := Ghost None false p n').
  pose proof (total_update locks gs i _ g' Hi) as Ht. cbn in Ht.
  assert (pthread_mutex_unlock root m = Done (tt, <[root := BRoot (set_wlock false
    (set_head (ptr (sh_tree sh)) (root_of gs (sh_phase sh))))]> m)) as Hlock.
  { unfold pthread_mutex_unlock. erewrite bind_done by exact (load_root_at _ _ _ (mem_root _ _ _ Hm)).
    cbn beta. cbn [wlock set_head CritConc.root_of]. destruct (Z.ltb_spec 0 (Z.of_nat (total locks gs))); [|lia].
    by apply store_root_at with (1 := mem_root _ _ _ Hm). }
  rewrite (root_of_wlock true false n') in Hlock; [|done|].
  2: { fold g'. destruct (Z.ltb_spec 0 (Z.of_nat (total locks (<[i := g']> gs)))); [lia|done]. }
  eapply (step_moves _ _ _ _ _ _ _ _ _ _ g' sh).
  - by eapply Hgo.
  - eapply (glob_idle_update gs); [done|done|lia| | |done|by apply (mem_store gs sh m Hm)].
    + by apply (total_same _ _ _ _ _ Hi).
    + intros l. apply (total_same _ _ _ _ _ Hi). by rewrite !reads_none.
  - intros _. by apply Hok.
  - rewrite (total_same _ _ _ _ _ Hi) by done. apply evolves_same.
  - done.
Qed.
End mutex.
End steps.
