(* ===== verification/CritInserter.v ===== *)
(** * CritInserter: the steps of an inserter

    [critbit_insert] as a thread that holds the mutex: the walk to the nearest
    leaf, the comparison, the two allocations, the walk to the place of the new
    node and the store that publishes it.  Nobody else changes the tree in the
    meantime, and nobody else sees the new blocks before the last of these
    steps, which is the moment of the insertion; a call that is refused is
    decided when it has compared the keys or been denied memory. *)

From S2P Require Import Prelude.
From S2P Require Import KeyBits.
From S2P Require Import Critbit.
From S2P Require Import CritTree.
From S2P Require Import Own.
From S2P Require Import CritMem.
From S2P Require Import CritbitProofs.
From S2P Require Import CritbitMap.
From S2P Require Import Threads.
From S2P Require Import CritThreads.
From S2P Require Import CritView.
From S2P Require Import CritConc.
From S2P Require Import CritSteps.

Section inserter.
Context {MA : Malloc} {MS : MallocSpec MA}.
Context (root : Z) (fr : mem) (fuel : nat) (calls : list call) (c0 c1 : lock_id) (Hc : c0 ≠ c1).
Context (m0 : mem) (M0 : gmap (list Z) Z) (k0 : list Z).

Notation now := (now root fuel calls m0).
Notation root_of := (root_of c0 c1).
Notation mem_ok := (mem_ok root fr c0 c1).
Notation inserter_ok := (inserter_ok root fuel).
Notation inserting := (inserting root fuel).
Notation insert_ctx := (insert_ctx root).
Notation thread_ok := (thread_ok root fuel calls c0 c1 m0).
Notation glob := (glob root fr fuel calls c0 c1 M0 k0).
Notation evolves := (evolves calls c0).
Notation step_ok := (step_ok root fr fuel calls c0 c1 m0 M0 k0).

(** All blocks of a configuration, those of the thread in front. *)
Definition all_cells (gs : list ghost) (sh : shared) : list (Z * block) :=
  sh_priv sh ++ sh_garbage sh ++ root_cells root (root_of gs (sh_phase sh)) (sh_tree sh).

Lemma mem_ok_iff gs sh m : mem_ok gs sh m ↔ owns (all_cells gs sh) fr m.
Proof.
  unfold all_cells. rewrite app_assoc, (Permutation_app_comm (sh_priv sh)). split.
  - intros (fr' & H1 & H2). by eapply owns_join.
  - intros (fr' & H1 & H2)%owns_split. by exists fr'.
Qed.

Lemma advance_ctx {B} (c : cmd mem B) (f : B → thread Z) m b m' :
  c m = Done (b, m') → advance (insert_ctx (atomic c ≫= f)) m = Done (insert_ctx (f b), m').
Proof. intros H. exact (advance_done c (λ b, insert_ctx (f b)) m b m' H). Qed.

Context (i : nat) (k : list Z) (v : Z) (Hk : key_ok k) (s : list nat).
Context (Hcall : calls !! i = Some (Insert k v)).
Context (gs : list ghost) (sh : shared) (m : mem) (Hg : glob gs sh m).
Let ok := step_ok i (Insert k v) s gs sh m.
Let T := sh_tree sh.
Let pr := sh_priv sh.
Let key := cstr k.
Let len := Z.of_nat (length k).
Let root_block := root_of gs (sh_phase sh).
Local Notation holding p n := (Ghost None true p n).
(** The state after a step that has changed the tree, the log and the blocks
    of the thread. *)
Local Notation next T' log pr' := (Shared T' log (sh_phase sh) (sh_limbo sh) (sh_garbage sh) pr').

Lemma holder_idle p n : gs !! i = Some (holding p n) → ¬ phase_busy (sh_phase sh).
Proof. intros Hi. eapply idle_of_holder; [exact Hg|exact Hi|done|]. intros k'. by rewrite Hcall. Qed.

Lemma holder_alone_here p n : gs !! i = Some (holding p n) → ¬ other_holds gs i.
Proof. intros Hi. by eapply holder_alone; [apply (gl_mutex Hg)|exact Hi|]. Qed.

(** A step that leaves the tree and the log as they are. *)
Lemma inserter_moves p n n' t t' m' pr' :
  gs !! i = Some (holding p n) → (n' < n)%nat → advance (insert_ctx t) m = Done (insert_ctx t', m') →
  owns (pr' ++ sh_garbage sh ++ root_cells root root_block T) fr m' →
  inserter_ok i k v (next T (sh_log sh) pr') (holding p n') (insert_ctx t') →
  ok (holding p n) (insert_ctx t).
Proof.
  intros Hi Hn Hrun Ho Hok. set (g' := holding p n').
  eapply step_moves with (th' := insert_ctx t') (m' := m') (g' := g') (sh' := next T (sh_log sh) pr').
  - exact Hrun.
  - pose proof Hg as [Hwf Hmem Hlog Hmut Hf Hlim _ Hw H1 Hkeep Hcl _].
    assert (∀ l, total (reads l) (<[i := g']> gs) = total (reads l) gs) as Hr.
    { intros l. by apply (total_same _ _ _ _ _ Hi). }
    split; cbn [sh_tree sh_log sh_phase sh_limbo sh_garbage sh_priv]; rewrite ?Hr; try done.
    + apply mem_ok_iff. unfold all_cells. cbn [sh_tree sh_phase sh_garbage sh_priv].
      rewrite (root_of_same _ _ gs i _ g' _ Hi) by done. exact Ho.
    + by rewrite (total_same _ _ _ _ _ Hi).
    + by rewrite (total_same _ _ _ _ _ Hi).
    + by intros ?%(holder_idle p n Hi).
    + intros _. exists i, k, v, g'. rewrite list_lookup_insert_eq by (by eapply lookup_lt_Some). done.
  - intros _. exact Hok.
  - rewrite (total_same _ _ _ _ _ Hi) by done. split; [|done|done|done|..].
    + intros l u _ Hu. exists u, O. split_and!; [exact Hu|apply follows_refl|lia].
    + intros _. split_and!; [done..|]. intros u Hu. exists u. split; [done|apply same_top_refl].
    + by intros ?%(holder_alone_here p n Hi).
  - done.
Qed.

(** A step that only reads. *)
Lemma inserter_reads {B} n n' (c : cmd mem B) (f : B → thread Z) b t' :
  gs !! i = Some (holding 1 n) → i ∉ (sh_log sh).*1 → c m = Done (b, m) → f b = t' →
  inserting k v T pr n' t' → (n' < n)%nat → ok (holding 1 n) (insert_ctx (atomic c ≫= f)).
Proof.
  intros Hi Hnew Hrun <- Ht Hn. eapply inserter_moves; [exact Hi|exact Hn|by apply advance_ctx| |].
  - apply mem_ok_iff. apply Hg.
  - by apply ins_body.
Qed.

(** A step that decides the call: the tree becomes [T'], the call is logged. *)
Lemma inserter_decides n n' T' ret d t t' m' pr' :
  gs !! i = Some (holding 1 n) → (n' < n)%nat → advance (insert_ctx t) m = Done (insert_ctx t', m') →
  owns (pr' ++ sh_garbage sh ++ root_cells root root_block T') fr m' →
  inserter_ok i k v (next T' ((i, ret) :: sh_log sh) pr') (holding 0 n') (insert_ctx t') →
  wf T' → writes calls M0 ((i, ret) :: sh_log sh) (to_map T') → (d ≤ 1)%nat →
  (height T' ≤ d + height T)%nat → k0 ∈ keys T' →
  (∀ u, subtree u T → ∃ u', subtree u' T' ∧ follows T' d u u') →
  ok (holding 1 n) (insert_ctx t).
Proof.
  intros Hi Hn Hrun Ho Hok Hwf Hlog Hd Hh Hkeep Hsub. set (g' := holding 0 n').
  set (sh' := next T' ((i, ret) :: sh_log sh) pr').
  assert (∀ N, sh_limbo sh ≠ Some N) as Hlimbo.
  { intros N HN. apply (holder_idle _ _ Hi). left. apply (gl_limbo Hg N HN). }
  pose proof (total_update g_pend gs i _ g' Hi) as Hp. cbn in Hp.
  assert (∀ l, total (reads l) (<[i := g']> gs) = total (reads l) gs) as Hr.
  { intros l. apply (total_same _ _ _ _ _ Hi). unfold g'. by rewrite !reads_none. }
  eapply step_moves with (th' := insert_ctx t') (m' := m') (g' := g') (sh' := sh').
  - exact Hrun.
  - split; cbn [sh' sh_tree sh_log sh_phase sh_limbo sh_garbage sh_priv]; rewrite ?Hr; try done.
    + apply mem_ok_iff. unfold all_cells. cbn [sh' sh_tree sh_phase sh_garbage sh_priv].
      rewrite (root_of_same _ _ gs i _ g' _ Hi) by done. exact Ho.
    + rewrite (total_same _ _ _ _ _ Hi) by done. apply (gl_mutex Hg).
    + pose proof (gl_fuel Hg) as Hf. fold T in Hf. lia.
    + by intros N ?%Hlimbo.
    + by intros ?%(holder_idle _ _ Hi).
    + apply (gl_writing Hg).
    + apply (gl_before Hg).
    + apply (gl_clean Hg).
    + intros _. exists i, k, v, g'. rewrite list_lookup_insert_eq by (by eapply lookup_lt_Some). done.
  - intros _. exact Hok.
  - split.
    + intros l u _ [Hu|(_ & N & HN & _)]; [|by apply Hlimbo in HN].
      destruct (Hsub u Hu) as (u' & Hu' & Hf). exists u', d. split_and!; [by left|done|lia].
    + intros e He. by apply elem_of_cons; right.
    + intros j Hj Hne. cbn. by intros [->|?]%elem_of_cons.
    + done.
    + intros _. split_and!; [done..|]. intros u Hu. destruct (Hsub u Hu) as (u' & Hu' & Hf & _).
      by exists u'.
    + by intros ?%(holder_alone_here _ _ Hi).
  - done.
Qed.

(** A refusal changes no tree. *)
Lemma inserter_refused n n' t t' :
  gs !! i = Some (holding 1 n) → i ∉ (sh_log sh).*1 → (n' < n)%nat →
  advance (insert_ctx t) m = Done (insert_ctx t', m) → k ∈ keys T ∨ out_of_memory →
  (∀ log, (i, 1) ∈ log → inserter_ok i k v (next T log pr) (holding 0 n') (insert_ctx t')) →
  ok (holding 1 n) (insert_ctx t).
Proof.
  intros Hi Hnew Hn Hrun Hwhy Hok.
  apply (inserter_decides n n' T 1 0 t t' m pr); [done..| | | | | | | |].
  - apply mem_ok_iff. apply Hg.
  - apply Hok. by left.
  - apply Hg.
  - apply (writes_refuse _ _ _ _ i k v); [apply Hg|done..|]. destruct Hwhy as [Hin|]; [left|by right].
    apply not_eq_None_Some. rewrite to_map_None. by intros Hn'.
  - lia.
  - done.
  - apply Hg.
  - intros u Hu. exists u. split; [done|apply follows_refl].
Qed.

(** ** The memory under the mutex *)

Lemma tree_blocks : holds m (cells T).
Proof. eapply mem_tree, (gl_mem Hg). Qed.

Lemma owns_here : owns (pr ++ sh_garbage sh ++ root_cells root root_block T) fr m.
Proof. apply mem_ok_iff, Hg. Qed.

Lemma load_head : load_slot (SHead root) m = Done (ptr T, m).
Proof. cbn. by erewrite bind_done by exact (load_root_at _ _ _ (mem_root _ _ _ _ _ _ _ (gl_mem Hg))). Qed.

(** The pointer at the end of a path. *)
Lemma load_path C u : plug C u = T → load_slot (slot_of root C) m = Done (ptr u, m).
Proof.
  intros HC. apply (load_slot_at root root_block). pose proof owns_here as Ho.
  rewrite <-HC, root_cells_plug in Ho. eapply owns_lookup; [exact Ho|].
  rewrite <-slot_cell_eta. apply elem_of_app. right. apply elem_of_app. right. by left.
Qed.

(** ** The walk to the nearest leaf *)

Section near.
Context (n : nat) (Hi : gs !! i = Some (holding 1 n)) (Hnew : i ∉ (sh_log sh).*1) (Hpr : pr = []).

Lemma inserter_body :
  n = (4 * fuel + 13)%nat → ok (holding 1 n) (insert_ctx (i_body root fuel k v)).
Proof.
  intros Hn. eapply (inserter_reads n); [exact Hi|done|exact load_head| |by apply ii_head|lia]. cbv beta.
  destruct (Z.eqb_spec (ptr T) 0) as [H0|_]; [|done]. by apply ptr_nonzero in H0; [|apply (gl_wf Hg)].
Qed.

Lemma inserter_head :
  n = (4 * fuel + 12)%nat → ok (holding 1 n) (insert_ctx (i_head root fuel k v)).
Proof.
  intros Hn. pose proof (gl_fuel Hg) as Hf. fold T in Hf.
  eapply (inserter_reads n); [exact Hi|done|exact load_head|done| |].
  - apply (ii_near _ _ _ _ _ _ fuel T); [done|apply subtree_refl|done|lia].
  - lia.
Qed.

(** At the leaf: the comparison. *)
Lemma inserter_diff f a k' v' :
  n = (2 * f + 2 * fuel + 13)%nat → subtree (Leaf a k' v') T → nearest k T = (a, k', v') →
  ok (holding 1 n) (insert_ctx (i_diff root fuel k v (a + PTR_SIZE))).
Proof.
  intros Hn Hsub Hnear. destruct (subtree_wf _ _ (gl_wf Hg) Hsub) as [Ha [Hk' _]].
  assert (m !! a = Some (BString v' (cstr k'))) as Hblk.
  { apply (subtree_holds m _ T tree_blocks Hsub). by left. }
  destruct (diff_loop_spec m k Hk a v' k' (S (Z.to_nat (u32 (s32 len)))) 0)
    as [[Heq Hrun]|(nb & Hnb & Hnbp & Hag & Hne & Hrun)]; try done; try lia.
  { destruct Hk. unfold len. rewrite s32_small, u32_small by lia. lia. }
  - eapply (inserter_refused n 1 _ (mret 1)); [exact Hi|done|lia|exact (advance_ctx _ _ _ _ _ Hrun)| |].
    + left. rewrite <-(nearest_key_iff k T (gl_wf Hg)). by rewrite Hnear.
    + intros log Hl. by apply ins_end.
  - eapply (inserter_reads n); [exact Hi|done|exact Hrun|done| |].
    + pose proof (ii_found root fuel k v T pr nb) as H. rewrite Hnear in H. by apply H.
    + lia.
Qed.

Lemma inserter_near f u :
  n = (2 * f + 2 * fuel + 11)%nat → subtree u T → nearest k u = nearest k T → (height u < f)%nat →
  ok (holding 1 n) (insert_ctx (i_near root fuel k v f (ptr u))).
Proof.
  intros Hn Hsub Hnear Hf. pose proof (subtree_wf _ _ (gl_wf Hg) Hsub) as Hwf.
  destruct f as [|f]; [lia|]. unfold i_near. cbn [find_nearest_thread]. rewrite IS_INTERNAL_ptr by done.
  destruct u as [a k' v'|a b ob tl tr]; [by eapply (inserter_diff f); [lia|..]|]. cbn [is_leaf negb ptr].
  pose proof Hwf as (Ha & _). rewrite TO_NODE_FROM_NODE by done.
  pose proof (subtree_holds m _ T tree_blocks Hsub) as (Hnode & _)%holds_inner.
  eapply (inserter_reads n _ _ (λ dir, i_child root fuel k v f a dir)); [exact Hi|done| |done| |].
  - erewrite bind_done by (eapply load_node_at, Hnode). cbn beta.
    rewrite keylen_u64, (inner_direction k Hk a) by done. by rewrite lift_done.
  - by apply (ii_child _ _ _ _ _ _ f a b ob tl tr).
  - lia.
Qed.

Lemma inserter_child f a b ob tl tr :
  n = (2 * f + 2 * fuel + 12)%nat → subtree (Inner a b ob tl tr) T →
  nearest k (Inner a b ob tl tr) = nearest k T → (height (Inner a b ob tl tr) < S f)%nat →
  ok (holding 1 n) (insert_ctx (i_child root fuel k v f a (of_bool (kbit k (crit_index b ob))))).
Proof.
  intros Hn Hsub Hnear Hf. set (d := kbit k (crit_index b ob)).
  pose proof (subtree_holds m _ T tree_blocks Hsub) as (Hnode & _)%holds_inner.
  eapply (inserter_reads n _ _ (λ p, i_near root fuel k v f p)); [exact Hi|done| |done| |].
  - cbn. erewrite bind_done by (eapply load_node_at, Hnode). cbn beta. rewrite child_bool. by rewrite lift_done.
  - cbn [child0 child1]. replace (if d then ptr tr else ptr tl) with (ptr (if d then tr else tl)) by (by destruct d).
    apply ii_near; [done|by eapply subtree_child|exact Hnear|]. cbn in Hf. destruct d; lia.
  - lia.
Qed.

(** The critical bit. *)
Lemma inserter_found nb (p := nearest_key k T) :
  n = (2 * fuel + 12)%nat → 0 ≤ nb ≤ len → nb ≤ Z.of_nat (length p) →
  (∀ b, 0 ≤ b < nb → byte_at k b = byte_at p b) → byte_at p nb ≠ byte_at k nb →
  ok (holding 1 n)
    (insert_ctx (i_found root fuel k v ((nearest k T).1.1 + PTR_SIZE) nb (Z.lxor (byte_at p nb) (byte_at k nb)))).
Proof.
  intros Hn Hnb Hnbp Hag Hne. pose proof (gl_wf Hg) as Hwf. destruct Hk as [Hnk Hlen]. fold len in Hlen.
  assert (nonul p) as Hnp by (eapply wf_nonul, nearest_key_in; done).
  pose proof (byte_at_range p nb Hnp) as Hpb.
  pose proof (lxor_byte_range _ _ Hpb (byte_at_range k nb Hnk) Hne) as Hx.
  destruct (clear_low_spec _ Hx) as [Hclear Hj]. destruct (nearest_block m k T Hwf tree_blocks) as [Hblk Haddr].
  pose proof (first_diff_intro k p nb Hnk Hnp ltac:(lia) Hag Hne) as Hfd. set (j := Z.log2 _) in *.
  eapply (inserter_reads n _ _ (λ crit, i_alloc root fuel k v nb crit.1 crit.2)
    (mask_of j, dir_of_side k nb (mask_of j))); [exact Hi|done| |done| |].
  - rewrite Hclear. erewrite bind_done by done. cbn beta zeta. rewrite lxor_mask by done.
    erewrite bind_done by (eapply load_byte_at; [exact Hblk|split; [lia|exact Hnbp]]). cbn beta.
    fold p. change (Z.shiftr (1 + Z.lor (mask_of j) ?c) 8) with (test_mask (mask_of j) c).
    rewrite test_mask_spec by done. unfold dir_of_side, side. destruct Hfd as (_ & _ & _ & ->).
    by rewrite negb_involutive, crit_index_mask, kbit_crit by lia.
  - apply ii_alloc; [done|]. split; [|exact Hfd]. intros Hin. apply nearest_self in Hin; [|done].
    unfold p in Hne. by rewrite Hin in Hne.
  - lia.
Qed.
End near.

(** ** The new blocks *)

Section link.
Context (n : nat) (Hi : gs !! i = Some (holding 1 n)) (Hnew : i ∉ (sh_log sh).*1).
Context (nb nob : Z) (Hcrit : crit_ok k T nb nob).
Let dir := dir_of_side k nb nob.

Lemma inserter_alloc :
  n = (2 * fuel + 11)%nat → pr = [] → ok (holding 1 n) (insert_ctx (i_alloc root fuel k v nb nob dir)).
Proof.
  intros Hn Hpr. destruct (alloc_node_spec m) as [[Hoom Hrun]|(a & nd & Ha & Hfresh & Hrun)].
  - eapply (inserter_refused n 1 _ (mret 1)); [exact Hi|done|lia|exact (advance_ctx _ _ _ _ _ Hrun)|by right|].
    intros log Hl. by apply ins_end.
  - eapply (inserter_moves 1 n (2 * fuel + 10) _ (i_string root fuel k v a nb nob dir) _ [(a, BNode nd)]);
      [exact Hi|lia| | |].
    + unfold i_alloc. rewrite (advance_ctx _ _ _ _ _ Hrun). destruct (Z.eqb_spec a 0); [destruct Ha; lia|done].
    + apply (owns_alloc _ _ _ a (BNode nd) Hfresh). pose proof owns_here as Ho. by rewrite Hpr in Ho.
    + apply ins_body; [done|]. by apply (ii_string _ _ _ _ _ _ a nd).
Qed.

Lemma inserter_string a nd :
  n = (2 * fuel + 10)%nat → pr = [(a, BNode nd)] → addr_ok a →
  ok (holding 1 n) (insert_ctx (i_string root fuel k v a nb nob dir)).
Proof.
  intros Hn Hpr Ha. destruct (alloc_string_spec m k v Hk) as [[Hoom Hrun]|(x & Hx & Hfresh & Hrun)].
  - eapply (inserter_refused n 2 _ (i_free a)); [exact Hi|done|lia|exact (advance_ctx _ _ _ _ _ Hrun)|by right|].
    intros log Hl. by apply (ins_free _ _ _ _ _ _ a nd).
  - eapply (inserter_moves 1 n (2 * fuel + 9) _ (i_fill root fuel k a (x + PTR_SIZE) nb nob dir) _
      [(a, BNode nd); (x, BString v key)]); [exact Hi|lia| | |].
    + unfold i_string. rewrite (advance_ctx _ _ _ _ _ Hrun). by rewrite addr_ok_string_nonzero.
    + apply (owns_perm ((x, BString v key) :: pr ++ sh_garbage sh ++ root_cells root root_block T)).
      { rewrite Hpr. cbn. by rewrite perm_swap. }
      by apply owns_alloc, owns_here.
    + apply ins_body; [done|]. by apply (ii_fill _ _ _ _ _ _ a x nd).
Qed.

Lemma inserter_fill a x nd :
  n = (2 * fuel + 9)%nat → blocks_ok k v pr a x nd →
  ok (holding 1 n) (insert_ctx (i_fill root fuel k a (x + PTR_SIZE) nb nob dir)).
Proof.
  intros Hn [Ha Hx Hpr]. pose proof owns_here as Hm. rewrite Hpr in Hm. cbn [app] in Hm.
  eapply (inserter_moves 1 n (2 * fuel + 8) _ (i_walk k (2 + fuel) (SHead root) a nb nob dir) _
    [(a, BNode (half_node k nd x nb nob)); (x, BString v key)]); [exact Hi|lia| | |].
  - refine (advance_ctx _ _ m tt _ _).
    erewrite bind_done by (eapply load_node_at, owns_lookup_hd, Hm). cbn beta.
    erewrite bind_done by (eapply store_node_at, owns_lookup_hd, Hm). cbn beta. own_store Hm.
    erewrite bind_done by (eapply load_node_at, owns_lookup_hd, Hm). cbn beta.
    erewrite bind_done by (eapply store_node_at, owns_lookup_hd, Hm). cbn beta. own_store Hm.
    cbn [store_slot]. erewrite bind_done by (eapply load_node_at, owns_lookup_hd, Hm). cbn beta.
    unfold dir, dir_of_side, side. rewrite (store_new_child k nb nob). erewrite bind_done by done.
    eapply store_node_at, owns_lookup_hd, Hm.
  - rewrite !insert_insert_eq. cbn [app]. unfold half_node, side.
    destruct (kbit k (crit_index nb nob)); eapply owns_store, Hm.
  - apply ins_body; [done|]. replace (2 * fuel + 8)%nat with (2 * (2 + fuel) + 4)%nat by lia.
    apply (ii_walk _ _ _ _ _ _ (2 + fuel) a x nd nb nob [] T); [done..|].
    pose proof (gl_fuel Hg) as Hf. fold T in Hf. lia.
Qed.

(** ** The walk to the place of the new node *)

Section walk.
Context (a x : Z) (nd : critbit_node) (Hbl : blocks_ok k v pr a x (half_node k nd x nb nob)).

Lemma inserter_walk f C u :
  n = (2 * f + 4)%nat → walk_ok k T nb nob C u → (height u < f)%nat →
  ok (holding 1 n) (insert_ctx (i_walk k f (slot_of root C) a nb nob dir)).
Proof.
  intros Hn Hw Hf. pose proof Hw as [HC _]. destruct f as [|f]; [lia|].
  assert (wf u) as Hwf by (apply (wf_plug C); rewrite HC; apply (gl_wf Hg)).
  pose proof (load_path C u HC) as Hrun. destruct u as [b k' v'|b c ob tl tr].
  - eapply (inserter_reads n 4); [exact Hi|done|exact Hrun| |by apply (ii_old _ _ _ _ _ _ a x nd nb nob C (Leaf b k' v'))|lia].
    cbv beta. by rewrite IS_INTERNAL_ptr.
  - eapply (inserter_reads n (2 * f + 5)); [exact Hi|done|exact Hrun| | |lia]; cbv beta.
    + rewrite IS_INTERNAL_ptr by done. reflexivity.
    + by apply (ii_next _ _ _ _ _ _ f a x nd nb nob C b c ob tl tr).
Qed.

Lemma inserter_next f C b c ob tl tr :
  n = (2 * f + 5)%nat → walk_ok k T nb nob C (Inner b c ob tl tr) → (height (Inner b c ob tl tr) < S f)%nat →
  ok (holding 1 n) (insert_ctx (i_next k f (slot_of root C) a nb nob dir (FROM_NODE b))).
Proof.
  intros Hn Hw Hf. pose proof Hw as [HC Hpath].
  assert (wf (Inner b c ob tl tr)) as Hwf by (apply (wf_plug C); rewrite HC; apply (gl_wf Hg)).
  pose proof Hwf as (Hb & Hbyte & _).
  assert (subtree (Inner b c ob tl tr) T) as Hsub by (rewrite <-HC; apply subtree_plug).
  pose proof (subtree_holds m _ T tree_blocks Hsub) as (Hnode & _)%holds_inner.
  set (d := kbit k (crit_index c ob)).
  assert ((q ← load_node (TO_NODE (FROM_NODE b));
           if nb <? u32 (byte q) then mret None
           else if (u32 (byte q) =? nb) && (nob <? otherbits q) then mret None
           else dir ← lift (get_direction q key (u64 (s32 len))); mret (Some (SChild (TO_NODE (FROM_NODE b)) dir))) m =
    Done (if crit_after c ob nb nob then None else Some (SChild b (of_bool d)), m)) as Hrun.
  { rewrite TO_NODE_FROM_NODE by done. erewrite bind_done by (eapply load_node_at, Hnode). cbn beta.
    cbn [byte otherbits]. rewrite u32_small by lia. unfold crit_after. destruct (nb <? c); [done|]. cbn [orb].
    destruct ((c =? nb) && (nob <? ob)); [done|].
    unfold len, key. rewrite (keylen_u64 k Hk), (inner_direction k Hk b) by done. by rewrite (bind_done _ _ m (of_bool d) m). }
  destruct (crit_after c ob nb nob) eqn:Hafter.
  - eapply (inserter_reads n 4); [exact Hi|done|exact Hrun|reflexivity| |lia].
    apply (ii_old _ _ _ _ _ _ a x nd nb nob C (Inner b c ob tl tr)); [done..|].
    intros mk. cbn [insert_at]. by rewrite Hafter.
  - set (fr1 := Frame b c ob d (if d then tl else tr)).
    eapply (inserter_reads n (2 * f + 4)); [exact Hi|done|exact Hrun|reflexivity| |lia].
    apply (ii_walk _ _ _ _ _ _ f a x nd nb nob (fr1 :: C) (if d then tr else tl)); [done|done| |].
    + split; [|by constructor]. cbn [plug]. rewrite <-HC. f_equal. unfold fr1, plug1. by destruct d.
    + cbn in Hf. destruct d; lia.
Qed.

Context (C : ctx) (u : tree) (Hw : walk_ok k T nb nob C u) (Hends : walk_ends k nb nob u).

Lemma inserter_old :
  n = 4%nat → ok (holding 1 n) (insert_ctx (i_old a dir (slot_of root C))).
Proof.
  intros Hn. eapply (inserter_reads n 3); [exact Hi|done|by apply load_path, Hw|reflexivity| |lia].
  by apply (ii_link _ _ _ _ _ _ a x nd nb nob C u).
Qed.

Lemma inserter_link :
  n = 3%nat → ok (holding 1 n) (insert_ctx (i_link (slot_of root C) a dir (ptr u))).
Proof.
  intros Hn. destruct Hbl as [Ha Hx Hpr]. pose proof owns_here as Hm. rewrite Hpr in Hm. cbn [app] in Hm.
  eapply (inserter_moves 1 n 2 _ (i_publish (slot_of root C) a) _
    [(a, BNode (full_node k x nb nob (ptr u))); (x, BString v key)]); [exact Hi|lia| | |].
  - refine (advance_ctx _ _ m tt _ _). cbn [store_slot].
    erewrite bind_done by (eapply load_node_at, owns_lookup_hd, Hm). cbn beta.
    unfold dir, dir_of_side, side. rewrite (store_old_child k nb nob). erewrite bind_done by done.
    eapply store_node_at, owns_lookup_hd, Hm.
  - cbn [app]. unfold half_node, full_node, side in *.
    destruct (kbit k (crit_index nb nob)); eapply owns_store, Hm.
  - apply ins_body; [done|]. by apply (ii_publish _ _ _ _ _ _ a x nb nob C u).
Qed.
End walk.

(** ** The publication *)

Lemma publish_store a x C u :
  blocks_ok k v pr a x (full_node k x nb nob (ptr u)) → plug C u = T →
  ∃ m', store_slot (slot_of root C) (FROM_NODE a) m = Done (tt, m') ∧
    owns (sh_garbage sh ++ root_cells root root_block (plug C (new_tree k v a x nb nob u))) fr m'.
Proof.
  intros [Ha Hx Hpr] HC. pose proof owns_here as Hm. rewrite Hpr, <-HC, root_cells_plug in Hm.
  assert (∃ cs, [(a, BNode (full_node k x nb nob (ptr u))); (x, BString v (cstr k))] ++ sh_garbage sh ++
      slot_cell root root_block C (ptr u) :: ctx_cells root root_block C ++ cells u ≡ₚ
    slot_cell root root_block C (ptr u) :: cs ∧
    sh_garbage sh ++ root_cells root root_block (plug C (new_tree k v a x nb nob u)) ≡ₚ
    slot_cell root root_block C (FROM_NODE a) :: cs) as (cs & Hcs & Hcs').
  { exists ([(a, BNode (full_node k x nb nob (ptr u))); (x, BString v (cstr k))] ++ sh_garbage sh ++
      ctx_cells root root_block C ++ cells u). split; [cbn; solve_Permutation|].
    rewrite root_cells_plug. unfold new_tree, branch, full_node, side.
    destruct (kbit k (crit_index nb nob)); cbn; solve_Permutation. }
  rewrite Hcs in Hm. destruct (owns_slot root root_block C _ (FROM_NODE a) _ _ _ Hm) as (m' & Hst & Hm').
  exists m'. split; [done|]. by rewrite Hcs'.
Qed.

Lemma inserter_publish a x C u :
  n = 2%nat → blocks_ok k v pr a x (full_node k x nb nob (ptr u)) → walk_ok k T nb nob C u →
  walk_ends k nb nob u → ok (holding 1 n) (insert_ctx (i_publish (slot_of root C) a)).
Proof.
  intros Hn Hbl [HC Hpath] Hends. pose proof Hcrit as [Hnin Hdiff].
  destruct (publish_store a x C u Hbl HC) as (m' & Hrun & Ho). pose proof Hbl as [Ha Hx _].
  set (T' := insert_at k nb nob (new_tree k v a x nb nob) T).
  assert (plug C (new_tree k v a x nb nob u) = T') as HT'.
  { unfold T'. rewrite <-HC, insert_at_plug by done. by rewrite Hends. }
  rewrite HT' in Ho. pose proof (gl_wf Hg) as Hwf.
  assert (insertion k v T T') as Hins by (by exists a, x, nb, nob).
  assert (to_map T' = <[k := v]> (to_map T)) as Hmap by (by apply to_map_insert_at).
  apply (inserter_decides n 1 T' 0 1 _ (mret 0) m' []); [exact Hi|lia|exact (advance_ctx _ _ _ _ _ Hrun)|exact Ho| | | | | | |].
  - apply ins_end; [by left|done].
  - by apply wf_insert_at.
  - rewrite Hmap. apply writes_insert; [apply (gl_log Hg)|done..|by apply to_map_None].
  - done.
  - by eapply insertion_height.
  - assert (k0 ∈ keys T) as H0 by apply (gl_keep Hg). destruct (decide (k0 ∈ keys T')) as [|Hn']; [done|].
    apply to_map_None in Hn'. rewrite Hmap in Hn'. apply lookup_insert_None in Hn' as [Hn' _].
    by apply to_map_None in Hn'.
  - intros t Ht. by eapply insertion_follows.
Qed.
End link.

(** ** All steps *)

Lemma inserting_step n t :
  gs !! i = Some (holding 1 n) → i ∉ (sh_log sh).*1 → inserting k v T pr n t → ok (holding 1 n) (insert_ctx t).
Proof.
  intros Hi Hnew H. destruct H.
  - by apply inserter_body.
  - by apply inserter_head.
  - by apply inserter_near.
  - by eapply inserter_child.
  - by apply inserter_found.
  - by apply inserter_alloc.
  - by eapply inserter_string.
  - by eapply inserter_fill.
  - by eapply inserter_walk.
  - by eapply inserter_next.
  - by eapply inserter_old.
  - by eapply inserter_link.
  - by eapply inserter_publish.
Qed.

Lemma inserter_step g th :
  gs !! i = Some g → inserter_ok i k v sh g th → ok g th.
Proof.
  intros Hi H. destruct H as [Hn|Hn|n t Hn Ht|a nd Hl Hpr|ret Hl Hpr|ret Hl].
  - eapply step_moves with (th' := insert_lock root fuel k v) (m' := m)
      (g' := Ghost None false 1 (4 * fuel + 14)) (sh' := sh).
    + refine (advance_done2 (lift (strlen (cstr k))) _ _ m (Z.of_nat (length k)) m _).
      by rewrite (strlen_cstr _ (proj1 Hk)).
    + by apply (glob_local _ _ _ _ _ _ _ _ _ _ _ _ _ _ Hi).
    + intros _. by apply ins_lock.
    + rewrite (total_same _ _ _ _ _ Hi) by done. apply evolves_same.
    + cbn. lia.
  - eapply (mutex_lock_step _ _ _ _ _ _ _ _ _ i _ s gs sh m Hg 1 (4 * fuel + 14) (4 * fuel + 13)
      (λ _, insert_ctx (i_body root fuel k v)));
      [done|lia|intros s' pend _ Hpr; apply ins_body; [done|by apply ii_body]|..].
    + intros [] m' Hr. exact (advance_done2 _ _ _ _ _ _ Hr).
    + intros Hb. by apply advance_blocked2.
  - by apply inserting_step.
  - pose proof owns_here as Ho. unfold pr in Ho. rewrite Hpr in Ho.
    apply (inserter_moves 0 2 1 _ (mret 1) (delete a m) []); [done|lia| |by eapply owns_free|by apply ins_end].
    refine (advance_ctx _ _ m tt _ _). by eapply free_at, owns_lookup_hd.
  - eapply (mutex_unlock_step _ _ _ _ _ _ _ _ _ i _ s gs sh m Hg 0 1 0 (λ _, Ret (ret, 0)));
      [done|lia|by eapply holder_idle|done|intros s' pend; by apply ins_done|].
    intros m' Hr. exact (advance_done2 _ _ _ _ _ _ Hr).
  - by apply step_done.
Qed.
End inserter.
