(* ===== verification/CritDeleter.v ===== *)
(** * CritDeleter: the steps of the deleter

    [critbit_delete] as a thread: the walk to the leaf, the store that unlinks
    it, which turns the node it cuts out into a place only readers of the old
    lock can be; the two swaps; the
    pass through the old lock as a writer, after which no reader is there; and
    the release of the two blocks. *)

From S2P Require Import Prelude.
From S2P Require Import KeyBits.
From S2P Require Import Critbit.
From S2P Require Import CritTree.
From S2P Require Import Own.
From S2P Require Import CritMem.
From S2P Require Import CritbitProofs.
From S2P Require Import CritbitMap.
From S2P Require Import Threads.
From S2P Require Import CritThreads.
From S2P Require Import CritView.
From S2P Require Import CritConc.
From S2P Require Import CritSteps.

Section deleter.
Context {MA : Malloc} {MS : MallocSpec MA}.
Context (root : Z) (fr : mem) (fuel : nat) (calls : list call) (c0 c1 : lock_id) (Hc : c0 ≠ c1).
Context (m0 : mem) (M0 : gmap (list Z) Z) (k0 : list Z).

Notation now := (now root fuel calls m0).
Notation seen := (seen root fuel calls m0).
Notation knows := (knows root fuel calls m0).
Notation in_view := (in_view c0).
Notation root_of := (root_of c0 c1).
Notation mem_ok := (mem_ok root fr c0 c1).
Notation reader_ok := (reader_ok root fuel calls c0 m0).
Notation inserter_ok := (inserter_ok root fuel).
Notation deleter_ok := (deleter_ok root fuel c0 c1).
Notation thread_ok := (thread_ok root fuel calls c0 c1 m0).
Notation glob := (glob root fr fuel calls c0 c1 M0 k0).
Notation evolves := (evolves calls c0).

Notation step_ok := (step_ok root fr fuel calls c0 c1 m0 M0 k0).

Context (i : nat) (k : list Z) (Hk : key_ok k) (s : list nat).
Context (Hcall : calls !! i = Some (Delete k)) (Hk0 : k ≠ k0).
Context (gs : list ghost) (sh : shared) (m : mem) (Hg : glob gs sh m).
Let ok := step_ok i (Delete k) s gs sh m.
Let T := sh_tree sh.
Let ph := sh_phase sh.
Local Notation at_step b n := (Ghost None b 0 n).

(** A step of the deleter that keeps the tree: it may change the phase, close
    the node it has cut out, release blocks. *)
Lemma deleter_moves b n b' n' th th' m' ph' lim' gb' :
  let g' := at_step b' n' in
  let gs' := <[i := g']> gs in
  let sh' := Shared T (sh_log sh) ph' lim' gb' (sh_priv sh) in
  gs !! i = Some (at_step b n) → b' = b → (n' < n)%nat →
  advance th m = Done (th', m') → mem_ok gs' sh' m' →
  (phase_busy ph' → b = true) →
  (∀ N, lim' = Some N → phase_open ph' ∧ limbo_ok sh' N) →
  lim' = sh_limbo sh ∨ (lim' = None ∧ total (reads c0) gs = O) →
  (ph' = Writing → total (reads c0) gs = O) → (ph' = Before → ph = Before) →
  deleter_ok i k sh' g' th' → ok (at_step b n) th.
Proof.
  intros g' gs' sh' Hi -> Hn Hrun Hmem Hbusy Hlim Hview Hwr Hbef Hok.
  assert (∀ l, total (reads l) gs' = total (reads l) gs) as Hr.
  { intros l. apply (total_same _ _ _ _ _ Hi). by rewrite !reads_none. }
  pose proof Hg as [Hwf _ Hlog Hmut Hf _ _ _ Hb1 Hkeep Hcl Hpr].
  eapply step_moves with (th' := th') (m' := m') (g' := g') (sh' := sh').
  - done.
  - split; cbn [sh' sh_tree sh_log sh_phase sh_limbo sh_garbage sh_priv]; [done..| | |done| | | |done| |].
    + by rewrite (total_same _ _ _ _ _ Hi).
    + by rewrite (total_same _ _ _ _ _ Hi).
    + intros Hb%Hbusy. exists i, k, g'. rewrite list_lookup_insert_eq by (by eapply lookup_lt_Some).
      by split_and!.
    + rewrite Hr. exact Hwr.
    + rewrite Hr. intros H. by apply Hb1, Hbef.
    + intros H. by apply H in Hcall.
    + intros (j & k' & v & h & Hj & Hgj & Hm)%Hpr.
      destruct (holder_stays gs i j _ g' h Hi eq_refl Hgj Hm) as (h' & Hj' & Hh'). by exists j, k', v, h'.
  - intros _. exact Hok.
  - rewrite (total_same _ _ _ _ _ Hi) by done. split; [|done|done|done| |done].
    + intros l t HP Ht. exists t, O. split_and!; [|apply follows_refl|lia].
      destruct Ht as [Ht|(-> & N & HN & Ht)]; [by left|].
      destruct Hview as [-> |[_ H0]]; [right; split; [done|]; by exists N|].
      destruct HP as (j & h & _ & Hj & Hh). pose proof (total_ge (reads c0) gs j h Hj) as H1.
      unfold reads in H1 at 1. rewrite decide_True in H1 by done. lia.
    + intros H. by apply H in Hcall.
  - done.
Qed.

(** A step that only reads. *)
Lemma deleter_local b n n' th th' :
  gs !! i = Some (at_step b n) → (n' < n)%nat → advance th m = Done (th', m) →
  deleter_ok i k sh (at_step b n') th' → ok (at_step b n) th.
Proof.
  intros Hi Hn Hrun Hok. eapply step_moves with (th' := th') (m' := m) (g' := at_step b n') (sh' := sh).
  - done.
  - by eapply glob_local with (1 := Hi).
  - intros _. exact Hok.
  - rewrite (total_same _ _ _ _ _ Hi) by done. apply evolves_same.
  - done.
Qed.

(** ** The unlinking *)

Lemma root_of_phase b b' n n' ph' ph'' :
  gs !! i = Some (at_step b n) → b' = b →
  phase_cur c0 c1 ph'' = phase_cur c0 c1 ph' → phase_prev c0 c1 ph'' = phase_prev c0 c1 ph' →
  (∀ l, phase_writer c0 ph'' l = phase_writer c0 ph' l) →
  root_of (<[i := at_step b' n']> gs) ph'' = root_of gs ph'.
Proof.
  intros Hi -> Hcur Hprev Hw. unfold CritConc.root_of, lock_of. rewrite Hcur, Hprev, !Hw.
  rewrite !(total_same _ gs i _ _ Hi) by (by rewrite ?reads_none). done.
Qed.

Lemma advance_wrap {B} (c : cmd mem B) (t : B → thread Z) b m' :
  c m = Done (b, m') → advance (wrap (atomic c ≫= t)) m = Done (wrap (t b), m').
Proof. intros H. exact (advance_done c (λ b, wrap (t b)) m b m' H). Qed.

(** Nothing is unlinked when the key is not there. *)
Lemma deleter_miss n th :
  gs !! i = Some (at_step true n) → (12 < n)%nat → ph = Before → sh_garbage sh = [] →
  i ∉ (sh_log sh).*1 → k ∉ keys T → advance th m = Done (wrap (d_cur root k 0), m) →
  ok (at_step true n) th.
Proof.
  intros Hi Hn Hph Hgb Hnew Hnin Hrun. set (g' := at_step true 12).
  set (sh' := Shared T ((i, 1) :: sh_log sh) Unlinked None [] (sh_priv sh)).
  pose proof (priv_of_deleter _ _ _ _ _ _ _ _ _ _ _ _ _ _ Hg Hcall Hi eq_refl) as Hpr.
  assert (∀ l, total (reads l) (<[i := g']> gs) = total (reads l) gs) as Hr.
  { intros l. apply (total_same _ _ _ _ _ Hi). unfold g'. by rewrite !reads_none. }
  pose proof Hg as [Hwf Hmem Hlog Hmut Hf Hlim _ _ _ Hkeep _ _].
  eapply step_moves with (th' := wrap (d_cur root k 0)) (m' := m) (g' := g') (sh' := sh').
  - exact Hrun.
  - split; cbn; [done| |by apply writes_miss with (k := k); [..|apply to_map_None]| | |done| |done|done|done|done|done].
    + eapply mem_same; [exact Hmem|done|done|done|]. cbn.
      change (sh_phase sh) with ph. rewrite Hph. by eapply root_of_phase.
    + by rewrite (total_same _ _ _ _ _ Hi).
    + by rewrite (total_same _ _ _ _ _ Hi).
    + intros _. exists i, k, g'. rewrite list_lookup_insert_eq by (by eapply lookup_lt_Some).
      by split_and!.
  - intros _. apply dl_cur; [done|]. apply unlinked_none; [done|]. by left.
  - rewrite (total_same _ _ _ _ _ Hi) by done. split; [| | |done| |done].
    + intros l t HP Ht. exists t, O. split_and!; [|apply follows_refl|lia].
      destruct Ht as [Ht|(_ & N & HN & _)]; [by left|]. apply Hlim in HN as [Ho _].
      fold ph in Ho. rewrite Hph in Ho. by destruct Ho as [|[|]].
    + intros e He. by apply elem_of_cons; right.
    + intros j Hj Hne. cbn. by intros [->|?]%elem_of_cons.
    + intros H. by apply H in Hcall.
  - exact Hn.
Qed.

Section unlink.
Context (f : frame) (C : ctx) (a v : Z) (m' : mem) (fr' : mem).
Let T' := plug C (f_sib f).
Let N := plug1 f (Leaf a k v).
Context (Ht : T = plug C N) (Hrem : remove k T = Some T').
Context (Ha : addr_ok a) (Hf : addr_ok (f_addr f)) (Hsib : wf (f_sib f)) (Hnin : k ∉ keys (f_sib f)).

Lemma cut_map : to_map T' = delete k (to_map T).
Proof.
  assert (k ∈ keys T) as Hk1.
  { rewrite Ht. apply keys_plug. unfold N, plug1. destruct (f_dir f); rewrite keys_inner, elem_of_app;
      [right|left]; by left. }
  pose proof (to_map_remove k T (gl_wf Hg) Hk1) as H. rewrite Hrem in H. exact H.
Qed.

Lemma cut_absent : k ∉ keys T'.
Proof. apply to_map_None. by rewrite cut_map, lookup_delete_eq. Qed.

Lemma cut_keeps : k0 ∈ keys T'.
Proof.
  destruct (decide (k0 ∈ keys T')) as [|Hn]; [done|]. apply to_map_None in Hn.
  rewrite cut_map, lookup_delete_ne in Hn by done. apply to_map_None in Hn.
  destruct Hn. apply (gl_keep Hg).
Qed.

Lemma deleter_unlink n th :
  gs !! i = Some (at_step true n) → (12 < n)%nat → ph = Before → sh_garbage sh = [] → i ∉ (sh_log sh).*1 →
  owns (cut_blocks k f a v ++ root_cells root (root_of gs ph) T') fr m' →
  advance th m = Done (wrap (d_cur root k (FROM_NODE (f_addr f))), m') →
  ok (at_step true n) th.
Proof.
  intros Hi Hn Hph Hgb Hnew Ho Hrun. set (g' := at_step true 12).
  set (sh' := Shared T' ((i, 0) :: sh_log sh) Unlinked (Some N) (cut_blocks k f a v) []).
  assert (∀ l, total (reads l) (<[i := g']> gs) = total (reads l) gs) as Hr.
  { intros l. apply (total_same _ _ _ _ _ Hi). unfold g'. by rewrite !reads_none. }
  pose proof Hg as [Hwf _ Hlog Hmut Hfuel Hlim _ _ H1 _ _ _].
  assert (height T' ≤ height T)%nat as Hh.
  { rewrite Ht. pose proof (changes_height _ _ _ _
      (changes_plug T' C _ _ (changes_cut k f a v T' cut_absent))) as Hle. exact Hle. }
  eapply step_moves with (th' := wrap (d_cur root k (FROM_NODE (f_addr f)))) (m' := m')
    (g' := g') (sh' := sh').
  - exact Hrun.
  - split; cbn [sh' sh_tree sh_log sh_phase sh_limbo sh_garbage sh_priv];
      [by eapply wf_remove| | | | | | |done|done|exact cut_keeps| |done].
    + apply owns_split in Ho as (fr1 & Hgb1 & Ho1). exists fr1. split; [by rewrite app_nil_r|].
      rewrite Hph in Ho1.
      change (owns (root_cells root (root_of (<[i := at_step true 12]> gs) Unlinked) T') fr1 m').
      by rewrite (root_of_phase true true n 12 Before Unlinked).
    + rewrite cut_map. apply writes_delete; [done..|]. apply not_eq_None_Some.
      rewrite to_map_None. intros Habs. apply Habs. rewrite Ht. apply keys_plug. unfold N, plug1.
      destruct (f_dir f); rewrite keys_inner, elem_of_app; [right|left]; by left.
    + by rewrite (total_same _ _ _ _ _ Hi).
    + rewrite (total_same _ _ _ _ _ Hi) by done. fold T in Hfuel. lia.
    + intros ? [= <-]. split; [by left|]. split.
      * apply (wf_plug C). rewrite <-Ht. exact Hwf.
      * exists f, a, k, v. split_and!; [done|apply subtree_plug|done].
    + intros _. exists i, k, g'. rewrite list_lookup_insert_eq by (by eapply lookup_lt_Some).
      by split_and!.
    + intros H. by apply H in Hcall.
  - intros _. apply dl_cur; [done|]. apply unlinked_cut with (a := a) (v := v). split; try done.
    + by left.
    + exists (f_sib f). split; [apply subtree_plug|apply same_top_refl].
  - rewrite (total_same _ _ _ _ _ Hi) by done. split; [| | |done| |].
    + intros l t HP Hv. destruct Hv as [Hv|(_ & N' & HN & _)].
      2:{ apply Hlim in HN as [Hop _]. fold ph in Hop. rewrite Hph in Hop. by destruct Hop as [|[|]]. }
      fold T in Hv. rewrite Ht in Hv.
      destruct (follows_unlink k f a v T' cut_absent C t Hv) as (t' & Hin & Hfo).
      exists t', O. split_and!; [|done|lia]. destruct Hin as [Hin|Hin]; [by left|right].
      split; [|by exists N]. destruct HP as (j & h & _ & Hj & Hh').
      pose proof (total_ge (reads c1) gs j h Hj) as H2. rewrite (H1 Hph) in H2.
      unfold reads in H2. case_decide as Hcase; [lia|]. destruct l, c0, c1; done || congruence.
    + intros e He. by apply elem_of_cons; right.
    + intros j Hj Hne. cbn. by intros [->|?]%elem_of_cons.
    + intros H. by apply H in Hcall.
    + by intros ?%(holder_alone gs i _ Hmut Hi eq_refl).
  - exact Hn.
Qed.
End unlink.

(** ** The walk *)

Section walk.
Context (n : nat) (Hi : gs !! i = Some (at_step true n)).
Context (Hph : ph = Before) (Hgb : sh_garbage sh = []) (Hnew : i ∉ (sh_log sh).*1).

(** Before it unlinks anything the deleter has no blocks of its own. *)
Lemma walk_owns : owns (root_cells root (root_of gs ph) T) fr m.
Proof.
  destruct (gl_mem Hg) as (fr' & Hgm & Ho). pose proof (priv_of_deleter _ _ _ _ _ _ _ _ _ _ _ _ _ _ Hg Hcall Hi eq_refl) as Hpr.
  rewrite Hgb, Hpr in Hgm. apply owns_nil in Hgm. by subst fr'.
Qed.

Lemma walk_blocks : holds m (cells T).
Proof. eapply mem_tree, (gl_mem Hg). Qed.

Lemma walk_reads {B} n' (c : cmd mem B) (f : B → thread Z) b t' :
  c m = Done (b, m) → f b = t' → deleting root fuel k T n' t' → (n' < n)%nat →
  ok (at_step true n) (wrap (atomic c ≫= f)).
Proof.
  intros Hrun <- Ht Hn. eapply (deleter_local true n n'); [exact Hi|done|by apply advance_wrap|].
  by apply dl_body.
Qed.

Lemma deleter_body :
  n = (2 * fuel + 15)%nat → ok (at_step true n) (wrap (d_body root fuel k)).
Proof.
  intros Hn. eapply (walk_reads (2 * fuel + 14) _ _ (ptr T) (d_head root fuel k)); [| |by apply di_head|lia].
  - cbn. by erewrite bind_done by exact (load_root_at _ _ _ (mem_root _ _ _ _ _ _ _ (gl_mem Hg))).
  - cbv beta. destruct (Z.eqb_spec (ptr T) 0) as [H0|_]; [|done]. by apply ptr_nonzero in H0; [|apply (gl_wf Hg)].
Qed.

Lemma deleter_head :
  n = (2 * fuel + 14)%nat → ok (at_step true n) (wrap (d_head root fuel k)).
Proof.
  intros Hn. eapply (walk_reads (2 * fuel + 13) _ _ (ptr T) (d_walk root k fuel (ptr T) [])); [|done| |lia].
  - cbn. by erewrite bind_done by exact (load_root_at _ _ _ (mem_root _ _ _ _ _ _ _ (gl_mem Hg))).
  - apply di_walk; [by split|]. pose proof (gl_fuel Hg) as Hf. fold T in Hf. lia.
Qed.

(** At the leaf: the comparison. *)
Lemma deleter_compare C a k' v :
  (14 < n)%nat → descent_ok k T C (Leaf a k' v) →
  ok (at_step true n) (wrap (p ← delete_found_thread root (cstr k) (a + PTR_SIZE) (whereq_of root C) (q_of C) (dir_of C);
    d_cur root k p)).
Proof.
  intros Hn Hd. pose proof Hd as [HC Hpath]. pose proof (gl_wf Hg) as Hwf.
  assert (nearest k T = (a, k', v)) as Hnear by (by rewrite <-HC, nearest_plug).
  destruct (nearest_block m k T Hwf walk_blocks) as [Hblk Haddr]. rewrite Hnear in Hblk, Haddr. cbn [fst snd] in Hblk, Haddr.
  destruct (strcmp_keys k Hk k') as (d & Hcmp & Hiff).
  { eapply wf_nonul; [exact Hwf|]. pose proof (nearest_key_in k T) as H. by rewrite Hnear in H. }
  assert ((chars ← load_chars (a + PTR_SIZE); lift (strcmp (cstr k) chars)) m = Done (d, m)) as Hrun.
  { erewrite bind_done by exact (load_chars_at _ _ _ _ Hblk). by rewrite Hcmp. }
  set (next cmp := unlink_thread root (a + PTR_SIZE) (whereq_of root C) (q_of C) (dir_of C) cmp ≫= d_cur root k).
  assert (advance (wrap (p ← delete_found_thread root (cstr k) (a + PTR_SIZE) (whereq_of root C) (q_of C) (dir_of C);
    d_cur root k p)) m = Done (wrap (next d), m)) as Hadv by exact (advance_wrap _ next d m Hrun).
  unfold next, unlink_thread in Hadv. rewrite Hiff in Hadv. case_bool_decide as Heq; cbn [negb] in Hadv.
  - destruct C as [|f C].
    { pose proof (gl_keep Hg) as H0. fold T in H0. rewrite <-HC in H0. apply list_elem_of_singleton in H0. by subst. }
    rewrite Heq in Hd. eapply (deleter_local true n 14); [exact Hi|lia|exact Hadv|].
    apply dl_body; [done..|]. by apply (di_other _ _ _ _ f C a v).
  - apply (deleter_miss n); [exact Hi|lia|done..| |exact Hadv].
    rewrite <-(nearest_key_iff k T Hwf). by rewrite Hnear.
Qed.

Lemma deleter_walk f C u :
  n = (2 * f + 13)%nat → descent_ok k T C u → (height u < f)%nat →
  ok (at_step true n) (wrap (d_walk root k f (ptr u) C)).
Proof.
  intros Hn Hd Hf. pose proof Hd as [HC Hpath]. destruct f as [|f]; [lia|].
  assert (wf u) as Hwf by (apply (wf_plug C); rewrite HC; apply (gl_wf Hg)).
  unfold d_walk. cbn [delete_loop_thread]. rewrite IS_INTERNAL_ptr by done.
  destruct u as [a k' v|a b ob tl tr]; [by apply (deleter_compare C a k' v); [lia|]|]. cbn [is_leaf negb ptr].
  pose proof Hwf as (Ha & _). rewrite TO_NODE_FROM_NODE by done.
  assert (subtree (Inner a b ob tl tr) T) as Hsub by (rewrite <-HC; apply subtree_plug).
  pose proof (subtree_holds m _ T walk_blocks Hsub) as (Hnode & _)%holds_inner.
  eapply (walk_reads (2 * f + 14) _ _ (of_bool (kbit k (crit_index b ob)))); [|reflexivity| |lia].
  - erewrite bind_done by (eapply load_node_at, Hnode). cbn beta.
    rewrite keylen_u64, (inner_direction k Hk a) by done. by rewrite lift_done.
  - by apply (di_child _ _ _ _ f C a b ob tl tr).
Qed.

Lemma deleter_child f C a b ob tl tr :
  n = (2 * f + 14)%nat → descent_ok k T C (Inner a b ob tl tr) → (height (Inner a b ob tl tr) < S f)%nat →
  ok (at_step true n) (wrap (d_child root k f a (kbit k (crit_index b ob)) C)).
Proof.
  intros Hn [HC Hpath] Hf. set (d := kbit k (crit_index b ob)).
  assert (subtree (Inner a b ob tl tr) T) as Hsub by (rewrite <-HC; apply subtree_plug).
  pose proof (subtree_holds m _ T walk_blocks Hsub) as (Hnode & _)%holds_inner.
  set (f1 := Frame a b ob d (if d then tl else tr)).
  eapply (walk_reads (2 * f + 13) _ _ (ptr (if d then tr else tl)) (d_walk root k f _ (f1 :: C)));
    [|reflexivity| |lia].
  - cbn. erewrite bind_done by (eapply load_node_at, Hnode). cbn beta. rewrite child_bool, lift_done. by destruct d.
  - apply di_walk; [|cbn in Hf; destruct d; lia]. split; [|by constructor].
    cbn [plug]. rewrite <-HC. f_equal. unfold f1, plug1. by destruct d.
Qed.

(** ** The unlinking *)

Section found.
Context (f : frame) (C : ctx) (a v : Z) (Hd : descent_ok k T (f :: C) (Leaf a k v)).

Lemma found_removes : remove k T = Some (plug C (f_sib f)).
Proof. destruct Hd as [HC Hpath]. rewrite <-HC. by rewrite remove_plug. Qed.

Lemma deleter_other :
  n = 14%nat → ok (at_step true n) (wrap (d_other root k (slot_of root C) (f_addr f) (of_bool (f_dir f)))).
Proof.
  intros Hn. destruct Hd as [HC Hpath].
  destruct (unlink_node k root _ T fr m f C a v (gl_wf Hg) walk_owns HC found_removes) as [Hload _].
  eapply (walk_reads 13); [exact Hload|reflexivity|by apply (di_publish _ _ _ _ f C a v)|lia].
Qed.

Lemma deleter_publish :
  n = 13%nat → ok (at_step true n) (wrap (d_publish root k (slot_of root C) (f_addr f) (ptr (f_sib f)))).
Proof.
  intros Hn. destruct Hd as [HC Hpath].
  destruct (unlink_node k root _ T fr m f C a v (gl_wf Hg) walk_owns HC found_removes) as (_ & m' & Hst & Hun).
  pose proof (advance_wrap _ (λ _, d_cur root k (FROM_NODE (f_addr f))) _ _ Hst) as Hrun.
  remember (FROM_NODE (f_addr f)) as p eqn:Hp.
  destruct Hun as [a' v' Ht Ha Hm'|f' C' a' v' Ht Hrem Ha Hf Hsib Hnin Hm'].
  - pose proof (gl_keep Hg) as H0. fold T in H0. rewrite Ht in H0.
    apply list_elem_of_singleton in H0. by subst.
  - apply (deleter_unlink f' C' a' v' m' Ht Hrem Ha Hf Hsib Hnin n); [exact Hi|lia|done..| |].
    + eapply owns_perm; [|exact Hm']. cbn. apply perm_swap.
    + unfold d_publish. rewrite <-Hp in *. exact Hrun.
Qed.
End found.

End walk.

Lemma deleting_step n t :
  gs !! i = Some (at_step true n) → ph = Before → sh_garbage sh = [] → i ∉ (sh_log sh).*1 →
  deleting root fuel k T n t → ok (at_step true n) (wrap t).
Proof.
  intros Hi Hph Hgb Hnew H. destruct H.
  - by apply deleter_body.
  - by apply deleter_head.
  - by apply deleter_walk.
  - by eapply deleter_child.
  - by eapply deleter_other.
  - by eapply deleter_publish.
Qed.

(** ** The two swaps and the pass through the old lock *)

Lemma set_cur_root b n n' :
  gs !! i = Some (at_step b n) →
  set_cur c1 (set_head (ptr T) (root_of gs Unlinked)) =
  set_head (ptr T) (root_of (<[i := at_step b n']> gs) Swapping).
Proof.
  intros Hi. change (root_of gs Unlinked) with (root_of gs Before).
  rewrite <-(root_of_phase b b n n' Before Unlinked) by done. done.
Qed.

Lemma set_prev_root b n n' :
  gs !! i = Some (at_step b n) →
  set_prev c0 (set_head (ptr T) (root_of gs Swapping)) =
  set_head (ptr T) (root_of (<[i := at_step b n']> gs) Swapped).
Proof.
  intros Hi. rewrite <-(root_of_phase b b n n' Swapping Swapping) by done. done.
Qed.

(** The two swaps leave what was cut out as it is. *)
Lemma limbo_keeps ph' N :
  phase_open ph' → sh_limbo sh = Some N →
  phase_open ph' ∧ limbo_ok (Shared T (sh_log sh) ph' (sh_limbo sh) (sh_garbage sh) (sh_priv sh)) N.
Proof. intros Ho HN. split; [done|]. exact (proj2 (gl_limbo Hg N HN)). Qed.

Lemma unlinked_keeps p ph' lim' :
  unlinked_ok i k sh p → unlinked_ok i k (Shared T (sh_log sh) ph' lim' (sh_garbage sh) (sh_priv sh)) p.
Proof.
  intros [Hgb Hl|f a v [? ? ? ? ? ? ?]]; [by apply unlinked_none|].
  by apply unlinked_cut with (a := a) (v := v).
Qed.

Lemma deleter_cas1 p :
  gs !! i = Some (at_step true 10) → ph = Unlinked → unlinked_ok i k sh p →
  ok (at_step true 10) (wrap (d_cas1 root c0 c1 k p)).
Proof.
  intros Hi Hph Hun. pose proof (gl_mem Hg) as Hm. pose proof (mem_root _ _ _ _ _ _ _ Hm) as Hroot.
  change (sh_phase sh) with ph in Hroot. change (sh_tree sh) with T in Hroot. rewrite Hph in Hroot.
  pose proof (cas_cur_at root m _ Hroot c0 c1 eq_refl) as Hrun.
  rewrite (set_cur_root true 10 9 Hi) in Hrun.
  eapply (deleter_moves true 10 true 9); [done|done|lia|exact (advance_done2 _ _ _ _ _ _ Hrun)|..].
  - by apply (mem_store _ _ _ _ gs sh m Hm _ (Shared T (sh_log sh) Swapping (sh_limbo sh) (sh_garbage sh) (sh_priv sh))).
  - done.
  - intros N. apply limbo_keeps. right. by left.
  - by left.
  - done.
  - done.
  - apply dl_cas2; [done|by apply unlinked_keeps].
Qed.

Lemma deleter_cas2 p :
  gs !! i = Some (at_step true 9) → ph = Swapping → unlinked_ok i k sh p →
  ok (at_step true 9) (wrap (d_cas2 root c0 c1 k p)).
Proof.
  intros Hi Hph Hun. pose proof (gl_mem Hg) as Hm. pose proof (mem_root _ _ _ _ _ _ _ Hm) as Hroot.
  change (sh_phase sh) with ph in Hroot. change (sh_tree sh) with T in Hroot. rewrite Hph in Hroot.
  pose proof (cas_prev_at root m _ Hroot c1 c0 eq_refl) as Hrun.
  rewrite (set_prev_root true 9 8 Hi) in Hrun.
  eapply (deleter_moves true 9 true 8); [done|done|lia|exact (advance_done2 _ _ _ _ _ _ Hrun)|..].
  - by apply (mem_store _ _ _ _ gs sh m Hm _ (Shared T (sh_log sh) Swapped (sh_limbo sh) (sh_garbage sh) (sh_priv sh))).
  - done.
  - intros N. apply limbo_keeps. right. by right.
  - by left.
  - done.
  - done.
  - apply dl_wrlock; [done|by apply unlinked_keeps].
Qed.

(** The old lock is granted when its last reader has left; from here on
    nobody is in the node that was cut out. *)
Lemma deleter_wrlock p :
  gs !! i = Some (at_step true 8) → ph = Swapped → unlinked_ok i k sh p →
  ok (at_step true 8) (wrap (d_wrlock root c0 k p)).
Proof.
  intros Hi Hph Hun. pose proof (gl_mem Hg) as Hm. pose proof (mem_root _ _ _ _ _ _ _ Hm) as Hroot.
  change (sh_phase sh) with ph in Hroot. change (sh_tree sh) with T in Hroot. rewrite Hph in Hroot.
  destruct (decide (total (reads c0) gs = O)) as [H0|Hpos].
  - assert (pthread_rwlock_wrlock root c0 m = Done (tt, <[root := BRoot (set_rwlock c0 (Rwlock 0 true)
      (set_head (ptr T) (root_of gs Swapped)))]> m)) as Hrun.
    { apply (wrlock_at root m _ Hroot). rewrite (get_rwlock_root c0 c1 gs (Shared T [] Swapped None [] [])).
      unfold lock_of. by rewrite H0. }
    set (g' := at_step true 7).
    assert (∀ l, total (reads l) (<[i := g']> gs) = total (reads l) gs) as Hr.
    { intros l. apply (total_same _ _ _ _ _ Hi). unfold g'. by rewrite !reads_none. }
    assert (lock_of c0 (<[i := g']> gs) Writing c0 = Rwlock 0 true) as Hl.
    { unfold lock_of. rewrite Hr, H0. cbn. by rewrite bool_decide_eq_true_2. }
    rewrite <-Hl in Hrun.
    rewrite (set_rwlock_root c0 c1 gs (Shared T [] Swapped None [] [])) in Hrun; [| |done|done|].
    + eapply (deleter_moves true 8 true 7); [done|done|lia|exact (advance_done2 _ _ _ _ _ _ Hrun)|..].
      * by apply (mem_store _ _ _ _ gs sh m Hm _ (Shared T (sh_log sh) Writing None (sh_garbage sh) (sh_priv sh))).
      * done.
      * done.
      * by right.
      * done.
      * done.
      * apply dl_unlock; [done|by apply unlinked_keeps].
    + by apply (total_same _ _ _ _ _ Hi).
    + intros l Hne. unfold lock_of. rewrite Hr. cbn. by rewrite bool_decide_eq_false_2.
  - apply step_waits.
    + apply advance_blocked2. unfold pthread_rwlock_wrlock.
      erewrite bind_done by exact (load_root_at _ _ _ Hroot). cbn beta zeta.
      rewrite (get_rwlock_root c0 c1 gs (Shared T [] Swapped None [] [])). cbn.
      destruct (Z.ltb_spec 0 (Z.of_nat (total (reads c0) gs))); [done|lia].
    + split; [done|]. right. destruct (total_pos (reads c0) gs) as (j & h & Hj & Hh); [lia|].
      exists j, h, c0. split; [done|]. unfold reads in Hh. case_decide; [done|lia].
Qed.

Lemma deleter_unlock p :
  gs !! i = Some (at_step true 7) → ph = Writing → unlinked_ok i k sh p →
  ok (at_step true 7) (wrap (d_unlock root c0 k p)).
Proof.
  intros Hi Hph Hun. pose proof (gl_mem Hg) as Hm. pose proof (mem_root _ _ _ _ _ _ _ Hm) as Hroot.
  pose proof (gl_writing Hg Hph) as H0. pose proof (gl_limbo Hg) as Hlim.
  change (sh_phase sh) with ph in Hroot, Hlim. change (sh_tree sh) with T in Hroot. rewrite Hph in Hroot, Hlim.
  assert (pthread_rwlock_unlock root c0 m = Done (tt, <[root := BRoot (set_rwlock c0 idle
    (set_head (ptr T) (root_of gs Writing)))]> m)) as Hrun.
  { apply (unlock_at root m _ Hroot c0 (Rwlock 0 true)); [|by left].
    rewrite (get_rwlock_root c0 c1 gs (Shared T [] Writing None [] [])).
    unfold lock_of. rewrite H0. cbn. by rewrite bool_decide_eq_true_2. }
  set (g' := at_step true 6).
  assert (∀ l, total (reads l) (<[i := g']> gs) = total (reads l) gs) as Hr.
  { intros l. apply (total_same _ _ _ _ _ Hi). unfold g'. by rewrite !reads_none. }
  assert (lock_of c0 (<[i := g']> gs) After c0 = idle) as Hl by (unfold lock_of; by rewrite Hr, H0).
  rewrite <-Hl in Hrun.
  rewrite (set_rwlock_root c0 c1 gs (Shared T [] Writing None [] [])) in Hrun; [| |done|done|].
  - eapply (deleter_moves true 7 true 6); [done|done|lia|exact (advance_done2 _ _ _ _ _ _ Hrun)|..].
    + by apply (mem_store _ _ _ _ gs sh m Hm _ (Shared T (sh_log sh) After (sh_limbo sh) (sh_garbage sh) (sh_priv sh))).
    + done.
    + intros N HN. destruct (Hlim N HN) as [Ho _]. by destruct Ho as [|[|]].
    + by left.
    + done.
    + done.
    + apply dl_mutex; [done|by apply unlinked_keeps].
  - by apply (total_same _ _ _ _ _ Hi).
  - intros l Hne. unfold lock_of. rewrite Hr. cbn. by rewrite bool_decide_eq_false_2.
Qed.

(** ** The release of the two blocks *)

Section release.
Context (f : frame) (a v : Z) (Hph : ph = After) (Hcut : cut_ok i k sh f a v).

Lemma cut_node_block : m !! f_addr f = Some (BNode (frame_node f (a + PTR_SIZE))).
Proof.
  eapply mem_garbage; [apply Hg|]. rewrite (cut_garbage _ _ _ _ _ _ Hcut). right. by left.
Qed.

Lemma cut_leaf_block : m !! a = Some (BString v (cstr k)).
Proof. eapply mem_garbage; [apply Hg|]. rewrite (cut_garbage _ _ _ _ _ _ Hcut). by left. Qed.

(** The node's first child: the leaf, or the sibling. *)
Lemma load_first :
  load_slot (SChild (f_addr f) 0) m =
  Done (if f_dir f then ptr (f_sib f) else a + PTR_SIZE, m).
Proof.
  cbn. erewrite bind_done by exact (load_node_at _ _ _ cut_node_block). cbn beta.
  unfold frame_node. by destruct (f_dir f).
Qed.

Lemma load_side :
  load_slot (SChild (f_addr f) (of_bool (f_dir f))) m = Done (a + PTR_SIZE, m).
Proof.
  cbn. erewrite bind_done by exact (load_node_at _ _ _ cut_node_block). cbn beta.
  rewrite child_bool. unfold frame_node. by destruct (f_dir f).
Qed.

(** Comparing the first child with the key tells the side of the leaf. *)
Lemma compare_first first :
  IS_INTERNAL first = false → first = (if f_dir f then ptr (f_sib f) else a + PTR_SIZE) →
  ∃ d, (chars ← load_chars first; lift (strcmp (cstr k) chars)) m = Done (d, m) ∧
    (d =? 0) = negb (f_dir f).
Proof.
  intros Hint ->. pose proof Hcut as [Ha Hf _ _ Hsib (t & Ht & Htop) Hnin].
  destruct (f_dir f).
  - rewrite IS_INTERNAL_ptr in Hint by done. destruct (f_sib f) as [a' k' v'|] eqn:Hs; [|done].
    apply same_top_leaf in Htop. subst t.
    assert (m !! a' = Some (BString v' (cstr k'))) as Hblk.
    { eapply subtree_holds; [eapply mem_tree, (gl_mem Hg)|exact Ht|]. by left. }
    destruct (strcmp_keys k Hk k') as (d & Hd & Hz); [by destruct Hsib as [_ [? _]]|].
    exists d. cbn [ptr]. erewrite bind_done by exact (load_chars_at _ _ _ _ Hblk). rewrite Hd.
    split; [done|]. rewrite Hz. apply bool_decide_eq_false_2. intros ->. apply Hnin. by left.
  - exists 0. erewrite bind_done by exact (load_chars_at _ _ _ _ cut_leaf_block).
    by rewrite strcmp_cstr_eq by apply Hk.
Qed.

Lemma deleter_first :
  gs !! i = Some (at_step false 5) → ok (at_step false 5) (wrap (f_first k (f_addr f))).
Proof.
  intros Hi. pose proof (advance_done2 _ (λ first, same ← (if IS_INTERNAL first then mret false
          else cmp ← atomic (chars ← load_chars first; lift (strcmp (cstr k) chars)); mret (cmp =? 0));
    f_same (f_addr f) same) (λ ret, mret (ret, 0)) m _ m load_first) as Hrun.
  cbn beta in Hrun.
  destruct (IS_INTERNAL (if f_dir f then ptr (f_sib f) else a + PTR_SIZE)) eqn:Hint.
  - eapply (deleter_local false 5 3); [done|lia|exact Hrun|].
    destruct (f_dir f) eqn:Hd; [|by rewrite IS_INTERNAL_string in Hint by apply Hcut].
    pose proof (dl_side root fuel c0 c1 i k sh f a v Hph Hcut) as H. by rewrite Hd in H.
  - eapply (deleter_local false 5 4); [done|lia|exact Hrun|]. by apply (dl_cmp _ _ _ _ _ _ _ f a v).
Qed.

Lemma deleter_cmp first :
  gs !! i = Some (at_step false 4) → IS_INTERNAL first = false →
  first = (if f_dir f then ptr (f_sib f) else a + PTR_SIZE) →
  ok (at_step false 4) (wrap (f_cmp k (f_addr f) first)).
Proof.
  intros Hi Hint Hfirst. destruct (compare_first first Hint Hfirst) as (d & Hrun & Hd).
  eapply (deleter_local false 4 3); [done|lia| |].
  - pose proof (bind_done _ (λ cmp, mret (wrap (f_same (f_addr f) (cmp =? 0)))) m d m Hrun) as H.
    exact H.
  - rewrite Hd. pose proof (dl_side root fuel c0 c1 i k sh f a v Hph Hcut) as H.
    by destruct (f_dir f).
Qed.

Lemma deleter_side :
  gs !! i = Some (at_step false 3) →
  ok (at_step false 3) (wrap (f_side (f_addr f) (of_bool (f_dir f)))).
Proof.
  intros Hi. eapply (deleter_local false 3 2); [done|lia|exact (advance_done2 _ _ _ _ _ _ load_side)|].
  by apply (dl_str _ _ _ _ _ _ _ f a v).
Qed.
End release.

Lemma release_block b n n' a blk rest th th' :
  gs !! i = Some (at_step b n) → (n' < n)%nat → ph = After → sh_garbage sh = (a, blk) :: rest →
  advance th m = Done (th', delete a m) →
  deleter_ok i k (Shared T (sh_log sh) After None rest (sh_priv sh)) (at_step b n') th' →
  ok (at_step b n) th.
Proof.
  intros Hi Hn Hph Hgb Hrun Hok. pose proof (gl_limbo Hg) as Hlim.
  change (sh_phase sh) with ph in Hlim. rewrite Hph in Hlim.
  assert (sh_limbo sh = None) as HN.
  { destruct (sh_limbo sh) as [N|] eqn:HN; [|done]. destruct (Hlim N eq_refl) as [Ho _].
    by destruct Ho as [|[|]]. }
  eapply (deleter_moves b n b n' _ th' (delete a m) After None rest); try done.
  - destruct (gl_mem Hg) as (fr' & Hgm & Ho). rewrite Hgb in Hgm. exists (delete a fr'). split.
    + by eapply owns_free.
    + change (owns (root_cells root (root_of (<[i := at_step b n']> gs) After) T) (delete a fr') (delete a m)).
      rewrite (root_of_phase b b n n' After After) by done.
      change (sh_phase sh) with ph in Ho. rewrite Hph in Ho.
      eapply owns_frame_delete; [exact Ho|]. by eapply owns_lookup_hd.
  - by intros [[|[|]]|].
  - by left.
Qed.

Lemma deleter_mutex p :
  gs !! i = Some (at_step true 6) → ph = After → unlinked_ok i k sh p →
  ok (at_step true 6) (wrap (d_mutex root k p)).
Proof.
  intros Hi Hph Hun. assert (¬ phase_busy (sh_phase sh)) as Hidle.
  { change (sh_phase sh) with ph. rewrite Hph. by intros [[|[|]]|]. }
  assert (∀ n' th', (n' < 6)%nat → d_finish k p = th' →
    deleter_ok i k sh (at_step false n') (wrap th') → ok (at_step true 6) (wrap (d_mutex root k p)))
    as Hfinish.
  { intros n' th' Hn Heq Hok.
    apply (mutex_unlock_step _ _ _ _ _ _ _ _ _ i _ s gs sh m Hg 0 6 n' (λ _, wrap th'));
      [done|lia|done|by eapply priv_of_deleter|done|]. rewrite <-Heq. intros m' Hr. exact (advance_done2 _ _ _ _ _ _ Hr). }
  destruct Hun as [Hgb Hl|f a v Hcut].
  - eapply (Hfinish 0%nat); [lia|done|]. by apply dl_done.
  - eapply (Hfinish 5%nat (f_first k (f_addr f))); [lia| |by eapply dl_first].
    pose proof (cut_node_addr _ _ _ _ _ _ Hcut) as Ha. unfold d_finish, free_unlinked_thread.
    destruct (Z.eqb_spec (FROM_NODE (f_addr f)) 0) as [H0|_]; [unfold FROM_NODE in H0; destruct Ha; lia|].
    by rewrite IS_INTERNAL_node, TO_NODE_FROM_NODE.
Qed.

Lemma deleter_step g th : gs !! i = Some g → deleter_ok i k sh g th → ok g th.
Proof.
  intros Hi H. destruct H as
    [Hph Hgb Hn|Hph Hgb Hn|n t Hph Hgb Hn Ht|p Hph Hun|p Hph Hun|p Hph Hun|p Hph Hun|p Hph Hun|p Hph Hun
    |p Hph Hun|f a v Hph Hcut|f a v first Hph Hcut Hint Hfirst|f a v Hph Hcut|f a v Hph Hcut
    |a n Hph Hgb Hl|ret Hph Hgb Hl].
  - eapply (deleter_local false (2 * fuel + 17) (2 * fuel + 16)); [done|lia| |by apply dl_lock].
    refine (advance_done2 (lift (strlen (cstr k))) _ _ m (Z.of_nat (length k)) m _).
    by rewrite (strlen_cstr _ (proj1 Hk)).
  - apply (mutex_lock_step _ _ _ _ _ _ _ _ _ i _ s gs sh m Hg 0 (2 * fuel + 16) (2 * fuel + 15)
      (λ _, wrap (d_body root fuel k)));
      [done|lia|intros s' pend _ _; apply dl_body; [done..|apply di_body]|..].
    + intros [] m' Hr. exact (advance_done2 _ _ _ _ _ _ Hr).
    + intros Hb. by apply advance_blocked2.
  - by apply deleting_step.
  - eapply (deleter_local true 12 11); [done|lia| |by apply dl_prev].
    refine (advance_done2 _ _ _ m c0 m _).
    erewrite bind_done by exact (load_root_at _ _ _ (mem_root _ _ _ _ _ _ _ (gl_mem Hg))).
    cbn. by rewrite Hph.
  - eapply (deleter_local true 11 10); [done|lia| |by apply dl_cas1].
    refine (advance_done2 _ _ _ m c1 m _).
    erewrite bind_done by exact (load_root_at _ _ _ (mem_root _ _ _ _ _ _ _ (gl_mem Hg))).
    cbn. by rewrite Hph.
  - by apply deleter_cas1.
  - by apply deleter_cas2.
  - by apply deleter_wrlock.
  - by apply deleter_unlock.
  - by apply deleter_mutex.
  - by apply (deleter_first f a v).
  - by apply (deleter_cmp f a v).
  - by apply (deleter_side f a v).
  - pose proof (cut_garbage _ _ _ _ _ _ Hcut) as Hgb.
    eapply (release_block false 2 1); [done|lia|done|exact Hgb| |].
    + refine (advance_done2 _ _ _ m tt _ _). eapply free_string_at, (cut_leaf_block f a v Hcut).
    + eapply dl_node; [done..|]. apply Hcut.
  - eapply (release_block false 1 0); [done|lia|done|exact Hgb| |].
    + refine (advance_done2 _ _ _ m tt _ _). unfold free_node. eapply free_at.
      eapply mem_garbage; [apply Hg|]. rewrite Hgb. by left.
    + by apply dl_done.
  - by apply step_done.
Qed.
End deleter.
