(* ===== verification/CritRuns.v ===== *)
(** * CritRuns: every interleaving of readers and writers

    The invariant of [CritConc] along whole schedules: it holds at the start,
    every step of every thread keeps it, some thread can always move, and when
    all threads have finished the memory is that of a sequential tree. *)

From S2P Require Import Prelude.
From S2P Require Import KeyBits.
From S2P Require Import Critbit.
From S2P Require Import CritTree.
From S2P Require Import Own.
From S2P Require Import CritMem.
From S2P Require Import CritbitProofs.
From S2P Require Import CritbitMap.
From S2P Require Import Threads.
From S2P Require Import CritThreads.
From S2P Require Import CritView.
From S2P Require Import CritConc.
From S2P Require Import CritSteps.
From S2P Require Import CritInserter.
From S2P Require Import CritDeleter.

(** The calls the invariant is about: keys are C strings, at most one call
    deletes, and it does not delete [k0], so that the tree is never empty. *)
Definition call_ok (k0 : list Z) (c : call) : Prop :=
  match c with
  | Get k _ | Insert k _ => key_ok k
  | Delete k => key_ok k ∧ k ≠ k0
  end.
Record calls_ok (k0 : list Z) (calls : list call) : Prop := {
  calls_keys : Forall (call_ok k0) calls;
  calls_deleter i j k k' : calls !! i = Some (Delete k) → calls !! j = Some (Delete k') → i = j;
}.

Section runs.
Context {MA : Malloc} {MS : MallocSpec MA}.
Context (root : Z) (fr : mem) (fuel : nat) (calls : list call) (c0 c1 : lock_id) (Hc : c0 ≠ c1).
Context (m0 : mem) (M0 : gmap (list Z) Z) (k0 : list Z).

Notation now := (now root fuel calls m0).
Notation seen := (seen root fuel calls m0).
Notation knows := (knows root fuel calls m0).
Notation in_view := (in_view c0).
Notation root_of := (root_of c0 c1).
Notation mem_ok := (mem_ok root fr c0 c1).
Notation reader_ok := (reader_ok root fuel calls c0 m0).
Notation inserter_ok := (inserter_ok root fuel).
Notation deleter_ok := (deleter_ok root fuel c0 c1).
Notation thread_ok := (thread_ok root fuel calls c0 c1 m0).
Notation glob := (glob root fr fuel calls c0 c1 M0 k0).
Notation evolves := (evolves calls c0).

Notation step_ok := (step_ok root fr fuel calls c0 c1 m0 M0 k0).
Notation inv := (inv root fr fuel calls c0 c1 m0 M0 k0).
Notation run s := (run_schedule s m0 (start fuel root <$> calls)).
Context (Hcalls : calls_ok k0 calls).

Lemma thread_step i c s gs sh m g th :
  calls !! i = Some c → glob gs sh m → gs !! i = Some g →
  thread_ok i c s sh (total g_pend gs) g th → step_ok i c s gs sh m g th.
Proof.
  intros Hi Hg Hgi Hok. pose proof (Forall_lookup_1 _ _ _ _ (calls_keys _ _ Hcalls) Hi) as Hc1.
  destruct c as [k out|k v|k]; cbn in Hc1.
  - by eapply reader_step.
  - by eapply inserter_step.
  - destruct Hc1. by eapply deleter_step.
Qed.

(** A thread that does not move leaves everything as it is. *)
Lemma inv_idle i s gs sh m ts :
  inv s gs sh m ts → run (s ++ [i]) = Done (m, ts) → inv (s ++ [i]) gs sh m ts.
Proof.
  intros [Hg Hl1 Hl2 Hb Hth] Hrun. split; [done..|]. intros j c Hj.
  destruct (Hth j c Hj) as (g & th & Hgj & Htj & Hok). exists g, th. split_and!; [done..|].
  eapply (thread_ok_stable _ _ _ _ _ _ j i s (λ _, True) True); [by right|apply evolves_same|apply Hg| | |done|done|exact Hok].
  - exists m, ts. split; [done|]. eapply mem_tree_in; apply Hg.
  - intros k k' _. by left.
Qed.

(** What scheduling thread [i] does. *)
Variant progress (i : nat) (s : list nat) (gs : list ghost) (sh : shared) (m : mem)
    (ts : list (thread (Z * Z))) : Prop :=
  | progress_none :
      step_thread i m ts = Done (m, ts) → inv (s ++ [i]) gs sh m ts → progress i s gs sh m ts
  | progress_move gs' sh' m' ts' :
      step_thread i m ts = Done (m', ts') → inv (s ++ [i]) gs' sh' m' ts' →
      (total g_left gs' < total g_left gs)%nat → progress i s gs sh m ts.

Lemma run_snoc s i m ts : run s = Done (m, ts) → run (s ++ [i]) = step_thread i m ts.
Proof.
  intros H. rewrite run_schedule_app, H. cbn. by destruct (step_thread i m ts) as [[m' ts']| | |].
Qed.

Lemma inv_move i c s gs sh m ts g th g' sh' th' m' :
  inv s gs sh m ts → run s = Done (m, ts) → calls !! i = Some c → gs !! i = Some g →
  ts !! i = Some th →
  let gs' := <[i := g']> gs in
  advance th m = Done (th', m') → glob gs' sh' m' →
  (now (s ++ [i]) (to_map (sh_tree sh')) →
    thread_ok i c (s ++ [i]) sh' (total g_pend gs') g' th') →
  evolves i (others gs i) (other_holds gs i) sh (total g_pend gs) sh' (total g_pend gs') →
  (g_left g' < g_left g)%nat →
  step_thread i m ts = Done (m', <[i := th']> ts) ∧ inv (s ++ [i]) gs' sh' m' (<[i := th']> ts) ∧
    (total g_left gs' < total g_left gs)%nat.
Proof.
  intros Hinv Hrun Hi Hgi Hti gs' Hadv Hg' Hok Hev Hlt. pose proof Hinv as [Hg Hl1 Hl2 Hb Hth].
  assert (step_thread i m ts = Done (m', <[i := th']> ts)) as Hst.
  { unfold step_thread. by rewrite Hti, Hadv. }
  assert (now (s ++ [i]) (to_map (sh_tree sh'))) as Hnow.
  { exists m', (<[i := th']> ts). split; [by rewrite (run_snoc _ _ _ _ Hrun)|].
    eapply mem_tree_in; apply Hg'. }
  pose proof (total_update g_left gs i g g' Hgi) as Htot. fold gs' in Htot.
  split_and!; [done| |lia]. split; [done|by unfold gs'; rewrite length_insert|by rewrite length_insert|lia|].
  intros j c' Hj. destruct (decide (i = j)) as [<-|Hne].
  - exists g', th'. rewrite Hi in Hj. injection Hj as <-. unfold gs'.
    rewrite !list_lookup_insert_eq by (by eapply lookup_lt_Some). split_and!; [done..|by apply Hok].
  - destruct (Hth j c' Hj) as (h & thj & Hgj & Htj & Hokj). exists h, thj. unfold gs'.
    rewrite !list_lookup_insert_ne by done. split_and!; [done..|].
    eapply (thread_ok_stable _ _ _ _ _ _ j i s); [by left|exact Hev|apply Hg'|exact Hnow| | | |exact Hokj].
    + intros k k' ->. right. intros Hdel. apply Hne. by eapply calls_deleter.
    + intros l Hl. by exists j, h.
    + intros Hm. by exists j, h.
Qed.

Lemma inv_step i s gs sh m ts :
  inv s gs sh m ts → run s = Done (m, ts) → progress i s gs sh m ts.
Proof.
  intros Hinv Hrun. assert (step_thread i m ts = Done (m, ts) → progress i s gs sh m ts) as Hidle.
  { intros Hst. apply progress_none; [done|]. apply inv_idle; [done|]. by rewrite (run_snoc _ _ _ _ Hrun). }
  destruct (calls !! i) as [c|] eqn:Hi.
  2:{ apply Hidle. unfold step_thread. rewrite (lookup_ge_None_2 ts); [done|].
      rewrite (inv_length Hinv). by apply lookup_ge_None. }
  destruct (inv_threads Hinv i c Hi) as (g & th & Hgi & Hti & Hok).
  assert (advance th m = Blocked → step_thread i m ts = Done (m, ts)) as Hblocked.
  { intros Hb. unfold step_thread. by rewrite Hti, Hb. }
  pose proof (thread_step i c s gs sh m g th Hi (inv_glob Hinv) Hgi Hok) as Hstep.
  destruct Hstep as [res Hl Hm|th Hb Hw|th th' m' g' sh' gs' Hadv Hg' Hok' Hev Hlt].
  - apply Hidle. unfold step_thread. rewrite Hti. cbn. by rewrite list_insert_id.
  - by apply Hidle, Hblocked.
  - destruct (inv_move i c s gs sh m ts g th g' sh' th' m' Hinv Hrun Hi Hgi Hti Hadv Hg' Hok' Hev Hlt)
      as (H1 & H2 & H3). by eapply progress_move.
Qed.

(** ** Finished threads *)

Lemma bind_not_ret {A B} (t : thread A) (f : A → thread B) r :
  (∀ a, f a ≠ Ret r) → t ≫= f ≠ Ret r.
Proof. intros Hf. destruct t; [apply Hf|done]. Qed.

Lemma reader_ret i k out s sh pend g res :
  reader_ok i k out s sh pend g (Ret res) →
  g_lock g = None ∧ g_mutex g = false ∧
  ∃ o, res = lookup_result o out ∧ seen_done root fuel calls m0 i s k o.
Proof.
  intros H. remember (Ret res) as th eqn:Hth. destruct H; try discriminate.
  all: try (exfalso; revert Hth; by apply bind_not_ret).
  injection Hth as <-. split_and!; [done..|]. by exists o.
Qed.

Lemma inserter_ret i k v sh g res :
  inserter_ok i k v sh g (Ret res) →
  g_lock g = None ∧ g_mutex g = false ∧ ∃ ret, res = (ret, 0) ∧ (i, ret) ∈ sh_log sh.
Proof.
  intros H. remember (Ret res) as th eqn:Hth. destruct H; try discriminate.
  1: by destruct t.
  injection Hth as <-. split_and!; [done..|]. by exists ret.
Qed.

Lemma deleting_ret k T n t res : deleting root fuel k T n t → wrap t ≠ Ret res.
Proof.
  assert (∀ u, wrap (u ≫= d_cur root k) ≠ Ret res) as Hcur by (by intros []).
  intros H. destruct H; exact (Hcur _).
Qed.

Lemma deleter_ret i k sh g res :
  deleter_ok i k sh g (Ret res) →
  g_lock g = None ∧ g_mutex g = false ∧ sh_garbage sh = [] ∧
  ∃ ret, res = (ret, 0) ∧ (i, ret) ∈ sh_log sh.
Proof.
  intros H. remember (Ret res) as th eqn:Hth. destruct H; try discriminate.
  1: exfalso; revert Hth; by eapply deleting_ret.
  injection Hth as <-. split_and!; [done..|]. by exists ret.
Qed.

Definition writer_call (c : call) : bool := match c with Get _ _ => false | _ => true end.

(** A finished writer is in the log. *)
Lemma writer_ret s gs sh m ts i c res :
  inv s gs sh m ts → calls !! i = Some c → writer_call c = true → ts !! i = Some (Ret res) →
  (i, res.1) ∈ sh_log sh.
Proof.
  intros Hinv Hi Hw Hti. destruct (inv_threads Hinv i c Hi) as (g & th & _ & Hti' & Hok).
  rewrite Hti in Hti'. injection Hti' as <-. destruct c as [k out|k v|k]; [done|..]; cbn in Hok.
  - apply inserter_ret in Hok as (_ & _ & ret & -> & H). done.
  - apply deleter_ret in Hok as (_ & _ & _ & ret & -> & H). done.
Qed.

Lemma thread_ret i c s sh pend g res :
  thread_ok i c s sh pend g (Ret res) → g_lock g = None ∧ g_mutex g = false.
Proof.
  destruct c; cbn.
  - by intros (? & ? & _)%reader_ret.
  - by intros (? & ? & _)%inserter_ret.
  - by intros (? & ? & _)%deleter_ret.
Qed.

Lemma total_zero f gs : (∀ i g, gs !! i = Some g → f g = O) → total f gs = O.
Proof.
  intros H. destruct (decide (total f gs = O)) as [|Hn]; [done|].
  destruct (total_pos f gs) as (i & g & Hi & Hg); [lia|]. rewrite (H i g Hi) in Hg. lia.
Qed.

(** When all threads have finished the memory is a tree with idle locks. *)
Lemma finished_represents s gs sh m results :
  inv s gs sh m (Ret <$> results) → represents root (to_map (sh_tree sh)) fr m.
Proof.
  intros Hinv. pose proof (inv_glob Hinv) as Hg.
  assert (∀ i g, gs !! i = Some g → g_lock g = None ∧ g_mutex g = false ∧
    ∀ k, calls !! i = Some (Delete k) → sh_garbage sh = []) as Hdone.
  { intros i g Hgi. pose proof (lookup_lt_Some _ _ _ Hgi) as Hlt. rewrite (inv_ghosts Hinv) in Hlt.
    destruct (lookup_lt_is_Some_2 _ _ Hlt) as [c Hci].
    destruct (inv_threads Hinv i c Hci) as (g' & th & Hgi' & Hti & Hok).
    rewrite Hgi in Hgi'. injection Hgi' as <-.
    rewrite list_lookup_fmap in Hti. apply fmap_Some in Hti as (res & _ & ->).
    destruct (thread_ret _ _ _ _ _ _ _ Hok) as [Hl Hm]. split_and!; [done..|]. intros k Hk.
    rewrite Hci in Hk. injection Hk as ->. by apply deleter_ret in Hok as (_ & _ & ? & _). }
  assert (total locks gs = O) as Hlocks.
  { apply total_zero. intros i g Hi. destruct (Hdone i g Hi) as (_ & Hm & _). unfold locks. by rewrite Hm. }
  assert (∀ l, total (reads l) gs = O) as Hreads.
  { intros l. apply total_zero. intros i g Hi. destruct (Hdone i g Hi) as (Hl & _). unfold reads. by rewrite Hl. }
  assert (¬ phase_busy (sh_phase sh)) as Hidle by (by eapply idle_of_free).
  assert (sh_garbage sh = []) as Hgb.
  { destruct (decide (sh_garbage sh = [])) as [|Hn]; [done|]. exfalso. apply Hn, (gl_clean Hg).
    intros j k Hj. apply Hn. pose proof (lookup_lt_Some _ _ _ Hj) as Hlt.
    rewrite <-(inv_ghosts Hinv) in Hlt. destruct (lookup_lt_is_Some_2 _ _ Hlt) as [g Hgj].
    by eapply Hdone. }
  destruct (gl_mem Hg) as (fr' & Hgm & Ho). assert (sh_priv sh = []) as Hpr by (by eapply priv_of_free).
  rewrite Hgb, Hpr in Hgm. apply owns_nil in Hgm. subst fr'.
  exists (root_of gs (sh_phase sh)), (Some (sh_tree sh)). split; [|by split; [split; [apply Hg|]|]].
  apply phase_busy_not in Hidle. unfold locks_idle, CritConc.root_of, lock_of. cbn.
  rewrite Hlocks, !Hreads. by destruct Hidle as [-> | ->].
Qed.

(** ** Somebody can always move *)


Lemma mover i s gs sh m ts g th :
  inv s gs sh m ts → run s = Done (m, ts) → gs !! i = Some g → ts !! i = Some th →
  ¬ waits gs sh g → finished th = false ∨ g_lock g ≠ None ∨ g_mutex g ≠ false →
  ∃ gs' sh' m' ts', step_thread i m ts = Done (m', ts') ∧ inv (s ++ [i]) gs' sh' m' ts' ∧
    (total g_left gs' < total g_left gs)%nat.
Proof.
  intros Hinv Hrun Hgi Hti Hnw Hact.
  pose proof (lookup_lt_Some _ _ _ Hgi) as Hlt. rewrite (inv_ghosts Hinv) in Hlt.
  destruct (lookup_lt_is_Some_2 _ _ Hlt) as [c Hci].
  destruct (inv_threads Hinv i c Hci) as (g0 & th0 & Hgi' & Hti' & Hok). simplify_eq.
  destruct (thread_step i c s gs sh m g th Hci (inv_glob Hinv) Hgi Hok)
    as [res Hl Hm|th _ Hw|th th' m' g' sh' gs' Hadv Hg' Hok' Hev Hlt'].
  - destruct Hact as [|[|]]; done.
  - done.
  - destruct (inv_move i c s gs sh m ts g th g' sh' th' m' Hinv Hrun Hci Hgi Hti Hadv Hg' Hok' Hev Hlt')
      as (H1 & H2 & H3). by eexists _, _, _, _.
Qed.

Lemma some_thread_moves s gs sh m ts :
  inv s gs sh m ts → run s = Done (m, ts) →
  (∃ results, ts = Ret <$> results) ∨
  ∃ i gs' sh' m' ts', step_thread i m ts = Done (m', ts') ∧ inv (s ++ [i]) gs' sh' m' ts' ∧
    (total g_left gs' < total g_left gs)%nat.
Proof.
  intros Hinv Hrun. assert (∀ i g, gs !! i = Some g → ∃ th, ts !! i = Some th) as Hth.
  { intros i g Hi%lookup_lt_Some. rewrite (inv_ghosts Hinv), <-(inv_length Hinv) in Hi.
    by apply lookup_lt_is_Some_2. }
  (* a reader that holds a lock *)
  destruct (decide (total (λ g, if g_lock g then 1 else 0) gs = 0)%nat) as [Hr|Hr].
  2:{ right. destruct (total_pos (λ g, if g_lock g then 1 else 0)%nat gs) as (i & g & Hi & Hl); [lia|].
      exists i. destruct (Hth i g Hi) as [th Hti].
      eapply mover; [exact Hinv|done|exact Hi|exact Hti|by intros [H _]; rewrite H in Hl; lia|].
      right. left. intros H. rewrite H in Hl. lia. }
  assert (∀ j h l, gs !! j = Some h → g_lock h ≠ Some l) as Hnone.
  { intros j h l Hj Hl. pose proof (total_ge (λ g, if g_lock g then 1 else 0)%nat gs j h Hj) as H.
    cbn in H. rewrite Hl in H. lia. }
  (* the holder of the mutex *)
  destruct (decide (total locks gs = 0)%nat) as [Hm|Hm].
  2:{ right. destruct (total_pos locks gs) as (i & g & Hi & Hl); [lia|]. exists i.
      destruct (Hth i g Hi) as [th Hti]. assert (g_mutex g = true) as Hmu.
      { unfold locks in Hl. destruct (g_mutex g); [done|lia]. }
      eapply mover; [exact Hinv|done|exact Hi|exact Hti| |right; right; congruence].
      intros [_ [[H _]|(j & h & l & Hj & Hl')]]; [congruence|by eapply Hnone]. }
  (* nobody holds anything *)
  destruct (decide (Forall (λ t, finished t = true) ts)) as [Hall|Hn].
  - left. clear -Hall. induction Hall as [|[r|] ts Hf _ [results ->]]; [by exists []|by exists (r :: results)|done].
  - right. apply not_Forall_Exists in Hn; [|intros t; apply _].
    apply Exists_exists in Hn as (th & Hin & Hf). apply list_elem_of_lookup in Hin as [i Hti].
    pose proof (lookup_lt_Some _ _ _ Hti) as Hlt. rewrite (inv_length Hinv), <-(inv_ghosts Hinv) in Hlt.
    destruct (lookup_lt_is_Some_2 _ _ Hlt) as [g Hgi]. exists i.
    eapply mover; [exact Hinv|done|exact Hgi|exact Hti| |left; cbn in Hf; by destruct (finished th)].
    intros [_ [[_ [Hb|H]]|(j & h & l & Hj & Hl')]]; [|lia|by eapply Hnone].
    by eapply idle_of_free; [exact (inv_glob Hinv)|..].
Qed.

Lemma run_completes s gs sh m ts :
  inv s gs sh m ts → run s = Done (m, ts) →
  ∃ s' gs' sh' m' results, (length s' ≤ total g_left gs)%nat ∧
    run (s ++ s') = Done (m', Ret <$> results) ∧ inv (s ++ s') gs' sh' m' (Ret <$> results).
Proof.
  remember (total g_left gs) as n eqn:Hn. revert s gs sh m ts Hn.
  induction (lt_wf n) as [n _ IH]. intros s gs sh m ts -> Hinv Hrun.
  destruct (some_thread_moves s gs sh m ts Hinv Hrun)
    as [(results & ->)|(i & gs1 & sh1 & m1 & ts1 & Hst & Hinv1 & Hlt)].
  - exists [], gs, sh, m, results. rewrite app_nil_r. split_and!; [cbn; lia|done..].
  - destruct (IH _ Hlt (s ++ [i]) gs1 sh1 m1 ts1 eq_refl Hinv1) as (s' & gs' & sh' & m' & results & Hlen & Hr & Hi).
    { by rewrite (run_snoc _ _ _ _ Hrun). }
    exists (i :: s'), gs', sh', m', results. rewrite <-app_assoc in Hr, Hi. cbn in Hr, Hi |- *.
    split_and!; [lia|done..].
Qed.

(** ** The start *)

Definition ghost_of (c : call) : ghost :=
  match c with
  | Get _ _ => Ghost None false 0 (2 * fuel + 7)
  | Insert _ _ => Ghost None false 1 (4 * fuel + 15)
  | Delete _ => Ghost None false 0 (2 * fuel + 17)
  end.

Lemma total_bound f n (cs : list call) :
  (∀ c, f (ghost_of c) ≤ n)%nat → (total f (ghost_of <$> cs) ≤ n * length cs)%nat.
Proof.
  intros Hf. induction cs as [|c cs IH]; unfold total in *; cbn; [lia|]. specialize (Hf c). lia.
Qed.

Lemma inv_start t r :
  locks_idle r → cur_rwlock r = c0 → prev_rwlock r = c1 → wf t → k0 ∈ keys t → M0 = to_map t →
  (size M0 + length calls < fuel)%nat → owns (root_cells root r t) fr m0 →
  inv [] (ghost_of <$> calls) (Shared t [] Before None [] []) m0 (start fuel root <$> calls).
Proof.
  intros Hidle Hcur Hprev Hwf Hk0 HM Hfuel Ho.
  assert (total locks (ghost_of <$> calls) = O) as Hlocks.
  { pose proof (total_bound locks 0 calls (λ c, ltac:(by destruct c))) as H. lia. }
  assert (∀ l, total (reads l) (ghost_of <$> calls) = O) as Hreads.
  { intros l. assert (total (reads l) (ghost_of <$> calls) ≤ 0 * length calls)%nat; [|lia].
    apply total_bound. intros []; cbn; by rewrite reads_none. }
  assert (total g_pend (ghost_of <$> calls) ≤ 1 * length calls)%nat as Hpend.
  { apply total_bound. intros []; cbn; lia. }
  split; [|by rewrite length_fmap|by rewrite length_fmap|by apply total_bound; intros []; cbn; lia|].
  - split; cbn; try done.
    + exists fr. split; [by apply owns_nil|]. cbn.
      replace (root_of (ghost_of <$> calls) Before) with (set_head 0 r); [exact Ho|].
      destruct Hidle as (Hw & Hl & Hr & _), r as [h w lr rr cur prev]. cbn in *. subst.
      unfold CritConc.root_of, lock_of. rewrite Hlocks, !Hreads. done.
    + rewrite HM. apply writes_nil.
    + lia.
    + pose proof (height_size t Hwf) as Hh. rewrite <-HM in Hh. lia.
    + by intros [[|[|]]|].
  - intros i c Hi. exists (ghost_of c), (start fuel root c). rewrite !list_lookup_fmap, Hi.
    split_and!; [done..|]. destruct c as [k out|k v|k]; cbn.
    + apply rd_start.
    + apply ins_start. by apply not_elem_of_nil.
    + apply dl_start; [done..|]. by apply not_elem_of_nil.
Qed.

Lemma run_inv s gs0 sh0 :
  inv [] gs0 sh0 m0 (start fuel root <$> calls) →
  ∃ gs sh m ts, run s = Done (m, ts) ∧ inv s gs sh m ts.
Proof.
  intros H0. induction s as [|i s IH] using rev_ind; [by exists gs0, sh0, m0, (start fuel root <$> calls)|].
  destruct IH as (gs & sh & m & ts & Hrun & Hinv).
  destruct (inv_step i s gs sh m ts Hinv Hrun) as [Hst Hinv'|gs' sh' m' ts' Hst Hinv' _].
  - exists gs, sh, m, ts. by rewrite (run_snoc _ _ _ _ Hrun).
  - exists gs', sh', m', ts'. by rewrite (run_snoc _ _ _ _ Hrun).
Qed.
End runs.
