(* ===== verification/CritConcTheorems.v ===== *)
(** * CritConcTheorems: what critbit.c guarantees to concurrent callers

    A thread that runs alone is the sequential function; any number of readers
    and inserters with one deletion are safe, linearizable and never stuck;
    and with two deletions a reader can touch freed memory. *)

From S2P Require Import Prelude.
From S2P Require Import KeyBits.
From S2P Require Import Critbit.
From S2P Require Import CritTree.
From S2P Require Import Own.
From S2P Require Import CritMem.
From S2P Require Import CritbitProofs.
From S2P Require Import CritbitMap.
From S2P Require Import Threads.
From S2P Require Import CritThreads.
From S2P Require Import CritView.
From S2P Require Import CritConc.
From S2P Require Import CritRuns.
From S2P Require Import CritbitTheorems.

(** ** Threads that run alone *)

Lemma bind_ext2 {A B} (c1 c2 : cmd mem A) (k1 k2 : A → cmd mem B) m :
  c1 m = c2 m → (∀ a m', c2 m = Done (a, m') → k1 a m' = k2 a m') → (c1 ≫= k1) m = (c2 ≫= k2) m.
Proof. intros H Hk. rewrite (bind_same c1 c2 k1 m m H). by apply bind_ext. Qed.

Lemma solo_atomic {A B} (c : cmd mem A) (k : A → thread B) m :
  solo (atomic c ≫= k) m = (c ≫= λ a, solo (k a)) m.
Proof. done. Qed.

Lemma ret_bind {A B} (a : A) (k : A → cmd mem B) m : (mret a ≫= k) m = k a m.
Proof. done. Qed.

Lemma load_root_same a m r m' : load_root a m = Done (r, m') → m' = m.
Proof. unfold load_root. destruct (m !! a) as [[]|]; congruence. Qed.

Lemma load_node_same a m n m' : load_node a m = Done (n, m') → m' = m.
Proof. unfold load_node. destruct (m !! a) as [[]|]; congruence. Qed.

Lemma solo_find_nearest fuel p bytes len m :
  solo (find_nearest_thread fuel p bytes len) m = find_nearest_loop fuel p bytes len m.
Proof.
  revert p m. induction fuel as [|fuel IH]; intros p m; [done|].
  cbn [find_nearest_thread find_nearest_loop]. destruct (IS_INTERNAL p); [|done].
  rewrite solo_atomic, bind_assoc. apply bind_ext. intros n m' Hn. pose proof (load_node_same _ _ _ _ Hn) as ->.
  apply bind_ext. intros d m' Hd.
  assert (m' = m) as -> by (unfold lift in Hd; destruct (get_direction n bytes len); by simplify_eq/=).
  rewrite solo_atomic. cbn [load_slot]. rewrite bind_assoc, (bind_done _ _ m n m Hn). apply bind_ext. intros q m' _. apply IH.
Qed.

Lemma rdlock_size root l m u m' : pthread_rwlock_rdlock root l m = Done (u, m') → size m' = size m.
Proof.
  intros (r & m1 & Hr & H)%bind_inv. unfold load_root in Hr.
  destruct (m !! root) as [[|r'|]|] eqn:Hm; try done. injection Hr as <- <-.
  cbn zeta in H. destruct (writer (get_rwlock l r')); [done|]. unfold store_root in H. rewrite Hm in H. injection H as _ <-.
  rewrite map_size_insert_Some; [done|by eexists].
Qed.

Lemma solo_get root key out m :
  solo (critbit_get_thread (S (size m)) root key out) m = critbit_get root key out m.
Proof.
  unfold critbit_get_thread, critbit_get. rewrite solo_atomic. apply bind_ext. intros len m1 H1.
  assert (m1 = m) as -> by (unfold lift in H1; destruct (strlen key); by simplify_eq/=).
  rewrite solo_atomic, bind_assoc. apply bind_ext. intros r m2 H2.
  assert (m2 = m) as -> by (unfold load_root in H2; destruct (m !! root) as [[]|]; congruence).
  rewrite (bind_done _ _ m (cur_rwlock r) m) by done. rewrite solo_atomic.
  apply bind_ext. intros [] m3 H3%rdlock_size. rewrite solo_atomic. cbn [load_slot].
  rewrite bind_assoc. apply bind_ext. intros r' m4 H4.
  assert (m4 = m3) as -> by (unfold load_root in H4; destruct (m3 !! root) as [[]|]; congruence).
  rewrite (bind_done _ _ m3 (head r') m3) by done. rewrite solo_bind.
  apply (bind_ext2 (solo _)).
  { rewrite solo_find_nearest, <-H3. done. }
  intros nearest m5 _. rewrite solo_atomic, bind_assoc. apply bind_ext. intros chars m6 _.
  apply bind_ext. intros cmp m7 _. rewrite solo_bind. apply (bind_ext2 (solo _)).
  { by destruct (cmp =? 0). }
  intros res m8 _. rewrite solo_atomic. done.
Qed.

(** *** Commands that allocate nothing *)

Definition keeps_size {A} (c : cmd mem A) : Prop := ∀ m a m', c m = Done (a, m') → size m' = size m.

Lemma keeps_bind {A B} (c : cmd mem A) (f : A → cmd mem B) :
  keeps_size c → (∀ a, keeps_size (f a)) → keeps_size (c ≫= f).
Proof.
  intros Hc Hf m b m' (a & m1 & H1 & H2)%bind_inv. by rewrite (Hf a _ _ _ H2), (Hc _ _ _ H1).
Qed.
Lemma keeps_lift {A} (o : outcome A) : keeps_size (lift o : cmd mem A).
Proof. intros m a m' H. unfold lift in H. destruct o; by simplify_eq/=. Qed.
Lemma keeps_ret {A} (a : A) : keeps_size (mret a : cmd mem A).
Proof. by intros m ? ? [= _ <-]. Qed.
Lemma keeps_fail {A} : keeps_size (nofuel : cmd mem A).
Proof. by intros m a m'. Qed.
Lemma keeps_blocked {A} : keeps_size (blocked : cmd mem A).
Proof. by intros m a m'. Qed.
Lemma keeps_load_node a : keeps_size (load_node a).
Proof. intros m n m' ->%load_node_same. done. Qed.
Lemma keeps_load_root a : keeps_size (load_root a).
Proof. intros m r m' H. unfold load_root in H. destruct (m !! a) as [[]|]; congruence. Qed.
Lemma keeps_load_chars a : keeps_size (load_chars a).
Proof. intros m r m' H. unfold load_chars in H. destruct (m !! _) as [[]|]; congruence. Qed.
Lemma keeps_store_node a n : keeps_size (store_node a n).
Proof.
  intros m [] m' H. unfold store_node in H. destruct (m !! a) as [[]|] eqn:Ha; simplify_eq.
  by apply map_size_insert_Some.
Qed.
Lemma keeps_store_root a r : keeps_size (store_root a r).
Proof.
  intros m [] m' H. unfold store_root in H. destruct (m !! a) as [[]|] eqn:Ha; simplify_eq.
  by apply map_size_insert_Some.
Qed.

Create HintDb keeps.
#[local] Hint Resolve keeps_lift keeps_ret keeps_fail keeps_blocked keeps_load_node keeps_load_root keeps_load_chars
  keeps_store_node keeps_store_root : keeps.
(** Commands made of these, and of case distinctions. *)
Ltac keeps := repeat (first [apply keeps_bind; [|intros ?] | case_match | progress eauto with keeps]).

Lemma keeps_store_slot w p : keeps_size (store_slot w p).
Proof. destruct w; cbn; keeps. Qed.
Lemma keeps_load_byte p n : keeps_size (load_byte p n).
Proof. unfold load_byte. keeps. Qed.
Lemma keeps_mutex_lock root : keeps_size (pthread_mutex_lock root).
Proof. unfold pthread_mutex_lock. keeps. Qed.
#[local] Hint Resolve keeps_store_slot keeps_load_byte keeps_mutex_lock : keeps.

Lemma keeps_find_nearest fuel p bytes len : keeps_size (find_nearest_loop fuel p bytes len).
Proof. revert p. induction fuel as [|fuel IH]; intros p; cbn [find_nearest_loop]; keeps. Qed.
Lemma keeps_diff_loop fuel p bytes len n : keeps_size (diff_loop fuel p bytes len n).
Proof. revert n. induction fuel as [|fuel IH]; intros n; cbn [diff_loop]; keeps. Qed.
#[local] Hint Resolve keeps_find_nearest keeps_diff_loop : keeps.

(** *** Insertion *)

Lemma solo_insert_loop fuel w nb nob bytes len m :
  solo (insert_loop_thread fuel w nb nob bytes len) m = insert_loop fuel w nb nob bytes len m.
Proof.
  revert w m. induction fuel as [|fuel IH]; intros w m; [done|]. cbn [insert_loop_thread insert_loop].
  rewrite solo_atomic. apply bind_ext. intros p m1 _. destruct (negb (IS_INTERNAL p)); [done|].
  rewrite solo_atomic, bind_assoc. apply bind_ext. intros q m2 _.
  destruct (nb <? u32 (byte q)); [done|]. destruct ((u32 (byte q) =? nb) && (nob <? otherbits q)); [done|].
  rewrite bind_assoc. apply bind_ext. intros dir m3 _. apply IH.
Qed.

Lemma solo_insert_link root key len node x nb nob dir m :
  solo (insert_link_thread (S (size m)) root key len node x nb nob dir) m =
  insert_link root key len node x nb nob dir m.
Proof.
  unfold insert_link_thread, insert_link. rewrite solo_atomic, !bind_assoc. apply bind_ext.
  intros n1 m1 H1%keeps_load_node. rewrite !bind_assoc. apply bind_ext. intros [] m2 H2%keeps_store_node.
  rewrite !bind_assoc. apply bind_ext. intros n2 m3 H3%keeps_load_node. rewrite !bind_assoc.
  apply bind_ext. intros [] m4 H4%keeps_store_node. apply bind_ext. intros [] m5 H5%keeps_store_slot.
  rewrite solo_bind. assert (size m5 = size m) as Hm by congruence.
  rewrite (bind_done walk_fuel _ m5 (S (size m5)) m5) by done. rewrite Hm.
  apply bind_ext2; [apply solo_insert_loop|done].
Qed.

Section insert.
Context {MA : Malloc} {MS : MallocSpec MA}.

(** An allocation that succeeds adds one block. *)
Lemma malloc_block_size n b m a m' :
  malloc_block n b m = Done (a, m') → (a =? 0) = false → size m' = S (size m).
Proof.
  unfold malloc_block. destruct (malloc m n) as [a'|] eqn:Hm; [|by intros [= <- _]]. intros [= <- <-] _.
  apply map_size_insert_None. by eapply malloc_fresh.
Qed.

Lemma alloc_string_size key len v m x m' :
  alloc_string key len v m = Done (x, m') → (x =? 0) = false → size m' = S (size m).
Proof.
  unfold alloc_string. intros (p & m1 & H1 & H)%bind_inv Hx. destruct (p =? 0) eqn:Hp; [by injection H as <- _|].
  pose proof (malloc_block_size _ _ _ _ _ H1 Hp) as Hs.
  assert (is_Some (m1 !! p)) as Hin.
  { unfold malloc_block in H1. destruct (malloc m _) as [a|]; injection H1 as <- <-; [|done].
    rewrite lookup_insert_eq. by eexists. }
  apply bind_inv in H as (? & ? & [= <- <-] & H). apply bind_inv in H as (? & ? & [= <- <-] & H).
  apply bind_inv in H as (chars & m3 & H3 & H). unfold lift in H3.
  destruct (buf_take key (len + 1)); simplify_eq/=. injection H as _ <-.
  rewrite insert_insert_eq. rewrite map_size_insert_Some by done. done.
Qed.

Lemma solo_insert_found root key len v p nb bits m :
  solo (insert_found_thread (2 + S (size m)) root key len v p nb bits) m =
  insert_found root key len v p nb bits m.
Proof.
  unfold insert_found_thread, insert_found. rewrite solo_atomic, bind_assoc. apply bind_ext.
  intros b m1 H1%keeps_lift. cbv zeta. rewrite bind_assoc. apply bind_ext. intros c m2 H2%keeps_load_byte.
  rewrite ret_bind, solo_atomic. apply bind_ext. intros node m3 H3. destruct (node =? 0) eqn:Hn; [done|].
  rewrite solo_atomic. apply bind_ext. intros x m4 H4. destruct (x =? 0) eqn:Hx; [done|]. cbn [fst snd].
  rewrite <-solo_insert_link. do 2 f_equal.
  rewrite (alloc_string_size _ _ _ _ _ _ H4 Hx), (malloc_block_size _ _ _ _ _ H3 Hn), H2, H1. done.
Qed.

Lemma solo_insert_inplace root key len v m :
  solo (critbit_insert_inplace_thread (S (size m)) root key len v) m = critbit_insert_inplace root key len v m.
Proof.
  unfold critbit_insert_inplace_thread, critbit_insert_inplace. rewrite solo_atomic. cbn [load_slot].
  rewrite bind_assoc. apply bind_ext. intros r m1 Hr. pose proof (load_root_same _ _ _ _ Hr) as ->.
  rewrite ret_bind. destruct (head r =? 0).
  { rewrite solo_atomic. apply bind_ext. intros p m2 _. by destruct (p =? 0). }
  rewrite solo_atomic. rewrite (bind_done _ _ m (head r) m) by by rewrite (bind_done _ _ m r m Hr).
  rewrite solo_bind. apply bind_ext2; [apply solo_find_nearest|]. intros p m2 H2%keeps_find_nearest.
  rewrite solo_atomic. apply bind_ext. intros [[nb bits]|] m3 H3%keeps_diff_loop; [|done].
  rewrite <-solo_insert_found. by rewrite H3, H2.
Qed.

Lemma solo_insert root key value m :
  solo (critbit_insert_thread (S (size m)) root key value) m = critbit_insert root key value m.
Proof.
  unfold critbit_insert_thread, critbit_insert. rewrite solo_atomic. apply bind_ext.
  intros len m1 H1%keeps_lift. rewrite solo_atomic. apply bind_ext. intros [] m2 H2%keeps_mutex_lock.
  rewrite solo_bind. rewrite <-H1, <-H2. apply bind_ext2; [apply solo_insert_inplace|done].
Qed.
End insert.

(** *** Deletion *)

Lemma solo_delete_loop fuel p w wq q dir bytes len m :
  solo (delete_loop_thread fuel p w wq q dir bytes len) m = delete_loop fuel p w wq q dir bytes len m.
Proof.
  revert p w wq q dir m. induction fuel as [|fuel IH]; intros p w wq q dir m; [done|].
  cbn [delete_loop_thread delete_loop]. destruct (IS_INTERNAL p); [|done].
  rewrite solo_atomic, bind_assoc. apply bind_ext. intros n m1 _. apply bind_ext. intros d m2 _.
  rewrite solo_atomic. apply bind_ext. intros p' m3 _. apply IH.
Qed.

Lemma solo_delete_inplace root key len m :
  solo (critbit_delete_inplace_thread (S (size m)) root key len) m = critbit_delete_inplace root key len m.
Proof.
  unfold critbit_delete_inplace_thread, critbit_delete_inplace. rewrite solo_atomic. cbn [load_slot].
  rewrite bind_assoc. apply bind_ext. intros r m1 Hr. pose proof (load_root_same _ _ _ _ Hr) as ->.
  rewrite ret_bind. destruct (head r =? 0); [done|].
  rewrite solo_atomic. rewrite (bind_done _ _ m (head r) m) by by rewrite (bind_done _ _ m r m Hr).
  rewrite solo_bind. rewrite (bind_done walk_fuel _ m (S (size m)) m) by done.
  apply bind_ext2; [apply solo_delete_loop|]. intros [[[p wq] q] dir] m2 _.
  unfold delete_found_thread. rewrite solo_atomic, bind_assoc. apply bind_ext. intros chars m3 _.
  apply bind_ext. intros cmp m4 _. unfold unlink_thread. by destruct (negb (cmp =? 0)), wq.
Qed.

Lemma load_child n m nd :
  load_node n m = Done (nd, m) →
  load_slot (SChild n 0) m = Done (child0 nd, m) ∧ load_slot (SChild n 1) m = Done (child1 nd, m).
Proof. intros H. cbn. by rewrite !(bind_done _ _ m nd m H). Qed.

(** A string access to memory does not change it. *)
Lemma compare_same p (f : list Z → outcome Z) m d m' :
  (chars ← load_chars p; lift (f chars)) m = Done (d, m') → m' = m.
Proof.
  intros (chars & m1 & H1 & H2)%bind_inv. unfold lift in H2. destruct (f chars); simplify_eq/=.
  unfold load_chars in H1. destruct (m !! _) as [[]|]; congruence.
Qed.

Lemma solo_free_unlinked key p m :
  solo (free_unlinked_thread key p) m = free_unlinked key p m.
Proof.
  unfold free_unlinked_thread, free_unlinked. destruct (negb (IS_INTERNAL p)); [done|].
  set (n := TO_NODE p). rewrite solo_atomic. cbn [load_slot]. rewrite bind_assoc.
  apply bind_ext. intros nd m1 Hnd. pose proof (load_node_same _ _ _ _ Hnd) as ->.
  destruct (load_child n m nd Hnd) as [H0 H1].
  rewrite (bind_done _ _ m (child0 nd) m) by done. rewrite solo_bind. apply bind_ext2.
  { destruct (IS_INTERNAL (child0 nd)); [done|]. rewrite solo_atomic. apply bind_assoc. }
  intros same m1 Hsame. assert (m1 = m) as ->.
  { destruct (IS_INTERNAL (child0 nd)); [by injection Hsame|].
    change ((chars ← load_chars (child0 nd); cmp ← lift (strcmp key chars); mret (cmp =? 0)) m =
      Done (same, m1)) in Hsame.
    rewrite <-bind_assoc in Hsame. apply bind_inv in Hsame as (d & m2 & Hd & [= _ <-]).
    by eapply compare_same. }
  destruct same; rewrite solo_atomic; [rewrite (bind_done _ _ m _ m H0)|rewrite (bind_done _ _ m _ m H1)]; done.
Qed.

Lemma solo_delete root key m :
  solo (critbit_delete_thread (S (size m)) root key) m = critbit_delete root key m.
Proof.
  unfold critbit_delete_thread, critbit_delete, wait_readers. rewrite solo_atomic.
  apply bind_ext. intros len m1 H1%keeps_lift. rewrite solo_atomic. apply bind_ext. intros [] m2 H2%keeps_mutex_lock.
  rewrite solo_bind, <-H1, <-H2. apply bind_ext2; [apply solo_delete_inplace|]. intros p m3 _.
  rewrite solo_atomic, !bind_assoc.
  apply bind_ext. intros r m4 Hr.
  assert (m4 = m3 ∧ load_root root m3 = Done (r, m3)) as [-> Hload].
  { unfold load_root in Hr |- *. destruct (m3 !! root) as [[]|]; by simplify_eq. }
  rewrite (bind_done _ _ m3 (cur_rwlock r) m3) by done. rewrite solo_atomic, bind_assoc.
  rewrite (bind_done _ _ m3 r m3 Hload), (bind_done _ _ m3 (prev_rwlock r) m3) by done.
  rewrite solo_atomic, !bind_assoc. apply bind_ext. intros c1 m5 _.
  rewrite solo_atomic, !bind_assoc. apply bind_ext. intros c2 m6 _.
  rewrite solo_atomic, !bind_assoc. apply bind_ext. intros [] m7 _.
  rewrite solo_atomic. apply bind_ext. intros [] m8 _.
  rewrite solo_atomic. apply bind_ext. intros [] m9 _.
  destruct (p =? 0); [done|apply solo_free_unlinked].
Qed.

(** The function a call stands for. *)
Definition sequential `{Malloc} (root : Z) (c : call) : cmd mem (Z * Z) :=
  match c with
  | Get key out => critbit_get root (cstr key) out
  | Insert key value => ret ← critbit_insert root (cstr key) value; mret (ret, 0)
  | Delete key => ret ← critbit_delete root (cstr key); mret (ret, 0)
  end.

(** ** The properties *)

Section theorems.
Context {MA : Malloc} {MS : MallocSpec MA}.

(** A thread that is not interrupted is the sequential function: in
    every memory, correct or not, running the atomic steps of a call of
    [critbit_get], [critbit_insert] or [critbit_delete] one after the other
    gives what the sequential function gives, undefined behaviour and waiting
    included. *)
Lemma critbit_threads_sequential root c m :
  solo (start (S (size m)) root c) m = sequential root c m.
Proof.
  destruct c as [k out|k v|k]; [apply solo_get| |]; unfold start, sequential; rewrite solo_bind;
    apply bind_ext2; [by rewrite solo_insert|done|by rewrite solo_delete|done].
Qed.

(** The invariant holds along every schedule. *)
Lemma runs_inv root M fr m calls fuel k0 :
  represents root M fr m → is_Some (M !! k0) → calls_ok k0 calls →
  (size M + length calls < fuel)%nat →
  ∃ c0 c1, c0 ≠ c1 ∧ ∀ s, ∃ gs sh m' ts, run_schedule s m (start fuel root <$> calls) = Done (m', ts) ∧
    inv root fr fuel calls c0 c1 m M k0 s gs sh m' ts.
Proof.
  intros (r & [t|] & Hidle & Hst & ->) [v Hv] Hcalls Hfuel; [|done].
  exists (cur_rwlock r), (prev_rwlock r). split; [apply Hidle|]. intros s.
  destruct Hst as [Hwf Ho]. eapply run_inv; [apply Hidle|done|]. eapply inv_start; try done.
  destruct (decide (k0 ∈ keys t)) as [|Hn]; [done|]. apply to_map_None in Hn. cbn in Hv. congruence.
Qed.

(** Claim C5: concurrent lookups are safe and linearizable. Any number of
    [critbit_get] and [critbit_insert] calls and at most one [critbit_delete],
    of another key than some [k0] that is in the map from the start
    ([calls_ok]; a lookup in an empty tree is undefined even alone), run
    interleaved in any order, at the granularity of single accesses to shared
    memory; then no access is undefined (a reader never touches freed memory),
    and every finished [critbit_get] has returned what the map under the root
    held for its key at one moment between its first step and its last. *)
Theorem critbit_get_linearizable root M fr m calls fuel k0 sched :
  represents root M fr m → is_Some (M !! k0) → calls_ok k0 calls →
  (size M + length calls < fuel)%nat →
  ∃ m' ts, run_schedule sched m (start fuel root <$> calls) = Done (m', ts) ∧
    ∀ i k out res, calls !! i = Some (Get k out) → ts !! i = Some (Ret res) →
    ∃ s1 s2 m1 ts1 M1, sched = s1 ++ s2 ∧ i ∈ s1 ∧ i ∈ s2 ∧
      run_schedule s1 m (start fuel root <$> calls) = Done (m1, ts1) ∧ tree_in root M1 m1 ∧
      res = lookup_result (M1 !! k) out.
Proof.
  intros Hm Hk0 Hcalls Hfuel.
  destruct (runs_inv root M fr m calls fuel k0 Hm Hk0 Hcalls Hfuel) as (c0 & c1 & _ & Hruns).
  destruct (Hruns sched) as (gs & sh & m' & ts & Hrun & Hinv). exists m', ts. split; [done|].
  intros i k out res Hi Hti. destruct (inv_threads Hinv i _ Hi) as (g & th & _ & Hti' & Hok).
  rewrite Hti in Hti'. injection Hti' as <-. cbn in Hok.
  apply reader_ret in Hok as (_ & _ & o & -> & s1 & s2 & M1 & -> & H1 & H2 & (m1 & ts1 & Hr & Hin) & <-).
  by exists s1, s2, m1, ts1, M1.
Qed.

(** Claim C6: the locks never deadlock. Whatever the threads of such a
    program (lookups, insertions, at most one deletion, and a key [k0] that is
    there from the start and stays) have done so far, the run can be completed, in a bounded number of
    steps; in the end no lock is held, nothing has leaked, and the memory
    represents the map that the writes give when they are made one after the
    other in some order, each with the status its call has returned. *)
Theorem critbit_threads_complete root M fr m calls fuel k0 sched :
  represents root M fr m → is_Some (M !! k0) → calls_ok k0 calls →
  (size M + length calls < fuel)%nat →
  ∃ sched' m' results log M', (length sched' ≤ (4 * fuel + 17) * length calls)%nat ∧
    run_schedule (sched ++ sched') m (start fuel root <$> calls) = Done (m', Ret <$> results) ∧
    writes calls M log M' ∧ represents root M' fr m' ∧
    ∀ i c res, calls !! i = Some c → writer_call c = true → results !! i = Some res →
      (i, res.1) ∈ log.
Proof.
  intros Hm Hk0 Hcalls Hfuel.
  destruct (runs_inv root M fr m calls fuel k0 Hm Hk0 Hcalls Hfuel) as (c0 & c1 & Hc & Hruns).
  destruct (Hruns sched) as (gs & sh & m1 & ts & Hrun & Hinv).
  destruct (run_completes root fr fuel calls c0 c1 Hc m M k0 Hcalls sched gs sh m1 ts Hinv Hrun)
    as (sched' & gs' & sh' & m' & results & Hlen & Hrun' & Hinv').
  exists sched', m', results, (sh_log sh'), (to_map (sh_tree sh')). split_and!.
  - pose proof (inv_bound Hinv). lia.
  - done.
  - apply (gl_log (inv_glob Hinv')).
  - by eapply finished_represents.
  - intros i c res Hi Hw Hres. eapply writer_ret; [exact Hinv'|done|done|].
    by rewrite list_lookup_fmap, Hres.
Qed.
End theorems.

(** ** Witnesses *)

Definition demo_calls : list call := [Get key_a 0; Insert key_ab 7; Delete key_ab].

Lemma demo_calls_ok : calls_ok key_a demo_calls.
Proof.
  split.
  - repeat constructor; try apply key_a_ok; try apply key_ab_ok; done.
  - intros [|[|[|i]]] [|[|[|j]]] k k' Hi Hj; done.
Qed.

Lemma critbit_threads_sequential_witness :
  ∃ m, represents 16 {[key_a := 5]} ∅ m ∧
    solo (start (S (size m)) 16 (Insert key_ab 7)) m = sequential 16 (Insert key_ab 7) m.
Proof.
  destruct demo_tree as [m Hm]. exists m. split; [done|].
  apply (critbit_threads_sequential 16 (Insert key_ab 7) m).
Defined.

Lemma critbit_get_linearizable_witness :
  ∃ m, represents 16 {[key_a := 5]} ∅ m ∧
    ∀ sched, ∃ m' ts, run_schedule sched m (start 5 16 <$> demo_calls) = Done (m', ts).
Proof.
  destruct demo_tree as [m Hm]. exists m. split; [done|]. intros sched.
  destruct (critbit_get_linearizable 16 {[key_a := 5]} ∅ m demo_calls 5 key_a sched Hm)
    as (m' & ts & Hrun & _); [by exists 5|apply demo_calls_ok|rewrite map_size_singleton; cbn; lia|].
  by exists m', ts.
Defined.

Lemma critbit_threads_complete_witness :
  ∃ m, represents 16 {[key_a := 5]} ∅ m ∧
    ∀ sched, ∃ sched' m' results M',
      run_schedule (sched ++ sched') m (start 5 16 <$> demo_calls) = Done (m', Ret <$> results) ∧
      represents 16 M' ∅ m'.
Proof.
  destruct demo_tree as [m Hm]. exists m. split; [done|]. intros sched.
  destruct (critbit_threads_complete 16 {[key_a := 5]} ∅ m demo_calls 5 key_a sched Hm)
    as (sched' & m' & results & log & M' & _ & Hrun & _ & Hrep & _);
    [by exists 5|apply demo_calls_ok|rewrite map_size_singleton; cbn; lia|].
  by exists sched', m', results, M'.
Defined.

(** ** Two deletions *)

(** The keys "a", "b" and "c", and a schedule in which a reader of "a" is
    interrupted between loading [cur_rwlock] and locking it: one deletion
    swaps the locks, so that the next one waits for the other lock and frees
    the node the reader is about to look at. *)
Definition race_setup : cmd mem Z :=
  root ← critbit_new;
  _ ← critbit_insert root (cstr [97]) 1;
  _ ← critbit_insert root (cstr [98]) 2;
  _ ← critbit_insert root (cstr [99]) 3;
  mret root.
Definition race_calls : list call := [Get [97] 0; Delete [99]; Delete [98]].
Definition race_schedule : list nat :=
  [0; 0]%nat ++ replicate 40 1%nat ++ [0; 0]%nat ++ replicate 40 2%nat.

(** The reader is about to fail, the deleters have returned 0. *)
Definition race_outcome (o : outcome (mem * list (thread (Z * Z)))) : bool :=
  match o with
  | Done (m, [t; Ret r1; Ret r2]) =>
      bool_decide (r1 = (0, 0)) && bool_decide (r2 = (0, 0)) &&
      match advance t m with Undef => true | _ => false end
  | _ => false
  end.

Lemma race_outcome_spec o :
  race_outcome o = true →
  ∃ m t, o = Done (m, [t; Ret (0, 0); Ret (0, 0)]) ∧ advance t m = Undef.
Proof.
  unfold race_outcome. intros H.
  destruct o as [[m [|t [|[r1|] [|[r2|] [|]]]]]| | |]; try done.
  apply andb_prop in H as [[->%bool_decide_eq_true ->%bool_decide_eq_true]%andb_prop H].
  exists m, t. split; [done|]. by destruct (advance t m).
Qed.

(** With two deletions a lookup can read freed memory. The three
    keys "a", "b", "c" are inserted by the code itself; a reader of "a" loads
    [cur_rwlock] and is interrupted, [critbit_delete] of "c" runs to its end,
    the reader takes the lock it has loaded (which is now the spare one) and
    loads the head, [critbit_delete] of "b" runs to its end without waiting
    for it, and the reader's next access is undefined. *)
Lemma critbit_get_use_after_free :
  ∃ root m m' t, race_setup ∅ = Done (root, m) ∧
    run_schedule race_schedule m (start 4 root <$> race_calls) =
      Done (m', [t; Ret (0, 0); Ret (0, 0)]) ∧
    advance t m' = Undef.
Proof.
  assert (match race_setup ∅ with
    | Done (root, m) => race_outcome (run_schedule race_schedule m (start 4 root <$> race_calls))
    | _ => false
    end = true) as H by (vm_compute; reflexivity).
  destruct (race_setup ∅) as [[root m]| | |]; [|discriminate H..].
  destruct (race_outcome_spec _ H) as (m' & t & Hrun & Ht). by exists root, m, m', t.
Qed.
