(* ===== verification/Heap.v ===== *)
(** * Heap: allocation for the components with typed blocks

    redisdict.c calls malloc and calloc without looking at the result.
    [Allocator B] is the C library's allocator over a heap of blocks of type
    [B], and [indeterminate] the word fresh memory holds; [AllocSpec] states
    what the C standard says of it (a block that is not null and not in use)
    and [AllocTotal] that memory is not exhausted, without which the unchecked
    calls store through a null pointer.  The bump allocator satisfies the laws
    and runs the examples.  Signed 64-bit arithmetic, whose overflow is
    undefined, is here, too. *)

From S2P Require Import Prelude.

Class Allocator (B : Type) := {
  alloc : gmap Z B → Z → option Z;
  indeterminate : Z;
}.

Class AllocSpec {B} (A : Allocator B) : Prop := {
  alloc_fresh (h : gmap Z B) n a : alloc h n = Some a → h !! a = None;
  alloc_pos (h : gmap Z B) n a : alloc h n = Some a → 0 < a;
}.

Class AllocTotal {B} (A : Allocator B) : Prop :=
  alloc_total : ∀ (h : gmap Z B) n, ∃ a, alloc h n = Some a.

(** [int] arithmetic: overflow is undefined. *)
Definition int_of (z : Z) : outcome Z :=
  if (- 2 ^ 31 <=? z) && (z <? 2 ^ 31) then Done z else Undef.

Lemma int_of_small z : - 2 ^ 31 ≤ z < 2 ^ 31 → int_of z = Done z.
Proof.
  intros Hz. unfold int_of. destruct (Z.leb_spec (- 2 ^ 31) z); [|lia].
  by destruct (Z.ltb_spec z (2 ^ 31)); [|lia].
Qed.

(** [int64_t], [long] and [long long] arithmetic: overflow is undefined. *)
Definition int64_of (z : Z) : outcome Z :=
  if (- 2 ^ 63 <=? z) && (z <? 2 ^ 63) then Done z else Undef.

Lemma int64_of_small z : - 2 ^ 63 ≤ z < 2 ^ 63 → int64_of z = Done z.
Proof.
  intros Hz. unfold int64_of. destruct (Z.leb_spec (- 2 ^ 63) z); [|lia].
  by destruct (Z.ltb_spec z (2 ^ 63)); [|lia].
Qed.

Lemma int64_of_big z : 2 ^ 63 ≤ z → int64_of z = Undef.
Proof.
  intros Hz. unfold int64_of. destruct (Z.ltb_spec z (2 ^ 63)); [lia|]. by rewrite andb_false_r.
Qed.

(** [x << n]: undefined for a negative [x], and when the result overflows. *)
Definition shl64 (x n : Z) : outcome Z :=
  if x <? 0 then Undef else int64_of (Z.shiftl x n).

(** [long] as a 64-bit two's complement number. *)
Definition s64 (z : Z) : Z := (z + 2 ^ 63) mod 2 ^ 64 - 2 ^ 63.

(** ** The bump allocator *)

Definition heap_top {B} (h : gmap Z B) : Z := map_fold (λ a _ r, Z.max (Z.abs a) r) 0 h.

Lemma heap_top_nonneg {B} (h : gmap Z B) : 0 ≤ heap_top h.
Proof.
  refine (map_fold_weak_ind (λ r (_ : gmap Z B), 0 ≤ r) _ 0 _ _ h); [done|]. intros; lia.
Qed.

Lemma heap_top_bound {B} (h : gmap Z B) a b : h !! a = Some b → Z.abs a ≤ heap_top h.
Proof.
  revert a b.
  refine (map_fold_weak_ind (λ r (h : gmap Z B), ∀ a b, h !! a = Some b → Z.abs a ≤ r) _ 0 _ _ h).
  - intros a b. by rewrite lookup_empty.
  - intros i x h' r _ IH a b. rewrite lookup_insert_Some. intros [[<- _]|[_ H]]; [lia|].
    apply IH in H. lia.
Qed.

Definition bump_alloc {B} : Allocator B := {|
  alloc := λ h _, Some (16 * (heap_top h + 1));
  indeterminate := 3735928559;
|}.

Lemma bump_alloc_spec {B} : AllocSpec (@bump_alloc B).
Proof.
  split; cbn; intros h n a [= <-]; pose proof (heap_top_nonneg h); [|lia].
  apply eq_None_not_Some. intros [b Hb]. apply heap_top_bound in Hb. lia.
Qed.

Lemma bump_alloc_total {B} : AllocTotal (@bump_alloc B).
Proof. intros h n. by eexists. Qed.
