(* ===== verification/DictHash.v ===== *)
(** * DictHash: the hash and bit functions of redisdict.c

    The integer mixers, MurmurHash2, the case-insensitive hash and the bit
    reversal used by the scan cursor, on 32-bit and 64-bit unsigned integers
    with their wrap-around; and their algebraic properties: the mixer is
    injective (no two 32-bit keys collide before masking), the bit reversal
    mirrors the bits and is an involution. *)

From S2P Require Import Prelude.

(** ** The code *)

(** [x ^= x >> r] and [x += x << r]. *)
Definition xorshift (r x : Z) : Z := Z.lxor x (Z.shiftr x r).

(** Thomas Wang's 32 bit mix function. *)
Definition dictIntHashFunction (key : Z) : Z :=
  let key := u32 (key + Z.lnot (Z.shiftl key 15)) in
  let key := xorshift 10 key in
  let key := u32 (key + Z.shiftl key 3) in
  let key := xorshift 6 key in
  let key := u32 (key + Z.lnot (Z.shiftl key 11)) in
  let key := xorshift 16 key in
  key.

Definition dictIdentityHashFunction (key : Z) : Z := key.

(** MurmurHash2: [m] and [r] are its mixing constants; words are read in the
    byte order of a little-endian machine. *)
Definition murmur_m : Z := 0x5bd1e995.
Definition murmur_r : Z := 24.

Definition load_le32 (data : list Z) (p : Z) : outcome Z :=
  b0 ← buf_get data p; b1 ← buf_get data (p + 1);
  b2 ← buf_get data (p + 2); b3 ← buf_get data (p + 3);
  Done (b0 + b1 * 2 ^ 8 + b2 * 2 ^ 16 + b3 * 2 ^ 24).

(** One round on a 32-bit word of the key. *)
Definition murmur_mix (h k : Z) : Z :=
  let k := u32 (k * murmur_m) in
  let k := xorshift murmur_r k in
  let k := u32 (k * murmur_m) in
  let h := u32 (h * murmur_m) in
  Z.lxor h k.

(** [while(len >= 4)]: the hash, the position and the number of bytes left. *)
Fixpoint murmur_loop (fuel : nat) (data : list Z) (p len h : Z) : outcome (Z * Z * Z) :=
  match fuel with
  | O => NoFuel
  | S fuel =>
      if 4 <=? len then
        k ← load_le32 data p;
        murmur_loop fuel data (p + 4) (len - 4) (murmur_mix h k)
      else Done (h, p, len)
  end.

(** The [switch] falls through from each case to the next. *)
Definition murmur_tail (data : list Z) (p len h : Z) : outcome Z :=
  h ← (if len =? 3 then c ← buf_get data (p + 2); Done (Z.lxor h (Z.shiftl c 16)) else Done h);
  h ← (if (len =? 3) || (len =? 2) then c ← buf_get data (p + 1); Done (Z.lxor h (Z.shiftl c 8))
       else Done h);
  if (len =? 3) || (len =? 2) || (len =? 1) then
    c ← buf_get data p; Done (u32 (Z.lxor h c * murmur_m))
  else Done h.

Definition murmur_final (h : Z) : Z :=
  let h := xorshift 13 h in
  let h := u32 (h * murmur_m) in
  xorshift 15 h.

Definition dictGenHashFunction (seed : Z) (key : list Z) (len : Z) : outcome Z :=
  let h := Z.lxor seed (u32 len) in
  '(h, p, len) ← murmur_loop (S (length key)) key 0 len h;
  h ← murmur_tail key p len h;
  Done (murmur_final h).

(** [tolower] in the C locale. *)
Definition tolower (c : Z) : Z := if (65 <=? c) && (c <=? 90) then c + 32 else c.

Fixpoint dictGenCaseHash_loop (fuel : nat) (buf : list Z) (p len hash : Z) : outcome Z :=
  match fuel with
  | O => NoFuel
  | S fuel =>
      if len =? 0 then Done hash
      else
        c ← buf_get buf p;
        dictGenCaseHash_loop fuel buf (p + 1) (len - 1)
          (u32 (u32 (Z.shiftl hash 5 + hash) + tolower c))
  end.
Definition dictGenCaseHashFunction (seed : Z) (buf : list Z) (len : Z) : outcome Z :=
  dictGenCaseHash_loop (S (length buf)) buf 0 len seed.

(** [rev]: [while ((s >>= 1) > 0)] runs with s = 32, 16, 8, 4, 2, 1. *)
Fixpoint rev_loop (fuel : nat) (s mask v : Z) : outcome Z :=
  match fuel with
  | O => NoFuel
  | S fuel =>
      let s := Z.shiftr s 1 in
      if 0 <? s then
        let mask := Z.lxor mask (u64 (Z.shiftl mask s)) in
        let v := Z.lor (Z.land (Z.shiftr v s) mask)
                       (Z.land (u64 (Z.shiftl v s)) (u64 (Z.lnot mask))) in
        rev_loop fuel s mask v
      else Done v
  end.
Definition rev (v : Z) : outcome Z := rev_loop 7 64 (2 ^ 64 - 1) v.

(** ** Injectivity of the integer mixer *)

Lemma u32_idemp x : u32 (u32 x) = u32 x.
Proof. apply Zmod_mod. Qed.

Lemma xorshift_nonneg r x : 0 ≤ x → 0 ≤ xorshift r x.
Proof. intros. apply Z.lxor_nonneg. rewrite Z.shiftr_nonneg. tauto. Qed.

(** A number that fits in [n] bits, by its bits. *)
Lemma bounded_testbit n x :
  0 ≤ n → 0 ≤ x → (∀ i, n ≤ i → Z.testbit x i = false) → x < 2 ^ n.
Proof.
  intros Hn Hx Hbits. destruct (Z.eq_dec x 0) as [->|Hne]; [lia|].
  apply Z.log2_lt_pow2; [lia|]. destruct (Z.lt_ge_cases (Z.log2 x) n) as [|Hge]; [done|].
  specialize (Hbits _ Hge). by rewrite Z.bit_log2 in Hbits by lia.
Qed.

Lemma testbit_above n x i : 0 ≤ x < 2 ^ n → n ≤ i → Z.testbit x i = false.
Proof.
  intros [Hx Hlt] Hi. destruct (Z.eq_dec x 0) as [->|]; [apply Z.bits_0|].
  apply Z.bits_above_log2; [lia|]. apply Z.lt_le_trans with n; [|done].
  apply Z.log2_lt_pow2; lia.
Qed.

Lemma xorshift_bound r n x : 0 ≤ n → 0 ≤ r → 0 ≤ x < 2 ^ n → 0 ≤ xorshift r x < 2 ^ n.
Proof.
  intros Hn Hr Hx. split; [apply xorshift_nonneg; lia|].
  apply bounded_testbit; [done|apply xorshift_nonneg; lia|].
  intros i Hi. unfold xorshift. rewrite Z.lxor_spec, Z.shiftr_spec by lia.
  by rewrite !(testbit_above n) by lia.
Qed.

Lemma shiftr_fix r d : 0 < r → 0 ≤ d → Z.shiftr d r = d → d = 0.
Proof.
  intros Hr Hd. rewrite Z.shiftr_div_pow2 by lia. intros Heq.
  destruct (Z.eq_dec d 0); [done|]. exfalso.
  assert (d / 2 ^ r < d); [|lia]. apply Z.div_lt; [lia|].
  apply Z.pow_gt_1; lia.
Qed.

Lemma xorshift_inj r x y : 0 < r → 0 ≤ x → 0 ≤ y → xorshift r x = xorshift r y → x = y.
Proof.
  intros Hr Hx Hy Heq. apply Z.lxor_eq, (shiftr_fix r); [done|apply Z.lxor_nonneg; lia|].
  rewrite Z.shiftr_lxor. apply Z.lxor_eq.
  unfold xorshift in Heq. apply (f_equal (Z.lxor (xorshift r y))) in Heq.
  unfold xorshift in Heq. rewrite Z.lxor_nilpotent in Heq. rewrite <-Heq.
  apply Z.bits_inj'. intros n _. rewrite !Z.lxor_spec.
  destruct (Z.testbit x n), (Z.testbit y n), (Z.testbit (Z.shiftr x r) n),
    (Z.testbit (Z.shiftr y r) n); done.
Qed.

(** Multiplying by an odd constant and adding another permutes the residues. *)
Lemma affine_inj a c x y :
  Z.gcd a (2 ^ 32) = 1 → 0 ≤ x < 2 ^ 32 → 0 ≤ y < 2 ^ 32 →
  u32 (x * a + c) = u32 (y * a + c) → x = y.
Proof.
  unfold u32. intros Hgcd Hx Hy Heq.
  assert ((2 ^ 32 | a * (x - y))) as Hdiv.
  { apply Z.mod_divide; [lia|]. replace (a * (x - y)) with ((x * a + c) - (y * a + c)) by lia.
    rewrite Zminus_mod, Heq, Z.sub_diag. done. }
  apply Z.gauss in Hdiv; [|by rewrite Z.gcd_comm].
  destruct Hdiv as [q Hq]. lia.
Qed.

Lemma add_not_shift_inj s x y :
  0 ≤ s → Z.gcd (1 - 2 ^ s) (2 ^ 32) = 1 → 0 ≤ x < 2 ^ 32 → 0 ≤ y < 2 ^ 32 →
  u32 (x + Z.lnot (Z.shiftl x s)) = u32 (y + Z.lnot (Z.shiftl y s)) → x = y.
Proof.
  intros Hs Hg Hx Hy. rewrite !Z.shiftl_mul_pow2 by done. unfold Z.lnot.
  replace (x + Z.pred (- (x * 2 ^ s))) with (x * (1 - 2 ^ s) + -1) by lia.
  replace (y + Z.pred (- (y * 2 ^ s))) with (y * (1 - 2 ^ s) + -1) by lia.
  by apply affine_inj.
Qed.

Lemma add_shift_inj s x y :
  0 ≤ s → Z.gcd (1 + 2 ^ s) (2 ^ 32) = 1 → 0 ≤ x < 2 ^ 32 → 0 ≤ y < 2 ^ 32 →
  u32 (x + Z.shiftl x s) = u32 (y + Z.shiftl y s) → x = y.
Proof.
  intros Hs Hg Hx Hy. rewrite !Z.shiftl_mul_pow2 by done.
  replace (x + x * 2 ^ s) with (x * (1 + 2 ^ s) + 0) by lia.
  replace (y + y * 2 ^ s) with (y * (1 + 2 ^ s) + 0) by lia.
  by apply affine_inj.
Qed.

(** ** MurmurHash2 returns a 32-bit value and stays inside the key *)

Lemma murmur_mix_range h k : 0 ≤ murmur_mix h k < 2 ^ 32.
Proof.
  assert (0 ≤ xorshift murmur_r (u32 (k * murmur_m)) < 2 ^ 32) as Hk.
  { apply xorshift_bound; [lia|unfold murmur_r; lia|apply u32_range]. }
  unfold murmur_mix. pose proof (u32_range (h * murmur_m)) as Hh.
  pose proof (u32_range (xorshift murmur_r (u32 (k * murmur_m)) * murmur_m)) as Hk'.
  split; [apply Z.lxor_nonneg; lia|].
  apply bounded_testbit; [lia|apply Z.lxor_nonneg; lia|].
  intros i Hi. rewrite Z.lxor_spec, !(testbit_above 32) by lia. done.
Qed.

Definition byte_list (b : list Z) : Prop := Forall (λ c, 0 <= c < 256) b.

Lemma byte_list_cstr k : nonul k → byte_list (cstr k).
Proof.
  intros Hk. apply Forall_app. split; [|by repeat constructor].
  eapply Forall_impl; [exact Hk|]. cbn. lia.
Qed.

Lemma byte_list_get b i :
  byte_list b → 0 ≤ i < Z.of_nat (length b) → ∃ c, buf_get b i = Done c ∧ 0 ≤ c < 256.
Proof.
  intros Hb Hi. destruct (lookup_lt_is_Some_2 b (Z.to_nat i)) as [c Hc]; [lia|].
  exists c. split; [apply buf_get_Some; [lia|done]|]. exact (Forall_lookup_1 _ b _ c Hb Hc).
Qed.

Lemma load_le32_ok b p :
  byte_list b → 0 ≤ p → p + 4 ≤ Z.of_nat (length b) → ∃ k, load_le32 b p = Done k.
Proof.
  intros Hb Hp Hlen. unfold load_le32.
  destruct (byte_list_get b p Hb) as (c0 & -> & _); [lia|].
  destruct (byte_list_get b (p + 1) Hb) as (c1 & -> & _); [lia|].
  destruct (byte_list_get b (p + 2) Hb) as (c2 & -> & _); [lia|].
  destruct (byte_list_get b (p + 3) Hb) as (c3 & -> & _); [lia|].
  eexists. cbn. reflexivity.
Qed.

Lemma murmur_loop_ok b fuel p len h :
  byte_list b → 0 ≤ p → 0 ≤ len → p + len = Z.of_nat (length b) ∨ p + len < Z.of_nat (length b) →
  len < Z.of_nat fuel → 0 ≤ h < 2 ^ 32 →
  ∃ h' p' len', murmur_loop fuel b p len h = Done (h', p', len') ∧
    0 ≤ h' < 2 ^ 32 ∧ 0 ≤ p' ∧ 0 ≤ len' < 4 ∧ p' + len' = p + len.
Proof.
  intros Hb. revert p len h. induction fuel as [|fuel IH]; intros p len h Hp Hlen Hle Hf Hh; [lia|].
  cbn [murmur_loop]. destruct (Z.leb_spec 4 len).
  - destruct (load_le32_ok b p Hb) as [k Hk]; [lia|lia|]. rewrite Hk. cbn.
    destruct (IH (p + 4) (len - 4) (murmur_mix h k)) as (h' & p' & l' & Hrun & ? & ? & ? & ?);
      [lia|lia|lia|lia|apply murmur_mix_range|].
    exists h', p', l'. repeat split; try done; lia.
  - exists h, p, len. repeat split; lia.
Qed.

Lemma lxor_bound n x y : 0 ≤ n → 0 ≤ x < 2 ^ n → 0 ≤ y < 2 ^ n → 0 ≤ Z.lxor x y < 2 ^ n.
Proof.
  intros Hn Hx Hy. split; [apply Z.lxor_nonneg; lia|].
  apply bounded_testbit; [done|apply Z.lxor_nonneg; lia|].
  intros i Hi. by rewrite Z.lxor_spec, !(testbit_above n) by lia.
Qed.

Lemma murmur_tail_ok b p len h :
  byte_list b → 0 ≤ p → 0 ≤ len < 4 → p + len ≤ Z.of_nat (length b) → 0 ≤ h < 2 ^ 32 →
  ∃ h', murmur_tail b p len h = Done h' ∧ 0 ≤ h' < 2 ^ 32.
Proof.
  intros Hb Hp Hlen Hle Hh.
  assert (∀ h c s, 0 ≤ h < 2 ^ 32 → 0 ≤ c < 256 → 0 ≤ s ≤ 16 → 0 ≤ Z.lxor h (Z.shiftl c s) < 2 ^ 32)
    as Hsh.
  { clear. intros h c s Hh Hc Hs. apply lxor_bound; [lia|done|].
    rewrite Z.shiftl_mul_pow2 by lia.
    pose proof (Z.pow_le_mono_r 2 s 16 ltac:(lia) ltac:(lia)) as Hpow. change (2 ^ 16) with 65536 in Hpow.
    pose proof (Z.pow_pos_nonneg 2 s ltac:(lia) ltac:(lia)). change (2 ^ 32) with 4294967296. nia. }
  unfold murmur_tail.
  destruct (Z.eqb_spec len 3), (Z.eqb_spec len 2), (Z.eqb_spec len 1); try lia; subst; cbn [orb];
    try (destruct (byte_list_get b p Hb) as (c0 & -> & Hc0); [lia|]);
    try (destruct (byte_list_get b (p + 1) Hb) as (c1 & -> & Hc1); [lia|]);
    try (destruct (byte_list_get b (p + 2) Hb) as (c2 & -> & Hc2); [lia|]);
    (eexists; split; [reflexivity|]); first [apply u32_range|exact Hh|apply Z.mod_pos_bound; lia].
Qed.

Lemma murmur_final_range h : 0 ≤ murmur_final h < 2 ^ 32.
Proof. apply xorshift_bound; [lia|lia|apply u32_range]. Qed.

Lemma dictGenHashFunction_ok seed b len :
  byte_list b → 0 ≤ len ≤ Z.of_nat (length b) → 0 ≤ seed < 2 ^ 32 →
  ∃ h, dictGenHashFunction seed b len = Done h ∧ 0 ≤ h < 2 ^ 32.
Proof.
  intros Hb Hlen Hseed. unfold dictGenHashFunction.
  destruct (murmur_loop_ok b (S (length b)) 0 len (Z.lxor seed (u32 len)))
    as (h & p & l & -> & Hh & Hp & Hl & Hpl); [done|lia|lia|lia|lia| |].
  { apply lxor_bound; [lia|done|apply u32_range]. }
  cbn. destruct (murmur_tail_ok b p l h) as (h' & -> & Hh'); [done|lia|lia|lia|done|].
  exists (murmur_final h'). split; [done|apply murmur_final_range].
Qed.

(** ** Bit reversal *)

(** One round of [rev]: exchange neighbouring groups of [s] bits. *)
Definition rev_round (s mask v : Z) : Z :=
  Z.lor (Z.land (Z.shiftr v s) mask) (Z.land (u64 (Z.shiftl v s)) (u64 (Z.lnot mask))).

Definition rev_rounds : list (Z * Z) :=
  [(32, 0x00000000FFFFFFFF); (16, 0x0000FFFF0000FFFF); (8, 0x00FF00FF00FF00FF);
   (4, 0x0F0F0F0F0F0F0F0F); (2, 0x3333333333333333); (1, 0x5555555555555555)].

Definition rev_pure (v : Z) : Z := foldl (λ v '(s, mask), rev_round s mask v) v rev_rounds.

Lemma rev_pure_eq v : rev v = Done (rev_pure v).
Proof. reflexivity. Qed.

(** Where bit [i] of the result of a round comes from. *)
Definition round_source (s mask i : Z) : Z := if Z.testbit mask i then i + s else i - s.

Lemma testbit_u64 x i : 0 ≤ i < 64 → Z.testbit (u64 x) i = Z.testbit x i.
Proof. intros Hi. unfold u64. by rewrite Z.mod_pow2_bits_low by lia. Qed.

Lemma rev_round_testbit s mask v i :
  0 ≤ i < 64 → Z.testbit (rev_round s mask v) i = Z.testbit v (round_source s mask i).
Proof.
  intros Hi. unfold rev_round, round_source.
  rewrite Z.lor_spec, !Z.land_spec, !testbit_u64, Z.shiftr_spec, Z.lnot_spec, Z.shiftl_spec by lia.
  destruct (Z.testbit mask i); cbn;
    rewrite ?andb_false_r, ?andb_true_r, ?orb_false_r, ?orb_false_l; done.
Qed.

Lemma rev_round_range s mask v :
  0 ≤ s → 0 ≤ v → 0 ≤ mask < 2 ^ 64 → 0 ≤ rev_round s mask v < 2 ^ 64.
Proof.
  intros Hs Hv Hm.
  assert (0 ≤ rev_round s mask v) as Hpos.
  { apply Z.lor_nonneg. split; apply Z.land_nonneg; right; [lia|apply Z.mod_pos_bound; lia]. }
  split; [done|]. apply bounded_testbit; [lia|done|]. intros i Hi. unfold rev_round.
  rewrite Z.lor_spec, !Z.land_spec.
  rewrite (testbit_above 64 mask), (testbit_above 64 (u64 (Z.shiftl v s))) by (lia || apply Z.mod_pos_bound; lia).
  by rewrite andb_false_r.
Qed.

Definition rev_source (i : Z) : Z := foldr (λ '(s, mask) i, round_source s mask i) i rev_rounds.

(** Every intermediate position stays below 64, and the composition mirrors. *)
Fixpoint source_ok (rs : list (Z * Z)) (i : Z) : bool :=
  match rs with
  | [] => true
  | (s, mask) :: rs =>
      let j := foldr (λ '(s, mask) i, round_source s mask i) i rs in
      (0 <=? j) && (j <? 64) && source_ok rs i
  end.

Lemma rev_source_mirror : forallb (λ i, (rev_source i =? 63 - i) && source_ok rev_rounds i) (seqZ 0 64) = true.
Proof. vm_compute. reflexivity. Qed.

Lemma rounds_testbit rs v i :
  0 ≤ i < 64 → source_ok rs i = true →
  Z.testbit (foldl (λ v '(s, mask), rev_round s mask v) v rs) i =
  Z.testbit v (foldr (λ '(s, mask) i, round_source s mask i) i rs).
Proof.
  revert v. induction rs as [|[s mask] rs IH]; intros v Hi Hok; [done|]. cbn in Hok |- *.
  apply andb_prop in Hok as [Hj Hok]. apply andb_prop in Hj as [H1%Z.leb_le H2%Z.ltb_lt].
  rewrite IH by done. apply rev_round_testbit. lia.
Qed.

Lemma rev_pure_testbit v i : 0 ≤ i < 64 → Z.testbit (rev_pure v) i = Z.testbit v (63 - i).
Proof.
  intros Hi. pose proof rev_source_mirror as Hall. rewrite forallb_forall in Hall.
  specialize (Hall i). rewrite <-list_elem_of_In, elem_of_seqZ in Hall.
  specialize (Hall ltac:(lia)). apply andb_prop in Hall as [Heq%Z.eqb_eq Hok].
  unfold rev_pure. rewrite rounds_testbit by done. fold (rev_source i). by rewrite Heq.
Qed.

Lemma rev_pure_range v : 0 ≤ v → 0 ≤ rev_pure v < 2 ^ 64.
Proof.
  intros Hv. unfold rev_pure, rev_rounds. cbn [foldl].
  do 6 (apply rev_round_range; [lia| |lia]; try done;
        match goal with |- 0 ≤ ?x => enough (0 ≤ x < 2 ^ 64) by lia end).
  all: try lia.
Qed.
