(* ===== verification/Dict.v ===== *)
(** * Dict: the incrementally rehashed hash table of redisdict.c

    A dictionary is a block of memory with two table headers; each table is
    an array of pointers to chained entries.  The model keeps a heap of typed
    blocks (entries, tables, strings, dictionaries and iterators) and the
    file's three global variables, and every function is a command over that
    state, in the order of the C statements.  [unsigned long] arithmetic wraps
    ([u64]); an [int] that overflows is undefined ([int_of]).  A walk along a
    chain takes the number of live blocks as fuel. *)

From S2P Require Import Prelude.
From S2P Require Import Heap.
From S2P Require Import DictHash.

(** ** Data *)

Definition DICT_OK : Z := 0.
Definition DICT_ERR : Z := 1.
Definition DICT_HT_INITIAL_SIZE : Z := 4.

(** The value is a union of a pointer and two 64-bit integers: one word. *)
Record dictEntry := DictEntry { key : Z; val : Z; next : Z }.

Record dictht := Ht { table : Z; ht_size : Z; sizemask : Z; used : Z }.

(** The three types of dictionary the file defines. *)
Inductive dictType_id :=
  | dictTypeHeapStringCopyKey
  | dictTypeHeapStrings
  | dictTypeHeapStringCopyKeyValue.

Record dict := Dict {
  type : dictType_id;
  privdata : Z;
  ht0 : dictht;
  ht1 : dictht;
  rehashidx : Z;
  iterators : Z;
}.

Record dictIterator := DictIterator {
  it_d : Z;
  it_table : Z;
  it_index : Z;
  it_safe : Z;
  it_entry : Z;
  it_nextEntry : Z;
  it_fingerprint : Z;
}.

Inductive dblock :=
  | DEntry (e : dictEntry)
  | DTable (t : list Z)
  | DString (s : list Z)
  | DDict (x : dict)
  | DIter (i : dictIterator).

Record dict_globals := DictGlobals {
  dict_can_resize : Z;
  dict_force_resize_ratio : Z;
  dict_hash_function_seed : Z;
}.

Definition initial_globals : dict_globals := DictGlobals 1 5 5381.

Notation dheap := (gmap Z dblock).
Record dstate := DState { heap : dheap; globals : dict_globals }.

#[export] Instance dictEntry_eq_dec : EqDecision dictEntry.
Proof. solve_decision. Defined.
#[export] Instance dictht_eq_dec : EqDecision dictht.
Proof. solve_decision. Defined.
#[export] Instance dictType_id_eq_dec : EqDecision dictType_id.
Proof. solve_decision. Defined.
#[export] Instance dict_eq_dec : EqDecision dict.
Proof. solve_decision. Defined.
#[export] Instance dictIterator_eq_dec : EqDecision dictIterator.
Proof. solve_decision. Defined.
#[export] Instance dblock_eq_dec : EqDecision dblock.
Proof. solve_decision. Defined.

(** ** Field updates *)

Definition set_val (v : Z) (e : dictEntry) : dictEntry := DictEntry (key e) v (next e).
Definition set_key (k : Z) (e : dictEntry) : dictEntry := DictEntry k (val e) (next e).
Definition set_next (p : Z) (e : dictEntry) : dictEntry := DictEntry (key e) (val e) p.

Definition set_used (n : Z) (h : dictht) : dictht := Ht (table h) (ht_size h) (sizemask h) n.
Definition null_ht : dictht := Ht 0 0 0 0.

(** [d->ht[i]]; every [i] of the file is 0 or 1. *)
Definition ht (i : Z) (x : dict) : dictht := if i =? 0 then ht0 x else ht1 x.
Definition set_ht (i : Z) (h : dictht) (x : dict) : dict :=
  if i =? 0 then Dict (type x) (privdata x) h (ht1 x) (rehashidx x) (iterators x)
  else Dict (type x) (privdata x) (ht0 x) h (rehashidx x) (iterators x).
Definition set_rehashidx (i : Z) (x : dict) : dict :=
  Dict (type x) (privdata x) (ht0 x) (ht1 x) i (iterators x).
Definition set_iterators (i : Z) (x : dict) : dict :=
  Dict (type x) (privdata x) (ht0 x) (ht1 x) (rehashidx x) i.

Definition set_it_pos (t i : Z) (it : dictIterator) : dictIterator :=
  DictIterator (it_d it) t i (it_safe it) (it_entry it) (it_nextEntry it) (it_fingerprint it).
Definition set_it_safe (b : Z) (it : dictIterator) : dictIterator :=
  DictIterator (it_d it) (it_table it) (it_index it) b (it_entry it) (it_nextEntry it)
    (it_fingerprint it).
Definition set_it_entry (e : Z) (it : dictIterator) : dictIterator :=
  DictIterator (it_d it) (it_table it) (it_index it) (it_safe it) e (it_nextEntry it)
    (it_fingerprint it).
Definition set_it_nextEntry (e : Z) (it : dictIterator) : dictIterator :=
  DictIterator (it_d it) (it_table it) (it_index it) (it_safe it) (it_entry it) e
    (it_fingerprint it).
Definition set_it_fingerprint (f : Z) (it : dictIterator) : dictIterator :=
  DictIterator (it_d it) (it_table it) (it_index it) (it_safe it) (it_entry it)
    (it_nextEntry it) f.

(** ** Loads, stores and release *)

Definition set_heap (h : dheap) (s : dstate) : dstate := DState h (globals s).

Definition load_entry (a : Z) : cmd dstate dictEntry := λ s,
  match heap s !! a with Some (DEntry e) => Done (e, s) | _ => Undef end.
Definition store_entry (a : Z) (e : dictEntry) : cmd dstate unit := λ s,
  match heap s !! a with
  | Some (DEntry _) => Done (tt, set_heap (<[a := DEntry e]> (heap s)) s)
  | _ => Undef
  end.
Definition load_string (a : Z) : cmd dstate (list Z) := λ s,
  match heap s !! a with Some (DString b) => Done (b, s) | _ => Undef end.
Definition store_string (a : Z) (b : list Z) : cmd dstate unit := λ s,
  match heap s !! a with
  | Some (DString _) => Done (tt, set_heap (<[a := DString b]> (heap s)) s)
  | _ => Undef
  end.
Definition load_dict (a : Z) : cmd dstate dict := λ s,
  match heap s !! a with Some (DDict x) => Done (x, s) | _ => Undef end.
Definition store_dict (a : Z) (x : dict) : cmd dstate unit := λ s,
  match heap s !! a with
  | Some (DDict _) => Done (tt, set_heap (<[a := DDict x]> (heap s)) s)
  | _ => Undef
  end.
Definition load_iter (a : Z) : cmd dstate dictIterator := λ s,
  match heap s !! a with Some (DIter i) => Done (i, s) | _ => Undef end.
Definition store_iter (a : Z) (i : dictIterator) : cmd dstate unit := λ s,
  match heap s !! a with
  | Some (DIter _) => Done (tt, set_heap (<[a := DIter i]> (heap s)) s)
  | _ => Undef
  end.

(** [table[i]], undefined outside of the array. *)
Definition load_slot (t i : Z) : cmd dstate Z := λ s,
  match heap s !! t with
  | Some (DTable ps) => p ← buf_get ps i; Done (p, s)
  | _ => Undef
  end.
Definition store_slot (t i p : Z) : cmd dstate unit := λ s,
  match heap s !! t with
  | Some (DTable ps) =>
      _ ← buf_get ps i;
      Done (tt, set_heap (<[t := DTable (<[Z.to_nat i := p]> ps)]> (heap s)) s)
  | _ => Undef
  end.

Definition modify_dict (d : Z) (f : dict → dict) : cmd dstate unit :=
  x ← load_dict d; store_dict d (f x).
Definition modify_iter (a : Z) (f : dictIterator → dictIterator) : cmd dstate unit :=
  i ← load_iter a; store_iter a (f i).

(** [free(NULL)] does nothing. *)
Definition free (a : Z) : cmd dstate unit := λ s,
  if a =? 0 then Done (tt, s)
  else match heap s !! a with
       | Some _ => Done (tt, set_heap (delete a (heap s)) s)
       | None => Undef
       end.

(** The number of live blocks bounds every walk along a chain. *)
Definition walk_fuel : cmd dstate nat := λ s, Done (S (base.size (heap s)), s).
Definition get_globals : cmd dstate dict_globals := λ s, Done (globals s, s).
Definition set_globals (f : dict_globals → dict_globals) : cmd dstate unit := λ s,
  Done (tt, DState (heap s) (f (globals s))).

(** ** Global settings *)

Definition dictSetHashFunctionSeed (seed : Z) : cmd dstate unit :=
  set_globals (λ g, DictGlobals (dict_can_resize g) (dict_force_resize_ratio g) seed).
Definition dictGetHashFunctionSeed : cmd dstate Z :=
  g ← get_globals; mret (dict_hash_function_seed g).
Definition dictEnableResize : cmd dstate unit :=
  set_globals (λ g, DictGlobals 1 (dict_force_resize_ratio g) (dict_hash_function_seed g)).
Definition dictDisableResize : cmd dstate unit :=
  set_globals (λ g, DictGlobals 0 (dict_force_resize_ratio g) (dict_hash_function_seed g)).

Section code.
Context {A : Allocator dblock}.

Definition malloc_block (size : Z) (contents : dblock) : cmd dstate Z := λ s,
  match alloc (heap s) size with
  | Some a => Done (a, set_heap (<[a := contents]> (heap s)) s)
  | None => Done (0, s)
  end.

(** [calloc(1, n)] for an array of pointers. *)
Definition calloc_table (n : Z) : cmd dstate Z :=
  malloc_block n (DTable (replicate (Z.to_nat (n / 8)) 0)).

(** ** The string types *)

Definition _dictStringCopyHTHashFunction (key : Z) : cmd dstate Z :=
  s ← load_string key;
  len ← lift (strlen s);
  g ← get_globals;
  lift (dictGenHashFunction (dict_hash_function_seed g) s (s32 len)).

Definition _dictStringDup (privdata key : Z) : cmd dstate Z :=
  s ← load_string key;
  n ← lift (strlen s);
  let len := s32 n in
  copy ← malloc_block (u64 (len + 1)) (DString (replicate (Z.to_nat (len + 1)) (u8 indeterminate)));
  old ← load_string copy;
  chars ← lift (buf_take s len);
  _ ← store_string copy (chars ++ drop (Z.to_nat len) old);
  _ ← store_string copy (<[Z.to_nat len := 0]> (chars ++ drop (Z.to_nat len) old));
  mret copy.

Definition _dictStringCopyHTKeyCompare (privdata key1 key2 : Z) : cmd dstate Z :=
  s1 ← load_string key1;
  s2 ← load_string key2;
  r ← lift (strcmp s1 s2);
  mret (of_bool (r =? 0)).

Definition _dictStringDestructor (privdata key : Z) : cmd dstate unit := free key.

(** The function pointers of a dictionary type; [None] is a null pointer. *)
Record dictType := DictType {
  hashFunction : Z → cmd dstate Z;
  keyDup : option (Z → Z → cmd dstate Z);
  valDup : option (Z → Z → cmd dstate Z);
  keyCompare : option (Z → Z → Z → cmd dstate Z);
  keyDestructor : option (Z → Z → cmd dstate unit);
  valDestructor : option (Z → Z → cmd dstate unit);
}.

Definition get_type (t : dictType_id) : dictType :=
  match t with
  | dictTypeHeapStringCopyKey =>
      DictType _dictStringCopyHTHashFunction (Some _dictStringDup) None
        (Some _dictStringCopyHTKeyCompare) (Some _dictStringDestructor) None
  | dictTypeHeapStrings =>
      DictType _dictStringCopyHTHashFunction None None
        (Some _dictStringCopyHTKeyCompare) (Some _dictStringDestructor) None
  | dictTypeHeapStringCopyKeyValue =>
      DictType _dictStringCopyHTHashFunction (Some _dictStringDup) (Some _dictStringDup)
        (Some _dictStringCopyHTKeyCompare) (Some _dictStringDestructor)
        (Some _dictStringDestructor)
  end.

(** ** The macros of redisdict.h *)

Definition dictHashKey (d key : Z) : cmd dstate Z :=
  x ← load_dict d; hashFunction (get_type (type x)) key.

Definition dictCompareKeys (d key1 key2 : Z) : cmd dstate Z :=
  x ← load_dict d;
  match keyCompare (get_type (type x)) with
  | Some f => f (privdata x) key1 key2
  | None => mret (of_bool (key1 =? key2))
  end.

Definition dictSetKey (d entry k : Z) : cmd dstate unit :=
  x ← load_dict d;
  k ← match keyDup (get_type (type x)) with Some f => f (privdata x) k | None => mret k end;
  e ← load_entry entry;
  store_entry entry (set_key k e).

Definition dictSetVal (d entry v : Z) : cmd dstate unit :=
  x ← load_dict d;
  v ← match valDup (get_type (type x)) with Some f => f (privdata x) v | None => mret v end;
  e ← load_entry entry;
  store_entry entry (set_val v e).

(** These two are applied to an entry that may be a local variable. *)
Definition dictFreeKey (d : Z) (entry : dictEntry) : cmd dstate unit :=
  x ← load_dict d;
  match keyDestructor (get_type (type x)) with
  | Some f => f (privdata x) (key entry)
  | None => mret tt
  end.

Definition dictFreeVal (d : Z) (entry : dictEntry) : cmd dstate unit :=
  x ← load_dict d;
  match valDestructor (get_type (type x)) with
  | Some f => f (privdata x) (val entry)
  | None => mret tt
  end.

Definition dictIsRehashing (x : dict) : bool := negb (rehashidx x =? -1).
Definition dictSize (x : dict) : Z := u64 (used (ht0 x) + used (ht1 x)).
Definition dictSlots (x : dict) : Z := u64 (ht_size (ht0 x) + ht_size (ht1 x)).

(** ** Creation and resizing *)

Definition _dictReset (d i : Z) : cmd dstate unit := modify_dict d (set_ht i null_ht).

Definition _dictInit (d : Z) (t : dictType_id) (privDataPtr : Z) : cmd dstate Z :=
  _ ← _dictReset d 0;
  _ ← _dictReset d 1;
  _ ← modify_dict d (λ x, Dict t (privdata x) (ht0 x) (ht1 x) (rehashidx x) (iterators x));
  _ ← modify_dict d (λ x, Dict (type x) privDataPtr (ht0 x) (ht1 x) (rehashidx x) (iterators x));
  _ ← modify_dict d (set_rehashidx (-1));
  _ ← modify_dict d (set_iterators 0);
  mret DICT_OK.

Definition SIZEOF_DICT : Z := 88.
Definition SIZEOF_ENTRY : Z := 24.
Definition SIZEOF_ITERATOR : Z := 48.

Definition garbage_ht : dictht := Ht indeterminate indeterminate indeterminate indeterminate.

Definition dictCreate (t : dictType_id) (privDataPtr : Z) : cmd dstate Z :=
  d ← malloc_block SIZEOF_DICT
        (DDict (Dict dictTypeHeapStrings indeterminate garbage_ht garbage_ht indeterminate
                  indeterminate));
  _ ← _dictInit d t privDataPtr;
  mret d.

Definition LONG_MAX : Z := 2 ^ 63 - 1.

Fixpoint nextPower_loop (fuel : nat) (i size : Z) : outcome Z :=
  match fuel with
  | O => NoFuel
  | S fuel => if size <=? i then Done i else nextPower_loop fuel (u64 (i * 2)) size
  end.
Definition _dictNextPower (size : Z) : outcome Z :=
  if LONG_MAX <=? size then Done LONG_MAX else nextPower_loop 64 DICT_HT_INITIAL_SIZE size.

Definition dictExpand (d size : Z) : cmd dstate Z :=
  realsize ← lift (_dictNextPower size);
  x ← load_dict d;
  if dictIsRehashing x || (size <? used (ht0 x)) then mret DICT_ERR
  else
    t ← calloc_table (u64 (realsize * 8));
    let n := Ht t realsize (u64 (realsize - 1)) 0 in
    x ← load_dict d;
    if table (ht0 x) =? 0 then
      _ ← modify_dict d (set_ht 0 n);
      mret DICT_OK
    else
      _ ← modify_dict d (set_ht 1 n);
      _ ← modify_dict d (set_rehashidx 0);
      mret DICT_OK.

Definition dictResize (d : Z) : cmd dstate Z :=
  g ← get_globals;
  x ← load_dict d;
  if (dict_can_resize g =? 0) || dictIsRehashing x then mret DICT_ERR
  else
    let minimal := s32 (used (ht0 x)) in
    let minimal := if minimal <? DICT_HT_INITIAL_SIZE then DICT_HT_INITIAL_SIZE else minimal in
    dictExpand d (u64 minimal).

(** ** Incremental rehashing *)

(** [while(d->ht[0].table[d->rehashidx] == NULL) d->rehashidx++]: every step
    looks at another slot of the table, of which there are [ht[0].size]. *)
Fixpoint skip_empty (fuel : nat) (d : Z) : cmd dstate unit :=
  match fuel with
  | O => nofuel
  | S fuel =>
      x ← load_dict d;
      p ← load_slot (table (ht0 x)) (rehashidx x);
      if p =? 0 then
        i ← lift (int_of (rehashidx x + 1));
        _ ← modify_dict d (set_rehashidx i);
        skip_empty fuel d
      else mret tt
  end.

(** Move the chain [de] to the second table. *)
Fixpoint rehash_chain (fuel : nat) (d de : Z) : cmd dstate unit :=
  match fuel with
  | O => nofuel
  | S fuel =>
      if de =? 0 then mret tt
      else
        e ← load_entry de;
        let nextde := next e in
        hk ← dictHashKey d (key e);
        x ← load_dict d;
        let h := u32 (Z.land hk (sizemask (ht1 x))) in
        p ← load_slot (table (ht1 x)) h;
        _ ← store_entry de (set_next p e);
        _ ← store_slot (table (ht1 x)) h de;
        _ ← modify_dict d (λ x, set_ht 0 (set_used (u64 (used (ht0 x) - 1)) (ht0 x)) x);
        _ ← modify_dict d (λ x, set_ht 1 (set_used (u64 (used (ht1 x) + 1)) (ht1 x)) x);
        rehash_chain fuel d nextde
  end.

(** The old table is empty: the new one takes its place. *)
Definition rehash_finish (d : Z) : cmd dstate Z :=
  x ← load_dict d;
  _ ← free (table (ht0 x));
  _ ← modify_dict d (λ x, set_ht 0 (ht1 x) x);
  _ ← _dictReset d 1;
  _ ← modify_dict d (set_rehashidx (-1));
  mret 0.

(** Move the next bucket that is not empty. *)
Definition rehash_bucket (d : Z) : cmd dstate unit :=
  x ← load_dict d;
  _ ← skip_empty (S (Z.to_nat (ht_size (ht0 x)))) d;
  x ← load_dict d;
  de ← load_slot (table (ht0 x)) (rehashidx x);
  fuel ← walk_fuel;
  _ ← rehash_chain fuel d de;
  x ← load_dict d;
  _ ← store_slot (table (ht0 x)) (rehashidx x) 0;
  i ← lift (int_of (rehashidx x + 1));
  modify_dict d (set_rehashidx i).

(** [while(n--)]: a round that does not return moves an entry. *)
Fixpoint dictRehash_loop (fuel : nat) (d n : Z) : cmd dstate Z :=
  match fuel with
  | O => nofuel
  | S fuel =>
      if n =? 0 then mret 1
      else
        n ← lift (int_of (n - 1));
        x ← load_dict d;
        if used (ht0 x) =? 0 then rehash_finish d
        else _ ← rehash_bucket d; dictRehash_loop fuel d n
  end.

Definition dictRehash (d n : Z) : cmd dstate Z :=
  x ← load_dict d;
  if negb (dictIsRehashing x) then mret 0
  else fuel ← walk_fuel; dictRehash_loop fuel d n.

Definition _dictRehashStep (d : Z) : cmd dstate unit :=
  x ← load_dict d;
  if iterators x =? 0 then _ ← dictRehash d 1; mret tt else mret tt.

(** [timeInMilliseconds] is the next of the clock readings [clock], each a
    pair of seconds and microseconds. *)
Definition timeInMilliseconds (tv : Z * Z) : Z := tv.1 * 1000 + tv.2 / 1000.

Fixpoint rehashMilliseconds_loop (clock : list (Z * Z)) (start rehashes d ms : Z) : cmd dstate Z :=
  r ← dictRehash d 100;
  if r =? 0 then mret rehashes
  else
    rehashes ← lift (int_of (rehashes + 100));
    match clock with
    | [] => nofuel
    | tv :: clock =>
        if ms <? timeInMilliseconds tv - start then mret rehashes
        else rehashMilliseconds_loop clock start rehashes d ms
    end.

Definition dictRehashMilliseconds (clock : list (Z * Z)) (d ms : Z) : cmd dstate Z :=
  match clock with
  | [] => nofuel
  | tv :: clock => rehashMilliseconds_loop clock (timeInMilliseconds tv) 0 d ms
  end.
(** ** Lookup *)

(** [while(he)]: the entry of the chain with the key, or null. *)
Fixpoint find_in_chain (fuel : nat) (d key he : Z) : cmd dstate Z :=
  match fuel with
  | O => nofuel
  | S fuel =>
      if he =? 0 then mret 0
      else
        e ← load_entry he;
        c ← dictCompareKeys d key (Dict.key e);
        if negb (c =? 0) then mret he
        else find_in_chain fuel d key (next e)
  end.

(** The body of [for (table = 0; table <= 1; table++)] shared by the lookups:
    the bucket of hash [h] in one table, and the entry with the key there. *)
Definition probe (d key h tab : Z) : cmd dstate (Z * Z) :=
  x ← load_dict d;
  let idx := u32 (Z.land h (sizemask (ht tab x))) in
  he ← load_slot (table (ht tab x)) idx;
  fuel ← walk_fuel;
  he ← find_in_chain fuel d key he;
  mret (idx, he).

Definition dictFind (d key : Z) : cmd dstate Z :=
  x ← load_dict d;
  if ht_size (ht0 x) =? 0 then mret 0
  else
    _ ← (if dictIsRehashing x then _dictRehashStep d else mret tt);
    h ← dictHashKey d key;
    '(_, he) ← probe d key h 0;
    if negb (he =? 0) then mret he
    else
      x ← load_dict d;
      if negb (dictIsRehashing x) then mret 0
      else '(_, he) ← probe d key h 1; (if negb (he =? 0) then mret he else mret 0).

Definition dictFetchValue (d key : Z) : cmd dstate Z :=
  he ← dictFind d key;
  if negb (he =? 0) then e ← load_entry he; mret (val e) else mret 0.

(** ** Insertion *)

Definition _dictExpandIfNeeded (d : Z) : cmd dstate Z :=
  x ← load_dict d;
  if dictIsRehashing x then mret DICT_OK
  else if ht_size (ht0 x) =? 0 then dictExpand d DICT_HT_INITIAL_SIZE
  else
    g ← get_globals;
    if (ht_size (ht0 x) <=? used (ht0 x)) &&
       (negb (dict_can_resize g =? 0) ||
        (dict_force_resize_ratio g <? used (ht0 x) / ht_size (ht0 x)))
    then dictExpand d (u64 (used (ht0 x) * 2))
    else mret DICT_OK.

Definition _dictKeyIndex (d key : Z) : cmd dstate Z :=
  r ← _dictExpandIfNeeded d;
  if r =? DICT_ERR then mret (-1)
  else
    h ← dictHashKey d key;
    '(idx, he) ← probe d key h 0;
    if negb (he =? 0) then mret (-1)
    else
      x ← load_dict d;
      if negb (dictIsRehashing x) then mret (s32 idx)
      else
        '(idx, he) ← probe d key h 1;
        if negb (he =? 0) then mret (-1) else mret (s32 idx).

Definition dictAddRaw (d key : Z) : cmd dstate Z :=
  x ← load_dict d;
  _ ← (if dictIsRehashing x then _dictRehashStep d else mret tt);
  index ← _dictKeyIndex d key;
  if index =? -1 then mret 0
  else
    x ← load_dict d;
    let i := if dictIsRehashing x then 1 else 0 in
    entry ← malloc_block SIZEOF_ENTRY (DEntry (DictEntry indeterminate indeterminate indeterminate));
    x ← load_dict d;
    p ← load_slot (table (ht i x)) index;
    e ← load_entry entry;
    _ ← store_entry entry (set_next p e);
    _ ← store_slot (table (ht i x)) index entry;
    _ ← modify_dict d (λ x, set_ht i (set_used (u64 (used (ht i x) + 1)) (ht i x)) x);
    _ ← dictSetKey d entry key;
    mret entry.

Definition dictAdd (d key val : Z) : cmd dstate Z :=
  entry ← dictAddRaw d key;
  if entry =? 0 then mret DICT_ERR
  else _ ← dictSetVal d entry val; mret DICT_OK.

Definition dictReplace (d key val : Z) : cmd dstate Z :=
  r ← dictAdd d key val;
  if r =? DICT_OK then mret 1
  else
    entry ← dictFind d key;
    auxentry ← load_entry entry;
    _ ← dictSetVal d entry val;
    _ ← dictFreeVal d auxentry;
    mret 0.

Definition dictReplaceRaw (d key : Z) : cmd dstate Z :=
  entry ← dictFind d key;
  if negb (entry =? 0) then mret entry else dictAddRaw d key.

(** ** Deletion *)

(** Unlink [he] from bucket [idx] of table [tab] and free it. *)
Definition delete_entry (d tab idx prevHe he nofree : Z) : cmd dstate unit :=
  e ← load_entry he;
  _ ← (if negb (prevHe =? 0) then
         p ← load_entry prevHe; store_entry prevHe (set_next (next e) p)
       else x ← load_dict d; store_slot (table (ht tab x)) idx (next e));
  _ ← (if nofree =? 0 then _ ← dictFreeKey d e; dictFreeVal d e else mret tt);
  _ ← free he;
  modify_dict d (λ x, set_ht tab (set_used (u64 (used (ht tab x) - 1)) (ht tab x)) x).

(** [while(he)]: whether an entry was deleted. *)
Fixpoint delete_in_chain (fuel : nat) (d key tab idx prevHe he nofree : Z) : cmd dstate bool :=
  match fuel with
  | O => nofuel
  | S fuel =>
      if he =? 0 then mret false
      else
        e ← load_entry he;
        c ← dictCompareKeys d key (Dict.key e);
        if negb (c =? 0) then _ ← delete_entry d tab idx prevHe he nofree; mret true
        else delete_in_chain fuel d key tab idx he (next e) nofree
  end.

Definition delete_in_table (d key h tab nofree : Z) : cmd dstate bool :=
  x ← load_dict d;
  let idx := u32 (Z.land h (sizemask (ht tab x))) in
  he ← load_slot (table (ht tab x)) idx;
  fuel ← walk_fuel;
  delete_in_chain fuel d key tab idx 0 he nofree.

Definition dictGenericDelete (d key nofree : Z) : cmd dstate Z :=
  x ← load_dict d;
  if ht_size (ht0 x) =? 0 then mret DICT_ERR
  else
    _ ← (if dictIsRehashing x then _dictRehashStep d else mret tt);
    h ← dictHashKey d key;
    found ← delete_in_table d key h 0 nofree;
    if (found : bool) then mret DICT_OK
    else
      x ← load_dict d;
      if negb (dictIsRehashing x) then mret DICT_ERR
      else
        found ← delete_in_table d key h 1 nofree;
        if (found : bool) then mret DICT_OK else mret DICT_ERR.

Definition dictDelete (d key : Z) : cmd dstate Z := dictGenericDelete d key 0.
Definition dictDeleteNoFree (d key : Z) : cmd dstate Z := dictGenericDelete d key 1.

(** ** Destruction *)

Fixpoint clear_chain (fuel : nat) (d tab he : Z) : cmd dstate unit :=
  match fuel with
  | O => nofuel
  | S fuel =>
      if he =? 0 then mret tt
      else
        e ← load_entry he;
        let nextHe := next e in
        _ ← dictFreeKey d e;
        _ ← dictFreeVal d e;
        _ ← free he;
        _ ← modify_dict d (λ x, set_ht tab (set_used (u64 (used (ht tab x) - 1)) (ht tab x)) x);
        clear_chain fuel d tab nextHe
  end.

(** [for (i = 0; i < ht->size && ht->used > 0; i++)] *)
Fixpoint clear_buckets (fuel : nat) (d tab i : Z) : cmd dstate unit :=
  match fuel with
  | O => nofuel
  | S fuel =>
      x ← load_dict d;
      if (i <? ht_size (ht tab x)) && (0 <? used (ht tab x)) then
        he ← load_slot (table (ht tab x)) i;
        n ← walk_fuel;
        _ ← clear_chain n d tab he;
        clear_buckets fuel d tab (u64 (i + 1))
      else mret tt
  end.

Definition _dictClear (d tab : Z) : cmd dstate Z :=
  x ← load_dict d;
  _ ← clear_buckets (S (Z.to_nat (ht_size (ht tab x)))) d tab 0;
  x ← load_dict d;
  _ ← free (table (ht tab x));
  _ ← _dictReset d tab;
  mret DICT_OK.

Definition dictRelease (d : Z) : cmd dstate unit :=
  _ ← _dictClear d 0;
  _ ← _dictClear d 1;
  free d.

Definition dictEmpty (d : Z) : cmd dstate unit :=
  _ ← _dictClear d 0;
  _ ← _dictClear d 1;
  _ ← modify_dict d (set_rehashidx (-1));
  modify_dict d (set_iterators 0).
(** ** Iterators *)

(** One round of the fingerprint: Thomas Wang's 64 bit integer hash, computed
    with [long long]s.  The right shift of a negative number is arithmetic. *)
Definition fingerprint_round (hash i : Z) : outcome Z :=
  hash ← int64_of (hash + i);
  hash ← (x ← shl64 hash 21; int64_of (Z.lnot hash + x));
  let hash := Z.lxor hash (Z.shiftr hash 24) in
  hash ← (x ← shl64 hash 3; x ← int64_of (hash + x); y ← shl64 hash 8; int64_of (x + y));
  let hash := Z.lxor hash (Z.shiftr hash 14) in
  hash ← (x ← shl64 hash 2; x ← int64_of (hash + x); y ← shl64 hash 4; int64_of (x + y));
  let hash := Z.lxor hash (Z.shiftr hash 28) in
  x ← shl64 hash 31;
  int64_of (hash + x).

Fixpoint fingerprint_loop (hash : Z) (integers : list Z) : outcome Z :=
  match integers with
  | [] => Done hash
  | i :: integers => hash ← fingerprint_round hash i; fingerprint_loop hash integers
  end.

Definition dictFingerprint (d : Z) : cmd dstate Z :=
  x ← load_dict d;
  lift (fingerprint_loop 0
    [s64 (table (ht0 x)); s64 (ht_size (ht0 x)); s64 (used (ht0 x));
     s64 (table (ht1 x)); s64 (ht_size (ht1 x)); s64 (used (ht1 x))]).

Definition dictGetIterator (d : Z) : cmd dstate Z :=
  iter ← malloc_block SIZEOF_ITERATOR
           (DIter (DictIterator indeterminate indeterminate indeterminate indeterminate
                     indeterminate indeterminate indeterminate));
  _ ← modify_iter iter (λ it, DictIterator d (it_table it) (it_index it) (it_safe it)
                                (it_entry it) (it_nextEntry it) (it_fingerprint it));
  _ ← modify_iter iter (set_it_pos 0 (-1));
  _ ← modify_iter iter (set_it_safe 0);
  _ ← modify_iter iter (set_it_entry 0);
  _ ← modify_iter iter (set_it_nextEntry 0);
  mret iter.

Definition dictGetSafeIterator (d : Z) : cmd dstate Z :=
  i ← dictGetIterator d;
  _ ← modify_iter i (set_it_safe 1);
  mret i.

(** What the first call does: register a safe iterator with the dictionary,
    or take its fingerprint. *)
Definition iter_first (iter : Z) : cmd dstate unit :=
  it ← load_iter iter;
  if (it_index it =? -1) && (it_table it =? 0) then
    if negb (it_safe it =? 0) then
      x ← load_dict (it_d it);
      n ← lift (int_of (iterators x + 1));
      modify_dict (it_d it) (set_iterators n)
    else
      f ← dictFingerprint (it_d it);
      modify_iter iter (set_it_fingerprint f)
  else mret tt.

(** Advance to the next bucket; [false] is the [break]. *)
Definition iter_advance (iter : Z) : cmd dstate bool :=
  it ← load_iter iter;
  index ← lift (int_of (it_index it + 1));
  _ ← modify_iter iter (set_it_pos (it_table it) index);
  x ← load_dict (it_d it);
  more ← (if s32 (ht_size (ht (it_table it) x)) <=? index then
            if dictIsRehashing x && (it_table it =? 0) then
              _ ← modify_iter iter (set_it_pos (it_table it + 1) 0); mret true
            else mret false
          else mret true);
  if (more : bool) then
    it ← load_iter iter;
    p ← load_slot (table (ht (it_table it) x)) (it_index it);
    _ ← modify_iter iter (set_it_entry p);
    mret true
  else mret false.

Definition iter_bucket (iter : Z) : cmd dstate bool :=
  _ ← iter_first iter;
  iter_advance iter.

(** [while(1)]: a round that does not return moves to another bucket. *)
Fixpoint dictNext_loop (fuel : nat) (iter : Z) : cmd dstate Z :=
  match fuel with
  | O => nofuel
  | S fuel =>
      it ← load_iter iter;
      more ← (if it_entry it =? 0 then iter_bucket iter
              else _ ← modify_iter iter (set_it_entry (it_nextEntry it)); mret true);
      if (more : bool) then
        it ← load_iter iter;
        if negb (it_entry it =? 0) then
          e ← load_entry (it_entry it);
          _ ← modify_iter iter (set_it_nextEntry (next e));
          mret (it_entry it)
        else dictNext_loop fuel iter
      else mret 0
  end.

Definition dictNext (iter : Z) : cmd dstate Z :=
  it ← load_iter iter;
  x ← load_dict (it_d it);
  dictNext_loop (3 + Z.to_nat (ht_size (ht0 x)) + Z.to_nat (ht_size (ht1 x))) iter.

Definition dictReleaseIterator (iter : Z) : cmd dstate unit :=
  it ← load_iter iter;
  _ ← (if negb ((it_index it =? -1) && (it_table it =? 0)) then
         if negb (it_safe it =? 0) then
           x ← load_dict (it_d it);
           n ← lift (int_of (iterators x - 1));
           modify_dict (it_d it) (set_iterators n)
         else mret tt
       else mret tt);
  free iter.

(** ** Random choice: [rs] are the numbers [rand()] returns *)

Fixpoint random_bucket (rs : list Z) (x : dict) : cmd dstate (Z * list Z) :=
  match rs with
  | [] => nofuel
  | r :: rs =>
      he ← (if dictIsRehashing x then
              let h := u32 (r mod dictSlots x) in
              if ht_size (ht0 x) <=? h then load_slot (table (ht1 x)) (u64 (h - ht_size (ht0 x)))
              else load_slot (table (ht0 x)) h
            else load_slot (table (ht0 x)) (u32 (Z.land r (sizemask (ht0 x)))));
      if he =? 0 then random_bucket rs x else mret (he, rs)
  end.

Fixpoint chain_length (fuel : nat) (he listlen : Z) : cmd dstate Z :=
  match fuel with
  | O => nofuel
  | S fuel =>
      if he =? 0 then mret listlen
      else e ← load_entry he; n ← lift (int_of (listlen + 1)); chain_length fuel (next e) n
  end.

Fixpoint chain_skip (n : nat) (he : Z) : cmd dstate Z :=
  match n with
  | O => mret he
  | S n => e ← load_entry he; chain_skip n (next e)
  end.

Definition dictGetRandomKey (rs : list Z) (d : Z) : cmd dstate Z :=
  x ← load_dict d;
  if dictSize x =? 0 then mret 0
  else
    _ ← (if dictIsRehashing x then _dictRehashStep d else mret tt);
    x ← load_dict d;
    '(he, rs) ← random_bucket rs x;
    fuel ← walk_fuel;
    listlen ← chain_length fuel he 0;
    match rs with
    | [] => nofuel
    | r :: _ => if listlen =? 0 then undef else chain_skip (Z.to_nat (Z.rem r listlen)) he
    end.

(** ** Scanning: the entries passed to the callback [fn], in order *)

Fixpoint scan_chain (fuel : nat) (de : Z) : cmd dstate (list Z) :=
  match fuel with
  | O => nofuel
  | S fuel =>
      if de =? 0 then mret []
      else e ← load_entry de; l ← scan_chain fuel (next e); mret (de :: l)
  end.

Definition scan_bucket (t i : Z) : cmd dstate (list Z) :=
  de ← load_slot t i; fuel ← walk_fuel; scan_chain fuel de.

(** The cursors of the larger table that expand cursor [v]. *)
Definition scan_step (m0 v : Z) : Z :=
  Z.lor (Z.land (u64 (Z.lor v m0 + 1)) (u64 (Z.lnot m0))) (Z.land v m0).

Fixpoint scan_expansions (fuel : nat) (t1 m0 m1 v : Z) : cmd dstate (list Z * Z) :=
  match fuel with
  | O => nofuel
  | S fuel =>
      l ← scan_bucket t1 (Z.land v m1);
      let v := scan_step m0 v in
      if negb (Z.land v (Z.lxor m0 m1) =? 0) then
        '(l', v) ← scan_expansions fuel t1 m0 m1 v; mret (l ++ l', v)
      else mret (l, v)
  end.

(** Increment the reversed cursor. *)
Definition scan_next (m0 v : Z) : outcome Z :=
  let v := Z.lor v (u64 (Z.lnot m0)) in
  v ← rev v;
  rev (u64 (v + 1)).

Definition dictScan (d v : Z) : cmd dstate (Z * list Z) :=
  x ← load_dict d;
  if dictSize x =? 0 then mret (0, [])
  else if negb (dictIsRehashing x) then
    let m0 := sizemask (ht0 x) in
    l ← scan_bucket (table (ht0 x)) (Z.land v m0);
    v ← lift (scan_next m0 v);
    mret (v, l)
  else
    let '(t0, t1) := if ht_size (ht1 x) <? ht_size (ht0 x) then (ht1 x, ht0 x) else (ht0 x, ht1 x) in
    let m0 := sizemask t0 in
    let m1 := sizemask t1 in
    l ← scan_bucket (table t0) (Z.land v m0);
    '(l', v) ← scan_expansions (Z.to_nat (ht_size t1)) (table t1) m0 m1 v;
    v ← lift (scan_next m0 v);
    mret (v, l ++ l').

(** ** The interface of helper.h *)

Definition init : cmd dstate Z := dictCreate dictTypeHeapStringCopyKey 0.
Definition add (obj key val : Z) : cmd dstate Z := dictAdd obj key val.
Definition find (obj key : Z) : cmd dstate Z :=
  entry ← dictFind obj key;
  if entry =? 0 then mret 0 else e ← load_entry entry; mret (val e).
Definition del (obj key : Z) : cmd dstate Z := dictDelete obj key.
Definition clear (obj : Z) : cmd dstate unit := dictEmpty obj.
End code.
