(* ===== verification/DictMem.v ===== *)
(** * DictMem: the memory of a dictionary

    Chains, buckets and tables as lists of entries ([ent]), the blocks they
    occupy, and what one bucket contributes to them; the validity of an
    abstract dictionary ([dict_ok]: every entry is in the bucket its hash
    selects, no key twice, and a table being emptied has nothing below
    [rehashidx]); and the equations of loads, stores and key comparisons on
    that memory. *)

From S2P Require Import Prelude.
From S2P Require Import Own.
From S2P Require Import Heap.
From S2P Require Import DictHash.
From S2P Require Import Dict.

(** ** Entries and chains *)

Record ent := Ent { e_at : Z; e_kp : Z; e_key : list Z; e_val : Z }.

Definition head_or (l : list ent) (nxt : Z) : Z :=
  match l with [] => nxt | e :: _ => e_at e end.
Notation chain l := (head_or l 0).

(** A chain segment that ends in the pointer [nxt]. *)
Fixpoint seg_cells (l : list ent) (nxt : Z) : list (Z * dblock) :=
  match l with
  | [] => []
  | e :: l' =>
      (e_at e, DEntry (DictEntry (e_kp e) (e_val e) (head_or l' nxt))) ::
      (e_kp e, DString (cstr (e_key e))) :: seg_cells l' nxt
  end.
Notation chain_cells l := (seg_cells l 0).

Definition bucket_cells (bs : list (list ent)) : list (Z * dblock) :=
  concat ((λ l, chain_cells l) <$> bs).

Lemma head_or_app l1 l2 nxt : head_or (l1 ++ l2) nxt = head_or l1 (head_or l2 nxt).
Proof. by destruct l1. Qed.

Lemma seg_cells_app l1 l2 nxt :
  seg_cells (l1 ++ l2) nxt = seg_cells l1 (head_or l2 nxt) ++ seg_cells l2 nxt.
Proof. induction l1 as [|e l1 IH]; cbn; [done|]. by rewrite IH, head_or_app. Qed.

Lemma length_seg_cells l nxt : length (seg_cells l nxt) = (2 * length l)%nat.
Proof. induction l; cbn; lia. Qed.

Lemma bucket_cells_out bs i l :
  bs !! i = Some l → bucket_cells bs ≡ₚ chain_cells l ++ bucket_cells (<[i := []]> bs).
Proof.
  intros Hi. unfold bucket_cells. rewrite (concat_take_out _ i (chain_cells l)).
  - by rewrite list_fmap_insert.
  - by rewrite list_lookup_fmap, Hi.
Qed.

Lemma bucket_cells_in bs i l l' :
  bs !! i = Some l →
  bucket_cells (<[i := l']> bs) ≡ₚ chain_cells l' ++ bucket_cells (<[i := []]> bs).
Proof.
  intros Hi. rewrite (bucket_cells_out _ i l').
  - by rewrite list_insert_insert_eq.
  - apply list_lookup_insert_eq. by eapply lookup_lt_Some.
Qed.

(** ** Keys *)

Definition dkey_ok (k : list Z) : Prop := nonul k ∧ Z.of_nat (length k) < 2 ^ 31 - 1.

#[export] Instance dkey_ok_dec k : Decision (dkey_ok k).
Proof. unfold dkey_ok. apply _. Defined.

(** The hash of a key's string. *)
Definition khash (seed : Z) (k : list Z) : Z :=
  match dictGenHashFunction seed (cstr k) (Z.of_nat (length k)) with Done h => h | _ => 0 end.

Lemma khash_run seed k :
  0 ≤ seed < 2 ^ 32 → nonul k →
  dictGenHashFunction seed (cstr k) (Z.of_nat (length k)) = Done (khash seed k).
Proof.
  intros Hs Hk. unfold khash.
  destruct (dictGenHashFunction_ok seed (cstr k) (Z.of_nat (length k))) as (h & -> & _);
    [by apply byte_list_cstr|rewrite length_cstr; lia|done|done].
Qed.

Lemma khash_range seed k : 0 ≤ seed < 2 ^ 32 → nonul k → 0 ≤ khash seed k < 2 ^ 32.
Proof.
  intros Hs Hk. pose proof (khash_run seed k Hs Hk) as Hrun.
  destruct (dictGenHashFunction_ok seed (cstr k) (Z.of_nat (length k))) as (h & Heq & Hh);
    [by apply byte_list_cstr|rewrite length_cstr; lia|done|].
  rewrite Heq in Hrun. injection Hrun as <-. done.
Qed.

(** ** Tables *)

Record tab := Tab { t_at : Z; t_buckets : list (list ent) }.

Definition null_tab : tab := Tab 0 [].
Definition t_ents (t : tab) : list ent := concat (t_buckets t).
Definition t_size (t : tab) : Z := Z.of_nat (length (t_buckets t)).
Definition t_used (t : tab) : Z := Z.of_nat (length (t_ents t)).

Definition header (t : tab) : dictht :=
  Ht (t_at t) (t_size t) (if t_size t =? 0 then 0 else t_size t - 1) (t_used t).

Definition tab_block (t : tab) : dblock := DTable ((λ l, chain l) <$> t_buckets t).

Definition tab_cells (t : tab) : list (Z * dblock) :=
  if t_at t =? 0 then [] else (t_at t, tab_block t) :: bucket_cells (t_buckets t).

(** The bucket a key belongs to. *)
Definition bucket_of (seed : Z) (t : tab) (k : list Z) : nat :=
  Z.to_nat (khash seed k mod t_size t).

Definition ent_ok (seed : Z) (t : tab) (i : nat) (e : ent) : Prop :=
  e_at e ≠ 0 ∧ e_kp e ≠ 0 ∧ dkey_ok (e_key e) ∧ bucket_of seed t (e_key e) = i.

Definition buckets_ok (seed : Z) (t : tab) : Prop :=
  ∀ i l, t_buckets t !! i = Some l → Forall (ent_ok seed t i) l.

Definition size_ok (t : tab) : Prop := ∃ p, 2 ≤ p ≤ 30 ∧ t_size t = 2 ^ p.

Definition tab_ok (seed : Z) (t : tab) : Prop := t_at t ≠ 0 ∧ size_ok t ∧ buckets_ok seed t.

Lemma size_ok_range t : size_ok t → 4 ≤ t_size t ≤ 2 ^ 30.
Proof.
  intros (p & Hp & ->). split.
  - change 4 with (2 ^ 2). apply Z.pow_le_mono_r; lia.
  - apply Z.pow_le_mono_r; lia.
Qed.

(** [h & sizemask] is the bucket number. *)
Lemma bucket_mask seed t k :
  size_ok t → 0 ≤ seed < 2 ^ 32 → nonul k →
  u32 (Z.land (khash seed k) (sizemask (header t))) = Z.of_nat (bucket_of seed t k) ∧
  (bucket_of seed t k < length (t_buckets t))%nat.
Proof.
  intros Hsz Hs Hk. pose proof (size_ok_range t Hsz) as Hr. destruct Hsz as (p & Hp & Hpow).
  pose proof (khash_range seed k Hs Hk) as Hh. unfold bucket_of. cbn [header sizemask].
  destruct (Z.eqb_spec (t_size t) 0); [lia|].
  replace (t_size t - 1) with (Z.ones p) by (rewrite Z.ones_equiv; lia).
  rewrite Z.land_ones by lia. rewrite <-Hpow.
  pose proof (Z.mod_pos_bound (khash seed k) (t_size t) ltac:(lia)).
  rewrite u32_small by lia. unfold t_size in *. lia.
Qed.

Lemma bucket_lookup seed t k :
  size_ok t → 0 ≤ seed < 2 ^ 32 → nonul k →
  ∃ l, t_buckets t !! bucket_of seed t k = Some l.
Proof.
  intros Hsz Hs Hk. apply lookup_lt_is_Some_2. by eapply bucket_mask.
Qed.

(** ** Dictionaries *)

Record adict := ADict { a_priv : Z; a_t0 : tab; a_t1 : tab; a_idx : Z; a_iters : Z }.

Definition a_ents (a : adict) : list ent := t_ents (a_t0 a) ++ t_ents (a_t1 a).
Definition a_keys (a : adict) : list (list Z) := e_key <$> a_ents a.
Definition a_map (a : adict) : gmap (list Z) Z :=
  list_to_map ((λ e, (e_key e, e_val e)) <$> a_ents a).

Definition a_block (a : adict) : dict :=
  Dict dictTypeHeapStringCopyKey (a_priv a) (header (a_t0 a)) (header (a_t1 a)) (a_idx a) (a_iters a).

Definition dict_cells (d : Z) (a : adict) : list (Z * dblock) :=
  (d, DDict (a_block a)) :: tab_cells (a_t0 a) ++ tab_cells (a_t1 a).

(** No table yet; one table; or two, the first being emptied. *)
Inductive tables_ok (seed : Z) (a : adict) : Prop :=
  | TablesNone : a_t0 a = null_tab → a_t1 a = null_tab → a_idx a = -1 → tables_ok seed a
  | TablesOne : tab_ok seed (a_t0 a) → a_t1 a = null_tab → a_idx a = -1 → tables_ok seed a
  | TablesTwo : tab_ok seed (a_t0 a) → tab_ok seed (a_t1 a) → 0 ≤ a_idx a ≤ t_size (a_t0 a) →
      (∀ i l, t_buckets (a_t0 a) !! i = Some l → Z.of_nat i < a_idx a → l = []) →
      tables_ok seed a.

Definition dict_ok (seed : Z) (a : adict) : Prop := tables_ok seed a ∧ NoDup (a_keys a).

Lemma t_ents_null : t_ents null_tab = [].
Proof. done. Qed.

(** ** Lookup in a chain *)

Fixpoint ent_find (k : list Z) (l : list ent) : option ent :=
  match l with
  | [] => None
  | e :: l => if decide (e_key e = k) then Some e else ent_find k l
  end.

Definition ent_ptr (o : option ent) : Z := match o with Some e => e_at e | None => 0 end.

Lemma ent_find_Some k l e : ent_find k l = Some e → e ∈ l ∧ e_key e = k.
Proof.
  induction l as [|e' l IH]; cbn; [done|]. destruct (decide (e_key e' = k)) as [Hk|].
  - intros [= <-]. split; [by apply elem_of_cons; left|done].
  - intros [Hin Hk]%IH. split; [by apply elem_of_cons; right|done].
Qed.

Lemma ent_find_None k l : ent_find k l = None ↔ k ∉ e_key <$> l.
Proof.
  induction l as [|e l IH]; cbn.
  - split; [intros _; apply not_elem_of_nil|done].
  - rewrite not_elem_of_cons. destruct (decide (e_key e = k)).
    + split; [done|]. intros [? _]. congruence.
    + rewrite IH. split; [intros; split; [congruence|done]|by intros [_ ?]].
Qed.

Lemma ent_find_app k l1 l2 :
  ent_find k (l1 ++ l2) = match ent_find k l1 with Some e => Some e | None => ent_find k l2 end.
Proof. induction l1 as [|e l1 IH]; cbn; [done|]. by destruct (decide _). Qed.

Lemma ent_find_unique k l e : NoDup (e_key <$> l) → e ∈ l → e_key e = k → ent_find k l = Some e.
Proof.
  induction l as [|e' l IH]; cbn; intros Hnd Hin Hk; [by apply elem_of_nil in Hin|].
  apply NoDup_cons in Hnd as [Hnin Hnd]. apply elem_of_cons in Hin as [<-|Hin].
  - by rewrite decide_True.
  - rewrite decide_False; [by apply IH|]. intros Heq. apply Hnin.
    rewrite Heq, <-Hk. by apply list_elem_of_fmap_2.
Qed.

(** The map of a list of entries without duplicate keys. *)
Definition ents_map (l : list ent) : gmap (list Z) Z :=
  list_to_map ((λ e, (e_key e, e_val e)) <$> l).

Lemma ents_map_find l k : ents_map l !! k = e_val <$> ent_find k l.
Proof.
  unfold ents_map. induction l as [|e l IH]; cbn; [apply lookup_empty|].
  destruct (decide (e_key e = k)) as [->|Hne].
  - by rewrite lookup_insert_eq.
  - by rewrite lookup_insert_ne.
Qed.

Lemma ents_map_perm l1 l2 : NoDup (e_key <$> l1) → l1 ≡ₚ l2 → ents_map l1 = ents_map l2.
Proof.
  intros Hnd Hp. apply list_to_map_proper; [|by rewrite Hp].
  rewrite <-list_fmap_compose. exact Hnd.
Qed.
