(* ===== verification/DictProofs.v ===== *)
(** * DictProofs: the operations of redisdict.c on owned memory

    For every function of redisdict.c, its run on the memory of an abstract
    dictionary ([dict_cells]): the value it returns and the abstract
    dictionary it leaves.  Reads are stated on any heap that holds the blocks
    they need; writes on exact ownership. *)

From S2P Require Import Prelude.
From S2P Require Import Own.
From S2P Require Import Heap.
From S2P Require Import DictHash.
From S2P Require Import Dict.
From S2P Require Import DictMem.

(** ** Loads and stores that succeed *)

Section accesses.
Implicit Types (h : dheap) (g : dict_globals).

Lemma load_entry_at h g a e :
  h !! a = Some (DEntry e) → load_entry a (DState h g) = Done (e, DState h g).
Proof. intros H. unfold load_entry. cbn [heap]. by rewrite H. Qed.
Lemma store_entry_at h g a e e' :
  h !! a = Some (DEntry e) →
  store_entry a e' (DState h g) = Done (tt, DState (<[a := DEntry e']> h) g).
Proof. intros H. unfold store_entry. cbn [heap]. by rewrite H. Qed.
Lemma load_string_at h g a b :
  h !! a = Some (DString b) → load_string a (DState h g) = Done (b, DState h g).
Proof. intros H. unfold load_string. cbn [heap]. by rewrite H. Qed.
Lemma store_string_at h g a b b' :
  h !! a = Some (DString b) →
  store_string a b' (DState h g) = Done (tt, DState (<[a := DString b']> h) g).
Proof. intros H. unfold store_string. cbn [heap]. by rewrite H. Qed.
Lemma load_dict_at h g a x :
  h !! a = Some (DDict x) → load_dict a (DState h g) = Done (x, DState h g).
Proof. intros H. unfold load_dict. cbn [heap]. by rewrite H. Qed.
Lemma store_dict_at h g a x x' :
  h !! a = Some (DDict x) →
  store_dict a x' (DState h g) = Done (tt, DState (<[a := DDict x']> h) g).
Proof. intros H. unfold store_dict. cbn [heap]. by rewrite H. Qed.
Lemma modify_dict_at h g a x f :
  h !! a = Some (DDict x) →
  modify_dict a f (DState h g) = Done (tt, DState (<[a := DDict (f x)]> h) g).
Proof.
  intros H. unfold modify_dict. run_to (load_dict_at h g a x H).
  by apply store_dict_at with x.
Qed.
Lemma dict_load_slot_at h g t ps i p :
  h !! t = Some (DTable ps) → ps !! i = Some p →
  load_slot t (Z.of_nat i) (DState h g) = Done (p, DState h g).
Proof.
  intros H Hp. unfold load_slot. cbn [heap]. rewrite H, (buf_get_Some _ _ p); [done|lia|].
  by rewrite Nat2Z.id.
Qed.
Lemma dict_store_slot_at h g t ps i p p' :
  h !! t = Some (DTable ps) → ps !! i = Some p →
  store_slot t (Z.of_nat i) p' (DState h g) = Done (tt, DState (<[t := DTable (<[i := p']> ps)]> h) g).
Proof.
  intros H Hp. unfold store_slot. cbn [heap]. rewrite H, (buf_get_Some _ _ p); [|lia|].
  - cbn. by rewrite Nat2Z.id.
  - by rewrite Nat2Z.id.
Qed.
Lemma dict_free_at h g a b :
  a ≠ 0 → h !! a = Some b → free a (DState h g) = Done (tt, DState (delete a h) g).
Proof. intros Ha H. unfold free. destruct (Z.eqb_spec a 0); [lia|]. cbn [heap]. by rewrite H. Qed.
Lemma free_null h g : free 0 (DState h g) = Done (tt, DState h g).
Proof. done. Qed.
End accesses.

(** ** Reading keys *)

Definition readable (cells : list (Z * dblock)) (h : dheap) : Prop :=
  ∀ a b, (a, b) ∈ cells → h !! a = Some b.

Lemma owns_readable cells fr h : owns cells fr h → readable cells h.
Proof. intros H a b. by apply (owns_lookup _ _ _ _ _ H). Qed.

Lemma readable_app c1 c2 h : readable (c1 ++ c2) h ↔ readable c1 h ∧ readable c2 h.
Proof.
  unfold readable. split.
  - intros H. split; intros a b Hin; apply H, elem_of_app; auto.
  - intros [H1 H2] a b [Hin|Hin]%elem_of_app; auto.
Qed.

Lemma readable_cons a b c h : readable ((a, b) :: c) h ↔ h !! a = Some b ∧ readable c h.
Proof.
  unfold readable. split.
  - intros H. split; [apply H; by apply elem_of_cons; left|].
    intros a' b' Hin. apply H. by apply elem_of_cons; right.
  - intros [H1 H2] a' b' [[= -> ->]|Hin]%elem_of_cons; auto.
Qed.

(** The keys of the dictionaries verified here are heap strings that the
    dictionary copies; no value is duplicated or freed. *)
Definition copy_key (x : dict) : Prop := type x = dictTypeHeapStringCopyKey.

Section reads.
Context {A : Allocator dblock}.
Implicit Types (h : dheap) (g : dict_globals).

Lemma dictHashKey_run h g d x kp k :
  h !! d = Some (DDict x) → copy_key x → h !! kp = Some (DString (cstr k)) → dkey_ok k →
  0 ≤ dict_hash_function_seed g < 2 ^ 32 →
  dictHashKey d kp (DState h g) = Done (khash (dict_hash_function_seed g) k, DState h g).
Proof.
  intros Hd Hc Hk [Hnn Hlen] Hs. unfold dictHashKey. run_to (load_dict_at h g d x Hd).
  rewrite Hc. cbn [get_type hashFunction]. unfold _dictStringCopyHTHashFunction.
  run_to (load_string_at h g kp _ Hk). rewrite (strlen_cstr k Hnn).
  run_by (apply lift_done). run_by (reflexivity). cbn [globals].
  rewrite s32_small by lia. by rewrite (khash_run _ k Hs Hnn).
Qed.

Lemma dictCompareKeys_run h g d x kp1 kp2 k1 k2 :
  h !! d = Some (DDict x) → copy_key x →
  h !! kp1 = Some (DString (cstr k1)) → h !! kp2 = Some (DString (cstr k2)) →
  nonul k1 → nonul k2 →
  dictCompareKeys d kp1 kp2 (DState h g) = Done (of_bool (bool_decide (k1 = k2)), DState h g).
Proof.
  intros Hd Hc H1 H2 Hn1 Hn2. unfold dictCompareKeys. run_to (load_dict_at h g d x Hd).
  rewrite Hc. cbn [get_type keyCompare]. unfold _dictStringCopyHTKeyCompare.
  run_to (load_string_at h g kp1 _ H1). run_to (load_string_at h g kp2 _ H2).
  destruct (strcmp_cstr k1 k2 Hn1 Hn2) as (c & -> & Hiff). run_by (apply lift_done).
  unfold mret, cmd_ret. do 3 f_equal. destruct (Z.eqb_spec c 0), (bool_decide_reflect (k1 = k2)); tauto.
Qed.

Lemma find_in_chain_run h g d x kp k l fuel :
  h !! d = Some (DDict x) → copy_key x → h !! kp = Some (DString (cstr k)) → nonul k →
  Forall (λ e, e_at e ≠ 0 ∧ nonul (e_key e)) l → readable (chain_cells l) h →
  (length l < fuel)%nat →
  find_in_chain fuel d kp (chain l) (DState h g) = Done (ent_ptr (ent_find k l), DState h g).
Proof.
  intros Hd Hc Hkp Hk. revert l. induction fuel as [|fuel IH]; intros l Hall Hrd Hf; [lia|].
  cbn [find_in_chain]. destruct l as [|e l]; cbn [head_or]; [done|].
  apply Forall_cons in Hall as [[Ha Hke] Hall]. cbn [seg_cells] in Hrd.
  apply readable_cons in Hrd as [He Hrd]. apply readable_cons in Hrd as [Hs Hrd].
  destruct (Z.eqb_spec (e_at e) 0); [done|].
  run_to (load_entry_at h g (e_at e) _ He). cbn [key next].
  run_to (dictCompareKeys_run h g d x kp (e_kp e) k (e_key e)).
  cbn [ent_find]. destruct (decide (e_key e = k)) as [->|Hne].
  - by rewrite bool_decide_eq_true_2.
  - rewrite bool_decide_eq_false_2 by congruence. cbn [of_bool]. apply IH; [done|done|].
    cbn in Hf. lia.
Qed.
End reads.

(** ** Ownership of one bucket *)

Lemma tab_cells_nonnull t :
  t_at t ≠ 0 → tab_cells t = (t_at t, tab_block t) :: bucket_cells (t_buckets t).
Proof. intros H. unfold tab_cells. by destruct (Z.eqb_spec (t_at t) 0). Qed.

Lemma length_bucket_cells bs : length (bucket_cells bs) = (2 * length (concat bs))%nat.
Proof.
  unfold bucket_cells. induction bs as [|l bs IH]; cbn; [done|].
  rewrite !length_app, IH, length_seg_cells. lia.
Qed.

(** The table number [i] of a dictionary, and what surrounds it. *)
Definition a_tab (i : Z) (a : adict) : tab := if i =? 0 then a_t0 a else a_t1 a.

Lemma ht_block i a : i = 0 ∨ i = 1 → ht i (a_block a) = header (a_tab i a).
Proof. by intros [->| ->]. Qed.

Lemma dict_cells_tab i a d :
  i = 0 ∨ i = 1 →
  dict_cells d a ≡ₚ tab_cells (a_tab i a) ++ (d, DDict (a_block a)) :: tab_cells (a_tab (1 - i) a).
Proof. intros [->| ->]; cbn -[tab_cells]; unfold dict_cells; solve_Permutation. Qed.

Lemma ent_find_bucket seed t k l :
  buckets_ok seed t → NoDup (e_key <$> t_ents t) →
  t_buckets t !! bucket_of seed t k = Some l → ent_find k l = ent_find k (t_ents t).
Proof.
  intros Hb Hnd Hl. unfold t_ents in *. destruct (ent_find k l) as [e|] eqn:Hf.
  - apply ent_find_Some in Hf as [Hin Hk]. symmetry. apply ent_find_unique; [done| |done].
    apply elem_of_concat. exists l. split; [done|]. by eapply list_elem_of_lookup_2.
  - symmetry. apply ent_find_None. apply ent_find_None in Hf. intros Hin. apply Hf.
    apply list_elem_of_fmap in Hin as (e & Hk & Hin).
    apply elem_of_concat in Hin as (l' & Hin & Hl').
    apply list_elem_of_lookup in Hl' as [j Hj].
    pose proof (Hb j l' Hj) as Hall. rewrite Forall_forall in Hall.
    destruct (Hall e Hin) as (_ & _ & _ & Hbk). rewrite Hk, Hbk, Hj in Hl. injection Hl as ->. rewrite Hk. by apply list_elem_of_fmap_2.
Qed.

Lemma tab_ent_ok seed t e : buckets_ok seed t → e ∈ t_ents t → ∃ i, ent_ok seed t i e.
Proof.
  intros Hb Hin. apply elem_of_concat in Hin as (l & Hin & Hl).
  apply list_elem_of_lookup in Hl as [i Hi]. exists i.
  pose proof (Hb i l Hi) as Hall. rewrite Forall_forall in Hall. auto.
Qed.
