(* ===== verification/DictRehash.v ===== *)
(** * DictRehash: incremental rehashing and resizing

    Moving a chain to the second table, one bucket of a rehash, [dictRehash]
    and [dictExpand]: each leaves the entries of the dictionary as they were
    and the dictionary valid; a rehash moves at least one entry per round. *)

From S2P Require Import Prelude.
From S2P Require Import Own.
From S2P Require Import Heap.
From S2P Require Import DictHash.
From S2P Require Import Dict.
From S2P Require Import DictMem.
From S2P Require Import DictProofs.

(** ** Adding an entry at the head of its bucket *)

Definition push_bucket (e : ent) (b : nat) (bs : list (list ent)) : list (list ent) :=
  match bs !! b with Some l => <[b := e :: l]> bs | None => bs end.
Definition push_ent (seed : Z) (t : tab) (e : ent) : tab :=
  Tab (t_at t) (push_bucket e (bucket_of seed t (e_key e)) (t_buckets t)).

Lemma push_ent_size seed t e : t_size (push_ent seed t e) = t_size t.
Proof.
  unfold t_size, push_ent, push_bucket. cbn. destruct (t_buckets t !! _); [|done].
  by rewrite length_insert.
Qed.

Lemma push_ent_bucket_of seed t e k : bucket_of seed (push_ent seed t e) k = bucket_of seed t k.
Proof. unfold bucket_of. by rewrite push_ent_size. Qed.

Lemma push_ent_ents seed t e :
  size_ok t → 0 ≤ seed < 2 ^ 32 → nonul (e_key e) →
  t_ents (push_ent seed t e) ≡ₚ e :: t_ents t.
Proof.
  intros Hsz Hs Hk. destruct (bucket_lookup seed t (e_key e) Hsz Hs Hk) as [l Hl].
  unfold t_ents, push_ent, push_bucket. cbn. rewrite Hl.
  rewrite (concat_put_in _ _ l (e :: l) Hl), (concat_take_out _ _ l Hl). done.
Qed.

Lemma push_ent_header seed t e :
  size_ok t → 0 ≤ seed < 2 ^ 32 → nonul (e_key e) →
  header (push_ent seed t e) = set_used (t_used t + 1) (header t).
Proof.
  intros Hsz Hs Hk. unfold header, set_used. cbn [table ht_size sizemask used].
  rewrite push_ent_size. unfold t_used. rewrite (push_ent_ents seed t e Hsz Hs Hk). cbn. f_equal. lia.
Qed.

Lemma push_ent_ok seed t e :
  tab_ok seed t → 0 ≤ seed < 2 ^ 32 → e_at e ≠ 0 → e_kp e ≠ 0 → dkey_ok (e_key e) →
  tab_ok seed (push_ent seed t e).
Proof.
  intros (Hat & Hsz & Hb) Hs Hae Hke Hk. split; [done|]. split.
  - destruct Hsz as (p & Hp & Hpow). exists p. by rewrite push_ent_size.
  - destruct (bucket_lookup seed t (e_key e) Hsz Hs (proj1 Hk)) as [l Hl].
    assert (∀ i e', ent_ok seed t i e' → ent_ok seed (push_ent seed t e) i e') as Hmono.
    { intros i e' (? & ? & ? & ?). split; [done|]. split; [done|]. split; [done|].
      by rewrite push_ent_bucket_of. }
    assert (t_buckets (push_ent seed t e) =
            <[bucket_of seed t (e_key e) := e :: l]> (t_buckets t)) as Heq.
    { cbn. unfold push_bucket. by rewrite Hl. }
    intros i l'. rewrite Heq, list_lookup_insert_Some. intros [(<- & <- & _)|[_ Hi]].
    + apply Forall_cons. split.
      * split; [done|]. split; [done|]. split; [done|]. by rewrite push_ent_bucket_of.
      * eapply Forall_impl; [by apply (Hb _ _ Hl)|]. apply Hmono.
    + eapply Forall_impl; [by apply (Hb _ _ Hi)|]. apply Hmono.
Qed.

Lemma push_bucket_cells e b bs l :
  bs !! b = Some l →
  bucket_cells (push_bucket e b bs) ≡ₚ
  (e_at e, DEntry (DictEntry (e_kp e) (e_val e) (chain l))) ::
  (e_kp e, DString (cstr (e_key e))) :: bucket_cells bs.
Proof.
  intros Hb. unfold push_bucket. rewrite Hb, (bucket_cells_in _ _ l), (bucket_cells_out bs b l) by done.
  done.
Qed.

Lemma push_bucket_ptrs e b bs l :
  bs !! b = Some l →
  (λ l, chain l) <$> push_bucket e b bs = <[b := e_at e]> ((λ l, chain l) <$> bs).
Proof. intros Hb. unfold push_bucket. by rewrite Hb, list_fmap_insert. Qed.

Section run.
Context {A : Allocator dblock}.
Implicit Types (h : dheap) (g : dict_globals).
Context (g : dict_globals) (fr : dheap).
Notation seed := (dict_hash_function_seed g).
Context (Hseed : 0 <= seed < 2 ^ 32).

Lemma probe_run h d a i kp k :
  owns (dict_cells d a) fr h → i = 0 ∨ i = 1 → tab_ok seed (a_tab i a) →
  NoDup (e_key <$> t_ents (a_tab i a)) →
  h !! kp = Some (DString (cstr k)) → dkey_ok k →
  probe d kp (khash seed k) i (DState h g) =
  Done ((Z.of_nat (bucket_of seed (a_tab i a) k), ent_ptr (ent_find k (t_ents (a_tab i a)))),
        DState h g).
Proof.
  intros Hm Hi (Hat & Hsz & Hb) Hnd Hkp Hk. unfold probe.
  assert (h !! d = Some (DDict (a_block a))) as Hd by (by eapply owns_lookup_hd).
  pose proof (owns_perm _ _ _ _ (dict_cells_tab i a d Hi) Hm) as Ht.
  rewrite (tab_cells_nonnull _ Hat) in Ht.
  destruct (bucket_lookup seed (a_tab i a) k Hsz Hseed (proj1 Hk)) as [l Hl].
  destruct (bucket_mask seed (a_tab i a) k Hsz Hseed (proj1 Hk)) as [Hmask _].
  run_to (load_dict_at h g d _ Hd). rewrite ht_block by done. cbn zeta. rewrite Hmask.
  run_by (apply dict_load_slot_at with ((λ l, chain l) <$> t_buckets (a_tab i a));
          [by eapply owns_lookup_hd|by rewrite list_lookup_fmap, Hl]).
  run_by (reflexivity). cbn [heap].
  pose proof (bucket_cells_out _ _ _ Hl) as Hout. cbn [app] in Ht. rewrite Hout in Ht.
  assert (readable (chain_cells l) h) as Hrd.
  { apply owns_readable in Ht. cbn [app] in Ht. apply readable_cons in Ht as [_ Ht].
    rewrite <-!app_assoc in Ht. by apply readable_app in Ht as [Ht _]. }
  erewrite bind_done; [|eapply (find_in_chain_run h g d (a_block a) kp k l); try done; try apply Hk].
  - cbn beta. by rewrite (ent_find_bucket _ _ _ _ Hb Hnd Hl).
  - eapply Forall_impl; [by apply (Hb _ _ Hl)|]. intros e (? & ? & [? _] & _). done.
  - apply owns_size in Ht. cbn [app length] in Ht. rewrite !length_app, length_seg_cells in Ht. lia.
Qed.

(** What moving the chain [l] needs to own. *)
Definition moving (d : Z) (x : dict) (t1 : tab) (l : list ent) (rest : list (Z * dblock)) :
    list (Z * dblock) :=
  (d, DDict x) :: (t_at t1, tab_block t1) :: chain_cells l ++ bucket_cells (t_buckets t1) ++ rest.

(** One round: the first entry moves to the front of its bucket in the second
    table, and the counts are adjusted. *)
Definition moved_block (x : dict) : dict :=
  let x := set_ht 0 (set_used (u64 (used (ht0 x) - 1)) (ht0 x)) x in
  set_ht 1 (set_used (u64 (used (ht1 x) + 1)) (ht1 x)) x.

Lemma rehash_chain_step d rest e l fuel h x t1 :
  owns (moving d x t1 (e :: l) rest) fr h → copy_key x → ht1 x = header t1 → tab_ok seed t1 →
  e_at e ≠ 0 → e_kp e ≠ 0 → dkey_ok (e_key e) →
  ∃ h', rehash_chain (S fuel) d (e_at e) (DState h g) = rehash_chain fuel d (chain l) (DState h' g) ∧
    owns (moving d (moved_block x) (push_ent seed t1 e) l rest) fr h'.
Proof.
  intros Hm Hc Hh1 (Hat & Hsz & Hb) Ha Hkp Hk. cbn [rehash_chain].
  destruct (Z.eqb_spec (e_at e) 0); [done|].
  pose proof (owns_readable _ _ _ Hm) as Hrd. unfold moving in Hrd. cbn [seg_cells app] in Hrd.
  apply readable_cons in Hrd as [Hd Hrd]. apply readable_cons in Hrd as [Ht Hrd].
  apply readable_cons in Hrd as [He Hrd]. apply readable_cons in Hrd as [Hs Hrd].
  destruct (bucket_lookup seed t1 (e_key e) Hsz Hseed (proj1 Hk)) as [lb Hlb].
  destruct (bucket_mask seed t1 (e_key e) Hsz Hseed (proj1 Hk)) as [Hmask _].
  run_to (load_entry_at h g (e_at e) _ He). cbn [key next].
  run_to (dictHashKey_run h g d x (e_kp e) (e_key e)).
  run_to (load_dict_at h g d x Hd). rewrite Hh1. cbn zeta. rewrite Hmask. cbn [header table].
  assert (((λ l, chain l) <$> t_buckets t1) !! bucket_of seed t1 (e_key e) = Some (chain lb)) as Hslot.
  { by rewrite list_lookup_fmap, Hlb. }
  run_by (by apply dict_load_slot_at with ((λ l, chain l) <$> t_buckets t1)).
  run_by (by eapply store_entry_at).
  unfold set_next. cbn [key val].
  assert (owns ((e_at e, DEntry (DictEntry (e_kp e) (e_val e) (chain l))) ::
    (e_kp e, DString (cstr (e_key e))) :: (t_at t1, tab_block t1) :: (d, DDict x) ::
    chain_cells l ++ bucket_cells (t_buckets t1) ++ rest) fr h) as Hm1.
  { eapply owns_perm; [|exact Hm]. unfold moving. cbn [seg_cells]. solve_Permutation. }
  own_store Hm1.
  assert (owns ((t_at t1, tab_block t1) :: (d, DDict x) ::
    (e_at e, DEntry (DictEntry (e_kp e) (e_val e) (chain lb))) ::
    (e_kp e, DString (cstr (e_key e))) ::
    chain_cells l ++ bucket_cells (t_buckets t1) ++ rest) fr
    (<[e_at e:=DEntry (DictEntry (e_kp e) (e_val e) (chain lb))]> h)) as Hm2.
  { eapply owns_perm; [|exact Hm1]. solve_Permutation. }
  run_by (eapply dict_store_slot_at; [by eapply owns_lookup_hd|exact Hslot]).
  own_store Hm2.
  rewrite <-(push_bucket_ptrs e _ _ lb Hlb) in Hm2 |- *.
  eapply owns_perm in Hm2; [|apply Permutation_swap].
  run_to (modify_dict_at _ g d x (λ x, set_ht 0 (set_used (u64 (used (ht0 x) - 1)) (ht0 x)) x)
            (owns_lookup_hd _ _ _ _ _ Hm2)).
  own_store Hm2.
  run_to (modify_dict_at _ g d _ (λ x, set_ht 1 (set_used (u64 (used (ht1 x) + 1)) (ht1 x)) x)
            (owns_lookup_hd _ _ _ _ _ Hm2)).
  own_store Hm2.
  eexists. split; [reflexivity|]. eapply owns_perm; [|exact Hm2]. unfold moving.
  change (t_at (push_ent seed t1 e)) with (t_at t1). apply perm_skip, perm_skip.
  cbn [push_ent t_buckets]. rewrite (push_bucket_cells e _ _ lb Hlb). solve_Permutation.
Qed.

Lemma rehash_chain_run d rest l : ∀ fuel h x t1 r,
  owns (moving d x t1 l rest) fr h → copy_key x → ht1 x = header t1 → tab_ok seed t1 →
  used (ht0 x) = Z.of_nat (length l) + r → 0 ≤ r → used (ht0 x) < 2 ^ 63 → t_used t1 + Z.of_nat (length l) < 2 ^ 63 →
  Forall (λ e, e_at e ≠ 0 ∧ e_kp e ≠ 0 ∧ dkey_ok (e_key e)) l → (length l < fuel)%nat →
  ∃ h', rehash_chain fuel d (chain l) (DState h g) = Done (tt, DState h' g) ∧
    owns (moving d (set_ht 0 (set_used r (ht0 x)) (set_ht 1 (header (foldl (push_ent seed) t1 l)) x))
            (foldl (push_ent seed) t1 l) [] rest) fr h' ∧
    tab_ok seed (foldl (push_ent seed) t1 l) ∧
    t_ents (foldl (push_ent seed) t1 l) ≡ₚ l ++ t_ents t1 ∧
    t_size (foldl (push_ent seed) t1 l) = t_size t1.
Proof.
  induction l as [|e l IH]; intros fuel h x t1 r Hm Hc Hh1 Hok Hu Hr Hu64 Hu1 Hall Hf;
    (destruct fuel as [|fuel]; [cbn in Hf; lia|]); cbn [rehash_chain head_or foldl].
  - exists h. split; [done|]. split; [|by split].
    replace (set_ht _ _ _) with x; [done|].
    cbn in Hu. destruct x as [ty pv h0 h1 ri it], h0 as [a1 a2 a3 a4]. cbn in *.
    subst. by rewrite Z.add_0_l.
  - apply Forall_cons in Hall as [(Ha & Hkp & Hk) Hall].
    destruct Hok as (Hat & Hsz & Hb).
    assert (tab_ok seed t1) as Hok by done.
    destruct (rehash_chain_step d rest e l fuel h x t1 Hm Hc Hh1 Hok Ha Hkp Hk) as (hs & Hstep & Hm1).
    cbn [rehash_chain] in Hstep. rewrite Hstep. cbn [length] in Hu, Hu1, Hf.
    edestruct IH as (h' & Hrun & Hown & Hok' & Hents & Hsize).
    1: exact Hm1.
    1: exact Hc.
    1: { unfold moved_block; cbn [set_ht ht0 ht1 Z.eqb]. rewrite Hh1, push_ent_header by (done || apply Hk).
         cbn [header used]. unfold t_used in *. rewrite u64_small by lia. done. }
    1: by apply push_ent_ok.
    1: { cbn -[u64 Z.of_nat]. rewrite u64_small by lia. instantiate (1 := r). lia. }
    1: lia.
    1: { cbn -[u64 Z.of_nat]. rewrite u64_small by lia. lia. }
    1: { unfold t_used in *. rewrite (push_ent_ents seed t1 e Hsz Hseed (proj1 Hk)). cbn. lia. }
    1: exact Hall.
    1: instantiate (1 := fuel); lia.
    exists h'. split; [exact Hrun|]. split; [|split; [done|split]].
    + destruct x as [ty pv h0 h1 ri it], h0 as [a1 a2 a3 a4]. exact Hown.
    + rewrite Hents, (push_ent_ents seed t1 e Hsz Hseed (proj1 Hk)). solve_Permutation.
    + by rewrite Hsize, push_ent_size.
Qed.
(** ** One bucket *)

Definition with_idx (i : Z) (a : adict) : adict := ADict (a_priv a) (a_t0 a) (a_t1 a) i (a_iters a).

Lemma chain_null t i l : buckets_ok seed t → t_buckets t !! i = Some l → chain l = 0 ↔ l = [].
Proof.
  intros Hb Hl. destruct l as [|e l]; [done|]. split; [|done]. cbn. intros He.
  pose proof (Hb i _ Hl) as Hall. by apply Forall_cons in Hall as [[? _] _].
Qed.

(** Some bucket of a table that is not empty has an entry. *)
Lemma nonempty_bucket bs : concat bs ≠ [] → ∃ i (e : ent) l, bs !! i = Some (e :: l).
Proof.
  induction bs as [|[|e l] bs IH]; cbn; [done| |].
  - intros (i & e & l & Hi)%IH. by exists (S i), e, l.
  - intros _. by exists 0%nat, e, l.
Qed.

Lemma skip_empty_run d j e0 l0 : ∀ fuel h a n,
  owns (dict_cells d a) fr h → tab_ok seed (a_t0 a) → a_idx a = Z.of_nat n →
  t_buckets (a_t0 a) !! j = Some (e0 :: l0) → (n ≤ j)%nat → (j - n < fuel)%nat →
  ∃ h' i l, skip_empty fuel d (DState h g) = Done (tt, DState h' g) ∧
    owns (dict_cells d (with_idx (Z.of_nat i) a)) fr h' ∧
    (n ≤ i)%nat ∧ t_buckets (a_t0 a) !! i = Some l ∧ l ≠ [] ∧
    (∀ k l', (n ≤ k < i)%nat → t_buckets (a_t0 a) !! k = Some l' → l' = []).
Proof.
  induction fuel as [|fuel IH]; intros h a n Hm Hok Hidx Hj Hnj Hf; [lia|].
  cbn [skip_empty]. pose proof Hok as (Hat & Hsz & Hb).
  pose proof (owns_lookup_hd _ _ _ _ _ Hm) as Hd. run_to (load_dict_at h g d _ Hd).
  cbn [a_block ht0 header table rehashidx]. rewrite Hidx.
  pose proof (lookup_lt_Some _ _ _ Hj) as Hlt.
  destruct (lookup_lt_is_Some_2 (t_buckets (a_t0 a)) n) as [l Hl]; [lia|].
  pose proof Hm as Ht. unfold dict_cells in Ht. rewrite (tab_cells_nonnull _ Hat) in Ht.
  run_by (apply dict_load_slot_at with ((λ l, chain l) <$> t_buckets (a_t0 a));
          [eapply owns_lookup; [exact Ht|in_cells]|by rewrite list_lookup_fmap, Hl]).
  destruct (Z.eqb_spec (chain l) 0) as [Hnull|Hnull].
  - apply (chain_null _ _ _ Hb Hl) in Hnull as ->.
    assert (n ≠ j) by congruence. pose proof (size_ok_range _ Hsz) as Hr. unfold t_size in Hr.
    rewrite int_of_small by lia. run_by (apply lift_done).
    run_to (modify_dict_at h g d _ (set_rehashidx (Z.of_nat n + 1)) Hd).
    unfold dict_cells in Hm. own_store Hm.
    destruct (IH _ (with_idx (Z.of_nat n + 1) a) (S n) Hm Hok) as (h' & i & l & Hrun & Hown & Hi & Hbi & Hne & Hbel);
      [cbn; lia|done|lia|lia|].
    exists h', i, l. split; [exact Hrun|]. split; [exact Hown|]. split; [lia|].
    split; [done|]. split; [done|]. intros k l' Hk Hl'. destruct (decide (k = n)) as [->|].
    + congruence.
    + eapply Hbel; [|done]. lia.
  - exists h, n, l. split; [done|]. split; [|split; [lia|split; [done|split]]].
    + destruct a as [pv t0 t1 ri it]. cbn in Hidx. subst. exact Hm.
    + intros ->. done.
    + intros; lia.
Qed.

(** Taking the chain out of its bucket. *)
Definition cut_bucket (i : nat) (t : tab) : tab := Tab (t_at t) (<[i := []]> (t_buckets t)).

Lemma cut_bucket_size i t : t_size (cut_bucket i t) = t_size t.
Proof. unfold t_size. cbn. by rewrite length_insert. Qed.

Lemma cut_bucket_header i t :
  header (cut_bucket i t) = set_used (t_used (cut_bucket i t)) (header t).
Proof. unfold header. by rewrite cut_bucket_size. Qed.

Lemma cut_bucket_ok i t : tab_ok seed t → tab_ok seed (cut_bucket i t).
Proof.
  intros (Hat & Hsz & Hb). split; [done|]. split.
  - destruct Hsz as (p & Hp & Hpow). exists p. by rewrite cut_bucket_size.
  - intros j l. cbn. rewrite list_lookup_insert_Some. intros [(<- & <- & _)|[_ Hl]]; [done|].
    eapply Forall_impl; [by apply (Hb _ _ Hl)|]. intros e (? & ? & ? & ?).
    split; [done|]. split; [done|]. split; [done|]. unfold bucket_of. by rewrite cut_bucket_size.
Qed.

Lemma cut_bucket_ents i t l : t_buckets t !! i = Some l → t_ents t ≡ₚ l ++ t_ents (cut_bucket i t).
Proof. apply concat_take_out. Qed.

Lemma tab_ents_ok t : tab_ok seed t → Forall (λ e, e_at e ≠ 0 ∧ e_kp e ≠ 0 ∧ dkey_ok (e_key e)) (t_ents t).
Proof.
  intros (_ & _ & Hb). apply Forall_forall. intros e Hin.
  destruct (tab_ent_ok _ _ _ Hb Hin) as (i & ? & ? & ? & _). done.
Qed.

Lemma owned_ents d a h :
  owns (dict_cells d a) fr h → t_at (a_t0 a) ≠ 0 → t_at (a_t1 a) ≠ 0 →
  (2 * length (a_ents a) + 3 ≤ base.size h)%nat.
Proof.
  intros Hm%owns_size H0 H1. unfold dict_cells, a_ents, t_ents in *.
  rewrite (tab_cells_nonnull _ H0), (tab_cells_nonnull _ H1) in Hm.
  cbn in Hm. rewrite length_app in Hm. cbn in Hm. rewrite !length_bucket_cells in Hm.
  rewrite length_app. lia.
Qed.

(** The dictionary [a'] holds the same entries as [a]. *)
Record same_ents (a a' : adict) : Prop := {
  same_perm : a_ents a' ≡ₚ a_ents a;
  same_iters : a_iters a' = a_iters a;
  same_priv : a_priv a' = a_priv a;
}.

Lemma same_ents_refl a : same_ents a a.
Proof. by split. Qed.
Lemma same_ents_trans a1 a2 a3 : same_ents a1 a2 → same_ents a2 a3 → same_ents a1 a3.
Proof. intros [H1 ? ?] [H2 ? ?]. split; [by rewrite H2|congruence..]. Qed.
Lemma same_ents_nodup a a' : same_ents a a' → NoDup (a_keys a) → NoDup (a_keys a').
Proof. intros [H _ _] Hnd. unfold a_keys in *. by rewrite H. Qed.

(** Memory bounds what a table can hold, so the counters do not wrap. *)
Definition small (a : adict) : Prop := Z.of_nat (length (a_ents a)) < 2 ^ 62.

(** The dictionary with bucket [i] of the first table moved to [t1]. *)
Definition bucket_moved (a : adict) (i : nat) (t1 : tab) (idx : Z) : adict :=
  ADict (a_priv a) (cut_bucket i (a_t0 a)) t1 idx (a_iters a).

Lemma bucket_moved_ok a i l t1 :
  dict_ok seed a → a_idx a ≠ -1 → t_buckets (a_t0 a) !! i = Some l → l ≠ [] → a_idx a ≤ Z.of_nat i →
  (∀ k lk, (Z.to_nat (a_idx a) ≤ k < i)%nat → t_buckets (a_t0 a) !! k = Some lk → lk = []) →
  tab_ok seed t1 → t_ents t1 ≡ₚ l ++ t_ents (a_t1 a) →
  let a' := bucket_moved a i t1 (Z.of_nat i + 1) in
  dict_ok seed a' ∧ same_ents a a' ∧ (length (t_ents (a_t0 a')) < length (t_ents (a_t0 a)))%nat.
Proof.
  intros [Htab Hnd] Hne Hi Hl Hle Hempty Hok1' Hents1. destruct Htab as [| |Hok0 Hok1 Hidx Hbelow]; [done..|].
  pose proof (lookup_lt_Some _ _ _ Hi) as Hilt.
  pose proof (Permutation_length (concat_take_out _ _ _ Hi)) as Hlen. rewrite length_app in Hlen.
  assert (same_ents a (bucket_moved a i t1 (Z.of_nat i + 1))) as Hsame.
  { split; [|done|done]. unfold a_ents. cbn [bucket_moved a_t0 a_t1]. rewrite Hents1, (cut_bucket_ents i (a_t0 a) l Hi).
    solve_Permutation. }
  split; [|split; [done|]].
  - split; [|by eapply same_ents_nodup]. apply TablesTwo; cbn [bucket_moved a_t0 a_t1 a_idx].
    + by apply cut_bucket_ok.
    + done.
    + rewrite cut_bucket_size. unfold t_size. lia.
    + intros k lk. cbn [cut_bucket t_buckets]. rewrite list_lookup_insert_Some.
      intros [(<- & <- & _)|[Hne' Hlk]] Hk; [done|].
      destruct (decide (Z.of_nat k < a_idx a)); [by eapply Hbelow|].
      eapply Hempty; [|done]. lia.
  - cbn [bucket_moved a_t0]. unfold t_ents. cbn. rewrite Hlen. destruct l; [done|]. cbn. lia.
Qed.

(** The end of the round: the slot is cleared and the index advanced. *)
Lemma clear_slot_run d a i l t1 h :
  owns ((t_at (a_t0 a), tab_block (a_t0 a)) :: (d, DDict (a_block (bucket_moved a i t1 (Z.of_nat i)))) ::
    bucket_cells (t_buckets (cut_bucket i (a_t0 a))) ++ tab_cells t1) fr h →
  t_at (a_t0 a) ≠ 0 → t_buckets (a_t0 a) !! i = Some l → Z.of_nat i + 1 < 2 ^ 31 →
  ∃ h', (x ← load_dict d;
         _ ← store_slot (table (ht0 x)) (rehashidx x) 0;
         i ← lift (int_of (rehashidx x + 1));
         modify_dict d (set_rehashidx i)) (DState h g) = Done (tt, DState h' g) ∧
    owns (dict_cells d (bucket_moved a i t1 (Z.of_nat i + 1))) fr h'.
Proof.
  intros Hm Hat0 Hi Hlt.
  run_by (apply load_dict_at; eapply owns_lookup; [exact Hm|in_cells]).
  cbn [a_block bucket_moved ht0 a_t0 header table rehashidx a_idx cut_bucket t_at].
  run_by (eapply dict_store_slot_at; [by eapply owns_lookup_hd|by rewrite list_lookup_fmap, Hi]).
  own_store Hm. rewrite int_of_small by lia. run_by (apply lift_done).
  assert (owns (dict_cells d (bucket_moved a i t1 (Z.of_nat i))) fr
    (<[t_at (a_t0 a):=DTable (<[i:=0]> ((λ l, chain l) <$> t_buckets (a_t0 a)))]> h)) as Hm5.
  { eapply owns_perm; [|exact Hm]. unfold dict_cells. cbn [bucket_moved a_t0 a_t1].
    rewrite (tab_cells_nonnull (cut_bucket i (a_t0 a))) by done. unfold tab_block.
    cbn [cut_bucket t_buckets t_at]. rewrite list_fmap_insert. solve_Permutation. }
  erewrite (modify_dict_at _ g d _ (set_rehashidx (Z.of_nat i + 1)))
    by exact (owns_lookup_hd _ _ _ _ _ Hm5).
  unfold dict_cells in Hm5. own_store Hm5. eexists. split; [done|]. exact Hm5.
Qed.

(** The bucket that is moved next, by itself. *)
Lemma bucket_out d a i l h :
  owns (dict_cells d a) fr h → t_at (a_t0 a) ≠ 0 → t_at (a_t1 a) ≠ 0 → t_buckets (a_t0 a) !! i = Some l →
  owns (moving d (a_block a) (a_t1 a) l
    ((t_at (a_t0 a), tab_block (a_t0 a)) :: bucket_cells (<[i:=[]]> (t_buckets (a_t0 a))))) fr h.
Proof.
  intros Hm Hat0 Hat1 Hi. eapply owns_perm; [|exact Hm]. unfold dict_cells, moving.
  rewrite (tab_cells_nonnull _ Hat0), (tab_cells_nonnull _ Hat1), (bucket_cells_out _ _ _ Hi). solve_Permutation.
Qed.

Lemma rehash_bucket_run d a h :
  owns (dict_cells d a) fr h → dict_ok seed a → a_idx a ≠ -1 → t_ents (a_t0 a) ≠ [] → small a →
  ∃ h' a', rehash_bucket d (DState h g) = Done (tt, DState h' g) ∧
    owns (dict_cells d a') fr h' ∧ dict_ok seed a' ∧ same_ents a a' ∧ a_idx a' ≠ -1 ∧
    a_idx a < a_idx a' ∧ (length (t_ents (a_t0 a')) < length (t_ents (a_t0 a)))%nat.
Proof.
  intros Hm Hok Hne Hents Hsmall. unfold small in Hsmall. pose proof Hok as [Htab Hnd]. destruct Htab as [| |Hok0 Hok1 Hidx Hbelow]; [done..|].
  destruct (nonempty_bucket _ Hents) as (j & e0 & l0 & Hj).
  pose proof Hok0 as (Hat0 & Hsz0 & Hb0). pose proof Hok1 as (Hat1 & Hsz1 & Hb1).
  pose proof (size_ok_range _ Hsz0) as Hr0.
  unfold rehash_bucket. run_to (load_dict_at h g d _ (owns_lookup_hd _ _ _ _ _ Hm)).
  pose proof (lookup_lt_Some _ _ _ Hj) as Hjlt.
  edestruct (skip_empty_run d j e0 l0 (S (Z.to_nat (ht_size (ht0 (a_block a))))) h a (Z.to_nat (a_idx a)))
    as (h1 & i & l & Hrun1 & Hm1 & Hni & Hi & Hl & Hempty); [done..|lia|done| |cbn; unfold t_size; lia|].
  { destruct (decide (Z.of_nat j < a_idx a)) as [Hlt|]; [|lia]. by apply (Hbelow j _ Hj) in Hlt. }
  run_to Hrun1. set (a1 := with_idx (Z.of_nat i) a) in *.
  pose proof (owns_lookup_hd _ _ _ _ _ Hm1) as Hd1. run_to (load_dict_at h1 g d _ Hd1).
  cbn [a_block ht0 header table rehashidx a1 with_idx a_t0 a_idx].
  pose proof (bucket_out d a1 i l h1 Hm1 Hat0 Hat1 Hi) as Hm2. cbn [a1 with_idx a_t0 a_t1] in Hm2.
  run_by (apply dict_load_slot_at with ((λ l, chain l) <$> t_buckets (a_t0 a));
          [eapply owns_lookup; [exact Hm2|unfold moving; apply list_elem_of_further, list_elem_of_further, elem_of_app; right; apply elem_of_app; right; in_cells]|by rewrite list_lookup_fmap, Hi]).
  run_by (reflexivity). cbn [heap].
  pose proof (concat_take_out _ _ _ Hi) as Hout.
  pose proof (Permutation_length Hout) as Hlen. rewrite length_app in Hlen.
  pose proof (owned_ents _ _ _ Hm1 Hat0 Hat1) as Hsize.
  unfold a_ents in Hsize, Hsmall. cbn [a1 with_idx a_t0 a_t1] in Hsize. rewrite length_app in Hsize, Hsmall.
  unfold t_ents at 1 in Hsize. unfold t_ents at 1 in Hsmall.
  assert (Forall (λ e, e_at e ≠ 0 ∧ e_kp e ≠ 0 ∧ dkey_ok (e_key e)) l) as Hall.
  { eapply Forall_impl; [by apply (Hb0 _ _ Hi)|]. by intros e (? & ? & ? & _). }
  edestruct (rehash_chain_run d ((t_at (a_t0 a), tab_block (a_t0 a)) :: bucket_cells (<[i:=[]]> (t_buckets (a_t0 a))))
               l (S (base.size h1)) h1 (a_block a1) (a_t1 a)
               (Z.of_nat (length (concat (<[i:=[]]> (t_buckets (a_t0 a)))))))
    as (h2 & Hrun2 & Hm3 & Hok1' & Hents1 & Hsz1').
  1: exact Hm2. 1: done. 1: done. 1: done.
  1: cbn [a_block ht0 header used a1 with_idx a_t0]; unfold t_used, t_ents; lia.
  1: lia.
  1: cbn [a_block ht0 header used a1 with_idx a_t0]; unfold t_used, t_ents; lia.
  1: unfold t_used; lia.
  1: done. 1: lia.
  run_to Hrun2. set (t1' := foldl (push_ent seed) (a_t1 a) l) in *.
  unfold moving in Hm3. cbn [app seg_cells] in Hm3.
  pose proof (lookup_lt_Some _ _ _ Hi) as Hilt. unfold t_size in Hr0.
  destruct (clear_slot_run d a i l t1' h2) as (h3 & Hrun3 & Hm4); [|done|done|lia|].
  { eapply owns_perm; [|exact Hm3]. rewrite (tab_cells_nonnull t1') by apply Hok1'.
    replace (set_ht 0 _ _) with (a_block (bucket_moved a i t1' (Z.of_nat i))).
    - cbn [cut_bucket t_buckets]. solve_Permutation.
    - unfold a_block, bucket_moved. cbn [a_t0 a_t1 a_priv a_idx a_iters]. by rewrite cut_bucket_header. }
  destruct (bucket_moved_ok a i l t1' Hok Hne Hi Hl) as (Hok' & Hsame & Hfewer); [lia| |done|done|].
  { intros k lk Hk. apply Hempty. lia. }
  exists h3, (bucket_moved a i t1' (Z.of_nat i + 1)). split; [exact Hrun3|]. split; [exact Hm4|].
  split; [done|]. split; [done|]. split; [cbn; lia|]. split; [cbn; lia|done].
Qed.
(** ** The whole loop *)

Definition finished (a : adict) : adict := ADict (a_priv a) (a_t1 a) null_tab (-1) (a_iters a).

Lemma rehash_finish_run d a h :
  owns (dict_cells d a) fr h → dict_ok seed a → a_idx a ≠ -1 → t_ents (a_t0 a) = [] →
  ∃ h', rehash_finish d (DState h g) = Done (0, DState h' g) ∧
    owns (dict_cells d (finished a)) fr h' ∧ dict_ok seed (finished a) ∧ same_ents a (finished a).
Proof.
  intros Hm [Htab Hnd] Hne Hents. destruct Htab as [| |Hok0 Hok1 Hidx Hbelow]; [done..|].
  pose proof Hok0 as (Hat0 & Hsz0 & Hb0). pose proof Hok1 as (Hat1 & _).
  assert (same_ents a (finished a)) as Hsame.
  { split; [|done|done]. unfold a_ents, finished. cbn [a_t0 a_t1]. rewrite Hents, t_ents_null, app_nil_r. done. }
  unfold rehash_finish. pose proof (owns_lookup_hd _ _ _ _ _ Hm) as Hd.
  run_to (load_dict_at h g d _ Hd). cbn [a_block ht0 header table].
  assert (bucket_cells (t_buckets (a_t0 a)) = []) as Hnil.
  { apply length_zero_iff_nil. rewrite length_bucket_cells. unfold t_ents in Hents. by rewrite Hents. }
  assert (owns ((t_at (a_t0 a), tab_block (a_t0 a)) :: (d, DDict (a_block a)) :: tab_cells (a_t1 a)) fr h) as Hm1.
  { eapply owns_perm; [|exact Hm]. unfold dict_cells. rewrite (tab_cells_nonnull _ Hat0), Hnil. cbn [app].
    apply Permutation_swap. }
  run_by (eapply dict_free_at; [done|by eapply owns_lookup_hd]).
  apply owns_free in Hm1.
  run_to (modify_dict_at _ g d _ (λ x, set_ht 0 (ht1 x) x) (owns_lookup_hd _ _ _ _ _ Hm1)).
  own_store Hm1. unfold _dictReset.
  run_to (modify_dict_at _ g d _ (set_ht 1 null_ht) (owns_lookup_hd _ _ _ _ _ Hm1)).
  own_store Hm1.
  run_to (modify_dict_at _ g d _ (set_rehashidx (-1)) (owns_lookup_hd _ _ _ _ _ Hm1)).
  own_store Hm1.
  eexists. split; [reflexivity|]. split; [|split; [|done]].
  - eapply owns_perm; [|exact Hm1]. unfold dict_cells, finished. cbn [a_t0 a_t1]. by rewrite app_nil_r.
  - split; [|by eapply same_ents_nodup]. apply TablesOne; [exact Hok1|done|done].
Qed.

Lemma dictRehash_loop_run d : ∀ fuel h a n,
  owns (dict_cells d a) fr h → dict_ok seed a → a_idx a ≠ -1 → small a → 0 ≤ n < 2 ^ 31 →
  (length (t_ents (a_t0 a)) + 1 < fuel)%nat →
  ∃ r h' a', dictRehash_loop fuel d n (DState h g) = Done (r, DState h' g) ∧
    owns (dict_cells d a') fr h' ∧ dict_ok seed a' ∧ same_ents a a' ∧ tab_ok seed (a_t0 a') ∧
    (r = 0 ∧ a_idx a' = -1 ∨
     r = 1 ∧ a_idx a' ≠ -1 ∧
     Z.of_nat (length (t_ents (a_t0 a'))) + n ≤ Z.of_nat (length (t_ents (a_t0 a)))).
Proof.
  induction fuel as [|fuel IH]; intros h a n Hm Hok Hidx Hsmall Hn Hf; [lia|].
  cbn [dictRehash_loop]. destruct (Z.eqb_spec n 0) as [->|Hn0].
  - exists 1, h, a. split; [done|]. split; [done|]. split; [done|]. split; [apply same_ents_refl|].
    split; [by destruct Hok as [[| |] _]|].
    right. split; [done|]. split; [done|]. lia.
  - rewrite int_of_small by lia. run_by (apply lift_done).
    run_to (load_dict_at h g d _ (owns_lookup_hd _ _ _ _ _ Hm)).
    cbn [a_block ht0 header used]. unfold t_used.
    destruct (Z.eqb_spec (Z.of_nat (length (t_ents (a_t0 a)))) 0) as [Hz|Hz].
    + destruct (rehash_finish_run d a h Hm Hok Hidx) as (h' & Hrun & Hm' & Hok' & Hsame).
      { apply length_zero_iff_nil. lia. }
      exists 0, h', (finished a). split; [exact Hrun|]. split; [done|]. split; [done|]. split; [done|].
      split; [by destruct Hok as [[| |] _]|]. by left.
    + destruct (rehash_bucket_run d a h Hm Hok Hidx) as (h1 & a1 & Hrun1 & Hm1 & Hok1 & Hs1 & Hi1 & _ & Hlt).
      { intros Hnil. by rewrite Hnil in Hz. }
      { done. }
      run_to Hrun1.
      destruct (IH h1 a1 (n - 1) Hm1 Hok1 Hi1) as (r & h' & a' & Hrun & Hm' & Hok' & Hs' & H0' & Hr).
      { unfold small in *. by rewrite (same_perm _ _ Hs1). }
      { lia. } { lia. }
      exists r, h', a'. split; [exact Hrun|]. split; [done|]. split; [done|].
      split; [by eapply same_ents_trans|]. split; [done|].
      destruct Hr as [Hr|(? & ? & Hle)]; [by left|right]. split; [done|]. split; [done|]. lia.
Qed.

Lemma dictRehash_run d a h n :
  owns (dict_cells d a) fr h → dict_ok seed a → small a → 0 ≤ n < 2 ^ 31 →
  ∃ r h' a', dictRehash d n (DState h g) = Done (r, DState h' g) ∧
    owns (dict_cells d a') fr h' ∧ dict_ok seed a' ∧ same_ents a a' ∧
    (a_idx a = -1 → a' = a) ∧ (tab_ok seed (a_t0 a) → tab_ok seed (a_t0 a')) ∧
    (r = 0 ∧ a_idx a' = -1 ∨
     r = 1 ∧ a_idx a' ≠ -1 ∧
     Z.of_nat (length (t_ents (a_t0 a'))) + n ≤ Z.of_nat (length (t_ents (a_t0 a)))).
Proof.
  intros Hm Hok Hsmall Hn. unfold dictRehash, dictIsRehashing.
  run_to (load_dict_at h g d _ (owns_lookup_hd _ _ _ _ _ Hm)). cbn [a_block rehashidx].
  destruct (Z.eqb_spec (a_idx a) (-1)) as [Hi|Hi]; cbn [negb].
  - exists 0, h, a. split; [done|]. split; [done|]. split; [done|]. split; [apply same_ents_refl|].
    split; [done|]. split; [done|]. by left.
  - run_by (reflexivity). cbn [heap].
    pose proof Hok as [Htab _]. destruct Htab as [| |(Hat0 & _) (Hat1 & _) _ _]; [done..|].
    pose proof (owned_ents d a h Hm Hat0 Hat1) as Hsize. unfold a_ents in Hsize. rewrite length_app in Hsize.
    destruct (dictRehash_loop_run d (S (base.size h)) h a n Hm Hok Hi Hsmall Hn)
      as (r & h' & a' & Hrun & Hm' & Hok' & Hs & H0' & Hr); [lia|].
    exists r, h', a'. split; [exact Hrun|]. split; [done|]. split; [done|]. split; [done|]. by split.
Qed.

Lemma rehash_step_run d a h :
  owns (dict_cells d a) fr h → dict_ok seed a → small a →
  ∃ h' a', (if dictIsRehashing (a_block a) then _dictRehashStep d else mret tt) (DState h g) =
      Done (tt, DState h' g) ∧
    owns (dict_cells d a') fr h' ∧ dict_ok seed a' ∧ same_ents a a' ∧ (a_idx a = -1 → a' = a) ∧
    (tab_ok seed (a_t0 a) → tab_ok seed (a_t0 a')).
Proof.
  intros Hm Hok Hsmall. unfold dictIsRehashing. cbn [a_block rehashidx].
  destruct (Z.eqb_spec (a_idx a) (-1)) as [Hi|Hi]; cbn [negb].
  { exists h, a. split; [done|]. split; [done|]. split; [done|]. by split; [apply same_ents_refl|]. }
  unfold _dictRehashStep. run_to (load_dict_at h g d _ (owns_lookup_hd _ _ _ _ _ Hm)).
  cbn [a_block iterators]. destruct (Z.eqb_spec (a_iters a) 0).
  - destruct (dictRehash_run d a h 1 Hm Hok Hsmall) as (r & h' & a' & Hrun & Hm' & Hok' & Hs & _ & H0' & _); [lia|].
    exists h', a'. run_to Hrun. split; [done|]. split; [done|]. split; [done|]. by split.
  - exists h, a. split; [done|]. split; [done|]. split; [done|]. by split; [apply same_ents_refl|].
Qed.

(** ** Table sizes *)

Lemma nextPower_loop_ok size : ∀ fuel p,
  0 ≤ p → size ≤ 2 ^ 62 * 2 → p + Z.of_nat fuel = 66 → p ≤ 63 →
  ∃ q, nextPower_loop fuel (2 ^ p) size = Done (2 ^ q) ∧ p ≤ q ≤ 63 ∧ size ≤ 2 ^ q ∧
    (q = p ∨ 2 ^ (q - 1) < size).
Proof.
  induction fuel as [|fuel IH]; intros p Hp Hsz Hpf Hp63; [lia|]. cbn [nextPower_loop].
  destruct (Z.leb_spec size (2 ^ p)).
  - exists p. split; [done|]. split; [lia|]. split; [done|]. by left.
  - assert (p < 63) as Hlt.
    { destruct (Z.eq_dec p 63) as [->|]; [|lia]. change (2 ^ 63) with (2 ^ 62 * 2) in *. lia. }
    assert (u64 (2 ^ p * 2) = 2 ^ (p + 1)) as ->.
    { rewrite u64_small; [rewrite Z.pow_add_r by lia; lia|].
      pose proof (Z.pow_pos_nonneg 2 p ltac:(lia) ltac:(lia)).
      pose proof (Z.pow_le_mono_r 2 p 62 ltac:(lia) ltac:(lia)). lia. }
    destruct (IH (p + 1)) as (q & Hrun & Hq & Hle & Hmin); [lia|lia|lia|lia|].
    exists q. split; [done|]. split; [lia|]. split; [done|]. right.
    destruct Hmin as [->|]; [|done]. by replace (p + 1 - 1) with p by lia.
Qed.

(** The least power of two, at least 4, that is not below [size]. *)
Lemma dictNextPower_ok size :
  0 ≤ size < LONG_MAX →
  ∃ q, _dictNextPower size = Done (2 ^ q) ∧ 2 ≤ q ≤ 63 ∧ size ≤ 2 ^ q ∧ (q = 2 ∨ 2 ^ (q - 1) < size).
Proof.
  intros Hsz. unfold _dictNextPower. unfold LONG_MAX in *. destruct (Z.leb_spec (2 ^ 63 - 1) size); [lia|].
  apply (nextPower_loop_ok size 64 2); lia.
Qed.

(** ** Expansion *)

Definition fresh_tab (t : Z) (n : nat) : tab := Tab t (replicate n []).

Lemma fresh_tab_ents t n : t_ents (fresh_tab t n) = [].
Proof. unfold t_ents. cbn. induction n; cbn; done. Qed.

Lemma fresh_tab_cells t n : t ≠ 0 → tab_cells (fresh_tab t n) = [(t, DTable (replicate n 0))].
Proof.
  intros Ht. rewrite tab_cells_nonnull by done. unfold tab_block. cbn. rewrite fmap_replicate. cbn. f_equal.
  unfold bucket_cells. rewrite fmap_replicate. cbn. induction n; cbn; done.
Qed.

Lemma fresh_tab_ok t p : t ≠ 0 → 2 ≤ p ≤ 30 → tab_ok seed (fresh_tab t (Z.to_nat (2 ^ p))).
Proof.
  intros Ht Hp. split; [done|]. split.
  - exists p. split; [done|]. unfold t_size. cbn. rewrite length_replicate.
    pose proof (Z.pow_pos_nonneg 2 p ltac:(lia) ltac:(lia)). lia.
  - intros i l. cbn. intros [-> _]%lookup_replicate. done.
Qed.

Lemma fresh_tab_header t p :
  0 ≤ p ≤ 62 → header (fresh_tab t (Z.to_nat (2 ^ p))) = Ht t (2 ^ p) (u64 (2 ^ p - 1)) 0.
Proof.
  intros Hp. pose proof (Z.pow_pos_nonneg 2 p ltac:(lia) ltac:(lia)).
  pose proof (Z.pow_le_mono_r 2 p 62 ltac:(lia) ltac:(lia)).
  unfold header, t_used. rewrite fresh_tab_ents. unfold t_size. cbn -[Z.pow Z.of_nat].
  rewrite length_replicate, Z2Nat.id by lia. destruct (Z.eqb_spec (2 ^ p) 0); [lia|].
  by rewrite u64_small by lia.
Qed.

Context {AS : AllocSpec A} {AT : AllocTotal A}.

(** A dictionary after an expansion that took place. *)
Definition expanded (a : adict) (n : tab) : adict :=
  if t_at (a_t0 a) =? 0 then ADict (a_priv a) n (a_t1 a) (a_idx a) (a_iters a)
  else ADict (a_priv a) (a_t0 a) n 0 (a_iters a).

Lemma expanded_ok a t p :
  dict_ok seed a → a_idx a = -1 → t ≠ 0 → 2 ≤ p ≤ 30 →
  dict_ok seed (expanded a (fresh_tab t (Z.to_nat (2 ^ p)))) ∧
  same_ents a (expanded a (fresh_tab t (Z.to_nat (2 ^ p)))).
Proof.
  intros [Htab Hnd] Hidx Ht Hp. pose proof (fresh_tab_ok t p Ht Hp) as Hn.
  assert (same_ents a (expanded a (fresh_tab t (Z.to_nat (2 ^ p))))) as Hs.
  { destruct a as [pv t0 t1 ri it]. split; unfold expanded; cbn; destruct (Z.eqb_spec (t_at t0) 0); try done;
      unfold a_ents; cbn [a_t0 a_t1]; rewrite fresh_tab_ents.
    - destruct Htab as [H0 _ _|(H0 & _) _ _|(H0 & _) _ _ _]; cbn in H0; [by rewrite H0|done..].
    - destruct Htab as [_ H1 _|_ H1 _|_ _ Hr _]; cbn in *; [by rewrite H1..|lia]. }
  split; [|done]. split; [|by eapply same_ents_nodup].
  unfold expanded. destruct Htab as [H0 H1 _|H0 H1 _|H0 H1 Hr _]; [| |lia].
  - rewrite H0. cbn [null_tab t_at Z.eqb]. by apply TablesOne.
  - destruct (Z.eqb_spec (t_at (a_t0 a)) 0); [by destruct H0|].
    apply TablesTwo; cbn [a_t0 a_t1 a_idx]; try done; [unfold t_size|]; lia.
Qed.

Lemma dictExpand_run d a h size :
  owns (dict_cells d a) fr h → dict_ok seed a → 0 ≤ size ≤ 2 ^ 30 →
  a_idx a = -1 → t_used (a_t0 a) ≤ size →
  ∃ t p h', dictExpand d size (DState h g) = Done (DICT_OK, DState h' g) ∧
    t ≠ 0 ∧ 2 ≤ p ≤ 30 ∧ size ≤ 2 ^ p ∧ (p = 2 ∨ 2 ^ (p - 1) < size) ∧
    owns (dict_cells d (expanded a (fresh_tab t (Z.to_nat (2 ^ p))))) fr h'.
Proof.
  intros Hm [Htab Hnd] Hsz Hidx Hused.
  destruct (dictNextPower_ok size) as (p & Hrun & Hp & Hle & Hmin); [unfold LONG_MAX; lia|].
  assert (p ≤ 30) as Hp30.
  { destruct Hmin as [->|Hlt]; [lia|]. apply Z.nlt_ge. intros Hgt.
    pose proof (Z.pow_le_mono_r 2 30 (p - 1) ltac:(lia) ltac:(lia)). lia. }
  pose proof (Z.pow_pos_nonneg 2 p ltac:(lia) ltac:(lia)).
  pose proof (Z.pow_le_mono_r 2 p 30 ltac:(lia) ltac:(lia)).
  unfold dictExpand. rewrite Hrun. run_by (apply lift_done).
  pose proof (owns_lookup_hd _ _ _ _ _ Hm) as Hd.
  run_to (load_dict_at h g d _ Hd). unfold dictIsRehashing. cbn [a_block rehashidx ht0 header used].
  rewrite Hidx. change (negb (-1 =? -1)) with false. cbn [orb].
  destruct (Z.ltb_spec size (t_used (a_t0 a))); [lia|].
  rewrite (u64_small (2 ^ p * 8)) by lia. destruct (alloc_total h (2 ^ p * 8)) as [t Ht].
  pose proof (alloc_fresh _ _ _ Ht) as Hfresh. pose proof (alloc_pos _ _ _ Ht) as Hpos.
  assert (calloc_table (2 ^ p * 8) (DState h g) =
          Done (t, DState (<[t:=DTable (replicate (Z.to_nat (2 ^ p)) 0)]> h) g)) as Hcall.
  { unfold calloc_table, malloc_block. cbn [heap]. rewrite Ht. unfold set_heap. cbn [globals].
    by rewrite Z.div_mul by lia. }
  run_to Hcall. pose proof (owns_alloc _ _ _ t (DTable (replicate (Z.to_nat (2 ^ p)) 0)) Hfresh Hm) as Hm1.
  assert (owns ((d, DDict (a_block a)) :: tab_cells (a_t0 a) ++ tab_cells (a_t1 a) ++
     [(t, DTable (replicate (Z.to_nat (2 ^ p)) 0))]) fr (<[t:=DTable (replicate (Z.to_nat (2 ^ p)) 0)]> h)) as Hm2.
  { eapply owns_perm; [|exact Hm1]. unfold dict_cells. solve_Permutation. }
  rewrite <-(fresh_tab_cells t (Z.to_nat (2 ^ p))) in Hm2 by lia.
  run_to (load_dict_at _ g d _ (owns_lookup_hd _ _ _ _ _ Hm2)).
  cbn [a_block ht0 header table].
  rewrite <-(fresh_tab_header t p) by lia. set (n := fresh_tab t (Z.to_nat (2 ^ p))) in *.
  exists t, p. destruct (Z.eqb_spec (t_at (a_t0 a)) 0) as [Hnull|Hnull].
  - run_to (modify_dict_at _ g d _ (set_ht 0 (header n)) (owns_lookup_hd _ _ _ _ _ Hm2)).
    own_store Hm2. eexists. split; [reflexivity|]. split; [lia|]. split; [lia|]. split; [done|]. split; [done|].
    eapply owns_perm; [|exact Hm2]. unfold expanded. rewrite Hnull. cbn [Z.eqb].
    unfold dict_cells. cbn [a_t0 a_t1].
    destruct Htab as [E0 E1 _|(E0 & _) _ _|(E0 & _) _ _ _]; [|done..]. rewrite E0, E1. cbn [tab_cells null_tab t_at Z.eqb app].
    rewrite app_nil_r. by rewrite <-E1.
  - run_to (modify_dict_at _ g d _ (set_ht 1 (header n)) (owns_lookup_hd _ _ _ _ _ Hm2)).
    own_store Hm2.
    run_to (modify_dict_at _ g d _ (set_rehashidx 0) (owns_lookup_hd _ _ _ _ _ Hm2)).
    own_store Hm2. eexists. split; [reflexivity|]. split; [lia|]. split; [lia|]. split; [done|]. split; [done|].
    eapply owns_perm; [|exact Hm2]. unfold expanded. destruct (Z.eqb_spec (t_at (a_t0 a)) 0); [done|].
    unfold dict_cells. cbn [a_t0 a_t1].
    destruct Htab as [E0 _ _|_ E1 _|_ _ Hr _]; [by rewrite E0 in Hnull| |lia].
    rewrite E1. cbn [tab_cells null_tab t_at Z.eqb app]. done.
Qed.
End run.
