(* ===== verification/DictOps.v ===== *)
(** * DictOps: lookup, insertion and deletion

    The runs of [dictFind], [_dictKeyIndex], [dictAddRaw], [dictSetVal],
    [dictGenericDelete] and [_dictClear] on the memory of an abstract
    dictionary.  A write changes one bucket ([set_bucket]); everything else
    is the [hole] around it. *)

From S2P Require Import Prelude.
From S2P Require Import Own.
From S2P Require Import Heap.
From S2P Require Import DictHash.
From S2P Require Import Dict.
From S2P Require Import DictMem.
From S2P Require Import DictProofs.
From S2P Require Import DictRehash.

(** ** Changing one bucket *)

Definition set_bucket (b : nat) (l : list ent) (t : tab) : tab := Tab (t_at t) (<[b := l]> (t_buckets t)).

Definition with_tab (i : Z) (t : tab) (a : adict) : adict :=
  if i =? 0 then ADict (a_priv a) t (a_t1 a) (a_idx a) (a_iters a)
  else ADict (a_priv a) (a_t0 a) t (a_idx a) (a_iters a).

Definition hole (i : Z) (b : nat) (a : adict) : list (Z * dblock) :=
  bucket_cells (<[b := []]> (t_buckets (a_tab i a))) ++ tab_cells (a_tab (1 - i) a).

Definition others (i : Z) (b : nat) (a : adict) : list ent :=
  concat (<[b := []]> (t_buckets (a_tab i a))) ++ t_ents (a_tab (1 - i) a).

Section buckets.
Context (seed : Z).
Implicit Types (a : adict) (t : tab) (l : list ent).

Lemma set_bucket_id b l t : t_buckets t !! b = Some l → set_bucket b l t = t.
Proof. intros Hl. destruct t as [at' bs]. unfold set_bucket. cbn in *. by rewrite list_insert_id. Qed.

Lemma with_tab_id i a : with_tab i (a_tab i a) a = a.
Proof. unfold with_tab, a_tab. destruct a; cbn. by destruct (i =? 0). Qed.

Lemma a_tab_with i t a : i = 0 ∨ i = 1 → a_tab i (with_tab i t a) = t.
Proof. by intros [->| ->]. Qed.
Lemma a_tab_with_other i t a : i = 0 ∨ i = 1 → a_tab (1 - i) (with_tab i t a) = a_tab (1 - i) a.
Proof. by intros [->| ->]. Qed.

Lemma set_bucket_size b l t : t_size (set_bucket b l t) = t_size t.
Proof. unfold t_size. cbn. by rewrite length_insert. Qed.

Lemma set_bucket_header b l t : header (set_bucket b l t) = set_used (t_used (set_bucket b l t)) (header t).
Proof. unfold header. by rewrite set_bucket_size. Qed.

Lemma set_bucket_used b l l' t :
  t_buckets t !! b = Some l →
  t_used (set_bucket b l' t) = t_used t - Z.of_nat (length l) + Z.of_nat (length l').
Proof.
  intros Hl. unfold t_used, t_ents. cbn.
  rewrite (concat_put_in _ b l l' Hl), (concat_take_out _ b l Hl), !length_app. lia.
Qed.

Lemma set_bucket_ok b l t :
  tab_ok seed t → Forall (ent_ok seed t b) l → tab_ok seed (set_bucket b l t).
Proof.
  intros (Hat & Hsz & Hb) Hall. split; [done|].
  assert (∀ i e, ent_ok seed t i e → ent_ok seed (set_bucket b l t) i e) as Hmono.
  { intros i e (? & ? & ? & ?). split; [done|]. split; [done|]. split; [done|].
    unfold bucket_of. by rewrite set_bucket_size. }
  split.
  - destruct Hsz as (p & Hp & Hpow). exists p. by rewrite set_bucket_size.
  - intros j l'. cbn. rewrite list_lookup_insert_Some. intros [(<- & <- & _)|[_ Hl]].
    + eapply Forall_impl; [exact Hall|]. apply Hmono.
    + eapply Forall_impl; [by apply (Hb _ _ Hl)|]. apply Hmono.
Qed.

Lemma a_ents_tab i a : i = 0 ∨ i = 1 → a_ents a ≡ₚ t_ents (a_tab i a) ++ t_ents (a_tab (1 - i) a).
Proof. intros [->| ->]; unfold a_ents; cbn; [done|apply Permutation_app_comm]. Qed.

Lemma a_ents_set i b l l' a :
  i = 0 ∨ i = 1 → t_buckets (a_tab i a) !! b = Some l →
  a_ents (with_tab i (set_bucket b l' (a_tab i a)) a) ≡ₚ l' ++ others i b a.
Proof.
  intros Hi Hl. rewrite (a_ents_tab i _ Hi), a_tab_with, a_tab_with_other by done.
  unfold t_ents at 1. cbn [set_bucket t_buckets]. rewrite (concat_put_in _ b l l' Hl).
  unfold others. by rewrite app_assoc.
Qed.

Lemma a_ents_split i b l a :
  i = 0 ∨ i = 1 → t_buckets (a_tab i a) !! b = Some l → a_ents a ≡ₚ l ++ others i b a.
Proof.
  intros Hi Hl. rewrite <-(a_ents_set i b l l a Hi Hl), (set_bucket_id b l) by done.
  by rewrite with_tab_id.
Qed.

(** Replacing the contents of a bucket keeps the dictionary valid, if nothing
    is put into a bucket that rehashing has already emptied. *)
Lemma set_bucket_dict_ok i b l l' a :
  i = 0 ∨ i = 1 → dict_ok seed a → tab_ok seed (a_tab i a) →
  t_buckets (a_tab i a) !! b = Some l → Forall (ent_ok seed (a_tab i a) b) l' →
  (i = 0 → a_idx a ≠ -1 → l = [] → l' = []) →
  NoDup (e_key <$> l' ++ others i b a) →
  dict_ok seed (with_tab i (set_bucket b l' (a_tab i a)) a).
Proof.
  intros Hi [Htab Hnd] Hok Hl Hall Hempty Hnd'. split.
  - pose proof (set_bucket_ok b l' (a_tab i a) Hok Hall) as Hok'.
    destruct Htab as [H0 H1 Hr|H0 H1 Hr|H0 H1 Hr Hb].
    + exfalso. destruct Hok as [Hat _], Hi as [->| ->]; cbn in Hat; [by rewrite H0 in Hat|by rewrite H1 in Hat].
    + destruct Hi as [->| ->]; cbn in *; [by apply TablesOne|].
      exfalso. destruct Hok as [Hat _]. by rewrite H1 in Hat.
    + destruct Hi as [->| ->]; cbn in *.
      * apply TablesTwo; cbn [a_t0 a_t1 a_idx]; [done|done|by rewrite set_bucket_size|].
        intros j lj. cbn [set_bucket t_buckets]. rewrite list_lookup_insert_Some.
        intros [(<- & <- & _)|[_ Hlj]] Hj; [|by eapply Hb].
        apply Hempty; [done|lia|by eapply Hb].
      * by apply TablesTwo.
  - unfold a_keys. by rewrite (a_ents_set i b l l' a Hi Hl).
Qed.

Lemma dict_cells_set d i b l l' a :
  i = 0 ∨ i = 1 → t_at (a_tab i a) ≠ 0 → t_buckets (a_tab i a) !! b = Some l →
  dict_cells d (with_tab i (set_bucket b l' (a_tab i a)) a) ≡ₚ
  (d, DDict (set_ht i (set_used (t_used (a_tab i a) - Z.of_nat (length l) + Z.of_nat (length l'))
                         (header (a_tab i a))) (a_block a))) ::
  (t_at (a_tab i a), DTable (<[b := chain l']> ((λ l, chain l) <$> t_buckets (a_tab i a)))) ::
  chain_cells l' ++ hole i b a.
Proof.
  intros Hi Hat Hl. rewrite (dict_cells_tab i _ d Hi), a_tab_with, a_tab_with_other by done.
  rewrite tab_cells_nonnull by done. unfold tab_block. cbn [set_bucket t_buckets t_at].
  rewrite (bucket_cells_in _ b l l' Hl), list_fmap_insert. unfold hole.
  replace (a_block (with_tab i (set_bucket b l' (a_tab i a)) a)) with
    (set_ht i (set_used (t_used (a_tab i a) - Z.of_nat (length l) + Z.of_nat (length l'))
                         (header (a_tab i a))) (a_block a)); [solve_Permutation|].
  rewrite <-(set_bucket_used b l l' _ Hl), <-set_bucket_header. by destruct Hi as [->| ->].
Qed.

Lemma dict_cells_bucket d i b l a :
  i = 0 ∨ i = 1 → t_at (a_tab i a) ≠ 0 → t_buckets (a_tab i a) !! b = Some l →
  dict_cells d a ≡ₚ
  (d, DDict (a_block a)) :: (t_at (a_tab i a), tab_block (a_tab i a)) :: chain_cells l ++ hole i b a.
Proof.
  intros Hi Hat Hl. rewrite (dict_cells_tab i _ d Hi). rewrite tab_cells_nonnull by done.
  rewrite (bucket_cells_out _ b l Hl). unfold hole. solve_Permutation.
Qed.

(** Where an entry of a valid dictionary is. *)
Lemma locate a e :
  dict_ok seed a → e ∈ a_ents a →
  ∃ i b l, (i = 0 ∨ i = 1) ∧ tab_ok seed (a_tab i a) ∧ t_buckets (a_tab i a) !! b = Some l ∧ e ∈ l.
Proof.
  intros [Htab _] Hin. apply elem_of_app in Hin.
  assert (∀ i, tab_ok seed (a_tab i a) ∨ a_tab i a = null_tab → e ∈ t_ents (a_tab i a) →
    ∃ b l, tab_ok seed (a_tab i a) ∧ t_buckets (a_tab i a) !! b = Some l ∧ e ∈ l) as Hloc.
  { intros i [Hok|Hn] He; [|rewrite Hn in He; by apply elem_of_nil in He].
    apply elem_of_concat in He as (l & He & Hl). apply list_elem_of_lookup in Hl as [b Hb]. eauto. }
  destruct Hin as [Hin|Hin].
  - destruct (Hloc 0) as (b & l & ?); [|done|exists 0, b, l; tauto].
    destruct Htab as [H0 _ _|H0 _ _|H0 _ _ _]; cbn; rewrite ?H0; tauto.
  - destruct (Hloc 1) as (b & l & ?); [|done|exists 1, b, l; tauto].
    destruct Htab as [_ H1 _|_ H1 _|_ H1 _ _]; cbn; rewrite ?H1; tauto.
Qed.
End buckets.

Section run.
Context {A : Allocator dblock} {AS : AllocSpec A} {AT : AllocTotal A}.
Context (g : dict_globals) (fr : dheap).
Notation seed := (dict_hash_function_seed g).
Context (Hseed : 0 <= seed < 2 ^ 32).
Implicit Types (h : dheap) (a : adict) (k : list Z).

Lemma nodup_tab i a : i = 0 ∨ i = 1 → dict_ok seed a → NoDup (e_key <$> t_ents (a_tab i a)).
Proof.
  intros Hi [_ Hnd]. unfold a_keys in Hnd. rewrite (a_ents_tab i a Hi), fmap_app in Hnd.
  by apply NoDup_app in Hnd as [? _].
Qed.

Lemma find_none_null k t : t = null_tab → ent_find k (t_ents t) = None.
Proof. by intros ->. Qed.

Lemma ent_ptr_nonnull a e : dict_ok seed a → e ∈ a_ents a → e_at e ≠ 0.
Proof.
  intros Hok (i & b & l & Hi & (_ & _ & Hb) & Hl & He)%(locate seed); [|done].
  pose proof (Hb _ _ Hl) as Hall. rewrite Forall_forall in Hall. by destruct (Hall e He).
Qed.

Lemma ent_ptr_zero a o :
  dict_ok seed a → (∀ e, o = Some e → e ∈ a_ents a) → (ent_ptr o =? 0) = bool_decide (o = None).
Proof.
  intros Hok Ho. destruct o as [e|]; [|done]. cbn [ent_ptr]. rewrite bool_decide_eq_false_2 by done.
  apply Z.eqb_neq. eapply ent_ptr_nonnull; [done|]. by apply Ho.
Qed.

Lemma find_in_tab i k a e :
  i = 0 ∨ i = 1 → ent_find k (t_ents (a_tab i a)) = Some e → e ∈ a_ents a.
Proof.
  intros Hi [Hin _]%ent_find_Some. rewrite (a_ents_tab i a Hi). apply elem_of_app. by left.
Qed.

(** Both tables, in the order of the code. *)
Lemma find_tables k a :
  ent_find k (a_ents a) =
  match ent_find k (t_ents (a_t0 a)) with Some e => Some e | None => ent_find k (t_ents (a_t1 a)) end.
Proof. apply ent_find_app. Qed.

Lemma tables_live a : dict_ok seed a → t_size (a_t0 a) ≠ 0 → tab_ok seed (a_t0 a).
Proof. intros [[H0 _ _|H0 _ _|H0 _ _ _] _] Hsz; [by rewrite H0 in Hsz|done..]. Qed.

Lemma tables_second a : dict_ok seed a → a_idx a ≠ -1 → tab_ok seed (a_t1 a).
Proof. by intros [[_ _ Hr|_ _ Hr|_ H1 _ _] _] Hidx. Qed.

Lemma tables_single a : dict_ok seed a → a_idx a = -1 → a_t1 a = null_tab.
Proof. intros [[_ H1 _|_ H1 _|_ _ Hr _] _] Hidx; [done|done|lia]. Qed.

Lemma same_find a a' k :
  same_ents a a' → dict_ok seed a → e_val <$> ent_find k (a_ents a') = e_val <$> ent_find k (a_ents a).
Proof.
  intros Hs [_ Hnd]. rewrite <-!ents_map_find. f_equal. symmetry. apply ents_map_perm; [exact Hnd|].
  by rewrite (same_perm _ _ Hs).
Qed.

Lemma same_size a a' : same_ents a a' → length (a_ents a') = length (a_ents a).
Proof. intros Hs. by rewrite (same_perm _ _ Hs). Qed.

(** ** dictFind *)

(** The table insertions go to. *)
Definition active (a : adict) : Z := if a_idx a =? -1 then 0 else 1.

Lemma active_01 a : active a = 0 ∨ active a = 1.
Proof. unfold active. destruct (_ =? _); auto. Qed.

(** The two probes, once the rehashing step is done. *)
Lemma probes_run {B} d a h kp k (found : Z → cmd dstate B) (missing : Z → cmd dstate B) :
  owns (dict_cells d a) fr h → dict_ok seed a → tab_ok seed (a_t0 a) →
  h !! kp = Some (DString (cstr k)) → dkey_ok k →
  ('(idx, he) ← probe d kp (khash seed k) 0;
   if negb (he =? 0) then found he
   else
     x ← load_dict d;
     if negb (dictIsRehashing x) then missing idx
     else '(idx, he) ← probe d kp (khash seed k) 1; (if negb (he =? 0) then found he else missing idx))
    (DState h g) =
  match ent_find k (a_ents a) with
  | Some e => found (e_at e) (DState h g)
  | None => missing (Z.of_nat (bucket_of seed (a_tab (active a) a) k)) (DState h g)
  end.
Proof.
  intros Hm Hok Hok0 Hkp Hk.
  run_to (probe_run g fr Hseed h d a 0 kp k Hm (or_introl eq_refl) Hok0 (nodup_tab 0 a (or_introl eq_refl) Hok) Hkp Hk).
  cbn [a_tab Z.eqb]. rewrite (ent_ptr_zero a) by first [done|intros e; apply (find_in_tab 0); by left].
  rewrite find_tables. destruct (ent_find k (t_ents (a_t0 a))) as [e|] eqn:Hf0; cbn [ent_ptr].
  { by rewrite bool_decide_eq_false_2. }
  rewrite bool_decide_eq_true_2 by done. cbn [negb].
  run_to (load_dict_at h g d _ (owns_lookup_hd _ _ _ _ _ Hm)).
  unfold dictIsRehashing, active. cbn [a_block rehashidx].
  destruct (Z.eqb_spec (a_idx a) (-1)) as [Hi|Hi]; cbn [negb].
  { by rewrite (find_none_null k _ (tables_single a Hok Hi)). }
  run_to (probe_run g fr Hseed h d a 1 kp k Hm (or_intror eq_refl) (tables_second a Hok Hi) (nodup_tab 1 a (or_intror eq_refl) Hok) Hkp Hk).
  cbn [a_tab Z.eqb]. rewrite (ent_ptr_zero a) by first [done|intros e; apply (find_in_tab 1); by right].
  by destruct (ent_find k (t_ents (a_t1 a))).
Qed.

Lemma dictFind_run d a h kp k :
  owns (dict_cells d a) fr h → dict_ok seed a → small a →
  fr !! kp = Some (DString (cstr k)) → dkey_ok k →
  ∃ h' a', dictFind d kp (DState h g) = Done (ent_ptr (ent_find k (a_ents a')), DState h' g) ∧
    owns (dict_cells d a') fr h' ∧ dict_ok seed a' ∧ same_ents a a'.
Proof.
  intros Hm Hok Hsmall Hkp Hk. unfold dictFind.
  pose proof (owns_lookup_hd _ _ _ _ _ Hm) as Hd. run_to (load_dict_at h g d _ Hd).
  cbn [a_block ht0 header ht_size].
  destruct (Z.eqb_spec (t_size (a_t0 a)) 0) as [Hsz|Hsz].
  - exists h, a. split; [|split; [done|split; [done|apply same_ents_refl]]].
    destruct Hok as [[H0 H1 _|(_ & Hs & _) _ _|(_ & Hs & _) _ _ _] _];
      [|apply size_ok_range in Hs; lia..].
    unfold a_ents. by rewrite H0, H1.
  - destruct (rehash_step_run g fr Hseed d a h Hm Hok Hsmall) as (h1 & a1 & Hrun1 & Hm1 & Hok1 & Hs1 & _ & H0).
    specialize (H0 (tables_live a Hok Hsz)). run_to Hrun1.
    pose proof (owns_frame _ _ _ _ _ Hm1 Hkp) as Hkp1.
    run_to (dictHashKey_run h1 g d (a_block a1) kp k (owns_lookup_hd _ _ _ _ _ Hm1) eq_refl Hkp1 Hk Hseed).
    exists h1, a1. split; [|done].
    etrans; [by apply (probes_run d a1 h1 kp k mret (λ _, mret 0) Hm1 Hok1 H0 Hkp1 Hk)|].
    by destruct (ent_find k (a_ents a1)).
Qed.

Lemma load_found d a h e :
  owns (dict_cells d a) fr h → dict_ok seed a → e ∈ a_ents a →
  ∃ nxt, load_entry (e_at e) (DState h g) = Done (DictEntry (e_kp e) (e_val e) nxt, DState h g).
Proof.
  intros Hm Hok Hin. destruct (locate seed a e Hok Hin) as (i & b & l & Hi & (Hat & _) & Hl & He).
  apply list_elem_of_split in He as (l1 & l2 & ->).
  rewrite (dict_cells_bucket d i b _ a Hi Hat Hl), seg_cells_app in Hm.
  cbn [head_or seg_cells] in Hm. exists (chain l2).
  apply load_entry_at. eapply owns_lookup; [exact Hm|].
  do 2 apply list_elem_of_further. apply elem_of_app; left. apply elem_of_app; right. in_cells.
Qed.

Lemma dictFetchValue_run d a h kp k :
  owns (dict_cells d a) fr h → dict_ok seed a → small a →
  fr !! kp = Some (DString (cstr k)) → dkey_ok k →
  ∃ h' a', dictFetchValue d kp (DState h g) = Done (default 0 (a_map a !! k), DState h' g) ∧
    owns (dict_cells d a') fr h' ∧ dict_ok seed a' ∧ same_ents a a'.
Proof.
  intros Hm Hok Hsmall Hkp Hk.
  destruct (dictFind_run d a h kp k Hm Hok Hsmall Hkp Hk) as (h' & a' & Hrun & Hm' & Hok' & Hs).
  exists h', a'. split; [|done]. unfold dictFetchValue. run_to Hrun.
  rewrite (ent_ptr_zero a') by first [done|intros e He; by apply ent_find_Some in He as [? _]].
  unfold a_map. fold (ents_map (a_ents a)). rewrite ents_map_find, <-(same_find a a' k Hs Hok).
  destruct (ent_find k (a_ents a')) as [e|] eqn:Hf; cbn [ent_ptr fmap option_fmap option_map default].
  - rewrite bool_decide_eq_false_2 by done. cbn [negb].
    apply ent_find_Some in Hf as [Hin _].
    destruct (load_found d a' h' e Hm' Hok' Hin) as (nxt & Hload). run_to Hload.
    done.
  - by rewrite bool_decide_eq_true_2.
Qed.

(** ** Insertion *)

(** Room for one more entry: the tables stay below [2^30] buckets. *)
Definition room (a : adict) : Prop := Z.of_nat (length (a_ents a)) < 2 ^ 28.

Lemma room_small a : room a → small a.
Proof. unfold room, small. lia. Qed.

Lemma dictExpandIfNeeded_run d a h :
  owns (dict_cells d a) fr h → dict_ok seed a → room a →
  ∃ h' a', _dictExpandIfNeeded d (DState h g) = Done (DICT_OK, DState h' g) ∧
    owns (dict_cells d a') fr h' ∧ dict_ok seed a' ∧ same_ents a a' ∧ tab_ok seed (a_t0 a').
Proof.
  intros Hm Hok Hroom. unfold _dictExpandIfNeeded.
  run_to (load_dict_at h g d _ (owns_lookup_hd _ _ _ _ _ Hm)).
  unfold dictIsRehashing. cbn [a_block rehashidx ht0 header ht_size used].
  destruct (Z.eqb_spec (a_idx a) (-1)) as [Hidx|Hidx]; cbn [negb].
  2: { exists h, a. split; [done|]. split; [done|]. split; [done|]. split; [apply same_ents_refl|].
       by destruct Hok as [[| |] _]. }
  assert (∀ size, 0 ≤ size ≤ 2 ^ 30 → t_used (a_t0 a) ≤ size →
    ∃ h' a', dictExpand d size (DState h g) = Done (DICT_OK, DState h' g) ∧
      owns (dict_cells d a') fr h' ∧ dict_ok seed a' ∧ same_ents a a' ∧ tab_ok seed (a_t0 a')) as Hexp.
  { intros size Hsz Hle.
    destruct (dictExpand_run g fr d a h size Hm Hok Hsz Hidx Hle)
      as (t & p & h' & Hrun & Ht & Hp & _ & _ & Hm').
    destruct (expanded_ok g a t p Hok Hidx Ht Hp) as [Hok' Hs].
    exists h', (expanded a (fresh_tab t (Z.to_nat (2 ^ p)))). split; [done|]. split; [done|].
    split; [done|]. split; [done|]. unfold expanded in *.
    destruct (Z.eqb_spec (t_at (a_t0 a)) 0) as [Hn|Hn]; cbn [a_t0].
    - by apply fresh_tab_ok.
    - destruct Hok as [[E0 _ _|E0 _ _|E0 _ _ _] _]; [by rewrite E0 in Hn|done..]. }
  assert (t_used (a_t0 a) < 2 ^ 28) as Hused.
  { unfold room, a_ents in Hroom. rewrite length_app in Hroom. unfold t_used. lia. }
  destruct (Z.eqb_spec (t_size (a_t0 a)) 0) as [Hsz|Hsz].
  - apply Hexp; [unfold DICT_HT_INITIAL_SIZE; lia|].
    destruct Hok as [[E0 _ _|(_ & E0 & _) _ _|(_ & E0 & _) _ _ _] _]; [by rewrite E0|apply size_ok_range in E0; lia..].
  - run_by (reflexivity). cbn [globals].
    match goal with |- context [if ?c then _ else _] => destruct c end.
    + assert (0 ≤ t_used (a_t0 a)) by (unfold t_used; lia).
      rewrite u64_small by lia. apply Hexp; lia.
    + exists h, a. split; [done|]. split; [done|]. split; [done|]. split; [apply same_ents_refl|].
      by apply tables_live.
Qed.

Lemma dictKeyIndex_run d a h kp k :
  owns (dict_cells d a) fr h → dict_ok seed a → room a →
  fr !! kp = Some (DString (cstr k)) → dkey_ok k →
  ∃ h' a', _dictKeyIndex d kp (DState h g) =
      Done (if decide (k ∈ a_keys a) then -1 else Z.of_nat (bucket_of seed (a_tab (active a') a') k),
            DState h' g) ∧
    owns (dict_cells d a') fr h' ∧ dict_ok seed a' ∧ same_ents a a' ∧ tab_ok seed (a_t0 a').
Proof.
  intros Hm Hok Hroom Hkp Hk. unfold _dictKeyIndex.
  destruct (dictExpandIfNeeded_run d a h Hm Hok Hroom) as (h' & a' & Hrun & Hm' & Hok' & Hs & H0).
  run_to Hrun. cbn [DICT_OK DICT_ERR Z.eqb].
  pose proof (owns_frame _ _ _ _ _ Hm' Hkp) as Hkp'.
  run_to (dictHashKey_run h' g d (a_block a') kp k (owns_lookup_hd _ _ _ _ _ Hm') eq_refl Hkp' Hk Hseed).
  exists h', a'. split; [|done].
  etrans; [by apply (probes_run d a' h' kp k (λ _, mret (-1)) (λ idx, mret (s32 idx)) Hm' Hok' H0 Hkp' Hk)|].
  assert (k ∈ a_keys a ↔ k ∈ e_key <$> a_ents a') as Hiff.
  { unfold a_keys. by rewrite (same_perm _ _ Hs). }
  destruct (ent_find k (a_ents a')) as [e|] eqn:Hf.
  - apply ent_find_Some in Hf as [Hin <-]. rewrite decide_True; [done|].
    apply Hiff. by apply list_elem_of_fmap_2.
  - apply ent_find_None in Hf. rewrite decide_False by tauto.
    assert (tab_ok seed (a_tab (active a') a')) as (_ & Hsz & _).
    { unfold active. destruct (Z.eqb_spec (a_idx a') (-1)); [done|]. by apply tables_second. }
    destruct (bucket_mask seed _ k Hsz Hseed (proj1 Hk)) as [_ Hlt].
    apply size_ok_range in Hsz. unfold t_size in Hsz. rewrite s32_small by lia. done.
Qed.
Lemma dictStringDup_run pv h kp k :
  h !! kp = Some (DString (cstr k)) → dkey_ok k →
  ∃ p, h !! p = None ∧ p ≠ 0 ∧
    _dictStringDup pv kp (DState h g) = Done (p, DState (<[p := DString (cstr k)]> h) g).
Proof.
  intros Hkp [Hnn Hlen]. unfold _dictStringDup. run_to (load_string_at h g kp _ Hkp).
  rewrite (strlen_cstr k Hnn). run_by (apply lift_done).
  rewrite s32_small by lia. set (len := Z.of_nat (length k)) in *.
  destruct (alloc_total h (u64 (len + 1))) as [p Hp].
  pose proof (alloc_fresh _ _ _ Hp) as Hfresh. pose proof (alloc_pos _ _ _ Hp) as Hpos.
  exists p. split; [done|]. split; [lia|].
  run_by (unfold malloc_block; cbn [heap]; rewrite Hp; reflexivity). cbn [set_heap globals].
  set (old := replicate (Z.to_nat (len + 1)) (u8 indeterminate)).
  run_by (apply load_string_at with (b := old); apply lookup_insert_eq).
  assert (buf_take (cstr k) len = Done k) as ->.
  { unfold buf_take. rewrite length_cstr. destruct (Z.ltb_spec len 0); [lia|].
    destruct (Z.ltb_spec (Z.of_nat (S (length k))) len); [lia|]. cbn [orb].
    unfold len. rewrite Nat2Z.id. unfold cstr. by rewrite take_app_length. }
  run_by (apply lift_done).
  run_by (eapply store_string_at; apply lookup_insert_eq).
  run_by (eapply store_string_at; apply lookup_insert_eq).
  unfold mret, cmd_ret. rewrite !insert_insert_eq. do 4 f_equal.
  assert (drop (Z.to_nat len) old = [u8 indeterminate]) as ->.
  { unfold old, len. replace (Z.to_nat (Z.of_nat (length k) + 1)) with (length k + 1)%nat by lia.
    rewrite Nat2Z.id, drop_replicate. by replace (length k + 1 - length k)%nat with 1%nat by lia. }
  unfold len. rewrite Nat2Z.id. unfold cstr.
  rewrite insert_app_r_alt by lia. by rewrite Nat.sub_diag.
Qed.

Lemma set_ht_copy_key i n x : copy_key x → copy_key (set_ht i n x).
Proof. unfold copy_key, set_ht. by destruct (i =? 0). Qed.

Lemma dictSetKey_run h d x entry e kp k :
  h !! d = Some (DDict x) → copy_key x → h !! kp = Some (DString (cstr k)) → dkey_ok k →
  h !! entry = Some (DEntry e) →
  ∃ p, h !! p = None ∧ p ≠ 0 ∧
    dictSetKey d entry kp (DState h g) =
    Done (tt, DState (<[entry := DEntry (set_key p e)]> (<[p := DString (cstr k)]> h)) g).
Proof.
  intros Hd Hc Hkp Hk He. unfold dictSetKey. run_to (load_dict_at h g d x Hd).
  rewrite Hc. cbn [get_type keyDup].
  destruct (dictStringDup_run (privdata x) h kp k Hkp Hk) as (p & Hfresh & Hp & Hrun).
  exists p. split; [done|]. split; [done|]. run_to Hrun.
  assert (<[p := DString (cstr k)]> h !! entry = Some (DEntry e)) as He'.
  { rewrite lookup_insert_ne by congruence. done. }
  run_to (load_entry_at _ g entry e He'). by apply store_entry_at with e.
Qed.

Lemma active_if a : (if dictIsRehashing (a_block a) then 1 else 0) = active a.
Proof. unfold dictIsRehashing, active. cbn. by destruct (_ =? _). Qed.

Lemma active_ok a : dict_ok seed a → tab_ok seed (a_t0 a) → tab_ok seed (a_tab (active a) a).
Proof.
  intros Hok H0. unfold active. destruct (Z.eqb_spec (a_idx a) (-1)); [done|]. by apply tables_second.
Qed.

(** The tail of [dictAddRaw]: link a new entry into bucket [b]. *)
Definition add_link (d index key : Z) : cmd dstate Z :=
  x ← load_dict d;
  let i := if dictIsRehashing x then 1 else 0 in
  entry ← malloc_block SIZEOF_ENTRY (DEntry (DictEntry indeterminate indeterminate indeterminate));
  x ← load_dict d;
  p ← load_slot (table (ht i x)) index;
  e ← load_entry entry;
  _ ← store_entry entry (set_next p e);
  _ ← store_slot (table (ht i x)) index entry;
  _ ← modify_dict d (λ x, set_ht i (set_used (u64 (used (ht i x) + 1)) (ht i x)) x);
  _ ← dictSetKey d entry key;
  mret entry.

(** Pushing an entry with a new key to the front of its bucket. *)
Lemma push_entry_ok a l e :
  dict_ok seed a → tab_ok seed (a_tab (active a) a) →
  t_buckets (a_tab (active a) a) !! bucket_of seed (a_tab (active a) a) (e_key e) = Some l →
  e_at e ≠ 0 → e_kp e ≠ 0 → dkey_ok (e_key e) → e_key e ∉ a_keys a →
  let a' := with_tab (active a) (set_bucket (bucket_of seed (a_tab (active a) a) (e_key e)) (e :: l) (a_tab (active a) a)) a in
  dict_ok seed a' ∧ a_ents a' ≡ₚ e :: a_ents a.
Proof.
  set (i := active a). set (b := bucket_of seed (a_tab i a) (e_key e)).
  intros Hok Hoki Hl Hat Hkp Hk Hnew. pose proof Hoki as (_ & _ & Hb).
  pose proof (active_01 a) as Hi. fold i in Hi.
  assert (a_ents (with_tab i (set_bucket b (e :: l) (a_tab i a)) a) ≡ₚ e :: a_ents a) as Hents.
  { rewrite (a_ents_set i b l (e :: l) a Hi Hl), (a_ents_split i b l a Hi Hl). done. }
  split; [|exact Hents]. apply (set_bucket_dict_ok seed i b l); try done.
  - apply Forall_cons. split; [|by apply (Hb _ _ Hl)]. by split.
  - intros Hi0 Hidx. exfalso. revert Hi0 Hidx. unfold i, active.
    destruct (Z.eqb_spec (a_idx a) (-1)); [by intros _ []|done].
  - rewrite <-(a_ents_set i b l (e :: l) a Hi Hl), Hents. cbn. apply NoDup_cons. split; [done|].
    by destruct Hok.
Qed.

Lemma add_link_run d a h kp k :
  owns (dict_cells d a) fr h → dict_ok seed a → tab_ok seed (a_t0 a) → small a →
  fr !! kp = Some (DString (cstr k)) → dkey_ok k → k ∉ a_keys a →
  ∃ entry kp' h' a', add_link d (Z.of_nat (bucket_of seed (a_tab (active a) a) k)) kp (DState h g) =
      Done (entry, DState h' g) ∧
    owns (dict_cells d a') fr h' ∧ dict_ok seed a' ∧ entry ≠ 0 ∧
    a_ents a' ≡ₚ Ent entry kp' k indeterminate :: a_ents a.
Proof.
  intros Hm Hok H0 Hsmall Hkp Hk Hnew. unfold add_link. set (i := active a) in *.
  pose proof (active_01 a) as Hi. fold i in Hi.
  pose proof (active_ok a Hok H0) as Hoki. fold i in Hoki. pose proof Hoki as (Hat & Hsz & Hb).
  destruct (bucket_lookup seed (a_tab i a) k Hsz Hseed (proj1 Hk)) as [l Hl].
  set (b := bucket_of seed (a_tab i a) k) in *.
  run_to (load_dict_at h g d _ (owns_lookup_hd _ _ _ _ _ Hm)). rewrite active_if. fold i.
  destruct (alloc_total h SIZEOF_ENTRY) as [p Hp].
  pose proof (alloc_fresh _ _ _ Hp) as Hfresh. pose proof (alloc_pos _ _ _ Hp) as Hpos.
  run_by (unfold malloc_block; cbn [heap]; rewrite Hp; reflexivity). cbn [set_heap globals].
  set (w := indeterminate) in *.
  rewrite (dict_cells_bucket d i b l a Hi Hat Hl) in Hm.
  apply (owns_alloc _ _ _ p (DEntry (DictEntry w w w)) Hfresh) in Hm.
  run_by (eapply load_dict_at, owns_lookup; [exact Hm|in_cells]). rewrite ht_block by done.
  cbn [header table].
  run_by (apply dict_load_slot_at with ((λ l, chain l) <$> t_buckets (a_tab i a));
          [eapply owns_lookup; [exact Hm|unfold tab_block; in_cells]|by rewrite list_lookup_fmap, Hl]).
  run_to (load_entry_at _ g p _ (owns_lookup_hd _ _ _ _ _ Hm)).
  run_to (store_entry_at _ g p _ (set_next (chain l) (DictEntry w w w)) (owns_lookup_hd _ _ _ _ _ Hm)).
  own_store Hm. unfold set_next in *. cbn [key val] in *.
  apply (owns_perm _ ((t_at (a_tab i a), tab_block (a_tab i a)) :: (d, DDict (a_block a)) ::
    (p, DEntry (DictEntry w w (chain l))) :: chain_cells l ++ hole i b a)) in Hm; [|solve_Permutation].
  run_by (eapply dict_store_slot_at; [by eapply owns_lookup_hd|by rewrite list_lookup_fmap, Hl]).
  own_store Hm. eapply owns_perm in Hm; [|apply Permutation_swap].
  run_to (modify_dict_at _ g d _ (λ x, set_ht i (set_used (u64 (used (ht i x) + 1)) (ht i x)) x)
            (owns_lookup_hd _ _ _ _ _ Hm)).
  own_store Hm. rewrite ht_block in Hm |- * by done.
  destruct (dictSetKey_run _ d _ p _ kp k (owns_lookup_hd _ _ _ _ _ Hm) (set_ht_copy_key i _ (a_block a) eq_refl)
              (owns_frame _ _ _ _ _ Hm Hkp) Hk (owns_lookup _ _ _ p _ Hm ltac:(in_cells)))
    as (kp' & Hfresh' & Hkp0 & Hrun).
  run_to Hrun. clear Hrun. unfold set_key. cbn [key val next].
  apply (owns_alloc _ _ _ kp' (DString (cstr k)) Hfresh') in Hm.
  set (e := Ent p kp' k w).
  apply (owns_perm _ ((p, DEntry (DictEntry w w (chain l))) :: (kp', DString (cstr k)) ::
    (d, DDict (set_ht i (set_used (u64 (used (header (a_tab i a)) + 1)) (header (a_tab i a))) (a_block a))) ::
    (t_at (a_tab i a), DTable (<[b:=p]> ((λ l, chain l) <$> t_buckets (a_tab i a)))) ::
    chain_cells l ++ hole i b a)) in Hm; [|solve_Permutation].
  own_store Hm.
  destruct (push_entry_ok a l e Hok Hoki Hl) as [Hok' Hents]; [cbn; lia|done|done|done|].
  exists p, kp'. eexists. eexists. split; [reflexivity|]. split; [|split; [exact Hok'|split; [lia|exact Hents]]].
  eapply owns_perm; [|exact Hm]. fold i. change (e_key e) with k. fold b.
  rewrite (dict_cells_set d i b l (e :: l) a Hi Hat Hl).
  cbn [header used seg_cells head_or e e_at e_kp e_key e_val].
  replace (u64 (t_used (a_tab i a) + 1)) with (t_used (a_tab i a) - Z.of_nat (length l) + Z.of_nat (length (e :: l))).
  - solve_Permutation.
  - unfold small in Hsmall. rewrite (a_ents_tab i a Hi), length_app in Hsmall. unfold t_used.
    rewrite u64_small by lia. cbn [length]. lia.
Qed.
Lemma dictAddRaw_run d a h kp k :
  owns (dict_cells d a) fr h → dict_ok seed a → room a →
  fr !! kp = Some (DString (cstr k)) → dkey_ok k →
  ∃ entry h' a', dictAddRaw d kp (DState h g) = Done (entry, DState h' g) ∧
    owns (dict_cells d a') fr h' ∧ dict_ok seed a' ∧
    if decide (k ∈ a_keys a) then entry = 0 ∧ same_ents a a'
    else entry ≠ 0 ∧ ∃ kp', a_ents a' ≡ₚ Ent entry kp' k indeterminate :: a_ents a.
Proof.
  intros Hm Hok Hroom Hkp Hk. unfold dictAddRaw.
  run_to (load_dict_at h g d _ (owns_lookup_hd _ _ _ _ _ Hm)).
  destruct (rehash_step_run g fr Hseed d a h Hm Hok (room_small a Hroom)) as (h1 & a1 & Hrun1 & Hm1 & Hok1 & Hs1 & _ & _).
  run_to Hrun1.
  assert (room a1) as Hroom1 by (unfold room in *; by rewrite (same_size _ _ Hs1)).
  destruct (dictKeyIndex_run d a1 h1 kp k Hm1 Hok1 Hroom1 Hkp Hk) as (h2 & a2 & Hrun2 & Hm2 & Hok2 & Hs2 & H02).
  run_to Hrun2.
  pose proof (same_ents_trans _ _ _ Hs1 Hs2) as Hs.
  assert (k ∈ a_keys a1 ↔ k ∈ a_keys a) as Hiff1 by (unfold a_keys; by rewrite (same_perm _ _ Hs1)).
  assert (k ∈ a_keys a2 ↔ k ∈ a_keys a) as Hiff2 by (unfold a_keys; by rewrite (same_perm _ _ Hs)).
  destruct (decide (k ∈ a_keys a)) as [Hin|Hnin].
  - rewrite decide_True by tauto. cbn [Z.eqb]. exists 0, h2, a2. split; [done|]. by split.
  - rewrite decide_False by tauto.
    destruct (Z.eqb_spec (Z.of_nat (bucket_of seed (a_tab (active a2) a2) k)) (-1)); [lia|].
    assert (small a2) as Hsmall2.
    { unfold small. rewrite (same_size _ _ Hs). by apply room_small in Hroom. }
    destruct (add_link_run d a2 h2 kp k Hm2 Hok2 H02 Hsmall2 Hkp Hk) as (entry & kp' & h' & a' & Hrun & Hm' & Hok' & He & Hp);
      [tauto|].
    exists entry, h', a'. split; [exact Hrun|]. split; [done|]. split; [done|]. split; [done|].
    exists kp'. by rewrite Hp, (same_perm _ _ Hs).
Qed.

(** ** Changing the value of an entry *)

Lemma dictSetVal_run d a h e v :
  owns (dict_cells d a) fr h → dict_ok seed a → e ∈ a_ents a →
  ∃ h' a' o, dictSetVal d (e_at e) v (DState h g) = Done (tt, DState h' g) ∧
    owns (dict_cells d a') fr h' ∧ dict_ok seed a' ∧
    a_ents a ≡ₚ e :: o ∧ a_ents a' ≡ₚ Ent (e_at e) (e_kp e) (e_key e) v :: o.
Proof.
  intros Hm Hok He. destruct (locate seed a e Hok He) as (i & b & l & Hi & Hoki & Hl & Hin).
  pose proof Hoki as (Hat & Hsz & Hb). apply list_elem_of_split in Hin as (l1 & l2 & ->).
  unfold dictSetVal. run_to (load_dict_at h g d _ (owns_lookup_hd _ _ _ _ _ Hm)).
  cbn [a_block type get_type valDup]. run_by (reflexivity).
  rewrite (dict_cells_bucket d i b _ a Hi Hat Hl), seg_cells_app in Hm.
  set (e' := Ent (e_at e) (e_kp e) (e_key e) v).
  cbn [seg_cells head_or] in Hm.
  apply (owns_perm _ ((e_at e, DEntry (DictEntry (e_kp e) (e_val e) (chain l2))) ::
    (d, DDict (a_block a)) :: (t_at (a_tab i a), tab_block (a_tab i a)) :: seg_cells l1 (e_at e) ++
    (e_kp e, DString (cstr (e_key e))) :: chain_cells l2 ++ hole i b a)) in Hm; [|solve_Permutation].
  run_to (load_entry_at _ g _ _ (owns_lookup_hd _ _ _ _ _ Hm)).
  erewrite store_entry_at by exact (owns_lookup_hd _ _ _ _ _ Hm).
  unfold set_val. cbn [key next].
  apply (owns_store _ _ _ _ _ (DEntry (DictEntry (e_kp e) v (chain l2)))) in Hm.
  eexists. exists (with_tab i (set_bucket b (l1 ++ e' :: l2) (a_tab i a)) a), (l1 ++ l2 ++ others i b a).
  split; [reflexivity|].
  assert (a_ents (with_tab i (set_bucket b (l1 ++ e' :: l2) (a_tab i a)) a) ≡ₚ e' :: l1 ++ l2 ++ others i b a) as Hents.
  { rewrite (a_ents_set i b _ _ a Hi Hl). solve_Permutation. }
  assert (a_ents a ≡ₚ e :: l1 ++ l2 ++ others i b a) as Hents0.
  { rewrite (a_ents_split i b _ a Hi Hl). solve_Permutation. }
  split; [|split; [|split; [exact Hents0|exact Hents]]].
  - eapply owns_perm; [|exact Hm]. rewrite (dict_cells_set d i b _ (l1 ++ e' :: l2) a Hi Hat Hl).
    rewrite !length_app. cbn [length].
    replace (t_used (a_tab i a) - _ + _) with (t_used (a_tab i a)) by lia.
    replace (set_ht i (set_used (t_used (a_tab i a)) (header (a_tab i a))) (a_block a)) with (a_block a)
      by (destruct a; by destruct Hi as [->| ->]).
    assert (<[b := chain (l1 ++ e' :: l2)]> ((λ l, chain l) <$> t_buckets (a_tab i a)) =
            (λ l, chain l) <$> t_buckets (a_tab i a)) as ->.
    { apply list_insert_id. rewrite list_lookup_fmap, Hl. cbn. by rewrite !head_or_app. }
    rewrite seg_cells_app. cbn [seg_cells head_or]. unfold tab_block. cbn [e' e_at e_kp e_key e_val].
    solve_Permutation.
  - apply (set_bucket_dict_ok seed i b (l1 ++ e :: l2)); try done.
    + pose proof (Hb _ _ Hl) as Hall. apply Forall_app in Hall as [H1 H2]. apply Forall_cons in H2 as [H2 H3].
      apply Forall_app. split; [done|]. by apply Forall_cons.
    + intros _ _ Hnil. by destruct l1.
    + rewrite <-(a_ents_set i b (l1 ++ e :: l2) _ a Hi Hl), Hents. destruct Hok as [_ Hnd].
      unfold a_keys in Hnd. by rewrite Hents0 in Hnd.
Qed.

Lemma a_map_cons a' e o :
  dict_ok seed a' → a_ents a' ≡ₚ e :: o → a_map a' = <[e_key e := e_val e]> (ents_map o).
Proof.
  intros [_ Hnd] Hp. change (a_map a') with (ents_map (a_ents a')).
  by rewrite (ents_map_perm _ (e :: o) Hnd Hp).
Qed.

Lemma same_map a a' : dict_ok seed a → same_ents a a' → a_map a' = a_map a.
Proof.
  intros [_ Hnd] Hs. change (ents_map (a_ents a') = ents_map (a_ents a)). symmetry.
  apply ents_map_perm; [exact Hnd|]. by rewrite (same_perm _ _ Hs).
Qed.

Lemma a_map_key a k : k ∈ a_keys a ↔ is_Some (a_map a !! k).
Proof.
  change (a_map a) with (ents_map (a_ents a)). rewrite ents_map_find. unfold a_keys.
  pose proof (ent_find_None k (a_ents a)) as Hn.
  destruct (ent_find k (a_ents a)) as [e|] eqn:Hf; cbn.
  - split; [by eexists|]. intros _. destruct (decide (k ∈ e_key <$> a_ents a)) as [|Hnin]; [done|].
    by apply Hn in Hnin.
  - split; [|by intros [? ?]]. intros Hin. by apply Hn in Hin.
Qed.

(** ** dictAdd and dictReplace *)

Lemma dictAdd_run d a h kp k v :
  owns (dict_cells d a) fr h → dict_ok seed a → room a →
  fr !! kp = Some (DString (cstr k)) → dkey_ok k →
  ∃ h' a', dictAdd d kp v (DState h g) =
      Done (if decide (k ∈ a_keys a) then DICT_ERR else DICT_OK, DState h' g) ∧
    owns (dict_cells d a') fr h' ∧ dict_ok seed a' ∧
    if decide (k ∈ a_keys a) then same_ents a a' else a_map a' = <[k := v]> (a_map a).
Proof.
  intros Hm Hok Hroom Hkp Hk. unfold dictAdd.
  destruct (dictAddRaw_run d a h kp k Hm Hok Hroom Hkp Hk) as (entry & h1 & a1 & Hrun1 & Hm1 & Hok1 & H1).
  run_to Hrun1. destruct (decide (k ∈ a_keys a)) as [Hin|Hnin].
  - destruct H1 as [-> Hs]. cbn [Z.eqb]. exists h1, a1. done.
  - destruct H1 as (He & kp' & Hp). destruct (Z.eqb_spec entry 0); [done|].
    destruct (dictSetVal_run d a1 h1 (Ent entry kp' k indeterminate) v Hm1 Hok1)
      as (h' & a' & o & Hrun & Hm' & Hok' & Hp1 & Hp').
    { rewrite Hp. by apply elem_of_cons; left. }
    cbn [e_at] in Hrun. run_to Hrun. exists h', a'. split; [done|]. split; [done|]. split; [done|].
    rewrite (a_map_cons a' _ _ Hok' Hp'). cbn [e_key e_val]. f_equal.
    rewrite Hp in Hp1. apply Permutation_cons_inv in Hp1. symmetry.
    apply ents_map_perm; [by destruct Hok|done].
Qed.

Lemma dictReplace_run d a h kp k v :
  owns (dict_cells d a) fr h → dict_ok seed a → room a →
  fr !! kp = Some (DString (cstr k)) → dkey_ok k →
  ∃ h' a', dictReplace d kp v (DState h g) =
      Done (if decide (k ∈ a_keys a) then 0 else 1, DState h' g) ∧
    owns (dict_cells d a') fr h' ∧ dict_ok seed a' ∧ a_map a' = <[k := v]> (a_map a).
Proof.
  intros Hm Hok Hroom Hkp Hk. unfold dictReplace.
  destruct (dictAdd_run d a h kp k v Hm Hok Hroom Hkp Hk) as (h1 & a1 & Hrun1 & Hm1 & Hok1 & H1).
  run_to Hrun1. destruct (decide (k ∈ a_keys a)) as [Hin|Hnin]; cbn [DICT_ERR DICT_OK Z.eqb].
  2: { exists h1, a1. done. }
  assert (small a1) as Hsmall1.
  { unfold small. rewrite (same_size _ _ H1). by apply room_small in Hroom. }
  destruct (dictFind_run d a1 h1 kp k Hm1 Hok1 Hsmall1 Hkp Hk) as (h2 & a2 & Hrun2 & Hm2 & Hok2 & Hs2).
  run_to Hrun2. pose proof (same_ents_trans _ _ _ H1 Hs2) as Hs.
  destruct (ent_find k (a_ents a2)) as [e|] eqn:Hf.
  2: { apply ent_find_None in Hf. unfold a_keys in Hin. by rewrite <-(same_perm _ _ Hs) in Hin. }
  apply ent_find_Some in Hf as [He Hke]. cbn [ent_ptr].
  destruct (dictSetVal_run d a2 h2 e v Hm2 Hok2 He) as (h3 & a3 & o & Hrun3 & Hm3 & Hok3 & Hp2 & Hp3).
  destruct (load_found d a2 h2 e Hm2 Hok2 He) as (nxt & Hload). run_to Hload. run_to Hrun3.
  unfold dictFreeVal.
  erewrite (bind_done (load_dict d ≫= _)) by (run_to (load_dict_at h3 g d _ (owns_lookup_hd _ _ _ _ _ Hm3)); reflexivity).
  cbn beta. exists h3, a3. split; [done|]. split; [done|]. split; [done|].
  rewrite (a_map_cons a3 _ _ Hok3 Hp3). cbn [e_key e_val]. rewrite Hke.
  rewrite <-(same_map a a2 Hok Hs), (a_map_cons a2 _ _ Hok2 Hp2), Hke. by rewrite insert_insert_eq.
Qed.
End run.
