(* ===== verification/DictDelete.v ===== *)
(** * DictDelete: deletion and destruction

    [dictGenericDelete] unlinks one entry of a chain and frees it, with its
    key unless [nofree] is set; [_dictClear] frees a table with all its
    entries.  Ownership is exact, so what is not listed afterwards has been
    freed. *)

From S2P Require Import Prelude.
From S2P Require Import Own.
From S2P Require Import Heap.
From S2P Require Import DictHash.
From S2P Require Import Dict.
From S2P Require Import DictMem.
From S2P Require Import DictProofs.
From S2P Require Import DictRehash.
From S2P Require Import DictOps.

(** The address of the last entry of a segment, null for an empty one. *)
Definition last_at (l : list ent) : Z := from_option e_at 0 (last l).

Lemma last_at_snoc l e : last_at (l ++ [e]) = e_at e.
Proof. unfold last_at. by rewrite last_snoc. Qed.

(** The first entry with a key, and what is before and after it. *)
Fixpoint ent_split (k : list Z) (l : list ent) : option (list ent * ent * list ent) :=
  match l with
  | [] => None
  | e :: l =>
      if decide (e_key e = k) then Some ([], e, l)
      else '(m1, f, m2) ← ent_split k l; Some (e :: m1, f, m2)
  end.

Lemma ent_split_Some k l m1 e m2 :
  ent_split k l = Some (m1, e, m2) → l = m1 ++ e :: m2 ∧ e_key e = k.
Proof.
  revert m1. induction l as [|f l IH]; intros m1; cbn; [done|]. destruct (decide (e_key f = k)).
  - by intros [= <- <- <-].
  - destruct (ent_split k l) as [[[n1 f'] n2]|]; cbn; [|done]. intros [= <- -> ->].
    by destruct (IH n1 eq_refl) as [-> ?].
Qed.

Lemma ent_split_None k l : ent_split k l = None ↔ k ∉ e_key <$> l.
Proof.
  induction l as [|f l IH]; cbn; [split; [intros _; apply not_elem_of_nil|done]|].
  rewrite not_elem_of_cons. destruct (decide (e_key f = k)).
  - split; [done|]. intros [? _]. congruence.
  - destruct (ent_split k l) as [[[? ?] ?]|]; cbn.
    + split; [done|]. intros [_ Hn]. by apply IH in Hn.
    + split; [|done]. intros _. split; [congruence|]. by apply IH.
Qed.

Section run.
Context {A : Allocator dblock}.
Context (g : dict_globals) (fr : dheap).
Notation seed := (dict_hash_function_seed g).
Context (Hseed : 0 <= seed < 2 ^ 32).
Implicit Types (h : dheap) (a : adict) (k : list Z).

(** What a deletion leaves to the caller: the key's string when [nofree]. *)
Definition kept (nofree : Z) (e : ent) : list (Z * dblock) :=
  if nofree =? 0 then [] else [(e_kp e, DString (cstr (e_key e)))].

Lemma delete_in_chain_run d x kp k tab idx nofree h : ∀ fuel l1 l2,
  h !! d = Some (DDict x) → copy_key x → h !! kp = Some (DString (cstr k)) → nonul k →
  Forall (λ e, e_at e ≠ 0 ∧ nonul (e_key e)) l2 → readable (chain_cells l2) h → (length l2 < fuel)%nat →
  delete_in_chain fuel d kp tab idx (last_at l1) (chain l2) nofree (DState h g) =
  match ent_split k l2 with
  | Some (m1, e, m2) =>
      (_ ← delete_entry d tab idx (last_at (l1 ++ m1)) (e_at e) nofree; mret true) (DState h g)
  | None => Done (false, DState h g)
  end.
Proof.
  intros fuel l1 l2 Hd Hc Hkp Hk. revert l1 l2.
  induction fuel as [|fuel IH]; intros l1 l2 Hall Hrd Hf; [lia|].
  cbn [delete_in_chain]. destruct l2 as [|e l2]; cbn [head_or ent_split]; [done|].
  apply Forall_cons in Hall as [[Ha Hke] Hall]. cbn [seg_cells] in Hrd.
  apply readable_cons in Hrd as [He Hrd]. apply readable_cons in Hrd as [Hs Hrd].
  destruct (Z.eqb_spec (e_at e) 0); [done|].
  run_to (load_entry_at h g (e_at e) _ He). cbn [key next].
  run_to (dictCompareKeys_run h g d x kp (e_kp e) k (e_key e)).
  destruct (decide (e_key e = k)) as [->|Hne].
  - rewrite bool_decide_eq_true_2 by done. cbn [of_bool Z.eqb negb]. by rewrite app_nil_r.
  - rewrite bool_decide_eq_false_2 by congruence. cbn [of_bool Z.eqb negb]. cbn [length] in Hf.
    rewrite <-(last_at_snoc l1 e). rewrite (IH (l1 ++ [e]) l2) by (done || lia).
    destruct (ent_split k l2) as [[[m1 f] m2]|]; cbn; [|done]. by rewrite <-app_assoc.
Qed.

Lemma dictFreeKey_run d x h e b :
  h !! d = Some (DDict x) → copy_key x → key e ≠ 0 → h !! key e = Some b →
  dictFreeKey d e (DState h g) = Done (tt, DState (delete (key e) h) g).
Proof.
  intros Hd Hc Hk Hb. unfold dictFreeKey. run_to (load_dict_at h g d x Hd). rewrite Hc.
  cbn [get_type keyDestructor]. unfold _dictStringDestructor. by apply dict_free_at with b.
Qed.

Lemma dictFreeVal_run d x h e :
  h !! d = Some (DDict x) → copy_key x → dictFreeVal d e (DState h g) = Done (tt, DState h g).
Proof.
  intros Hd Hc. unfold dictFreeVal. run_to (load_dict_at h g d x Hd). by rewrite Hc.
Qed.

(** Unlinking: the predecessor or the bucket now points to the rest. *)
Lemma unlink_run d a i b m1 e m2 h :
  i = 0 ∨ i = 1 → tab_ok seed (a_tab i a) → t_buckets (a_tab i a) !! b = Some (m1 ++ e :: m2) →
  owns (dict_cells d a) fr h →
  ∃ h', (if negb (last_at m1 =? 0) then
           p ← load_entry (last_at m1); store_entry (last_at m1) (set_next (chain m2) p)
         else x ← load_dict d; store_slot (table (ht i x)) (Z.of_nat b) (chain m2)) (DState h g) =
      Done (tt, DState h' g) ∧
    owns ((d, DDict (a_block a)) :: (e_at e, DEntry (DictEntry (e_kp e) (e_val e) (chain m2))) ::
          (e_kp e, DString (cstr (e_key e))) ::
          (t_at (a_tab i a), DTable (<[b := chain (m1 ++ m2)]> ((λ l, chain l) <$> t_buckets (a_tab i a)))) ::
          chain_cells (m1 ++ m2) ++ hole i b a) fr h'.
Proof.
  intros Hi (Hat & Hsz & Hb) Hl Hm. rewrite (dict_cells_bucket d i b _ a Hi Hat Hl) in Hm.
  pose proof (Hb _ _ Hl) as Hall.
  destruct m1 as [|p m0 _] using rev_ind.
  - change (last_at []) with 0. cbn [Z.eqb negb app] in *. cbn [seg_cells] in Hm.
    run_to (load_dict_at _ g d _ (owns_lookup_hd _ _ _ _ _ Hm)). rewrite ht_block by done. cbn [header table].
    eapply owns_perm in Hm; [|apply Permutation_swap].
    erewrite dict_store_slot_at by (by eapply owns_lookup_hd || by rewrite list_lookup_fmap, Hl).
    eapply owns_store in Hm. eexists. split; [reflexivity|].
    eapply owns_perm; [|exact Hm]. solve_Permutation.
  - rewrite last_at_snoc. rewrite <-!app_assoc in *. cbn [app] in *.
    apply Forall_app in Hall as [_ Hall]. apply Forall_cons in Hall as [[Hp _] _].
    destruct (Z.eqb_spec (e_at p) 0); [done|]. cbn [negb].
    rewrite seg_cells_app in Hm. cbn [seg_cells head_or] in Hm.
    apply (owns_perm _ ((e_at p, DEntry (DictEntry (e_kp p) (e_val p) (e_at e))) :: (d, DDict (a_block a)) ::
      (t_at (a_tab i a), tab_block (a_tab i a)) :: (e_at e, DEntry (DictEntry (e_kp e) (e_val e) (chain m2))) ::
      (e_kp e, DString (cstr (e_key e))) :: (e_kp p, DString (cstr (e_key p))) ::
      seg_cells m0 (e_at p) ++ chain_cells m2 ++ hole i b a)) in Hm; [|solve_Permutation].
    run_to (load_entry_at _ g _ _ (owns_lookup_hd _ _ _ _ _ Hm)).
    erewrite store_entry_at by exact (owns_lookup_hd _ _ _ _ _ Hm).
    eapply owns_store in Hm. eexists. split; [reflexivity|]. unfold set_next in Hm. cbn [key val] in Hm.
    eapply owns_perm; [|exact Hm].
    rewrite list_insert_id.
    2: { rewrite list_lookup_fmap, Hl. cbn. by rewrite !head_or_app. }
    unfold tab_block. rewrite seg_cells_app. cbn [seg_cells head_or]. solve_Permutation.
Qed.

(** Freeing the parts of an unlinked entry, unless [nofree] is set. *)
Lemma free_parts_run d x e nx nofree rest h :
  owns ((e_at e, DEntry (DictEntry (e_kp e) (e_val e) nx)) :: (d, DDict x) ::
        (e_kp e, DString (cstr (e_key e))) :: rest) fr h →
  copy_key x → e_kp e ≠ 0 →
  ∃ h2, (if nofree =? 0 then _ ← dictFreeKey d (DictEntry (e_kp e) (e_val e) nx);
                             dictFreeVal d (DictEntry (e_kp e) (e_val e) nx)
         else mret tt) (DState h g) = Done (tt, DState h2 g) ∧
    owns ((e_at e, DEntry (DictEntry (e_kp e) (e_val e) nx)) :: (d, DDict x) :: kept nofree e ++ rest) fr h2.
Proof.
  intros Hm Hc Hkp. unfold kept. destruct (Z.eqb_spec nofree 0).
  - erewrite bind_done; [|eapply dictFreeKey_run; [eapply owns_lookup; [exact Hm|in_cells]|done|done|];
      cbn [key]; eapply owns_lookup; [exact Hm|in_cells]]. cbn beta.
    apply (owns_perm _ ((e_kp e, DString (cstr (e_key e))) :: (d, DDict x) ::
      (e_at e, DEntry (DictEntry (e_kp e) (e_val e) nx)) :: rest)) in Hm; [|solve_Permutation].
    apply owns_free in Hm. erewrite dictFreeVal_run by (by eapply owns_lookup_hd || done).
    eexists. split; [reflexivity|]. cbn [app]. eapply owns_perm; [|exact Hm]. solve_Permutation.
  - exists h. split; [done|]. eapply owns_perm; [|exact Hm]. solve_Permutation.
Qed.

(** Taking an entry out of its bucket. *)
Lemma unlink_ok a i b m1 e m2 :
  i = 0 ∨ i = 1 → dict_ok seed a → tab_ok seed (a_tab i a) →
  t_buckets (a_tab i a) !! b = Some (m1 ++ e :: m2) →
  let a' := with_tab i (set_bucket b (m1 ++ m2) (a_tab i a)) a in
  dict_ok seed a' ∧ a_ents a ≡ₚ e :: a_ents a'.
Proof.
  intros Hi Hok Hoki Hl. pose proof Hoki as (_ & _ & Hb). cbn zeta. pose proof (Hb _ _ Hl) as Hall.
  apply Forall_app in Hall as [Hall1 Hall2]. apply Forall_cons in Hall2 as [_ Hall2].
  pose proof (a_ents_set i b _ (m1 ++ m2) a Hi Hl) as Hents'.
  assert (a_ents a ≡ₚ e :: a_ents (with_tab i (set_bucket b (m1 ++ m2) (a_tab i a)) a)) as Hp.
  { rewrite Hents', (a_ents_split i b _ a Hi Hl). solve_Permutation. }
  split; [|exact Hp]. apply (set_bucket_dict_ok seed i b (m1 ++ e :: m2)); try done.
  - by apply Forall_app.
  - intros _ _ Hnil. by destruct m1.
  - rewrite <-Hents'. destruct Hok as [_ Hnd]. unfold a_keys in Hnd. rewrite Hp in Hnd.
    by apply NoDup_cons in Hnd as [_ ?].
Qed.

Lemma delete_entry_run d a i b m1 e m2 nofree h :
  i = 0 ∨ i = 1 → dict_ok seed a → tab_ok seed (a_tab i a) →
  t_buckets (a_tab i a) !! b = Some (m1 ++ e :: m2) → small a → owns (dict_cells d a) fr h →
  ∃ h' a', delete_entry d i (Z.of_nat b) (last_at m1) (e_at e) nofree (DState h g) = Done (tt, DState h' g) ∧
    owns (kept nofree e ++ dict_cells d a') fr h' ∧ dict_ok seed a' ∧ a_ents a ≡ₚ e :: a_ents a'.
Proof.
  intros Hi Hok Hoki Hl Hsmall Hm. pose proof Hoki as (Hat & Hsz & Hb). unfold delete_entry.
  assert (e ∈ a_ents a) as Hin.
  { rewrite (a_ents_split i b _ a Hi Hl), <-app_assoc. apply elem_of_app. right. by apply elem_of_cons; left. }
  pose proof (Hb _ _ Hl) as Hall. pose proof Hall as Hall'.
  apply Forall_app in Hall' as [Hall1 Hall2]. apply Forall_cons in Hall2 as [(Hae & Hkp & _) Hall2].
  assert (load_entry (e_at e) (DState h g) = Done (DictEntry (e_kp e) (e_val e) (chain m2), DState h g)) as Hload.
  { apply load_entry_at. rewrite (dict_cells_bucket d i b _ a Hi Hat Hl), seg_cells_app in Hm.
    cbn [seg_cells head_or] in Hm. eapply owns_lookup; [exact Hm|].
    do 2 apply list_elem_of_further. apply elem_of_app; left. apply elem_of_app; right. in_cells. }
  run_to Hload. cbn [next].
  destruct (unlink_run d a i b m1 e m2 h Hi Hoki Hl Hm) as (h1 & Hrun1 & Hm1). run_to Hrun1.
  set (rest := (t_at (a_tab i a), DTable (<[b := chain (m1 ++ m2)]> ((λ l, chain l) <$> t_buckets (a_tab i a)))) ::
          chain_cells (m1 ++ m2) ++ hole i b a) in *.
  destruct (free_parts_run d (a_block a) e (chain m2) nofree rest h1) as (h2 & Hrun2 & Hm2); [|done|done|].
  { eapply owns_perm; [|exact Hm1]. solve_Permutation. }
  run_to Hrun2. run_to (dict_free_at _ g _ _ Hae (owns_lookup_hd _ _ _ _ _ Hm2)).
  apply owns_free in Hm2.
  erewrite (modify_dict_at _ g d _ (λ x, set_ht i (set_used (u64 (used (ht i x) - 1)) (ht i x)) x))
    by exact (owns_lookup_hd _ _ _ _ _ Hm2).
  own_store Hm2. rewrite ht_block in Hm2 |- * by done. cbn [header used] in Hm2 |- *.
  destruct (unlink_ok a i b m1 e m2 Hi Hok Hoki Hl) as [Hok' Hp].
  eexists. eexists. split; [reflexivity|]. split; [|split; [exact Hok'|exact Hp]].
  eapply owns_perm; [|exact Hm2]. rewrite (dict_cells_set d i b _ (m1 ++ m2) a Hi Hat Hl).
  replace (u64 (t_used (a_tab i a) - 1)) with
    (t_used (a_tab i a) - Z.of_nat (length (m1 ++ e :: m2)) + Z.of_nat (length (m1 ++ m2))).
  - unfold rest. cbn [header]. solve_Permutation.
  - assert (1 ≤ t_used (a_tab i a)) as Hpos.
    { unfold t_used, t_ents. rewrite (concat_take_out _ b _ Hl), !length_app. cbn [length]. lia. }
    unfold small in Hsmall. rewrite (a_ents_tab i a Hi), length_app in Hsmall. unfold t_used in *.
    rewrite u64_small by lia. rewrite !length_app. cbn [length]. lia.
Qed.

Lemma delete_in_table_run d a i kp k nofree h :
  i = 0 ∨ i = 1 → dict_ok seed a → tab_ok seed (a_tab i a) → small a →
  owns (dict_cells d a) fr h → h !! kp = Some (DString (cstr k)) → dkey_ok k →
  ∃ h' a', delete_in_table d kp (khash seed k) i nofree (DState h g) =
      Done (bool_decide (k ∈ e_key <$> t_ents (a_tab i a)), DState h' g) ∧
    if decide (k ∈ e_key <$> t_ents (a_tab i a))
    then dict_ok seed a' ∧ ∃ e, e_key e = k ∧ a_ents a ≡ₚ e :: a_ents a' ∧
         owns (kept nofree e ++ dict_cells d a') fr h'
    else h' = h ∧ a' = a.
Proof.
  intros Hi Hok Hoki Hsmall Hm Hkp Hk. pose proof Hoki as (Hat & Hsz & Hb). unfold delete_in_table.
  destruct (bucket_lookup seed (a_tab i a) k Hsz Hseed (proj1 Hk)) as [l Hl].
  destruct (bucket_mask seed (a_tab i a) k Hsz Hseed (proj1 Hk)) as [Hmask _].
  run_to (load_dict_at h g d _ (owns_lookup_hd _ _ _ _ _ Hm)). rewrite ht_block by done. cbn zeta.
  rewrite Hmask.
  pose proof (owns_perm _ _ _ _ (dict_cells_bucket d i _ _ a Hi Hat Hl) Hm) as Hmb.
  run_by (apply dict_load_slot_at with ((λ l, chain l) <$> t_buckets (a_tab i a));
          [eapply owns_lookup; [exact Hmb|unfold tab_block; in_cells]|by rewrite list_lookup_fmap, Hl]).
  run_by (reflexivity). cbn [heap].
  assert (readable (chain_cells l) h) as Hrd.
  { apply owns_readable in Hmb. apply readable_cons in Hmb as [_ Hmb]. apply readable_cons in Hmb as [_ Hmb].
    by apply readable_app in Hmb as [? _]. }
  epose proof (delete_in_chain_run d (a_block a) kp k i _ nofree h (S (base.size h)) [] l
            (owns_lookup_hd _ _ _ _ _ Hm) eq_refl Hkp (proj1 Hk) _ _ _) as Hloop.
  change (last_at []) with 0 in Hloop. rewrite Hloop. clear Hloop.
  Unshelve.
  2: { eapply Forall_impl; [by apply (Hb _ _ Hl)|]. by intros e (? & ? & [? _] & _). }
  2: exact Hrd.
  2: { apply owns_size in Hmb. cbn [length] in Hmb. rewrite length_app, length_seg_cells in Hmb. lia. }
  assert (k ∈ e_key <$> t_ents (a_tab i a) ↔ k ∈ e_key <$> l) as Hiff.
  { pose proof (ent_find_bucket _ _ _ _ Hb (nodup_tab g i a Hi Hok) Hl) as Hf.
    pose proof (ent_find_None k l) as H1. pose proof (ent_find_None k (t_ents (a_tab i a))) as H2.
    rewrite Hf in H1. destruct (ent_find k (t_ents (a_tab i a))); [|tauto].
    destruct (decide (k ∈ e_key <$> l)) as [?|Hn]; [|by apply H1 in Hn].
    destruct (decide (k ∈ e_key <$> t_ents (a_tab i a))) as [?|Hn]; [tauto|by apply H2 in Hn]. }
  destruct (ent_split k l) as [[[m1 e] m2]|] eqn:Hsp.
  - pose proof (ent_split_Some _ _ _ _ _ Hsp) as [-> Hke].
    assert (k ∈ e_key <$> t_ents (a_tab i a)) as Hin.
    { apply Hiff. rewrite <-Hke. apply list_elem_of_fmap_2, elem_of_app. right. by apply elem_of_cons; left. }
    destruct (delete_entry_run d a i _ m1 e m2 nofree h Hi Hok Hoki Hl Hsmall Hm)
      as (h' & a' & Hrun & Hm' & Hok' & Hp).
    exists h', a'. cbn [app]. rewrite bool_decide_eq_true_2, decide_True by done. run_to Hrun.
    split; [done|]. split; [done|]. by exists e.
  - apply ent_split_None in Hsp. exists h, a. rewrite bool_decide_eq_false_2, decide_False by tauto. done.
Qed.

(** ** dictGenericDelete *)

Lemma keys_tables k a :
  k ∈ a_keys a ↔ k ∈ e_key <$> t_ents (a_t0 a) ∨ k ∈ e_key <$> t_ents (a_t1 a).
Proof. unfold a_keys, a_ents. by rewrite fmap_app, elem_of_app. Qed.

Lemma dictGenericDelete_run d a h kp k nofree :
  owns (dict_cells d a) fr h → dict_ok seed a → small a →
  fr !! kp = Some (DString (cstr k)) → dkey_ok k →
  ∃ h' a', dictGenericDelete d kp nofree (DState h g) =
      Done (if decide (k ∈ a_keys a) then DICT_OK else DICT_ERR, DState h' g) ∧ dict_ok seed a' ∧
    if decide (k ∈ a_keys a)
    then ∃ e, e_key e = k ∧ a_ents a ≡ₚ e :: a_ents a' ∧ owns (kept nofree e ++ dict_cells d a') fr h'
    else same_ents a a' ∧ owns (dict_cells d a') fr h'.
Proof.
  intros Hm Hok Hsmall Hkp Hk. unfold dictGenericDelete.
  run_to (load_dict_at h g d _ (owns_lookup_hd _ _ _ _ _ Hm)). cbn [a_block ht0 header ht_size].
  destruct (Z.eqb_spec (t_size (a_t0 a)) 0) as [Hsz|Hsz].
  { assert (a_keys a = []) as Hnil.
    { destruct Hok as [[H0 H1 _|(_ & Hs & _) _ _|(_ & Hs & _) _ _ _] _];
        [|apply size_ok_range in Hs; lia..]. unfold a_keys, a_ents. by rewrite H0, H1. }
    assert (k ∉ a_keys a) by (rewrite Hnil; apply not_elem_of_nil).
    exists h, a. rewrite !decide_False by done.
    split; [done|]. split; [done|]. split; [apply same_ents_refl|done]. }
  destruct (rehash_step_run g fr Hseed d a h Hm Hok Hsmall) as (h1 & a1 & Hrun1 & Hm1 & Hok1 & Hs1 & _ & H0).
  specialize (H0 (tables_live g a Hok Hsz)). run_to Hrun1.
  pose proof (owns_frame _ _ _ _ _ Hm1 Hkp) as Hkp1.
  run_to (dictHashKey_run h1 g d (a_block a1) kp k (owns_lookup_hd _ _ _ _ _ Hm1) eq_refl Hkp1 Hk Hseed).
  assert (small a1) as Hsmall1 by (unfold small; by rewrite (same_size _ _ Hs1)).
  assert (k ∈ a_keys a ↔ k ∈ a_keys a1) as Hiff by (unfold a_keys; by rewrite (same_perm _ _ Hs1)).
  rewrite (keys_tables k a1) in Hiff. pose proof (same_perm _ _ Hs1) as Hperm.
  destruct (delete_in_table_run d a1 0 kp k nofree h1 (or_introl eq_refl) Hok1 H0 Hsmall1 Hm1 Hkp1 Hk)
    as (h2 & a2 & Hrun2 & H2). cbn [a_tab Z.eqb] in Hrun2, H2. run_to Hrun2.
  destruct (decide (k ∈ e_key <$> t_ents (a_t0 a1))) as [Hin|Hnin].
  { rewrite bool_decide_eq_true_2 by tauto. destruct (decide (k ∈ a_keys a)); [|tauto].
    destruct H2 as (Hok2 & f & Hke & Hp & Hm2). exists h2, a2. split; [done|]. split; [done|].
    exists f. by rewrite <-Hperm. }
  destruct H2 as [-> ->]. rewrite bool_decide_eq_false_2 by done.
  run_to (load_dict_at h1 g d _ (owns_lookup_hd _ _ _ _ _ Hm1)).
  unfold dictIsRehashing. cbn [a_block rehashidx].
  destruct (Z.eqb_spec (a_idx a1) (-1)) as [Hi|Hi]; cbn [negb].
  { rewrite (tables_single g a1 Hok1 Hi), elem_of_nil in Hiff. destruct (decide (k ∈ a_keys a)); [tauto|]. by exists h1, a1. }
  destruct (delete_in_table_run d a1 1 kp k nofree h1 (or_intror eq_refl) Hok1 (tables_second g a1 Hok1 Hi) Hsmall1 Hm1 Hkp1 Hk)
    as (h2 & a2 & Hrun3 & H2). cbn [a_tab Z.eqb] in Hrun3, H2. run_to Hrun3.
  destruct (decide (k ∈ e_key <$> t_ents (a_t1 a1))) as [Hin|Hnin'].
  - rewrite bool_decide_eq_true_2 by tauto. destruct (decide (k ∈ a_keys a)); [|tauto].
    destruct H2 as (Hok2 & f & Hke & Hp & Hm2). exists h2, a2. split; [done|]. split; [done|].
    exists f. by rewrite <-Hperm.
  - destruct H2 as [-> ->]. rewrite bool_decide_eq_false_2 by tauto. destruct (decide (k ∈ a_keys a)); [tauto|]. by exists h1, a1.
Qed.

Lemma a_map_delete a a' e :
  dict_ok seed a → a_ents a ≡ₚ e :: a_ents a' → a_map a' = delete (e_key e) (a_map a).
Proof.
  intros Hok Hp. rewrite (a_map_cons g a e _ Hok Hp). change (a_map a') with (ents_map (a_ents a')).
  rewrite delete_insert_id; [done|]. rewrite ents_map_find. destruct Hok as [_ Hnd].
  unfold a_keys in Hnd. rewrite Hp in Hnd. apply NoDup_cons in Hnd as [Hnin _].
  apply ent_find_None in Hnin. by rewrite Hnin.
Qed.

(** ** Destruction *)

Lemma set_used_same i u x : i = 0 ∨ i = 1 → used (ht i x) = u → set_ht i (set_used u (ht i x)) x = x.
Proof. intros Hi <-. destruct x as [? ? [] [] ? ?]; by destruct Hi as [->| ->]. Qed.

Lemma clear_chain_run d i x rest l : ∀ fuel h,
  owns ((d, DDict x) :: chain_cells l ++ rest) fr h → copy_key x → i = 0 ∨ i = 1 →
  Z.of_nat (length l) ≤ used (ht i x) < 2 ^ 64 →
  Forall (λ e, e_at e ≠ 0 ∧ e_kp e ≠ 0) l → (length l < fuel)%nat →
  ∃ h', clear_chain fuel d i (chain l) (DState h g) = Done (tt, DState h' g) ∧
    owns ((d, DDict (set_ht i (set_used (used (ht i x) - Z.of_nat (length l)) (ht i x)) x)) :: rest) fr h'.
Proof.
  intros fuel h. revert x fuel h. induction l as [|e l IH]; intros x fuel h Hm Hc Hi Hu Hall Hf;
    (destruct fuel as [|fuel]; [cbn in Hf; lia|]); cbn [clear_chain head_or].
  - exists h. split; [done|]. cbn [length Z.of_nat]. rewrite Z.sub_0_r.
    by rewrite set_used_same.
  - apply Forall_cons in Hall as [[Ha Hkp] Hall]. destruct (Z.eqb_spec (e_at e) 0); [done|].
    cbn [seg_cells app length] in *.
    run_by (apply load_entry_at; eapply owns_lookup; [exact Hm|in_cells]). cbn [next].
    erewrite bind_done; [|eapply dictFreeKey_run; [by eapply owns_lookup_hd|done|done|];
        cbn [key]; eapply owns_lookup; [exact Hm|in_cells]]. cbn beta.
    apply (owns_perm _ ((e_kp e, DString (cstr (e_key e))) :: (d, DDict x) ::
        (e_at e, DEntry (DictEntry (e_kp e) (e_val e) (chain l))) :: chain_cells l ++ rest)) in Hm; [|solve_Permutation].
    apply owns_free in Hm.
    erewrite bind_done; [|eapply dictFreeVal_run; [by eapply owns_lookup_hd|done]]. cbn beta.
    eapply owns_perm in Hm; [|apply Permutation_swap].
    run_to (dict_free_at _ g _ _ Ha (owns_lookup_hd _ _ _ _ _ Hm)). apply owns_free in Hm.
    run_to (modify_dict_at _ g d _ (λ x, set_ht i (set_used (u64 (used (ht i x) - 1)) (ht i x)) x)
              (owns_lookup_hd _ _ _ _ _ Hm)).
    own_store Hm. rewrite u64_small in Hm |- * by lia.
    assert (∀ u, ht i (set_ht i (set_used u (ht i x)) x) = set_used u (ht i x)) as Hht.
    { intros u. by destruct Hi as [->| ->]. }
    edestruct IH as (h' & Hrun & Hm'); [exact Hm|by apply set_ht_copy_key|done|rewrite Hht; cbn [set_used used]; lia|done| |].
    { instantiate (1 := fuel). lia. }
    exists h'. split; [exact Hrun|]. rewrite Hht in Hm'. cbn [set_used used] in Hm'.
    replace (used (ht i x) - Z.of_nat (S (length l))) with (used (ht i x) - 1 - Z.of_nat (length l)) by lia.
    eapply owns_perm; [|exact Hm']. destruct x as [? ? [] [] ? ?]; by destruct Hi as [->| ->].
Qed.

Lemma clear_buckets_run d i tp rest bs : ∀ fuel n h x,
  owns ((d, DDict x) :: (tp, DTable ((λ l, chain l) <$> bs)) :: bucket_cells (drop n bs) ++ rest) fr h →
  copy_key x → i = 0 ∨ i = 1 → table (ht i x) = tp → ht_size (ht i x) = Z.of_nat (length bs) →
  used (ht i x) = Z.of_nat (length (concat (drop n bs))) → used (ht i x) < 2 ^ 64 →
  Z.of_nat (length bs) < 2 ^ 63 →
  Forall (Forall (λ e, e_at e ≠ 0 ∧ e_kp e ≠ 0)) bs → (n ≤ length bs)%nat → (length bs - n < fuel)%nat →
  ∃ h', clear_buckets fuel d i (Z.of_nat n) (DState h g) = Done (tt, DState h' g) ∧
    owns ((d, DDict (set_ht i (set_used 0 (ht i x)) x)) :: (tp, DTable ((λ l, chain l) <$> bs)) :: rest) fr h'.
Proof.
  induction fuel as [|fuel IH]; intros n h x Hm Hc Hi Htp Hsz Hu Hu64 Hlen Hall Hn Hf; [lia|].
  cbn [clear_buckets]. run_to (load_dict_at h g d _ (owns_lookup_hd _ _ _ _ _ Hm)).
  rewrite Hsz.
  destruct (Z.ltb_spec (Z.of_nat n) (Z.of_nat (length bs))) as [Hlt|Hge]; cbn [andb].
  2: { rewrite drop_ge in Hm, Hu by lia. cbn in Hu. exists h. split; [done|].
       by rewrite set_used_same. }
  destruct (Z.ltb_spec 0 (used (ht i x))) as [Hpos|Hzero].
  2: { assert (bucket_cells (drop n bs) = []) as Hnil.
       { apply length_zero_iff_nil. rewrite length_bucket_cells. lia. }
       rewrite Hnil in Hm. exists h. split; [done|].
       rewrite set_used_same by (done || lia). done. }
  destruct (lookup_lt_is_Some_2 bs n) as [l Hl]; [lia|].
  rewrite (drop_S bs l n Hl) in Hm, Hu. cbn [concat] in Hu. rewrite length_app in Hu.
  change (bucket_cells (l :: drop (S n) bs)) with (chain_cells l ++ bucket_cells (drop (S n) bs)) in Hm.
  rewrite Htp. run_by (apply dict_load_slot_at with ((λ l, chain l) <$> bs);
    [eapply owns_lookup; [exact Hm|in_cells]|by rewrite list_lookup_fmap, Hl]).
  run_by (reflexivity). cbn [heap].
  pose proof (owns_size _ _ _ Hm) as Hsize. cbn [length] in Hsize. rewrite !length_app, length_seg_cells in Hsize.
  apply (owns_perm _ ((d, DDict x) :: chain_cells l ++ (tp, DTable ((λ l, chain l) <$> bs)) ::
            bucket_cells (drop (S n) bs) ++ rest)) in Hm; [|solve_Permutation].
  destruct (clear_chain_run d i x _ l (S (base.size h)) h Hm Hc Hi) as (h1 & Hrun1 & Hm1);
    [lia|exact (Forall_lookup_1 _ bs _ l Hall Hl)|lia|].
  run_to Hrun1. rewrite u64_small by lia. replace (Z.of_nat n + 1) with (Z.of_nat (S n)) by lia.
  assert (∀ u, ht i (set_ht i (set_used u (ht i x)) x) = set_used u (ht i x)) as Hht.
  { intros u. by destruct Hi as [->| ->]. }
  edestruct IH as (h' & Hrun & Hm'); [exact Hm1|by apply set_ht_copy_key|done|by rewrite Hht|by rewrite Hht|
    rewrite Hht; cbn [set_used used]; lia|rewrite Hht; cbn [set_used used]; lia|done|done|lia|lia|].
  exists h'. split; [exact Hrun|]. eapply owns_perm; [|exact Hm']. rewrite Hht.
  destruct x as [? ? [] [] ? ?]; by destruct Hi as [->| ->].
Qed.

Lemma dictClear_run d a i h :
  i = 0 ∨ i = 1 → (tab_ok seed (a_tab i a) ∨ a_tab i a = null_tab) → small a → owns (dict_cells d a) fr h →
  ∃ h', _dictClear d i (DState h g) = Done (DICT_OK, DState h' g) ∧
    owns (dict_cells d (with_tab i null_tab a)) fr h'.
Proof.
  intros Hi Hok Hsmall Hm. unfold _dictClear.
  run_to (load_dict_at h g d _ (owns_lookup_hd _ _ _ _ _ Hm)). rewrite ht_block by done. cbn [header ht_size].
  assert (∀ x, set_ht i null_ht (set_ht i x (a_block a)) = a_block (with_tab i null_tab a)) as Hblock.
  { intros x. by destruct Hi as [->| ->]. }
  assert (owns ((d, DDict (a_block a)) :: tab_cells (a_tab i a) ++ tab_cells (a_tab (1 - i) a)) fr h) as Hm0.
  { eapply owns_perm; [|exact Hm]. rewrite (dict_cells_tab i a d Hi). solve_Permutation. }
  destruct Hok as [(Hat & Hsz & Hb)|Hnull].
  - pose proof (size_ok_range _ Hsz) as Hr. rewrite (tab_cells_nonnull _ Hat) in Hm0.
    edestruct (clear_buckets_run d i (t_at (a_tab i a)) (tab_cells (a_tab (1 - i) a)) (t_buckets (a_tab i a))
      (S (Z.to_nat (t_size (a_tab i a)))) 0 h (a_block a)) as (h1 & Hrun1 & Hm1).
    1: exact Hm0. 1: done. 1: done. 1, 2, 3: by rewrite ht_block.
    1: { rewrite ht_block by done. unfold small in Hsmall. rewrite (a_ents_tab i a Hi), length_app in Hsmall.
         cbn [header used]. unfold t_used. lia. }
    1: unfold t_size in Hr; lia.
    1: { apply Forall_lookup_2. intros j l Hl. eapply Forall_impl; [by apply (Hb _ _ Hl)|].
         by intros e (? & ? & _). }
    1: lia. 1: unfold t_size; lia.
    run_to Hrun1. run_to (load_dict_at _ g d _ (owns_lookup_hd _ _ _ _ _ Hm1)).
    rewrite ht_block in Hm1 |- * by done.
    assert (table (ht i (set_ht i (set_used 0 (header (a_tab i a))) (a_block a))) = t_at (a_tab i a)) as ->.
    { by destruct Hi as [->| ->]. }
    eapply owns_perm in Hm1; [|apply Permutation_swap].
    run_to (dict_free_at _ g _ _ Hat (owns_lookup_hd _ _ _ _ _ Hm1)). apply owns_free in Hm1.
    unfold _dictReset. run_to (modify_dict_at _ g d _ (set_ht i null_ht) (owns_lookup_hd _ _ _ _ _ Hm1)).
    own_store Hm1. rewrite Hblock in Hm1 |- *. eexists. split; [reflexivity|].
    eapply owns_perm; [|exact Hm1]. by rewrite (dict_cells_tab i _ d Hi), a_tab_with, a_tab_with_other by done.
  - rewrite Hnull. cbn [null_tab t_size t_buckets length Z.of_nat Z.to_nat clear_buckets].
    unfold t_size. cbn [null_tab t_buckets length Z.of_nat Z.to_nat clear_buckets].
    assert (ht i (a_block a) = null_ht) as Hht by (rewrite ht_block by done; by rewrite Hnull).
    erewrite bind_done.
    2: { run_to (load_dict_at h g d _ (owns_lookup_hd _ _ _ _ _ Hm)). rewrite Hht. reflexivity. }
    cbn beta. run_to (load_dict_at h g d _ (owns_lookup_hd _ _ _ _ _ Hm)). rewrite Hht. cbn [null_ht table].
    run_to (free_null h g). unfold _dictReset.
    run_to (modify_dict_at _ g d _ (set_ht i null_ht) (owns_lookup_hd _ _ _ _ _ Hm)).
    unfold dict_cells in Hm. own_store Hm. eexists. split; [reflexivity|].
    assert (with_tab i null_tab a = a) as -> by (rewrite <-Hnull; apply with_tab_id).
    assert (set_ht i null_ht (a_block a) = a_block a) as Hsame.
    { rewrite <-Hht. destruct a as [? [] [] ? ?]; by destruct Hi as [->| ->]. }
    rewrite Hsame in Hm |- *. exact Hm.
Qed.

Lemma both_null d a : dict_cells d (ADict (a_priv a) null_tab null_tab (a_idx a) (a_iters a)) =
  [(d, DDict (Dict dictTypeHeapStringCopyKey (a_priv a) null_ht null_ht (a_idx a) (a_iters a)))].
Proof. done. Qed.

Lemma tab_state a i : i = 0 ∨ i = 1 → dict_ok seed a → tab_ok seed (a_tab i a) ∨ a_tab i a = null_tab.
Proof. intros [->| ->] [[? ? _|? ? _|? ? _ _] _]; cbn; auto. Qed.

Lemma clear_both_run d a h :
  dict_ok seed a → small a → owns (dict_cells d a) fr h →
  ∃ h1 h2, _dictClear d 0 (DState h g) = Done (DICT_OK, DState h1 g) ∧
    _dictClear d 1 (DState h1 g) = Done (DICT_OK, DState h2 g) ∧
    owns [(d, DDict (Dict dictTypeHeapStringCopyKey (a_priv a) null_ht null_ht (a_idx a) (a_iters a)))] fr h2.
Proof.
  intros Hok Hsmall Hm.
  destruct (dictClear_run d a 0 h (or_introl eq_refl) (tab_state a 0 (or_introl eq_refl) Hok) Hsmall Hm)
    as (h1 & Hrun1 & Hm1).
  destruct (dictClear_run d (with_tab 0 null_tab a) 1 h1 (or_intror eq_refl)
              (tab_state a 1 (or_intror eq_refl) Hok)) as (h2 & Hrun2 & Hm2); [|exact Hm1|].
  - unfold small, a_ents in *. cbn. rewrite length_app in Hsmall. lia.
  - by exists h1, h2.
Qed.
End run.
