(* ===== verification/DictMap.v ===== *)
(** * DictMap: the finite map a dictionary represents

    [drepr g d M fr s]: in state [s], with global settings [g], the
    dictionary at [d] is valid and represents the map [M], and the rest of
    the memory is exactly the frame [fr] (which holds the callers' strings).
    The specification of every public operation on that level, from the runs
    of DictOps and DictDelete. *)

From S2P Require Import Prelude.
From S2P Require Import Own.
From S2P Require Import Heap.
From S2P Require Import DictHash.
From S2P Require Import Dict.
From S2P Require Import DictMem.
From S2P Require Import DictProofs.
From S2P Require Import DictRehash.
From S2P Require Import DictOps.
From S2P Require Import DictDelete.
From S2P Require Import MapSpec.

Definition seed_ok (g : dict_globals) : Prop := 0 <= dict_hash_function_seed g < 2 ^ 32.

(** The dictionary at [d], with the given abstract contents. *)
Definition dict_at (g : dict_globals) (d : Z) (a : adict) (fr : dheap) (s : dstate) : Prop :=
  ∃ h, s = DState h g ∧ owns (dict_cells d a) fr h ∧ dict_ok (dict_hash_function_seed g) a ∧
       small a ∧ seed_ok g.

Definition drepr (g : dict_globals) (d : Z) (M : kvmap) (fr : dheap) (s : dstate) : Prop :=
  ∃ a, dict_at g d a fr s ∧ a_map a = M.

(** A caller's string: a block of the frame. *)
Definition key_at (fr : dheap) (kp : Z) (k : list Z) : Prop :=
  fr !! kp = Some (DString (cstr k)) ∧ dkey_ok k.

Lemma length_a_ents seed a : dict_ok seed a → length (a_ents a) = size (a_map a).
Proof.
  intros [_ Hnd]. unfold a_map, a_keys in *. rewrite map_size_list_to_map.
  - by rewrite length_fmap.
  - by rewrite <-list_fmap_compose.
Qed.

(** The bound on the number of keys below which the tables stay small enough
    for the [int] indices of the code. *)
Definition map_limit : Z := 2 ^ 28.

Lemma room_size seed a : dict_ok seed a → Z.of_nat (size (a_map a)) < map_limit → room a.
Proof. intros Hok Hsz. unfold room. by rewrite (length_a_ents seed a Hok). Qed.

Section spec.
Context {A : Allocator dblock} {AS : AllocSpec A} {AT : AllocTotal A}.
Implicit Types (g : dict_globals) (M : kvmap) (fr : dheap) (s : dstate) (k : list Z).

Lemma drepr_intro g d a a' fr h :
  owns (dict_cells d a') fr h → dict_ok (dict_hash_function_seed g) a' → small a' → seed_ok g →
  a_map a' = a_map a → drepr g d (a_map a) fr (DState h g).
Proof. intros Hm Hok Hsm Hs Heq. exists a'. split; [|done]. by exists h. Qed.

Lemma same_small a a' : same_ents a a' → small a → small a'.
Proof. intros Hs Hsm. unfold small. by rewrite (same_size _ _ Hs). Qed.

(** ** Creation *)

Lemma dictCreate_spec g fr : seed_ok g →
  ∃ d s', dictCreate dictTypeHeapStringCopyKey 0 (DState fr g) = Done (d, s') ∧ drepr g d ∅ fr s' ∧ d ≠ 0.
Proof.
  intros Hs. unfold dictCreate. destruct (alloc_total fr SIZEOF_DICT) as [d Hd].
  pose proof (alloc_fresh _ _ _ Hd) as Hfresh. pose proof (alloc_pos _ _ _ Hd) as Hpos.
  run_by (unfold malloc_block; cbn [heap]; rewrite Hd; reflexivity). cbn [set_heap globals].
  pose proof (owns_alloc [] fr fr d (DDict (Dict dictTypeHeapStrings indeterminate garbage_ht garbage_ht
     indeterminate indeterminate)) Hfresh (proj2 (owns_nil fr fr) eq_refl)) as Hm.
  erewrite bind_done.
  2: { unfold _dictInit, _dictReset.
       run_to (modify_dict_at _ g d _ (set_ht 0 null_ht) (owns_lookup_hd _ _ _ _ _ Hm)). own_store Hm.
       run_to (modify_dict_at _ g d _ (set_ht 1 null_ht) (owns_lookup_hd _ _ _ _ _ Hm)). own_store Hm.
       run_to (modify_dict_at _ g d _ (λ x, Dict dictTypeHeapStringCopyKey (privdata x) (ht0 x) (ht1 x)
                 (rehashidx x) (iterators x)) (owns_lookup_hd _ _ _ _ _ Hm)). own_store Hm.
       run_to (modify_dict_at _ g d _ (λ x, Dict (type x) 0 (ht0 x) (ht1 x)
                 (rehashidx x) (iterators x)) (owns_lookup_hd _ _ _ _ _ Hm)). own_store Hm.
       run_to (modify_dict_at _ g d _ (set_rehashidx (-1)) (owns_lookup_hd _ _ _ _ _ Hm)). own_store Hm.
       run_to (modify_dict_at _ g d _ (set_iterators 0) (owns_lookup_hd _ _ _ _ _ Hm)). own_store Hm.
       reflexivity. }
  cbn beta. rewrite !insert_insert_eq. exists d. eexists. split; [reflexivity|]. split; [|lia].
  exists (ADict 0 null_tab null_tab (-1) 0). split; [|done].
  eexists. split; [reflexivity|]. split; [|split; [|by split]].
  - change (dict_cells d (ADict 0 null_tab null_tab (-1) 0)) with
      [(d, DDict (Dict dictTypeHeapStringCopyKey 0 null_ht null_ht (-1) 0))].
    apply (owns_alloc [] fr fr d _ Hfresh). by apply owns_nil.
  - split; [by apply TablesNone|]. apply NoDup_nil_2.
Qed.

(** ** Lookup *)

Lemma dictFind_spec g d M fr s kp k :
  drepr g d M fr s → key_at fr kp k →
  ∃ p s', dictFind d kp s = Done (p, s') ∧ drepr g d M fr s' ∧
    match M !! k with
    | Some v => p ≠ 0 ∧ ∃ e, load_entry p s' = Done (e, s') ∧ val e = v ∧
                             load_string (key e) s' = Done (cstr k, s')
    | None => p = 0
    end.
Proof.
  intros (a & (h & -> & Hm & Hok & Hsm & Hs) & <-) [Hkp Hk].
  destruct (dictFind_run g fr Hs d a h kp k Hm Hok Hsm Hkp Hk) as (h' & a' & Hrun & Hm' & Hok' & Hsame).
  do 2 eexists. split; [exact Hrun|]. split.
  - eapply drepr_intro; try done; [by eapply same_small|by eapply same_map].
  - change (a_map a) with (ents_map (a_ents a)). rewrite ents_map_find, <-(same_find g a a' k Hsame Hok).
    destruct (ent_find k (a_ents a')) as [e|] eqn:Hf; cbn; [|done].
    apply ent_find_Some in Hf as [Hin <-].
    split; [by eapply ent_ptr_nonnull|].
    destruct (load_found g fr d a' h' e Hm' Hok' Hin) as (nxt & Hload).
    eexists. split; [exact Hload|]. split; [done|]. cbn [key].
    apply load_string_at. destruct (locate _ a' e Hok' Hin) as (i & b & l & Hi & (Hat & _) & Hl & He).
    apply list_elem_of_split in He as (l1 & l2 & ->).
    pose proof (owns_perm _ _ _ _ (dict_cells_bucket d i b _ a' Hi Hat Hl) Hm') as Hmb.
    rewrite seg_cells_app in Hmb. cbn [head_or seg_cells] in Hmb. eapply owns_lookup; [exact Hmb|].
    do 2 apply list_elem_of_further. apply elem_of_app; left. apply elem_of_app; right. in_cells.
Qed.

Lemma dictFetchValue_spec g d M fr s kp k :
  drepr g d M fr s → key_at fr kp k →
  ∃ s', dictFetchValue d kp s = Done (default 0 (M !! k), s') ∧ drepr g d M fr s'.
Proof.
  intros (a & (h & -> & Hm & Hok & Hsm & Hs) & <-) [Hkp Hk].
  destruct (dictFetchValue_run g fr Hs d a h kp k Hm Hok Hsm Hkp Hk) as (h' & a' & Hrun & Hm' & Hok' & Hsame).
  eexists. split; [exact Hrun|].
  eapply drepr_intro; try done; [by eapply same_small|by eapply same_map].
Qed.

(** ** Insertion *)

Lemma decide_key {B} a k (x y : B) :
  (if decide (k ∈ a_keys a) then x else y) = (if decide (is_Some (a_map a !! k)) then x else y).
Proof.
  pose proof (a_map_key a k). destruct (decide (k ∈ a_keys a)), (decide (is_Some (a_map a !! k))); tauto.
Qed.

Lemma dict_room_small seed a a' k v :
  dict_ok seed a → dict_ok seed a' → Z.of_nat (size (a_map a)) < map_limit →
  a_map a' = <[k := v]> (a_map a) → small a'.
Proof.
  intros Hok Hok' Hsz Heq. unfold small. rewrite (length_a_ents seed a' Hok'), Heq.
  rewrite map_size_insert. unfold map_limit in *. case_match; unfold id; lia.
Qed.

Lemma dictAdd_spec g d M fr s kp k v :
  drepr g d M fr s → key_at fr kp k → Z.of_nat (size M) < map_limit →
  ∃ s', dictAdd d kp v s =
      Done (if decide (is_Some (M !! k)) then DICT_ERR else DICT_OK, s') ∧
    drepr g d (if decide (is_Some (M !! k)) then M else <[k := v]> M) fr s'.
Proof.
  intros (a & (h & -> & Hm & Hok & Hsm & Hs) & <-) [Hkp Hk] Hsz.
  destruct (dictAdd_run g fr Hs d a h kp k v Hm Hok (room_size _ a Hok Hsz) Hkp Hk)
    as (h' & a' & Hrun & Hm' & Hok' & Hres).
  eexists. split; [rewrite <-decide_key; exact Hrun|]. exists a'.
  rewrite <-decide_key. destruct (decide (k ∈ a_keys a)).
  - split; [|by eapply same_map]. exists h'. split; [done|]. split; [done|]. split; [done|]. split; [|done].
    by eapply same_small.
  - split; [|done]. exists h'. split; [done|]. split; [done|]. split; [done|]. split; [|done].
    exact (dict_room_small _ a a' k v Hok Hok' Hsz Hres).
Qed.

Lemma dictReplace_spec g d M fr s kp k v :
  drepr g d M fr s → key_at fr kp k → Z.of_nat (size M) < map_limit →
  ∃ s', dictReplace d kp v s = Done (if decide (is_Some (M !! k)) then 0 else 1, s') ∧
    drepr g d (<[k := v]> M) fr s'.
Proof.
  intros (a & (h & -> & Hm & Hok & Hsm & Hs) & <-) [Hkp Hk] Hsz.
  destruct (dictReplace_run g fr Hs d a h kp k v Hm Hok (room_size _ a Hok Hsz) Hkp Hk)
    as (h' & a' & Hrun & Hm' & Hok' & Hres).
  eexists. split; [rewrite <-decide_key; exact Hrun|]. exists a'. split; [|done].
  exists h'. split; [done|]. split; [done|]. split; [done|]. split; [|done]. exact (dict_room_small _ a a' k v Hok Hok' Hsz Hres).
Qed.

(** ** Deletion *)

Lemma small_delete a a' e : a_ents a ≡ₚ e :: a_ents a' → small a → small a'.
Proof. intros Hp. unfold small. rewrite Hp. cbn [length]. lia. Qed.

Lemma dictDelete_spec g d M fr s kp k :
  drepr g d M fr s → key_at fr kp k →
  ∃ s', dictDelete d kp s = Done (if decide (is_Some (M !! k)) then DICT_OK else DICT_ERR, s') ∧
    drepr g d (delete k M) fr s'.
Proof.
  intros (a & (h & -> & Hm & Hok & Hsm & Hs) & <-) [Hkp Hk].
  destruct (dictGenericDelete_run g fr Hs d a h kp k 0 Hm Hok Hsm Hkp Hk) as (h' & a' & Hrun & Hok' & Hres).
  eexists. split; [rewrite <-decide_key; exact Hrun|]. exists a'.
  destruct (decide (k ∈ a_keys a)) as [Hin|Hnin].
  - destruct Hres as (e & <- & Hp & Hm'). split; [|by eapply a_map_delete].
    exists h'. split; [done|]. split; [exact Hm'|]. split; [done|]. split; [|done]. by eapply small_delete.
  - destruct Hres as [Hsame Hm']. split.
    + exists h'. split; [done|]. split; [done|]. split; [done|]. split; [|done]. by eapply same_small.
    + rewrite (same_map g a a' Hok Hsame), delete_id; [done|].
      rewrite a_map_key in Hnin. by apply eq_None_not_Some.
Qed.

(** Without freeing: the key's string is left to the caller. *)
Lemma dictDeleteNoFree_spec g d M fr s kp k v :
  drepr g d M fr s → key_at fr kp k → M !! k = Some v →
  ∃ kp' s', dictDeleteNoFree d kp s = Done (DICT_OK, s') ∧ fr !! kp' = None ∧
    drepr g d (delete k M) (<[kp' := DString (cstr k)]> fr) s'.
Proof.
  intros (a & (h & -> & Hm & Hok & Hsm & Hs) & <-) [Hkp Hk] Hv.
  destruct (dictGenericDelete_run g fr Hs d a h kp k 1 Hm Hok Hsm Hkp Hk) as (h' & a' & Hrun & Hok' & Hres).
  assert (k ∈ a_keys a) as Hin by (apply a_map_key; by eexists).
  destruct (decide (k ∈ a_keys a)) as [_|?]; [|done]. destruct Hres as (e & <- & Hp & Hm').
  unfold kept in Hm'. cbn [Z.eqb app] in Hm'.
  exists (e_kp e). eexists. split; [exact Hrun|].
  destruct Hm' as (Hnd & Hfr & Heq). cbn in Hnd. apply NoDup_cons in Hnd as [Hnin Hnd].
  split; [apply Hfr; by apply elem_of_cons; left|].
  exists a'. split; [|by eapply a_map_delete]. exists h'. split; [done|]. split; [|split; [done|split; [|done]]].
  - split; [exact Hnd|]. split.
    + intros x Hx. rewrite lookup_insert_ne by (intros Heqx; by rewrite Heqx in Hnin). apply Hfr. by apply elem_of_cons; right.
    + rewrite Heq. change (list_to_map ((e_kp e, DString (cstr (e_key e))) :: dict_cells d a'))
        with (<[e_kp e := DString (cstr (e_key e))]> (list_to_map (dict_cells d a') : dheap)).
      rewrite <-insert_union_l, insert_union_r; [done|]. by apply not_elem_of_list_to_map_1.
  - by eapply small_delete.
Qed.

(** ** Emptying and releasing *)

Lemma dictEmpty_spec g d M fr s :
  drepr g d M fr s → ∃ s', dictEmpty d s = Done (tt, s') ∧ drepr g d ∅ fr s'.
Proof.
  intros (a & (h & -> & Hm & Hok & Hsm & Hs) & <-).
  destruct (clear_both_run g fr d a h Hok Hsm Hm) as (h1 & h2 & Hrun1 & Hrun2 & Hm2).
  unfold dictEmpty. run_to Hrun1. run_to Hrun2.
  run_to (modify_dict_at _ g d _ (set_rehashidx (-1)) (owns_lookup_hd _ _ _ _ _ Hm2)). own_store Hm2.
  erewrite (modify_dict_at _ g d _ (set_iterators 0)) by exact (owns_lookup_hd _ _ _ _ _ Hm2). own_store Hm2.
  eexists. split; [reflexivity|]. exists (ADict (a_priv a) null_tab null_tab (-1) 0). split; [|done].
  eexists. split; [reflexivity|]. split; [exact Hm2|]. split; [|by split].
  split; [by apply TablesNone|]. apply NoDup_nil_2.
Qed.

Lemma dictRelease_spec g d M fr s :
  drepr g d M fr s → d ≠ 0 → dictRelease d s = Done (tt, DState fr g).
Proof.
  intros (a & (h & -> & Hm & Hok & Hsm & Hs) & <-) Hd.
  destruct (clear_both_run g fr d a h Hok Hsm Hm) as (h1 & h2 & Hrun1 & Hrun2 & Hm2).
  unfold dictRelease. run_to Hrun1. run_to Hrun2.
  rewrite (dict_free_at _ g d _ Hd (owns_lookup_hd _ _ _ _ _ Hm2)). apply owns_free, owns_nil in Hm2. by rewrite Hm2.
Qed.
End spec.

(** ** redisdict.c implements helper.h

    [add], [find], [del] and [clear] take a pointer to the caller's buffer.
    [with_buffer] is such a caller: it owns a buffer holding the key for the
    duration of the call.  With that, redisdict.c satisfies the contract of
    MapSpec for every map of fewer than [map_limit] keys. *)

Definition with_buffer {A : Allocator dblock} {B} (buf : list Z) (call : Z → cmd dstate B) : cmd dstate B :=
  p ← malloc_block (Z.of_nat (length buf)) (DString buf);
  r ← call p;
  _ ← free p;
  mret r.

#[export] Instance dict_impl {A : Allocator dblock} : MapImpl dstate := {|
  map_init := Dict.init;
  map_add obj k v := with_buffer k (λ p, Dict.add obj p v);
  map_find obj k := with_buffer k (λ p, Dict.find obj p);
  map_del obj k := with_buffer k (λ p, Dict.del obj p);
  map_clear := Dict.clear;
|}.

Section instance.
Context {A : Allocator dblock} {AS : AllocSpec A} {AT : AllocTotal A}.
Context (g : dict_globals) (Hg : seed_ok g) (fr : dheap).

Lemma drepr_frame_insert d M s h p b :
  s = DState h g → h !! p = None → drepr g d M fr s →
  drepr g d M (<[p := b]> fr) (DState (<[p := b]> h) g).
Proof.
  intros -> Hp (a & (h' & [= <-] & Hm & Hok & Hsm & Hs) & HM). exists a. split; [|done].
  exists (<[p := b]> h). split; [done|]. split; [by apply owns_frame_insert|done].
Qed.

Lemma drepr_frame_delete d M h p b :
  fr !! p = None → drepr g d M (<[p := b]> fr) (DState h g) → drepr g d M fr (DState (delete p h) g).
Proof.
  intros Hp (a & (h' & [= <-] & Hm & Hok & Hsm & Hs) & HM). exists a. split; [|done].
  exists (delete p h). split; [done|]. split; [|done].
  apply (owns_frame_delete _ _ _ p b) in Hm; [|apply lookup_insert_eq].
  by rewrite delete_insert_id in Hm.
Qed.

Lemma drepr_state d M s : drepr g d M fr s → ∃ h, s = DState h g ∧ drepr g d M fr (DState h g).
Proof. intros (a & (h & -> & H) & HM). exists h. split; [done|]. exists a. split; [by exists h|done]. Qed.

(** A call through a caller's buffer. *)
Lemma with_buffer_spec {B} d M M' k (call : Z → cmd dstate B) r s :
  drepr g d M fr s → dkey_ok k →
  (∀ p fr' s, key_at fr' p k → drepr g d M fr' s →
     ∃ s', call p s = Done (r, s') ∧ drepr g d M' fr' s') →
  ∃ s', with_buffer (cstr k) call s = Done (r, s') ∧ drepr g d M' fr s'.
Proof.
  intros Hs Hk Hcall. destruct (drepr_state d M s Hs) as (h & -> & Hs').
  unfold with_buffer. destruct (alloc_total h (Z.of_nat (length (cstr k)))) as [p Hp].
  pose proof (alloc_fresh _ _ _ Hp) as Hfresh. pose proof (alloc_pos _ _ _ Hp) as Hpos.
  run_by (unfold malloc_block; cbn [heap]; rewrite Hp; reflexivity). cbn [set_heap globals].
  pose proof (drepr_frame_insert d M _ h p (DString (cstr k)) eq_refl Hfresh Hs') as Hins.
  destruct (Hcall p (<[p := DString (cstr k)]> fr) _ ltac:(split; [apply lookup_insert_eq|done]) Hins)
    as (s' & Hrun & Hrep).
  run_to Hrun. pose proof Hrep as (a & (h' & -> & Hm & _) & _).
  assert (h' !! p = Some (DString (cstr k))) as Hp' by (eapply owns_frame; [exact Hm|apply lookup_insert_eq]).
  run_to (dict_free_at h' g p _ ltac:(lia) Hp'). eexists. split; [done|].
  eapply drepr_frame_delete; [|exact Hrep].
  destruct Hs' as (a0 & (h0 & [= <-] & (_ & _ & Heq) & _) & _). rewrite Heq in Hfresh.
  by apply lookup_union_None in Hfresh as [_ ?].
Qed.

#[refine] Instance dict_spec : MapSpec dict_impl := {|
  map_key := dkey_ok;
  map_val := λ _, True;
  map_room := λ n, Z.of_nat n < map_limit;
  map_searchable := λ _ _, True;
  map_repr := λ d M s, drepr g d M fr s;
  map_start := λ s, s = DState fr g;
|}.
Proof.
  - intros s ->. destruct (dictCreate_spec g fr Hg) as (d & s' & Hrun & Hrep & _). by exists d, s'.
  - intros obj M s Hrep. destruct (dictEmpty_spec g obj M fr s Hrep) as (s' & Hrun & _). by exists s'.
  - done.
  - intros obj M s k v Hrep Hk _ Hroom Hnone.
    apply (with_buffer_spec obj M); [done|done|]. intros p fr' s1 Hp Hs1.
    destruct (dictAdd_spec g obj M fr' s1 p k v Hs1 Hp Hroom) as (s' & Hrun & Hrep').
    destruct (decide (is_Some (M !! k))) as [[x Hx]|_]; [congruence|]. by exists s'.
  - intros obj M s k v Hrep Hk _ Hroom Hsome.
    apply (with_buffer_spec obj M); [done|done|]. intros p fr' s1 Hp Hs1.
    destruct (dictAdd_spec g obj M fr' s1 p k v Hs1 Hp Hroom) as (s' & Hrun & Hrep').
    destruct (decide (is_Some (M !! k))); [|done]. by exists s'.
  - intros obj M s k Hrep Hk _. apply (with_buffer_spec obj M); [done|done|]. intros p fr' s1 Hp Hs1.
    destruct (dictFind_spec g obj M fr' s1 p k Hs1 Hp) as (he & s' & Hrun & Hrep' & Hres).
    exists s'. split; [|done]. unfold Dict.find, find_result. run_to Hrun.
    destruct (M !! k) as [v|]; cbn [default from_option].
    + destruct Hres as (Hne & e & Hload & <- & _). destruct (Z.eqb_spec he 0); [done|].
      by run_to Hload.
    + by rewrite Hres.
  - intros obj M s k Hrep Hk. apply (with_buffer_spec obj M); [done|done|]. intros p fr' s1 Hp Hs1.
    apply (dictDelete_spec g obj M fr' s1 p k Hs1 Hp).
Defined.
End instance.
