(* ===== verification/DictScan.v ===== *)
(** * DictScan: the reverse-binary cursor of dictScan

    The cursor is incremented from its high bits down: its [i]-th value over
    a table of [2^p] buckets is the mirror image of [i] shifted to the top
    ([cursor p i]).  A scan of a table that is not being rehashed therefore
    opens every bucket once and stops ([scan_all]).  While a table is being
    shrunk the same loop can skip buckets of the larger table. *)

From S2P Require Import Prelude.
From S2P Require Import Own.
From S2P Require Import Heap.
From S2P Require Import DictHash.
From S2P Require Import Dict.
From S2P Require Import DictMem.
From S2P Require Import DictProofs.
From S2P Require Import DictRehash.
From S2P Require Import DictOps.
From S2P Require Import DictMap.
From S2P Require Import MapSpec.

(** A complete scan: from cursor 0 until the cursor is 0 again. *)
Fixpoint scan_from {A : Allocator dblock} (fuel : nat) (d v : Z) : cmd dstate (list Z) :=
  match fuel with
  | O => nofuel
  | S fuel =>
      '(v, l) ← dictScan d v;
      if v =? 0 then mret l else l' ← scan_from fuel d v; mret (l ++ l')
  end.

(** ** The cursor *)

Definition cursor (p i : Z) : Z := rev_pure (i * 2 ^ (64 - p)).

Lemma pow2_pos n : 0 ≤ n → 0 < 2 ^ n.
Proof. intros. apply Z.pow_pos_nonneg; lia. Qed.

Lemma pow2_split p : 0 ≤ p ≤ 64 → 2 ^ p * 2 ^ (64 - p) = 2 ^ 64.
Proof. intros. rewrite <-Z.pow_add_r by lia. f_equal. lia. Qed.

Lemma bits_eq_64 x y :
  0 ≤ x < 2 ^ 64 → 0 ≤ y < 2 ^ 64 → (∀ i, 0 ≤ i < 64 → Z.testbit x i = Z.testbit y i) → x = y.
Proof.
  intros Hx Hy H. apply Z.bits_inj'. intros i Hi. destruct (Z.lt_ge_cases i 64) as [Hlt|Hge].
  - by apply H.
  - by rewrite !(testbit_above 64) by lia.
Qed.

Lemma rev_pure_involutive v : 0 ≤ v < 2 ^ 64 → rev_pure (rev_pure v) = v.
Proof.
  intros Hv. apply bits_eq_64; [apply rev_pure_range; pose proof (rev_pure_range v); lia|done|].
  intros i Hi. rewrite !rev_pure_testbit by lia. f_equal. lia.
Qed.

Section cursor.
Context (p : Z) (Hp : 0 <= p <= 62).

Lemma shifted_range i : 0 ≤ i < 2 ^ p → 0 ≤ i * 2 ^ (64 - p) < 2 ^ 64.
Proof.
  intros Hi. pose proof (pow2_split p ltac:(lia)). pose proof (pow2_pos (64 - p) ltac:(lia)). nia.
Qed.

Lemma shifted_testbit i j : 0 ≤ j → Z.testbit (i * 2 ^ (64 - p)) j = Z.testbit i (j - (64 - p)).
Proof. intros Hj. by rewrite Z.mul_pow2_bits by lia. Qed.

Lemma cursor_range i : 0 ≤ i < 2 ^ p → 0 ≤ cursor p i < 2 ^ p.
Proof.
  intros Hi. pose proof (shifted_range i Hi) as Hs. pose proof (rev_pure_range (i * 2 ^ (64 - p)) ltac:(lia)) as Hr.
  unfold cursor in *. split; [lia|]. apply bounded_testbit; [lia|lia|]. intros j Hj.
  destruct (Z.lt_ge_cases j 64) as [Hlt|Hge]; [|by apply (testbit_above 64)].
  rewrite rev_pure_testbit, shifted_testbit by lia. apply Z.testbit_neg_r. lia.
Qed.

Lemma cursor_inj i j : 0 ≤ i < 2 ^ p → 0 ≤ j < 2 ^ p → cursor p i = cursor p j → i = j.
Proof.
  intros Hi Hj Heq. unfold cursor in Heq. apply (f_equal rev_pure) in Heq.
  rewrite !rev_pure_involutive in Heq by (by apply shifted_range).
  pose proof (pow2_pos (64 - p) ltac:(lia)). nia.
Qed.

Lemma cursor_0 : cursor p 0 = 0.
Proof. unfold cursor. rewrite Z.mul_0_l. reflexivity. Qed.

Lemma cursor_mask i : 0 ≤ i < 2 ^ p → Z.land (cursor p i) (2 ^ p - 1) = cursor p i.
Proof.
  intros Hi. replace (2 ^ p - 1) with (Z.ones p) by (rewrite Z.ones_equiv; lia).
  rewrite Z.land_ones by lia. apply Z.mod_small. by apply cursor_range.
Qed.

(** Bits of [~m0] for the mask of a table of [2^p] buckets. *)
Lemma lnot_mask_testbit j : 0 ≤ j < 64 → Z.testbit (u64 (Z.lnot (2 ^ p - 1))) j = (p <=? j).
Proof.
  intros Hj. rewrite testbit_u64 by done. rewrite Z.lnot_spec by lia.
  replace (2 ^ p - 1) with (Z.ones p) by (rewrite Z.ones_equiv; lia).
  rewrite Z.testbit_ones by lia. destruct (Z.leb_spec 0 j), (Z.ltb_spec j p), (Z.leb_spec p j); done || lia.
Qed.

Lemma u64_nonneg z : 0 ≤ u64 z < 2 ^ 64.
Proof. apply Z.mod_pos_bound. lia. Qed.

Lemma lor_range x y : 0 ≤ x < 2 ^ 64 → 0 ≤ y < 2 ^ 64 → 0 ≤ Z.lor x y < 2 ^ 64.
Proof.
  intros Hx Hy. assert (0 ≤ Z.lor x y) by (apply Z.lor_nonneg; lia). split; [done|].
  apply bounded_testbit; [lia|done|]. intros j Hj. by rewrite Z.lor_spec, !(testbit_above 64) by lia.
Qed.

(** One step of the cursor. *)
Lemma scan_next_cursor i :
  0 ≤ i < 2 ^ p →
  scan_next (2 ^ p - 1) (cursor p i) = Done (if i + 1 =? 2 ^ p then 0 else cursor p (i + 1)).
Proof.
  intros Hi. pose proof (cursor_range i Hi) as Hc. pose proof (shifted_range i Hi) as Hs.
  pose proof (pow2_pos (64 - p) ltac:(lia)) as Hq. pose proof (pow2_split p ltac:(lia)) as Hsplit.
  pose proof (Z.pow_le_mono_r 2 p 62 ltac:(lia) ltac:(lia)) as Hp62.
  unfold scan_next. rewrite rev_pure_eq.
  assert (i * 2 ^ (64 - p) + (2 ^ (64 - p) - 1) = Z.lor (i * 2 ^ (64 - p)) (Z.ones (64 - p))) as Hlow.
  { replace (2 ^ (64 - p) - 1) with (Z.ones (64 - p)) by (rewrite Z.ones_equiv; lia).
    rewrite <-(Z.add_lor_land (i * 2 ^ (64 - p))), Z.land_ones by lia.
    rewrite Z.mod_mul by lia. lia. }
  assert (rev_pure (Z.lor (cursor p i) (u64 (Z.lnot (2 ^ p - 1)))) = i * 2 ^ (64 - p) + (2 ^ (64 - p) - 1)) as ->.
  { apply bits_eq_64.
    - apply rev_pure_range, lor_range; [lia|apply u64_nonneg].
    - nia.
    - intros j Hj. rewrite Hlow, rev_pure_testbit, !Z.lor_spec, lnot_mask_testbit by lia.
      unfold cursor. rewrite rev_pure_testbit, Z.testbit_ones by lia.
      replace (63 - (63 - j)) with j by lia. f_equal.
      destruct (Z.leb_spec p (63 - j)), (Z.leb_spec 0 j), (Z.ltb_spec j (64 - p)); done || lia. }
  cbn [mbind outcome_bind]. rewrite rev_pure_eq. f_equal.
  replace (i * 2 ^ (64 - p) + (2 ^ (64 - p) - 1) + 1) with ((i + 1) * 2 ^ (64 - p)) by lia.
  destruct (Z.eqb_spec (i + 1) (2 ^ p)) as [->|Hne].
  - rewrite Hsplit. reflexivity.
  - unfold cursor. rewrite u64_small by nia. done.
Qed.
End cursor.

(** ** Scanning the memory of a dictionary *)

Section run.
Context {A : Allocator dblock}.
Context (g : dict_globals) (fr : dheap).
Notation seed := (dict_hash_function_seed g).
Implicit Types (h : dheap) (a : adict).

Lemma scan_chain_run l : ∀ fuel h,
  Forall (λ e, e_at e ≠ 0) l → readable (chain_cells l) h → (length l < fuel)%nat →
  scan_chain fuel (chain l) (DState h g) = Done (e_at <$> l, DState h g).
Proof.
  induction l as [|e l IH]; intros [|fuel] h Hall Hrd Hf; [cbn in Hf; lia|done|cbn in Hf; lia|].
  cbn [scan_chain head_or]. apply Forall_cons in Hall as [Ha Hall]. destruct (Z.eqb_spec (e_at e) 0); [done|].
  cbn [seg_cells] in Hrd. apply readable_cons in Hrd as [He Hrd]. apply readable_cons in Hrd as [_ Hrd].
  run_to (load_entry_at h g (e_at e) _ He). cbn [next]. cbn in Hf.
  run_to (IH fuel h Hall Hrd ltac:(lia)). done.
Qed.

Lemma scan_bucket_run d a i b l h :
  i = 0 ∨ i = 1 → tab_ok seed (a_tab i a) → t_buckets (a_tab i a) !! b = Some l →
  owns (dict_cells d a) fr h →
  scan_bucket (t_at (a_tab i a)) (Z.of_nat b) (DState h g) = Done (e_at <$> l, DState h g).
Proof.
  intros Hi (Hat & Hsz & Hb) Hl Hm. unfold scan_bucket.
  rewrite (dict_cells_bucket d i b l a Hi Hat Hl) in Hm.
  run_by (apply dict_load_slot_at with ((λ l, chain l) <$> t_buckets (a_tab i a));
          [eapply owns_lookup; [exact Hm|unfold tab_block; in_cells]|by rewrite list_lookup_fmap, Hl]).
  run_by (reflexivity). cbn [heap]. apply scan_chain_run.
  - eapply Forall_impl; [by apply (Hb _ _ Hl)|]. by intros e [? _].
  - apply owns_readable in Hm. apply readable_cons in Hm as [_ Hm]. apply readable_cons in Hm as [_ Hm].
    by apply readable_app in Hm as [? _].
  - apply owns_size in Hm. cbn [length] in Hm. rewrite length_app, length_seg_cells in Hm. lia.
Qed.

(** The entries the cursor values from [i] on lead to. *)
Definition bucket_at (a : adict) (v : Z) : list Z := e_at <$> default [] (t_buckets (a_t0 a) !! Z.to_nat v).
Definition scanned (a : adict) (p : Z) (vs : list Z) : list Z := concat (bucket_at a <$> (cursor p <$> vs)).

Lemma dictScan_stable d a p i h :
  0 ≤ p ≤ 30 → t_size (a_t0 a) = 2 ^ p → 0 ≤ i < 2 ^ p →
  owns (dict_cells d a) fr h → tab_ok seed (a_t0 a) → a_idx a = -1 → a_t1 a = null_tab →
  small a → a_ents a ≠ [] →
  dictScan d (cursor p i) (DState h g) =
  Done ((if i + 1 =? 2 ^ p then 0 else cursor p (i + 1), bucket_at a (cursor p i)), DState h g).
Proof.
  intros Hp Hsz Hi Hm Hok Hidx H1 Hsmall Hne. unfold dictScan.
  run_to (load_dict_at h g d _ (owns_lookup_hd _ _ _ _ _ Hm)).
  unfold dictSize, dictIsRehashing. cbn [a_block ht0 ht1 header used rehashidx sizemask table].
  assert (t_used (a_t0 a) + t_used (a_t1 a) = Z.of_nat (length (a_ents a))) as ->.
  { unfold t_used, a_ents. rewrite length_app. lia. }
  rewrite u64_small by (unfold small in Hsmall; lia).
  destruct (Z.eqb_spec (Z.of_nat (length (a_ents a))) 0) as [Hz|_].
  { destruct (a_ents a); [done|cbn in Hz; lia]. }
  rewrite Hidx. cbn [Z.eqb Pos.eqb negb]. rewrite Hsz.
  destruct (Z.eqb_spec (2 ^ p) 0) as [Hz|_]; [pose proof (pow2_pos p ltac:(lia)); lia|].
  rewrite (cursor_mask p ltac:(lia) i Hi). pose proof (cursor_range p ltac:(lia) i Hi) as Hc.
  destruct (lookup_lt_is_Some_2 (t_buckets (a_t0 a)) (Z.to_nat (cursor p i))) as [l Hl].
  { unfold t_size in Hsz. lia. }
  rewrite <-(Z2Nat.id (cursor p i)) at 1 by lia.
  run_to (scan_bucket_run d a 0 (Z.to_nat (cursor p i)) l h (or_introl eq_refl) Hok Hl Hm).
  rewrite (scan_next_cursor p ltac:(lia) i Hi). run_by (apply lift_done).
  unfold bucket_at. by rewrite Hl.
Qed.

Lemma scan_from_run d a p h :
  0 ≤ p ≤ 30 → t_size (a_t0 a) = 2 ^ p →
  owns (dict_cells d a) fr h → tab_ok seed (a_t0 a) → a_idx a = -1 → a_t1 a = null_tab →
  small a → a_ents a ≠ [] →
  ∀ fuel i, 0 ≤ i < 2 ^ p → 2 ^ p - i ≤ Z.of_nat fuel →
  scan_from fuel d (cursor p i) (DState h g) =
  Done (scanned a p (seqZ i (2 ^ p - i)), DState h g).
Proof.
  intros Hp Hsz Hm Hok Hidx H1 Hsmall Hne. induction fuel as [|fuel IH]; intros i Hi Hf; [lia|].
  cbn [scan_from]. run_to (dictScan_stable d a p i h Hp Hsz Hi Hm Hok Hidx H1 Hsmall Hne).
  rewrite (seqZ_cons i) by lia. unfold scanned. cbn [fmap list_fmap concat].
  fold (scanned a p (seqZ (Z.succ i) (Z.pred (2 ^ p - i)))).
  destruct (Z.eqb_spec (i + 1) (2 ^ p)) as [He|Hne'].
  - cbn [Z.eqb]. replace (Z.pred (2 ^ p - i)) with 0 by lia. cbn. by rewrite app_nil_r.
  - destruct (Z.eqb_spec (cursor p (i + 1)) 0) as [Hz|_].
    { rewrite <-(cursor_0 p) in Hz. apply (cursor_inj p ltac:(lia)) in Hz; lia. }
    replace (Z.pred (2 ^ p - i)) with (2 ^ p - (i + 1)) by lia. change (Z.succ i) with (i + 1).
    run_to (IH (i + 1) ltac:(lia) ltac:(lia)). done.
Qed.

(** The cursor values are the bucket numbers, in another order. *)
Lemma cursors_perm p : 0 ≤ p ≤ 30 → cursor p <$> seqZ 0 (2 ^ p) ≡ₚ seqZ 0 (2 ^ p).
Proof.
  intros Hp. apply submseteq_length_Permutation; [|by rewrite length_fmap].
  apply NoDup_submseteq.
  - apply NoDup_fmap_2_strong; [|apply NoDup_seqZ]. intros i j Hi%elem_of_seqZ Hj%elem_of_seqZ.
    apply cursor_inj; lia.
  - intros x (i & -> & Hi%elem_of_seqZ)%list_elem_of_fmap. apply elem_of_seqZ.
    pose proof (cursor_range p ltac:(lia) i ltac:(lia)). lia.
Qed.

Lemma all_buckets a :
  concat (bucket_at a <$> seqZ 0 (t_size (a_t0 a))) = e_at <$> t_ents (a_t0 a).
Proof.
  unfold t_ents. rewrite fmap_concat. f_equal. apply list_eq. intros n.
  rewrite !list_lookup_fmap. unfold bucket_at, t_size.
  destruct (decide (n < length (t_buckets (a_t0 a)))%nat) as [Hlt|Hge].
  - destruct (lookup_lt_is_Some_2 (t_buckets (a_t0 a)) n Hlt) as [l Hl].
    rewrite Hl, lookup_seqZ_lt by lia. cbn [fmap option_fmap option_map].
    rewrite Z.add_0_l, Nat2Z.id. by rewrite Hl.
  - rewrite lookup_seqZ_ge by lia. rewrite (lookup_ge_None_2 (t_buckets (a_t0 a)) n) by lia. done.
Qed.

Lemma scan_all_run d a h p :
  owns (dict_cells d a) fr h → dict_ok seed a → small a → a_idx a = -1 → a_ents a ≠ [] →
  0 ≤ p ≤ 30 → t_size (a_t0 a) = 2 ^ p →
  ∃ l, scan_from (Z.to_nat (2 ^ p)) d 0 (DState h g) = Done (l, DState h g) ∧ l ≡ₚ e_at <$> a_ents a.
Proof.
  intros Hm Hok Hsmall Hidx Hne Hp Hsz.
  pose proof (tables_single g a Hok Hidx) as H1.
  assert (tab_ok seed (a_t0 a)) as H0.
  { apply (tables_live g a Hok). rewrite Hsz. pose proof (pow2_pos p ltac:(lia)). lia. }
  pose proof (pow2_pos p ltac:(lia)). exists (scanned a p (seqZ 0 (2 ^ p))). split.
  - rewrite <-(cursor_0 p). rewrite (scan_from_run d a p h Hp Hsz Hm H0 Hidx H1 Hsmall Hne) by lia.
    by rewrite Z.sub_0_r.
  - unfold scanned. rewrite (cursors_perm p Hp), <-Hsz, all_buckets.
    unfold a_ents. by rewrite H1, t_ents_null, app_nil_r.
Qed.
End run.
