(* ===== verification/DictRandom.v ===== *)
(** * DictRandom: dictGetRandomKey

    The function draws buckets until one is not empty, then an element of the
    chain.  Which entry it returns depends on the numbers that rand() yields;
    whatever they are it is an entry of the dictionary, and every entry can be
    the one. *)

From S2P Require Import Prelude.
From S2P Require Import Own.
From S2P Require Import Heap.
From S2P Require Import DictHash.
From S2P Require Import Dict.
From S2P Require Import DictMem.
From S2P Require Import DictProofs.
From S2P Require Import DictRehash.
From S2P Require Import DictOps.
From S2P Require Import DictMap.
From S2P Require Import DictScan.
From S2P Require Import MapSpec.

Section run.
Context {A : Allocator dblock} {AS : AllocSpec A} {AT : AllocTotal A}.
Context (g : dict_globals) (fr : dheap) (d : Z).
Notation seed := (dict_hash_function_seed g).
Context (Hseed : 0 <= seed < 2 ^ 32).
Implicit Types (h : dheap) (a : adict) (l : list ent) (fuel : nat).

(** ** Chains *)

Lemma chain_length_run l : ∀ fuel n h,
  Forall (λ e, e_at e ≠ 0) l → readable (chain_cells l) h → (length l < fuel)%nat →
  0 ≤ n → n + Z.of_nat (length l) < 2 ^ 31 →
  chain_length fuel (chain l) n (DState h g) = Done (n + Z.of_nat (length l), DState h g).
Proof.
  induction l as [|e l IH]; intros [|fuel] n h Hall Hrd Hf Hn Hb; try (cbn in Hf; lia).
  { cbn. by rewrite Z.add_0_r. }
  cbn [chain_length head_or]. apply Forall_cons in Hall as [Ha Hall]. destruct (Z.eqb_spec (e_at e) 0); [done|].
  cbn [seg_cells] in Hrd. apply readable_cons in Hrd as [He Hrd]. apply readable_cons in Hrd as [_ Hrd].
  run_to (load_entry_at h g (e_at e) _ He). cbn [next length] in *.
  rewrite int_of_small by lia. run_to @lift_done. rewrite IH by (done || lia). do 2 f_equal. lia.
Qed.

Lemma chain_skip_run l1 : ∀ e l2 h,
  readable (chain_cells (l1 ++ e :: l2)) h →
  chain_skip (length l1) (chain (l1 ++ e :: l2)) (DState h g) = Done (e_at e, DState h g).
Proof.
  induction l1 as [|e1 l1 IH]; intros e l2 h Hrd; [done|]. cbn [app length chain_skip head_or].
  cbn [app seg_cells] in Hrd. apply readable_cons in Hrd as [He Hrd]. apply readable_cons in Hrd as [_ Hrd].
  run_to (load_entry_at h g (e_at e1) _ He). by apply IH.
Qed.

(** ** Buckets *)

(** The bucket that a number of rand() selects. *)
Definition drawn_bucket a (r : Z) : Z * nat :=
  if a_idx a =? -1 then (0, Z.to_nat (u32 (Z.land r (t_size (a_t0 a) - 1))))
  else let n := u32 (r mod (t_size (a_t0 a) + t_size (a_t1 a))) in
       if t_size (a_t0 a) <=? n then (1, Z.to_nat (n - t_size (a_t0 a))) else (0, Z.to_nat n).

Lemma drawn_bucket_ok a r :
  dict_ok seed a → tab_ok seed (a_t0 a) → 0 ≤ r →
  let '(i, b) := drawn_bucket a r in
  (i = 0 ∨ i = 1) ∧ tab_ok seed (a_tab i a) ∧ (b < length (t_buckets (a_tab i a)))%nat.
Proof.
  intros Hok H0 Hr. unfold drawn_bucket. pose proof (size_ok_range _ (proj1 (proj2 H0))) as Hs0.
  destruct (Z.eqb_spec (a_idx a) (-1)) as [Hi|Hi].
  - split; [by left|]. split; [done|]. cbn [a_tab Z.eqb]. destruct H0 as (_ & (p & Hp & Hpow) & _).
    replace (t_size (a_t0 a) - 1) with (Z.ones p) by (rewrite Z.ones_equiv; lia).
    rewrite Z.land_ones, <-Hpow by lia. pose proof (Z.mod_pos_bound r (t_size (a_t0 a)) ltac:(lia)).
    rewrite u32_small by lia. unfold t_size in *. lia.
  - pose proof (tables_second g a Hok Hi) as H1. pose proof (size_ok_range _ (proj1 (proj2 H1))) as Hs1.
    pose proof (Z.mod_pos_bound r (t_size (a_t0 a) + t_size (a_t1 a)) ltac:(lia)) as Hm.
    cbv zeta. rewrite u32_small by lia. destruct (Z.leb_spec (t_size (a_t0 a)) (r mod (t_size (a_t0 a) + t_size (a_t1 a)))).
    + split; [by right|]. split; [done|]. cbn [a_tab Z.eqb]. unfold t_size in *. lia.
    + split; [by left|]. split; [done|]. cbn [a_tab Z.eqb]. unfold t_size in *. lia.
Qed.

(** Every bucket can be drawn. *)
Lemma drawn_bucket_all a i b :
  dict_ok seed a → tab_ok seed (a_t0 a) → i = 0 ∨ i = 1 → (b < length (t_buckets (a_tab i a)))%nat →
  ∃ r, 0 ≤ r < 2 ^ 31 ∧ drawn_bucket a r = (i, b).
Proof.
  intros Hok H0 Hi Hb. pose proof (size_ok_range _ (proj1 (proj2 H0))) as Hs0. unfold drawn_bucket.
  destruct (Z.eqb_spec (a_idx a) (-1)) as [Hidx|Hidx].
  - destruct Hi as [-> | ->]; cbn [a_tab Z.eqb] in Hb.
    2: { rewrite (tables_single g a Hok Hidx) in Hb. cbn in Hb. lia. }
    exists (Z.of_nat b). split; [unfold t_size in *; lia|]. destruct H0 as (_ & (p & Hp & Hpow) & _).
    replace (t_size (a_t0 a) - 1) with (Z.ones p) by (rewrite Z.ones_equiv; lia).
    rewrite Z.land_ones, <-Hpow by lia. rewrite Z.mod_small by (unfold t_size; lia).
    rewrite u32_small by (unfold t_size in *; lia). by rewrite Nat2Z.id.
  - pose proof (tables_second g a Hok Hidx) as H1. pose proof (size_ok_range _ (proj1 (proj2 H1))) as Hs1.
    destruct Hi as [-> | ->]; cbn [a_tab Z.eqb] in Hb; cbv zeta.
    + exists (Z.of_nat b). split; [unfold t_size in *; lia|].
      rewrite Z.mod_small, u32_small by (unfold t_size in *; lia). rewrite Nat2Z.id.
      destruct (Z.leb_spec (t_size (a_t0 a)) (Z.of_nat b)); [unfold t_size in *; lia|done].
    + exists (t_size (a_t0 a) + Z.of_nat b). split; [unfold t_size in *; lia|].
      rewrite Z.mod_small, u32_small by (unfold t_size in *; lia).
      destruct (Z.leb_spec (t_size (a_t0 a)) (t_size (a_t0 a) + Z.of_nat b)); [|lia].
      do 2 f_equal. lia.
Qed.

Lemma draw_run a h r :
  dict_ok seed a → tab_ok seed (a_t0 a) → owns (dict_cells d a) fr h → 0 ≤ r →
  let '(i, b) := drawn_bucket a r in
  ∃ l, t_buckets (a_tab i a) !! b = Some l ∧
    (if dictIsRehashing (a_block a) then
       let n := u32 (r mod dictSlots (a_block a)) in
       if ht_size (ht0 (a_block a)) <=? n
       then load_slot (table (ht1 (a_block a))) (u64 (n - ht_size (ht0 (a_block a))))
       else load_slot (table (ht0 (a_block a))) n
     else load_slot (table (ht0 (a_block a))) (u32 (Z.land r (sizemask (ht0 (a_block a))))))
      (DState h g) = Done (chain l, DState h g).
Proof.
  intros Hok H0 Hm Hr. pose proof (drawn_bucket_ok a r Hok H0 Hr) as Hd. pose proof (size_ok_range _ (proj1 (proj2 H0))) as Hs0.
  destruct (drawn_bucket a r) as [i b] eqn:Hdraw. destruct Hd as (Hi & (Hat & Hsz & Hbk) & Hb).
  destruct (lookup_lt_is_Some_2 _ _ Hb) as [l Hl]. exists l. split; [done|].
  assert (load_slot (t_at (a_tab i a)) (Z.of_nat b) (DState h g) = Done (chain l, DState h g)) as Hload.
  { rewrite (dict_cells_bucket d i b l a Hi Hat Hl) in Hm.
    apply dict_load_slot_at with ((λ l, chain l) <$> t_buckets (a_tab i a));
      [eapply owns_lookup; [exact Hm|unfold tab_block; in_cells]|by rewrite list_lookup_fmap, Hl]. }
  unfold drawn_bucket in Hdraw. unfold dictIsRehashing, dictSlots.
  cbn [a_block rehashidx ht0 ht1 header ht_size table sizemask].
  destruct (Z.eqb_spec (a_idx a) (-1)) as [Hidx|Hidx]; cbn [negb]; cbv zeta in *.
  - destruct (Z.eqb_spec (t_size (a_t0 a)) 0); [lia|]. injection Hdraw as <- <-.
    rewrite Z2Nat.id in Hload; [exact Hload|]. apply Z.mod_pos_bound. lia.
  - pose proof (tables_second g a Hok Hidx) as H1. pose proof (size_ok_range _ (proj1 (proj2 H1))) as Hs1.
    rewrite (u64_small (t_size _ + t_size _)) by lia.
    pose proof (Z.mod_pos_bound r (t_size (a_t0 a) + t_size (a_t1 a)) ltac:(lia)) as Hmod.
    rewrite u32_small in Hdraw |- * by lia. destruct (Z.leb_spec (t_size (a_t0 a)) (r mod (t_size (a_t0 a) + t_size (a_t1 a)))); injection Hdraw as <- <-.
    + rewrite u64_small by lia. by rewrite Z2Nat.id in Hload by lia.
    + by rewrite Z2Nat.id in Hload by lia.
Qed.

(** ** Drawing until a bucket is not empty *)

Lemma chain_nil a i b l : tab_ok seed (a_tab i a) → t_buckets (a_tab i a) !! b = Some l → chain l = 0 → l = [].
Proof. intros (_ & _ & Hb) Hl. by apply (chain_null g (a_tab i a) b). Qed.

Lemma random_bucket_run rs a h :
  dict_ok seed a → tab_ok seed (a_t0 a) → owns (dict_cells d a) fr h → Forall (λ r, 0 ≤ r) rs →
  random_bucket rs (a_block a) (DState h g) = NoFuel ∨
  ∃ i b l rs', (i = 0 ∨ i = 1) ∧ tab_ok seed (a_tab i a) ∧ t_buckets (a_tab i a) !! b = Some l ∧ l ≠ [] ∧
    Forall (λ r, 0 ≤ r) rs' ∧
    random_bucket rs (a_block a) (DState h g) = Done ((chain l, rs'), DState h g).
Proof.
  intros Hok H0 Hm. induction 1 as [|r rs Hr Hrs IH]; [by left|]. cbn [random_bucket].
  pose proof (draw_run a h r Hok H0 Hm Hr) as Hdraw. pose proof (drawn_bucket_ok a r Hok H0 Hr) as Hd.
  destruct (drawn_bucket a r) as [i b]. destruct Hd as (Hi & Htab & _). destruct Hdraw as (l & Hl & Hrun).
  cbv zeta in Hrun |- *. rewrite (bind_done _ _ _ _ _ Hrun). destruct (Z.eqb_spec (chain l) 0) as [Hz|Hz]; [exact IH|].
  right. exists i, b, l, rs. split_and!; try done. by intros ->.
Qed.

(** The chain of a bucket of the dictionary. *)
Lemma bucket_chain a i b l h :
  (i = 0 ∨ i = 1) → tab_ok seed (a_tab i a) → t_buckets (a_tab i a) !! b = Some l → owns (dict_cells d a) fr h →
  Forall (λ e, e_at e ≠ 0) l ∧ readable (chain_cells l) h ∧ (length l < S (base.size h))%nat ∧
  ∀ e, e ∈ l → e ∈ a_ents a.
Proof.
  intros Hi (Hat & Hsz & Hb) Hl Hm. rewrite (dict_cells_bucket d i b l a Hi Hat Hl) in Hm.
  split; [eapply Forall_impl; [by apply (Hb _ _ Hl)|]; by intros e [? _]|].
  pose proof (owns_readable _ _ _ Hm) as Hrd. apply readable_cons in Hrd as [_ Hrd].
  apply readable_cons in Hrd as [_ Hrd]. apply readable_app in Hrd as [Hrd _]. split; [done|]. split.
  - apply owns_size in Hm. cbn [length] in Hm. rewrite length_app, length_seg_cells in Hm. lia.
  - intros e He. rewrite (a_ents_tab i a Hi). apply elem_of_app. left. apply elem_of_concat.
    exists l. split; [done|]. by eapply list_elem_of_lookup_2.
Qed.

(** The entry [e] of the abstract dictionary is what the run returns. *)
Definition returns_entry (c : cmd dstate Z) s a (e : ent) : Prop :=
  ∃ a' h', c s = Done (e_at e, DState h' g) ∧ owns (dict_cells d a') fr h' ∧ dict_ok seed a' ∧ same_ents a a' ∧
    e ∈ a_ents a'.

Lemma choose_run a i b l1 e l2 h r (rs : list Z) :
  (i = 0 ∨ i = 1) → tab_ok seed (a_tab i a) → t_buckets (a_tab i a) !! b = Some (l1 ++ e :: l2) →
  owns (dict_cells d a) fr h → Z.of_nat (length (a_ents a)) < 2 ^ 31 → dict_ok seed a →
  Z.to_nat (Z.rem r (Z.of_nat (length (l1 ++ e :: l2)))) = length l1 →
  (fuel ← walk_fuel;
   listlen ← chain_length fuel (chain (l1 ++ e :: l2)) 0;
   match r :: rs with
   | [] => nofuel
   | r :: _ => if listlen =? 0 then undef else chain_skip (Z.to_nat (Z.rem r listlen)) (chain (l1 ++ e :: l2))
   end) (DState h g) = Done (e_at e, DState h g).
Proof.
  intros Hi Htab Hl Hm Hlen Hok Hr. destruct (bucket_chain a i b _ h Hi Htab Hl Hm) as (Hnz & Hrd & Hfuel & Hin).
  assert (Z.of_nat (length (l1 ++ e :: l2)) < 2 ^ 31) as Hshort.
  { pose proof (Permutation_length (a_ents_split i b _ a Hi Hl)) as Hp.
    rewrite (length_app (l1 ++ e :: l2)) in Hp. lia. }
  run_by reflexivity. cbn [heap].
  run_to (chain_length_run _ (S (base.size h)) 0 h Hnz Hrd Hfuel ltac:(lia) ltac:(lia)). rewrite Z.add_0_l.
  destruct (Z.eqb_spec (Z.of_nat (length (l1 ++ e :: l2))) 0) as [Hz|_].
  { rewrite length_app in Hz. cbn in Hz. lia. }
  rewrite Hr. by apply chain_skip_run.
Qed.

(** The function up to the choice of the bucket. *)
Lemma random_start a h :
  owns (dict_cells d a) fr h → dict_ok seed a → small a → a_ents a ≠ [] →
  ∃ a' h', owns (dict_cells d a') fr h' ∧ dict_ok seed a' ∧ same_ents a a' ∧ tab_ok seed (a_t0 a') ∧
    ∀ rs, dictGetRandomKey rs d (DState h g) =
    ('(he, rs) ← random_bucket rs (a_block a');
     fuel ← walk_fuel;
     listlen ← chain_length fuel he 0;
     match rs with
     | [] => nofuel
     | r :: _ => if listlen =? 0 then undef else chain_skip (Z.to_nat (Z.rem r listlen)) he
     end) (DState h' g).
Proof.
  intros Hm Hok Hsmall Hne.
  assert (tab_ok seed (a_t0 a)) as H0.
  { destruct Hok as [[H0 H1 _|H0 _ _|H0 _ _ _] _]; [|done..]. exfalso. apply Hne. unfold a_ents. by rewrite H0, H1. }
  destruct (rehash_step_run g fr Hseed d a h Hm Hok Hsmall) as (h' & a' & Hrun & Hm' & Hok' & Hsame & _ & H0').
  exists a', h'. split; [done|]. split; [done|]. split; [done|]. split; [by apply H0'|]. intros rs.
  unfold dictGetRandomKey. run_to (load_dict_at h g d _ (owns_lookup_hd _ _ _ _ _ Hm)).
  assert (dictSize (a_block a) = Z.of_nat (length (a_ents a))) as ->.
  { unfold dictSize. cbn [a_block ht0 ht1 header used]. unfold t_used, a_ents in *. unfold small, a_ents in Hsmall.
    rewrite length_app in *. rewrite u64_small by lia. lia. }
  destruct (Z.eqb_spec (Z.of_nat (length (a_ents a))) 0) as [Hz|_]; [destruct (a_ents a); [done|cbn in Hz; lia]|].
  run_to Hrun. by run_to (load_dict_at h' g d _ (owns_lookup_hd _ _ _ _ _ Hm')).
Qed.

(** Only entries are returned... *)
Lemma random_entry rs a h :
  owns (dict_cells d a) fr h → dict_ok seed a → Z.of_nat (length (a_ents a)) < 2 ^ 31 → a_ents a ≠ [] →
  Forall (λ r, 0 ≤ r) rs →
  dictGetRandomKey rs d (DState h g) = NoFuel ∨
  ∃ e, returns_entry (dictGetRandomKey rs d) (DState h g) a e.
Proof.
  intros Hm Hok Hlen Hne Hrs. assert (small a) as Hsmall by (unfold small; lia).
  destruct (random_start a h Hm Hok Hsmall Hne) as (a' & h' & Hm' & Hok' & Hsame & H0 & Heq). unfold returns_entry. rewrite Heq.
  destruct (random_bucket_run rs a' h' Hok' H0 Hm' Hrs) as [Hno|(i & b & l & rs' & Hi & Htab & Hl & Hnn & Hrs' & Hrun)].
  { left. unfold mbind at 1, cmd_bind. by rewrite Hno. }
  rewrite (bind_done _ _ _ _ _ Hrun). destruct rs' as [|r rs'].
  { left. destruct (bucket_chain a' i b l h' Hi Htab Hl Hm') as (Hnz & Hrd & Hfuel & _).
    pose proof (Permutation_length (a_ents_split i b _ a' Hi Hl)) as Hp. rewrite length_app in Hp.
    pose proof (same_size _ _ Hsame). run_by reflexivity. cbn [heap].
    by run_to (chain_length_run l (S (base.size h')) 0 h' Hnz Hrd Hfuel ltac:(lia) ltac:(lia)). }
  right. apply Forall_cons in Hrs' as [Hr _].
  assert (0 < Z.of_nat (length l)) as Hl0 by (destruct l; [done|cbn; lia]).
  pose proof (Z.rem_bound_pos r (Z.of_nat (length l)) Hr Hl0) as Hrem.
  destruct (lookup_lt_is_Some_2 l (Z.to_nat (Z.rem r (Z.of_nat (length l))))) as [e He]; [lia|].
  pose proof He as Hsplit. apply take_drop_middle in Hsplit.
  set (l1 := take _ l) in Hsplit. set (l2 := drop _ l) in Hsplit. exists e, a', h'. split.
  - rewrite <-Hsplit in Hl |- *. apply (choose_run a' i b l1 e l2 h' r rs' Hi Htab Hl Hm'); [|done|].
    + by rewrite (same_size _ _ Hsame).
    + rewrite Hsplit. unfold l1. rewrite length_take. lia.
  - split; [done|]. split; [done|]. split; [done|].
    destruct (bucket_chain a' i b l h' Hi Htab Hl Hm') as (_ & _ & _ & Hin). apply Hin. by eapply list_elem_of_lookup_2.
Qed.

(** ... and every entry can be. *)
Lemma every_entry a h e :
  owns (dict_cells d a) fr h → dict_ok seed a → Z.of_nat (length (a_ents a)) < 2 ^ 31 → e ∈ a_ents a →
  ∃ r1 r2, 0 ≤ r1 < 2 ^ 31 ∧ 0 ≤ r2 < 2 ^ 31 ∧
    returns_entry (dictGetRandomKey [r1; r2] d) (DState h g) a e.
Proof.
  intros Hm Hok Hlen Hin. assert (small a) as Hsmall by (unfold small; lia).
  assert (a_ents a ≠ []) as Hne by (by intros Hn; rewrite Hn in Hin; apply elem_of_nil in Hin).
  destruct (random_start a h Hm Hok Hsmall Hne) as (a' & h' & Hm' & Hok' & Hsame & H0 & Heq).
  assert (e ∈ a_ents a') as Hin' by (by rewrite (same_perm _ _ Hsame)).
  destruct (locate seed a' e Hok' Hin') as (i & b & l & Hi & Htab & Hl & He).
  destruct (drawn_bucket_all a' i b Hok' H0 Hi (lookup_lt_Some _ _ _ Hl)) as (r1 & Hr1 & Hdraw).
  pose proof (draw_run a' h' r1 Hok' H0 Hm' ltac:(lia)) as Hrun. rewrite Hdraw in Hrun.
  destruct Hrun as (l' & Hl' & Hrun). rewrite Hl in Hl'. injection Hl' as <-.
  apply list_elem_of_split in He as (l1 & l2 & ->).
  pose proof (Permutation_length (a_ents_split i b _ a' Hi Hl)) as Hp. rewrite !length_app in Hp. cbn [length] in Hp.
  pose proof (same_size _ _ Hsame). exists r1, (Z.of_nat (length l1)). split; [done|]. split; [lia|].
  exists a', h'. rewrite Heq. split; [|done]. cbn [random_bucket]. cbv zeta in Hrun.
  erewrite bind_done; [|rewrite (bind_done _ _ _ _ _ Hrun); destruct (Z.eqb_spec (chain (l1 ++ e :: l2)) 0) as [Hz|_];
    [apply (chain_nil a' i b _ Htab Hl) in Hz; by destruct l1|reflexivity]].
  cbv beta iota. apply (choose_run a' i b l1 e l2 h' (Z.of_nat (length l1)) [] Hi Htab Hl Hm'); [lia|done|].
  rewrite length_app. cbn [length]. rewrite Z.rem_small by lia. lia.
Qed.
End run.
