(* ===== verification/DictIter.v ===== *)
(** * DictIter: the iterators of redisdict.c

    Positions of an iterator in the buckets of a dictionary, the runs of
    [dictNext] from them, and of a whole iteration.  The dictionary is the
    one the iterator was made for and does not change on the way.  An unsafe
    iterator takes the fingerprint of the dictionary first, whose arithmetic
    overflows as soon as there is a table ([fingerprint_overflows]). *)

From S2P Require Import Prelude.
From S2P Require Import Own.
From S2P Require Import Heap.
From S2P Require Import DictHash.
From S2P Require Import Dict.
From S2P Require Import DictMem.
From S2P Require Import DictProofs.
From S2P Require Import DictRehash.
From S2P Require Import DictOps.
From S2P Require Import DictDelete.

(** The buckets of table [t], and the entries behind bucket [j] of it. *)
Definition tab_list (a : adict) (t : Z) : list (list ent) := t_buckets (a_tab t a).
Definition later (a : adict) (t j : Z) : list ent :=
  concat (drop (Z.to_nat (j + 1)) (tab_list a t)) ++ (if t =? 0 then t_ents (a_t1 a) else []).

(** How many buckets are left. *)
Definition rounds (a : adict) (t j : Z) : nat :=
  (length (tab_list a t) - Z.to_nat (j + 1)) +
  (if t =? 0 then length (t_buckets (a_t1 a)) else 0).

Section iter.
Context {A : Allocator dblock}.
Context (g : dict_globals) (fr : dheap) (d : Z) (it : Z) (a : adict).
Notation seed := (dict_hash_function_seed g).
Hypothesis Hok : dict_ok seed a.
Implicit Types (h : dheap) (I : dictIterator).

Notation mem I h := (owns ((it, DIter I) :: dict_cells d a) fr h).

(** A place in the two tables. *)
Record place (t j : Z) : Prop := {
  place_table : t = 0 ∨ (t = 1 ∧ a_idx a ≠ -1);
  place_index : -1 ≤ j ≤ 2 ^ 30;
}.

Lemma tab_cases t : t = 0 ∨ (t = 1 ∧ a_idx a ≠ -1) → tab_ok seed (a_tab t a) ∨ a_tab t a = null_tab.
Proof. intros Ht. apply tab_state; [tauto|done]. Qed.

Lemma size_range t : t = 0 ∨ (t = 1 ∧ a_idx a ≠ -1) → 0 ≤ t_size (a_tab t a) ≤ 2 ^ 30.
Proof.
  intros Ht. destruct (tab_cases t Ht) as [(_ & Hs & _)| ->]; [|done].
  apply size_ok_range in Hs. lia.
Qed.

Lemma load_iter_run I h : mem I h → load_iter it (DState h g) = Done (I, DState h g).
Proof. intros H. unfold load_iter. cbn [heap]. by rewrite (owns_lookup_hd _ _ _ _ _ H). Qed.

Lemma modify_iter_run I f h :
  mem I h →
  ∃ h', modify_iter it f (DState h g) = Done (tt, DState h' g) ∧ mem (f I) h'.
Proof.
  intros H. exists (<[it := DIter (f I)]> h). split.
  - unfold modify_iter. run_to (load_iter_run I h H). unfold store_iter. cbn [heap].
    by rewrite (owns_lookup_hd _ _ _ _ _ H).
  - by apply owns_store with (1 := H).
Qed.

Lemma load_d_run I h : mem I h → load_dict d (DState h g) = Done (a_block a, DState h g).
Proof. intros H. apply load_dict_at. eapply owns_lookup; [exact H|]. unfold dict_cells. in_cells. Qed.

(** The bucket [j] of table [t] in memory. *)
Lemma slot_run I t j l h :
  t = 0 ∨ (t = 1 ∧ a_idx a ≠ -1) → tab_list a t !! j = Some l → mem I h →
  load_slot (table (ht t (a_block a))) (Z.of_nat j) (DState h g) = Done (chain l, DState h g).
Proof.
  intros Ht Hl H. rewrite ht_block by tauto. cbn [header table].
  destruct (tab_cases t Ht) as [(Hat & _)|Hn]; [|unfold tab_list in Hl; by rewrite Hn in Hl].
  apply dict_load_slot_at with ((λ l, chain l) <$> tab_list a t); [|by rewrite list_lookup_fmap, Hl].
  eapply owns_lookup; [exact H|]. rewrite (dict_cells_tab t) by tauto.
  rewrite tab_cells_nonnull by done. unfold tab_block. in_cells.
Qed.

Lemma bucket_ent_run I t j pre e l h :
  t = 0 ∨ (t = 1 ∧ a_idx a ≠ -1) → tab_list a t !! j = Some (pre ++ e :: l) → mem I h →
  e_at e ≠ 0 ∧
  load_entry (e_at e) (DState h g) =
    Done (DictEntry (e_kp e) (e_val e) (chain l), DState h g).
Proof.
  intros Ht Hl H. destruct (tab_cases t Ht) as [(Hat & _ & Hb)|Hn];
    [|unfold tab_list in Hl; by rewrite Hn in Hl].
  pose proof (Hb _ _ Hl) as Hall. rewrite Forall_app, Forall_cons in Hall.
  destruct Hall as (_ & (Hz & _) & _). split; [done|].
  apply load_entry_at. eapply owns_lookup; [exact H|]. apply elem_of_cons. right.
  rewrite (dict_cells_tab t) by tauto. rewrite tab_cells_nonnull by done.
  apply elem_of_app. left. apply elem_of_cons. right. rewrite (bucket_cells_out _ _ _ Hl).
  apply elem_of_app. left. rewrite seg_cells_app. apply elem_of_app. right. apply list_elem_of_here.
Qed.

(** ** Advancing *)

Lemma later_next t j l :
  -1 ≤ j → tab_list a t !! Z.to_nat (j + 1) = Some l → later a t j = l ++ later a t (j + 1).
Proof.
  intros Hj Hl. unfold later. rewrite (drop_S _ _ _ Hl). cbn [concat]. rewrite <-app_assoc.
  by replace (Z.to_nat (j + 1 + 1)) with (S (Z.to_nat (j + 1))) by lia.
Qed.

Lemma later_second j l :
  t_size (a_tab 0 a) ≤ j + 1 → t_buckets (a_t1 a) !! 0%nat = Some l →
  later a 0 j = l ++ later a 1 0.
Proof.
  intros Hj Hl. unfold later, tab_list in *. cbn [a_tab Z.eqb] in *. rewrite drop_ge by (unfold t_size in Hj; lia).
  cbn [concat app]. unfold t_ents. rewrite app_nil_r. destruct (t_buckets (a_t1 a)) as [|l0 ls]; [done|].
  by injection Hl as ->.
Qed.

(** The bucket under the iterator becomes the current chain. *)
Lemma enter_run t j s e ne fp l h :
  t = 0 ∨ (t = 1 ∧ a_idx a ≠ -1) → 0 ≤ j → tab_list a t !! Z.to_nat j = Some l →
  mem (DictIterator d t j s e ne fp) h →
  ∃ h', (it' ← load_iter it;
         p ← load_slot (table (ht (it_table it') (a_block a))) (it_index it');
         _ ← modify_iter it (set_it_entry p);
         mret true) (DState h g) = Done (true, DState h' g) ∧
    mem (DictIterator d t j s (chain l) ne fp) h'.
Proof.
  intros Ht Hj Hl H. run_to (load_iter_run _ _ H). cbn [it_table it_index].
  pose proof (slot_run _ t _ l h Ht Hl H) as Hslot. rewrite Z2Nat.id in Hslot by done. run_to Hslot.
  destruct (modify_iter_run _ (set_it_entry (chain l)) _ H) as (h1 & Hrun1 & H1).
  exists h1. run_to Hrun1. done.
Qed.

Lemma advance_run t j s e ne fp h :
  place t j → mem (DictIterator d t j s e ne fp) h →
  (later a t j = [] ∧ ∃ h' j', iter_advance it (DState h g) = Done (false, DState h' g) ∧
     mem (DictIterator d t j' s e ne fp) h' ∧ 0 ≤ j') ∨
  (∃ t' j' l h', iter_advance it (DState h g) = Done (true, DState h' g) ∧
     mem (DictIterator d t' j' s (chain l) ne fp) h' ∧ place t' j' ∧ 0 ≤ j' ∧
     tab_list a t' !! Z.to_nat j' = Some l ∧ later a t j = l ++ later a t' j' ∧
     (rounds a t' j' < rounds a t j)%nat).
Proof.
  intros [Ht Hj] H. unfold iter_advance. run_to (load_iter_run _ _ H). cbn [it_index it_table it_d].
  rewrite int_of_small by lia. run_by (apply lift_done).
  destruct (modify_iter_run _ (set_it_pos t (j + 1)) _ H) as (h1 & Hrun1 & H1). run_to Hrun1.
  cbn [set_it_pos it_d it_safe it_entry it_nextEntry it_fingerprint] in H1.
  run_to (load_d_run _ _ H1). rewrite ht_block by tauto. cbn [header ht_size].
  pose proof (size_range t Ht) as Hsz. rewrite s32_small by lia.
  destruct (Z.leb_spec (t_size (a_tab t a)) (j + 1)) as [Hge|Hlt].
  - unfold dictIsRehashing. cbn [a_block rehashidx].
    destruct (decide (t = 0 ∧ a_idx a ≠ -1)) as [[-> Hidx]|Hno].
    + destruct (Z.eqb_spec (a_idx a) (-1)); [done|]. cbn [negb andb Z.eqb].
      destruct (modify_iter_run _ (set_it_pos (0 + 1) 0) _ H1) as (h2 & Hrun2 & H2).
      rewrite (bind_done _ _ _ true (DState h2 g)) by by run_to Hrun2.
      cbn [set_it_pos it_d it_safe it_entry it_nextEntry it_fingerprint] in H2. right.
      pose proof (tables_second g a Hok Hidx) as (_ & Hs1 & _). apply size_ok_range in Hs1.
      destruct (t_buckets (a_t1 a)) as [|l ls] eqn:Hb1; [unfold t_size in Hs1; rewrite Hb1 in Hs1; cbn in Hs1; lia|].
      destruct (enter_run 1 0 s e ne fp l h2) as (h3 & Hrun3 & H3); [by right|lia| |done|].
      { unfold tab_list, a_tab. cbn [Z.eqb]. by rewrite Hb1. }
      exists 1, 0, l, h3. split; [exact Hrun3|]. split; [done|]. split; [by split; [right|lia]|].
      split; [lia|]. split; [unfold tab_list, a_tab; cbn [Z.eqb]; by rewrite Hb1|].
      split; [apply later_second; [done|by rewrite Hb1]|].
      unfold rounds, tab_list, a_tab. cbn [Z.eqb]. rewrite Hb1. cbn [length]. lia.
    + left. replace (negb (a_idx a =? -1) && (t =? 0)) with false.
      2: { destruct Ht as [->|[-> Hi]]; [|by destruct (a_idx a =? -1)].
           destruct (Z.eqb_spec (a_idx a) (-1)); [done|]. by destruct Hno. }
      split; [|exists h1, (j + 1); split; [done|split; [exact H1|lia]]].
      unfold later, tab_list. rewrite drop_ge by (unfold t_size in Hge; lia). cbn [concat app].
      destruct Ht as [->|[-> _]]; [|done]. cbn [Z.eqb].
      rewrite (tables_single g a Hok); [done|]. destruct (decide (a_idx a = -1)); [done|by destruct Hno].
  - right. rewrite (bind_done _ _ _ true (DState h1 g)) by done. cbn iota.
    destruct (lookup_lt_is_Some_2 (tab_list a t) (Z.to_nat (j + 1))) as [l Hl].
    { unfold tab_list, t_size in *. lia. }
    destruct (enter_run t (j + 1) s e ne fp l h1) as (h2 & Hrun2 & H2); [done|lia|done|exact H1|].
    exists t, (j + 1), l, h2. split; [exact Hrun2|]. split; [done|]. split; [split; [done|lia]|].
    split; [lia|]. split; [done|]. split; [apply later_next; [lia|done]|].
    unfold rounds. apply lookup_lt_Some in Hl. lia.
Qed.
(** ** dictNext *)

(** The iterator stands at an entry of bucket [j]; [l] is what follows it in
    the chain, and [rest] all that it has still to return. *)
Definition at_entry (I : dictIterator) (s : Z) (rest : list ent) : Prop :=
  ∃ t j pre e l fp, I = DictIterator d t j s (e_at e) (chain l) fp ∧ place t j ∧ 0 ≤ j ∧
    tab_list a t !! Z.to_nat j = Some (pre ++ e :: l) ∧ rest = l ++ later a t j.

(** What a call that finds the entries [rest] ahead returns and leaves. *)
Definition returns (c : cmd dstate Z) (s : Z) (rest : list ent) h : Prop :=
  ∃ h' I', c (DState h g) = Done (chain rest, DState h' g) ∧ mem I' h' ∧
    it_safe I' = s ∧ it_d I' = d ∧ (it_table I' = 0 → it_index I' ≠ -1) ∧
    (rest = [] ∨ at_entry I' s (tail rest)).

(** The rest of a round of [dictNext] from [iter_advance] on. *)
Definition after_advance (fuel : nat) : cmd dstate Z :=
  more ← iter_advance it;
  if (more : bool) then
    it' ← load_iter it;
    if negb (it_entry it' =? 0) then
      e ← load_entry (it_entry it');
      _ ← modify_iter it (set_it_nextEntry (next e));
      mret (it_entry it')
    else dictNext_loop fuel it
  else mret 0.

Lemma after_advance_run fuel t j s ne fp h :
  (∀ t' j' h', place t' j' → (rounds a t' j' < fuel)%nat → (t' = 0 → j' ≠ -1) →
     mem (DictIterator d t' j' s 0 ne fp) h' → returns (dictNext_loop fuel it) s (later a t' j') h') →
  place t j → (rounds a t j < S fuel)%nat → mem (DictIterator d t j s 0 ne fp) h →
  returns (after_advance fuel) s (later a t j) h.
Proof.
  intros IH Hp Hf H. unfold returns, after_advance.
  destruct (advance_run t j s 0 ne fp h Hp H)
    as [(Hl & h1 & j1 & Hrun & H1 & Hj1)|(t1 & j1 & l & h1 & Hrun & H1 & Hp1 & Hj1 & Hl & Hlat & Hr)];
    run_to Hrun; cbn iota.
  { exists h1, (DictIterator d t j1 s 0 ne fp). rewrite Hl. split_and!; [done|done|done|done| |by left].
    cbn. lia. }
  run_to (load_iter_run _ _ H1). cbn [it_entry]. destruct l as [|e l].
  - cbn [head_or Z.eqb negb]. rewrite Hlat. cbn [app]. apply (IH t1 j1 h1 Hp1); [lia|lia|done].
  - cbn [head_or]. destruct (bucket_ent_run _ t1 _ [] e l h1 (place_table _ _ Hp1) Hl H1) as [Hz He].
    destruct (Z.eqb_spec (e_at e) 0); [done|]. cbn [negb]. run_to He. cbn [next].
    destruct (modify_iter_run _ (set_it_nextEntry (chain l)) _ H1) as (h2 & Hrun2 & H2).
    run_to Hrun2. exists h2, (DictIterator d t1 j1 s (e_at e) (chain l) fp). rewrite Hlat. cbn [app head_or tail].
    split_and!; [done|exact H2|done|done|cbn; lia|]. right. by exists t1, j1, [], e, l, fp.
Qed.

(** From the end of a chain [dictNext] goes to the next non-empty bucket. *)
Lemma next_bucket_run fuel : ∀ t j s ne fp h,
  place t j → (rounds a t j < fuel)%nat → (t = 0 → j ≠ -1) →
  mem (DictIterator d t j s 0 ne fp) h →
  returns (dictNext_loop fuel it) s (later a t j) h.
Proof.
  induction fuel as [|fuel IH]; intros t j s ne fp h Hp Hf Hj H; [lia|].
  destruct (after_advance_run fuel t j s ne fp h) as (h' & I' & Hrun & Hrest); [|done..|].
  { intros. by apply (IH _ _ s ne fp). }
  exists h', I'. split; [|exact Hrest]. rewrite <-Hrun. cbn [dictNext_loop].
  run_to (load_iter_run _ _ H). cbn [it_entry Z.eqb]. apply bind_same. unfold iter_bucket.
  rewrite (bind_done _ _ _ tt (DState h g)); [done|]. unfold iter_first.
  run_to (load_iter_run _ _ H). cbn [it_index it_table].
  destruct Hp as [[->|[-> _]] _]; [|by rewrite andb_false_r].
  destruct (Z.eqb_spec j (-1)); [by destruct Hj|done].
Qed.

(** [dictNext] from an entry. *)
Lemma next_entry_run I s rest h :
  at_entry I s rest → mem I h →
  returns (dictNext it) s rest h.
Proof.
  intros (t & j & pre & e & l & fp & -> & Hp & Hj & Hl & ->) H. unfold returns, dictNext.
  run_to (load_iter_run _ _ H). cbn [it_d]. run_to (load_d_run _ _ H).
  cbn [a_block ht0 ht1 header ht_size].
  assert (∃ f, (3 + Z.to_nat (t_size (a_t0 a)) + Z.to_nat (t_size (a_t1 a)))%nat = S f ∧
    (rounds a t j < f)%nat) as (f & -> & Hf).
  { exists (2 + Z.to_nat (t_size (a_t0 a)) + Z.to_nat (t_size (a_t1 a)))%nat. split; [reflexivity|]. unfold rounds, tab_list.
    destruct Hp as [[->|[-> _]] _]; unfold a_tab, t_size; cbn [Z.eqb]; lia. }
  cbn [dictNext_loop].
  run_to (load_iter_run _ _ H). cbn [it_entry].
  destruct (bucket_ent_run _ t _ pre e l h (place_table _ _ Hp) Hl H) as [Hz _].
  destruct (Z.eqb_spec (e_at e) 0); [done|]. cbn [it_nextEntry].
  destruct (modify_iter_run _ (set_it_entry (chain l)) _ H) as (h1 & Hrun1 & H1).
  rewrite (bind_done _ _ _ true (DState h1 g)) by by run_to Hrun1. cbn iota.
  cbv [set_it_entry it_d it_table it_index it_safe it_nextEntry it_fingerprint] in H1.
  run_to (load_iter_run _ _ H1). cbn [it_entry]. destruct l as [|e' l].
  - cbn [head_or Z.eqb negb app] in *. apply (next_bucket_run _ t j s 0 fp h1 Hp); [done|lia|done].
  - cbn [head_or app]. replace (pre ++ e :: e' :: l) with ((pre ++ [e]) ++ e' :: l) in Hl by by rewrite <-app_assoc.
    destruct (bucket_ent_run _ t _ (pre ++ [e]) e' l h1 (place_table _ _ Hp) Hl H1) as [Hz' He'].
    destruct (Z.eqb_spec (e_at e') 0); [done|]. cbn [negb]. run_to He'. cbn [next].
    destruct (modify_iter_run _ (set_it_nextEntry (chain l)) _ H1) as (h2 & Hrun2 & H2).
    run_to Hrun2. exists h2, (DictIterator d t j s (e_at e') (chain l) fp). cbn [tail].
    split_and!; [done|exact H2|done|done|cbn; lia|]. right. by exists t, j, (pre ++ [e]), e', l, fp.
Qed.

(** The calls of [dictNext] that a client makes until it returns null. *)
Fixpoint next_all (fuel : nat) : cmd dstate (list Z) :=
  match fuel with
  | O => nofuel
  | S fuel =>
      e ← dictNext it;
      if e =? 0 then mret [] else es ← next_all fuel; mret (e :: es)
  end.

Lemma place_ents I s rest : at_entry I s rest → Forall (λ e, e_at e ≠ 0) rest.
Proof.
  intros (t & j & pre & e & l & fp & _ & Hp & Hj & Hl & ->).
  apply Forall_forall. intros x Hx. apply (ent_ptr_nonnull g a x Hok).
  rewrite (a_ents_tab t) by (destruct Hp; tauto). apply elem_of_app in Hx as [Hx|Hx].
  - apply elem_of_app. left. apply elem_of_concat. exists (pre ++ e :: l). split.
    + apply elem_of_app. right. by apply elem_of_cons; right.
    + by eapply list_elem_of_lookup_2.
  - unfold later in Hx. apply elem_of_app in Hx as [Hx|Hx].
    + apply elem_of_app. left. apply elem_of_concat in Hx as (b & Hxb & Hb).
      apply elem_of_concat. exists b. split; [done|]. unfold tab_list in Hb.
      rewrite <-(take_drop (Z.to_nat (j + 1)) (t_buckets (a_tab t a))). apply elem_of_app. by right.
    + destruct Hp as [[->|[-> _]] _]; cbn [Z.eqb] in Hx; [|by apply elem_of_nil in Hx].
      apply elem_of_app. by right.
Qed.

Lemma next_all_run fuel : ∀ I s rest h,
  at_entry I s rest → mem I h → (length rest < fuel)%nat →
  ∃ h' I', next_all fuel (DState h g) = Done (e_at <$> rest, DState h' g) ∧ mem I' h' ∧
    it_safe I' = s ∧ it_d I' = d ∧ (it_table I' = 0 → it_index I' ≠ -1).
Proof.
  induction fuel as [|fuel IH]; intros I s rest h Hat H Hf; [lia|]. cbn [next_all].
  destruct (next_entry_run I s rest h Hat H) as (h1 & I1 & Hrun & H1 & Hs & Hd & Hi & Hrest).
  run_to Hrun. pose proof (place_ents _ _ _ Hat) as Hnz. destruct rest as [|e rest].
  { exists h1, I1. by split_and!. }
  cbn [head_or]. apply Forall_cons in Hnz as [Hz _]. destruct (Z.eqb_spec (e_at e) 0); [done|].
  destruct Hrest as [|Hat1]; [done|]. cbn [tail length] in *.
  destruct (IH I1 s rest h1 Hat1 H1) as (h2 & I2 & Hrun2 & H2 & Hs2 & Hd2 & Hi2); [lia|].
  run_to Hrun2. by exists h2, I2.
Qed.
End iter.

(** ** A whole iteration *)

Definition with_iters (n : Z) (a : adict) : adict :=
  ADict (a_priv a) (a_t0 a) (a_t1 a) (a_idx a) n.

(** Iterate with a safe or an unsafe iterator, and release it. *)
Definition iterate {A : Allocator dblock} (safe : bool) (fuel : nat) (d : Z) : cmd dstate (list Z) :=
  it ← (if safe then dictGetSafeIterator d else dictGetIterator d);
  es ← next_all it fuel;
  _ ← dictReleaseIterator it;
  mret es.

(** ** The fingerprint

    Its arithmetic overflows for every number but 0. *)

(** Mixing in the upper bits keeps the top bit. *)
Lemma mixed_pow2 x n p : 0 < n → 0 ≤ p → 2 ^ p ≤ x → 2 ^ p ≤ Z.lxor x (Z.shiftr x n).
Proof.
  intros Hn Hp Hx. assert (0 < x) as Hpos by (pose proof (Z.pow_pos_nonneg 2 p ltac:(lia) Hp); lia).
  assert (p ≤ Z.log2 x) as Hlog by (apply Z.log2_le_pow2; lia).
  assert (0 ≤ Z.lxor x (Z.shiftr x n)) as H0 by (apply Z.lxor_nonneg; rewrite Z.shiftr_nonneg; lia).
  apply Z.le_trans with (2 ^ Z.log2 x); [apply Z.pow_le_mono_r; lia|]. apply Z.le_ngt. intros Hlt.
  assert (Z.testbit (Z.lxor x (Z.shiftr x n)) (Z.log2 x) = true) as Htop.
  { rewrite Z.lxor_spec, Z.shiftr_spec by lia. rewrite Z.bit_log2, Z.bits_above_log2 by lia. done. }
  apply Z.lt_eq_cases in H0 as [H0|H0]; [|by rewrite <-H0, Z.bits_0 in Htop].
  apply Z.log2_lt_pow2 in Hlt; [|lia]. by rewrite Z.bits_above_log2 in Htop by lia.
Qed.

(** A sum of shifts of a number that is not negative has its value, or it
    overflows. *)
Lemma shl64_cases x n (k : Z → outcome Z) :
  0 ≤ x → 0 ≤ n → (x * 2 ^ n < 2 ^ 63 → k (x * 2 ^ n) = Undef) → (y ← shl64 x n; k y) = Undef.
Proof.
  intros Hx Hn Hk. unfold shl64. destruct (Z.ltb_spec x 0); [lia|]. rewrite Z.shiftl_mul_pow2 by lia.
  destruct (Z.lt_ge_cases (x * 2 ^ n) (2 ^ 63)) as [Hlt|Hge].
  - pose proof (Z.pow_pos_nonneg 2 n ltac:(lia) Hn). rewrite int64_of_small by nia. by apply Hk.
  - by rewrite int64_of_big.
Qed.

Lemma int64_cases x (k : Z → outcome Z) :
  0 ≤ x → (x < 2 ^ 63 → k x = Undef) → (y ← int64_of x; k y) = Undef.
Proof.
  intros Hx Hk. destruct (Z.lt_ge_cases x (2 ^ 63)) as [Hlt|Hge].
  - rewrite int64_of_small by lia. by apply Hk.
  - by rewrite int64_of_big.
Qed.

Lemma outcome_assoc {B C D} (o : outcome B) (k1 : B → outcome C) (k2 : C → outcome D) :
  ((o ≫= k1) ≫= k2) = (o ≫= λ b, k1 b ≫= k2).
Proof. by destruct o. Qed.

Lemma fingerprint_round_overflows i : i ≠ 0 → - 2 ^ 63 ≤ i < 2 ^ 63 → fingerprint_round 0 i = Undef.
Proof.
  intros Hi Hr. unfold fingerprint_round. rewrite Z.add_0_l, int64_of_small by done.
  change (Done i ≫= ?k) with (k i). cbv beta. rewrite outcome_assoc.
  destruct (Z.ltb_spec i 0) as [Hneg|Hpos].
  { unfold shl64. by destruct (Z.ltb_spec i 0); [|lia]. }
  apply shl64_cases; [lia..|]. intros _. apply int64_cases; [unfold Z.lnot; lia|]. intros _. cbv zeta.
  pose proof (mixed_pow2 (Z.lnot i + i * 2 ^ 21) 24 20 ltac:(lia) ltac:(lia) ltac:(unfold Z.lnot; lia)) as Hb.
  set (b := Z.lxor _ _) in *. clearbody b. rewrite outcome_assoc. apply shl64_cases; [lia..|]. intros _.
  rewrite outcome_assoc. apply int64_cases; [lia|]. intros _.
  rewrite outcome_assoc. apply shl64_cases; [lia..|]. intros _. apply int64_cases; [lia|]. intros _.
  pose proof (mixed_pow2 (b + b * 2 ^ 3 + b * 2 ^ 8) 14 28 ltac:(lia) ltac:(lia) ltac:(lia)) as Hc.
  set (c := Z.lxor _ _) in *. clearbody c. rewrite outcome_assoc. apply shl64_cases; [lia..|]. intros _.
  rewrite outcome_assoc. apply int64_cases; [lia|]. intros _.
  rewrite outcome_assoc. apply shl64_cases; [lia..|]. intros _. apply int64_cases; [lia|]. intros _.
  pose proof (mixed_pow2 (c + c * 2 ^ 2 + c * 2 ^ 4) 28 32 ltac:(lia) ltac:(lia) ltac:(lia)) as Hd.
  apply shl64_cases; [lia..|]. intros Hlt. lia.
Qed.

Lemma fingerprint_overflows t i l : - 2 ^ 63 ≤ t < 2 ^ 63 → 0 < i < 2 ^ 63 → fingerprint_loop 0 (t :: i :: l) = Undef.
Proof.
  intros Ht Hi. cbn [fingerprint_loop]. destruct (decide (t = 0)) as [-> |Hne].
  - change (fingerprint_round 0 0) with (Done 0). change (Done 0 ≫= ?k) with (k 0). cbv beta.
    by rewrite (fingerprint_round_overflows i) by lia.
  - by rewrite (fingerprint_round_overflows t).
Qed.

Section whole.
Context {A : Allocator dblock} {AS : AllocSpec A} {AT : AllocTotal A}.
Context (g : dict_globals) (fr : dheap) (d : Z).
Notation seed := (dict_hash_function_seed g).
Implicit Types (h : dheap) (a : adict).

Lemma with_iters_ok n a : dict_ok seed a → dict_ok seed (with_iters n a).
Proof. intros [Ht Hnd]. split; [|exact Hnd]. by destruct Ht; [eapply TablesNone|eapply TablesOne|eapply TablesTwo]. Qed.

Lemma later_all a : later a 0 (-1) = a_ents a.
Proof. done. Qed.

Lemma fingerprint_run it I a h :
  dict_ok seed a → owns ((it, DIter I) :: dict_cells d a) fr h →
  dictFingerprint d (DState h g) = if t_at (a_t0 a) =? 0 then Done (0, DState h g) else Undef.
Proof.
  intros [Htab _] H. unfold dictFingerprint. run_to (load_d_run g fr d it a I h H).
  assert (∀ t, - 2 ^ 63 ≤ s64 t < 2 ^ 63) as Hs.
  { intros t. unfold s64. pose proof (Z.mod_pos_bound (t + 2 ^ 63) (2 ^ 64)). lia. }
  assert (tab_ok seed (a_t0 a) → lift (S := dstate) (fingerprint_loop 0
    [s64 (t_at (a_t0 a)); s64 (t_size (a_t0 a)); s64 (t_used (a_t0 a));
     s64 (t_at (a_t1 a)); s64 (t_size (a_t1 a)); s64 (t_used (a_t1 a))]) (DState h g) =
     if t_at (a_t0 a) =? 0 then Done (0, DState h g) else Undef) as Hok.
  { intros (Hat & Hsz & _). pose proof (size_ok_range _ Hsz) as Hr.
    destruct (Z.eqb_spec (t_at (a_t0 a)) 0); [done|].
    assert (s64 (t_size (a_t0 a)) = t_size (a_t0 a)) as -> by (unfold s64; rewrite Z.mod_small by lia; lia).
    by rewrite fingerprint_overflows by (apply Hs || lia). }
  destruct Htab as [H0 H1 _|Hok0 _ _|Hok0 _ _ _]; [|by apply Hok..].
  unfold a_block. rewrite H0, H1. reflexivity.
Qed.

(** The first call registers a safe iterator, or takes the fingerprint. *)
Lemma iter_first_run it s fp a h :
  owns ((it, DIter (DictIterator d 0 (-1) s 0 0 fp)) :: dict_cells d a) fr h →
  0 ≤ a_iters a < 2 ^ 31 - 1 → dict_ok seed a → (s = 0 → t_at (a_t0 a) = 0) →
  ∃ h' fp', iter_first it (DState h g) = Done (tt, DState h' g) ∧
    owns ((it, DIter (DictIterator d 0 (-1) s 0 0 fp')) ::
          dict_cells d (if s =? 0 then a else with_iters (a_iters a + 1) a)) fr h'.
Proof.
  intros H Hit Hok Hs0. unfold iter_first. run_to (load_iter_run g fr d it a _ h H).
  cbn [it_index it_table it_safe it_d Z.eqb Pos.eqb andb].
  destruct (Z.eqb_spec s 0) as [->|Hs]; cbn [negb].
  - pose proof (fingerprint_run _ _ _ _ Hok H) as Hf. rewrite Hs0 in Hf by done. run_to Hf.
    destruct (modify_iter_run g fr d it a _ (set_it_fingerprint 0) h H) as (h1 & Hrun & H1).
    by exists h1, 0.
  - run_to (load_d_run g fr d it a _ h H). cbn [a_block iterators].
    rewrite int_of_small by lia. run_by (apply lift_done).
    apply (owns_perm _ ((d, DDict (a_block a)) :: (it, DIter (DictIterator d 0 (-1) s 0 0 fp)) ::
      tab_cells (a_t0 a) ++ tab_cells (a_t1 a))) in H; [|unfold dict_cells; solve_Permutation].
    rewrite (modify_dict_at h g d _ _ (owns_lookup_hd _ _ _ _ _ H)).
    eexists _, fp. split; [done|]. apply owns_store with (b' := DDict (set_iterators (a_iters a + 1) (a_block a))) in H.
    revert H. apply owns_perm. unfold dict_cells. cbn. solve_Permutation.
Qed.

Lemma first_call_run it s fp a h :
  dict_ok seed a → (s = 0 → t_at (a_t0 a) = 0) → 0 ≤ a_iters a < 2 ^ 31 - 1 →
  owns ((it, DIter (DictIterator d 0 (-1) s 0 0 fp)) :: dict_cells d a) fr h →
  let a1 := if s =? 0 then a else with_iters (a_iters a + 1) a in
  returns g fr d it a1 (dictNext it) s (a_ents a) h.
Proof.
  intros Hok Hs0 Hit H a1. assert (Hok1 : dict_ok seed a1).
  { unfold a1. destruct (s =? 0); [done|by apply with_iters_ok]. }
  destruct (iter_first_run it s fp a h H Hit Hok Hs0) as (h1 & fp1 & Hfirst & H1). fold a1 in H1.
  assert (a_ents a = later a1 0 (-1)) as -> by (unfold a1; by destruct (s =? 0)).
  assert (∃ f, (3 + Z.to_nat (t_size (a_t0 a)) + Z.to_nat (t_size (a_t1 a)))%nat = S f ∧
    (rounds a1 0 (-1) < f)%nat) as (f & Heqf & Hf).
  { exists (2 + Z.to_nat (t_size (a_t0 a)) + Z.to_nat (t_size (a_t1 a)))%nat. split; [reflexivity|].
    unfold rounds, tab_list, a_tab, t_size, a1. destruct (s =? 0); cbn [Z.eqb with_iters a_t0 a_t1]; lia. }
  destruct (after_advance_run g fr d it a1 Hok1 f 0 (-1) s 0 fp1 h1) as (h2 & I2 & Hrun & Hrest);
    [|split; [by left|lia]|lia|exact H1|].
  { intros t' j' h' Hp' Hf' Hj' H'. by apply (next_bucket_run g fr d it a1 Hok1 f t' j' s 0 fp1). }
  exists h2, I2. split; [|exact Hrest]. rewrite <-Hrun. unfold dictNext.
  run_to (load_iter_run g fr d it a _ h H). cbn [it_d]. run_to (load_d_run g fr d it a _ h H).
  cbn [a_block ht0 ht1 header ht_size]. rewrite Heqf. cbn [dictNext_loop].
  run_to (load_iter_run g fr d it a _ h H). cbn [it_entry Z.eqb]. apply bind_same.
  unfold iter_bucket. by rewrite (bind_done _ _ _ _ _ Hfirst).
Qed.

Lemma dictGetIterator_run a h :
  owns (dict_cells d a) fr h →
  ∃ it h' fp, dictGetIterator d (DState h g) = Done (it, DState h' g) ∧ it ≠ 0 ∧
    owns ((it, DIter (DictIterator d 0 (-1) 0 0 0 fp)) :: dict_cells d a) fr h'.
Proof.
  intros H. unfold dictGetIterator, malloc_block.
  destruct (alloc_total h SIZEOF_ITERATOR) as [it Hit].
  pose proof (alloc_fresh _ _ _ Hit) as Hfresh. pose proof (alloc_pos _ _ _ Hit) as Hpos.
  erewrite bind_done by (cbn [heap]; rewrite Hit; reflexivity). cbn beta. unfold set_heap. cbn [globals].
  eapply (owns_alloc _ _ _ it) in H; [|exact Hfresh].
  edestruct (modify_iter_run g fr d it a) as (h1 & Hrun1 & H1); [exact H|]. run_to Hrun1.
  edestruct (modify_iter_run g fr d it a) as (h2 & Hrun2 & H2); [exact H1|]. run_to Hrun2.
  edestruct (modify_iter_run g fr d it a) as (h3 & Hrun3 & H3); [exact H2|]. run_to Hrun3.
  edestruct (modify_iter_run g fr d it a) as (h4 & Hrun4 & H4); [exact H3|]. run_to Hrun4.
  edestruct (modify_iter_run g fr d it a) as (h5 & Hrun5 & H5); [exact H4|]. run_to Hrun5.
  eexists it, h5, _. split; [done|]. split; [lia|]. exact H5.
Qed.

Lemma dictGetSafeIterator_run a h :
  owns (dict_cells d a) fr h →
  ∃ it h' fp, dictGetSafeIterator d (DState h g) = Done (it, DState h' g) ∧ it ≠ 0 ∧
    owns ((it, DIter (DictIterator d 0 (-1) 1 0 0 fp)) :: dict_cells d a) fr h'.
Proof.
  intros H. destruct (dictGetIterator_run a h H) as (it & h1 & fp & Hrun & Hz & H1).
  destruct (modify_iter_run g fr d it a _ (set_it_safe 1) h1 H1) as (h2 & Hrun2 & H2).
  exists it, h2, fp. split; [|by split]. unfold dictGetSafeIterator. run_to Hrun. by run_to Hrun2.
Qed.

Lemma dictReleaseIterator_run it I s a h :
  it ≠ 0 → it_d I = d → it_safe I = s → (it_table I = 0 → it_index I ≠ -1) →
  0 ≤ a_iters a < 2 ^ 31 - 1 →
  owns ((it, DIter I) :: dict_cells d (if s =? 0 then a else with_iters (a_iters a + 1) a)) fr h →
  ∃ h', dictReleaseIterator it (DState h g) = Done (tt, DState h' g) ∧ owns (dict_cells d a) fr h'.
Proof.
  intros Hz Hd Hs Hi Hit H. unfold dictReleaseIterator.
  run_to (load_iter_run g fr d it _ _ h H). rewrite Hs, Hd.
  replace (negb ((it_index I =? -1) && (it_table I =? 0))) with true.
  2: { destruct (Z.eqb_spec (it_table I) 0) as [Ht|]; [|by rewrite andb_false_r].
       by destruct (Z.eqb_spec (it_index I) (-1)); [destruct (Hi Ht)|]. }
  destruct (Z.eqb_spec s 0) as [->|Hne]; cbn [negb].
  - rewrite (bind_done _ _ _ tt (DState h g)) by done.
    rewrite (dict_free_at h g it _ Hz (owns_lookup_hd _ _ _ _ _ H)).
    eexists. split; [done|]. by eapply owns_free.
  - set (a1 := with_iters (a_iters a + 1) a) in *.
    apply (owns_perm _ ((d, DDict (a_block a1)) :: (it, DIter I) ::
      tab_cells (a_t0 a1) ++ tab_cells (a_t1 a1))) in H; [|unfold dict_cells; solve_Permutation].
    rewrite (bind_done _ _ _ tt (DState (<[d := DDict (set_iterators (a_iters a) (a_block a1))]> h) g)).
    2: { run_to (load_dict_at h g d _ (owns_lookup_hd _ _ _ _ _ H)). unfold a1.
         cbn [a_block iterators with_iters a_iters]. rewrite int_of_small by lia. run_by (apply lift_done).
         replace (a_iters a + 1 - 1) with (a_iters a) by lia.
         exact (modify_dict_at h g d _ _ (owns_lookup_hd _ _ _ _ _ H)). }
    apply owns_store with (b' := DDict (set_iterators (a_iters a) (a_block a1))) in H.
    revert H. generalize (<[d := DDict (set_iterators (a_iters a) (a_block a1))]> h). intros h1 H.
    apply (owns_perm _ ((it, DIter I) :: dict_cells d a)) in H.
    + rewrite (dict_free_at h1 g it _ Hz (owns_lookup_hd _ _ _ _ _ H)).
      eexists. split; [done|]. by eapply owns_free.
    + unfold dict_cells. cbn. solve_Permutation.
Qed.

Lemma iterate_run safe a h :
  dict_ok seed a → 0 ≤ a_iters a < 2 ^ 31 - 1 → owns (dict_cells d a) fr h →
  safe || (t_at (a_t0 a) =? 0) = true →
  iterate safe (S (length (a_ents a))) d (DState h g) = Done (e_at <$> a_ents a, DState h g).
Proof.
  intros Hok Hit H Hsafe. unfold iterate.
  assert (∃ it h' fp, (if safe then dictGetSafeIterator d else dictGetIterator d) (DState h g) =
      Done (it, DState h' g) ∧ it ≠ 0 ∧
    owns ((it, DIter (DictIterator d 0 (-1) (of_bool safe) 0 0 fp)) :: dict_cells d a) fr h')
    as (it & h1 & fp & Hrun & Hz & H1).
  { destruct safe; [by apply dictGetSafeIterator_run|by apply dictGetIterator_run]. }
  run_to Hrun. assert (of_bool safe = 0 → t_at (a_t0 a) = 0) as Hs0 by (destruct safe; [done|]; intros _; by apply Z.eqb_eq).
  pose proof (first_call_run it (of_bool safe) fp a h1 Hok Hs0 Hit H1) as Hfirst.
  set (a1 := if of_bool safe =? 0 then a else with_iters (a_iters a + 1) a) in *. cbn zeta in Hfirst.
  assert (Hok1 : dict_ok seed a1) by (destruct safe; [by apply with_iters_ok|done]).
  destruct Hfirst as (h2 & I2 & Hrun2 & H2 & Hs2 & Hd2 & Hi2 & Hrest).
  assert (∃ h3 I3, next_all it (S (length (a_ents a))) (DState h1 g) = Done (e_at <$> a_ents a, DState h3 g) ∧
    owns ((it, DIter I3) :: dict_cells d a1) fr h3 ∧ it_safe I3 = of_bool safe ∧ it_d I3 = d ∧
    (it_table I3 = 0 → it_index I3 ≠ -1)) as (h3 & I3 & Hrun3 & H3 & Hs3 & Hd3 & Hi3).
  { cbn [next_all]. run_to Hrun2. destruct (a_ents a) as [|e l] eqn:He; [by exists h2, I2|].
    cbn [head_or]. assert (e_at e ≠ 0) as Hez.
    { apply (ent_ptr_nonnull g a e Hok). rewrite He. apply list_elem_of_here. }
    destruct (Z.eqb_spec (e_at e) 0); [done|]. destruct Hrest as [|Hat]; [done|]. cbn [tail length] in *.
    destruct (next_all_run g fr d it a1 Hok1 (S (length l)) I2 _ l h2 Hat H2) as (h3 & I3 & Hrun3 & Hrest3); [lia|].
    exists h3, I3. by run_to Hrun3. }
  run_to Hrun3.
  destruct (dictReleaseIterator_run it I3 _ a h3 Hz Hd3 Hs3 Hi3 Hit H3) as (h4 & Hrun4 & H4).
  run_to Hrun4. by rewrite (owns_unique _ _ _ _ H4 H).
Qed.

(** The first call of an unsafe iterator takes the fingerprint. *)
Lemma iterate_undefined a h n :
  dict_ok seed a → owns (dict_cells d a) fr h → t_at (a_t0 a) ≠ 0 →
  iterate false (S n) d (DState h g) = Undef.
Proof.
  intros Hok H Hat. destruct (dictGetIterator_run a h H) as (it & h1 & fp & Hrun & _ & H1).
  unfold iterate. run_to Hrun. apply bind_undef. cbn [next_all]. apply bind_undef. unfold dictNext.
  run_to (load_iter_run g fr d it a _ h1 H1). cbn [it_d]. run_to (load_d_run g fr d it a _ h1 H1).
  cbn [Nat.add dictNext_loop]. run_to (load_iter_run g fr d it a _ h1 H1). cbn [it_entry Z.eqb].
  apply bind_undef. unfold iter_bucket. apply bind_undef. unfold iter_first.
  run_to (load_iter_run g fr d it a _ h1 H1). cbn [it_index it_table it_safe it_d Z.eqb Pos.eqb andb negb].
  apply bind_undef. rewrite (fingerprint_run _ _ _ _ Hok H1). by destruct (Z.eqb_spec (t_at (a_t0 a)) 0).
Qed.
End whole.
