(* ===== verification/DictTheorems.v ===== *)
(** * DictTheorems: what redisdict.c guarantees

    The properties of the public functions of redisdict.c, each with an
    instance on a small dictionary built by the code itself over the bump
    allocator. *)

From S2P Require Import Prelude.
From S2P Require Import Own.
From S2P Require Import Heap.
From S2P Require Import DictHash.
From S2P Require Import Dict.
From S2P Require Import DictMem.
From S2P Require Import DictProofs.
From S2P Require Import DictRehash.
From S2P Require Import DictOps.
From S2P Require Import DictDelete.
From S2P Require Import DictMap.
From S2P Require Import MapSpec.
From S2P Require Import DictScan.
From S2P Require Import DictIter.
From S2P Require Import DictRandom.

(** ** A small dictionary to instantiate the theorems at *)

#[local] Existing Instance bump_alloc.
#[local] Existing Instance bump_alloc_spec.
#[local] Existing Instance bump_alloc_total.

Definition str_a : list Z := [97].
Definition str_b : list Z := [98].
(** The strings the callers own. *)
Definition demo_frame : dheap := {[ 8 := DString (cstr str_a); 24 := DString (cstr str_b) ]}.

Lemma demo_seed : seed_ok initial_globals.
Proof. unfold seed_ok. cbn. lia. Qed.
Lemma demo_key_a : key_at demo_frame 8 str_a.
Proof. split; [done|]. split; [repeat constructor; lia|done]. Qed.
Lemma demo_key_b : key_at demo_frame 24 str_b.
Proof. split; [done|]. split; [repeat constructor; lia|done]. Qed.

Lemma demo_new : ∃ d s, d ≠ 0 ∧ drepr initial_globals d ∅ demo_frame s.
Proof.
  destruct (dictCreate_spec initial_globals demo_frame demo_seed) as (d & s & _ & Hrep & Hd). by exists d, s.
Qed.

Lemma demo_dict : ∃ d s, d ≠ 0 ∧ drepr initial_globals d {[str_a := 5]} demo_frame s.
Proof.
  destruct demo_new as (d & s & Hd & Hrep). exists d.
  destruct (dictAdd_spec initial_globals d ∅ demo_frame s 8 str_a 5 Hrep demo_key_a ltac:(done))
    as (s' & _ & Hrep').
  destruct (decide (is_Some ((∅ : kvmap) !! str_a))) as [[? H]|]; [by rewrite lookup_empty in H|].
  by exists s'.
Qed.

Section theorems.
Context {A : Allocator dblock} {AS : AllocSpec A} {AT : AllocTotal A}.
Implicit Types (g : dict_globals) (d kp v : Z) (M : kvmap) (fr : dheap) (s : dstate) (k : list Z).

(** Claim C12: [dictFind] returns null exactly for the keys that are not in
    the map, and otherwise the entry with the key's string and the stored
    value; the rehashing step it may perform does not change the map. *)
Theorem dictFind_correct g d M fr s kp k :
  drepr g d M fr s → key_at fr kp k →
  ∃ p s', dictFind d kp s = Done (p, s') ∧ drepr g d M fr s' ∧
    match M !! k with
    | Some v => p ≠ 0 ∧ ∃ e, load_entry p s' = Done (e, s') ∧ val e = v ∧
                             load_string (key e) s' = Done (cstr k, s')
    | None => p = 0
    end.
Proof. apply dictFind_spec. Qed.

(** Claim C11: [dictAdd] returns [DICT_ERR] and keeps the map when the key is
    present; otherwise it returns [DICT_OK] and binds the key to the value,
    whether or not the call expands the table or moves a bucket. *)
Theorem dictAdd_correct g d M fr s kp k v :
  drepr g d M fr s → key_at fr kp k → Z.of_nat (size M) < map_limit →
  ∃ s', dictAdd d kp v s =
      Done (if decide (is_Some (M !! k)) then DICT_ERR else DICT_OK, s') ∧
    drepr g d (if decide (is_Some (M !! k)) then M else <[k := v]> M) fr s'.
Proof. apply dictAdd_spec. Qed.

(** [dictReplace] binds the key to the new value in every case and
    returns 1 exactly when the key was not there before. *)
Lemma dictReplace_correct g d M fr s kp k v :
  drepr g d M fr s → key_at fr kp k → Z.of_nat (size M) < map_limit →
  ∃ s', dictReplace d kp v s = Done (if decide (is_Some (M !! k)) then 0 else 1, s') ∧
    drepr g d (<[k := v]> M) fr s'.
Proof. apply dictReplace_spec. Qed.

(** Claim C13: [dictDelete] returns [DICT_OK] exactly when the key is in the
    map and removes it; its entry and its string are freed (the memory holds
    nothing but the smaller dictionary and the frame). *)
Theorem dictDelete_correct g d M fr s kp k :
  drepr g d M fr s → key_at fr kp k →
  ∃ s', dictDelete d kp s = Done (if decide (is_Some (M !! k)) then DICT_OK else DICT_ERR, s') ∧
    drepr g d (delete k M) fr s'.
Proof. apply dictDelete_spec. Qed.

(** [dictDeleteNoFree] removes a key of the map and frees its
    entry but leaves the key's string allocated, to the caller. *)
Lemma dictDeleteNoFree_keeps_key g d M fr s kp k v :
  drepr g d M fr s → key_at fr kp k → M !! k = Some v →
  ∃ kp' s', dictDeleteNoFree d kp s = Done (DICT_OK, s') ∧ fr !! kp' = None ∧
    drepr g d (delete k M) (<[kp' := DString (cstr k)]> fr) s'.
Proof. apply dictDeleteNoFree_spec. Qed.

(** [dictRelease] frees every entry, every key, both tables and
    the dictionary itself, also in the middle of a rehash: what remains is
    the frame. *)
Lemma dictRelease_frees_all g d M fr s :
  drepr g d M fr s → d ≠ 0 → dictRelease d s = Done (tt, DState fr g).
Proof. apply dictRelease_spec. Qed.


(** When resizing is enabled and no rehash is in progress,
    [dictResize] starts a rehash of the (unchanged) map towards a table of
    the least power of two that is at least 4 and at least the number of
    keys. *)
Lemma dictResize_correct g d a fr s :
  dict_at g d a fr s → dict_can_resize g ≠ 0 → a_idx a = -1 → t_at (a_t0 a) ≠ 0 →
  Z.of_nat (size (a_map a)) < map_limit →
  ∃ a' p s', dictResize d s = Done (DICT_OK, s') ∧ dict_at g d a' fr s' ∧ a_map a' = a_map a ∧
    a_idx a' = 0 ∧ t_size (a_t1 a') = 2 ^ p ∧
    Z.max 4 (Z.of_nat (size (a_map a))) ≤ 2 ^ p ∧
    (p = 2 ∨ 2 ^ (p - 1) < Z.max 4 (Z.of_nat (size (a_map a)))).
Proof.
  intros (h & -> & Hm & Hok & Hsm & Hs) Hres Hidx Hat Hsz.
  assert (t_used (a_t0 a) = Z.of_nat (size (a_map a))) as Hused.
  { rewrite <-(length_a_ents _ a Hok). unfold t_used, a_ents.
    by rewrite (tables_single g a Hok Hidx), t_ents_null, app_nil_r. }
  unfold map_limit in Hsz. unfold dictResize. run_by (reflexivity). cbn [globals].
  run_to (load_dict_at h g d _ (owns_lookup_hd _ _ _ _ _ Hm)).
  unfold dictIsRehashing. cbn [a_block rehashidx ht0 header used]. rewrite Hidx, Hused.
  destruct (Z.eqb_spec (dict_can_resize g) 0); [done|]. cbn [orb negb Z.eqb Pos.eqb].
  rewrite s32_small by lia. cbv zeta.
  replace (if Z.of_nat (size (a_map a)) <? DICT_HT_INITIAL_SIZE then DICT_HT_INITIAL_SIZE
           else Z.of_nat (size (a_map a))) with (Z.max 4 (Z.of_nat (size (a_map a)))).
  2: { unfold DICT_HT_INITIAL_SIZE. destruct (Z.ltb_spec (Z.of_nat (size (a_map a))) 4); lia. }
  rewrite u64_small by lia.
  destruct (dictExpand_run g fr d a h (Z.max 4 (Z.of_nat (size (a_map a)))) Hm Hok)
    as (t & p & h' & Hrun & Ht & Hp & Hle & Hmin & Hm'); [lia|done|lia|].
  destruct (expanded_ok g a t p Hok Hidx Ht Hp) as [Hok' Hsame].
  unfold expanded in *. destruct (Z.eqb_spec (t_at (a_t0 a)) 0); [done|].
  eexists. exists p. eexists. split; [exact Hrun|]. split; [|split; [by eapply same_map|]].
  - exists h'. split; [done|]. split; [exact Hm'|]. split; [done|]. split; [|done]. by eapply same_small.
  - split; [done|]. split; [|done]. cbn [a_t1]. unfold t_size. cbn. rewrite length_replicate.
    pose proof (pow2_pos p ltac:(lia)). lia.
Qed.

(** Claim C34: a scan of a dictionary that is not being rehashed — [dictScan]
    called from cursor 0 until it returns 0 — takes one call per bucket,
    reports every entry exactly once and changes nothing. *)
Theorem dictScan_complete g d a p fr s :
  dict_at g d a fr s → a_idx a = -1 → a_map a ≠ ∅ → 0 ≤ p ≤ 30 → t_size (a_t0 a) = 2 ^ p →
  ∃ l, scan_from (Z.to_nat (2 ^ p)) d 0 s = Done (l, s) ∧ l ≡ₚ e_at <$> a_ents a.
Proof.
  intros (h & -> & Hm & Hok & Hsm & Hs) Hidx Hne Hp Hsz.
  apply (scan_all_run g fr d a h p Hm Hok Hsm Hidx); [|done|done].
  intros Hnil. apply Hne. unfold a_map. by rewrite Hnil.
Qed.

(** Claim C35: an iteration with a safe iterator — [dictNext] called until it
    returns null, then [dictReleaseIterator] — returns every entry of the
    dictionary exactly once, in the order of the tables, also while the
    dictionary is being rehashed, and leaves memory as it was: the iterator is
    freed and the dictionary's count of safe iterators is back.  With an unsafe
    iterator that is so of a dictionary without a table, which has no entries;
    on any other the first [dictNext] is undefined, because the arithmetic of
    [dictFingerprint] overflows. *)
Theorem dict_iterator_complete safe g d a fr s :
  dict_at g d a fr s → 0 ≤ a_iters a < 2 ^ 31 - 1 →
  iterate safe (S (size (a_map a))) d s =
    if safe || (t_at (a_t0 a) =? 0) then Done (e_at <$> a_ents a, s) else Undef.
Proof.
  intros (h & -> & Hm & Hok & _ & _) Hit. destruct (safe || (t_at (a_t0 a) =? 0)) eqn:Hsafe.
  - rewrite <-(length_a_ents _ _ Hok). by apply (iterate_run g fr d safe a h).
  - apply orb_false_iff in Hsafe as [-> Hat%Z.eqb_neq]. by apply (iterate_undefined g fr d a).
Qed.

(** [dictGetRandomKey] returns null for an empty dictionary, and for any other
    an entry of it, if the numbers that rand() yields ever hit a bucket that is
    not empty; and for every entry there are two numbers for which it returns
    that entry.  A rehashing step on the way keeps the map. *)
Lemma dictGetRandomKey_correct g d a fr s :
  dict_at g d a fr s → Z.of_nat (size (a_map a)) < 2 ^ 31 →
  (a_ents a = [] → ∀ rs, dictGetRandomKey rs d s = Done (0, s)) ∧
  (a_ents a ≠ [] → ∀ rs, Forall (λ r, 0 ≤ r) rs →
     dictGetRandomKey rs d s = NoFuel ∨
     ∃ e s', e ∈ a_ents a ∧ dictGetRandomKey rs d s = Done (e_at e, s') ∧ drepr g d (a_map a) fr s') ∧
  (∀ e, e ∈ a_ents a → ∃ r1 r2 s', 0 ≤ r1 < 2 ^ 31 ∧ 0 ≤ r2 < 2 ^ 31 ∧
     dictGetRandomKey [r1; r2] d s = Done (e_at e, s') ∧ drepr g d (a_map a) fr s').
Proof.
  intros (h & -> & Hm & Hok & Hsmall & Hs) Hsize. rewrite <-(length_a_ents _ _ Hok) in Hsize.
  assert (∀ c e, returns_entry g fr d c (DState h g) a e →
    ∃ s', e ∈ a_ents a ∧ c (DState h g) = Done (e_at e, s') ∧ drepr g d (a_map a) fr s') as Hret.
  { intros c e (a' & h' & Hrun & Hm' & Hok' & Hsame & Hin). exists (DState h' g).
    rewrite <-(same_perm _ _ Hsame). split; [done|]. split; [done|].
    eapply drepr_intro; try done; [by eapply same_small|by eapply same_map]. }
  split; [|split].
  - intros Hnil rs. unfold dictGetRandomKey. run_to (load_dict_at h g d _ (owns_lookup_hd _ _ _ _ _ Hm)).
    assert (dictSize (a_block a) = 0) as ->; [|done].
    unfold dictSize. cbn [a_block ht0 ht1 header used]. unfold t_used. apply (f_equal length) in Hnil.
    unfold a_ents in Hnil. rewrite length_app in Hnil. cbn in Hnil. rewrite u64_small; lia.
  - intros Hne rs Hrs. destruct (random_entry g fr d Hs rs a h Hm Hok Hsize Hne Hrs) as [|[e He]]; [by left|right].
    exists e. by apply Hret.
  - intros e He. destruct (every_entry g fr d Hs a h e Hm Hok Hsize He) as (r1 & r2 & Hr1 & Hr2 & Hret').
    exists r1, r2. destruct (Hret _ _ Hret') as (s' & _ & Hrun & Hrep). by exists s'.
Qed.

(** Claim C14: redisdict.c refines finite maps: any sequence of [add], [find]
    and [del] calls on a dictionary returns what the same calls on the map
    return. *)
Theorem dict_refines_map g fr (Hg : seed_ok g) d M s os :
  drepr g d M fr s → @ops_ok _ _ (dict_spec g Hg fr) os M →
  ∃ s', run_ops d os s = Done ((spec_ops os M).1, s') ∧ drepr g d (spec_ops os M).2 fr s'.
Proof. intros Hs Hos. exact (run_ops_refines (MS := dict_spec g Hg fr) os d M s Hs Hos). Qed.
End theorems.

(** [_dictNextPower] terminates and returns the least power of two
    that is at least 4 and not below [size], for every size up to [LONG_MAX]. *)
Lemma dictNextPower_least size :
  0 ≤ size < LONG_MAX →
  ∃ q, _dictNextPower size = Done (2 ^ q) ∧ 2 ≤ q ≤ 63 ∧ size ≤ 2 ^ q ∧ (q = 2 ∨ 2 ^ (q - 1) < size).
Proof. apply dictNextPower_ok. Qed.

(** For sizes from [LONG_MAX] on the answer is not a power of two,
    against the comment that table capacities are. *)
Lemma dictNextPower_long_max size :
  LONG_MAX ≤ size → _dictNextPower size = Done LONG_MAX ∧ ¬ ∃ q, 0 ≤ q ∧ LONG_MAX = 2 ^ q.
Proof.
  intros Hsz. unfold _dictNextPower. destruct (Z.leb_spec LONG_MAX size); [|lia]. split; [done|].
  intros (q & Hq & Heq). unfold LONG_MAX in Heq.
  destruct (Z.eq_dec q 0) as [->|]; [done|].
  apply (f_equal Z.odd) in Heq. rewrite Z.odd_pow in Heq by lia. done.
Qed.

(** Thomas Wang's mixer is injective on 32-bit keys: two different
    integers never have the same full hash. *)
Lemma dictIntHashFunction_injective x y :
  0 ≤ x < 2 ^ 32 → 0 ≤ y < 2 ^ 32 → dictIntHashFunction x = dictIntHashFunction y → x = y.
Proof.
  intros Hx Hy Heq. unfold dictIntHashFunction in Heq. cbv zeta in Heq.
  apply (add_not_shift_inj 15); [lia|reflexivity|done|done|].
  apply (xorshift_inj 10); [lia|apply u32_range|apply u32_range|].
  apply (add_shift_inj 3); [lia|reflexivity|apply xorshift_bound; (lia || apply u32_range)..|].
  apply (xorshift_inj 6); [lia|apply u32_range|apply u32_range|].
  apply (add_not_shift_inj 11); [lia|reflexivity|apply xorshift_bound; (lia || apply u32_range)..|].
  apply (xorshift_inj 16); [lia|apply u32_range|apply u32_range|exact Heq].
Qed.

(** Claim C40: [rev] mirrors the 64 bits of its argument and is its own
    inverse. *)
Theorem rev_mirrors v :
  0 ≤ v < 2 ^ 64 →
  ∃ w, rev v = Done w ∧ rev w = Done v ∧ ∀ i, 0 ≤ i < 64 → Z.testbit w i = Z.testbit v (63 - i).
Proof.
  intros Hv. exists (rev_pure v). split; [apply rev_pure_eq|]. split.
  - rewrite rev_pure_eq. by rewrite rev_pure_involutive.
  - intros i. apply rev_pure_testbit.
Qed.

(** ** Scanning while the table shrinks *)

(** A run of the library by one client: sixteen one-letter keys make a table
    of 16 buckets; a scan is begun; all keys but ["Y"] are deleted and the
    table is shrunk to 4 buckets; the scan goes on with the cursor it got. *)
Definition letters : list Z := 89 :: seqZ 97 15.
Definition letter_at (c : Z) : Z := 16 * (c - 80) + 8.
Definition letters_frame : dheap := list_to_map ((λ c, (letter_at c, DString (cstr [c]))) <$> letters).

Fixpoint for_each (f : Z → cmd dstate Z) (cs : list Z) : cmd dstate unit :=
  match cs with [] => mret tt | c :: cs => _ ← f c; for_each f cs end.

(** The entry of ["Y"] before and after the scan, and what the scan reported. *)
Definition shrinking_scan : cmd dstate (Z * list Z * Z) :=
  d ← Dict.init;
  _ ← for_each (λ c, dictAdd d (letter_at c) c) letters;
  _ ← dictRehash d 100;
  before ← dictFind d (letter_at 89);
  '(v, l) ← dictScan d 0;
  _ ← for_each (λ c, dictDelete d (letter_at c)) (seqZ 97 15);
  _ ← dictResize d;
  l' ← scan_from 20 d v;
  after ← dictFind d (letter_at 89);
  mret (before, l ++ l', after).

(** An element that is in the dictionary from the start to the end
    of a scan need not be reported when the table shrinks during the scan,
    although the documentation of [dictScan] guarantees it: the loop over the
    expansions of the cursor starts at the cursor's own high bits and stops at
    the wrap-around, so it skips the expansions below. *)
Lemma dictScan_misses_when_shrinking :
  ∃ p l s', shrinking_scan (DState letters_frame initial_globals) = Done ((p, l, p), s') ∧ p ≠ 0 ∧ p ∉ l.
Proof.
  assert (match shrinking_scan (DState letters_frame initial_globals) with
          | Done ((p, l, q), _) => (p =? q) && negb (p =? 0) && bool_decide (p ∉ l)
          | _ => false
          end = true) as H by (vm_compute; reflexivity).
  destruct (shrinking_scan (DState letters_frame initial_globals)) as [[[[p l] q] s']| | |]; [|done..].
  apply andb_prop in H as [H Hl%bool_decide_eq_true]. apply andb_prop in H as [->%Z.eqb_eq Hp%negb_true_iff].
  apply Z.eqb_neq in Hp. by exists q, l, s'.
Qed.

(** ** Instances *)

Lemma dictFind_correct_witness :
  ∃ d s p s', dictFind d 8 s = Done (p, s') ∧ p ≠ 0 ∧
    ∃ e, load_entry p s' = Done (e, s') ∧ val e = 5 ∧ load_string (key e) s' = Done (cstr str_a, s').
Proof.
  destruct demo_dict as (d & s & _ & Hrep). exists d, s.
  destruct (dictFind_correct initial_globals d _ demo_frame s 8 str_a Hrep demo_key_a)
    as (p & s' & Hrun & _ & Hres).
  exists p, s'. split; [exact Hrun|exact Hres].
Defined.

Lemma dictAdd_correct_witness :
  ∃ d s s', dictAdd d 24 7 s = Done (DICT_OK, s') ∧
    drepr initial_globals d (<[str_b := 7]> {[str_a := 5]}) demo_frame s'.
Proof.
  destruct demo_dict as (d & s & _ & Hrep). exists d, s.
  destruct (dictAdd_correct initial_globals d _ demo_frame s 24 str_b 7 Hrep demo_key_b ltac:(done))
    as (s' & Hrun & Hrep').
  exists s'. split; [exact Hrun|exact Hrep'].
Defined.

Lemma dictReplace_correct_witness :
  ∃ d s s', dictReplace d 8 7 s = Done (0, s') ∧
    drepr initial_globals d (<[str_a := 7]> {[str_a := 5]}) demo_frame s'.
Proof.
  destruct demo_dict as (d & s & _ & Hrep). exists d, s.
  destruct (dictReplace_correct initial_globals d _ demo_frame s 8 str_a 7 Hrep demo_key_a ltac:(done))
    as (s' & Hrun & Hrep').
  exists s'. split; [exact Hrun|exact Hrep'].
Defined.

Lemma dictDelete_correct_witness :
  ∃ d s s', dictDelete d 8 s = Done (DICT_OK, s') ∧
    drepr initial_globals d (delete str_a {[str_a := 5]}) demo_frame s'.
Proof.
  destruct demo_dict as (d & s & _ & Hrep). exists d, s.
  destruct (dictDelete_correct initial_globals d _ demo_frame s 8 str_a Hrep demo_key_a) as (s' & Hrun & Hrep').
  exists s'. split; [exact Hrun|exact Hrep'].
Defined.

Lemma dictDeleteNoFree_keeps_key_witness :
  ∃ d s kp' s', dictDeleteNoFree d 8 s = Done (DICT_OK, s') ∧ demo_frame !! kp' = None ∧
    drepr initial_globals d (delete str_a {[str_a := 5]}) (<[kp' := DString (cstr str_a)]> demo_frame) s'.
Proof.
  destruct demo_dict as (d & s & _ & Hrep). exists d, s.
  apply (dictDeleteNoFree_keeps_key initial_globals d _ demo_frame s 8 str_a 5 Hrep demo_key_a). reflexivity.
Defined.

Lemma dictRelease_frees_all_witness :
  ∃ d s, dictRelease d s = Done (tt, DState demo_frame initial_globals).
Proof.
  destruct demo_dict as (d & s & Hd & Hrep). exists d, s.
  exact (dictRelease_frees_all initial_globals d _ demo_frame s Hrep Hd).
Defined.

(** A valid dictionary with one table, for the theorems that need to know. *)
Definition one_entry : adict :=
  ADict 0 (Tab 48 [[]; []; []; [Ent 64 80 str_a 5]]) null_tab (-1) 0.
Definition one_state : dstate :=
  DState (list_to_map (dict_cells 32 one_entry) ∪ demo_frame) initial_globals.

Lemma one_entry_at : dict_at initial_globals 32 one_entry demo_frame one_state.
Proof.
  exists (list_to_map (dict_cells 32 one_entry) ∪ demo_frame). split; [done|]. split; [|split; [|split; [done|exact demo_seed]]].
  - split; [apply (bool_decide_unpack _); vm_compute; exact I|]. split; [|done].
    intros x Hx. change ((dict_cells 32 one_entry).*1) with [32; 48; 64; 80] in Hx.
    rewrite !elem_of_cons, elem_of_nil in Hx. by destruct Hx as [->|[->|[->|[->|[]]]]].
  - split; [apply TablesOne; [|done|done]|apply (bool_decide_unpack _); vm_compute; exact I].
    split; [done|]. split; [exists 2; done|].
    assert (bucket_of (dict_hash_function_seed initial_globals) (a_t0 one_entry) str_a = 3%nat) as Hb
      by (vm_compute; reflexivity).
    intros [|[|[|[|i]]]] l Hl; [injection Hl as <- ..|done]; try done.
    apply Forall_singleton. split; [done|]. split; [done|]. split; [|exact Hb].
    split; [repeat constructor; lia|done].
Qed.

(** A dictionary whose rehash is in progress: both keys are in the last bucket
    of the old table, and will be in different buckets of the new one. *)
Definition two_tables : adict :=
  ADict 0 (Tab 48 [[]; []; []; [Ent 64 80 str_a 5; Ent 96 112 str_b 6]]) (Tab 128 (replicate 8 [])) 0 0.
Definition rehashing_state : dstate :=
  DState (list_to_map (dict_cells 32 two_tables) ∪ demo_frame) initial_globals.

Lemma two_tables_at : dict_at initial_globals 32 two_tables demo_frame rehashing_state.
Proof.
  exists (list_to_map (dict_cells 32 two_tables) ∪ demo_frame). split; [done|].
  split; [|split; [|split; [done|exact demo_seed]]].
  - split; [apply (bool_decide_unpack _); vm_compute; exact I|]. split; [|done].
    intros x Hx. change ((dict_cells 32 two_tables).*1) with [32; 48; 64; 80; 96; 112; 128] in Hx.
    rewrite !elem_of_cons, elem_of_nil in Hx. by destruct Hx as [->|[->|[->|[->|[->|[->|[->|[]]]]]]]].
  - split; [|apply (bool_decide_unpack _); vm_compute; exact I].
    apply TablesTwo; [| |done|intros i l _ Hlt; cbn in Hlt; lia].
    + split; [done|]. split; [exists 2; done|].
      assert (bucket_of (dict_hash_function_seed initial_globals) (a_t0 two_tables) str_a = 3%nat) as Ha
        by (vm_compute; reflexivity).
      assert (bucket_of (dict_hash_function_seed initial_globals) (a_t0 two_tables) str_b = 3%nat) as Hb
        by (vm_compute; reflexivity).
      intros [|[|[|[|i]]]] l Hl; [injection Hl as <- ..|done]; try done.
      repeat constructor; try done; cbn; lia.
    + split; [done|]. split; [exists 3; done|]. intros i l Hl. cbn [a_t1 two_tables t_buckets] in Hl.
      apply lookup_replicate in Hl as [-> _]. done.
Qed.


Lemma dictResize_correct_witness :
  ∃ a' p s', dictResize 32 one_state = Done (DICT_OK, s') ∧ a_map a' = a_map one_entry ∧ t_size (a_t1 a') = 2 ^ p.
Proof.
  destruct (dictResize_correct initial_globals 32 one_entry demo_frame one_state one_entry_at
              ltac:(done) ltac:(reflexivity) ltac:(done) ltac:(vm_compute; reflexivity))
    as (a' & p & s' & Hrun & _ & Hmap & _ & Hsz & _).
  by exists a', p, s'.
Defined.

Lemma dictScan_complete_witness :
  ∃ l, scan_from (Z.to_nat (2 ^ 2)) 32 0 one_state = Done (l, one_state) ∧ l ≡ₚ e_at <$> a_ents one_entry.
Proof.
  apply (dictScan_complete initial_globals 32 one_entry 2 demo_frame one_state one_entry_at);
    [reflexivity|vm_compute; discriminate|lia|reflexivity].
Defined.

Lemma dict_iterator_complete_witness :
  iterate true 3 32 rehashing_state = Done ([64; 96], rehashing_state) ∧
  iterate false 3 32 rehashing_state = Undef.
Proof.
  split.
  - apply (dict_iterator_complete true initial_globals 32 two_tables demo_frame rehashing_state two_tables_at). done.
  - apply (dict_iterator_complete false initial_globals 32 two_tables demo_frame rehashing_state two_tables_at). done.
Defined.

Lemma dict_refines_map_witness :
  ∃ d s s', run_ops d [Find str_a; Add str_b 7; Del str_a] s = Done ([5; 0; 0], s').
Proof.
  destruct demo_dict as (d & s & _ & Hrep). exists d, s.
  destruct (dict_refines_map initial_globals demo_frame demo_seed d _ s
              [Find str_a; Add str_b 7; Del str_a] Hrep) as (s' & Hrun & _).
  - cbn. repeat split; try done; repeat constructor; lia.
  - exists s'. exact Hrun.
Defined.

Lemma dictNextPower_least_witness :
  ∃ q, _dictNextPower 100 = Done (2 ^ q) ∧ 2 ≤ q ≤ 63 ∧ 100 ≤ 2 ^ q ∧ (q = 2 ∨ 2 ^ (q - 1) < 100).
Proof. apply (dictNextPower_least 100). unfold LONG_MAX. lia. Defined.

Lemma dictNextPower_long_max_witness :
  _dictNextPower LONG_MAX = Done LONG_MAX ∧ ¬ ∃ q, 0 ≤ q ∧ LONG_MAX = 2 ^ q.
Proof. apply (dictNextPower_long_max LONG_MAX). lia. Defined.

Lemma dictIntHashFunction_injective_witness : 7 = 7.
Proof. apply (dictIntHashFunction_injective 7 7); [lia|lia|reflexivity]. Defined.

Lemma rev_mirrors_witness :
  ∃ w, rev 1 = Done w ∧ rev w = Done 1 ∧ ∀ i, 0 ≤ i < 64 → Z.testbit w i = Z.testbit 1 (63 - i).
Proof. apply (rev_mirrors 1). lia. Defined.
