(* ===== verification/Art.v ===== *)
(** * Art: the adaptive radix tree of art.c

    A node is owned by the one pointer that leads to it, so the tree is a
    value: an update of [*ref] is the new node a function returns, and a free
    is a node that is not part of the result.  Everything else is as in the C
    code: the four kinds of node with their arrays (stale slots included),
    [uint8_t] and [uint32_t] counters that wrap, [char] compared as a signed
    byte and [unsigned char] as an unsigned one, the SSE comparisons as byte
    masks.  Reads outside of an array and [abort] are [Undef]; recursions take
    the height of the tree, or the length of the key, as fuel. *)

From S2P Require Import Prelude.
From S2P Require Import Critbit.

(** ** Data *)

Definition NODE4 : Z := 1.
Definition NODE16 : Z := 2.
Definition NODE48 : Z := 3.
Definition NODE256 : Z := 4.
Definition MAX_PREFIX_LEN : Z := 10.

(** [art_node]: the part every kind of node starts with. *)
Record art_header := Header {
  type : Z;
  num_children : Z;
  partial_len : Z;
  partial : list Z;
}.

(** The key array of a leaf: [key_len] bytes, then the bytes that are left of
    the allocated block. *)
Record art_leaf := ArtLeaf { value : Z; key_len : Z; leaf_key : list Z }.

(** A pointer: null, to a leaf (tagged), to a node, or to freed memory. *)
#[warnings="-register-all"]
Inductive art_node :=
  | Null
  | Leaf (l : art_leaf)
  | Inner (n : art_header) (keys : list Z) (children : list art_node)
  | Freed.

Record art_tree := Tree { root : art_node; size : Z }.

Definition IS_LEAF (n : art_node) : bool := match n with Leaf _ => true | _ => false end.
Definition is_null (n : art_node) : bool := match n with Null => true | _ => false end.

Fixpoint height (n : art_node) : nat :=
  match n with
  | Inner _ _ cs => S (foldr Nat.max 0%nat (map height cs))
  | _ => 1%nat
  end.

(** ** Arrays *)

Section arrays.
Context {B : Type}.
Implicit Types (a : list B).

Definition arr_get a (i : Z) : outcome B :=
  if i <? 0 then Undef else of_option (a !! Z.to_nat i).
Definition arr_set a (i : Z) (x : B) : outcome (list B) :=
  if (i <? 0) || (Z.of_nat (length a) <=? i) then Undef else Done (<[Z.to_nat i := x]> a).

(** [memcpy(dst + i, src + j, n)] of [n] elements. *)
Definition arr_copy (dst : list B) (i : Z) (src : list B) (j n : Z) : outcome (list B) :=
  if (i <? 0) || (j <? 0) || (n <? 0) || (Z.of_nat (length dst) <? i + n) ||
     (Z.of_nat (length src) <? j + n)
  then Undef
  else Done (take (Z.to_nat i) dst ++ take (Z.to_nat n) (drop (Z.to_nat j) src) ++
             drop (Z.to_nat (i + n)) dst).

(** [memmove] inside one array. *)
Definition arr_move a (i j n : Z) : outcome (list B) := arr_copy a i a j n.
End arrays.

(** [memcmp]: the difference of the first bytes that differ. *)
Fixpoint memcmp_bytes (n : nat) (a b : list Z) : outcome Z :=
  match n with
  | O => Done 0
  | S n =>
      match a, b with
      | x :: a, y :: b => if x =? y then memcmp_bytes n a b else Done (x - y)
      | _, _ => Undef
      end
  end.
Definition memcmp (a b : list Z) (n : Z) : outcome Z := if n <? 0 then Undef else memcmp_bytes (Z.to_nat n) a b.

(** [_mm_movemask_epi8] of a comparison of 16 bytes, and [__builtin_ctz]. *)
Fixpoint movemask (bs : list bool) : Z :=
  match bs with [] => 0 | b :: bs => of_bool b + 2 * movemask bs end.
Fixpoint ctz_loop (fuel : nat) (x : Z) : outcome Z :=
  match fuel with
  | O => Undef
  | S fuel => if Z.odd x then Done 0 else n ← ctz_loop fuel (Z.div2 x); Done (1 + n)
  end.
Definition builtin_ctz (x : Z) : outcome Z := ctz_loop 32 x.

Definition cmpeq_mask (c : Z) (keys : list Z) : Z := movemask ((λ k, s8 c =? s8 k) <$> take 16 keys).
Definition cmplt_mask (c : Z) (keys : list Z) : Z := movemask ((λ k, s8 c <? s8 k) <$> take 16 keys).

(** [static inline int min(int, int)]; an unsigned argument is converted. *)
Definition art_min (a b : Z) : Z := let a := s32 a in let b := s32 b in if a <? b then a else b.

(** ** Nodes *)

(** What malloc and calloc answer during one call of a function of art.c:
    whether there is memory for a node of a type, and what malloc left in the
    block of a leaf ([None] for a null pointer).  A call asks for no more than
    one leaf and one node of each type.  A leaf's block is [sizeof(art_leaf) +
    key_len] bytes, and its key starts four bytes before [sizeof(art_leaf)]:
    [malloc_leaf] are the four bytes that follow the key. *)
Class ArtAlloc := {
  calloc_node : Z → bool;
  malloc_leaf : option (list Z);
}.

(** There is memory for everything. *)
Class ArtAllocTotal (AA : ArtAlloc) : Prop := {
  calloc_total t : calloc_node t = true;
  leaf_total : is_Some malloc_leaf;
}.

(** The result is not checked: [n->type = type] is a store through it. *)
Definition alloc_node {AA : ArtAlloc} (type : Z) : outcome (art_header * list Z * list art_node) :=
  let n := Header type 0 0 (replicate 10 0) in
  let calloc ks cs := if calloc_node type then Done (n, ks, cs) else Undef in
  if type =? NODE4 then calloc (replicate 4 0) (replicate 4 Null)
  else if type =? NODE16 then calloc (replicate 16 0) (replicate 16 Null)
  else if type =? NODE48 then calloc (replicate 256 0) (replicate 48 Null)
  else if type =? NODE256 then calloc [] (replicate 256 Null)
  else Undef.

Definition set_num (k : Z) (n : art_header) : art_header :=
  Header (type n) k (partial_len n) (partial n).
Definition set_prefix (len : Z) (p : list Z) (n : art_header) : art_header :=
  Header (type n) (num_children n) len p.

Definition init_art_tree : art_tree := Tree Null 0.

Definition art_size (t : art_tree) : Z := size t.

(** [for (i = 0; i < n->num_children; i++) if (keys[i] == c)] *)
Fixpoint find_key (fuel : nat) (keys : list Z) (i num c : Z) : outcome (option Z) :=
  match fuel with
  | O => NoFuel
  | S fuel =>
      if i <? num then
        k ← buf_get keys i;
        if k =? c then Done (Some i) else find_key fuel keys (i + 1) num c
      else Done None
  end.

(** The position of the child for byte [c] in [children]. *)
Definition find_child (n : art_header) (keys : list Z) (children : list art_node) (c : Z)
    : outcome (option Z) :=
  if type n =? NODE4 then find_key 257 keys 0 (num_children n) c
  else if type n =? NODE16 then
    let mask := Z.shiftl 1 (num_children n) - 1 in
    let bitfield := Z.land (cmpeq_mask c keys) mask in
    if negb (bitfield =? 0) then i ← builtin_ctz bitfield; Done (Some i) else Done None
  else if type n =? NODE48 then
    i ← buf_get keys c;
    if negb (i =? 0) then Done (Some (i - 1)) else Done None
  else if type n =? NODE256 then
    child ← arr_get children c;
    if negb (is_null child) then Done (Some c) else Done None
  else Undef.

(** ** Prefixes and leaves *)

(** [while (idx < max_cmp)]: the first position where [get1] and [get2]
    differ, or [max_cmp]. *)
Fixpoint mismatch_loop (fuel : nat) (get1 get2 : Z → outcome Z) (idx max_cmp : Z) : outcome Z :=
  match fuel with
  | O => NoFuel
  | S fuel =>
      if idx <? max_cmp then
        x ← get1 idx; y ← get2 idx;
        if negb (x =? y) then Done idx else mismatch_loop fuel get1 get2 (idx + 1) max_cmp
      else Done idx
  end.

(** A [char] is signed; an [unsigned char] is not. *)
Definition char_at (b : list Z) (i : Z) : outcome Z := c ← buf_get b i; Done (s8 c).
Definition uchar_at (b : list Z) (i : Z) : outcome Z := buf_get b i.

Definition check_prefix (n : art_header) (key : list Z) (key_len depth : Z) : outcome Z :=
  let max_cmp := art_min (art_min (partial_len n) MAX_PREFIX_LEN) (key_len - depth) in
  mismatch_loop (S (length key)) (char_at (partial n)) (λ i, char_at key (depth + i)) 0 max_cmp.

Definition leaf_matches (n : art_leaf) (key : list Z) (klen depth : Z) : outcome Z :=
  if negb (key_len n =? u32 klen) then Done 1 else memcmp (leaf_key n) key klen.

(** [while (n)]: every round moves at least one byte down the key. *)
Fixpoint search_loop (fuel : nat) (n : art_node) (key : list Z) (key_len depth : Z) : outcome Z :=
  match fuel with
  | O => NoFuel
  | S fuel =>
      match n with
      | Null => Done 0
      | Freed => Undef
      | Leaf l => m ← leaf_matches l key key_len depth; Done (if m =? 0 then value l else 0)
      | Inner h ks cs =>
          let descend depth :=
            c ← buf_get key depth;
            child ← find_child h ks cs c;
            match child with
            | Some i => n ← arr_get cs i; search_loop fuel n key key_len (depth + 1)
            | None => Done 0
            end in
          if negb (partial_len h =? 0) then
            prefix_len ← check_prefix h key key_len depth;
            if negb (prefix_len =? art_min MAX_PREFIX_LEN (partial_len h)) then Done 0
            else descend (s32 (depth + partial_len h))
          else descend depth
      end
  end.
Definition art_search (t : art_tree) (key : list Z) (key_len : Z) : outcome Z :=
  search_loop (S (S (length key))) (root t) key key_len 0.

(** [while (!keys[idx]) idx++] and [while (!children[idx]) idx++]; with
    [step = -1] the loops of [maximum]. *)
Fixpoint scan_slots {B} (fuel : nat) (empty : B → bool) (a : list B) (idx step : Z) : outcome Z :=
  match fuel with
  | O => Undef
  | S fuel => x ← arr_get a idx; if empty x then scan_slots fuel empty a (idx + step) step else Done idx
  end.

(** The child that [minimum] and [maximum] go to. *)
Definition end_child (first : bool) (h : art_header) (ks : list Z) (cs : list art_node) : outcome art_node :=
  let start := if first then 0 else 255 in
  let step := if first then 1 else -1 in
  if (type h =? NODE4) || (type h =? NODE16) then
    arr_get cs (if first then 0 else num_children h - 1)
  else if type h =? NODE48 then
    idx ← scan_slots 257 (λ k, k =? 0) ks start step;
    k ← arr_get ks idx;
    arr_get cs (k - 1)
  else if type h =? NODE256 then
    idx ← scan_slots 257 is_null cs start step;
    arr_get cs idx
  else Undef.

Fixpoint end_leaf (fuel : nat) (first : bool) (n : art_node) : outcome (option art_leaf) :=
  match fuel with
  | O => NoFuel
  | S fuel =>
      match n with
      | Null => Done None
      | Freed => Undef
      | Leaf l => Done (Some l)
      | Inner h ks cs => child ← end_child first h ks cs; end_leaf fuel first child
      end
  end.
Definition minimum (n : art_node) : outcome (option art_leaf) := end_leaf (S (height n)) true n.
Definition maximum (n : art_node) : outcome (option art_leaf) := end_leaf (S (height n)) false n.
Definition art_minimum (t : art_tree) : outcome (option art_leaf) := minimum (root t).
Definition art_maximum (t : art_tree) : outcome (option art_leaf) := maximum (root t).
(** [minimum(n)] where the code dereferences the result. *)
Definition minimum_leaf (n : art_node) : outcome art_leaf := l ← minimum n; of_option l.

Section code.
Context {AA : ArtAlloc}.

(** Neither is this one: [l->value = value]. *)
Definition make_leaf (key : list Z) (klen value : Z) : outcome art_leaf :=
  rest ← of_option malloc_leaf;
  k ← buf_take key klen;
  Done (ArtLeaf value (u32 klen) (k ++ rest)).

Definition longest_common_prefix (l1 l2 : art_leaf) (depth : Z) : outcome Z :=
  let max_cmp := art_min (key_len l1) (key_len l2) - depth in
  mismatch_loop (S (length (leaf_key l1))) (λ i, uchar_at (leaf_key l1) (depth + i))
    (λ i, uchar_at (leaf_key l2) (depth + i)) 0 max_cmp.

(** [copy_header(dest, src)], on the header of the new node. *)
Definition copy_header (dest src : art_header) : outcome art_header :=
  p ← arr_copy (partial dest) 0 (partial src) 0 (art_min MAX_PREFIX_LEN (partial_len src));
  Done (Header (type dest) (num_children src) (partial_len src) p).

(** ** Adding a child: the node that [*ref] points to afterwards *)

Definition add_child256 (n : art_header) (ks : list Z) (cs : list art_node) (c : Z) (child : art_node)
    : outcome art_node :=
  let n := set_num (u8 (num_children n + 1)) n in
  cs ← arr_set cs c child;
  Done (Inner n ks cs).

(** The loop that copies the children of a [NODE48]. *)
Fixpoint expand48 (fuel : nat) (i : Z) (ks : list Z) (cs new : list art_node) : outcome (list art_node) :=
  match fuel with
  | O => Done new
  | S fuel =>
      k ← buf_get ks i;
      if negb (k =? 0) then
        child ← arr_get cs (k - 1);
        new ← arr_set new i child;
        expand48 fuel (i + 1) ks cs new
      else expand48 fuel (i + 1) ks cs new
  end.

Definition add_child48 (n : art_header) (ks : list Z) (cs : list art_node) (c : Z) (child : art_node)
    : outcome art_node :=
  if num_children n <? 48 then
    pos ← scan_slots 49 (λ x, negb (is_null x)) cs 0 1;
    cs ← arr_set cs pos child;
    ks ← arr_set ks c (u8 (pos + 1));
    Done (Inner (set_num (u8 (num_children n + 1)) n) ks cs)
  else
    '(h, ks', cs') ← alloc_node NODE256;
    cs' ← expand48 256 0 ks cs cs';
    h ← copy_header h n;
    add_child256 h ks' cs' c child.

(** The loop that fills the key map of a new [NODE48]. *)
Fixpoint index_keys (fuel : nat) (i num : Z) (keys new : list Z) : outcome (list Z) :=
  match fuel with
  | O => NoFuel
  | S fuel =>
      if i <? num then
        k ← buf_get keys i;
        new ← arr_set new k (u8 (i + 1));
        index_keys fuel (i + 1) num keys new
      else Done new
  end.

Definition add_child16 (n : art_header) (ks : list Z) (cs : list art_node) (c : Z) (child : art_node)
    : outcome art_node :=
  let num := num_children n in
  if num <? 16 then
    let mask := u32 (Z.shiftl 1 num - 1) in
    let bitfield := Z.land (cmplt_mask c ks) mask in
    '(idx, ks, cs) ← (if negb (bitfield =? 0) then
        idx ← builtin_ctz bitfield;
        ks ← arr_move ks (idx + 1) idx (num - idx);
        cs ← arr_move cs (idx + 1) idx (num - idx);
        Done (idx, ks, cs)
      else Done (num, ks, cs));
    ks ← arr_set ks idx c;
    cs ← arr_set cs idx child;
    Done (Inner (set_num (u8 (num + 1)) n) ks cs)
  else
    '(h, ks', cs') ← alloc_node NODE48;
    cs' ← arr_copy cs' 0 cs 0 num;
    ks' ← index_keys 257 0 num ks ks';
    h ← copy_header h n;
    add_child48 h ks' cs' c child.

(** [for (idx = 0; idx < num_children; idx++) if (c < keys[idx]) break] *)
Fixpoint lower_slot (fuel : nat) (keys : list Z) (idx num c : Z) : outcome Z :=
  match fuel with
  | O => NoFuel
  | S fuel =>
      if idx <? num then
        k ← buf_get keys idx;
        if c <? k then Done idx else lower_slot fuel keys (idx + 1) num c
      else Done idx
  end.

Definition add_child4 (n : art_header) (ks : list Z) (cs : list art_node) (c : Z) (child : art_node)
    : outcome art_node :=
  let num := num_children n in
  if num <? 4 then
    idx ← lower_slot 5 ks 0 num c;
    ks ← arr_move ks (idx + 1) idx (num - idx);
    cs ← arr_move cs (idx + 1) idx (num - idx);
    ks ← arr_set ks idx c;
    cs ← arr_set cs idx child;
    Done (Inner (set_num (u8 (num + 1)) n) ks cs)
  else
    '(h, ks', cs') ← alloc_node NODE16;
    cs' ← arr_copy cs' 0 cs 0 num;
    ks' ← arr_copy ks' 0 ks 0 num;
    h ← copy_header h n;
    add_child16 h ks' cs' c child.

Definition add_child (n : art_header) (ks : list Z) (cs : list art_node) (c : Z) (child : art_node)
    : outcome art_node :=
  if type n =? NODE4 then add_child4 n ks cs c child
  else if type n =? NODE16 then add_child16 n ks cs c child
  else if type n =? NODE48 then add_child48 n ks cs c child
  else if type n =? NODE256 then add_child256 n ks cs c child
  else Undef.

(** ** Insertion *)

Definition prefix_mismatch (h : art_header) (n : art_node) (key : list Z) (klen depth : Z) : outcome Z :=
  let max_cmp := art_min (art_min MAX_PREFIX_LEN (partial_len h)) (klen - depth) in
  idx ← mismatch_loop (S (length key)) (char_at (partial h)) (λ i, char_at key (depth + i)) 0 max_cmp;
  if idx <? max_cmp then Done idx
  else if MAX_PREFIX_LEN <? partial_len h then
    l ← minimum_leaf n;
    let max_cmp := art_min (key_len l) klen - depth in
    mismatch_loop (S (length key)) (λ i, uchar_at (leaf_key l) (i + depth)) (λ i, char_at key (depth + i))
      idx max_cmp
  else Done idx.

(** A leaf is replaced by a node with the leaf and a new one. *)
Definition split_leaf (l : art_leaf) (key : list Z) (klen value depth : Z) : outcome art_node :=
  '(h, ks, cs) ← alloc_node NODE4;
  l2 ← make_leaf key klen value;
  longest_prefix ← longest_common_prefix l l2 depth;
  p ← arr_copy (partial h) 0 key depth (art_min MAX_PREFIX_LEN longest_prefix);
  let h := set_prefix (u32 longest_prefix) p h in
  c1 ← uchar_at (leaf_key l) (depth + longest_prefix);
  new ← add_child4 h ks cs c1 (Leaf l);
  match new with
  | Inner h ks cs =>
      c2 ← uchar_at (leaf_key l2) (depth + longest_prefix);
      add_child4 h ks cs c2 (Leaf l2)
  | _ => Undef
  end.

(** A node whose prefix differs from the key after [prefix_diff] bytes gets a
    new parent. *)
Definition split_prefix (n : art_header) (ks0 : list Z) (cs0 : list art_node) (key : list Z)
    (klen value depth prefix_diff : Z) : outcome art_node :=
  '(h, ks, cs) ← alloc_node NODE4;
  p ← arr_copy (partial h) 0 (partial n) 0 (art_min MAX_PREFIX_LEN prefix_diff);
  let h := set_prefix (u32 prefix_diff) p h in
  '(c, n') ← (if partial_len n <=? MAX_PREFIX_LEN then
      c ← buf_get (partial n) prefix_diff;
      let len := u32 (partial_len n - (prefix_diff + 1)) in
      p ← arr_move (partial n) 0 (prefix_diff + 1) (art_min MAX_PREFIX_LEN len);
      Done (c, set_prefix len p n)
    else
      let len := u32 (partial_len n - (prefix_diff + 1)) in
      l ← minimum_leaf (Inner n ks0 cs0);
      c ← uchar_at (leaf_key l) (depth + prefix_diff);
      p ← arr_copy (partial n) 0 (leaf_key l) (depth + prefix_diff + 1) (art_min MAX_PREFIX_LEN len);
      Done (c, set_prefix len p n));
  new ← add_child4 h ks cs c (Inner n' ks0 cs0);
  match new with
  | Inner h ks cs =>
      l ← make_leaf key klen value;
      c2 ← buf_get key (depth + prefix_diff);
      add_child4 h ks cs c2 (Leaf l)
  | _ => Undef
  end.

(** The new node, the returned pointer, and [*old]. *)
Fixpoint recursive_insert (fuel : nat) (n : art_node) (key : list Z) (klen value depth old : Z)
    : outcome (art_node * Z * Z) :=
  match fuel with
  | O => NoFuel
  | S fuel =>
      match n with
      | Null => l ← make_leaf key klen value; Done (Leaf l, 0, old)
      | Freed => Undef
      | Leaf l =>
          m ← leaf_matches l key klen depth;
          if m =? 0 then Done (Leaf (ArtLeaf value (key_len l) (leaf_key l)), Art.value l, 1)
          else new ← split_leaf l key klen value depth; Done (new, 0, old)
      | Inner h ks cs =>
          let descend depth :=
            c ← buf_get key depth;
            child ← find_child h ks cs c;
            match child with
            | Some i =>
                n ← arr_get cs i;
                '(n', r, old) ← recursive_insert fuel n key klen value (depth + 1) old;
                cs ← arr_set cs i n';
                Done (Inner h ks cs, r, old)
            | None =>
                l ← make_leaf key klen value;
                n' ← add_child h ks cs c (Leaf l);
                Done (n', 0, old)
            end in
          if negb (partial_len h =? 0) then
            prefix_diff ← prefix_mismatch h n key klen depth;
            if partial_len h <=? u32 prefix_diff then descend (s32 (depth + partial_len h))
            else n' ← split_prefix h ks cs key klen value depth prefix_diff; Done (n', 0, old)
          else descend depth
      end
  end.

Definition art_insert (t : art_tree) (key : list Z) (klen value : Z) : outcome (art_tree * Z) :=
  '(r, old, old_val) ← recursive_insert (S (S (length key))) (root t) key klen value 0 0;
  Done (Tree r (if old_val =? 0 then u64 (size t + 1) else size t), old).

(** ** Deletion *)

(** The loop that collects the children of a [NODE256]. *)
Fixpoint collect256 (fuel : nat) (i pos : Z) (cs : list art_node) (ks' : list Z) (cs' : list art_node)
    : outcome (list Z * list art_node) :=
  match fuel with
  | O => Done (ks', cs')
  | S fuel =>
      child ← arr_get cs i;
      if negb (is_null child) then
        cs' ← arr_set cs' pos child;
        ks' ← arr_set ks' i (u8 (pos + 1));
        collect256 fuel (i + 1) (pos + 1) cs ks' cs'
      else collect256 fuel (i + 1) pos cs ks' cs'
  end.

Definition remove_child256 (n : art_header) (ks : list Z) (cs : list art_node) (c : Z) : outcome art_node :=
  cs ← arr_set cs c Null;
  let n := set_num (u8 (num_children n - 1)) n in
  if num_children n =? 37 then
    '(h, ks', cs') ← alloc_node NODE48;
    h ← copy_header h n;
    '(ks', cs') ← collect256 256 0 0 cs ks' cs';
    Done (Inner h ks' cs')
  else Done (Inner n ks cs).

(** The loop that collects the children of a [NODE48]. *)
Fixpoint collect48 (fuel : nat) (i child : Z) (ks : list Z) (cs : list art_node) (ks' : list Z)
    (cs' : list art_node) : outcome (list Z * list art_node) :=
  match fuel with
  | O => Done (ks', cs')
  | S fuel =>
      pos ← buf_get ks i;
      if negb (pos =? 0) then
        ks' ← arr_set ks' child i;
        x ← arr_get cs (pos - 1);
        cs' ← arr_set cs' child x;
        collect48 fuel (i + 1) (child + 1) ks cs ks' cs'
      else collect48 fuel (i + 1) child ks cs ks' cs'
  end.

Definition remove_child48 (n : art_header) (ks : list Z) (cs : list art_node) (c : Z) : outcome art_node :=
  pos ← buf_get ks c;
  ks ← arr_set ks c 0;
  cs ← arr_set cs (pos - 1) Null;
  let n := set_num (u8 (num_children n - 1)) n in
  if num_children n =? 12 then
    '(h, ks', cs') ← alloc_node NODE16;
    h ← copy_header h n;
    '(ks', cs') ← collect48 256 0 0 ks cs ks' cs';
    Done (Inner h ks' cs')
  else Done (Inner n ks cs).

(** The two [memmove]s and the decrement; [pos] is [l - n->children]. *)
Definition close_gap (n : art_header) (ks : list Z) (cs : list art_node) (pos : Z)
    : outcome (art_header * list Z * list art_node) :=
  ks ← arr_move ks pos (pos + 1) (num_children n - 1 - pos);
  cs ← arr_move cs pos (pos + 1) (num_children n - 1 - pos);
  Done (set_num (u8 (num_children n - 1)) n, ks, cs).

Definition remove_child16 (n : art_header) (ks : list Z) (cs : list art_node) (pos : Z) : outcome art_node :=
  '(n, ks, cs) ← close_gap n ks cs pos;
  if num_children n =? 3 then
    '(h, ks', cs') ← alloc_node NODE4;
    h ← copy_header h n;
    ks' ← arr_copy ks' 0 ks 0 4;
    cs' ← arr_copy cs' 0 cs 0 4;
    Done (Inner h ks' cs')
  else Done (Inner n ks cs).

(** The prefix of the only child left: the node's prefix, the child's byte
    and the child's prefix, as far as they fit. *)
Definition join_prefix (n : art_header) (k0 : Z) (child : art_header) : outcome art_header :=
  let prefix := s32 (partial_len n) in
  '(p, prefix) ← (if prefix <? MAX_PREFIX_LEN then
      p ← arr_set (partial n) prefix k0; Done (p, prefix + 1)
    else Done (partial n, prefix));
  '(p, prefix) ← (if prefix <? MAX_PREFIX_LEN then
      let sub_prefix := art_min (partial_len child) (MAX_PREFIX_LEN - prefix) in
      p ← arr_copy p prefix (partial child) 0 sub_prefix; Done (p, prefix + sub_prefix)
    else Done (p, prefix));
  p' ← arr_copy (partial child) 0 p 0 (art_min prefix MAX_PREFIX_LEN);
  Done (set_prefix (u32 (partial_len child + (partial_len n + 1))) p' child).

Definition remove_child4 (n : art_header) (ks : list Z) (cs : list art_node) (pos : Z) : outcome art_node :=
  '(n, ks, cs) ← close_gap n ks cs pos;
  if num_children n =? 1 then
    child ← arr_get cs 0;
    match child with
    | Leaf l => Done (Leaf l)
    | Inner h ks' cs' =>
        k0 ← buf_get ks 0;
        h ← join_prefix n k0 h;
        Done (Inner h ks' cs')
    | _ => Undef
    end
  else Done (Inner n ks cs).

Definition remove_child (n : art_header) (ks : list Z) (cs : list art_node) (c pos : Z) : outcome art_node :=
  if type n =? NODE4 then remove_child4 n ks cs pos
  else if type n =? NODE16 then remove_child16 n ks cs pos
  else if type n =? NODE48 then remove_child48 n ks cs c
  else if type n =? NODE256 then remove_child256 n ks cs c
  else Undef.

(** The node that [*ref] points to afterwards, and the leaf taken out. *)
Fixpoint recursive_delete (fuel : nat) (n : art_node) (key : list Z) (klen depth : Z)
    : outcome (art_node * option art_leaf) :=
  match fuel with
  | O => NoFuel
  | S fuel =>
      match n with
      | Null => Done (Null, None)
      | Freed => Undef
      | Leaf l =>
          m ← leaf_matches l key klen depth;
          Done (if m =? 0 then (Null, Some l) else (n, None))
      | Inner h ks cs =>
          let descend depth :=
            c ← buf_get key depth;
            child ← find_child h ks cs c;
            match child with
            | None => Done (n, None)
            | Some i =>
                x ← arr_get cs i;
                match x with
                | Leaf l =>
                    m ← leaf_matches l key klen depth;
                    if m =? 0 then n' ← remove_child h ks cs c i; Done (n', Some l)
                    else Done (n, None)
                | _ =>
                    '(x', l) ← recursive_delete fuel x key klen (depth + 1);
                    cs ← arr_set cs i x';
                    Done (Inner h ks cs, l)
                end
            end in
          if negb (partial_len h =? 0) then
            prefix_len ← check_prefix h key klen depth;
            if negb (prefix_len =? art_min MAX_PREFIX_LEN (partial_len h)) then Done (n, None)
            else descend (s32 (depth + partial_len h))
          else descend depth
      end
  end.

Definition art_delete (t : art_tree) (key : list Z) (klen : Z) : outcome (art_tree * Z) :=
  '(r, l) ← recursive_delete (S (S (length key))) (root t) key klen 0;
  match l with
  | Some l => Done (Tree r (u64 (size t - 1)), value l)
  | None => Done (Tree r (size t), 0)
  end.

End code.

(** ** Walks over the whole tree *)

(** The children a loop [for (i = 0; i < num_children; i++)] visits. *)
Fixpoint first_children (k : nat) (cs : list art_node) : outcome (list art_node) :=
  match k with
  | O => Done []
  | S k => match cs with [] => Undef | c :: cs => l ← first_children k cs; Done (c :: l) end
  end.

(** The children in the order of [recursive_iter]. *)
Fixpoint iter48 (fuel : nat) (i : Z) (ks : list Z) (cs : list art_node) : outcome (list art_node) :=
  match fuel with
  | O => Done []
  | S fuel =>
      idx ← buf_get ks i;
      if idx =? 0 then iter48 fuel (i + 1) ks cs
      else x ← arr_get cs (idx - 1); l ← iter48 fuel (i + 1) ks cs; Done (x :: l)
  end.

Definition iter_children (h : art_header) (ks : list Z) (cs : list art_node) : outcome (list art_node) :=
  if (type h =? NODE4) || (type h =? NODE16) then first_children (Z.to_nat (num_children h)) cs
  else if type h =? NODE48 then iter48 256 0 ks cs
  else if type h =? NODE256 then Done (filter (λ c, is_null c = false) cs)
  else Undef.

Section iter.
Context {S : Type} (cb : art_leaf → S → Z * S).

(** [for (...) { res = f(child); if (res) return res; }] *)
Fixpoint iter_loop (f : art_node → S → outcome (Z * S)) (l : list art_node) (data : S) : outcome (Z * S) :=
  match l with
  | [] => Done (0, data)
  | x :: l =>
      '(res, data) ← f x data;
      if negb (res =? 0) then Done (res, data) else iter_loop f l data
  end.

Fixpoint recursive_iter (fuel : nat) (n : art_node) (data : S) : outcome (Z * S) :=
  match fuel with
  | O => NoFuel
  | Datatypes.S fuel =>
      match n with
      | Null => Done (0, data)
      | Freed => Undef
      | Leaf l => Done (cb l data)
      | Inner h ks cs => l ← iter_children h ks cs; iter_loop (recursive_iter fuel) l data
      end
  end.

Definition art_iter (t : art_tree) (data : S) : outcome (Z * S) :=
  recursive_iter (Datatypes.S (height (root t))) (root t) data.

Definition leaf_prefix_matches (n : art_leaf) (prefix : list Z) (prefix_len : Z) : outcome Z :=
  if key_len n <? u32 prefix_len then Done 1 else memcmp (leaf_key n) prefix prefix_len.

Fixpoint iter_prefix_loop (fuel : nat) (n : art_node) (key : list Z) (klen depth : Z) (data : S)
    : outcome (Z * S) :=
  match fuel with
  | O => NoFuel
  | Datatypes.S fuel =>
      match n with
      | Null => Done (0, data)
      | Freed => Undef
      | Leaf l =>
          m ← leaf_prefix_matches l key klen;
          Done (if m =? 0 then cb l data else (0, data))
      | Inner h ks cs =>
          let descend depth :=
            c ← buf_get key depth;
            child ← find_child h ks cs c;
            match child with
            | Some i => x ← arr_get cs i; iter_prefix_loop fuel x key klen (depth + 1) data
            | None => Done (0, data)
            end in
          if depth =? klen then
            l ← minimum_leaf n;
            m ← leaf_prefix_matches l key klen;
            if m =? 0 then recursive_iter (Datatypes.S (height n)) n data else Done (0, data)
          else if negb (partial_len h =? 0) then
            prefix_len ← prefix_mismatch h n key klen depth;
            if prefix_len =? 0 then Done (0, data)
            else if depth + prefix_len =? klen then recursive_iter (Datatypes.S (height n)) n data
            else descend (s32 (depth + partial_len h))
          else descend depth
      end
  end.

Definition art_iter_prefix (t : art_tree) (key : list Z) (klen : Z) (data : S) : outcome (Z * S) :=
  iter_prefix_loop (Datatypes.S (Datatypes.S (length key))) (root t) key klen 0 data.
End iter.

(** [destroy_node]: the number of blocks it frees.  Its loop over a [NODE48]
    visits the first [num_children] slots. *)
Definition destroy_children (h : art_header) (cs : list art_node) : outcome (list art_node) :=
  if (type h =? NODE4) || (type h =? NODE16) || (type h =? NODE48)
  then first_children (Z.to_nat (num_children h)) cs
  else if type h =? NODE256 then Done (filter (λ c, is_null c = false) cs)
  else Undef.

Fixpoint destroy_loop (f : art_node → outcome Z) (l : list art_node) : outcome Z :=
  match l with
  | [] => Done 0
  | x :: l => n ← f x; m ← destroy_loop f l; Done (n + m)
  end.

Fixpoint destroy_node (fuel : nat) (n : art_node) : outcome Z :=
  match fuel with
  | O => NoFuel
  | S fuel =>
      match n with
      | Null => Done 0
      | Freed => Undef
      | Leaf _ => Done 1
      | Inner h ks cs =>
          l ← destroy_children h cs; k ← destroy_loop (destroy_node fuel) l; Done (k + 1)
      end
  end.

(** The root pointer is left as it is: to freed memory, unless it was null. *)
Definition destroy_art_tree (t : art_tree) : outcome (art_tree * Z) :=
  k ← destroy_node (S (height (root t))) (root t);
  Done (Tree (if is_null (root t) then Null else Freed) (size t), k).

(** [fill_depth]: the histogram of leaf depths. *)
Definition incr_depth (out : list Z) (depth : Z) : outcome (list Z) :=
  x ← arr_get out depth; arr_set out depth (x + 1).

Fixpoint fill_loop (f : art_node → list Z → outcome (list Z)) (l : list art_node) (out : list Z)
    : outcome (list Z) :=
  match l with [] => Done out | x :: l => out ← f x out; fill_loop f l out end.

Fixpoint fill_depth (fuel : nat) (n : art_node) (depth : Z) (out : list Z) (outsize : Z) : outcome (list Z) :=
  match fuel with
  | O => NoFuel
  | S fuel =>
      match n with
      | Null => Done out
      | Freed => Undef
      | Leaf _ => if outsize <? depth then Done out else incr_depth out depth
      | Inner h ks cs =>
          l ← destroy_children h cs;
          fill_loop (λ x out, fill_depth fuel x (depth + 1) out outsize) l out
      end
  end.

Definition DEPTH_SIZE : Z := 100.
Definition info (t : art_tree) : outcome (list Z) :=
  fill_depth (S (height (root t))) (root t) 0 (replicate (Z.to_nat DEPTH_SIZE) 0) DEPTH_SIZE.

(** ** The interface of helper.h *)

(** The trees that [init] has allocated, and the one lock for all of them. *)
Record art_state := ArtState { trees : gmap Z art_tree; art_lock : rwlock }.

(** The answers of malloc and calloc, which depend on the state of memory. *)
Class ArtMalloc := art_malloc : gmap Z art_tree → ArtAlloc.

Class ArtMallocTotal (AM : ArtMalloc) : Prop :=
  #[global] art_malloc_total ts :: ArtAllocTotal (art_malloc ts).

Section glue.
Context {AM : ArtMalloc}.
(** malloc's answer for the [art_tree] block; null when memory is exhausted. *)
Context (malloc_tree : gmap Z art_tree → Z).

Definition rwlock_wrlock : cmd art_state unit := λ s,
  if writer (art_lock s) || (0 <? readers (art_lock s)) then Blocked
  else Done (tt, ArtState (trees s) (Rwlock 0 true)).
Definition rwlock_rdlock : cmd art_state unit := λ s,
  if writer (art_lock s) then Blocked
  else Done (tt, ArtState (trees s) (Rwlock (readers (art_lock s) + 1) false)).
Definition rwlock_unlock : cmd art_state unit := λ s,
  if writer (art_lock s) then Done (tt, ArtState (trees s) (Rwlock (readers (art_lock s)) false))
  else if 0 <? readers (art_lock s)
  then Done (tt, ArtState (trees s) (Rwlock (readers (art_lock s) - 1) false))
  else Undef.

Definition load_tree (obj : Z) : cmd art_state art_tree := λ s,
  t ← of_option (trees s !! obj); Done (t, s).
Definition store_tree (obj : Z) (t : art_tree) : cmd art_state unit := λ s,
  Done (tt, ArtState (<[obj := t]> (trees s)) (art_lock s)).

Definition current_alloc : cmd art_state ArtAlloc := λ s, Done (art_malloc (trees s), s).

Definition init : cmd art_state Z := λ s,
  let obj := malloc_tree (trees s) in
  if obj =? 0 then Done (0, s)
  else Done (obj, ArtState (<[obj := init_art_tree]> (trees s)) (art_lock s)).

Definition add (obj : Z) (key : list Z) (val : Z) : cmd art_state Z :=
  _ ← rwlock_wrlock;
  len ← lift (strlen key);
  let keylen := s32 len in
  t ← load_tree obj;
  found ← lift (art_search t key keylen);
  let ret := if negb (found =? 0) then 1 else 0 in
  ret ← (if ret =? 0 then
           AA ← current_alloc;
           '(t, old) ← lift (art_insert t key keylen val);
           _ ← store_tree obj t;
           mret (if negb (old =? 0) then 1 else 0)
         else mret ret);
  _ ← rwlock_unlock;
  mret ret.

Definition find (obj : Z) (key : list Z) : cmd art_state Z :=
  _ ← rwlock_rdlock;
  t ← load_tree obj;
  len ← lift (strlen key);
  out ← lift (art_search t key (s32 len));
  _ ← rwlock_unlock;
  mret out.

Definition del (obj : Z) (key : list Z) : cmd art_state Z :=
  _ ← rwlock_wrlock;
  t ← load_tree obj;
  len ← lift (strlen key);
  AA ← current_alloc;
  '(t, out) ← lift (art_delete t key (s32 len));
  _ ← store_tree obj t;
  _ ← rwlock_unlock;
  mret (if out =? 0 then 1 else 0).

Definition clear (obj : Z) : cmd art_state unit :=
  _ ← rwlock_wrlock;
  t ← load_tree obj;
  '(t, _) ← lift (destroy_art_tree t);
  _ ← store_tree obj t;
  rwlock_unlock.
End glue.
