(* ===== verification/ArtArrays.v ===== *)
(** * ArtArrays: arrays, byte masks and prefix comparisons

    Loads, stores and [memcpy]/[memmove] on arrays split into segments;
    shifting elements to insert or remove one; the SSE masks as searches; and
    the comparison loop of the prefix functions. *)

From S2P Require Import Prelude.
From S2P Require Import Critbit.
From S2P Require Import Art.

Lemma obind_done {A B} (a : A) (k : A → outcome B) : Done a ≫= k = k a.
Proof. done. Qed.

(** [next_by H]: run the head of the goal with the equation [H], without
    unfolding the rest. *)
Ltac next_by H := rewrite H, obind_done; cbn beta iota.

Section arrays.
Context {B : Type}.
Implicit Types (a l r : list B) (x : B).

Lemma arr_get_Some a i x : 0 ≤ i → a !! Z.to_nat i = Some x → arr_get a i = Done x.
Proof. intros Hi Hx. unfold arr_get. destruct (Z.ltb_spec i 0); [lia|]. by rewrite Hx. Qed.

Lemma arr_get_mid l x r i : i = Z.of_nat (length l) → arr_get (l ++ x :: r) i = Done x.
Proof.
  intros ->. apply arr_get_Some; [lia|]. rewrite Nat2Z.id. apply list_lookup_middle. done.
Qed.

Lemma arr_set_Some a i x :
  0 ≤ i < Z.of_nat (length a) → arr_set a i x = Done (<[Z.to_nat i := x]> a).
Proof.
  intros Hi. unfold arr_set. destruct (Z.ltb_spec i 0); [lia|].
  by destruct (Z.leb_spec (Z.of_nat (length a)) i); [lia|].
Qed.

Lemma arr_set_mid l y r x i : i = Z.of_nat (length l) → arr_set (l ++ y :: r) i x = Done (l ++ x :: r).
Proof.
  intros ->. rewrite arr_set_Some by (rewrite length_app; cbn; lia).
  rewrite Nat2Z.id, insert_app_r_alt by lia. by rewrite Nat.sub_diag.
Qed.

Lemma arr_copy_seg (d1 d2 d3 s1 s2 s3 : list B) i j n :
  i = Z.of_nat (length d1) → j = Z.of_nat (length s1) → n = Z.of_nat (length s2) → length d2 = length s2 →
  arr_copy (d1 ++ d2 ++ d3) i (s1 ++ s2 ++ s3) j n = Done (d1 ++ s2 ++ d3).
Proof.
  intros -> -> -> Hlen. unfold arr_copy. rewrite !length_app.
  destruct (Z.ltb_spec (Z.of_nat (length d1)) 0); [lia|].
  destruct (Z.ltb_spec (Z.of_nat (length s1)) 0); [lia|].
  destruct (Z.ltb_spec (Z.of_nat (length s2)) 0); [lia|].
  destruct (Z.ltb_spec (Z.of_nat (length d1 + (length d2 + length d3))) (Z.of_nat (length d1) + Z.of_nat (length s2))); [lia|].
  destruct (Z.ltb_spec (Z.of_nat (length s1 + (length s2 + length s3))) (Z.of_nat (length s1) + Z.of_nat (length s2))); [lia|].
  cbn [orb]. rewrite !Nat2Z.id, take_app_length, drop_app_length, take_app_length.
  replace (Z.to_nat (Z.of_nat (length d1) + Z.of_nat (length s2))) with (length (d1 ++ d2))
    by (rewrite length_app; lia).
  by rewrite (app_assoc d1 d2 d3), drop_app_length.
Qed.

(** A prefix of [n] elements copied to the front. *)
Lemma arr_copy_front (dst src : list B) n :
  (n ≤ length dst)%nat → (n ≤ length src)%nat →
  arr_copy dst 0 src 0 (Z.of_nat n) = Done (take n src ++ drop n dst).
Proof.
  intros Hd Hs. rewrite <-(take_drop n dst) at 1. rewrite <-(take_drop n src) at 1.
  apply (arr_copy_seg [] (take n dst) (drop n dst) [] (take n src) (drop n src)); [done|done| |];
    rewrite !length_take; lia.
Qed.

(** [memmove] one place up, then a store: insertion into [l1 ++ l2]. *)
Lemma arr_shift_in l1 l2 y r x i n :
  i = Z.of_nat (length l1) → n = Z.of_nat (length l2) →
  ∃ a', arr_move (l1 ++ l2 ++ y :: r) (i + 1) i n = Done a' ∧ arr_set a' i x = Done (l1 ++ x :: l2 ++ r).
Proof.
  intros -> ->. unfold arr_move. destruct l2 as [|z l2].
  - exists (l1 ++ y :: r). split.
    + cbn [app length Z.of_nat]. rewrite <-(app_nil_r (l1 ++ y :: r)) at 2.
      pose proof (arr_copy_seg (l1 ++ [y]) [] r l1 [] (y :: r) (Z.of_nat (length l1) + 1) (Z.of_nat (length l1)) 0) as H.
      cbn [app] in H. rewrite <-!app_assoc in H. cbn [app] in H. rewrite app_nil_r.
      apply H; [rewrite length_app; cbn; lia|done|done|done].
    + by apply arr_set_mid.
  - (* the block z :: l2 moves onto l2 ++ [y], one place up *)
    exists (l1 ++ z :: z :: l2 ++ r). split; [|by apply (arr_set_mid l1 z (z :: l2 ++ r))].
    pose proof (arr_copy_seg (l1 ++ [z]) (l2 ++ [y]) r l1 (z :: l2) (y :: r)
                  (Z.of_nat (length l1) + 1) (Z.of_nat (length l1)) (Z.of_nat (length (z :: l2)))) as H.
    rewrite <-!app_assoc in H. cbn [app] in H.
    apply H; rewrite ?length_app; cbn [length]; lia.
Qed.

(** [memmove] one place down: removal of [x] from [l1 ++ x :: l2]. *)
Lemma arr_shift_out l1 x l2 r i n :
  i = Z.of_nat (length l1) → n = Z.of_nat (length l2) →
  ∃ z, arr_move (l1 ++ x :: l2 ++ r) i (i + 1) n = Done (l1 ++ l2 ++ z :: r).
Proof.
  intros -> ->. unfold arr_move.
  destruct l2 as [|y l2 _] using rev_ind.
  - exists x. pose proof (arr_copy_seg l1 [] (x :: r) (l1 ++ [x]) [] r (Z.of_nat (length l1)) (Z.of_nat (length l1) + 1) 0) as H.
    cbn [app] in H. rewrite <-!app_assoc in H. cbn [app] in H. apply H; [done|rewrite length_app; cbn; lia|done|done].
  - exists y. pose proof (arr_copy_seg l1 (x :: l2) (y :: r) (l1 ++ [x]) (l2 ++ [y]) r (Z.of_nat (length l1))
      (Z.of_nat (length l1) + 1) (Z.of_nat (length (l2 ++ [y])))) as H.
    rewrite <-!app_assoc in H. cbn [app] in H. rewrite <-!app_assoc. cbn [app].
    apply H; rewrite ?length_app; cbn [length]; lia.
Qed.
End arrays.

(** ** Signed bytes *)

Lemma s8_inj x y : 0 ≤ x < 256 → 0 ≤ y < 256 → s8 x = s8 y → x = y.
Proof.
  intros Hx Hy. unfold s8. change (2 ^ 7) with 128. change (2 ^ 8) with 256. intros H.
  assert ((x + 128) mod 256 = (y + 128) mod 256) as Hm by lia.
  pose proof (Z.div_mod (x + 128) 256 ltac:(lia)). pose proof (Z.div_mod (y + 128) 256 ltac:(lia)).
  pose proof (Z.mod_pos_bound (x + 128) 256 ltac:(lia)).
  assert ((x + 128) / 256 = 0 ∨ (x + 128) / 256 = 1) by lia.
  assert ((y + 128) / 256 = 0 ∨ (y + 128) / 256 = 1) by lia. lia.
Qed.

Lemma s8_eqb x y : 0 ≤ x < 256 → 0 ≤ y < 256 → (s8 x =? s8 y) = (x =? y).
Proof.
  intros Hx Hy. destruct (Z.eqb_spec x y) as [->|Hne]; [apply Z.eqb_refl|].
  apply Z.eqb_neq. intros H. by apply s8_inj in H.
Qed.

(** ** Byte masks *)

(** The position of the first [true]. *)
Fixpoint first_true (bs : list bool) : option nat :=
  match bs with
  | [] => None
  | b :: bs => if b then Some 0%nat else S <$> first_true bs
  end.

Lemma movemask_nonneg bs : 0 ≤ movemask bs.
Proof. induction bs as [|b bs IH]; cbn [movemask]; [lia|]. destruct b; cbn [of_bool]; lia. Qed.

Lemma movemask_odd b bs : Z.odd (movemask (b :: bs)) = b.
Proof.
  cbn [movemask]. rewrite Z.odd_add, Z.odd_mul. destruct b; reflexivity.
Qed.

Lemma movemask_div2 b bs : Z.div2 (movemask (b :: bs)) = movemask bs.
Proof.
  cbn [movemask]. rewrite Z.div2_div. destruct b; cbn [of_bool].
  - replace (1 + 2 * movemask bs) with (1 + movemask bs * 2) by lia. rewrite Z.div_add by lia. reflexivity.
  - replace (0 + 2 * movemask bs) with (movemask bs * 2) by lia. by rewrite Z.div_mul by lia.
Qed.

Lemma movemask_zero bs : movemask bs = 0 ↔ first_true bs = None.
Proof.
  induction bs as [|b bs IH]; cbn [movemask first_true]; [done|].
  pose proof (movemask_nonneg bs). destruct b; cbn [of_bool].
  - split; [lia|done].
  - destruct (first_true bs); cbn; [|split; [done|]].
    + split; [|done]. intros. assert (movemask bs = 0) as Hz by lia. by apply IH in Hz.
    + intros _. assert (movemask bs = 0) by (by apply IH). lia.
Qed.

Lemma ctz_movemask fuel bs i :
  (length bs ≤ fuel)%nat → first_true bs = Some i → ctz_loop fuel (movemask bs) = Done (Z.of_nat i).
Proof.
  revert fuel i. induction bs as [|b bs IH]; intros [|fuel] i Hf Hi; cbn in Hf; [done|done|lia|].
  cbn [ctz_loop]. rewrite movemask_odd, movemask_div2. cbn [first_true] in Hi. destruct b.
  - by injection Hi as <-.
  - destruct (first_true bs) as [j|] eqn:Hj; [|done]. injection Hi as <-.
    rewrite (IH fuel j ltac:(lia) eq_refl). cbn. f_equal. lia.
Qed.

(** [bitfield & ((1 << num) - 1)] keeps the first [num] lanes. *)
Lemma movemask_land bs n :
  (n ≤ length bs)%nat → Z.land (movemask bs) (Z.shiftl 1 (Z.of_nat n) - 1) = movemask (take n bs).
Proof.
  intros Hn. rewrite Z.shiftl_mul_pow2 by lia. rewrite Z.mul_1_l.
  replace (2 ^ Z.of_nat n - 1) with (Z.ones (Z.of_nat n)) by (rewrite Z.ones_equiv; lia).
  rewrite Z.land_ones by lia. revert n Hn.
  induction bs as [|b bs IH]; intros [|n] Hn; cbn in Hn; [by rewrite Z.mod_1_r|lia|by rewrite Z.mod_1_r|].
  cbn [movemask take]. rewrite Nat2Z.inj_succ, Z.pow_succ_r by lia.
  rewrite <-(IH n ltac:(lia)). pose proof (movemask_nonneg bs).
  pose proof (Z.pow_pos_nonneg 2 (Z.of_nat n) ltac:(lia) ltac:(lia)) as Hpow.
  pose proof (Z.mod_pos_bound (movemask bs) _ Hpow) as Hm.
  pose proof (Z.div_mod (movemask bs) (2 ^ Z.of_nat n) ltac:(lia)) as Hd.
  symmetry. apply Zmod_unique with (movemask bs / 2 ^ Z.of_nat n); [destruct b; cbn [of_bool]; lia|].
  rewrite Hd at 1. lia.
Qed.

Lemma first_true_spec bs i : first_true bs = Some i → bs !! i = Some true ∧ ∀ j, (j < i)%nat → bs !! j = Some false.
Proof.
  revert i. induction bs as [|b bs IH]; intros i; cbn; [done|]. destruct b.
  - intros [= <-]. split; [done|]. lia.
  - destruct (first_true bs) as [k|]; [|done]. cbn. intros [= <-]. destruct (IH k eq_refl) as [H1 H2].
    split; [done|]. intros [|j] Hj; [done|]. apply H2. lia.
Qed.

Lemma first_true_None bs : first_true bs = None ↔ Forall (λ b, b = false) bs.
Proof.
  induction bs as [|b bs IH]; cbn; [done|]. rewrite Forall_cons. destruct b; [split; [done|by intros [? _]]|].
  destruct (first_true bs); cbn; rewrite <-IH; [split; [done|by intros [_ ?]]|done].
Qed.

(** ** The comparison loop *)

Lemma mismatch_loop_run (get1 get2 : Z → outcome Z) (f1 f2 : Z → Z) max_cmp : ∀ fuel idx,
  (∀ i, idx ≤ i < max_cmp → get1 i = Done (f1 i) ∧ get2 i = Done (f2 i)) →
  (Z.to_nat (max_cmp - idx) < fuel)%nat →
  ∃ r, mismatch_loop fuel get1 get2 idx max_cmp = Done r ∧ idx ≤ r ≤ Z.max idx max_cmp ∧
    (∀ i, idx ≤ i < r → f1 i = f2 i) ∧ (r < max_cmp → f1 r ≠ f2 r).
Proof.
  induction fuel as [|fuel IH]; intros idx Hget Hf; [lia|]. cbn [mismatch_loop].
  destruct (Z.ltb_spec idx max_cmp) as [Hlt|Hge].
  2: { exists idx. split; [done|]. split; [lia|]. split; lia. }
  destruct (Hget idx) as [-> ->]; [lia|]. cbn. destruct (Z.eqb_spec (f1 idx) (f2 idx)) as [Heq|Hne]; cbn.
  - destruct (IH (idx + 1)) as (r & Hrun & Hr & Hall & Hdiff); [intros; apply Hget; lia|lia|].
    exists r. split; [done|]. split; [lia|]. split; [|done]. intros i Hi.
    destruct (Z.eq_dec i idx) as [->|]; [done|]. apply Hall. lia.
  - exists idx. split; [done|]. split; [lia|]. split; [lia|done].
Qed.
