(* ===== verification/ArtNodes.v ===== *)
(** * ArtNodes: the four kinds of node as finite maps from bytes to children

    [node_repr h ks cs m]: the header and the arrays represent the map [m].
    The specifications of [find_child], of replacing a child in place, of
    [add_child] and of [remove_child] on that map, through every change of
    the node's kind. *)

From S2P Require Import Prelude.
From S2P Require Import Critbit.
From S2P Require Import Art.
From S2P Require Import ArtArrays.

Notation kidmap := (gmap Z art_node).

(** ** Representation *)

(** Keys and children side by side: [NODE4] and [NODE16]. *)
Definition flat_repr (cap : nat) (h : art_header) (ks : list Z) (cs : list art_node) (m : kidmap) : Prop :=
  ∃ (kl : list (Z * art_node)) rk rc,
    ks = kl.*1 ++ rk ∧ cs = kl.*2 ++ rc ∧ num_children h = Z.of_nat (length kl) ∧
    length ks = cap ∧ length cs = cap ∧ NoDup kl.*1 ∧ m = list_to_map kl.

(** A key map into 48 slots: [NODE48]. *)
Record indexed_repr (h : art_header) (ks : list Z) (cs : list art_node) (m : kidmap) : Prop := {
  ix_keys : length ks = 256%nat;
  ix_slots : length cs = 48%nat;
  ix_num : num_children h = Z.of_nat (base.size m);
  ix_size : (base.size m ≤ 48)%nat;
  ix_lookup c k : 0 <= c -> ks !! Z.to_nat c = Some k →
    k = 0 ∧ m !! c = None ∨
    1 <= k <= 48 ∧ ∃ x, m !! c = Some x ∧ cs !! Z.to_nat (k - 1) = Some x;
  ix_inj c1 c2 k : 0 <= c1 -> 0 <= c2 -> ks !! Z.to_nat c1 = Some k → ks !! Z.to_nat c2 = Some k →
    k ≠ 0 → c1 = c2;
  ix_used i x : cs !! i = Some x → x ≠ Null → ∃ c, 0 <= c < 256 ∧ ks !! Z.to_nat c = Some (Z.of_nat i + 1);
}.

(** A slot per byte: [NODE256]. *)
Definition direct_repr (h : art_header) (cs : list art_node) (m : kidmap) : Prop :=
  length cs = 256%nat ∧ num_children h = u8 (Z.of_nat (base.size m)) ∧
  ∀ c, 0 <= c < 256 → cs !! Z.to_nat c = Some (default Null (m !! c)).

Definition kids_ok (m : kidmap) : Prop := map_Forall (λ c x, 0 <= c < 256 ∧ x ≠ Null) m.

Inductive node_kind (h : art_header) (ks : list Z) (cs : list art_node) (m : kidmap) : Prop :=
  | Kind4 : type h = NODE4 → flat_repr 4 h ks cs m → node_kind h ks cs m
  | Kind16 : type h = NODE16 → flat_repr 16 h ks cs m → node_kind h ks cs m
  | Kind48 : type h = NODE48 → indexed_repr h ks cs m → node_kind h ks cs m
  | Kind256 : type h = NODE256 → direct_repr h cs m → node_kind h ks cs m.

Definition node_repr (h : art_header) (ks : list Z) (cs : list art_node) (m : kidmap) : Prop :=
  node_kind h ks cs m ∧ kids_ok m.

(** How many children a kind of node has at least, outside of the operations. *)
Definition occupancy (h : art_header) (m : kidmap) : Prop :=
  if type h =? NODE4 then (2 ≤ base.size m)%nat
  else if type h =? NODE16 then (4 ≤ base.size m)%nat
  else if type h =? NODE48 then (13 ≤ base.size m)%nat
  else (38 ≤ base.size m)%nat.

(** The stored prefix: all of it, or its first ten bytes. *)
Definition prefix_repr (h : art_header) (p : list Z) : Prop :=
  length (partial h) = 10%nat ∧ partial_len h = Z.of_nat (length p) ∧ Z.of_nat (length p) < 2 ^ 31 ∧
  take (min 10 (length p)) (partial h) = take 10 p.

(** Only the kind and the count of the header matter to the children. *)
Lemma flat_repr_header cap h h' ks cs m :
  flat_repr cap h ks cs m → num_children h' = num_children h → flat_repr cap h' ks cs m.
Proof. intros (kl & rk & rc & H) Hn. exists kl, rk, rc. by rewrite Hn. Qed.

Lemma indexed_repr_header h h' ks cs m :
  indexed_repr h ks cs m → num_children h' = num_children h → indexed_repr h' ks cs m.
Proof. intros [H1 H2 H3 H4 H5 H6 H7] Hn. split; [done|done|by rewrite Hn|done..]. Qed.

Lemma node_repr_header h h' ks cs m :
  node_repr h ks cs m → type h' = type h → num_children h' = num_children h → node_repr h' ks cs m.
Proof.
  intros [Hk Hkids] Ht Hn. split; [|done]. destruct Hk as [Ht' Hr|Ht' Hr|Ht' Hr|Ht' Hr]; rewrite <-Ht in Ht'.
  - apply Kind4; [done|]. by eapply flat_repr_header.
  - apply Kind16; [done|]. by eapply flat_repr_header.
  - apply Kind48; [done|]. by eapply indexed_repr_header.
  - apply Kind256; [done|]. unfold direct_repr in *. by rewrite Hn.
Qed.

Lemma occupancy_header h h' m : occupancy h m → type h' = type h → occupancy h' m.
Proof. unfold occupancy. by intros H ->. Qed.

Lemma list_to_map_kl_lookup (kl : list (Z * art_node)) i c x :
  NoDup kl.*1 → kl !! i = Some (c, x) → (list_to_map kl : kidmap) !! c = Some x.
Proof. intros Hnd Hi. apply elem_of_list_to_map_1; [done|]. by eapply list_elem_of_lookup_2. Qed.

(** ** Finding a child *)

Lemma find_key_run (kl : list (Z * art_node)) rk c : ∀ fuel i,
  (i ≤ length kl)%nat → (length kl - i < fuel)%nat →
  find_key fuel (kl.*1 ++ rk) (Z.of_nat i) (Z.of_nat (length kl)) c =
  Done (((λ j, Z.of_nat (i + j)) <$> first_true ((λ k : Z, (k =? c)%Z) <$> drop i kl.*1))).
Proof.
  induction fuel as [|fuel IH]; intros i Hi Hf; [lia|]. cbn [find_key].
  destruct (Z.ltb_spec (Z.of_nat i) (Z.of_nat (length kl))) as [Hlt|Hge].
  - destruct (lookup_lt_is_Some_2 kl.*1 i) as [k Hk]; [rewrite length_fmap; lia|].
    rewrite (buf_get_Some _ _ k) by (lia || (rewrite Nat2Z.id; by apply lookup_app_l_Some)).
    rewrite (drop_S _ _ _ Hk). cbn. destruct (Z.eqb_spec k c); cbn.
    + do 2 f_equal. lia.
    + replace (Z.of_nat i + 1) with (Z.of_nat (S i)) by lia. rewrite IH by lia.
      destruct (first_true _); cbn; [|done]. do 2 f_equal. lia.
  - rewrite drop_ge by (rewrite length_fmap; lia). done.
Qed.

(** In both flat kinds the answer is the position of the byte. *)
Lemma first_true_key (kl : list (Z * art_node)) c :
  NoDup kl.*1 →
  match first_true ((λ k : Z, (k =? c)%Z) <$> kl.*1) with
  | Some j => ∃ x, kl !! j = Some (c, x) ∧ (list_to_map kl : kidmap) !! c = Some x
  | None => (list_to_map kl : kidmap) !! c = None
  end.
Proof.
  intros Hnd. destruct (first_true _) as [j|] eqn:Hj.
  - apply first_true_spec in Hj as [Hj _]. rewrite !list_lookup_fmap in Hj.
    destruct (kl !! j) as [[k x]|] eqn:Hkl; [|done]. cbn in Hj. injection Hj as ->%Z.eqb_eq.
    exists x. split; [done|]. by eapply list_to_map_kl_lookup.
  - apply first_true_None in Hj. apply not_elem_of_list_to_map_1. intros Hin.
    rewrite Forall_fmap, Forall_forall in Hj. specialize (Hj c Hin). cbn in Hj. by rewrite Z.eqb_refl in Hj.
Qed.

Lemma find16_run (kl : list (Z * art_node)) rk c h :
  type h = NODE16 → num_children h = Z.of_nat (length kl) → length (kl.*1 ++ rk) = 16%nat →
  0 ≤ c < 256 → Forall (λ k, 0 ≤ k < 256) kl.*1 → ∀ cs,
  find_child h (kl.*1 ++ rk) cs c = Done (Z.of_nat <$> first_true ((λ k : Z, (k =? c)%Z) <$> kl.*1)).
Proof.
  intros Ht Hn Hlen Hc Hb cs. unfold find_child. rewrite Ht. cbn [NODE16 NODE4 Z.eqb Pos.eqb].
  rewrite Hn. unfold cmpeq_mask. rewrite take_ge by lia.
  assert (length kl ≤ length ((λ k : Z, (s8 c =? s8 k)%Z) <$> kl.*1 ++ rk))%nat as Hle.
  { rewrite length_fmap, length_app, length_fmap. lia. }
  rewrite (movemask_land _ _ Hle).
  assert (take (length kl) ((λ k : Z, (s8 c =? s8 k)%Z) <$> kl.*1 ++ rk) = (λ k, k =? c) <$> kl.*1) as ->.
  { rewrite fmap_app, take_app_length' by (by rewrite !length_fmap).
    apply list_fmap_ext. intros i k Hk. rewrite s8_eqb by (done || exact (Forall_lookup_1 _ _ _ _ Hb Hk)).
    apply Z.eqb_sym. }
  destruct (first_true _) as [j|] eqn:Hj.
  - destruct (Z.eqb_spec (movemask ((λ k : Z, (k =? c)%Z) <$> kl.*1)) 0) as [Hz|Hz].
    { apply movemask_zero in Hz. congruence. }
    cbn [negb]. unfold builtin_ctz. rewrite (ctz_movemask 32 _ j); [done| |done].
    rewrite !length_fmap. rewrite length_app, length_fmap in Hlen. lia.
  - apply movemask_zero in Hj. rewrite Hj. done.
Qed.

Lemma kids_ok_keys (kl : list (Z * art_node)) :
  NoDup kl.*1 → kids_ok (list_to_map kl) → Forall (λ k, 0 ≤ k < 256) kl.*1.
Proof.
  intros Hnd Hk. apply Forall_fmap, Forall_forall. intros [c x] Hin. cbn.
  by eapply (Hk c x), elem_of_list_to_map_1.
Qed.

Lemma kids_ok_insert m c x : kids_ok m → 0 ≤ c < 256 → x ≠ Null → kids_ok (<[c := x]> m).
Proof. intros Hm Hc Hx. by apply map_Forall_insert_2. Qed.

(** Replacing the child at the position that was found. *)
Lemma flat_replace cap h kl rk rc c j x y :
  flat_repr cap h (kl.*1 ++ rk) (kl.*2 ++ rc) (list_to_map kl) →
  NoDup kl.*1 → num_children h = Z.of_nat (length kl) →
  kl !! j = Some (c, x) →
  (kl.*2 ++ rc) !! j = Some x ∧
  flat_repr cap h (kl.*1 ++ rk) (<[j := y]> (kl.*2 ++ rc)) (<[c := y]> (list_to_map kl)).
Proof.
  intros (kl0 & rk0 & rc0 & _ & _ & _ & Hk & Hc & _) Hnd Hn Hj.
  pose proof (lookup_lt_Some _ _ _ Hj) as Hlt.
  split; [apply lookup_app_l_Some; by rewrite list_lookup_fmap, Hj|].
  exists (<[j := (c, y)]> kl), rk, rc.
  assert ((<[j := (c, y)]> kl).*1 = kl.*1) as Hfst.
  { rewrite list_fmap_insert. apply list_insert_id. by rewrite list_lookup_fmap, Hj. }
  split; [by rewrite Hfst|]. split.
  { rewrite list_fmap_insert. cbn. symmetry. rewrite <-insert_app_l; [done|]. rewrite length_fmap. lia. }
  split; [by rewrite length_insert|]. split; [done|]. split; [by rewrite length_insert|].
  split; [by rewrite Hfst|].
  apply map_eq. intros c'. destruct (decide (c' = c)) as [->|Hne].
  - rewrite lookup_insert_eq. symmetry. apply (list_to_map_kl_lookup _ j); [by rewrite Hfst|].
    by apply list_lookup_insert_eq.
  - rewrite lookup_insert_ne by done. apply option_eq. intros z.
    rewrite <-!elem_of_list_to_map by (by rewrite ?Hfst). split.
    + intros [i Hi]%list_elem_of_lookup. apply list_elem_of_lookup. exists i.
      rewrite list_lookup_insert_ne; [done|]. intros ->. congruence.
    + intros [i Hi]%list_elem_of_lookup. apply list_lookup_insert_Some in Hi as [(-> & [= -> ->] & _)|[_ Hi]]; [done|].
      by eapply list_elem_of_lookup_2.
Qed.

Lemma indexed_replace h ks cs m c k x y :
  indexed_repr h ks cs m → 0 ≤ c < 256 → ks !! Z.to_nat c = Some k → 1 ≤ k ≤ 48 →
  m !! c = Some x → cs !! Z.to_nat (k - 1) = Some x →
  indexed_repr h ks (<[Z.to_nat (k - 1) := y]> cs) (<[c := y]> m).
Proof.
  intros [H1 H2 H3 H4 H5 H6 H7] Hc Hk Hkr Hx Hcs.
  assert (base.size (<[c := y]> m) = base.size m) as Hsz by (by rewrite map_size_insert, Hx).
  split; [done|by rewrite length_insert|by rewrite Hsz|by rewrite Hsz| |done|].
  - intros c' k' Hc' Hk'. destruct (decide (c' = c)) as [->|Hne].
    + right. rewrite Hk in Hk'. injection Hk' as <-. split; [done|]. exists y. rewrite lookup_insert_eq.
      split; [done|]. apply list_lookup_insert_eq. by eapply lookup_lt_Some.
    + rewrite lookup_insert_ne by done. destruct (H5 c' k' Hc' Hk') as [?|(Hk'r & x' & Hx' & Hcs')]; [by left|].
      right. split; [done|]. exists x'. split; [done|]. rewrite list_lookup_insert_ne; [done|].
      intros Heq. apply Hne. eapply (H6 c' c k'); [done|lia|done| |lia]. by replace k' with k by lia.
  - intros i z Hz Hznull. apply list_lookup_insert_Some in Hz as [(<- & <- & _)|[_ Hz]]; [|by eapply H7].
    exists c. split; [done|]. rewrite Hk. f_equal. lia.
Qed.

Lemma direct_replace h cs m c x y :
  direct_repr h cs m → 0 ≤ c < 256 → m !! c = Some x →
  direct_repr h (<[Z.to_nat c := y]> cs) (<[c := y]> m).
Proof.
  intros (Hlen & Hn & Hlook) Hc Hx. split; [by rewrite length_insert|]. split; [by rewrite map_size_insert, Hx|].
  intros c' Hc'. destruct (decide (c' = c)) as [->|Hne].
  - rewrite lookup_insert_eq, list_lookup_insert_eq by lia. done.
  - rewrite lookup_insert_ne, list_lookup_insert_ne by lia. by apply Hlook.
Qed.

(** What [find_child] promises: the child, and that storing another one at
    its position is an update of the map. *)
Definition found_at (h : art_header) (ks : list Z) (cs : list art_node) (m : kidmap) (c i : Z) (x : art_node)
    : Prop :=
  0 <= i ∧ cs !! Z.to_nat i = Some x ∧
  (type h = NODE4 ∨ type h = NODE16 → ks !! Z.to_nat i = Some c ∧ i < num_children h) ∧
  ∀ y, y ≠ Null → node_repr h ks (<[Z.to_nat i := y]> cs) (<[c := y]> m).

Lemma find_child_spec h ks cs m c :
  node_repr h ks cs m → 0 ≤ c < 256 →
  match m !! c with
  | None => find_child h ks cs c = Done None
  | Some x => ∃ i, find_child h ks cs c = Done (Some i) ∧ found_at h ks cs m c i x
  end.
Proof.
  intros [Hkind Hkids] Hc. destruct Hkind as [Ht Hf|Ht Hf|Ht Hi|Ht Hd].
  - pose proof Hf as (kl & rk & rc & -> & -> & Hn & Hlk & Hlc & Hnd & ->).
    pose proof (first_true_key kl c Hnd) as Hft.
    assert (find_child h (kl.*1 ++ rk) (kl.*2 ++ rc) c =
            Done (Z.of_nat <$> first_true ((λ k : Z, (k =? c)%Z) <$> kl.*1))) as Hrun.
    { unfold find_child. rewrite Ht, Hn. cbn [NODE4 Z.eqb Pos.eqb].
      rewrite length_app, length_fmap in Hlk.
      pose proof (find_key_run kl rk c 257 0 ltac:(lia) ltac:(lia)) as Hf0. change (Z.of_nat 0) with 0 in Hf0.
      rewrite Hf0, drop_0. by destruct (first_true _). }
    destruct (first_true _) as [j|]; [|by rewrite Hft].
    destruct Hft as (x & Hj & ->). exists (Z.of_nat j). split; [done|]. unfold found_at. rewrite Nat2Z.id.
    destruct (flat_replace 4 h kl rk rc c j x x Hf Hnd Hn Hj) as [Hx _]. split; [lia|]. split; [done|].
    split; [intros _; split; [|apply lookup_lt_Some in Hj; lia];
            apply lookup_app_l_Some; by rewrite list_lookup_fmap, Hj|].
    intros y Hy. split; [|by apply kids_ok_insert]. apply Kind4; [done|].
    by apply (flat_replace 4 h kl rk rc c j x y).
  - pose proof Hf as (kl & rk & rc & -> & -> & Hn & Hlk & Hlc & Hnd & ->).
    pose proof (first_true_key kl c Hnd) as Hft.
    pose proof (find16_run kl rk c h Ht Hn Hlk Hc (kids_ok_keys kl Hnd Hkids) (kl.*2 ++ rc)) as Hrun.
    destruct (first_true _) as [j|]; [|by rewrite Hft].
    destruct Hft as (x & Hj & ->). exists (Z.of_nat j). split; [done|]. unfold found_at. rewrite Nat2Z.id.
    destruct (flat_replace 16 h kl rk rc c j x x Hf Hnd Hn Hj) as [Hx _]. split; [lia|]. split; [done|].
    split; [intros _; split; [|apply lookup_lt_Some in Hj; lia];
            apply lookup_app_l_Some; by rewrite list_lookup_fmap, Hj|].
    intros y Hy. split; [|by apply kids_ok_insert]. apply Kind16; [done|].
    by apply (flat_replace 16 h kl rk rc c j x y).
  - unfold find_child. rewrite Ht. cbn [NODE4 NODE16 NODE48 Z.eqb Pos.eqb].
    destruct (lookup_lt_is_Some_2 ks (Z.to_nat c)) as [k Hk]; [rewrite (ix_keys _ _ _ _ Hi); lia|].
    rewrite (buf_get_Some _ _ k) by (lia || done). cbn [mbind outcome_bind].
    destruct (ix_lookup _ _ _ _ Hi c k ltac:(lia) Hk) as [[-> ->]|(Hkr & x & Hx & Hcs)]; [done|].
    rewrite Hx. destruct (Z.eqb_spec k 0); [lia|]. cbn [negb]. exists (k - 1). split; [done|].
    split; [lia|]. split; [done|]. split; [rewrite Ht; by intros [?|?]|].
    intros y Hy. split; [|by apply kids_ok_insert]. apply Kind48; [done|]. by eapply indexed_replace.
  - pose proof Hd as (Hlen & Hn & Hlook). unfold find_child. rewrite Ht. cbn [NODE4 NODE16 NODE48 NODE256 Z.eqb Pos.eqb].
    rewrite (arr_get_Some _ _ _ (proj1 Hc) (Hlook c Hc)).
    destruct (m !! c) as [x|] eqn:Hx; [|done].
    destruct (Hkids c x Hx) as [_ Hnull].
    assert (negb (is_null x) = true) as Hnn by (by destruct x).
    cbn [default from_option id mbind outcome_bind]. rewrite Hnn. exists c. split; [done|].
    split; [lia|]. split; [by rewrite (Hlook c Hc), Hx|]. split; [rewrite Ht; by intros [?|?]|].
    intros y Hy. split; [|by apply kids_ok_insert]. apply Kind256; [done|].
    by eapply direct_replace.
Qed.
