(* ===== verification/ArtAdd.v ===== *)
(** * ArtAdd: add_child on the map of a node

    A child under a new byte is inserted into the map, whatever the kind of
    the node, and through the growth of a full node into the next kind. *)

From S2P Require Import Prelude.
From S2P Require Import Critbit.
From S2P Require Import Art.
From S2P Require Import ArtArrays.
From S2P Require Import ArtNodes.

Section add.
Context {AA : ArtAlloc} {AT : ArtAllocTotal AA}.

(** ** The flat kinds *)

Section flat.
Context (cap : nat) (Hcap : (cap ≤ 16)%nat).
Implicit Types (kl : list (Z * art_node)).

(** The node after [(c, x)] has been put between [kl1] and [kl2]. *)
Lemma flat_insert h kl1 kl2 rk rc c x :
  NoDup (kl1 ++ kl2).*1 → c ∉ (kl1 ++ kl2).*1 →
  num_children h = Z.of_nat (length (kl1 ++ kl2)) →
  S (length (kl1 ++ kl2) + length rk) = cap → S (length (kl1 ++ kl2) + length rc) = cap →
  flat_repr cap (set_num (u8 (num_children h + 1)) h)
    (kl1.*1 ++ c :: kl2.*1 ++ rk) (kl1.*2 ++ x :: kl2.*2 ++ rc) (<[c := x]> (list_to_map (kl1 ++ kl2))).
Proof.
  intros Hnd Hc Hn Hrk Hrc. exists (kl1 ++ (c, x) :: kl2), rk, rc.
  assert (kl1 ++ (c, x) :: kl2 ≡ₚ (c, x) :: kl1 ++ kl2) as Hperm by (by rewrite Permutation_middle).
  assert (NoDup ((c, x) :: kl1 ++ kl2).*1) as Hnd' by (by apply NoDup_cons).
  rewrite !fmap_app, !fmap_cons, <-!app_assoc. cbn [fst snd app].
  split; [done|]. split; [done|]. split.
  { cbn. rewrite Hn, u8_small by lia. rewrite (Permutation_length Hperm). cbn. lia. }
  split; [rewrite length_app; cbn; rewrite !length_app, !length_fmap in *; lia|].
  split; [rewrite length_app; cbn; rewrite !length_app, !length_fmap in *; lia|].
  assert (NoDup (kl1 ++ (c, x) :: kl2).*1) as Hnd'' by (by rewrite Hperm).
  pose proof (list_to_map_proper (M := gmap Z) _ _ Hnd'' Hperm) as ->.
  rewrite fmap_app, fmap_cons in Hnd''. done.
Qed.

(** The two [memmove]s and the two stores. *)
Lemma flat_shift_in h kl1 kl2 rk rc c x i num :
  NoDup (kl1 ++ kl2).*1 → c ∉ (kl1 ++ kl2).*1 →
  num_children h = Z.of_nat (length (kl1 ++ kl2)) → (length (kl1 ++ kl2) < cap)%nat →
  length ((kl1 ++ kl2).*1 ++ rk) = cap → length ((kl1 ++ kl2).*2 ++ rc) = cap →
  i = Z.of_nat (length kl1) → num = Z.of_nat (length (kl1 ++ kl2)) →
  ∃ ks1 cs1 ks2 cs2,
    arr_move ((kl1 ++ kl2).*1 ++ rk) (i + 1) i (num - i) = Done ks1 ∧
    arr_move ((kl1 ++ kl2).*2 ++ rc) (i + 1) i (num - i) = Done cs1 ∧
    arr_set ks1 i c = Done ks2 ∧ arr_set cs1 i x = Done cs2 ∧
    flat_repr cap (set_num (u8 (num_children h + 1)) h) ks2 cs2 (<[c := x]> (list_to_map (kl1 ++ kl2))).
Proof.
  intros Hnd Hc Hn Hlt Hk Hcs Hi Hnum.
  rewrite length_app, length_fmap in Hk. rewrite length_app, length_fmap in Hcs.
  destruct rk as [|y rk]; [cbn in Hk; lia|]. destruct rc as [|y' rc]; [cbn in Hcs; lia|].
  cbn [length] in Hk, Hcs. rewrite length_app in Hnum.
  destruct (arr_shift_in kl1.*1 kl2.*1 y rk c i (num - i)) as (ks1 & Hm1 & Hs1); [rewrite length_fmap; lia..|].
  destruct (arr_shift_in kl1.*2 kl2.*2 y' rc x i (num - i)) as (cs1 & Hm2 & Hs2); [rewrite length_fmap; lia..|].
  exists ks1, cs1. do 2 eexists. rewrite !fmap_app, <-!app_assoc.
  split; [done|]. split; [done|]. split; [done|]. split; [done|].
  apply flat_insert; [done|done|done|lia|lia].
Qed.
End flat.

Lemma lower_slot_run (kl : list (Z * art_node)) rk c : ∀ fuel i,
  (i ≤ length kl)%nat → (length kl - i < fuel)%nat →
  ∃ j, (j ≤ length kl)%nat ∧
    lower_slot fuel (kl.*1 ++ rk) (Z.of_nat i) (Z.of_nat (length kl)) c = Done (Z.of_nat j).
Proof.
  induction fuel as [|fuel IH]; intros i Hi Hf; [lia|]. cbn [lower_slot].
  destruct (Z.ltb_spec (Z.of_nat i) (Z.of_nat (length kl))) as [Hlt|Hge]; [|by exists i].
  destruct (lookup_lt_is_Some_2 kl.*1 i) as [k Hk]; [rewrite length_fmap; lia|].
  rewrite (buf_get_Some _ _ k) by (lia || (rewrite Nat2Z.id; by apply lookup_app_l_Some)).
  cbn [mbind outcome_bind]. destruct (c <? k); [by exists i|].
  replace (Z.of_nat i + 1) with (Z.of_nat (S i)) by lia. apply IH; lia.
Qed.

(** ** What adding a child promises *)

Definition added (h : art_header) (m : kidmap) (c : Z) (x : art_node) (o : outcome art_node) : Prop :=
  ∃ h' ks' cs', o = Done (Inner h' ks' cs') ∧ node_repr h' ks' cs' (<[c := x]> m) ∧
    (∀ p, prefix_repr h p → prefix_repr h' p) ∧
    (occupancy h (<[c := x]> m) → occupancy h' (<[c := x]> m)).

Lemma prefix_repr_set_num h k p : prefix_repr h p → prefix_repr (set_num k h) p.
Proof. done. Qed.

Lemma occupancy_set_num h k m : occupancy (set_num k h) m ↔ occupancy h m.
Proof. done. Qed.

(** [copy_header] keeps the count and the prefix. *)
Lemma art_min_10 n : 0 ≤ n < 2 ^ 31 → art_min MAX_PREFIX_LEN n = Z.min 10 n.
Proof.
  intros Hn. unfold art_min, MAX_PREFIX_LEN. rewrite !s32_small by lia.
  destruct (Z.ltb_spec 10 n); lia.
Qed.

Lemma copy_header_spec t k p0 l0 h p :
  length p0 = 10%nat → prefix_repr h p →
  ∃ q, copy_header (Header t k l0 p0) h = Done (Header t (num_children h) (partial_len h) q) ∧
    ∀ p', prefix_repr h p' → prefix_repr (Header t (num_children h) (partial_len h) q) p'.
Proof.
  intros Hp0 (Hlen & Hpl & Hb & Htake). unfold copy_header. cbn [Art.partial Art.type].
  rewrite art_min_10, Hpl by lia.
  replace (Z.min 10 (Z.of_nat (length p))) with (Z.of_nat (min 10 (length p))) by lia.
  rewrite arr_copy_front by lia. cbn [mbind outcome_bind]. eexists. split; [done|].
  intros p' (_ & Hpl' & Hb' & Htake'). assert (length p = length p') as Heq by lia.
  unfold prefix_repr. cbn [Art.partial partial_len].
  split; [rewrite length_app, length_take, length_drop; lia|]. split; [lia|]. split; [done|].
  rewrite Heq, take_app_length' by (rewrite length_take; lia). done.
Qed.

(** ** NODE48 *)

Lemma scan_slots_up {B} (empty : B → bool) (a : list B) : ∀ fuel i,
  (∃ j x, (i ≤ j)%nat ∧ (j - i < fuel)%nat ∧ a !! j = Some x ∧ empty x = false) →
  ∃ j x, scan_slots fuel empty a (Z.of_nat i) 1 = Done (Z.of_nat j) ∧ (i ≤ j)%nat ∧
    a !! j = Some x ∧ empty x = false.
Proof.
  induction fuel as [|fuel IH]; intros i (j & x & Hij & Hf & Hj & Hx); [lia|]. cbn [scan_slots].
  destruct (lookup_lt_is_Some_2 a i) as [y Hy]; [apply lookup_lt_Some in Hj; lia|].
  rewrite (arr_get_Some _ _ y) by (lia || by rewrite Nat2Z.id). cbn [mbind outcome_bind].
  destruct (empty y) eqn:Hey; [|by exists i, y].
  replace (Z.of_nat i + 1) with (Z.of_nat (S i)) by lia.
  destruct (IH (S i)) as (j' & x' & Hrun & Hle & Hx').
  - exists j, x. assert (i ≠ j) by congruence. split; [lia|]. split; [lia|]. done.
  - exists j', x'. split; [done|]. split; [lia|]. done.
Qed.

(** A choice for every index below [n]. *)
Lemma choose_below {B} (P : nat → B → Prop) (n : nat) :
  (∀ i, (i < n)%nat → ∃ b, P i b) → ∃ l, length l = n ∧ ∀ i b, l !! i = Some b → P i b.
Proof.
  induction n as [|n IH]; intros HP; [by exists []|].
  destruct IH as (l & Hl & HPl); [intros; apply HP; lia|]. destruct (HP n) as [b Hb]; [lia|].
  exists (l ++ [b]). split; [rewrite length_app; cbn; lia|]. intros i b' Hi.
  apply lookup_app_Some in Hi as [Hi|[Hle Hi]]; [by apply HPl|].
  destruct (i - length l)%nat eqn:E; [|done]. injection Hi as <-. by replace i with n by lia.
Qed.

(** A node with fewer than 48 children has a free slot. *)
Lemma indexed_free h ks cs m :
  indexed_repr h ks cs m → (base.size m < 48)%nat →
  ∃ j, (j < 48)%nat ∧ cs !! j = Some Null.
Proof.
  intros Hi Hsz. destruct (decide (Exists (λ x, is_null x = true) cs)) as [He|Hn].
  - apply Exists_exists in He as (x & Hin & Hx). apply list_elem_of_lookup in Hin as [j Hj].
    exists j. pose proof (lookup_lt_Some _ _ _ Hj). rewrite (ix_slots _ _ _ _ Hi) in *. split; [done|].
    by destruct x.
  - exfalso. apply not_Exists_Forall in Hn; [|intros x; apply _].
    destruct (choose_below (λ i c, 0 <= c < 256 ∧ ks !! Z.to_nat c = Some (Z.of_nat i + 1)) 48) as (l & Hl & HP).
    { intros i Hlt. destruct (lookup_lt_is_Some_2 cs i) as [x Hx]; [by rewrite (ix_slots _ _ _ _ Hi)|].
      apply (ix_used _ _ _ _ Hi i x Hx). intros ->. by apply (Forall_lookup_1 _ _ _ _ Hn Hx). }
    assert (l ⊆+ (map_to_list m).*1) as Hsub.
    { apply NoDup_submseteq.
      - apply NoDup_alt. intros i j c Hic Hjc. apply HP in Hic as [_ H1], Hjc as [_ H2].
        rewrite H1 in H2. injection H2. lia.
      - intros c [i Hic]%list_elem_of_lookup.
        pose proof (lookup_lt_Some _ _ _ Hic) as Hlt. apply HP in Hic as [Hc Hk].
        destruct (ix_lookup _ _ _ _ Hi c _ ltac:(lia) Hk) as [[Hz _]|(_ & x & Hx & _)]; [lia|].
        apply list_elem_of_fmap. exists (c, x). split; [done|]. by apply elem_of_map_to_list. }
    apply submseteq_length in Hsub. rewrite length_fmap, length_map_to_list in Hsub. lia.
Qed.

Lemma indexed_insert h ks cs m c x (pos : nat) :
  indexed_repr h ks cs m → kids_ok m → 0 <= c < 256 → m !! c = None → x ≠ Null →
  (base.size m < 48)%nat → cs !! pos = Some Null →
  indexed_repr (set_num (u8 (num_children h + 1)) h) (<[Z.to_nat c := Z.of_nat pos + 1]> ks)
    (<[pos := x]> cs) (<[c := x]> m).
Proof.
  intros [H1 H2 H3 H4 H5 H6 H7] Hkids Hc Hnone Hx Hsz Hpos.
  pose proof (lookup_lt_Some _ _ _ Hpos) as Hlt. rewrite H2 in Hlt.
  assert (base.size (<[c := x]> m) = S (base.size m)) as Hsz' by (by apply map_size_insert_None).
  assert (∀ c', 0 <= c' → ks !! Z.to_nat c' ≠ Some (Z.of_nat pos + 1)) as Hfresh.
  { intros c' Hc' Hk. destruct (H5 c' _ Hc' Hk) as [[Hz _]|(_ & y & Hy & Hcs)]; [lia|].
    replace (Z.to_nat (Z.of_nat pos + 1 - 1)) with pos in Hcs by lia.
    destruct (Hkids c' y Hy). congruence. }
  split.
  - by rewrite length_insert.
  - by rewrite length_insert.
  - cbn. rewrite H3, u8_small by lia. lia.
  - lia.
  - intros c' k Hc' Hk. destruct (decide (c' = c)) as [->|Hne].
    + rewrite list_lookup_insert_eq in Hk by lia. injection Hk as <-. right. split; [lia|].
      exists x. rewrite lookup_insert_eq. split; [done|].
      replace (Z.to_nat (Z.of_nat pos + 1 - 1)) with pos by lia. apply list_lookup_insert_eq. lia.
    + rewrite list_lookup_insert_ne in Hk by lia. rewrite lookup_insert_ne by done.
      destruct (H5 c' k Hc' Hk) as [?|(Hr & y & Hy & Hcs)]; [by left|]. right. split; [done|].
      exists y. split; [done|]. rewrite list_lookup_insert_ne; [done|].
      intros ->. destruct (Hkids c' y Hy). congruence.
  - intros c1 c2 k Hc1 Hc2 Hk1 Hk2 Hk. destruct (decide (c1 = c)) as [->|N1], (decide (c2 = c)) as [->|N2]; [done|..].
    + rewrite list_lookup_insert_eq in Hk1 by lia. injection Hk1 as <-.
      rewrite list_lookup_insert_ne in Hk2 by lia. by apply Hfresh in Hk2.
    + rewrite list_lookup_insert_eq in Hk2 by lia. injection Hk2 as <-.
      rewrite list_lookup_insert_ne in Hk1 by lia. by apply Hfresh in Hk1.
    + rewrite list_lookup_insert_ne in Hk1 by lia. rewrite list_lookup_insert_ne in Hk2 by lia. by eapply H6.
  - intros i y Hy Hnull. apply list_lookup_insert_Some in Hy as [(<- & <- & _)|[Hne Hy]].
    + exists c. split; [done|]. apply list_lookup_insert_eq. lia.
    + destruct (H7 i y Hy Hnull) as (c' & Hc' & Hk). exists c'. split; [done|].
      rewrite list_lookup_insert_ne; [done|]. intros Heq.
      assert (c' = c) as -> by lia. destruct (H5 c _ ltac:(lia) Hk) as [[Hz _]|(_ & z & Hz & _)]; [lia|congruence].
Qed.

(** ** NODE256 *)

Lemma size_below_256 (m : kidmap) c : kids_ok m → 0 ≤ c < 256 → m !! c = None → (base.size m < 256)%nat.
Proof.
  intros Hkids Hc Hnone.
  assert (c :: (map_to_list m).*1 ⊆+ bytes) as Hsub.
  { apply NoDup_submseteq.
    - apply NoDup_cons. split; [|apply NoDup_fst_map_to_list].
      intros ((c', x) & -> & Hin)%list_elem_of_fmap. apply elem_of_map_to_list in Hin. cbn in Hnone. congruence.
    - intros c' [->|((c'', x) & -> & Hin)%list_elem_of_fmap]%elem_of_cons; [by apply elem_of_bytes|].
      apply elem_of_map_to_list in Hin. by destruct (Hkids c'' x Hin) as [? _]; apply elem_of_bytes. }
  apply submseteq_length in Hsub. cbn [length] in Hsub. rewrite length_fmap, length_map_to_list in Hsub.
  change (length bytes) with 256%nat in Hsub. lia.
Qed.

Lemma direct_insert h cs m c x :
  direct_repr h cs m → 0 ≤ c < 256 → m !! c = None →
  direct_repr (set_num (u8 (num_children h + 1)) h) (<[Z.to_nat c := x]> cs) (<[c := x]> m).
Proof.
  intros (Hlen & Hn & Hlook) Hc Hnone. split; [by rewrite length_insert|]. split.
  - cbn. rewrite Hn, map_size_insert_None by done. unfold u8. rewrite Zplus_mod_idemp_l. f_equal. lia.
  - intros c' Hc'. destruct (decide (c' = c)) as [->|Hne].
    + rewrite lookup_insert_eq, list_lookup_insert_eq by lia. done.
    + rewrite lookup_insert_ne, list_lookup_insert_ne by lia. by apply Hlook.
Qed.

Lemma add_child256_spec h ks cs m c x :
  type h = NODE256 → direct_repr h cs m → kids_ok m → 0 ≤ c < 256 → m !! c = None → x ≠ Null →
  added h m c x (add_child256 h ks cs c x).
Proof.
  intros Ht Hd Hkids Hc Hnone Hx. unfold add_child256. cbv zeta.
  rewrite arr_set_Some by (destruct Hd as [-> _]; lia). cbn [mbind outcome_bind].
  do 3 eexists. split; [done|]. split; [|done]. split; [|by apply kids_ok_insert].
  apply Kind256; [done|]. by apply direct_insert.
Qed.

(** The copying loop of a full [NODE48]. *)
Lemma expand48_run h ks cs m : indexed_repr h ks cs m →
  ∀ fuel (i : nat) new, (fuel + i = 256)%nat → length new = 256%nat →
  (∀ c, 0 ≤ c < 256 → new !! Z.to_nat c = Some (if c <? Z.of_nat i then default Null (m !! c) else Null)) →
  ∃ new', expand48 fuel (Z.of_nat i) ks cs new = Done new' ∧ length new' = 256%nat ∧
    ∀ c, 0 ≤ c < 256 → new' !! Z.to_nat c = Some (default Null (m !! c)).
Proof.
  intros Hi. induction fuel as [|fuel IH]; intros i new Hf Hlen Hnew.
  { exists new. split; [done|]. split; [done|]. intros c Hc. rewrite Hnew by done.
    destruct (Z.ltb_spec c (Z.of_nat i)); [done|lia]. }
  cbn [expand48]. destruct (lookup_lt_is_Some_2 ks (Z.to_nat (Z.of_nat i))) as [k Hk].
  { rewrite (ix_keys _ _ _ _ Hi). lia. }
  rewrite (buf_get_Some _ _ k) by (lia || done). cbn [mbind outcome_bind].
  replace (Z.of_nat i + 1) with (Z.of_nat (S i)) by lia.
  destruct (ix_lookup _ _ _ _ Hi (Z.of_nat i) k ltac:(lia) Hk) as [[-> Hn]|(Hr & x & Hx & Hcs)].
  - cbn [Z.eqb negb]. apply IH; [lia|done|]. intros c Hc. rewrite Hnew by done.
    destruct (Z.ltb_spec c (Z.of_nat i)), (Z.ltb_spec c (Z.of_nat (S i))); [done|lia| |done].
    by replace c with (Z.of_nat i) by lia; rewrite Hn.
  - destruct (Z.eqb_spec k 0); [lia|]. cbn [negb].
    rewrite (arr_get_Some cs (k - 1) x) by (lia || done). cbn [mbind outcome_bind].
    rewrite arr_set_Some by lia. cbn [mbind outcome_bind].
    apply IH; [lia|by rewrite length_insert|]. intros c Hc.
    destruct (decide (c = Z.of_nat i)) as [->|Hne].
    + rewrite list_lookup_insert_eq by lia. destruct (Z.ltb_spec (Z.of_nat i) (Z.of_nat (S i))); [by rewrite Hx|lia].
    + rewrite list_lookup_insert_ne by lia. rewrite Hnew by done.
      destruct (Z.ltb_spec c (Z.of_nat i)), (Z.ltb_spec c (Z.of_nat (S i))); done || lia.
Qed.

Lemma added_through h h' m c x o :
  added h' m c x o → (∀ p, prefix_repr h p → prefix_repr h' p) →
  (occupancy h (<[c := x]> m) → occupancy h' (<[c := x]> m)) → added h m c x o.
Proof.
  intros (h2 & ks2 & cs2 & Ho & Hr & Hp & Hocc) Hp' Hocc'. exists h2, ks2, cs2.
  split; [done|]. split; [done|]. split; [|by auto]. intros p Hpp. by apply Hp, Hp'.
Qed.

Lemma alloc_node_256 : alloc_node NODE256 = Done (Header NODE256 0 0 (replicate 10 0), [], replicate 256 Null).
Proof. unfold alloc_node. by rewrite calloc_total. Qed.

(** A full [NODE48] grows into a [NODE256]. *)
Lemma grow48_spec h ks cs m c x p :
  indexed_repr h ks cs m → kids_ok m → 0 ≤ c < 256 → m !! c = None → x ≠ Null → base.size m = 48%nat →
  prefix_repr h p →
  added h m c x ('(h', ks', cs') ← alloc_node NODE256; cs' ← expand48 256 0 ks cs cs';
    h' ← copy_header h' h; add_child256 h' ks' cs' c x).
Proof.
  intros Hi Hkids Hc Hnone Hx Hsz Hp. next_by alloc_node_256.
  destruct (expand48_run h ks cs m Hi 256 0 (replicate 256 Null)) as (new & Hrun & Hlen & Hnew).
  { lia. }
  { apply length_replicate. }
  { intros c' Hc'. rewrite lookup_replicate_2 by lia. by destruct (Z.ltb_spec c' (Z.of_nat 0)); [lia|]. }
  change (Z.of_nat 0) with 0 in Hrun. next_by Hrun.
  destruct (copy_header_spec NODE256 0 (replicate 10 0) 0 h p) as (q & Hq & Hqp); [done|done|].
  next_by Hq.
  apply (added_through h (Header NODE256 (num_children h) (partial_len h) q)); [|exact Hqp|].
  - apply add_child256_spec; [done| |done..].
    split; [done|]. split; [cbn; rewrite (ix_num _ _ _ _ Hi), u8_small; lia|done].
  - intros _. unfold occupancy. rewrite map_size_insert_None by done.
    cbn [Art.type NODE256 NODE4 NODE16 NODE48 Z.eqb Pos.eqb]. lia.
Qed.

Lemma add_child48_spec h ks cs m c x p :
  type h = NODE48 → indexed_repr h ks cs m → kids_ok m → 0 ≤ c < 256 → m !! c = None → x ≠ Null →
  prefix_repr h p → added h m c x (add_child48 h ks cs c x).
Proof.
  intros Ht Hi Hkids Hc Hnone Hx Hp. unfold add_child48. rewrite (ix_num _ _ _ _ Hi).
  pose proof (ix_size _ _ _ _ Hi) as Hsz.
  destruct (Z.ltb_spec (Z.of_nat (base.size m)) 48) as [Hlt|Hge]; [|by eapply grow48_spec; [..|lia|]].
  destruct (indexed_free h ks cs m Hi ltac:(lia)) as (j & Hj & Hnull).
  destruct (scan_slots_up (λ x, negb (is_null x)) cs 49 0) as (pos & y & Hrun & _ & Hpos & Hy).
  { exists j, Null. split; [lia|]. split; [lia|]. done. }
  assert (y = Null) as -> by (by destruct y).
  change (Z.of_nat 0) with 0 in Hrun. rewrite Hrun. cbn [mbind outcome_bind].
  pose proof (lookup_lt_Some _ _ _ Hpos) as Hplt. rewrite (ix_slots _ _ _ _ Hi) in Hplt.
  rewrite (arr_set_Some cs) by (rewrite (ix_slots _ _ _ _ Hi); lia). cbn [mbind outcome_bind].
  rewrite (arr_set_Some ks) by (rewrite (ix_keys _ _ _ _ Hi); lia). cbn [mbind outcome_bind].
  rewrite (u8_small (Z.of_nat pos + 1)), Nat2Z.id by lia. rewrite <-(ix_num _ _ _ _ Hi).
  do 3 eexists. split; [done|]. split; [|done]. split; [|by apply kids_ok_insert].
  apply Kind48; [done|]. apply indexed_insert; done || lia.
Qed.

(** ** NODE16 *)

(** The loop that turns the key array into a key map. *)
Definition key_index (n : nat) (kl : list (Z * art_node)) (new : list Z) : Prop :=
  length new = 256%nat ∧
  ∀ c k, 0 ≤ c → new !! Z.to_nat c = Some k →
    k = 0 ∧ c ∉ (take n kl).*1 ∨ 1 ≤ k ≤ Z.of_nat n ∧ kl.*1 !! Z.to_nat (k - 1) = Some c.

Lemma index_keys_run (kl : list (Z * art_node)) rk :
  NoDup kl.*1 → Forall (λ k, 0 ≤ k < 256) kl.*1 → (length kl ≤ 16)%nat → ∀ fuel (i : nat) new,
  (i ≤ length kl)%nat → (length kl - i < fuel)%nat → key_index i kl new →
  ∃ new', index_keys fuel (Z.of_nat i) (Z.of_nat (length kl)) (kl.*1 ++ rk) new = Done new' ∧
    key_index (length kl) kl new'.
Proof.
  intros Hnd Hb H16. induction fuel as [|fuel IH]; intros i new Hi Hf [Hlen Hnew]; [lia|]. cbn [index_keys].
  destruct (Z.ltb_spec (Z.of_nat i) (Z.of_nat (length kl))) as [Hlt|Hge].
  2: { exists new. split; [done|]. by replace (length kl) with i by lia. }
  destruct (lookup_lt_is_Some_2 kl i) as [[c x] Hkl]; [lia|].
  assert (kl.*1 !! i = Some c) as Hk by (by rewrite list_lookup_fmap, Hkl).
  pose proof (Forall_lookup_1 _ _ _ _ Hb Hk) as Hc. cbn in Hc.
  next_by (buf_get_Some (kl.*1 ++ rk) (Z.of_nat i) c ltac:(lia)
             ltac:(rewrite Nat2Z.id; by apply lookup_app_l_Some)).
  next_by (arr_set_Some new c (u8 (Z.of_nat i + 1)) ltac:(lia)).
  replace (Z.of_nat i + 1) with (Z.of_nat (S i)) by lia. rewrite u8_small by lia.
  apply IH; [lia|lia|]. split; [by rewrite length_insert|]. intros c' k Hc' Hk'.
  destruct (decide (c' = c)) as [->|Hne].
  - rewrite list_lookup_insert_eq in Hk' by lia. injection Hk' as <-. right. split; [lia|].
    by replace (Z.to_nat (Z.of_nat (S i) - 1)) with i by lia.
  - rewrite list_lookup_insert_ne in Hk' by lia. destruct (Hnew c' k Hc' Hk') as [[-> Hn]|[Hr Hin]].
    + left. split; [done|]. rewrite (take_S_r _ _ _ Hkl), fmap_app, elem_of_app.
      intros [?|Hin]; [done|]. apply list_elem_of_singleton in Hin. done.
    + right. split; [lia|done].
Qed.

(** The key map and the copied children represent the same map. *)
Lemma indexed_of_flat h h' kl rk rc new :
  flat_repr 16 h (kl.*1 ++ rk) (kl.*2 ++ rc) (list_to_map kl) → NoDup kl.*1 → length kl = 16%nat →
  Forall (λ k, 0 ≤ k < 256) kl.*1 →
  num_children h' = 16 → key_index 16 kl new →
  indexed_repr h' new (kl.*2 ++ replicate 32 Null) (list_to_map kl).
Proof.
  intros _ Hnd H16 Hb Hn [Hlen Hnew].
  assert (base.size (list_to_map kl : kidmap) = 16%nat) as Hsz.
  { rewrite <-H16. clear -Hnd. induction kl as [|[c x] kl IH]; [done|]. cbn in *.
    apply NoDup_cons in Hnd as [Hnin Hnd]. rewrite map_size_insert_None by (by apply not_elem_of_list_to_map_1).
    by rewrite IH. }
  assert (∀ c k, 0 ≤ c → new !! Z.to_nat c = Some k → k = 0 ∧ (list_to_map kl : kidmap) !! c = None ∨
    1 ≤ k ≤ 16 ∧ ∃ x, kl !! Z.to_nat (k - 1) = Some (c, x)) as Hcase.
  { intros c k Hc Hk. destruct (Hnew c k Hc Hk) as [[-> Hnin]|[Hr Hin]].
    - left. split; [done|]. apply not_elem_of_list_to_map_1. by rewrite take_ge in Hnin by lia.
    - right. split; [lia|]. rewrite list_lookup_fmap in Hin.
      destruct (kl !! Z.to_nat (k - 1)) as [[c' x]|]; [|done]. injection Hin as ->. by exists x. }
  split.
  - done.
  - by rewrite length_app, length_fmap, length_replicate, H16.
  - by rewrite Hn, Hsz.
  - lia.
  - intros c k Hc Hk. destruct (Hcase c k Hc Hk) as [?|(Hr & x & Hx)]; [by left|]. right.
    split; [lia|]. exists x. split; [by eapply list_to_map_kl_lookup|].
    apply lookup_app_l_Some. by rewrite list_lookup_fmap, Hx.
  - intros c1 c2 k H1 H2 Hk1 Hk2 Hk.
    destruct (Hcase c1 k H1 Hk1) as [[? _]|(_ & x1 & Hx1)]; [done|].
    destruct (Hcase c2 k H2 Hk2) as [[? _]|(_ & x2 & Hx2)]; [done|]. congruence.
  - intros i x Hi Hx. apply lookup_app_Some in Hi as [Hi|[_ Hi]].
    2: { by apply lookup_replicate in Hi as [-> _]. }
    rewrite list_lookup_fmap in Hi. destruct (kl !! i) as [[c y]|] eqn:Hkl; [|done].
    assert (kl.*1 !! i = Some c) as Hk by (by rewrite list_lookup_fmap, Hkl).
    pose proof (Forall_lookup_1 _ _ _ _ Hb Hk) as Hc. cbn in Hc.
    exists c. split; [done|]. destruct (lookup_lt_is_Some_2 new (Z.to_nat c)) as [k Hkc]; [lia|].
    rewrite Hkc. destruct (Hcase c k ltac:(lia) Hkc) as [[_ Hnone]|(Hr & z & Hz)].
    + rewrite (list_to_map_kl_lookup kl i c y Hnd Hkl) in Hnone. done.
    + assert (kl.*1 !! Z.to_nat (k - 1) = Some c) as Hk' by (by rewrite list_lookup_fmap, Hz).
      pose proof (proj1 (NoDup_alt _) Hnd _ _ _ Hk Hk'). f_equal. lia.
Qed.

Lemma alloc_node_48 : alloc_node NODE48 = Done (Header NODE48 0 0 (replicate 10 0), replicate 256 0, replicate 48 Null).
Proof. unfold alloc_node. by rewrite calloc_total. Qed.

(** The slot [add_child16] makes room at. *)
Lemma lower16_run (kl : list (Z * art_node)) rk c :
  (length kl < 16)%nat → length (kl.*1 ++ rk) = 16%nat →
  let bitfield := Z.land (cmplt_mask c (kl.*1 ++ rk)) (u32 (Z.shiftl 1 (Z.of_nat (length kl)) - 1)) in
  bitfield = 0 ∨ bitfield ≠ 0 ∧ ∃ j, (j < length kl)%nat ∧ builtin_ctz bitfield = Done (Z.of_nat j).
Proof.
  intros Hlt Hlen. cbv zeta.
  assert (u32 (Z.shiftl 1 (Z.of_nat (length kl)) - 1) = Z.shiftl 1 (Z.of_nat (length kl)) - 1) as ->.
  { apply u32_small. rewrite Z.shiftl_mul_pow2, Z.mul_1_l by lia.
    pose proof (Z.pow_pos_nonneg 2 (Z.of_nat (length kl)) ltac:(lia) ltac:(lia)).
    pose proof (Z.pow_le_mono_r 2 (Z.of_nat (length kl)) 31 ltac:(lia) ltac:(lia)). lia. }
  unfold cmplt_mask. rewrite take_ge by lia. rewrite movemask_land by (rewrite length_fmap; lia).
  set (bs := take _ _). assert (length bs = length kl) as Hbs.
  { unfold bs. rewrite length_take, length_fmap. lia. }
  destruct (first_true bs) as [j|] eqn:Hj; [|left; by apply movemask_zero].
  right. split; [by rewrite movemask_zero, Hj|].
  exists j. split; [|apply ctz_movemask; [lia|done]].
  apply first_true_spec in Hj as [Hj _]. apply lookup_lt_Some in Hj. lia.
Qed.

Lemma kids_ok_not_in (kl : list (Z * art_node)) c :
  NoDup kl.*1 → (list_to_map kl : kidmap) !! c = None → c ∉ kl.*1.
Proof. intros Hnd Hnone. by apply not_elem_of_list_to_map. Qed.

Lemma flat_size cap h ks cs m : flat_repr cap h ks cs m → num_children h = Z.of_nat (base.size m).
Proof.
  intros (kl & rk & rc & -> & -> & -> & _ & _ & Hnd & ->). f_equal.
  induction kl as [|[c x] kl IH]; [done|]. cbn in *. apply NoDup_cons in Hnd as [Hnin Hnd].
  rewrite map_size_insert_None by (by apply not_elem_of_list_to_map_1). by rewrite IH.
Qed.

(** A full [NODE16] grows into a [NODE48]. *)
Lemma grow16_spec h ks cs m c x p :
  flat_repr 16 h ks cs m → kids_ok m → 0 ≤ c < 256 → m !! c = None → x ≠ Null → num_children h = 16 →
  prefix_repr h p →
  added h m c x ('(h', ks', cs') ← alloc_node NODE48; cs' ← arr_copy cs' 0 cs 0 (num_children h);
    ks' ← index_keys 257 0 (num_children h) ks ks'; h' ← copy_header h' h; add_child48 h' ks' cs' c x).
Proof.
  intros Hf Hkids Hc Hnone Hx Hn16 Hp. pose proof (flat_size _ _ _ _ _ Hf) as Hsz.
  pose proof Hf as (kl & rk & rc & -> & -> & Hn & Hlk & Hlc & Hnd & ->).
  assert (length kl = 16%nat) as H16 by lia.
  pose proof (kids_ok_keys kl Hnd Hkids) as Hb.
  next_by alloc_node_48. rewrite Hn.
  next_by (arr_copy_front (replicate 48 Null) (kl.*2 ++ rc) (length kl) ltac:(rewrite length_replicate; lia) ltac:(lia)).
  destruct (index_keys_run kl rk Hnd Hb ltac:(lia) 257 0 (replicate 256 0)) as (new & Hrun & Hnew).
  { lia. }
  { lia. }
  { split; [apply length_replicate|]. intros c' k Hc' Hk. apply lookup_replicate in Hk as [-> _]. left.
    split; [done|]. by apply not_elem_of_nil. }
  change (Z.of_nat 0) with 0 in Hrun. next_by Hrun.
  destruct (copy_header_spec NODE48 0 (replicate 10 0) 0 h p) as (q & Hq & Hqp); [done|done|].
  next_by Hq.
  apply (added_through h (Header NODE48 (num_children h) (partial_len h) q)); [|exact Hqp|].
  - eapply add_child48_spec; [done| |done|done|done|done|by apply Hqp].
    replace (take (length kl) (kl.*2 ++ rc) ++ drop (length kl) (replicate 48 Null)) with (kl.*2 ++ replicate 32 Null).
    + rewrite H16 in Hnew. by apply (indexed_of_flat h _ kl rk rc).
    + rewrite take_app_length' by (by rewrite length_fmap). by rewrite drop_replicate, H16.
  - intros _. unfold occupancy. rewrite map_size_insert_None by done.
    cbn [Art.type NODE256 NODE4 NODE16 NODE48 Z.eqb Pos.eqb]. lia.
Qed.

Lemma add_child16_spec h ks cs m c x p :
  type h = NODE16 → flat_repr 16 h ks cs m → kids_ok m → 0 ≤ c < 256 → m !! c = None → x ≠ Null →
  prefix_repr h p → added h m c x (add_child16 h ks cs c x).
Proof.
  intros Ht Hf Hkids Hc Hnone Hx Hp. unfold add_child16. cbv zeta.
  destruct (Z.ltb_spec (num_children h) 16) as [Hlt|Hge].
  2: { pose proof Hf as (kl & rk & rc & -> & -> & Hn & Hlk & _).
       rewrite length_app, length_fmap in Hlk. eapply grow16_spec; [done|done|done|done|done|lia|done]. }
  pose proof Hf as (kl & rk & rc & -> & -> & Hn & Hlk & Hlc & Hnd & ->).
  pose proof (kids_ok_not_in kl c Hnd Hnone) as Hnin.
  assert (∀ ks' cs', flat_repr 16 (set_num (u8 (num_children h + 1)) h) ks' cs' (<[c := x]> (list_to_map kl)) →
    added h (list_to_map kl) c x (Done (Inner (set_num (u8 (num_children h + 1)) h) ks' cs'))) as Hdone.
  { intros ks' cs' Hr. do 3 eexists. split; [done|]. split; [|done]. split; [|by apply kids_ok_insert].
    by apply Kind16. }
  rewrite Hn. destruct (lower16_run kl rk c ltac:(lia) Hlk) as [Hz|(Hnz & j & Hj & Hctz)].
  - rewrite Hz. cbn [Z.eqb negb]. rewrite obind_done. cbn beta iota.
    pose proof Hlk as Hlk'. rewrite length_app, length_fmap in Hlk'.
    pose proof Hlc as Hlc'. rewrite length_app, length_fmap in Hlc'.
    destruct rk as [|y rk]; [cbn in Hlk'; lia|]. destruct rc as [|y' rc]; [cbn in Hlc'; lia|].
    next_by (arr_set_mid kl.*1 y rk c (Z.of_nat (length kl)) ltac:(by rewrite length_fmap)).
    next_by (arr_set_mid kl.*2 y' rc x (Z.of_nat (length kl)) ltac:(by rewrite length_fmap)).
    rewrite <-Hn. apply Hdone.
    pose proof (flat_insert 16 ltac:(lia) h kl [] rk rc c x) as Hins. rewrite app_nil_r in Hins.
    apply Hins; [done|done|done|cbn in Hlk'; lia|cbn in Hlc'; lia].
  - apply Z.eqb_neq in Hnz. rewrite Hnz. cbn [negb]. rewrite Hctz, obind_done. cbn beta.
    rewrite <-(take_drop j kl) in Hnd, Hnin, Hn, Hlk, Hlc.
    destruct (flat_shift_in 16 ltac:(lia) h (take j kl) (drop j kl) rk rc c x (Z.of_nat j) (Z.of_nat (length kl)))
      as (ks1 & cs1 & ks2 & cs2 & Hm1 & Hm2 & Hs1 & Hs2 & Hr);
      [done|done|done|lia|done|done|rewrite length_take; lia|by rewrite take_drop|].
    rewrite take_drop in Hm1, Hm2, Hr, Hn. next_by Hm1. next_by Hm2. rewrite obind_done. cbn beta iota.
    next_by Hs1. next_by Hs2. rewrite <-Hn. by apply Hdone.
Qed.

(** ** NODE4 *)

Lemma alloc_node_4 : alloc_node NODE4 = Done (Header NODE4 0 0 (replicate 10 0), replicate 4 0, replicate 4 Null).
Proof. unfold alloc_node. by rewrite calloc_total. Qed.

Lemma alloc_node_16 : alloc_node NODE16 = Done (Header NODE16 0 0 (replicate 10 0), replicate 16 0, replicate 16 Null).
Proof. unfold alloc_node. by rewrite calloc_total. Qed.

(** A full [NODE4] grows into a [NODE16]. *)
Lemma grow4_spec h ks cs m c x p :
  flat_repr 4 h ks cs m → kids_ok m → 0 ≤ c < 256 → m !! c = None → x ≠ Null → num_children h = 4 →
  prefix_repr h p →
  added h m c x ('(h', ks', cs') ← alloc_node NODE16; cs' ← arr_copy cs' 0 cs 0 (num_children h);
    ks' ← arr_copy ks' 0 ks 0 (num_children h); h' ← copy_header h' h; add_child16 h' ks' cs' c x).
Proof.
  intros Hf Hkids Hc Hnone Hx Hn4 Hp. pose proof (flat_size _ _ _ _ _ Hf) as Hsz.
  pose proof Hf as (kl & rk & rc & -> & -> & Hn & Hlk & Hlc & Hnd & ->).
  next_by alloc_node_16. rewrite Hn.
  next_by (arr_copy_front (replicate 16 Null) (kl.*2 ++ rc) (length kl) ltac:(rewrite length_replicate; lia) ltac:(lia)).
  next_by (arr_copy_front (replicate 16 0) (kl.*1 ++ rk) (length kl) ltac:(rewrite length_replicate; lia) ltac:(lia)).
  destruct (copy_header_spec NODE16 0 (replicate 10 0) 0 h p) as (q & Hq & Hqp); [done|done|].
  next_by Hq.
  apply (added_through h (Header NODE16 (num_children h) (partial_len h) q)); [|exact Hqp|].
  - eapply add_child16_spec; [done| |done|done|done|done|by apply Hqp].
    rewrite !take_app_length' by (by rewrite length_fmap).
    exists kl, (drop (length kl) (replicate 16 0)), (drop (length kl) (replicate 16 Null)).
    split; [done|]. split; [done|]. split; [done|].
    rewrite !length_app, !length_drop, !length_replicate, !length_fmap. split; [lia|]. split; [lia|]. done.
  - intros _. unfold occupancy. rewrite map_size_insert_None by done.
    cbn [Art.type NODE256 NODE4 NODE16 NODE48 Z.eqb Pos.eqb]. lia.
Qed.

(** With room left, the node stays a [NODE4]. *)
Lemma add_child4_room h ks cs m c x :
  type h = NODE4 → flat_repr 4 h ks cs m → kids_ok m → 0 ≤ c < 256 → m !! c = None → x ≠ Null →
  num_children h < 4 →
  ∃ ks' cs', add_child4 h ks cs c x = Done (Inner (set_num (u8 (num_children h + 1)) h) ks' cs') ∧
    flat_repr 4 (set_num (u8 (num_children h + 1)) h) ks' cs' (<[c := x]> m).
Proof.
  intros Ht (kl & rk & rc & -> & -> & Hn & Hlk & Hlc & Hnd & ->) Hkids Hc Hnone Hx Hlt.
  unfold add_child4. cbv zeta. destruct (Z.ltb_spec (num_children h) 4); [|lia].
  pose proof (kids_ok_not_in kl c Hnd Hnone) as Hnin.
  destruct (lower_slot_run kl rk c 5 0) as (j & Hj & Hrun); [lia|lia|].
  change (Z.of_nat 0) with 0 in Hrun. rewrite <-Hn in Hrun. next_by Hrun.
  rewrite <-(take_drop j kl) in Hnd, Hnin, Hn, Hlk, Hlc.
  destruct (flat_shift_in 4 ltac:(lia) h (take j kl) (drop j kl) rk rc c x (Z.of_nat j) (num_children h))
    as (ks1 & cs1 & ks2 & cs2 & Hm1 & Hm2 & Hs1 & Hs2 & Hr);
    [done|done|done|lia|done|done|rewrite length_take; lia|done|].
  rewrite take_drop in Hm1, Hm2, Hr. next_by Hm1. next_by Hm2. next_by Hs1. next_by Hs2. by do 2 eexists.
Qed.

Lemma add_child4_spec h ks cs m c x p :
  type h = NODE4 → flat_repr 4 h ks cs m → kids_ok m → 0 ≤ c < 256 → m !! c = None → x ≠ Null →
  prefix_repr h p → added h m c x (add_child4 h ks cs c x).
Proof.
  intros Ht Hf Hkids Hc Hnone Hx Hp. destruct (Z.lt_ge_cases (num_children h) 4) as [Hlt|Hge].
  - destruct (add_child4_room h ks cs m c x Ht Hf Hkids Hc Hnone Hx Hlt) as (ks' & cs' & -> & Hr).
    do 3 eexists. split; [done|]. split; [|done]. split; [|by apply kids_ok_insert]. by apply Kind4.
  - unfold add_child4. cbv zeta. destruct (Z.ltb_spec (num_children h) 4); [lia|].
    pose proof Hf as (kl & rk & rc & -> & -> & Hn & Hlk & _).
    rewrite length_app, length_fmap in Hlk. eapply grow4_spec; [done|done|done|done|done|lia|done].
Qed.

(** ** Every kind *)

(** [add_child] under a new byte inserts into the map of the node. *)
Lemma add_child_spec h ks cs m c x p :
  node_repr h ks cs m → 0 ≤ c < 256 → m !! c = None → x ≠ Null → prefix_repr h p →
  added h m c x (add_child h ks cs c x).
Proof.
  intros [Hkind Hkids] Hc Hnone Hx Hp. unfold add_child.
  destruct Hkind as [Ht Hr|Ht Hr|Ht Hr|Ht Hr]; rewrite Ht; cbn [NODE4 NODE16 NODE48 NODE256 Z.eqb Pos.eqb].
  - by eapply add_child4_spec.
  - by eapply add_child16_spec.
  - by eapply add_child48_spec.
  - by apply add_child256_spec.
Qed.
End add.
