(* ===== verification/ArtRemove.v ===== *)
(** * ArtRemove: remove_child on the map of a node

    A child is deleted from the map, whatever the kind of the node, and
    through the shrinking of a sparse node into the kind below; a [NODE4] that
    is left with one child is replaced by that child, with their prefixes
    joined. *)

From S2P Require Import Prelude.
From S2P Require Import Critbit.
From S2P Require Import Art.
From S2P Require Import ArtArrays.
From S2P Require Import ArtNodes.
From S2P Require Import ArtAdd.

Section remove.
Context {AA : ArtAlloc} {AT : ArtAllocTotal AA}.

Lemma kids_ok_delete (m : kidmap) c : kids_ok m → kids_ok (delete c m).
Proof. apply map_Forall_delete. Qed.

Lemma size_delete_S (m : kidmap) c x : m !! c = Some x → base.size m = S (base.size (delete c m)).
Proof.
  intros Hx. rewrite <-(map_size_insert_None c x (delete c m)) by apply lookup_delete_eq.
  by rewrite insert_delete_id.
Qed.

(** ** The flat kinds *)

Lemma close_gap_spec cap h ks cs m c i :
  (cap ≤ 16)%nat → flat_repr cap h ks cs m → 0 ≤ i → i < num_children h → ks !! Z.to_nat i = Some c →
  ∃ ks' cs', close_gap h ks cs i = Done (set_num (u8 (num_children h - 1)) h, ks', cs') ∧
    flat_repr cap (set_num (u8 (num_children h - 1)) h) ks' cs' (delete c m).
Proof.
  intros Hcap (kl & rk & rc & -> & -> & Hn & Hlk & Hlc & Hnd & ->) Hi0 Hi Hk.
  rewrite length_app, length_fmap in Hlk. rewrite length_app, length_fmap in Hlc.
  destruct (lookup_lt_is_Some_2 kl (Z.to_nat i)) as [[c' x] Hkl]; [lia|].
  rewrite lookup_app_l in Hk by (rewrite length_fmap; lia).
  rewrite list_lookup_fmap, Hkl in Hk. injection Hk as ->.
  apply list_elem_of_split_length in Hkl as (kl1 & kl2 & -> & Hlen).
  rewrite length_app in Hn, Hlk, Hlc. cbn [length] in Hn, Hlk, Hlc. unfold close_gap.
  rewrite !fmap_app, !fmap_cons, <-!app_assoc. cbn [fst snd app].
  destruct (arr_shift_out kl1.*1 c kl2.*1 rk i (num_children h - 1 - i)) as [z Hz]; [rewrite length_fmap; lia..|].
  destruct (arr_shift_out kl1.*2 x kl2.*2 rc i (num_children h - 1 - i)) as [y Hy]; [rewrite length_fmap; lia..|].
  next_by Hz. next_by Hy. do 2 eexists. split; [done|].
  assert (kl1 ++ (c, x) :: kl2 ≡ₚ (c, x) :: kl1 ++ kl2) as Hperm by (by rewrite Permutation_middle).
  assert (NoDup ((c, x) :: kl1 ++ kl2).*1) as Hnd' by (by rewrite <-Hperm).
  exists (kl1 ++ kl2), (z :: rk), (y :: rc). rewrite !fmap_app, <-!app_assoc.
  split; [done|]. split; [done|]. split; [cbn; rewrite u8_small, length_app by lia; lia|].
  split; [rewrite !length_app, !length_fmap; cbn; lia|].
  split; [rewrite !length_app, !length_fmap; cbn; lia|].
  cbn in Hnd'. apply NoDup_cons in Hnd' as [Hnin Hnd'']. rewrite <-fmap_app. split; [done|].
  rewrite (list_to_map_proper (M := gmap Z) _ _ Hnd Hperm). cbn. apply delete_insert_id.
  by apply not_elem_of_list_to_map_1.
Qed.

(** ** What removing a child promises *)

(** The node [remove_child4] leaves when [x] is the only child, under byte [c]. *)
Definition collapse (h : art_header) (c : Z) (x : art_node) : outcome art_node :=
  match x with
  | Leaf l => Done (Leaf l)
  | Inner h1 ks1 cs1 => h1 ← join_prefix h c h1; Done (Inner h1 ks1 cs1)
  | _ => Undef
  end.

Definition removed (h : art_header) (m : kidmap) (c : Z) (o : outcome art_node) : Prop :=
  (∃ h' ks' cs', o = Done (Inner h' ks' cs') ∧ node_repr h' ks' cs' (delete c m) ∧
     (∀ p, prefix_repr h p → prefix_repr h' p) ∧ occupancy h' (delete c m)) ∨
  (∃ c1 x1, delete c m = {[c1 := x1]} ∧ o = collapse h c1 x1).

Lemma removed_kind t h m c k ks cs :
  kids_ok m → type h = t → node_kind (set_num k h) ks cs (delete c m) → occupancy h (delete c m) →
  removed h m c (Done (Inner (set_num k h) ks cs)).
Proof.
  intros Hkids Ht Hkind Hocc. left. do 3 eexists. split; [done|]. split; [|done].
  split; [done|]. by apply kids_ok_delete.
Qed.

Lemma take_first_four {B} (l r d : list B) :
  length l = 3%nat → length d = 4%nat → take 4 (l ++ r) ++ drop 4 d = l ++ take 1 r.
Proof. intros Hl Hd. by rewrite (drop_ge d), app_nil_r, take_app_ge, Hl by lia. Qed.

Lemma remove_child16_spec h ks cs m c x i p :
  type h = NODE16 → flat_repr 16 h ks cs m → kids_ok m → occupancy h m → prefix_repr h p →
  m !! c = Some x → 0 ≤ i → i < num_children h → ks !! Z.to_nat i = Some c →
  removed h m c (remove_child16 h ks cs i).
Proof.
  intros Ht Hf Hkids Hocc Hp Hx Hi0 Hi Hk. pose proof (flat_size _ _ _ _ _ Hf) as Hsz.
  destruct (close_gap_spec 16 h ks cs m c i ltac:(lia) Hf Hi0 Hi Hk) as (ks' & cs' & Hrun & Hr).
  unfold remove_child16. next_by Hrun. pose proof (flat_size _ _ _ _ _ Hr) as Hsz'.
  pose proof (size_delete_S m c x Hx) as Hdel.
  set (h' := set_num _ h) in *. rewrite Hsz'.
  unfold occupancy in Hocc. rewrite Ht in Hocc. cbn [NODE4 NODE16 Z.eqb Pos.eqb] in Hocc.
  destruct (Z.eqb_spec (Z.of_nat (base.size (delete c m))) 3) as [H3|H3].
  2: { apply (removed_kind NODE16); [done|done|by apply Kind16|].
       unfold occupancy. rewrite Ht. cbn [NODE4 NODE16 Z.eqb Pos.eqb]. lia. }
  next_by alloc_node_4.
  destruct (copy_header_spec NODE4 0 (replicate 10 0) 0 h' p) as (q & Hq & Hqp); [done|done|].
  next_by Hq. destruct Hr as (kl & rk & rc & -> & -> & Hn' & Hlk & Hlc & Hnd & Hm).
  assert (length kl = 3%nat) as Hl3 by lia.
  change 4 with (Z.of_nat 4) at 1 2.
  next_by (arr_copy_front (replicate 4 0) (kl.*1 ++ rk) 4 ltac:(rewrite length_replicate; lia) ltac:(lia)).
  next_by (arr_copy_front (replicate 4 Null) (kl.*2 ++ rc) 4 ltac:(rewrite length_replicate; lia) ltac:(lia)).
  left. do 3 eexists. split; [done|]. rewrite length_app, length_fmap in Hlk. rewrite length_app, length_fmap in Hlc.
  split; [split; [|by apply kids_ok_delete]|].
  - apply Kind4; [done|]. exists kl, (take 1 rk), (take 1 rc).
    rewrite !take_first_four by (rewrite ?length_fmap, ?length_replicate; done). split; [done|]. split; [done|]. split; [done|].
    rewrite !length_app, !length_fmap, !length_take. split; [lia|]. split; [lia|]. done.
  - split; [|unfold occupancy; cbn; lia]. intros p' Hp'. by apply Hqp.
Qed.

Lemma remove_child4_spec h ks cs m c x i :
  type h = NODE4 → flat_repr 4 h ks cs m → kids_ok m → occupancy h m →
  m !! c = Some x → 0 ≤ i → i < num_children h → ks !! Z.to_nat i = Some c →
  removed h m c (remove_child4 h ks cs i).
Proof.
  intros Ht Hf Hkids Hocc Hx Hi0 Hi Hk. pose proof (flat_size _ _ _ _ _ Hf) as Hsz.
  destruct (close_gap_spec 4 h ks cs m c i ltac:(lia) Hf Hi0 Hi Hk) as (ks' & cs' & Hrun & Hr).
  unfold remove_child4. next_by Hrun. pose proof (flat_size _ _ _ _ _ Hr) as Hsz'.
  pose proof (size_delete_S m c x Hx) as Hdel.
  rewrite Hsz'. unfold occupancy in Hocc. rewrite Ht in Hocc. cbn [NODE4 NODE16 Z.eqb Pos.eqb] in Hocc.
  destruct (Z.eqb_spec (Z.of_nat (base.size (delete c m))) 1) as [H1|H1].
  2: { apply (removed_kind NODE4); [done|done|by apply Kind4|].
       unfold occupancy. rewrite Ht. cbn [NODE4 NODE16 Z.eqb Pos.eqb]. lia. }
  destruct Hr as (kl & rk & rc & -> & -> & Hn' & Hlk & Hlc & Hnd & Hm).
  destruct kl as [|[c1 x1] [|? ?]]; [cbn [length] in Hn'; lia| |cbn [length] in Hn'; lia].
  right. exists c1, x1. rewrite Hm. split; [done|]. cbn [fmap list_fmap fst snd app].
  next_by (arr_get_Some (x1 :: rc) 0 x1 ltac:(lia) ltac:(done)).
  destruct x1; [done| |done|done]. done.
Qed.

(** ** NODE48 *)

Lemma indexed_delete h ks cs m c k x :
  indexed_repr h ks cs m → 0 ≤ c < 256 → ks !! Z.to_nat c = Some k → k ≠ 0 → m !! c = Some x →
  indexed_repr (set_num (u8 (num_children h - 1)) h) (<[Z.to_nat c := 0]> ks)
    (<[Z.to_nat (k - 1) := Null]> cs) (delete c m).
Proof.
  intros [H1 H2 H3 H4 H5 H6 H7] Hc Hk Hk0 Hx. pose proof (size_delete_S m c x Hx) as Hsz.
  destruct (H5 c k ltac:(lia) Hk) as [[? _]|(Hkr & _)]; [done|].
  split.
  - by rewrite length_insert.
  - by rewrite length_insert.
  - cbn. rewrite H3, u8_small by lia. lia.
  - lia.
  - intros c' k' Hc' Hk'. destruct (decide (c' = c)) as [->|Hne].
    + rewrite list_lookup_insert_eq in Hk' by lia. injection Hk' as <-. left. by rewrite lookup_delete_eq.
    + rewrite list_lookup_insert_ne in Hk' by lia. rewrite lookup_delete_ne by done.
      destruct (H5 c' k' Hc' Hk') as [?|(Hr & y & Hy & Hcs)]; [by left|]. right. split; [done|].
      exists y. split; [done|]. rewrite list_lookup_insert_ne; [done|]. intros Heq.
      apply Hne, (H6 c' c k'); [done|lia|done| |lia]. by replace k' with k by lia.
  - intros c1 c2 k' Hc1 Hc2 Hk1 Hk2 Hk'. destruct (decide (c1 = c)) as [->|N1].
    { rewrite list_lookup_insert_eq in Hk1 by lia. by injection Hk1 as <-. }
    destruct (decide (c2 = c)) as [->|N2].
    { rewrite list_lookup_insert_eq in Hk2 by lia. by injection Hk2 as <-. }
    rewrite list_lookup_insert_ne in Hk1 by lia. rewrite list_lookup_insert_ne in Hk2 by lia. by eapply H6.
  - intros i y Hy Hnull. apply list_lookup_insert_Some in Hy as [(_ & <- & _)|[Hne Hy]]; [done|].
    destruct (H7 i y Hy Hnull) as (c' & Hc' & Hk'). exists c'. split; [done|].
    rewrite list_lookup_insert_ne; [done|]. intros Heq. assert (c' = c) as -> by lia.
    rewrite Hk in Hk'. injection Hk'. lia.
Qed.

(** The children with bytes below [i]. *)
Definition below (m : kidmap) (i : nat) (mi : kidmap) : Prop :=
  ∀ c, mi !! c = if c <? Z.of_nat i then m !! c else None.

Lemma below_subseteq m i mi : below m i mi → mi ⊆ m.
Proof.
  intros Hb. apply map_subseteq_spec. intros c x. rewrite (Hb c). by destruct (c <? Z.of_nat i).
Qed.

Lemma below_skip m i mi : kids_ok m → below m i mi → m !! Z.of_nat i = None → below m (S i) mi.
Proof.
  intros _ Hb Hn c. rewrite (Hb c). destruct (Z.ltb_spec c (Z.of_nat i)), (Z.ltb_spec c (Z.of_nat (S i)));
    [done|lia| |done]. by replace c with (Z.of_nat i) by lia.
Qed.

Lemma below_step m i mi x : below m i mi → m !! Z.of_nat i = Some x → below m (S i) (<[Z.of_nat i := x]> mi).
Proof.
  intros Hb Hx c. destruct (decide (c = Z.of_nat i)) as [->|Hne].
  - rewrite lookup_insert_eq. destruct (Z.ltb_spec (Z.of_nat i) (Z.of_nat (S i))); [done|lia].
  - rewrite lookup_insert_ne, (Hb c) by done.
    destruct (Z.ltb_spec c (Z.of_nat i)), (Z.ltb_spec c (Z.of_nat (S i))); done || lia.
Qed.

Lemma below_fresh m i mi : below m i mi → mi !! Z.of_nat i = None.
Proof. intros Hb. rewrite (Hb _). by destruct (Z.ltb_spec (Z.of_nat i) (Z.of_nat i)); [lia|]. Qed.

Lemma below_all m mi : kids_ok m → below m 256 mi → mi = m.
Proof.
  intros Hkids Hb. apply map_eq. intros c. rewrite (Hb c). destruct (Z.ltb_spec c (Z.of_nat 256)); [done|].
  destruct (m !! c) as [x|] eqn:Hx; [|done]. destruct (Hkids c x Hx). lia.
Qed.

Lemma below_size m i mi x : below m i mi → m !! Z.of_nat i = Some x → (S (base.size mi) ≤ base.size m)%nat.
Proof.
  intros Hb Hx. rewrite <-(map_size_insert_None (Z.of_nat i) x mi) by (by eapply below_fresh).
  apply map_subseteq_size. eapply below_subseteq, below_step; done.
Qed.

Lemma collect48_run h ks cs m : indexed_repr h ks cs m → kids_ok m → (base.size m ≤ 16)%nat →
  ∀ fuel (i : nat) hi ks' cs' mi, (fuel + i = 256)%nat → below m i mi → flat_repr 16 hi ks' cs' mi →
  ∃ ks2 cs2 h2, collect48 fuel (Z.of_nat i) (num_children hi) ks cs ks' cs' = Done (ks2, cs2) ∧
    flat_repr 16 h2 ks2 cs2 m.
Proof.
  intros Hi Hkids Hsz. induction fuel as [|fuel IH]; intros i hi ks' cs' mi Hf Hb Hr.
  { exists ks', cs', hi. split; [done|]. cbn in Hf. subst i. by rewrite <-(below_all m mi Hkids Hb). }
  cbn [collect48]. destruct (lookup_lt_is_Some_2 ks (Z.to_nat (Z.of_nat i))) as [k Hk].
  { rewrite (ix_keys _ _ _ _ Hi). lia. }
  next_by (buf_get_Some ks (Z.of_nat i) k ltac:(lia) Hk).
  replace (Z.of_nat i + 1) with (Z.of_nat (S i)) by lia.
  destruct (ix_lookup _ _ _ _ Hi (Z.of_nat i) k ltac:(lia) Hk) as [[-> Hn]|(Hkr & x & Hx & Hcs)].
  { cbn [Z.eqb negb]. eapply IH; [lia|by apply below_skip|done]. }
  destruct (Z.eqb_spec k 0); [lia|]. cbn [negb].
  pose proof (below_size m i mi x Hb Hx) as Hlt. pose proof (flat_size _ _ _ _ _ Hr) as Hnum.
  destruct Hr as (kl & rk & rc & -> & -> & Hn & Hlk & Hlc & Hnd & ->).
  rewrite length_app, length_fmap in Hlk. rewrite length_app, length_fmap in Hlc.
  destruct rk as [|y rk]; [cbn in Hlk; lia|]. destruct rc as [|y' rc]; [cbn in Hlc; lia|].
  next_by (arr_set_mid kl.*1 y rk (Z.of_nat i) (num_children hi) ltac:(by rewrite length_fmap)).
  next_by (arr_get_Some cs (k - 1) x ltac:(lia) Hcs).
  next_by (arr_set_mid kl.*2 y' rc x (num_children hi) ltac:(by rewrite length_fmap)).
  pose proof (flat_insert 16 ltac:(lia) hi kl [] rk rc (Z.of_nat i) x) as Hins. rewrite app_nil_r in Hins.
  replace (num_children hi + 1) with (num_children (set_num (u8 (num_children hi + 1)) hi))
    by (cbn; apply u8_small; lia).
  eapply IH; [lia|by eapply below_step|]. apply Hins; [done| |done|cbn in Hlk; lia|cbn in Hlc; lia].
  apply kids_ok_not_in; [done|]. by eapply below_fresh.
Qed.

Lemma remove_child48_spec h ks cs m c x p :
  type h = NODE48 → indexed_repr h ks cs m → kids_ok m → occupancy h m → prefix_repr h p →
  m !! c = Some x → removed h m c (remove_child48 h ks cs c).
Proof.
  intros Ht Hi Hkids Hocc Hp Hx. destruct (Hkids c x Hx) as [Hc _].
  unfold remove_child48. destruct (lookup_lt_is_Some_2 ks (Z.to_nat c)) as [k Hk].
  { rewrite (ix_keys _ _ _ _ Hi). lia. }
  next_by (buf_get_Some ks c k ltac:(lia) Hk).
  destruct (ix_lookup _ _ _ _ Hi c k ltac:(lia) Hk) as [[_ Hn]|(Hkr & x' & _ & _)]; [congruence|].
  pose proof (indexed_delete h ks cs m c k x Hi Hc Hk ltac:(lia) Hx) as Hi'.
  next_by (arr_set_Some ks c 0 ltac:(rewrite (ix_keys _ _ _ _ Hi); lia)).
  next_by (arr_set_Some cs (k - 1) Null ltac:(rewrite (ix_slots _ _ _ _ Hi); lia)).
  pose proof (size_delete_S m c x Hx) as Hdel. pose proof (kids_ok_delete m c Hkids) as Hkids'.
  set (h' := set_num _ h) in *. rewrite (ix_num _ _ _ _ Hi').
  unfold occupancy in Hocc. rewrite Ht in Hocc. cbn [NODE4 NODE16 NODE48 Z.eqb Pos.eqb] in Hocc.
  destruct (Z.eqb_spec (Z.of_nat (base.size (delete c m))) 12) as [H12|H12].
  2: { apply (removed_kind NODE48); [done|done|by apply Kind48|].
       unfold occupancy. rewrite Ht. cbn [NODE4 NODE16 NODE48 Z.eqb Pos.eqb]. lia. }
  next_by alloc_node_16.
  destruct (copy_header_spec NODE16 0 (replicate 10 0) 0 h' p) as (q & Hq & Hqp); [done|done|].
  next_by Hq.
  destruct (collect48_run h' _ _ (delete c m) Hi' Hkids' ltac:(lia) 256 0 (Header NODE16 0 0 [])
              (replicate 16 0) (replicate 16 Null) ∅) as (ks2 & cs2 & h2 & Hrun & Hr).
  { lia. }
  { intros c'. rewrite lookup_empty. destruct (Z.ltb_spec c' (Z.of_nat 0)); [|done].
    destruct (delete c m !! c') as [z|] eqn:Hz; [|done]. destruct (Hkids' c' z Hz). lia. }
  { exists [], (replicate 16 0), (replicate 16 Null). cbn. do 5 (split; [done|]). split; [by apply NoDup_nil|done]. }
  change (Z.of_nat 0) with 0 in Hrun. cbn [num_children] in Hrun. next_by Hrun.
  left. do 3 eexists. split; [done|]. split; [split; [|done]|].
  - apply Kind16; [done|]. eapply flat_repr_header; [done|]. cbn [num_children].
    rewrite (flat_size _ _ _ _ _ Hr). exact (ix_num _ _ _ _ Hi').
  - split; [|unfold occupancy; cbn [Art.type NODE4 NODE16 NODE48 Z.eqb Pos.eqb]; lia].
    intros p' Hp'. by apply Hqp.
Qed.

(** ** NODE256 *)

Lemma direct_delete h cs m c x :
  direct_repr h cs m → kids_ok m → 0 ≤ c < 256 → m !! c = Some x →
  direct_repr (set_num (u8 (num_children h - 1)) h) (<[Z.to_nat c := Null]> cs) (delete c m) ∧
  u8 (num_children h - 1) = Z.of_nat (base.size (delete c m)).
Proof.
  intros (Hlen & Hn & Hlook) Hkids Hc Hx. pose proof (size_delete_S m c x Hx) as Hsz.
  pose proof (size_below_256 (delete c m) c (kids_ok_delete m c Hkids) Hc ltac:(apply lookup_delete_eq)) as Hlt.
  assert (u8 (num_children h - 1) = Z.of_nat (base.size (delete c m))) as Hn'.
  { rewrite Hn. unfold u8. rewrite Zminus_mod_idemp_l, Z.mod_small; lia. }
  split; [|done]. split; [by rewrite length_insert|]. split.
  - cbn. rewrite Hn'. symmetry. apply u8_small. lia.
  - intros c' Hc'. destruct (decide (c' = c)) as [->|Hne].
    + rewrite lookup_delete_eq, list_lookup_insert_eq by lia. done.
    + rewrite lookup_delete_ne, list_lookup_insert_ne by lia. by apply Hlook.
Qed.

Lemma collect256_run h cs m : direct_repr h cs m → kids_ok m → (base.size m < 48)%nat →
  ∀ fuel (i : nat) hi ks' cs' mi, (fuel + i = 256)%nat → below m i mi → indexed_repr hi ks' cs' mi →
  (∀ j, (base.size mi ≤ j < 48)%nat → cs' !! j = Some Null) →
  ∃ ks2 cs2 h2, collect256 fuel (Z.of_nat i) (num_children hi) cs ks' cs' = Done (ks2, cs2) ∧
    indexed_repr h2 ks2 cs2 m.
Proof.
  intros (Hlen & _ & Hlook) Hkids Hsz. induction fuel as [|fuel IH]; intros i hi ks' cs' mi Hf Hb Hr Hnull.
  { exists ks', cs', hi. split; [done|]. cbn in Hf. subst i. by rewrite <-(below_all m mi Hkids Hb). }
  cbn [collect256].
  next_by (arr_get_Some cs (Z.of_nat i) _ ltac:(lia) (Hlook (Z.of_nat i) ltac:(lia))).
  replace (Z.of_nat i + 1) with (Z.of_nat (S i)) by lia.
  destruct (m !! Z.of_nat i) as [x|] eqn:Hx; cbn [default from_option id].
  2: { cbn [is_null negb]. eapply IH; [lia|by apply below_skip|done|done]. }
  destruct (Hkids _ x Hx) as [_ Hxn]. assert (negb (is_null x) = true) as -> by (by destruct x).
  pose proof (below_size m i mi x Hb Hx) as Hlt. pose proof (ix_num _ _ _ _ Hr) as Hnum.
  next_by (arr_set_Some cs' (num_children hi) x ltac:(rewrite (ix_slots _ _ _ _ Hr); lia)).
  next_by (arr_set_Some ks' (Z.of_nat i) (u8 (num_children hi + 1)) ltac:(rewrite (ix_keys _ _ _ _ Hr); lia)).
  pose proof (below_fresh m i mi Hb) as Hfresh.
  assert (kids_ok mi) as Hkmi.
  { intros c y Hy. apply (Hkids c y). by eapply lookup_weaken, below_subseteq. }
  pose proof (indexed_insert hi ks' cs' mi (Z.of_nat i) x (base.size mi) Hr Hkmi ltac:(lia) Hfresh Hxn ltac:(lia)
    ltac:(apply Hnull; lia)) as Hr'.
  rewrite Hnum in Hr' |- *. rewrite (Nat2Z.id (base.size mi)). rewrite u8_small in Hr' |- * by lia.
  apply (IH (S i) (set_num (Z.of_nat (base.size mi) + 1) hi) _ _ (<[Z.of_nat i := x]> mi));
    [lia|by apply below_step|exact Hr'|]. intros j Hj.
  rewrite map_size_insert_None in Hj by done. rewrite list_lookup_insert_ne by lia. apply Hnull. lia.
Qed.

Lemma indexed_empty h : num_children h = 0 → indexed_repr h (replicate 256 0) (replicate 48 Null) ∅.
Proof.
  intros Hn. split.
  - apply length_replicate.
  - apply length_replicate.
  - done.
  - rewrite map_size_empty. lia.
  - intros c k _ Hk. apply lookup_replicate in Hk as [-> _]. left. by rewrite lookup_empty.
  - intros c1 c2 k _ _ Hk. by apply lookup_replicate in Hk as [-> _].
  - intros i x Hx. by apply lookup_replicate in Hx as [-> _].
Qed.

Lemma remove_child256_spec h ks cs m c x p :
  type h = NODE256 → direct_repr h cs m → kids_ok m → occupancy h m → prefix_repr h p →
  m !! c = Some x → removed h m c (remove_child256 h ks cs c).
Proof.
  intros Ht Hd Hkids Hocc Hp Hx. destruct (Hkids c x Hx) as [Hc _].
  unfold remove_child256. next_by (arr_set_Some cs c Null ltac:(destruct Hd as [-> _]; lia)).
  destruct (direct_delete h cs m c x Hd Hkids Hc Hx) as [Hd' Hnum].
  pose proof (size_delete_S m c x Hx) as Hdel. pose proof (kids_ok_delete m c Hkids) as Hkids'.
  set (h' := set_num _ h) in *. cbn [num_children set_num h']. rewrite Hnum.
  unfold occupancy in Hocc. rewrite Ht in Hocc. cbn [NODE4 NODE16 NODE48 NODE256 Z.eqb Pos.eqb] in Hocc.
  destruct (Z.eqb_spec (Z.of_nat (base.size (delete c m))) 37) as [H37|H37].
  2: { apply (removed_kind NODE256); [done|done|by apply Kind256|].
       unfold occupancy. rewrite Ht. cbn [NODE4 NODE16 NODE48 NODE256 Z.eqb Pos.eqb]. lia. }
  next_by alloc_node_48.
  destruct (copy_header_spec NODE48 0 (replicate 10 0) 0 h' p) as (q & Hq & Hqp); [done|done|].
  next_by Hq.
  destruct (collect256_run h' _ (delete c m) Hd' Hkids' ltac:(lia) 256 0 (Header NODE48 0 0 [])
              (replicate 256 0) (replicate 48 Null) ∅) as (ks2 & cs2 & h2 & Hrun & Hr).
  { lia. }
  { intros c'. rewrite lookup_empty. destruct (Z.ltb_spec c' (Z.of_nat 0)); [|done].
    destruct (delete c m !! c') as [z|] eqn:Hz; [|done]. destruct (Hkids' c' z Hz). lia. }
  { by apply indexed_empty. }
  { intros j Hj. apply lookup_replicate. split; [done|lia]. }
  change (Z.of_nat 0) with 0 in Hrun. cbn [num_children] in Hrun. next_by Hrun.
  left. do 3 eexists. split; [done|]. split; [split; [|done]|].
  - apply Kind48; [done|]. eapply indexed_repr_header; [done|]. cbn [num_children h' set_num].
    rewrite (ix_num _ _ _ _ Hr). exact Hnum.
  - split; [|unfold occupancy; cbn [Art.type NODE4 NODE16 NODE48 Z.eqb Pos.eqb]; lia].
    intros p' Hp'. by apply Hqp.
Qed.

(** ** Every kind *)

(** [remove_child] at the position [find_child] has found deletes from the
    map of the node, or replaces the node by its last child. *)
Lemma remove_child_spec h ks cs m c x i p :
  node_repr h ks cs m → occupancy h m → prefix_repr h p → m !! c = Some x → found_at h ks cs m c i x →
  removed h m c (remove_child h ks cs c i).
Proof.
  intros [Hkind Hkids] Hocc Hp Hx (Hi0 & _ & Hflat & _). unfold remove_child.
  destruct Hkind as [Ht Hr|Ht Hr|Ht Hr|Ht Hr]; rewrite Ht; cbn [NODE4 NODE16 NODE48 NODE256 Z.eqb Pos.eqb].
  - destruct Hflat as [Hk Hi]; [by left|]. by eapply remove_child4_spec.
  - destruct Hflat as [Hk Hi]; [by right|]. by eapply remove_child16_spec.
  - by eapply remove_child48_spec.
  - by eapply remove_child256_spec.
Qed.
End remove.
