(* ===== verification/ArtPrefix.v ===== *)
(** * ArtPrefix: stored prefixes, leaves and key comparisons

    A node keeps the length of its prefix and at most its first ten bytes;
    the rest is only found in the leaves.  The specifications of the
    comparison functions ([leaf_matches], [check_prefix]) and of the prefix
    arithmetic of [join_prefix]. *)

From S2P Require Import Prelude.
From S2P Require Import Critbit.
From S2P Require Import Art.
From S2P Require Import ArtArrays.
From S2P Require Import ArtNodes.
From S2P Require Import ArtAdd.

(** ** Sets of keys the tree can hold

    No key is a proper prefix of another; and either keys are too short for a
    prefix that does not fit into a node, or they have one length and bytes
    below 128 (see ArtTheorems for what happens otherwise). *)
Record keyset (K : list Z → Prop) : Prop := {
  key_nonul k : K k → nonul k;
  key_short k : K k → Z.of_nat (length k) < 2 ^ 31;
  key_free k1 k2 : K k1 → K k2 → k1 `prefix_of` k2 → k1 = k2;
  key_long : (∀ k, K k → (length k ≤ 11)%nat) ∨
             (∃ len, ∀ k, K k → length k = len ∧ Forall (λ c, c < 128) k);
}.

Definition is_byte (c : Z) : Prop := 0 ≤ c < 256.

Lemma nonul_bytes k : nonul k → Forall is_byte k.
Proof. intros H. eapply Forall_impl; [exact H|]. unfold is_byte. intros; lia. Qed.

Lemma cstr_get (k : list Z) i c : k !! i = Some c → buf_get (cstr k) (Z.of_nat i) = Done c.
Proof. intros Hi. apply buf_get_Some; [lia|]. rewrite Nat2Z.id. by apply lookup_app_l_Some. Qed.

Lemma cstr_get_end (k : list Z) : buf_get (cstr k) (Z.of_nat (length k)) = Done 0.
Proof. apply buf_get_Some; [lia|]. rewrite Nat2Z.id. by apply list_lookup_middle. Qed.

(** ** Leaves *)

(** The leaf of key [k] and value [v]; [tail] is what follows in its block. *)
Definition leaf_is (l : art_leaf) (k : list Z) (v : Z) : Prop :=
  value l = v ∧ key_len l = Z.of_nat (length k) ∧ ∃ tail, leaf_key l = k ++ tail.

Lemma memcmp_keys (k1 k2 t1 t2 : list Z) : length k1 = length k2 →
  ∃ d, memcmp_bytes (length k2) (k1 ++ t1) (k2 ++ t2) = Done d ∧ (d = 0 ↔ k1 = k2).
Proof.
  revert k2. induction k1 as [|x k1 IH]; intros [|y k2] Hlen; [by exists 0|done..|].
  cbn [length memcmp_bytes app]. destruct (Z.eqb_spec x y) as [->|Hne].
  - destruct (IH k2 ltac:(by injection Hlen)) as (d & Hd & Hiff). exists d. split; [done|].
    rewrite Hiff. split; [by intros ->|by intros [= ->]].
  - exists (x - y). split; [done|]. split; [lia|]. intros [=]. lia.
Qed.

Lemma leaf_matches_spec l k0 v k d :
  leaf_is l k0 v → Z.of_nat (length k) < 2 ^ 31 →
  ∃ r, leaf_matches l (cstr k) (Z.of_nat (length k)) d = Done r ∧ (r = 0 ↔ k0 = k).
Proof.
  intros (_ & Hlen & tail & Htail) Hk. unfold leaf_matches. rewrite Hlen, u32_small by lia.
  destruct (Z.eqb_spec (Z.of_nat (length k0)) (Z.of_nat (length k))) as [Heq|Hne]; cbn [negb].
  - rewrite Htail. unfold memcmp. destruct (Z.ltb_spec (Z.of_nat (length k)) 0); [lia|].
    rewrite Nat2Z.id. apply memcmp_keys. lia.
  - exists 1. split; [done|]. split; [done|]. by intros ->.
Qed.

Lemma make_leaf_spec {AA : ArtAlloc} {AT : ArtAllocTotal AA} k v :
  Z.of_nat (length k) < 2 ^ 31 →
  ∃ l, make_leaf (cstr k) (Z.of_nat (length k)) v = Done l ∧ leaf_is l k v.
Proof.
  intros Hk. unfold make_leaf. destruct leaf_total as [rest ->]. cbn [of_option]. rewrite obind_done.
  assert (buf_take (cstr k) (Z.of_nat (length k)) = Done k) as H.
  { unfold buf_take. rewrite length_cstr.
    destruct (Z.ltb_spec (Z.of_nat (length k)) 0); [lia|].
    destruct (Z.ltb_spec (Z.of_nat (S (length k))) (Z.of_nat (length k))); [lia|]. cbn [orb].
    unfold cstr. by rewrite Nat2Z.id, take_app_length. }
  next_by H. eexists. split; [done|]. split; [done|]. split; [cbn; apply u32_small; lia|]. by exists rest.
Qed.

(** ** Comparisons *)

Lemma art_min_spec a b : - 2 ^ 31 ≤ a < 2 ^ 31 → - 2 ^ 31 ≤ b < 2 ^ 31 → art_min a b = Z.min a b.
Proof. intros Ha Hb. unfold art_min. rewrite !s32_small by lia. destruct (Z.ltb_spec a b); lia. Qed.

Lemma prefix_repr_get h p i c :
  prefix_repr h p → p !! i = Some c → (i < 10)%nat → partial h !! i = Some c.
Proof.
  intros (Hlen & _ & _ & Htake) Hi H10. pose proof (lookup_lt_Some _ _ _ Hi).
  rewrite <-(lookup_take_lt (partial h) (min 10 (length p))) by lia. rewrite Htake.
  by rewrite lookup_take_lt by lia.
Qed.

(** The bytes the two loops of the prefix functions compare. *)
Lemma stored_bytes h p k d i c1 c2 :
  prefix_repr h p → p !! i = Some c1 → (i < 10)%nat → k !! (d + i)%nat = Some c2 →
  char_at (partial h) (Z.of_nat i) = Done (s8 c1) ∧
  char_at (cstr k) (Z.of_nat d + Z.of_nat i) = Done (s8 c2).
Proof.
  intros Hp H1 Hi H2. unfold char_at. split.
  - by next_by (buf_get_Some (partial h) (Z.of_nat i) c1 ltac:(lia)
                  ltac:(rewrite Nat2Z.id; by apply (prefix_repr_get h p))).
  - rewrite <-Nat2Z.inj_add. by next_by (cstr_get k (d + i) c2 H2).
Qed.

Lemma prefix_lookup_some (p k : list Z) i c : p `prefix_of` k → p !! i = Some c → k !! i = Some c.
Proof. intros [t ->] Hi. by apply lookup_app_l_Some. Qed.

(** [p] is a prefix of [k] when they agree below the length of [p]. *)
Lemma prefix_by_lookup (p k : list Z) :
  (length p ≤ length k)%nat → (∀ i c1 c2, p !! i = Some c1 → k !! i = Some c2 → c1 = c2) → p `prefix_of` k.
Proof.
  revert k. induction p as [|x p IH]; intros k Hlen Heq; [apply prefix_nil|].
  destruct k as [|y k]; [cbn in Hlen; lia|].
  rewrite (Heq 0%nat x y eq_refl eq_refl). apply prefix_cons, IH; [cbn in Hlen; lia|].
  intros i c1 c2 H1 H2. by apply (Heq (S i)).
Qed.

(** The loop over the stored bytes, with the bytes as functions of the index. *)
Lemma stored_loop h p k d :
  prefix_repr h p → Forall is_byte p → nonul k → (d ≤ length k)%nat →
  let max_cmp := Z.min (Z.min 10 (Z.of_nat (length p))) (Z.of_nat (length k) - Z.of_nat d) in
  ∃ r : nat,
    mismatch_loop (S (length (cstr k))) (char_at (partial h)) (λ i, char_at (cstr k) (Z.of_nat d + i)) 0 max_cmp
      = Done (Z.of_nat r) ∧ Z.of_nat r ≤ max_cmp ∧
    (∀ i c1 c2, (i < r)%nat → p !! i = Some c1 → k !! (d + i)%nat = Some c2 → c1 = c2) ∧
    (Z.of_nat r < max_cmp → ∃ c1 c2, p !! r = Some c1 ∧ k !! (d + r)%nat = Some c2 ∧ c1 ≠ c2).
Proof.
  intros Hp Hb Hk Hd max_cmp. apply nonul_bytes in Hk.
  set (f1 := λ i, s8 (default 0 (p !! Z.to_nat i))). set (f2 := λ i, s8 (default 0 (k !! (d + Z.to_nat i)%nat))).
  assert (∀ i, 0 ≤ i < max_cmp → ∃ c1 c2, p !! Z.to_nat i = Some c1 ∧ k !! (d + Z.to_nat i)%nat = Some c2 ∧
    is_byte c1 ∧ is_byte c2) as Hin.
  { intros i Hi. destruct (lookup_lt_is_Some_2 p (Z.to_nat i)) as [c1 H1]; [lia|].
    destruct (lookup_lt_is_Some_2 k (d + Z.to_nat i)) as [c2 H2]; [lia|]. exists c1, c2.
    split; [done|]. split; [done|]. split; [exact (Forall_lookup_1 _ _ _ _ Hb H1)|exact (Forall_lookup_1 _ _ _ _ Hk H2)]. }
  destruct (mismatch_loop_run (char_at (partial h)) (λ i, char_at (cstr k) (Z.of_nat d + i)) f1 f2 max_cmp
    (S (length (cstr k))) 0) as (r & Hrun & Hr & Heq & Hdiff).
  - intros i Hi. destruct (Hin i Hi) as (c1 & c2 & H1 & H2 & _). unfold f1, f2. rewrite H1, H2. cbn [default from_option id].
    destruct (stored_bytes h p k d (Z.to_nat i) c1 c2 Hp H1 ltac:(lia) H2) as [Hc1 Hc2].
    rewrite Z2Nat.id in Hc1, Hc2 by lia. done.
  - rewrite length_cstr. lia.
  - exists (Z.to_nat r). rewrite Z2Nat.id by lia. split; [done|]. split; [lia|]. split.
    + intros i c1 c2 Hi H1 H2. destruct (Hin (Z.of_nat i) ltac:(lia)) as (c1' & c2' & H1' & H2' & Hb1 & Hb2).
      specialize (Heq (Z.of_nat i) ltac:(lia)). unfold f1, f2 in Heq.
      rewrite Nat2Z.id in *. rewrite H1 in *. rewrite H2 in *. injection H1' as <-. injection H2' as <-.
      by apply s8_inj in Heq.
    + intros Hlt. destruct (Hin r ltac:(lia)) as (c1 & c2 & H1 & H2 & Hb1 & Hb2). exists c1, c2.
      split; [done|]. split; [done|]. intros ->. apply (Hdiff Hlt). unfold f1, f2. by rewrite H1, H2.
Qed.

(** [check_prefix] finds out whether the stored bytes are next in the key. *)
Lemma check_prefix_spec h p k d :
  prefix_repr h p → Forall is_byte p → nonul k → Z.of_nat (length k) < 2 ^ 31 → (d ≤ length k)%nat →
  ∃ r, check_prefix h (cstr k) (Z.of_nat (length k)) (Z.of_nat d) = Done r ∧
    (r = art_min MAX_PREFIX_LEN (partial_len h) ↔ take 10 p `prefix_of` drop d k).
Proof.
  intros Hp Hb Hk Hlen Hd. pose proof Hp as (_ & Hpl & Hpb & _). unfold check_prefix.
  rewrite art_min_10, Hpl by lia.
  rewrite (art_min_spec (Z.of_nat (length p)) MAX_PREFIX_LEN) by (unfold MAX_PREFIX_LEN; lia).
  rewrite art_min_spec by (unfold MAX_PREFIX_LEN; lia).
  change MAX_PREFIX_LEN with 10. rewrite (Z.min_comm _ 10).
  destruct (stored_loop h p k d Hp Hb Hk Hd) as (r & Hrun & Hr & Heq & Hdiff).
  exists (Z.of_nat r). split; [exact Hrun|]. split.
  - intros Hmin. apply prefix_by_lookup; [rewrite length_take, length_drop; lia|].
    intros i c1 c2 H1 H2. apply lookup_take_Some in H1 as [H1 Hi]. rewrite lookup_drop in H2.
    pose proof (lookup_lt_Some _ _ _ H1). apply (Heq i); [lia|done|done].
  - intros Hpre. pose proof (prefix_length _ _ Hpre) as Hle. rewrite length_take, length_drop in Hle.
    destruct (Z.lt_ge_cases (Z.of_nat r) (Z.min (Z.min 10 (Z.of_nat (length p))) (Z.of_nat (length k) - Z.of_nat d))) as [Hlt|Hge]; [|lia].
    exfalso. destruct (Hdiff Hlt) as (c1 & c2 & H1 & H2 & Hne). apply Hne.
    pose proof (prefix_lookup_some _ _ r c1 Hpre) as Hsome.
    rewrite lookup_take_lt, lookup_drop in Hsome by lia. specialize (Hsome H1). congruence.
Qed.

(** ** Joining prefixes *)

Lemma prefix_repr_split h p : prefix_repr h p →
  ∃ r, partial h = take 10 p ++ r ∧ length r = (10 - length p)%nat.
Proof.
  intros (Hlen & _ & _ & Htake). exists (drop (min 10 (length p)) (partial h)).
  rewrite <-Htake, take_drop, length_drop. split; [done|lia].
Qed.

Lemma prefix_repr_intro h p r :
  partial h = take 10 p ++ r → length r = (10 - length p)%nat →
  partial_len h = Z.of_nat (length p) → Z.of_nat (length p) < 2 ^ 31 → prefix_repr h p.
Proof.
  intros Hp Hr Hl Hb. split; [rewrite Hp, length_app, length_take; lia|]. split; [done|]. split; [done|].
  rewrite Hp, take_app_length'; [done|]. rewrite length_take. lia.
Qed.

(** A copy of a stored prefix to the front of another node's. *)
Lemma prefix_copy (dst q r : list Z) n :
  length dst = 10%nat → n = Z.of_nat (min 10 (length q)) → (min 10 (length q) ≤ length (take 10 q ++ r))%nat →
  ∃ r', arr_copy dst 0 (take 10 q ++ r) 0 n = Done (take 10 q ++ r') ∧ length r' = (10 - length q)%nat.
Proof.
  intros Hd -> Hl. exists (drop (min 10 (length q)) dst). rewrite arr_copy_front by lia.
  rewrite take_app_length' by (rewrite length_take; lia). split; [done|]. rewrite length_drop. lia.
Qed.

(** The prefix of the node, the byte, and as much of the child's prefix as
    still fits. *)
Lemma join_bytes (p p1 : list Z) (c : Z) :
  (length p < 9)%nat → p ++ c :: take (9 - length p) p1 = take 10 (p ++ c :: p1).
Proof.
  intros Hp. rewrite take_app_ge by lia. f_equal.
  replace (10 - length p)%nat with (S (9 - length p)) by lia. done.
Qed.

(** The last step of [join_prefix]: the bytes [P] are copied to the node. *)
Lemma join_finish h1 q n P k r :
  length (partial h1) = 10%nat → P = take 10 q ++ r → art_min k MAX_PREFIX_LEN = Z.of_nat (min 10 (length q)) →
  n = Z.of_nat (length q) → n < 2 ^ 31 →
  ∃ h1', (p' ← arr_copy (partial h1) 0 P 0 (art_min k MAX_PREFIX_LEN); Done (set_prefix (u32 n) p' h1)) = Done h1' ∧
    prefix_repr h1' q ∧ type h1' = type h1 ∧ num_children h1' = num_children h1.
Proof.
  intros Hl -> -> -> Hlt.
  destruct (prefix_copy (partial h1) q r (Z.of_nat (min 10 (length q))) Hl eq_refl)
    as (r' & Hc & Hr'); [rewrite (length_app (take 10 _)), length_take; lia|].
  next_by Hc. eexists. split; [done|]. split; [|done].
  eapply prefix_repr_intro; [done|done| |lia]. cbn [partial_len set_prefix]. by rewrite u32_small by lia.
Qed.

Lemma join_prefix_spec n c h1 p p1 :
  prefix_repr n p → prefix_repr h1 p1 → Z.of_nat (length p + length p1) + 1 < 2 ^ 31 →
  ∃ h1', join_prefix n c h1 = Done h1' ∧ prefix_repr h1' (p ++ c :: p1) ∧
    type h1' = type h1 ∧ num_children h1' = num_children h1.
Proof.
  intros Hp Hp1 Hlen. pose proof Hp as (_ & Hpl & Hpb & _). pose proof Hp1 as (Hl1 & Hpl1 & Hpb1 & _).
  destruct (prefix_repr_split n p Hp) as (r & Hpart & Hr).
  destruct (prefix_repr_split h1 p1 Hp1) as (r1 & Hpart1 & Hr1).
  assert (Hq : length (p ++ c :: p1) = (length p + S (length p1))%nat) by (rewrite length_app; done).
  pose proof (λ P k r2 HP Hk, join_finish h1 (p ++ c :: p1) (Z.of_nat (length p1) + (Z.of_nat (length p) + 1)) P k r2
    Hl1 HP Hk ltac:(rewrite Hq; lia) ltac:(lia)) as Hfin.
  unfold join_prefix. rewrite Hpl, Hpl1, (s32_small (Z.of_nat (length p))) by lia. cbv zeta.
  change MAX_PREFIX_LEN with 10 in *. destruct (Z.ltb_spec (Z.of_nat (length p)) 10) as [Hlt|Hge].
  - rewrite (take_ge p) in Hpart by lia. destruct r as [|y r]; [cbn in Hr; lia|]. rewrite Hpart.
    next_by (arr_set_mid p y r c (Z.of_nat (length p)) ltac:(done)). rewrite obind_done. cbn beta iota.
    destruct (Z.ltb_spec (Z.of_nat (length p) + 1) 10) as [Hlt'|Hge'].
    + rewrite (art_min_spec _ (10 - _)) by lia.
      set (s := min (length p1) (9 - length p)).
      replace (Z.min (Z.of_nat (length p1)) (10 - (Z.of_nat (length p) + 1))) with (Z.of_nat s) by lia.
      assert (take s (partial h1) = take (9 - length p) p1) as Hs.
      { rewrite Hpart1, take_app_le by (rewrite length_take; lia). rewrite take_take.
        destruct (Nat.le_gt_cases (length p1) (9 - length p)); [rewrite !take_ge by lia; done|].
        f_equal. lia. }
      assert (arr_copy (p ++ c :: r) (Z.of_nat (length p) + 1) (partial h1) 0 (Z.of_nat s) =
              Done ((p ++ [c]) ++ take s (partial h1) ++ drop s r)) as Hcopy.
      { pose proof (arr_copy_seg (p ++ [c]) (take s r) (drop s r) [] (take s (partial h1)) (drop s (partial h1))
          (Z.of_nat (length p) + 1) 0 (Z.of_nat s)) as H.
        rewrite !take_drop in H. rewrite <-app_assoc in H. cbn [app] in H. cbn in Hr. apply H.
        - rewrite length_app. cbn. lia.
        - done.
        - rewrite length_take. lia.
        - rewrite !length_take. lia. }
      next_by Hcopy. rewrite obind_done. cbn beta iota. eapply (Hfin _ _ (drop s r)).
      * rewrite <-app_assoc. cbn [app]. rewrite Hs, <-join_bytes, <-app_assoc by lia. done.
      * rewrite art_min_spec, Hq by lia. lia.
    + rewrite obind_done. cbn beta iota. eapply (Hfin _ _ r).
      * rewrite take_app_ge by lia. replace (10 - length p)%nat with 1%nat by lia. cbn. by rewrite <-app_assoc.
      * rewrite art_min_spec, Hq by lia. lia.
  - rewrite obind_done. cbn beta iota. destruct (Z.ltb_spec (Z.of_nat (length p)) 10); [lia|].
    rewrite obind_done. cbn beta iota. eapply (Hfin _ _ r).
    + by rewrite take_app_le by lia.
    + rewrite art_min_spec, Hq by lia. lia.
Qed.
