(* ===== verification/ArtTree.v ===== *)
(** * ArtTree: the finite map an adaptive radix tree represents

    [repr π n M]: below the path [π] (the key bytes from the root to [n]),
    node [n] holds exactly the bindings of [M].  Facts about the keys of such
    a node; [art_search] as lookup; [minimum] and [prefix_mismatch]. *)

From S2P Require Import Prelude.
From S2P Require Import Critbit.
From S2P Require Import MapSpec.
From S2P Require Import Art.
From S2P Require Import ArtArrays.
From S2P Require Import ArtNodes.
From S2P Require Import ArtAdd.
From S2P Require Import ArtPrefix.

(** The binding of [k] in the child that its byte at [D] selects. *)
Definition kids_lookup (m : kidmap) (Ms : Z → kvmap) (D : nat) (k : list Z) : option Z :=
  match k !! D with
  | Some c => match m !! c with Some _ => Ms c !! k | None => None end
  | None => None
  end.

Section tree.
Context (K : list Z → Prop) (HK : keyset K).

Inductive repr : list Z → art_node → kvmap → Prop :=
  | repr_leaf π l k v : K k → leaf_is l k v → π `prefix_of` k → repr π (Leaf l) {[k := v]}
  | repr_inner π h ks cs m p Ms M :
      node_repr h ks cs m → occupancy h m → prefix_repr h p →
      (∀ c x, m !! c = Some x → repr (π ++ p ++ [c]) x (Ms c)) →
      (∀ k, M !! k = kids_lookup m Ms (length (π ++ p)) k) →
      repr π (Inner h ks cs) M.

(** ** The keys of a node *)

Lemma repr_key π n M k v : repr π n M → M !! k = Some v → K k ∧ π `prefix_of` k.
Proof.
  intros Hr. revert k v. induction Hr as [π l k0 v0 HK0 Hl Hpre|π h ks cs m p Ms M Hn Ho Hp Hkids IH HM]; intros k v Hk.
  - by apply lookup_singleton_Some in Hk as [<- _].
  - rewrite HM in Hk. unfold kids_lookup in Hk. destruct (k !! _) as [c|]; [|done].
    destruct (m !! c) as [x|] eqn:Hx; [|done]. destruct (IH c x Hx k v Hk) as [HKk Hpre].
    split; [done|]. etrans; [|exact Hpre]. by apply prefix_app_r.
Qed.

Lemma occupancy_two h m : occupancy h m → (2 ≤ base.size m)%nat.
Proof. unfold occupancy. repeat (destruct (_ =? _)); lia. Qed.

Lemma map_nonempty (m : kidmap) : (1 ≤ base.size m)%nat → ∃ c x, m !! c = Some x.
Proof.
  intros Hsz. destruct (map_choose m) as (c & x & Hx); [|by exists c, x].
  intros ->. rewrite map_size_empty in Hsz. lia.
Qed.

Lemma path_byte (π p : list Z) c k : (π ++ p ++ [c]) `prefix_of` k → k !! length (π ++ p) = Some c.
Proof.
  intros [t ->]. rewrite (app_assoc π p), <-app_assoc. by apply list_lookup_middle.
Qed.

Lemma repr_nonempty π n M : repr π n M → ∃ k v, M !! k = Some v.
Proof.
  induction 1 as [π l k0 v0 HK0 Hl Hpre|π h ks cs m p Ms M Hn Ho Hp Hkids IH HM].
  - exists k0, v0. apply lookup_singleton_eq.
  - apply occupancy_two in Ho. destruct (map_nonempty m) as (c & x & Hx); [lia|].
    destruct (IH c x Hx) as (k & v & Hk). destruct (repr_key _ _ _ _ _ (Hkids c x Hx) Hk) as [_ Hpre].
    exists k, v. rewrite HM. unfold kids_lookup. by rewrite (path_byte π p c k Hpre), Hx.
Qed.

Lemma repr_not_null π M : ¬ repr π Null M.
Proof. inversion 1. Qed.

(** The parts of an inner node, and its facts, under one roof. *)
Record inner (π : list Z) (h : art_header) (ks : list Z) (cs : list art_node) (m : kidmap) (p : list Z)
    (Ms : Z → kvmap) (M : kvmap) : Prop := {
  in_node : node_repr h ks cs m;
  in_occ : occupancy h m;
  in_prefix : prefix_repr h p;
  in_kids c x : m !! c = Some x → repr (π ++ p ++ [c]) x (Ms c);
  in_map k : M !! k = kids_lookup m Ms (length (π ++ p)) k;
}.

Lemma inner_repr π h ks cs m p Ms M : inner π h ks cs m p Ms M → repr π (Inner h ks cs) M.
Proof. intros [H1 H2 H3 H4 H5]. by eapply repr_inner. Qed.

Section inner_facts.
Context {π h ks cs m p Ms M} (HI : inner π h ks cs m p Ms M).

(** Some key goes through the node and on by some byte. *)
Lemma inner_key : ∃ k c x, K k ∧ m !! c = Some x ∧ (π ++ p ++ [c]) `prefix_of` k.
Proof.
  pose proof (occupancy_two _ _ (in_occ _ _ _ _ _ _ _ _ HI)) as Ho.
  destruct (map_nonempty m) as (c & x & Hx); [lia|].
  pose proof (in_kids _ _ _ _ _ _ _ _ HI c x Hx) as Hr.
  destruct (repr_nonempty _ _ _ Hr) as (k & v & Hk). apply (repr_key _ _ _ _ _ Hr) in Hk as [HKk Hpre].
  by exists k, c, x.
Qed.

Lemma inner_prefix k v : M !! k = Some v → (π ++ p) `prefix_of` k.
Proof.
  rewrite (in_map _ _ _ _ _ _ _ _ HI k). unfold kids_lookup. destruct (k !! _) as [c|]; [|done].
  destruct (m !! c) as [x|] eqn:Hx; [|done]. intros Hk.
  destruct (repr_key _ _ _ _ _ (in_kids _ _ _ _ _ _ _ _ HI c x Hx) Hk) as [_ Hpre].
  etrans; [|exact Hpre]. rewrite app_assoc. by apply prefix_app_r.
Qed.

Lemma inner_bytes : Forall is_byte p.
Proof.
  destruct inner_key as (k & c & x & HKk & _ & [t ->]). apply (key_nonul K HK), nonul_bytes in HKk.
  rewrite !Forall_app in HKk. by destruct HKk as [(_ & ? & _) _].
Qed.

Lemma inner_child_byte c x : m !! c = Some x → c ≠ 0.
Proof.
  intros Hx. pose proof (in_kids _ _ _ _ _ _ _ _ HI c x Hx) as Hr.
  destruct (repr_nonempty _ _ _ Hr) as (k & v & Hk). apply (repr_key _ _ _ _ _ Hr) in Hk as [HKk [t ->]].
  apply (key_nonul K HK) in HKk. unfold nonul in HKk. rewrite !Forall_app in HKk.
  destruct HKk as [(_ & _ & Hc) _]. apply Forall_cons in Hc as [? _]. lia.
Qed.

Lemma inner_length : Z.of_nat (length (π ++ p)) + 1 < 2 ^ 31.
Proof.
  destruct inner_key as (k & c & x & HKk & _ & Hpre). pose proof (key_short K HK k HKk).
  apply prefix_length in Hpre. rewrite app_assoc, length_app in Hpre. cbn in Hpre. lia.
Qed.

(** Once the stored bytes have matched, the whole prefix fits into the key. *)
Lemma inner_fits k : K k → (length π ≤ length k)%nat → take 10 p `prefix_of` drop (length π) k →
  (length (π ++ p) ≤ length k)%nat.
Proof.
  intros HKk Hle Hpre. destruct inner_key as (k0 & c & x & HK0 & _ & Hpre0).
  apply prefix_length in Hpre0. rewrite app_assoc, length_app in Hpre0. cbn in Hpre0.
  destruct (key_long K HK) as [Hs|(len & Hl)].
  - specialize (Hs k0 HK0). rewrite length_app in Hpre0. rewrite take_ge in Hpre by lia.
    apply prefix_length in Hpre. rewrite length_drop in Hpre. rewrite length_app. lia.
  - destruct (Hl k HKk) as [-> _]. destruct (Hl k0 HK0) as [<- _]. lia.
Qed.

(** The byte of a key at the node selects the child that may hold it. *)
Lemma inner_step k : K k → (length (π ++ p) ≤ length k)%nat →
  ∃ c, buf_get (cstr k) (Z.of_nat (length (π ++ p))) = Done c ∧ 0 ≤ c < 256 ∧
    match m !! c with
    | None => M !! k = None
    | Some x => k !! length (π ++ p) = Some c ∧ M !! k = Ms c !! k
    end.
Proof.
  intros HKk Hle. rewrite (in_map _ _ _ _ _ _ _ _ HI k). unfold kids_lookup.
  destruct (decide (length (π ++ p) = length k)) as [Heq|Hne].
  - exists 0. split; [rewrite Heq; apply cstr_get_end|]. split; [lia|].
    destruct (m !! 0) as [x|] eqn:Hx; [by apply inner_child_byte in Hx|].
    rewrite lookup_ge_None_2 by lia. done.
  - destruct (lookup_lt_is_Some_2 k (length (π ++ p))) as [c Hc]; [lia|]. exists c.
    split; [by apply cstr_get|]. rewrite Hc.
    pose proof (Forall_lookup_1 _ _ _ _ (key_nonul K HK k HKk) Hc) as Hb. cbn in Hb. split; [lia|].
    by destruct (m !! c).
Qed.
End inner_facts.

Lemma prefix_drop (π p k : list Z) : (π ++ p) `prefix_of` k → p `prefix_of` drop (length π) k.
Proof. intros [t ->]. rewrite <-app_assoc, drop_app_length. by apply prefix_app_r. Qed.

Lemma prefix_undrop (π p k : list Z) : π `prefix_of` k → p `prefix_of` drop (length π) k → (π ++ p) `prefix_of` k.
Proof. intros [t ->] Hp. rewrite drop_app_length in Hp. by apply prefix_app. Qed.

(** ** art_search *)

Lemma find_result_none M k : M !! k = None → find_result M k = 0.
Proof. intros H. unfold find_result. by rewrite H. Qed.

Lemma partial_len_zero h p : prefix_repr h p → (partial_len h =? 0) = bool_decide (p = []).
Proof.
  intros (_ & Hpl & _). rewrite Hpl. destruct p; [done|]. rewrite bool_decide_eq_false_2 by done.
  apply Z.eqb_neq. cbn. lia.
Qed.

Lemma search_loop_spec π n M : repr π n M → ∀ k fuel,
  K k → (length π ≤ length k)%nat → (length k - length π < fuel)%nat →
  search_loop fuel n (cstr k) (Z.of_nat (length k)) (Z.of_nat (length π)) = Done (find_result M k).
Proof.
  induction 1 as [π l k0 v0 HK0 Hl Hpre|π h ks cs m p Ms M Hn Ho Hp Hkids IH HM]; intros k fuel HKk Hle Hf.
  - destruct fuel as [|fuel]; [lia|]. cbn [search_loop].
    destruct (leaf_matches_spec l k0 v0 k (Z.of_nat (length π)) Hl (key_short K HK k HKk)) as (r & Hr & Hiff).
    next_by Hr. f_equal. unfold find_result. destruct (Z.eqb_spec r 0) as [Hz|Hz].
    + apply Hiff in Hz as ->. rewrite lookup_singleton_eq. by destruct Hl as [-> _].
    + rewrite lookup_singleton_ne; [done|]. intros ->. by apply Hz, Hiff.
  - destruct fuel as [|fuel]; [lia|]. cbn [search_loop]. cbv zeta.
    assert (inner π h ks cs m p Ms M) as HI by done.
    assert (∀ D, D = Z.of_nat (length (π ++ p)) → (length (π ++ p) ≤ length k)%nat →
      (c ← buf_get (cstr k) D; child ← find_child h ks cs c;
       match child with
       | Some i => n ← arr_get cs i; search_loop fuel n (cstr k) (Z.of_nat (length k)) (D + 1)
       | None => Done 0
       end) = Done (find_result M k)) as Hdesc.
    { intros D -> HD. destruct (inner_step HI k HKk HD) as (c & Hc & Hb & Hstep). next_by Hc.
      pose proof (find_child_spec h ks cs m c Hn Hb) as Hfind.
      destruct (m !! c) as [x|] eqn:Hx; [|next_by Hfind; by rewrite find_result_none].
      destruct Hfind as (i & Hi & Hi0 & Hcs & _). next_by Hi. next_by (arr_get_Some cs i x Hi0 Hcs).
      destruct Hstep as [Hkc HMk]. apply lookup_lt_Some in Hkc.
      assert (length (π ++ p ++ [c]) = S (length (π ++ p))) as Hlen.
      { rewrite (app_assoc π), (length_app (π ++ p)). cbn. lia. }
      replace (Z.of_nat (length (π ++ p)) + 1) with (Z.of_nat (length (π ++ p ++ [c]))) by lia.
      assert (length π ≤ length (π ++ p))%nat as Hpi by (rewrite length_app; lia).
      unfold find_result. rewrite HMk. apply (IH c x Hx k fuel HKk); lia. }
    rewrite (partial_len_zero h p Hp). destruct (decide (p = [])) as [->|Hne].
    + rewrite bool_decide_eq_true_2 by done. cbn [negb]. rewrite app_nil_r in Hdesc. by apply Hdesc.
    + rewrite bool_decide_eq_false_2 by done. cbn [negb].
      destruct (check_prefix_spec h p k (length π) Hp (inner_bytes HI) (key_nonul K HK k HKk)
                  (key_short K HK k HKk) Hle) as (r & Hr & Hiff).
      next_by Hr. destruct (Z.eqb_spec r (art_min MAX_PREFIX_LEN (partial_len h))) as [Heq|Hneq]; cbn [negb].
      * pose proof (inner_fits HI k HKk Hle (proj1 Hiff Heq)) as Hfit. apply Hdesc; [|done].
        destruct Hp as (_ & -> & _). pose proof (inner_length HI). rewrite length_app in *. rewrite s32_small by lia. lia.
      * rewrite find_result_none; [done|]. destruct (M !! k) as [v|] eqn:Hk; [|done].
        exfalso. apply Hneq, Hiff. apply (inner_prefix HI), prefix_drop in Hk.
        etrans; [|exact Hk]. apply prefix_take.
Qed.
End tree.

(** ** minimum and prefix_mismatch

    [minimum] walks to some leaf below a node, from which the bytes of a long
    prefix can be read; [prefix_mismatch] finds the first byte where a key
    leaves the prefix of a node. *)

(** *** minimum *)

Lemma end_child_spec h ks cs m :
  node_repr h ks cs m → (1 ≤ base.size m)%nat →
  ∃ c x i, end_child true h ks cs = Done x ∧ m !! c = Some x ∧ cs !! i = Some x.
Proof.
  intros [Hkind Hkids] Hsz. unfold end_child.
  destruct Hkind as [Ht Hr|Ht Hr|Ht Hr|Ht Hr]; rewrite Ht; cbn [NODE4 NODE16 NODE48 NODE256 Z.eqb Pos.eqb orb].
  1,2: pose proof (flat_size _ _ _ _ _ Hr) as Hn; destruct Hr as (kl & rk & rc & -> & -> & Hn' & _ & _ & Hnd & ->);
    destruct kl as [|[c x] kl]; [cbn [length] in Hn'; lia|]; exists c, x, 0%nat;
    split; [done|]; split; [|done]; by apply (list_to_map_kl_lookup _ 0).
  - destruct (map_nonempty m Hsz) as (c & x & Hx). destruct (Hkids c x Hx) as [Hc _].
    destruct (lookup_lt_is_Some_2 ks (Z.to_nat c)) as [k Hk]; [rewrite (ix_keys _ _ _ _ Hr); lia|].
    destruct (scan_slots_up (λ k, k =? 0) ks 257 0) as (j & k' & Hrun & _ & Hj & Hk').
    { exists (Z.to_nat c), k. split; [lia|]. split; [lia|]. split; [done|].
      destruct (ix_lookup _ _ _ _ Hr c k ltac:(lia) Hk) as [[_ Hn]|[? _]]; [congruence|]. apply Z.eqb_neq. lia. }
    change (Z.of_nat 0) with 0 in Hrun. next_by Hrun.
    next_by (arr_get_Some ks (Z.of_nat j) k' ltac:(lia) ltac:(by rewrite Nat2Z.id)).
    destruct (ix_lookup _ _ _ _ Hr (Z.of_nat j) k' ltac:(lia) ltac:(by rewrite Nat2Z.id)) as [[-> _]|(Hkr & y & Hy & Hcs)]; [done|].
    exists (Z.of_nat j), y, (Z.to_nat (k' - 1)). split; [|done]. apply arr_get_Some; [lia|done].
  - destruct (map_nonempty m Hsz) as (c & x & Hx). destruct (Hkids c x Hx) as [Hc Hnull].
    pose proof Hr as (Hlen & _ & Hlook).
    destruct (scan_slots_up is_null cs 257 0) as (j & y & Hrun & _ & Hj & Hy).
    { exists (Z.to_nat c), x. split; [lia|]. split; [lia|]. split; [|by destruct x]. by rewrite (Hlook c Hc), Hx. }
    change (Z.of_nat 0) with 0 in Hrun. next_by Hrun. pose proof (lookup_lt_Some _ _ _ Hj) as Hlt.
    exists (Z.of_nat j), y, j. split; [apply arr_get_Some; [lia|by rewrite Nat2Z.id]|]. split; [|done].
    pose proof (Hlook (Z.of_nat j) ltac:(lia)) as Hl. rewrite Nat2Z.id, Hj in Hl. injection Hl as ->.
    destruct (m !! Z.of_nat j); [done|]. done.
Qed.

Lemma height_child h ks cs i x : cs !! i = Some x → (height x < height (Inner h ks cs))%nat.
Proof.
  intros Hi. cbn. apply Nat.lt_succ_r. revert i Hi.
  induction cs as [|y cs IH]; intros [|i] Hi; [done|done| |]; cbn in *.
  - injection Hi as ->. lia.
  - specialize (IH i Hi). lia.
Qed.

Section tree.
Context (K : list Z → Prop) (HK : keyset K).

Lemma end_leaf_spec π n M : repr K π n M → ∀ fuel, (height n < fuel)%nat →
  ∃ l k v, end_leaf fuel true n = Done (Some l) ∧ leaf_is l k v ∧ M !! k = Some v.
Proof.
  induction 1 as [π l k0 v0 HK0 Hl Hpre|π h ks cs m p Ms M Hn Ho Hp Hkids IH HM]; intros [|fuel] Hf; [lia| |lia|].
  - exists l, k0, v0. split; [done|]. split; [done|]. apply lookup_singleton_eq.
  - cbn [end_leaf]. destruct (end_child_spec h ks cs m Hn) as (c & x & i & Hend & Hx & Hi).
    { apply occupancy_two in Ho. lia. }
    next_by Hend. apply (height_child h ks) in Hi.
    destruct (IH c x Hx fuel ltac:(lia)) as (l & k & v & Hrun & Hl & Hk). exists l, k, v.
    split; [done|]. split; [done|]. rewrite HM. unfold kids_lookup.
    destruct (repr_key K _ _ _ _ _ (Hkids c x Hx) Hk) as [_ Hpre]. by rewrite (path_byte π p c k Hpre), Hx.
Qed.

Lemma minimum_leaf_spec π n M : repr K π n M →
  ∃ l k v, minimum_leaf n = Done l ∧ leaf_is l k v ∧ M !! k = Some v.
Proof.
  intros Hr. destruct (end_leaf_spec π n M Hr (S (height n)) ltac:(lia)) as (l & k & v & Hrun & Hl & Hk).
  exists l, k, v. split; [|done]. unfold minimum_leaf, minimum. by next_by Hrun.
Qed.

(** ** prefix_mismatch *)

Section inner.
Context {π h ks cs m p Ms M} (HI : inner K π h ks cs m p Ms M).

(** No key ends at the node or above it. *)
Lemma inner_no_key_above k q : K k → q `prefix_of` π ++ p → k ≠ q.
Proof.
  intros HKk Hq ->. destruct (inner_key K HI) as (k0 & c & x & HK0 & _ & Hpre).
  assert (q `prefix_of` k0) as Hqk.
  { etrans; [exact Hq|]. etrans; [|exact Hpre]. rewrite app_assoc. by apply prefix_app_r. }
  apply (key_free K HK q k0 HKk HK0) in Hqk as ->.
  apply prefix_length in Hq, Hpre. rewrite app_assoc, length_app in Hpre. cbn in Hpre. lia.
Qed.

(** The rest of a prefix of more than ten bytes is read from a leaf. *)
Lemma long_mismatch k : K k → π `prefix_of` k → (10 < length p)%nat →
  (length (π ++ p) < length k)%nat ∧
  ∃ r : nat,
    (l ← minimum_leaf (Inner h ks cs);
     let max_cmp := art_min (key_len l) (Z.of_nat (length k)) - Z.of_nat (length π) in
     mismatch_loop (S (length (cstr k))) (λ i, uchar_at (leaf_key l) (i + Z.of_nat (length π)))
       (λ i, char_at (cstr k) (Z.of_nat (length π) + i)) 10 max_cmp) = Done (Z.of_nat r) ∧
    (10 ≤ r ≤ length k - length π)%nat ∧
    (∀ i c1 c2, (10 ≤ i < r)%nat → p !! i = Some c1 → k !! (length π + i)%nat = Some c2 → c1 = c2) ∧
    ((r < length p)%nat → ∃ c1 c2, p !! r = Some c1 ∧ k !! (length π + r)%nat = Some c2 ∧ c1 ≠ c2).
Proof.
  intros HKk Hpre Hlong. pose proof (inner_repr K _ _ _ _ _ _ _ _ HI) as Hr.
  destruct (minimum_leaf_spec _ _ _ Hr) as (l & k1 & v & Hrun & (_ & Hkl & tail & Htail) & Hk1).
  destruct (repr_key K _ _ _ _ _ Hr Hk1) as [HK1 _]. pose proof (inner_prefix K HI k1 v Hk1) as Hpre1.
  destruct (inner_key K HI) as (k0 & c & x & HK0 & _ & Hpre0).
  apply prefix_length in Hpre0. rewrite app_assoc, length_app in Hpre0. cbn [length] in Hpre0.
  assert (length (π ++ p) = (length π + length p)%nat) as Hpp by apply length_app.
  destruct (key_long K HK) as [Hs|(len & Hlen)]; [specialize (Hs k0 HK0); lia|].
  destruct (Hlen k HKk) as [Hlk Hb]. destruct (Hlen k1 HK1) as [Hlk1 Hb1]. destruct (Hlen k0 HK0) as [Hlk0 _].
  split; [lia|]. next_by Hrun. rewrite Hkl, art_min_spec by (pose proof (key_short K HK k HKk); lia).
  pose proof (key_nonul K HK k HKk) as Hnk.
  set (f1 := λ i, default 0 (k1 !! (length π + Z.to_nat i)%nat)).
  set (f2 := λ i, default 0 (k !! (length π + Z.to_nat i)%nat)).
  destruct (mismatch_loop_run (λ i, uchar_at (leaf_key l) (i + Z.of_nat (length π)))
    (λ i, char_at (cstr k) (Z.of_nat (length π) + i)) f1 f2 (Z.of_nat (length k - length π)) (S (length (cstr k))) 10)
    as (r & Hloop & Hr10 & Heq & Hdiff).
  - intros i Hi. destruct (lookup_lt_is_Some_2 k1 (length π + Z.to_nat i)) as [c1 H1]; [lia|].
    destruct (lookup_lt_is_Some_2 k (length π + Z.to_nat i)) as [c2 H2]; [lia|].
    unfold f1, f2. rewrite H1, H2. cbn [default from_option id]. split.
    + apply buf_get_Some; [lia|]. rewrite Htail. apply lookup_app_l_Some.
      by replace (Z.to_nat (i + Z.of_nat (length π))) with (length π + Z.to_nat i)%nat by lia.
    + unfold char_at. replace (Z.of_nat (length π) + i) with (Z.of_nat (length π + Z.to_nat i)) by lia.
      next_by (cstr_get k _ c2 H2). f_equal. apply s8_small.
      pose proof (Forall_lookup_1 _ _ _ _ Hb H2). pose proof (Forall_lookup_1 _ _ _ _ Hnk H2). cbn in *. lia.
  - rewrite length_cstr. lia.
  - replace (Z.min (Z.of_nat (length k1)) (Z.of_nat (length k)) - Z.of_nat (length π))
      with (Z.of_nat (length k - length π)) by lia.
    exists (Z.to_nat r). rewrite Z2Nat.id by lia. split; [done|]. split; [lia|].
    assert (∀ i c, p !! i = Some c → k1 !! (length π + i)%nat = Some c) as Hp1.
    { intros i c' Hi. eapply prefix_lookup_some; [exact Hpre1|]. rewrite lookup_app_r by lia.
      by replace (length π + i - length π)%nat with i by lia. }
    split.
    + intros i c1 c2 Hi H1 H2. specialize (Heq (Z.of_nat i) ltac:(lia)). unfold f1, f2 in Heq.
      rewrite Nat2Z.id, (Hp1 i c1 H1), H2 in Heq. done.
    + intros Hlt. destruct (lookup_lt_is_Some_2 p (Z.to_nat r)) as [c1 H1]; [lia|].
      destruct (lookup_lt_is_Some_2 k (length π + Z.to_nat r)) as [c2 H2]; [lia|].
      exists c1, c2. split; [done|]. split; [done|]. intros ->. apply Hdiff; [lia|].
      unfold f1, f2. by rewrite (Hp1 _ _ H1), H2.
Qed.

Lemma prefix_mismatch_spec k : K k → π `prefix_of` k →
  ∃ r : nat, prefix_mismatch h (Inner h ks cs) (cstr k) (Z.of_nat (length k)) (Z.of_nat (length π)) = Done (Z.of_nat r) ∧
    (r ≤ length k)%nat ∧
    (∀ i c1 c2, (i < r)%nat → p !! i = Some c1 → k !! (length π + i)%nat = Some c2 → c1 = c2) ∧
    ((r < length p)%nat → ∃ c1 c2, p !! r = Some c1 ∧ k !! (length π + r)%nat = Some c2 ∧ c1 ≠ c2) ∧
    ((length p ≤ r)%nat → (π ++ p) `prefix_of` k).
Proof.
  intros HKk Hpre. pose proof (prefix_length _ _ Hpre) as Hle. pose proof (key_short K HK k HKk) as Hshort.
  pose proof (in_prefix K _ _ _ _ _ _ _ _ HI) as Hp. pose proof Hp as (_ & Hpl & Hpb & _).
  destruct (stored_loop h p k (length π) Hp (inner_bytes K HK HI) (key_nonul K HK k HKk) Hle) as (r & Hrun & Hr & Heq & Hdiff).
  set (max_cmp := Z.min _ _) in *.
  assert (∀ r', (∀ i c1 c2, (i < r')%nat → p !! i = Some c1 → k !! (length π + i)%nat = Some c2 → c1 = c2) →
    (length p ≤ r')%nat → (length p ≤ length k - length π)%nat → (π ++ p) `prefix_of` k) as Hall.
  { intros r' Hagree Hlp Hlk. apply prefix_undrop; [done|]. apply prefix_by_lookup; [rewrite length_drop; lia|].
    intros i c1 c2 H1 H2. rewrite lookup_drop in H2. apply (Hagree i); [|done|done].
    apply lookup_lt_Some in H1. lia. }
  unfold prefix_mismatch. rewrite art_min_10, Hpl by lia.
  rewrite (art_min_spec (Z.min _ _)) by lia.
  fold max_cmp. next_by Hrun.
  destruct (Z.ltb_spec (Z.of_nat r) max_cmp) as [Hlt|Hge].
  - exists r. split; [done|]. split; [lia|]. split; [done|]. split; [by intros _; apply Hdiff|].
    intros Hlp. lia.
  - change MAX_PREFIX_LEN with 10. destruct (Z.ltb_spec 10 (Z.of_nat (length p))) as [Hlong|Hsh].
    + destruct (long_mismatch k HKk Hpre ltac:(lia)) as [Hpk (r' & Hrun' & Hr' & Heq' & Hdiff')].
      rewrite length_app in Hpk. replace (Z.of_nat r) with 10 by lia. exists r'.
      split; [exact Hrun'|]. split; [lia|].
      assert (∀ i c1 c2, (i < r')%nat → p !! i = Some c1 → k !! (length π + i)%nat = Some c2 → c1 = c2) as Hagree.
      { intros i c1 c2 Hi. destruct (decide (i < 10)%nat); [apply Heq; lia|apply Heq'; lia]. }
      split; [done|]. split; [done|]. intros Hlp. apply (Hall r'); [done|lia|lia].
    + exists r. split; [done|]. split; [lia|]. split; [done|]. split; [|intros Hlp; apply (Hall r); [done|lia|lia]].
      intros Hlt. exfalso. assert (length k = length π + r)%nat as Hk by lia.
      apply (inner_no_key_above k k HKk); [|done].
      destruct Hpre as [t ->]. rewrite length_app in Hk. apply prefix_app, prefix_by_lookup; [lia|].
      intros i c1 c2 H1 H2. symmetry. apply (Heq i); [apply lookup_lt_Some in H1; lia|done|].
      rewrite lookup_app_r by lia. by replace (length π + i - length π)%nat with i by lia.
Qed.
End inner.
End tree.
