(* ===== verification/ArtInsert.v ===== *)
(** * ArtInsert: art_insert is insertion into the map

    Splitting a leaf, splitting a prefix, adding a child and descending: in
    each case [recursive_insert] returns a node for the extended map. *)

From S2P Require Import Prelude.
From S2P Require Import Critbit.
From S2P Require Import MapSpec.
From S2P Require Import Art.
From S2P Require Import ArtArrays.
From S2P Require Import ArtNodes.
From S2P Require Import ArtAdd.
From S2P Require Import ArtPrefix.
From S2P Require Import ArtTree.

(** ** New nodes *)

Section insert.
Context {AA : ArtAlloc} {AT : ArtAllocTotal AA}.

Lemma arr_copy_range {B} (dst src : list B) s n :
  (n ≤ length dst)%nat → (s + n ≤ length src)%nat →
  arr_copy dst 0 src (Z.of_nat s) (Z.of_nat n) = Done (take n (drop s src) ++ drop n dst).
Proof.
  intros Hd Hs. rewrite <-(take_drop n dst) at 1. rewrite <-(take_drop s src) at 1.
  rewrite <-(take_drop n (drop s src)) at 1.
  apply (arr_copy_seg [] (take n dst) (drop n dst)); [done| | |]; rewrite ?length_take, ?length_drop; lia.
Qed.

(** Copying a prefix into a node from anywhere. *)
Lemma store_prefix h dst src s q len :
  length dst = 10%nat → take 10 q `prefix_of` drop s src → Z.of_nat (length q) < 2 ^ 31 → len = Z.of_nat (length q) →
  (s ≤ length src)%nat →
  ∃ p', arr_copy dst 0 src (Z.of_nat s) (art_min MAX_PREFIX_LEN len) = Done p' ∧ prefix_repr (set_prefix len p' h) q.
Proof.
  intros Hd [t Ht] Hlen -> Hs. rewrite art_min_10 by lia.
  replace (Z.min 10 (Z.of_nat (length q))) with (Z.of_nat (min 10 (length q))) by lia.
  pose proof (f_equal length Ht) as Hl. rewrite length_drop, length_app, length_take in Hl.
  rewrite arr_copy_range by lia. eexists. split; [done|].
  rewrite Ht, take_app_length' by (rewrite length_take; lia).
  eapply prefix_repr_intro; [done|rewrite length_drop; lia|done|done].
Qed.

(** The [NODE4] of the two children of a split. *)
Lemma pair_node h q c1 c2 x1 x2 :
  type h = NODE4 → num_children h = 0 → prefix_repr h q → is_byte c1 → is_byte c2 → c1 ≠ c2 → x1 ≠ Null → x2 ≠ Null →
  ∃ h1 ks1 cs1 h2 ks2 cs2,
    add_child4 h (replicate 4 0) (replicate 4 Null) c1 x1 = Done (Inner h1 ks1 cs1) ∧
    add_child4 h1 ks1 cs1 c2 x2 = Done (Inner h2 ks2 cs2) ∧
    node_repr h2 ks2 cs2 (<[c2 := x2]> {[c1 := x1]}) ∧ prefix_repr h2 q ∧
    occupancy h2 (<[c2 := x2]> {[c1 := x1]}).
Proof.
  intros Ht Hn Hq Hc1 Hc2 Hne Hx1 Hx2.
  assert (kids_ok ∅) as H0 by apply map_Forall_empty.
  assert (flat_repr 4 h (replicate 4 0) (replicate 4 Null) ∅) as Hf.
  { exists [], (replicate 4 0), (replicate 4 Null). cbn. do 5 (split; [done|]). split; [by apply NoDup_nil|done]. }
  destruct (add_child4_room h _ _ ∅ c1 x1 Ht Hf H0 Hc1 (lookup_empty _) Hx1 ltac:(lia)) as (ks1 & cs1 & Ha1 & Hf1).
  rewrite insert_empty in Hf1. set (h1 := set_num _ h) in *.
  assert (num_children h1 = 1) as Hn1 by (cbn; by rewrite Hn).
  assert (kids_ok {[c1 := x1]}) as Hk1 by (by apply map_Forall_singleton).
  assert (({[c1 := x1]} : kidmap) !! c2 = None) as Hnone by (by apply lookup_singleton_ne).
  destruct (add_child4_room h1 ks1 cs1 {[c1 := x1]} c2 x2 Ht Hf1 Hk1 Hc2 Hnone Hx2 ltac:(lia)) as (ks2 & cs2 & Ha2 & Hf2).
  do 6 eexists. split; [exact Ha1|]. split; [exact Ha2|]. split; [split; [by apply Kind4|by apply kids_ok_insert]|].
  split; [done|]. unfold occupancy. cbn [type set_num h1]. rewrite Ht. cbn [NODE4 Z.eqb Pos.eqb].
  rewrite map_size_insert_None, map_size_singleton by done. lia.
Qed.

Section tree.
Context (K : list Z → Prop) (HK : keyset K).

Lemma repr_pair π h ks cs q c1 c2 x1 x2 M1 M2 M :
  c1 ≠ c2 → node_repr h ks cs (<[c2 := x2]> {[c1 := x1]}) → prefix_repr h q →
  occupancy h (<[c2 := x2]> {[c1 := x1]}) →
  repr K (π ++ q ++ [c1]) x1 M1 → repr K (π ++ q ++ [c2]) x2 M2 →
  (∀ k, M !! k = match M2 !! k with Some v => Some v | None => M1 !! k end) →
  repr K π (Inner h ks cs) M.
Proof.
  intros Hne Hn Hq Ho Hr1 Hr2 HM.
  apply (repr_inner K π h ks cs (<[c2 := x2]> {[c1 := x1]}) q (λ c, if decide (c = c2) then M2 else M1)); [done|done|done| |].
  - intros c x [[<- <-]|[Hc Hx]]%lookup_insert_Some.
    + by rewrite decide_True.
    + apply lookup_singleton_Some in Hx as [<- <-]. by rewrite decide_False.
  - intros k. rewrite HM. unfold kids_lookup.
    assert (∀ v, M1 !! k = Some v → k !! length (π ++ q) = Some c1) as H1.
    { intros v Hv. apply path_byte. by eapply repr_key. }
    assert (∀ v, M2 !! k = Some v → k !! length (π ++ q) = Some c2) as H2.
    { intros v Hv. apply path_byte. by eapply repr_key. }
    destruct (M2 !! k) as [v2|] eqn:Hv2.
    { rewrite (H2 v2 eq_refl), lookup_insert_eq, decide_True by done. done. }
    destruct (M1 !! k) as [v1|] eqn:Hv1.
    { rewrite (H1 v1 eq_refl), lookup_insert_ne, lookup_singleton_eq, decide_False by done. done. }
    destruct (k !! _) as [c|]; [|done]. destruct (_ !! c); [|done]. by destruct (decide (c = c2)).
Qed.

(** A leaf that is replaced by a node with itself and a new leaf. *)
Lemma longest_common_prefix_spec π l1 l2 k1 k2 v1 v2 :
  K k1 → K k2 → k1 ≠ k2 → leaf_is l1 k1 v1 → leaf_is l2 k2 v2 → π `prefix_of` k1 → π `prefix_of` k2 →
  ∃ (j : nat) c1 c2, longest_common_prefix l1 l2 (Z.of_nat (length π)) = Done (Z.of_nat j) ∧
    k1 !! (length π + j)%nat = Some c1 ∧ k2 !! (length π + j)%nat = Some c2 ∧ c1 ≠ c2 ∧
    ∀ i, (i < j)%nat → k1 !! (length π + i)%nat = k2 !! (length π + i)%nat.
Proof.
  intros HK1 HK2 Hne (_ & Hl1 & t1 & Ht1) (_ & Hl2 & t2 & Ht2) Hp1 Hp2.
  pose proof (key_short K HK k1 HK1) as Hs1. pose proof (key_short K HK k2 HK2) as Hs2.
  pose proof (prefix_length _ _ Hp1) as Hle1. pose proof (prefix_length _ _ Hp2) as Hle2.
  unfold longest_common_prefix. rewrite Hl1, Hl2, art_min_spec by lia.
  set (max_cmp := Z.min _ _ - _).
  set (f1 := λ i, default 0 (k1 !! (length π + Z.to_nat i)%nat)).
  set (f2 := λ i, default 0 (k2 !! (length π + Z.to_nat i)%nat)).
  assert (∀ l k t i, leaf_key l = k ++ t → 0 ≤ i → (length π + Z.to_nat i < length k)%nat →
    uchar_at (leaf_key l) (Z.of_nat (length π) + i) = Done (default 0 (k !! (length π + Z.to_nat i)%nat))) as Hget.
  { intros l k t i -> Hi Hlt. destruct (lookup_lt_is_Some_2 k (length π + Z.to_nat i)) as [c Hc]; [lia|].
    rewrite Hc. apply buf_get_Some; [lia|]. apply lookup_app_l_Some.
    by replace (Z.to_nat (Z.of_nat (length π) + i)) with (length π + Z.to_nat i)%nat by lia. }
  destruct (mismatch_loop_run (λ i, uchar_at (leaf_key l1) (Z.of_nat (length π) + i))
    (λ i, uchar_at (leaf_key l2) (Z.of_nat (length π) + i)) f1 f2 max_cmp (S (length (leaf_key l1))) 0)
    as (r & Hrun & Hr & Heq & Hdiff).
  - intros i Hi. split; [apply (Hget l1 k1 t1); [done|lia|lia]|apply (Hget l2 k2 t2); [done|lia|lia]].
  - rewrite Ht1, length_app. lia.
  - assert (∀ i, (i < Z.to_nat r)%nat → k1 !! (length π + i)%nat = k2 !! (length π + i)%nat) as Hagree.
    { intros i Hi. specialize (Heq (Z.of_nat i) ltac:(lia)). unfold f1, f2 in Heq. rewrite Nat2Z.id in Heq.
      destruct (lookup_lt_is_Some_2 k1 (length π + i)) as [c1 H1]; [lia|].
      destruct (lookup_lt_is_Some_2 k2 (length π + i)) as [c2 H2]; [lia|].
      rewrite H1, H2 in *. cbn in Heq. by subst c2. }
    assert (∀ ka kb, π `prefix_of` ka → π `prefix_of` kb → (length ka ≤ length kb)%nat →
      (∀ i, (length π + i < length ka)%nat → ka !! (length π + i)%nat = kb !! (length π + i)%nat) →
      ka `prefix_of` kb) as Hwhole.
    { intros ka kb [ta ->] [tb ->] Hle Hall. apply prefix_app, prefix_by_lookup; [rewrite !length_app in Hle; lia|].
      intros i c1 c2 Ha Hb. specialize (Hall i). rewrite !lookup_app_r in Hall by lia.
      replace (length π + i - length π)%nat with i in Hall by lia. rewrite Ha, Hb in Hall.
      pose proof (lookup_lt_Some _ _ _ Ha). rewrite length_app in Hall. specialize (Hall ltac:(lia)). congruence. }
    destruct (Z.lt_ge_cases r max_cmp) as [Hlt|Hge].
    + destruct (lookup_lt_is_Some_2 k1 (length π + Z.to_nat r)) as [c1 H1]; [lia|].
      destruct (lookup_lt_is_Some_2 k2 (length π + Z.to_nat r)) as [c2 H2]; [lia|].
      exists (Z.to_nat r), c1, c2. rewrite Z2Nat.id by lia. split; [done|]. split; [done|]. split; [done|].
      split; [|done]. intros ->. apply (Hdiff Hlt). unfold f1, f2. by rewrite H1, H2.
    + exfalso. apply Hne. destruct (Nat.le_ge_cases (length k1) (length k2)) as [Hle|Hle].
      * apply (key_free K HK); [done|done|]. apply Hwhole; [done|done|done|]. intros i Hi. apply Hagree. lia.
      * symmetry. apply (key_free K HK); [done|done|]. apply Hwhole; [done|done|done|].
        intros i Hi. symmetry. apply Hagree. lia.
Qed.

Lemma path_prefix (π q k : list Z) c j :
  π `prefix_of` k → q = take j (drop (length π) k) → k !! (length π + j)%nat = Some c →
  (π ++ q ++ [c]) `prefix_of` k ∧ length q = j.
Proof.
  intros [t ->] -> Hc. rewrite drop_app_length. rewrite lookup_app_r in Hc by lia.
  replace (length π + j - length π)%nat with j in Hc by lia. pose proof (lookup_lt_Some _ _ _ Hc).
  split; [|rewrite length_take; lia]. apply prefix_app. rewrite <-(take_S_r _ _ _ Hc). apply prefix_take.
Qed.

Lemma is_byte_at k i c : K k → k !! i = Some c → is_byte c.
Proof.
  intros HKk Hc. exact (Forall_lookup_1 _ _ _ _ (nonul_bytes k (key_nonul K HK k HKk)) Hc).
Qed.

Lemma split_leaf_spec π l k0 v0 k v :
  K k0 → K k → k0 ≠ k → leaf_is l k0 v0 → π `prefix_of` k0 → π `prefix_of` k →
  ∃ n', split_leaf l (cstr k) (Z.of_nat (length k)) v (Z.of_nat (length π)) = Done n' ∧
    repr K π n' (<[k := v]> {[k0 := v0]}).
Proof.
  intros HK0 HKk Hne Hl Hp0 Hpk. pose proof (key_short K HK k HKk) as Hshort. unfold split_leaf.
  next_by alloc_node_4. cbn [partial].
  destruct (make_leaf_spec k v Hshort) as (l2 & Hmk & Hl2). next_by Hmk.
  destruct (longest_common_prefix_spec π l l2 k0 k v0 v HK0 HKk Hne Hl Hl2 Hp0 Hpk)
    as (j & c1 & c2 & Hlcp & H1 & H2 & Hc & Hagree).
  next_by Hlcp. set (q := take j (drop (length π) k)).
  destruct (path_prefix π q k c2 j Hpk eq_refl H2) as [Hpath2 Hlq].
  assert (q = take j (drop (length π) k0)) as Hq0.
  { unfold q. apply list_eq. intros i. destruct (decide (i < j)%nat).
    - rewrite !lookup_take_lt, !lookup_drop by done. symmetry. by apply Hagree.
    - rewrite !lookup_take_ge by lia. done. }
  destruct (path_prefix π q k0 c1 j Hp0 Hq0 H1) as [Hpath1 _].
  pose proof (lookup_lt_Some _ _ _ H2) as Hlt.
  destruct (store_prefix (Header NODE4 0 0 (replicate 10 0)) (replicate 10 0) (cstr k) (length π) q (Z.of_nat j))
    as (p' & Hcopy & Hrep); [done| |lia|lia|rewrite length_cstr; lia|].
  { unfold q. etrans; [apply prefix_take|]. etrans; [apply prefix_take|].
    unfold cstr. rewrite drop_app_le by lia. by apply prefix_app_r. }
  next_by Hcopy. cbv zeta. rewrite u32_small by lia.
  assert (∀ l k c v, leaf_is l k v → k !! (length π + j)%nat = Some c →
    uchar_at (leaf_key l) (Z.of_nat (length π) + Z.of_nat j) = Done c) as Hget.
  { intros l' k' c v' (_ & _ & t & Ht) Hk'. rewrite <-Nat2Z.inj_add. unfold uchar_at. rewrite Ht.
    apply buf_get_Some; [lia|]. rewrite Nat2Z.id. by apply lookup_app_l_Some. }
  next_by (Hget l k0 c1 v0 Hl H1).
  destruct (pair_node (set_prefix (Z.of_nat j) p' (Header NODE4 0 0 (replicate 10 0))) q c1 c2 (Leaf l) (Leaf l2))
    as (h1 & ks1 & cs1 & h2 & ks2 & cs2 & Ha1 & Ha2 & Hn & Hp & Ho);
    [done|done|done|exact (is_byte_at k0 _ _ HK0 H1)|exact (is_byte_at k _ _ HKk H2)|done|done|done|].
  next_by Ha1. next_by (Hget l2 k c2 v Hl2 H2). rewrite Ha2. eexists. split; [done|].
  eapply (repr_pair π h2 ks2 cs2 q c1 c2 (Leaf l) (Leaf l2)); [done|done|done|done|exact (repr_leaf K _ l k0 v0 HK0 Hl Hpath1)|
    exact (repr_leaf K _ l2 k v HKk Hl2 Hpath2)|].
  intros k'. destruct (decide (k' = k)) as [->|Hk'].
  - by rewrite lookup_insert_eq, lookup_singleton_eq.
  - by rewrite lookup_insert_ne, (lookup_singleton_ne k) by done.
Qed.
(** ** Splitting a prefix *)

Section inner.
Context {π h ks cs m p Ms M} (HI : inner K π h ks cs m p Ms M).

Notation HP := (in_prefix K _ _ _ _ _ _ _ _ HI).

(** The old node under its new parent: the byte it hangs under, and what is
    left of its prefix. *)
Lemma shorten_prefix r c1 :
  p !! r = Some c1 →
  ∃ p', (if partial_len h <=? MAX_PREFIX_LEN then
      c ← buf_get (partial h) (Z.of_nat r);
      let len := u32 (partial_len h - (Z.of_nat r + 1)) in
      p ← arr_move (partial h) 0 (Z.of_nat r + 1) (art_min MAX_PREFIX_LEN len);
      Done (c, set_prefix len p h)
    else
      let len := u32 (partial_len h - (Z.of_nat r + 1)) in
      l ← minimum_leaf (Inner h ks cs);
      c ← uchar_at (leaf_key l) (Z.of_nat (length π) + Z.of_nat r);
      p ← arr_copy (partial h) 0 (leaf_key l) (Z.of_nat (length π) + Z.of_nat r + 1) (art_min MAX_PREFIX_LEN len);
      Done (c, set_prefix len p h)) = Done (c1, set_prefix (Z.of_nat (length p - S r)) p' h) ∧
    prefix_repr (set_prefix (Z.of_nat (length p - S r)) p' h) (drop (S r) p).
Proof.
  intros Hc1. pose proof HP as (Hl10 & Hpl & Hpb & _). pose proof (lookup_lt_Some _ _ _ Hc1) as Hlt.
  rewrite Hpl. replace (u32 (Z.of_nat (length p) - (Z.of_nat r + 1))) with (Z.of_nat (length p - S r))
    by (rewrite u32_small; lia). cbv zeta.
  replace (Z.of_nat r + 1) with (Z.of_nat (S r)) by lia.
  change (Z.of_nat (length p) <=? MAX_PREFIX_LEN) with (Z.of_nat (length p) <=? 10).
  destruct (Z.leb_spec (Z.of_nat (length p)) 10) as [Hle|Hgt].
  - next_by (buf_get_Some (partial h) (Z.of_nat r) c1 ltac:(lia)
               ltac:(rewrite Nat2Z.id; by apply (prefix_repr_get h p); [apply HP|done|lia])).
    destruct (store_prefix h (partial h) (partial h) (S r) (drop (S r) p) (Z.of_nat (length p - S r)))
      as (p' & Hcopy & Hrep); [done| |rewrite length_drop; lia|by rewrite length_drop|lia|].
    { destruct (prefix_repr_split h p HP) as (t & -> & _). rewrite (take_ge p) by lia.
      rewrite drop_app_le by lia. etrans; [apply prefix_take|]. by apply prefix_app_r. }
    unfold arr_move. next_by Hcopy. by exists p'.
  - pose proof (inner_repr K _ _ _ _ _ _ _ _ HI) as Hr.
    destruct (minimum_leaf_spec K _ _ _ Hr) as (l & k1 & v & Hrun & (_ & Hkl & tail & Htail) & Hk1).
    pose proof (inner_prefix K HI k1 v Hk1) as [t Ht].
    assert (length π + S r ≤ length (leaf_key l))%nat as Hfit.
    { rewrite Htail, Ht, !length_app. lia. }
    next_by Hrun. unfold uchar_at.
    next_by (buf_get_Some (leaf_key l) (Z.of_nat (length π) + Z.of_nat r) c1 ltac:(lia)
      ltac:(rewrite <-Nat2Z.inj_add, Nat2Z.id, Htail, Ht, <-!app_assoc, lookup_app_r by lia;
            replace (length π + r - length π)%nat with r by lia; by apply lookup_app_l_Some)).
    destruct (store_prefix h (partial h) (leaf_key l) (length π + S r) (drop (S r) p) (Z.of_nat (length p - S r)))
      as (p' & Hcopy & Hrep); [done| |rewrite length_drop; lia|by rewrite length_drop|done|].
    { rewrite Htail, Ht, <-!app_assoc, <-drop_drop, drop_app_length, drop_app_le by lia.
      etrans; [apply prefix_take|]. by apply prefix_app_r. }
    replace (Z.of_nat (length π) + Z.of_nat r + 1) with (Z.of_nat (length π + S r)) by lia.
    next_by Hcopy. by exists p'.
Qed.

Lemma split_prefix_spec k v r c1 c2 :
  K k → π `prefix_of` k → p !! r = Some c1 → k !! (length π + r)%nat = Some c2 → c1 ≠ c2 →
  (∀ i a b, (i < r)%nat → p !! i = Some a → k !! (length π + i)%nat = Some b → a = b) →
  ∃ n', split_prefix h ks cs (cstr k) (Z.of_nat (length k)) v (Z.of_nat (length π)) (Z.of_nat r) = Done n' ∧
    repr K π n' (<[k := v]> M).
Proof.
  intros HKk Hpre Hc1 Hc2 Hne Hagree. pose proof (lookup_lt_Some _ _ _ Hc1) as Hlt.
  pose proof (lookup_lt_Some _ _ _ Hc2) as Hlt2. pose proof HP as (Hl10 & Hpl & Hpb & _).
  pose proof (key_short K HK k HKk) as Hshort.
  unfold split_prefix. next_by alloc_node_4. cbn [partial]. set (q := take r p).
  assert (length q = r) as Hlq by (unfold q; rewrite length_take; lia).
  destruct (store_prefix (Header NODE4 0 0 (replicate 10 0)) (replicate 10 0) (partial h) 0 q (Z.of_nat r))
    as (p' & Hcopy & Hrep); [done| |lia|lia|lia|].
  { destruct (prefix_repr_split h p HP) as (t & -> & _). rewrite drop_0. unfold q.
    rewrite take_take, Nat.min_comm, <-take_take. etrans; [apply prefix_take|]. by apply prefix_app_r. }
  change (Z.of_nat 0) with 0 in Hcopy. next_by Hcopy. cbv zeta. rewrite (u32_small (Z.of_nat r)) by lia.
  destruct (shorten_prefix r c1 Hc1) as (p2 & Hshorten & Hrep2). cbv zeta in Hshorten. next_by Hshorten.
  destruct (make_leaf_spec k v Hshort) as (l & Hmk & Hl).
  assert (is_byte c1) as Hb1 by exact (Forall_lookup_1 _ _ _ _ (inner_bytes K HK HI) Hc1).
  destruct (pair_node (set_prefix (Z.of_nat r) p' (Header NODE4 0 0 (replicate 10 0))) q c1 c2
    (Inner (set_prefix (Z.of_nat (length p - S r)) p2 h) ks cs) (Leaf l))
    as (h1 & ks1 & cs1 & h2 & ks2 & cs2 & Ha1 & Ha2 & Hn & Hp & Ho);
    [done|done|done|done|exact (is_byte_at k _ _ HKk Hc2)|done|done|done|].
  next_by Ha1. next_by Hmk. rewrite <-Nat2Z.inj_add. next_by (cstr_get k (length π + r) c2 Hc2).
  rewrite Ha2. eexists. split; [done|].
  assert (q = take r (drop (length π) k)) as Hq.
  { unfold q. apply list_eq. intros i. destruct (decide (i < r)%nat) as [Hi|Hi].
    - rewrite !lookup_take_lt, lookup_drop by done.
      destruct (lookup_lt_is_Some_2 p i) as [a Ha]; [lia|].
      destruct (lookup_lt_is_Some_2 k (length π + i)) as [b Hb]; [lia|].
      rewrite Ha, Hb. f_equal. by eapply Hagree.
    - rewrite !lookup_take_ge by lia. done. }
  destruct (path_prefix π q k c2 r Hpre Hq Hc2) as [Hpath _].
  assert (π ++ q ++ [c1] ++ drop (S r) p = π ++ p) as Hpath1.
  { f_equal. unfold q. cbn [app]. by apply take_drop_middle. }
  eapply (repr_pair π h2 ks2 cs2 q c1 c2 _ (Leaf l) M {[k := v]}); [done|done|done|done| | |].
  - apply (repr_inner K (π ++ q ++ [c1]) _ ks cs m (drop (S r) p) Ms M).
    + by eapply node_repr_header; [exact (in_node K _ _ _ _ _ _ _ _ HI)|..].
    + by eapply occupancy_header; [exact (in_occ K _ _ _ _ _ _ _ _ HI)|..].
    + done.
    + intros c x Hx. pose proof (in_kids K _ _ _ _ _ _ _ _ HI c x Hx) as Hkid.
      rewrite (app_assoc π p), <-Hpath1 in Hkid. rewrite <-!app_assoc in *. exact Hkid.
    + intros k'. rewrite <-!app_assoc, Hpath1. exact (in_map K _ _ _ _ _ _ _ _ HI k').
  - exact (repr_leaf K _ l k v HKk Hl Hpath).
  - intros k'. destruct (decide (k' = k)) as [->|Hk'].
    + by rewrite lookup_insert_eq, lookup_singleton_eq.
    + by rewrite lookup_insert_ne, (lookup_singleton_ne k) by done.
Qed.
End inner.

(** ** Changing one child *)

Lemma inner_update {π h ks cs m p Ms M} (HI : inner K π h ks cs m p Ms M) h' ks' cs' c x' Mc M' :
  node_repr h' ks' cs' (<[c := x']> m) → occupancy h' (<[c := x']> m) → prefix_repr h' p →
  repr K (π ++ p ++ [c]) x' Mc →
  (∀ k, M' !! k = if decide (k !! length (π ++ p) = Some c) then Mc !! k else M !! k) →
  repr K π (Inner h' ks' cs') M'.
Proof.
  intros Hn Ho Hp Hr HM'.
  apply (repr_inner K π h' ks' cs' (<[c := x']> m) p (λ c', if decide (c' = c) then Mc else Ms c')); [done|done|done| |].
  - intros c' x [[<- <-]|[Hne Hx]]%lookup_insert_Some.
    + by rewrite decide_True.
    + rewrite decide_False by done. by apply (in_kids K _ _ _ _ _ _ _ _ HI).
  - intros k. rewrite HM', (in_map K _ _ _ _ _ _ _ _ HI k). unfold kids_lookup.
    destruct (k !! _) as [c'|]; [|done]. destruct (decide (Some c' = Some c)) as [[= ->]|Hne].
    + by rewrite lookup_insert_eq, decide_True.
    + rewrite lookup_insert_ne by congruence. destruct (m !! c'); [|done]. rewrite decide_False by congruence. done.
Qed.

(** ** recursive_insert *)

Definition old_flag (M : kvmap) (k : list Z) : Z := match M !! k with Some _ => 1 | None => 0 end.

Definition inserts (π : list Z) (n : art_node) (M : kvmap) : Prop := ∀ k v (fuel : nat),
  K k → π `prefix_of` k → (length k - length π < fuel)%nat →
  ∃ n', recursive_insert fuel n (cstr k) (Z.of_nat (length k)) v (Z.of_nat (length π)) 0 =
          Done (n', find_result M k, old_flag M k) ∧ repr K π n' (<[k := v]> M).

Lemma insert_leaf π l k0 v0 :
  K k0 → leaf_is l k0 v0 → π `prefix_of` k0 → inserts π (Leaf l) {[k0 := v0]}.
Proof.
  intros HK0 Hl Hp0 k v [|fuel] HKk Hpre Hf; [lia|]. cbn [recursive_insert].
  destruct (leaf_matches_spec l k0 v0 k (Z.of_nat (length π)) Hl (key_short K HK k HKk)) as (r & Hr & Hiff).
  next_by Hr. unfold find_result, old_flag. destruct (Z.eqb_spec r 0) as [Hz|Hz].
  - apply Hiff in Hz as ->. rewrite lookup_singleton_eq. destruct Hl as (<- & Hkl & t & Ht).
    eexists. split; [done|]. rewrite insert_singleton_eq. apply repr_leaf; [done| |done].
    split; [done|]. split; [done|]. by exists t.
  - assert (k0 ≠ k) as Hne by (intros ->; by apply Hz, Hiff). rewrite lookup_singleton_ne by done.
    destruct (split_leaf_spec π l k0 v0 k v HK0 HKk Hne Hl Hp0 Hpre) as (n' & Hrun & Hr').
    next_by Hrun. by exists n'.
Qed.

Lemma repr_insert_size (m : kidmap) c x x' h : m !! c = Some x → occupancy h m → occupancy h (<[c := x']> m).
Proof. unfold occupancy. intros Hx. by rewrite map_size_insert, Hx. Qed.

(** The second half of an inner node: the child for the next byte. *)
Lemma insert_descend {π h ks cs m p Ms M} (HI : inner K π h ks cs m p Ms M) k v fuel :
  (∀ c x, m !! c = Some x → inserts (π ++ p ++ [c]) x (Ms c)) →
  K k → (π ++ p) `prefix_of` k → (length k - length π < S fuel)%nat →
  ∃ n', (c ← buf_get (cstr k) (Z.of_nat (length (π ++ p)));
         child ← find_child h ks cs c;
         match child with
         | Some i =>
             n ← arr_get cs i;
             '(n', r, old) ← recursive_insert fuel n (cstr k) (Z.of_nat (length k)) v
                               (Z.of_nat (length (π ++ p)) + 1) 0;
             cs ← arr_set cs i n';
             Done (Inner h ks cs, r, old)
         | None =>
             l ← make_leaf (cstr k) (Z.of_nat (length k)) v;
             n' ← add_child h ks cs c (Leaf l);
             Done (n', 0, 0)
         end) = Done (n', find_result M k, old_flag M k) ∧ repr K π n' (<[k := v]> M).
Proof.
  intros IH HKk Hpre Hf. pose proof (prefix_length _ _ Hpre) as Hle.
  assert (length k ≠ length (π ++ p)) as Hne.
  { intros Heq. apply (inner_no_key_above K HK HI k (π ++ p) HKk); [done|]. destruct Hpre as [t ->].
    rewrite length_app in Heq. destruct t; [by rewrite app_nil_r|cbn in Heq; lia]. }
  destruct (lookup_lt_is_Some_2 k (length (π ++ p))) as [c Hc]; [lia|].
  pose proof (is_byte_at k _ c HKk Hc) as Hb. next_by (cstr_get k _ c Hc).
  assert ((π ++ p ++ [c]) `prefix_of` k) as Hpath.
  { destruct Hpre as [t ->]. rewrite lookup_app_r, Nat.sub_diag in Hc by lia. destruct t as [|c' t]; [done|].
    injection Hc as ->. exists t. by rewrite <-!app_assoc. }
  pose proof (find_child_spec h ks cs m c (in_node K _ _ _ _ _ _ _ _ HI) Hb) as Hfind.
  pose proof (in_map K _ _ _ _ _ _ _ _ HI k) as HMk. unfold kids_lookup in HMk. rewrite Hc in HMk.
  assert (length (π ++ p ++ [c]) = S (length (π ++ p))) as Hlen.
  { rewrite (app_assoc π), (length_app (π ++ p)). cbn. lia. }
  assert (length π ≤ length (π ++ p))%nat as Hpi by (rewrite length_app; lia).
  destruct (m !! c) as [x|] eqn:Hx.
  - destruct Hfind as (i & Hi & Hi0 & Hcs & _ & Hrepl). next_by Hi. next_by (arr_get_Some cs i x Hi0 Hcs).
    destruct (IH c x Hx k v fuel HKk Hpath ltac:(lia)) as (n' & Hrun & Hr').
    replace (Z.of_nat (length (π ++ p)) + 1) with (Z.of_nat (length (π ++ p ++ [c]))) by lia.
    next_by Hrun. apply lookup_lt_Some in Hcs. next_by (arr_set_Some cs i n' ltac:(lia)).
    eexists. split; [unfold find_result, old_flag; by rewrite HMk|].
    assert (n' ≠ Null) as Hnn by (intros ->; by apply repr_not_null in Hr').
    eapply (inner_update HI _ _ _ c n' (<[k := v]> (Ms c))); [by apply Hrepl| |exact (in_prefix K _ _ _ _ _ _ _ _ HI)|done|].
    + eapply repr_insert_size; [done|]. exact (in_occ K _ _ _ _ _ _ _ _ HI).
    + intros k'. destruct (decide (k' = k)) as [->|Hk'].
      * by rewrite decide_True, !lookup_insert_eq.
      * rewrite !lookup_insert_ne by done. destruct (decide _) as [Hd|]; [|done].
        rewrite (in_map K _ _ _ _ _ _ _ _ HI k'). unfold kids_lookup. by rewrite Hd, Hx.
  - next_by Hfind. destruct (make_leaf_spec k v (key_short K HK k HKk)) as (l & Hmk & Hl). next_by Hmk.
    destruct (add_child_spec h ks cs m c (Leaf l) p (in_node K _ _ _ _ _ _ _ _ HI) Hb Hx ltac:(done)
                (in_prefix K _ _ _ _ _ _ _ _ HI)) as (h' & ks' & cs' & Hadd & Hn' & Hp' & Ho').
    next_by Hadd. eexists. split; [unfold find_result, old_flag; by rewrite HMk|].
    eapply (inner_update HI _ _ _ c (Leaf l) {[k := v]}); [done| | |exact (repr_leaf K _ l k v HKk Hl Hpath)|].
    + apply Ho'. pose proof (in_occ K _ _ _ _ _ _ _ _ HI) as Ho. unfold occupancy in *.
      rewrite map_size_insert_None by done. repeat (destruct (_ =? _)); lia.
    + apply Hp', (in_prefix K _ _ _ _ _ _ _ _ HI).
    + intros k'. destruct (decide (k' = k)) as [->|Hk'].
      * by rewrite decide_True, lookup_singleton_eq, lookup_insert_eq.
      * rewrite lookup_insert_ne, lookup_singleton_ne by done. destruct (decide _) as [Hd|]; [|done].
        rewrite (in_map K _ _ _ _ _ _ _ _ HI k'). unfold kids_lookup. by rewrite Hd, Hx.
Qed.

Lemma recursive_insert_spec π n M : repr K π n M → inserts π n M.
Proof.
  induction 1 as [π l k0 v0 HK0 Hl Hp0|π h ks cs m p Ms M Hn Ho Hp Hkids IH HM]; [by apply insert_leaf|].
  intros k v [|fuel] HKk Hpre Hf; [lia|]. cbn [recursive_insert]. cbv zeta.
  assert (inner K π h ks cs m p Ms M) as HI by done.
  pose proof (insert_descend HI k v fuel IH HKk) as Hdesc.
  rewrite (partial_len_zero h p Hp). destruct (decide (p = [])) as [->|Hne].
  - rewrite bool_decide_eq_true_2 by done. cbn [negb]. rewrite app_nil_r in Hdesc. by apply Hdesc.
  - rewrite bool_decide_eq_false_2 by done. cbn [negb].
    destruct (prefix_mismatch_spec K HK HI k HKk Hpre) as (r & Hrun & Hr & Hagree & Hdiff & Hall).
    next_by Hrun. pose proof Hp as (_ & Hpl & _). pose proof (key_short K HK k HKk).
    rewrite Hpl, u32_small by lia. destruct (Z.leb_spec (Z.of_nat (length p)) (Z.of_nat r)) as [Hle|Hgt].
    + pose proof (inner_length K HK HI) as Hlen.
      replace (s32 (Z.of_nat (length π) + Z.of_nat (length p))) with (Z.of_nat (length (π ++ p)))
        by (rewrite length_app in *; rewrite s32_small; lia).
      apply Hdesc; [apply Hall; lia|done].
    + destruct (Hdiff ltac:(lia)) as (c1 & c2 & H1 & H2 & Hc).
      destruct (split_prefix_spec HI k v r c1 c2 HKk Hpre H1 H2 Hc Hagree) as (n' & Hsplit & Hr').
      next_by Hsplit. exists n'. split; [|done].
      assert (M !! k = None) as HMk.
      { destruct (M !! k) as [w|] eqn:Hw; [|done]. exfalso. apply Hc.
        pose proof (inner_prefix K HI k w Hw) as Hpk. apply prefix_drop in Hpk.
        pose proof (prefix_lookup_some _ _ _ _ Hpk H1) as H1'. rewrite lookup_drop in H1'. congruence. }
      unfold find_result, old_flag. by rewrite HMk.
Qed.
End tree.
End insert.
