(* ===== verification/ArtDelete.v ===== *)
(** * ArtDelete: art_delete is deletion from the map

    Removing a leaf from its node, with the collapse of a node that is left
    with one child, and descending. *)

From S2P Require Import Prelude.
From S2P Require Import Critbit.
From S2P Require Import MapSpec.
From S2P Require Import Art.
From S2P Require Import ArtArrays.
From S2P Require Import ArtNodes.
From S2P Require Import ArtAdd.
From S2P Require Import ArtRemove.
From S2P Require Import ArtPrefix.
From S2P Require Import ArtTree.
From S2P Require Import ArtInsert.

Section tree.
Context {AA : ArtAlloc} {AT : ArtAllocTotal AA}.
Context (K : list Z → Prop) (HK : keyset K).

(** The only child left takes the place of its parent. *)
Lemma repr_collapse π h p c x M :
  prefix_repr h p → repr K (π ++ p ++ [c]) x M →
  ∃ n', collapse h c x = Done n' ∧ repr K π n' M.
Proof.
  intros Hp Hr. inversion Hr as [π' l k v HKk Hl Hpre|π' h1 ks1 cs1 m1 p1 Ms1 M1 Hn1 Ho1 Hp1 Hkids1 HM1]; subst.
  - exists (Leaf l). split; [done|]. apply repr_leaf; [done|done|]. etrans; [|exact Hpre]. by apply prefix_app_r.
  - assert (inner K (π ++ p ++ [c]) h1 ks1 cs1 m1 p1 Ms1 M) as HI by done.
    pose proof (inner_length K HK HI) as Hlen. rewrite !length_app in Hlen. cbn [length] in Hlen.
    destruct (join_prefix_spec h c h1 p p1 Hp Hp1 ltac:(lia)) as (h2 & Hjoin & Hp2 & Ht & Hn).
    cbn [collapse]. next_by Hjoin. eexists. split; [done|].
    assert (∀ q : list Z, (π ++ p ++ [c]) ++ p1 ++ q = π ++ (p ++ c :: p1) ++ q) as Happ.
    { intros q. by rewrite <-!app_assoc. }
    apply (repr_inner K π h2 ks1 cs1 m1 (p ++ c :: p1) Ms1 M).
    + by eapply node_repr_header.
    + by eapply occupancy_header.
    + done.
    + intros c' x' Hx'. rewrite <-Happ. by apply Hkids1.
    + intros k. rewrite HM1. specialize (Happ []). rewrite !app_nil_r in Happ. by rewrite Happ.
Qed.

(** What is left of an inner node when the child under [c] goes. *)
Lemma inner_remove {π h ks cs m p Ms M} (HI : inner K π h ks cs m p Ms M) c M' o :
  removed h m c o →
  (∀ k, M' !! k = if decide (k !! length (π ++ p) = Some c) then None else M !! k) →
  ∃ n', o = Done n' ∧ repr K π n' M'.
Proof.
  intros [(h' & ks' & cs' & -> & Hn & Hp & Ho)|(c1 & x1 & Hm & ->)] HM'.
  - eexists. split; [done|]. apply (repr_inner K π h' ks' cs' (delete c m) p Ms M'); [done|done| | |].
    + apply Hp, (in_prefix K _ _ _ _ _ _ _ _ HI).
    + intros c' x [_ Hx]%lookup_delete_Some. by apply (in_kids K _ _ _ _ _ _ _ _ HI).
    + intros k. rewrite HM', (in_map K _ _ _ _ _ _ _ _ HI k). unfold kids_lookup.
      destruct (k !! _) as [c'|]; [|done]. destruct (decide (Some c' = Some c)) as [[= ->]|Hne].
      * by rewrite lookup_delete_eq.
      * by rewrite lookup_delete_ne by congruence.
  - assert (m !! c1 = Some x1 ∧ c ≠ c1) as [Hx1 Hne].
    { assert (delete c m !! c1 = Some x1) as H1 by (rewrite Hm; apply lookup_singleton_eq).
      by apply lookup_delete_Some in H1 as [? ?]. }
    pose proof (in_kids K _ _ _ _ _ _ _ _ HI c1 x1 Hx1) as Hr1.
    assert (M' = Ms c1) as ->.
    { apply map_eq. intros k. rewrite HM', (in_map K _ _ _ _ _ _ _ _ HI k). unfold kids_lookup.
      assert (∀ v, Ms c1 !! k = Some v → k !! length (π ++ p) = Some c1) as Hbyte.
      { intros v Hv. apply path_byte. by eapply repr_key. }
      destruct (k !! _) as [c'|].
      - destruct (decide (Some c' = Some c)) as [[= ->]|Hne'].
        + destruct (Ms c1 !! k) as [v|]; [|done]. specialize (Hbyte v eq_refl). congruence.
        + destruct (decide (c' = c1)) as [->|Hne1]; [by rewrite Hx1|].
          assert (m !! c' = None) as ->.
          { assert (delete c m !! c' = None) as Hd by (rewrite Hm; by apply lookup_singleton_ne).
            by rewrite lookup_delete_ne in Hd by congruence. }
          destruct (Ms c1 !! k) as [v|]; [|done]. specialize (Hbyte v eq_refl). congruence.
      - rewrite decide_False by done. destruct (Ms c1 !! k) as [v|]; [|done]. by specialize (Hbyte v eq_refl). }
    apply (repr_collapse π h p c1 x1); [exact (in_prefix K _ _ _ _ _ _ _ _ HI)|done].
Qed.

(** ** recursive_delete, below the root *)

Definition deletes (π : list Z) (n : art_node) (M : kvmap) : Prop := ∀ k (fuel : nat),
  K k → (length π ≤ length k)%nat → (length k - length π < fuel)%nat → IS_LEAF n = false →
  ∃ n' lo, recursive_delete fuel n (cstr k) (Z.of_nat (length k)) (Z.of_nat (length π)) = Done (n', lo) ∧
    value <$> lo = M !! k ∧ repr K π n' (delete k M).

Lemma delete_descend {π h ks cs m p Ms M} (HI : inner K π h ks cs m p Ms M) k fuel :
  (∀ c x, m !! c = Some x → deletes (π ++ p ++ [c]) x (Ms c)) →
  K k → (length (π ++ p) ≤ length k)%nat → (length k - length π < S fuel)%nat →
  ∃ n' lo, (c ← buf_get (cstr k) (Z.of_nat (length (π ++ p)));
         child ← find_child h ks cs c;
         match child with
         | None => Done (Inner h ks cs, None)
         | Some i =>
             x ← arr_get cs i;
             match x with
             | Leaf l =>
                 m ← leaf_matches l (cstr k) (Z.of_nat (length k)) (Z.of_nat (length (π ++ p)));
                 if m =? 0 then n' ← remove_child h ks cs c i; Done (n', Some l)
                 else Done (Inner h ks cs, None)
             | _ =>
                 '(x', l) ← recursive_delete fuel x (cstr k) (Z.of_nat (length k)) (Z.of_nat (length (π ++ p)) + 1);
                 cs ← arr_set cs i x';
                 Done (Inner h ks cs, l)
             end
         end) = Done (n', lo) ∧ value <$> lo = M !! k ∧ repr K π n' (delete k M).
Proof.
  intros IH HKk Hle Hf. destruct (inner_step K HK HI k HKk Hle) as (c & Hc & Hb & Hstep). next_by Hc.
  pose proof (find_child_spec h ks cs m c (in_node K _ _ _ _ _ _ _ _ HI) Hb) as Hfind.
  assert (M !! k = None → repr K π (Inner h ks cs) (delete k M)) as Hsame.
  { intros Hn. rewrite delete_id by done. by apply inner_repr in HI. }
  destruct (m !! c) as [x|] eqn:Hx.
  2: { next_by Hfind. exists (Inner h ks cs), None. by split; [|split; [rewrite Hstep|apply Hsame]]. }
  destruct Hfind as (i & Hi & Hfound). next_by Hi. pose proof Hfound as (Hi0 & Hcs & _ & Hrepl).
  next_by (arr_get_Some cs i x Hi0 Hcs). destruct Hstep as [Hkc HMk].
  pose proof (in_kids K _ _ _ _ _ _ _ _ HI c x Hx) as Hkid.
  assert (length (π ++ p ++ [c]) = S (length (π ++ p))) as Hlen.
  { rewrite (app_assoc π), (length_app (π ++ p)). cbn. lia. }
  assert (length π ≤ length (π ++ p))%nat as Hpi by (rewrite length_app; lia).
  pose proof (lookup_lt_Some _ _ _ Hkc) as Hkl.
  destruct x as [|l|h1 ks1 cs1|]; [by apply repr_not_null in Hkid| | |inversion Hkid].
  - (* a leaf: removed here when it is the key's *)
    inversion Hkid as [π' l' k0 v0 HK0 Hl Hpre HMc|]; subst.
    destruct (leaf_matches_spec l k0 v0 k (Z.of_nat (length (π ++ p))) Hl (key_short K HK k HKk)) as (r & Hr & Hiff).
    next_by Hr. rewrite <-H0 in HMk. destruct (Z.eqb_spec r 0) as [Hz|Hz].
    + apply Hiff in Hz as ->. rewrite lookup_singleton_eq in HMk.
      pose proof (remove_child_spec h ks cs m c (Leaf l) i p (in_node K _ _ _ _ _ _ _ _ HI)
        (in_occ K _ _ _ _ _ _ _ _ HI) (in_prefix K _ _ _ _ _ _ _ _ HI) Hx Hfound) as Hrem.
      destruct (inner_remove HI c (delete k M) _ Hrem) as (n' & Hrun & Hr').
      { intros k'. destruct (decide (k' = k)) as [->|Hne].
        - by rewrite lookup_delete_eq, decide_True.
        - rewrite lookup_delete_ne by done. destruct (decide _) as [Hd|]; [|done].
          rewrite (in_map K _ _ _ _ _ _ _ _ HI k'). unfold kids_lookup. rewrite Hd, Hx, <-H0.
          by rewrite lookup_singleton_ne. }
      next_by Hrun. exists n', (Some l). split; [done|]. split; [|done]. rewrite HMk. by destruct Hl as [<- _].
    + exists (Inner h ks cs), None. assert (k0 ≠ k) as Hne by (intros ->; by apply Hz, Hiff).
      rewrite lookup_singleton_ne in HMk by done. by split; [|split; [rewrite HMk|apply Hsame]].
  - (* a node: deleted below *)
    destruct (IH c _ Hx k fuel HKk ltac:(lia) ltac:(lia) eq_refl) as (x' & lo & Hrun & Hlo & Hr').
    replace (Z.of_nat (length (π ++ p)) + 1) with (Z.of_nat (length (π ++ p ++ [c]))) by lia.
    next_by Hrun. apply lookup_lt_Some in Hcs. next_by (arr_set_Some cs i x' ltac:(lia)).
    do 2 eexists. split; [done|]. split; [by rewrite Hlo, HMk|].
    assert (x' ≠ Null) as Hnn by (intros ->; by apply repr_not_null in Hr').
    eapply (inner_update K HI _ _ _ c x' (delete k (Ms c))); [by apply Hrepl| |exact (in_prefix K _ _ _ _ _ _ _ _ HI)|done|].
    + eapply repr_insert_size; [done|]. exact (in_occ K _ _ _ _ _ _ _ _ HI).
    + intros k'. destruct (decide (k' = k)) as [->|Hk'].
      * by rewrite decide_True, !lookup_delete_eq.
      * rewrite !lookup_delete_ne by done. destruct (decide _) as [Hd|]; [|done].
        rewrite (in_map K _ _ _ _ _ _ _ _ HI k'). unfold kids_lookup. by rewrite Hd, Hx.
Qed.

Lemma recursive_delete_spec π n M : repr K π n M → deletes π n M.
Proof.
  induction 1 as [π l k0 v0 HK0 Hl Hp0|π h ks cs m p Ms M Hn Ho Hp Hkids IH HM];
    intros k [|fuel] HKk Hle Hf Hleaf; [lia|done|lia|]. cbn [recursive_delete]. cbv zeta.
  assert (inner K π h ks cs m p Ms M) as HI by done.
  pose proof (delete_descend HI k fuel IH HKk) as Hdesc.
  rewrite (partial_len_zero h p Hp). destruct (decide (p = [])) as [->|Hne].
  - rewrite bool_decide_eq_true_2 by done. cbn [negb]. rewrite app_nil_r in Hdesc. by apply Hdesc.
  - rewrite bool_decide_eq_false_2 by done. cbn [negb].
    destruct (check_prefix_spec h p k (length π) Hp (inner_bytes K HK HI) (key_nonul K HK k HKk)
                (key_short K HK k HKk) Hle) as (r & Hr & Hiff).
    next_by Hr. destruct (Z.eqb_spec r (art_min MAX_PREFIX_LEN (partial_len h))) as [Heq|Hneq]; cbn [negb].
    + pose proof (inner_fits K HK HI k HKk Hle (proj1 Hiff Heq)) as Hfit.
      pose proof (inner_length K HK HI) as Hlen. pose proof Hp as (_ & Hpl & _).
      replace (s32 (Z.of_nat (length π) + partial_len h)) with (Z.of_nat (length (π ++ p)))
        by (rewrite Hpl, length_app in *; rewrite s32_small; lia).
      by apply Hdesc.
    + exists (Inner h ks cs), None. split; [done|].
      assert (M !! k = None) as HMk.
      { destruct (M !! k) as [v|] eqn:Hk; [|done]. exfalso. apply Hneq, Hiff.
        apply (inner_prefix K HI), prefix_drop in Hk. etrans; [|exact Hk]. apply prefix_take. }
      split; [by rewrite HMk|]. rewrite delete_id by done. by apply inner_repr in HI.
Qed.
End tree.
