(* ===== verification/ArtMap.v ===== *)
(** * ArtMap: art.c implements helper.h

    [tree_repr K t M]: the tree [t] represents the map [M], whose keys are in
    the key set [K].  The public operations as operations on [M], and the
    functions at the end of art.c as an instance of MapSpec: values are not
    null, and after [clear] the object must not be used again.  Without enough
    memory an operation is undefined or does the same. *)

From S2P Require Import Prelude.
From S2P Require Import Critbit.
From S2P Require Import MapSpec.
From S2P Require Import Art.
From S2P Require Import ArtArrays.
From S2P Require Import ArtNodes.
From S2P Require Import ArtAdd.
From S2P Require Import ArtPrefix.
From S2P Require Import ArtTree.
From S2P Require Import ArtInsert.
From S2P Require Import ArtDelete.

(** ** destroy_node returns *)

Lemma first_children_spec (cs : list art_node) n :
  (n ≤ length cs)%nat → first_children n cs = Done (take n cs).
Proof.
  revert cs. induction n as [|n IH]; intros cs Hn; [done|]. destruct cs as [|x cs]; [cbn in Hn; lia|].
  cbn [first_children]. by next_by (IH cs ltac:(cbn in Hn; lia)).
Qed.

Lemma destroy_children_spec h ks cs m :
  node_repr h ks cs m → ∃ l, destroy_children h cs = Done l ∧
    Forall (λ x, x = Null ∨ ∃ c i, m !! c = Some x ∧ cs !! i = Some x) l.
Proof.
  intros [Hkind Hkids]. unfold destroy_children.
  destruct Hkind as [Ht Hr|Ht Hr|Ht Hr|Ht Hr]; rewrite Ht; cbn [NODE4 NODE16 NODE48 NODE256 Z.eqb Pos.eqb orb].
  1,2: pose proof (flat_size _ _ _ _ _ Hr) as Hn; destruct Hr as (kl & rk & rc & -> & -> & Hn' & _ & Hlc & Hnd & ->);
    rewrite length_app, length_fmap in Hlc; rewrite Hn', Nat2Z.id, first_children_spec
      by (rewrite length_app, length_fmap; lia);
    rewrite take_app_length' by (by rewrite length_fmap); eexists; (split; [done|]);
    apply Forall_lookup_2; intros i x Hi; right; pose proof Hi as Hi'; rewrite list_lookup_fmap in Hi;
    destruct (kl !! i) as [[c y]|] eqn:Hkl; [|done]; injection Hi as ->; exists c, i;
    (split; [by eapply list_to_map_kl_lookup|by apply lookup_app_l_Some]).
  - rewrite (ix_num _ _ _ _ Hr), Nat2Z.id, first_children_spec
      by (rewrite (ix_slots _ _ _ _ Hr); apply (ix_size _ _ _ _ Hr)).
    eexists. split; [done|]. apply Forall_lookup_2. intros i x Hi. apply lookup_take_Some in Hi as [Hi _].
    destruct (is_null x) eqn:Hx; [left; by destruct x|]. right.
    destruct (ix_used _ _ _ _ Hr i x Hi) as (c & Hc & Hk); [by intros ->|]. exists c, i. split; [|done].
    destruct (ix_lookup _ _ _ _ Hr c _ ltac:(lia) Hk) as [[Hz _]|(_ & y & Hy & Hcs)]; [lia|].
    replace (Z.to_nat (Z.of_nat i + 1 - 1)) with i in Hcs by lia. congruence.
  - destruct Hr as (Hlen & _ & Hlook). eexists. split; [done|]. apply Forall_forall.
    intros x [_ Hin]%list_elem_of_filter. apply list_elem_of_lookup in Hin as [i Hi].
    pose proof (lookup_lt_Some _ _ _ Hi). pose proof (Hlook (Z.of_nat i) ltac:(lia)) as Hl.
    rewrite Nat2Z.id, Hi in Hl. injection Hl as Hl. destruct (m !! Z.of_nat i) as [y|] eqn:Hy; cbn in Hl.
    + right. subst y. by exists (Z.of_nat i), i.
    + by left.
Qed.

Section tree.
Context {AA : ArtAlloc} {AT : ArtAllocTotal AA}.
Context (K : list Z → Prop) (HK : keyset K).

Lemma destroy_node_total π n M : repr K π n M → ∀ fuel, (height n < fuel)%nat → ∃ k, destroy_node fuel n = Done k.
Proof.
  induction 1 as [π l k0 v0 HK0 Hl Hp0|π h ks cs m p Ms M Hn Ho Hp Hkids IH HM]; intros [|fuel] Hf; [lia|by eexists|lia|].
  cbn [destroy_node]. destruct (destroy_children_spec h ks cs m Hn) as (l & Hl & Hall). next_by Hl.
  assert (∃ k, destroy_loop (destroy_node fuel) l = Done k) as [k Hk]; [|next_by Hk; by eexists].
  clear Hl. induction Hall as [|x l Hx Hall IHl]; [by eexists|]. cbn [destroy_loop].
  assert (∃ k, destroy_node fuel x = Done k) as [k1 Hk1].
  { destruct Hx as [->|(c & i & Hc & Hi)].
    - destruct fuel; [cbn in Hf; lia|]. by eexists.
    - apply (height_child h ks) in Hi. apply (IH c x Hc). lia. }
  next_by Hk1. destruct IHl as [k2 Hk2]. next_by Hk2. by eexists.
Qed.

(** ** The public operations *)

Definition tree_repr (t : art_tree) (M : kvmap) : Prop :=
  size t = u64 (Z.of_nat (base.size M)) ∧ (root t = Null ∧ M = ∅ ∨ repr K [] (root t) M).

Lemma init_art_tree_repr : tree_repr init_art_tree ∅.
Proof. split; [done|]. by left. Qed.

Lemma art_search_spec t M k :
  tree_repr t M → K k → art_search t (cstr k) (Z.of_nat (length k)) = Done (find_result M k).
Proof.
  intros [_ [[Hroot ->]|Hr]] HKk; unfold art_search.
  - by rewrite Hroot.
  - apply (search_loop_spec K HK [] (root t) M Hr); [done|cbn; lia|rewrite length_cstr; cbn; lia].
Qed.

Lemma art_insert_spec t M k v :
  tree_repr t M → K k →
  ∃ t', art_insert t (cstr k) (Z.of_nat (length k)) v = Done (t', find_result M k) ∧ tree_repr t' (<[k := v]> M).
Proof.
  intros [Hsz Hroot] HKk.
  assert (∃ n', recursive_insert (S (S (length (cstr k)))) (root t) (cstr k) (Z.of_nat (length k)) v 0 0 =
    Done (n', find_result M k, old_flag M k) ∧ repr K [] n' (<[k := v]> M)) as (n' & Hrun & Hr).
  { destruct Hroot as [[-> ->]|Hr].
    - cbn [recursive_insert]. destruct (make_leaf_spec k v (key_short K HK k HKk)) as (l & Hmk & Hl).
      next_by Hmk. eexists. split; [done|]. apply repr_leaf; [done|done|]. apply prefix_nil.
    - apply (recursive_insert_spec K HK [] (root t) M Hr k v); [done|apply prefix_nil|rewrite length_cstr; cbn; lia]. }
  unfold art_insert. next_by Hrun. eexists. split; [done|]. split; [|by right].
  cbn [size]. unfold old_flag. destruct (M !! k) as [w|] eqn:Hk; cbn [Z.eqb].
  - by rewrite Hsz, map_size_insert, Hk.
  - rewrite Hsz, u64_add_u64, map_size_insert_None by done. f_equal. lia.
Qed.

Lemma art_delete_spec t M k :
  tree_repr t M → K k →
  ∃ t', art_delete t (cstr k) (Z.of_nat (length k)) = Done (t', find_result M k) ∧ tree_repr t' (delete k M).
Proof.
  intros [Hsz Hroot] HKk.
  assert (∃ n' lo, recursive_delete (S (S (length (cstr k)))) (root t) (cstr k) (Z.of_nat (length k)) 0 =
    Done (n', lo) ∧ value <$> lo = M !! k ∧ (n' = Null ∧ delete k M = ∅ ∨ repr K [] n' (delete k M)))
    as (n' & lo & Hrun & Hlo & Hr).
  { destruct Hroot as [[-> ->]|Hr].
    - exists Null, None. split; [done|]. split; [done|]. left. by rewrite delete_empty.
    - destruct (IS_LEAF (root t)) eqn:Hleaf.
      + inversion Hr as [π l k0 v0 HK0 Hl Hp0 Hpi Hn HM|π h ks cs m p Ms M' Hn Ho Hp Hkids HM Hpi Hroot]; subst.
        2: { by rewrite <-Hroot in Hleaf. }
        cbn [recursive_delete].
        destruct (leaf_matches_spec l k0 v0 k 0 Hl (key_short K HK k HKk)) as (r & Hmr & Hiff).
        next_by Hmr. destruct (Z.eqb_spec r 0) as [Hz|Hz].
        * apply Hiff in Hz as ->. exists Null, (Some l). split; [done|].
          rewrite lookup_singleton_eq, delete_singleton_eq. split; [by destruct Hl as [<- _]|by left].
        * assert (k0 ≠ k) as Hne by (intros ->; by apply Hz, Hiff).
          exists (Leaf l), None. split; [done|]. rewrite lookup_singleton_ne, delete_singleton_ne by done.
          split; [done|]. right. by apply repr_leaf.
      + destruct (recursive_delete_spec K HK [] (root t) M Hr k (S (S (length (cstr k))))) as (n' & lo & Hrun & Hlo & Hr');
          [done|cbn; lia|rewrite length_cstr; cbn; lia|done|].
        exists n', lo. split; [done|]. split; [done|]. by right. }
  unfold art_delete. next_by Hrun. unfold find_result. rewrite <-Hlo.
  destruct lo as [l|]; cbn [fmap option_fmap option_map default from_option id]; (eexists; split; [done|]);
    (split; [|done]); cbn [size]; cbn in Hlo.
  - assert (base.size M = S (base.size (delete k M))) as Hs.
    { rewrite <-(map_size_insert_None k (value l) (delete k M)) by apply lookup_delete_eq.
      by rewrite insert_delete_id. }
    rewrite Hsz, u64_sub_u64. f_equal. lia.
  - by rewrite delete_id.
Qed.
End tree.

(** ** When memory runs out

    art.c does not check what calloc and malloc return: a call that is refused
    memory stores through a null pointer, and one that is not does the same as
    with memory for everything.  [stops o o']: [o] is [o'], or undefined. *)
Section memory.
Context (AA : ArtAlloc).

Definition enough_memory : ArtAlloc := {|
  calloc_node := λ _, true;
  malloc_leaf := Some (default [] malloc_leaf);
|}.

#[local] Instance enough_total : ArtAllocTotal enough_memory.
Proof. split; [done|by eexists]. Qed.

Definition stops {B} (o o' : outcome B) : Prop := o = Undef ∨ o = o'.

Lemma stops_refl {B} (o : outcome B) : stops o o.
Proof. by right. Qed.

Lemma stops_bind {B C} (o o' : outcome B) (k k' : B → outcome C) :
  stops o o' → (∀ b, stops (k b) (k' b)) → stops (o ≫= k) (o' ≫= k').
Proof. intros [-> | ->] Hk; [by left|]. destruct o'; cbn; [apply Hk|by right..]. Qed.

Create HintDb stops.

(** Both sides take the same branches. *)
Ltac by_stops := cbv zeta; repeat first
  [ match goal with
    | |- stops ?o ?o' => constr_eq o o'; apply stops_refl
    | |- stops (_ ≫= _) (_ ≫= _) => apply stops_bind; [|intros ?]
    | |- stops (match ?x with _ => _ end) (match ?x with _ => _ end) => destruct x
    end
  | progress auto with stops nocore ].

Lemma alloc_node_stops t : stops (@alloc_node AA t) (@alloc_node enough_memory t).
Proof.
  unfold alloc_node. cbn [calloc_node enough_memory]. destruct (@calloc_node AA t); [by right|].
  by left; repeat case_match.
Qed.

Lemma make_leaf_stops k l v : stops (@make_leaf AA k l v) (@make_leaf enough_memory k l v).
Proof. unfold make_leaf. cbn [malloc_leaf enough_memory]. destruct malloc_leaf; [by right|by left]. Qed.
#[local] Hint Resolve alloc_node_stops make_leaf_stops : stops.

Lemma add_child48_stops h ks cs c x : stops (@add_child48 AA h ks cs c x) (@add_child48 enough_memory h ks cs c x).
Proof. unfold add_child48. by_stops. Qed.
#[local] Hint Resolve add_child48_stops : stops.

Lemma add_child16_stops h ks cs c x : stops (@add_child16 AA h ks cs c x) (@add_child16 enough_memory h ks cs c x).
Proof. unfold add_child16. by_stops. Qed.
#[local] Hint Resolve add_child16_stops : stops.

Lemma add_child4_stops h ks cs c x : stops (@add_child4 AA h ks cs c x) (@add_child4 enough_memory h ks cs c x).
Proof. unfold add_child4. by_stops. Qed.
#[local] Hint Resolve add_child4_stops : stops.

Lemma add_child_stops h ks cs c x : stops (@add_child AA h ks cs c x) (@add_child enough_memory h ks cs c x).
Proof. unfold add_child. by_stops. Qed.
#[local] Hint Resolve add_child_stops : stops.

Lemma split_leaf_stops l k n v d : stops (@split_leaf AA l k n v d) (@split_leaf enough_memory l k n v d).
Proof. unfold split_leaf. by_stops. Qed.

Lemma split_prefix_stops h ks cs k n v d i :
  stops (@split_prefix AA h ks cs k n v d i) (@split_prefix enough_memory h ks cs k n v d i).
Proof. unfold split_prefix. by_stops. Qed.
#[local] Hint Resolve split_leaf_stops split_prefix_stops : stops.

Lemma recursive_insert_stops fuel : ∀ x k n v d old,
  stops (@recursive_insert AA fuel x k n v d old) (@recursive_insert enough_memory fuel x k n v d old).
Proof. induction fuel as [|fuel IH]; intros; cbn [recursive_insert]; by_stops. Qed.
#[local] Hint Resolve recursive_insert_stops : stops.

Lemma art_insert_stops t k n v : stops (@art_insert AA t k n v) (@art_insert enough_memory t k n v).
Proof. unfold art_insert. by_stops. Qed.

Lemma remove_child16_stops h ks cs i : stops (@remove_child16 AA h ks cs i) (@remove_child16 enough_memory h ks cs i).
Proof. unfold remove_child16. by_stops. Qed.

Lemma remove_child48_stops h ks cs c : stops (@remove_child48 AA h ks cs c) (@remove_child48 enough_memory h ks cs c).
Proof. unfold remove_child48. cbv zeta. by_stops. Qed.

Lemma remove_child256_stops h ks cs c : stops (@remove_child256 AA h ks cs c) (@remove_child256 enough_memory h ks cs c).
Proof. unfold remove_child256. by_stops. Qed.
#[local] Hint Resolve remove_child16_stops remove_child48_stops remove_child256_stops : stops.

Lemma remove_child_stops h ks cs c i :
  stops (@remove_child AA h ks cs c i) (@remove_child enough_memory h ks cs c i).
Proof. unfold remove_child. by_stops. Qed.
#[local] Hint Resolve remove_child_stops : stops.

Lemma recursive_delete_stops fuel : ∀ x k n d,
  stops (@recursive_delete AA fuel x k n d) (@recursive_delete enough_memory fuel x k n d).
Proof. induction fuel as [|fuel IH]; intros; cbn [recursive_delete]; by_stops. Qed.
#[local] Hint Resolve recursive_delete_stops : stops.

Lemma art_delete_stops t k n : stops (@art_delete AA t k n) (@art_delete enough_memory t k n).
Proof. unfold art_delete. by_stops. Qed.

(** A call that has a result with enough memory has it, or was refused
    some. *)
Lemma stops_done {B} (f : ArtAlloc → outcome B) b :
  stops (f AA) (f enough_memory) → f enough_memory = Done b → (ArtAllocTotal AA → ∃ b', f AA = Done b') →
  f AA = Done b ∨ f AA = Undef ∧ ¬ ArtAllocTotal AA.
Proof.
  intros [Hu|He] Hb Ht; [right|left; congruence]. split; [done|]. intros [b' Hb']%Ht. congruence.
Qed.
End memory.

(** ** art.c implements helper.h

    The functions at the end of art.c, with the one lock for all trees, as an
    instance of the contract of MapSpec, for every key set that
    [keyset] accepts and values that are not null. *)

Instance art_impl {AM : ArtMalloc} (malloc_tree : gmap Z art_tree → Z) : MapImpl art_state := {|
  map_init := Art.init malloc_tree;
  map_add := Art.add;
  map_find := Art.find;
  map_del := Art.del;
  map_clear := Art.clear;
|}.

Section instance.
Context {AM : ArtMalloc} {AT : ArtMallocTotal AM} (malloc_tree : gmap Z art_tree → Z).
Context (malloc_ok : ∀ ts, malloc_tree ts ≠ 0).
Context (K : list Z → Prop) (HK : keyset K).

(** A key whose value is null is in the tree, but no function can tell. *)
Definition visible (N : kvmap) : kvmap := filter (λ kv, kv.2 ≠ 0) N.

(** The object [obj] represents [M], and nobody holds the lock. *)
Definition art_repr (obj : Z) (M : kvmap) (s : art_state) : Prop :=
  ∃ t N, trees s !! obj = Some t ∧ art_lock s = Rwlock 0 false ∧ tree_repr K t N ∧ M = visible N.

Lemma visible_find N k : find_result (visible N) k = find_result N k.
Proof.
  unfold find_result, visible. rewrite map_lookup_filter. destruct (N !! k) as [v|]; [|done]. cbn.
  destruct (decide (v = 0)) as [-> | Hv]; [by rewrite option_guard_False by auto|].
  by rewrite option_guard_True by done.
Qed.

Lemma visible_nonzero N k v : visible N !! k = Some v → v ≠ 0.
Proof. unfold visible. by intros [_ ?]%map_lookup_filter_Some. Qed.

Lemma visible_insert N k v :
  visible (<[k := v]> N) = if decide (v = 0) then delete k (visible N) else <[k := v]> (visible N).
Proof.
  unfold visible. destruct (decide (v = 0)) as [-> | Hv].
  - rewrite map_filter_insert_False by auto. apply map_filter_delete.
  - by apply map_filter_insert_True.
Qed.

Lemma wrlock_run s : art_lock s = Rwlock 0 false →
  rwlock_wrlock s = Done (tt, ArtState (trees s) (Rwlock 0 true)).
Proof. intros H. unfold rwlock_wrlock. by rewrite H. Qed.

Lemma rdlock_run s : art_lock s = Rwlock 0 false →
  rwlock_rdlock s = Done (tt, ArtState (trees s) (Rwlock 1 false)).
Proof. intros H. unfold rwlock_rdlock. by rewrite H. Qed.

Lemma load_tree_run s obj t : trees s !! obj = Some t → load_tree obj s = Done (t, s).
Proof. intros H. unfold load_tree. by rewrite H. Qed.

Lemma current_alloc_run s : current_alloc s = Done (art_malloc (trees s), s).
Proof. done. Qed.

Lemma key_strlen k : K k → strlen (cstr k) = Done (Z.of_nat (length k)) ∧
  s32 (Z.of_nat (length k)) = Z.of_nat (length k).
Proof.
  intros HKk. split; [by apply strlen_cstr, (key_nonul K HK)|]. apply s32_small.
  pose proof (key_short K HK k HKk). lia.
Qed.

Lemma find_result_zero N k : (find_result N k =? 0) = bool_decide (visible N !! k = None).
Proof.
  rewrite <-visible_find. unfold find_result. destruct (visible N !! k) as [v|] eqn:Hk; [|done].
  rewrite bool_decide_eq_false_2 by done. apply Z.eqb_neq. by eapply visible_nonzero.
Qed.

Lemma add_run obj M s k v :
  art_repr obj M s → K k →
  ∃ s', Art.add obj (cstr k) v s = Done (if bool_decide (M !! k = None) then 0 else 1, s') ∧
    art_repr obj (if bool_decide (M !! k = None) then if decide (v = 0) then M else <[k := v]> M else M) s'.
Proof.
  intros (t & N & Hobj & Hlock & Ht & ->) HKk. destruct (key_strlen k HKk) as [Hlen Hs32].
  unfold Art.add. run_to (wrlock_run s Hlock). rewrite Hlen. run_by (apply lift_done). cbv zeta. rewrite Hs32.
  run_by (by apply load_tree_run). rewrite (art_search_spec K HK t N k Ht HKk). run_by (apply lift_done).
  rewrite (find_result_zero N k). destruct (decide (visible N !! k = None)) as [Hk|Hk].
  - rewrite bool_decide_eq_true_2 by done. cbn [negb Z.eqb].
    destruct (art_insert_spec (AA := art_malloc (trees s)) K HK t N k v Ht HKk) as (t' & Hins & Ht').
    assert (find_result N k = 0) as H0.
    { rewrite <-visible_find. unfold find_result. by rewrite Hk. }
    eexists. split.
    + erewrite (bind_done (A := Z)); [|erewrite bind_done by apply current_alloc_run; cbn beta; cbn [trees]; rewrite Hins;
        erewrite bind_done by apply lift_done; cbn beta iota; erewrite bind_done by reflexivity; reflexivity].
      cbn beta. rewrite H0. reflexivity.
    + exists t', (<[k := v]> N). cbn. split; [apply lookup_insert_eq|]. split; [done|]. split; [done|].
      rewrite visible_insert. destruct (decide (v = 0)); [by rewrite delete_id|done].
  - rewrite bool_decide_eq_false_2 by done. cbn [negb Z.eqb]. eexists. split; [reflexivity|].
    by exists t, N.
Qed.

Lemma find_run obj M s k :
  art_repr obj M s → K k → ∃ s', Art.find obj (cstr k) s = Done (find_result M k, s') ∧ art_repr obj M s'.
Proof.
  intros (t & N & Hobj & Hlock & Ht & ->) HKk. destruct (key_strlen k HKk) as [Hlen Hs32].
  unfold Art.find. run_to (rdlock_run s Hlock). run_by (by apply load_tree_run).
  rewrite Hlen. run_by (apply lift_done). rewrite Hs32, (art_search_spec K HK t N k Ht HKk).
  run_by (apply lift_done). rewrite visible_find. eexists. split; [reflexivity|]. by exists t, N.
Qed.

Lemma del_run obj M s k :
  art_repr obj M s → K k →
  ∃ s', Art.del obj (cstr k) s = Done (if decide (is_Some (M !! k)) then 0 else 1, s') ∧ art_repr obj (delete k M) s'.
Proof.
  intros (t & N & Hobj & Hlock & Ht & ->) HKk. destruct (key_strlen k HKk) as [Hlen Hs32].
  unfold Art.del. run_to (wrlock_run s Hlock). run_by (by apply load_tree_run).
  rewrite Hlen. run_by (apply lift_done). rewrite Hs32.
  destruct (art_delete_spec (AA := art_malloc (trees s)) K HK t N k Ht HKk) as (t' & Hdel & Ht').
  run_by (apply current_alloc_run). cbn [trees]. rewrite Hdel.
  run_by (apply lift_done). cbn beta iota. run_by (reflexivity). run_by (reflexivity).
  eexists. split.
  - rewrite ret_done, (find_result_zero N k). do 2 f_equal.
    destruct (visible N !! k) as [v|]; [|by destruct (decide (is_Some None)) as [[? ?]|]].
    destruct (decide (is_Some (Some v))) as [_|Hn]; [|by destruct Hn].
    by rewrite bool_decide_eq_false_2.
  - exists t', (delete k N). cbn. split; [apply lookup_insert_eq|]. split; [done|]. split; [done|].
    symmetry. apply map_filter_delete.
Qed.

Lemma clear_run obj M s : art_repr obj M s → ∃ s', Art.clear obj s = Done (tt, s').
Proof.
  intros (t & N & Hobj & Hlock & [_ Hroot] & _). unfold Art.clear.
  run_to (wrlock_run s Hlock). run_by (by apply load_tree_run).
  assert (∃ k, destroy_node (S (height (root t))) (root t) = Done k) as [k Hk].
  { destruct Hroot as [[-> _]|Hr]; [by eexists|]. eapply destroy_node_total; [exact Hr|lia]. }
  unfold destroy_art_tree. rewrite Hk, obind_done. run_by (apply lift_done). cbn beta iota.
  run_by (reflexivity). eexists. reflexivity.
Qed.

Lemma init_run s : art_lock s = Rwlock 0 false →
  ∃ obj s', Art.init malloc_tree s = Done (obj, s') ∧ art_repr obj ∅ s'.
Proof.
  intros Hlock. unfold Art.init. cbv zeta. destruct (Z.eqb_spec (malloc_tree (trees s)) 0) as [H0|_].
  { by apply malloc_ok in H0. }
  do 2 eexists. split; [reflexivity|]. exists init_art_tree, ∅. cbn [trees art_lock].
  split; [apply lookup_insert_eq|]. split; [done|]. by split; [apply init_art_tree_repr|].
Qed.

#[refine] Instance art_spec : MapSpec (art_impl malloc_tree) := {|
  map_key := K;
  map_val := λ v, v ≠ 0;
  map_room := λ _, True;
  map_searchable := λ _ _, True;
  map_repr := art_repr;
  map_start := λ s, art_lock s = Rwlock 0 false;
|}.
Proof.
  - intros s Hs. by apply init_run.
  - intros obj M s Hs. by apply (clear_run obj M s).
  - done.
  - intros obj M s k v Hs Hk Hv _ Hn. destruct (add_run obj M s k v Hs Hk) as (s' & H).
    rewrite bool_decide_eq_true_2, decide_False in H by done. by exists s'.
  - intros obj M s k v Hs Hk Hv _ [x Hx]. destruct (add_run obj M s k v Hs Hk) as (s' & H).
    rewrite bool_decide_eq_false_2 in H by congruence. by exists s'.
  - intros obj M s k Hs Hk _. by apply find_run.
  - intros obj M s k Hs Hk. by apply del_run.
Defined.

(** A key with a null value stays invisible. *)
#[export] Instance art_null_spec : NullSpec art_spec.
Proof.
  intros obj M s k Hs Hk _. destruct (add_run obj M s k 0 Hs Hk) as (s' & Hrun & Hs').
  exists (if bool_decide (M !! k = None) then 0 else 1), M, s'. split; [done|]. split; [|done].
  by destruct (bool_decide _).
Qed.
End instance.

(** ** Key sets *)

(** Keys of one length, at most eleven bytes. *)
Lemma keyset_fixed len : (len ≤ 11)%nat → keyset (λ k, nonul k ∧ length k = len).
Proof.
  intros Hlen. split.
  - by intros k [? _].
  - intros k [_ ->]. lia.
  - intros k1 k2 [_ H1] [_ H2] Hpre. apply prefix_length_eq; [done|lia].
  - left. by intros k [_ ->].
Qed.

(** ASCII keys of one length. *)
Lemma keyset_ascii len : Z.of_nat len < 2 ^ 31 → keyset (λ k, Forall (λ c, 0 < c < 128) k ∧ length k = len).
Proof.
  intros Hlen. split.
  - intros k [Hk _]. eapply Forall_impl; [exact Hk|]. cbn. intros; lia.
  - by intros k [_ ->].
  - intros k1 k2 [_ H1] [_ H2] Hpre. apply prefix_length_eq; [done|lia].
  - right. exists len. intros k [Hk ->]. split; [done|]. eapply Forall_impl; [exact Hk|]. cbn. intros; lia.
Qed.
