(* ===== verification/ArtIter.v ===== *)
(** * ArtIter: the walks of art.c

    [art_iter] calls back for every leaf below the root, [art_iter_prefix] for
    those whose key starts with a prefix.  A walk is described by the list of
    the leaves it visits ([visit]), whose keys and values are the bindings of a
    map in some order ([lists]). *)

From S2P Require Import Prelude.
From S2P Require Import Critbit.
From S2P Require Import MapSpec.
From S2P Require Import Art.
From S2P Require Import ArtArrays.
From S2P Require Import ArtNodes.
From S2P Require Import ArtAdd.
From S2P Require Import ArtPrefix.
From S2P Require Import ArtTree.
From S2P Require Import ArtInsert.
From S2P Require Import ArtDelete.
From S2P Require Import ArtMap.

Implicit Types (fuel : nat) (M : kvmap) (m : kidmap) (h : art_header) (ks π p q : list Z)
  (cs : list art_node) (x : art_node) (c : Z).

(** ** Visiting leaves *)

(** The callback on the leaves in turn, until it returns a stop value. *)
Fixpoint visit {S : Type} (cb : art_leaf → S → Z * S) (ls : list art_leaf) (data : S) : Z * S :=
  match ls with
  | [] => (0, data)
  | l :: ls => let '(res, data) := cb l data in if negb (res =? 0) then (res, data) else visit cb ls data
  end.

Lemma visit_one {S} (cb : art_leaf → S → Z * S) l data : visit cb [l] data = cb l data.
Proof. cbn. destruct (cb l data) as [res data']. by destruct (Z.eqb_spec res 0) as [-> |]. Qed.

Lemma visit_app {S} (cb : art_leaf → S → Z * S) ls1 ls2 data :
  visit cb (ls1 ++ ls2) data =
    let '(res, data) := visit cb ls1 data in if negb (res =? 0) then (res, data) else visit cb ls2 data.
Proof.
  revert data. induction ls1 as [|l ls1 IH]; intros data; [done|]. cbn.
  destruct (cb l data) as [res data']. destruct (negb (res =? 0)) eqn:Hres; [by rewrite Hres|]. apply IH.
Qed.

(** The leaves hold the bindings of [M], each once. *)
Definition lists (ls : list art_leaf) (M : kvmap) : Prop :=
  ∃ kvs, kvs ≡ₚ map_to_list M ∧ Forall2 (λ l kv, leaf_is l kv.1 kv.2) ls kvs.

(** ** The children of a node *)

Definition kids_at (m : kidmap) (bytes : list Z) : list (Z * art_node) :=
  omap (λ c, pair c <$> m !! c) bytes.

Lemma kids_at_elem m bytes c x : (c, x) ∈ kids_at m bytes ↔ c ∈ bytes ∧ m !! c = Some x.
Proof.
  unfold kids_at. rewrite list_elem_of_omap. split.
  - intros (c' & Hin & Hx). destruct (m !! c') as [y|] eqn:Hy; [|done]. by injection Hx as -> ->.
  - intros [Hin Hx]. exists c. split; [done|]. by rewrite Hx.
Qed.

Lemma kids_at_NoDup m bytes : NoDup bytes → NoDup (kids_at m bytes).
Proof.
  unfold kids_at. induction 1 as [|c bytes Hc Hnd IH]; [constructor|]. cbn.
  destruct (m !! c) as [x|] eqn:Hx; cbn; [|done]. constructor; [|done].
  intros [Hin _]%kids_at_elem. done.
Qed.

Lemma kids_at_all m bytes :
  NoDup bytes → (∀ c x, m !! c = Some x → c ∈ bytes) → kids_at m bytes ≡ₚ map_to_list m.
Proof.
  intros Hnd Hall. apply NoDup_Permutation; [by apply kids_at_NoDup|apply NoDup_map_to_list|].
  intros [c x]. rewrite kids_at_elem, elem_of_map_to_list. split; [by intros [_ Hx]|].
  intros Hx. split; [by eapply Hall|done].
Qed.

Lemma seqZ_step i n : seqZ i (Z.of_nat (S n)) = i :: seqZ (i + 1) (Z.of_nat n).
Proof. rewrite seqZ_cons by lia. f_equal. f_equal; lia. Qed.

Lemma iter48_spec h ks cs m fuel : indexed_repr h ks cs m → ∀ i,
  0 ≤ i → i + Z.of_nat fuel ≤ 256 →
  iter48 fuel i ks cs = Done (kids_at m (seqZ i (Z.of_nat fuel))).*2.
Proof.
  intros Hr. induction fuel as [|fuel IH]; intros i Hi Hf; [done|]. cbn [iter48]. rewrite seqZ_step.
  destruct (lookup_lt_is_Some_2 ks (Z.to_nat i)) as [k Hk]; [rewrite (ix_keys _ _ _ _ Hr); lia|].
  next_by (buf_get_Some ks i k Hi Hk). unfold kids_at. cbn [omap list_omap].
  destruct (ix_lookup _ _ _ _ Hr i k Hi Hk) as [[-> Hnone]|(Hkr & x & Hx & Hcs)].
  - rewrite Hnone. cbn. apply IH; lia.
  - rewrite Hx. destruct (Z.eqb_spec k 0); [lia|]. next_by (arr_get_Some cs (k - 1) x ltac:(lia) Hcs).
    by next_by (IH (i + 1) ltac:(lia) ltac:(lia)).
Qed.

Lemma filter_direct cs (m : kidmap) : ∀ i,
  (∀ j, (j < length cs)%nat → cs !! j = Some (default Null (m !! (i + Z.of_nat j)))) →
  map_Forall (λ _ x, x ≠ Null) m →
  filter (λ n, is_null n = false) cs = (kids_at m (seqZ i (Z.of_nat (length cs)))).*2.
Proof.
  intros i Hlook Hnn. revert i Hlook. induction cs as [|x cs IH]; intros i Hlook; [done|].
  cbn [length]. rewrite seqZ_step. unfold kids_at. cbn [omap list_omap].
  assert (filter (λ n, is_null n = false) cs = (kids_at m (seqZ (i + 1) (Z.of_nat (length cs)))).*2) as Hrest.
  { apply IH. intros j Hj. specialize (Hlook (S j) ltac:(cbn; lia)). change (cs !! j = Some (default Null (m !! (i + Z.of_nat (S j))))) in Hlook. rewrite Hlook. do 3 f_equal. lia. }
  pose proof (Hlook 0%nat ltac:(cbn; lia)) as H0. rewrite Z.add_0_r in H0. injection H0 as Hx.
  destruct (m !! i) as [y|] eqn:Hy; cbn -[filter] in Hx |- *; subst x.
  - rewrite filter_cons_True by (specialize (Hnn i y Hy); by destruct y). by rewrite Hrest.
  - by rewrite filter_cons_False.
Qed.

(** Every loop visits each child once. *)
Lemma iter_children_spec h ks cs m :
  node_repr h ks cs m →
  ∃ cl, iter_children h ks cs = Done cl.*2 ∧ cl ≡ₚ map_to_list m ∧ ∀ c x, (c, x) ∈ cl → x ∈ cs.
Proof.
  intros [Hkind Hkids]. unfold iter_children.
  destruct Hkind as [Ht Hr|Ht Hr|Ht Hr|Ht Hr]; rewrite Ht; cbn [NODE4 NODE16 NODE48 NODE256 Z.eqb Pos.eqb orb].
  1,2: destruct Hr as (kl & rk & rc & -> & -> & Hn & _ & _ & Hnd & ->); exists kl; split;
    [rewrite Hn, Nat2Z.id, first_children_spec by (rewrite length_app, length_fmap; lia);
     by rewrite take_app_length' by (by rewrite length_fmap)|];
    split; [by rewrite map_to_list_to_map|]; intros c x Hin; apply elem_of_app; left;
    by apply (list_elem_of_fmap_2 snd) in Hin.
  - exists (kids_at m (seqZ 0 256)). split; [by apply (iter48_spec h ks cs m 256 Hr)|]. split.
    + apply kids_at_all; [apply NoDup_seqZ|]. intros c x Hx. apply elem_of_seqZ. apply Hkids in Hx. lia.
    + intros c x [_ Hx]%kids_at_elem. destruct (Hkids c x Hx) as [Hc _].
      destruct (lookup_lt_is_Some_2 ks (Z.to_nat c)) as [k Hk]; [rewrite (ix_keys _ _ _ _ Hr); lia|].
      destruct (ix_lookup _ _ _ _ Hr c k ltac:(lia) Hk) as [[_ Hn]|(_ & y & Hy & Hcs)]; [congruence|].
      replace x with y by congruence. by eapply list_elem_of_lookup_2.
  - destruct Hr as (Hlen & _ & Hlook). exists (kids_at m (seqZ 0 256)). split.
    { f_equal. change 256 with (Z.of_nat 256). rewrite <-Hlen. apply filter_direct.
      - intros j Hj. specialize (Hlook (Z.of_nat j) ltac:(lia)). by rewrite Nat2Z.id in Hlook.
      - intros c x Hx. by apply Hkids in Hx as [_ ?]. }
    split.
    + apply kids_at_all; [apply NoDup_seqZ|]. intros c x Hx. apply elem_of_seqZ. apply Hkids in Hx. lia.
    + intros c x [_ Hx]%kids_at_elem. destruct (Hkids c x Hx) as [Hc _]. specialize (Hlook c Hc).
      rewrite Hx in Hlook. by eapply list_elem_of_lookup_2.
Qed.

(** ** recursive_iter *)

Section walks.
Context (K : list Z → Prop) (HK : keyset K).

(** The walk [f] visits [ls], whatever the callback. *)
Definition walks (f : ∀ S : Type, (art_leaf → S → Z * S) → S → outcome (Z * S)) (ls : list art_leaf) : Prop :=
  ∀ S cb data, f S cb data = Done (visit cb ls data).

Lemma iter_loop_walks fuel (cl : list (Z * art_node)) (Ms : Z → kvmap) :
  (∀ c x, (c, x) ∈ cl → ∃ ls, lists ls (Ms c) ∧ walks (λ S cb, recursive_iter cb fuel x) ls) →
  ∃ ls kvs, Forall2 (λ l kv, leaf_is l kv.1 kv.2) ls kvs ∧ kvs ≡ₚ (cl ≫= λ cx, map_to_list (Ms cx.1)) ∧
    walks (λ S cb, iter_loop (recursive_iter cb fuel) cl.*2) ls.
Proof.
  induction cl as [|[c x] cl IH]; intros Hall; [by exists [], []|].
  destruct (Hall c x) as (ls1 & (kvs1 & Hperm1 & Hls1) & Hrun1); [by apply list_elem_of_here|].
  destruct IH as (ls & kvs & Hls & Hperm & Hrun).
  { intros c' x' Hin. by apply Hall, list_elem_of_further. }
  exists (ls1 ++ ls), (kvs1 ++ kvs). split; [by apply Forall2_app|]. split.
  - cbn. by rewrite Hperm1, Hperm.
  - intros S cb data. cbn [fmap list_fmap snd iter_loop]. next_by (Hrun1 S cb data). rewrite visit_app.
    destruct (visit cb ls1 data) as [res data']. destruct (negb (res =? 0)); [done|]. apply Hrun.
Qed.

(** The bindings of a node are those of its children. *)
Lemma kids_bindings π h ks cs m p Ms M (cl : list (Z * art_node)) :
  inner K π h ks cs m p Ms M → cl ≡ₚ map_to_list m →
  (cl ≫= λ cx, map_to_list (Ms cx.1)) ≡ₚ map_to_list M.
Proof.
  intros HI Hcl.
  assert (∀ c x k v, (c, x) ∈ cl → Ms c !! k = Some v → m !! c = Some x ∧ k !! length (π ++ p) = Some c) as Hkey.
  { intros c x k v Hin Hk. rewrite Hcl, elem_of_map_to_list in Hin. split; [done|].
    destruct (repr_key K _ _ _ _ _ (in_kids K _ _ _ _ _ _ _ _ HI c x Hin) Hk) as [_ Hpre].
    by apply path_byte in Hpre. }
  apply NoDup_Permutation; [|apply NoDup_map_to_list|].
  - apply NoDup_bind.
    + intros [c1 x1] [c2 x2] [k v] Hin1 Hin2 Hk1%elem_of_map_to_list Hk2%elem_of_map_to_list.
      apply (Hkey _ _ _ _ Hin1) in Hk1 as [Hx1 Hc1]. apply (Hkey _ _ _ _ Hin2) in Hk2 as [Hx2 Hc2]. congruence.
    + intros [c x] _. apply NoDup_map_to_list.
    + rewrite Hcl. apply NoDup_map_to_list.
  - intros [k v]. rewrite list_elem_of_bind, elem_of_map_to_list, (in_map K _ _ _ _ _ _ _ _ HI k).
    unfold kids_lookup. split.
    + intros ([c x] & Hk%elem_of_map_to_list & Hin). destruct (Hkey _ _ _ _ Hin Hk) as [Hx ->]. by rewrite Hx.
    + destruct (k !! length (π ++ p)) as [c|]; [|done]. destruct (m !! c) as [x|] eqn:Hx; [|done].
      intros Hk. exists (c, x). rewrite elem_of_map_to_list. split; [done|].
      by rewrite Hcl, elem_of_map_to_list.
Qed.

Lemma recursive_iter_spec π n M : repr K π n M → ∀ fuel, (height n < fuel)%nat →
  ∃ ls, lists ls M ∧ walks (λ S cb, recursive_iter cb fuel n) ls.
Proof.
  induction 1 as [π l k0 v0 HK0 Hl Hpre|π h ks cs m p Ms M Hn Ho Hp Hkids IH HM]; intros [|fuel] Hf; [lia| |lia|].
  - exists [l]. split.
    + exists [(k0, v0)]. rewrite map_to_list_singleton. split; [done|]. by constructor.
    + intros S cb data. by rewrite visit_one.
  - assert (inner K π h ks cs m p Ms M) as HI by done.
    destruct (iter_children_spec h ks cs m Hn) as (cl & Hrun & Hperm & Hin).
    destruct (iter_loop_walks fuel cl Ms) as (ls & kvs & Hls & Hkvs & Hw).
    { intros c x Hcx. pose proof (Hin c x Hcx) as [i Hi]%list_elem_of_lookup. apply (height_child h ks) in Hi.
      apply (IH c x); [|lia]. by rewrite Hperm, elem_of_map_to_list in Hcx. }
    exists ls. split.
    + exists kvs. split; [|done]. by rewrite Hkvs, (kids_bindings π h ks cs m p Ms M cl HI Hperm).
    + intros S cb data. cbn [recursive_iter]. next_by Hrun. apply Hw.
Qed.

Lemma art_iter_spec t M : tree_repr K t M → ∃ ls, lists ls M ∧ walks (λ S cb, art_iter cb t) ls.
Proof.
  intros [_ [[Hroot ->]|Hr]].
  - exists []. split; [by exists []|]. intros S cb data. unfold art_iter. by rewrite Hroot.
  - apply (recursive_iter_spec [] (root t) M Hr). lia.
Qed.

(** ** art_iter_prefix *)

Lemma memcmp_bytes_prefix (q k t1 t2 : list Z) :
  q `prefix_of` k → memcmp_bytes (length q) (k ++ t1) (q ++ t2) = Done 0.
Proof.
  revert k. induction q as [|c q IH]; intros k Hpre; [done|]. destruct Hpre as [t ->].
  cbn [length memcmp_bytes app]. rewrite Z.eqb_refl. apply IH. by exists t.
Qed.

Lemma leaf_prefix_spec l k v q :
  leaf_is l k v → q `prefix_of` k → Z.of_nat (length q) < 2 ^ 31 →
  leaf_prefix_matches l (cstr q) (Z.of_nat (length q)) = Done 0.
Proof.
  intros (_ & Hlen & tail & Htail) Hpre Hq. pose proof (prefix_length _ _ Hpre). unfold leaf_prefix_matches.
  rewrite Hlen, u32_small, Htail by lia. destruct (Z.ltb_spec (Z.of_nat (length k)) (Z.of_nat (length q))); [lia|].
  unfold memcmp. destruct (Z.ltb_spec (Z.of_nat (length q)) 0); [lia|]. rewrite Nat2Z.id.
  by apply memcmp_bytes_prefix.
Qed.

(** The bindings whose key starts with [q]. *)
Definition with_prefix (q : list Z) (M : kvmap) : kvmap := filter (λ kv, q `prefix_of` kv.1) M.

Lemma with_prefix_all q M : (∀ k v, M !! k = Some v → q `prefix_of` k) → with_prefix q M = M.
Proof. intros H. apply map_filter_id. intros k v Hk. by apply (H k v). Qed.

(** Below a node they are those of one child. *)
Lemma with_prefix_child π h ks cs m p Ms M c x q :
  inner K π h ks cs m p Ms M → m !! c = Some x → (π ++ p ++ [c]) `prefix_of` q →
  with_prefix q M = with_prefix q (Ms c).
Proof.
  intros HI Hx Hq. apply map_eq. intros k. unfold with_prefix. rewrite !map_lookup_filter.
  rewrite (in_map K _ _ _ _ _ _ _ _ HI k). unfold kids_lookup.
  destruct (decide (q `prefix_of` k)) as [Hqk|Hqk].
  - rewrite (path_byte π p c k) by (by etrans). by rewrite Hx.
  - transitivity (None : option Z).
    + destruct (k !! _) as [c'|]; [|done]. destruct (m !! c'); [|done]. destruct (Ms c' !! k); [|done]. cbn.
      by rewrite option_guard_False.
    + destruct (Ms c !! k); [|done]. cbn. by rewrite option_guard_False.
Qed.

Hypothesis Hshort : ∀ k, K k → (length k ≤ 11)%nat.

Section inner.
Context {π h ks cs m p Ms M} (HI : inner K π h ks cs m p Ms M).

Lemma inner_prefix_short : (length p ≤ 10)%nat.
Proof.
  destruct (inner_key K HI) as (k & c & x & HKk & _ & Hpre). apply Hshort in HKk.
  apply prefix_length in Hpre. rewrite !length_app in Hpre. cbn in Hpre. lia.
Qed.

(** A prefix of a key of the node leaves the prefix of the node only at the
    end of either. *)
Lemma prefix_mismatch_end q k v :
  nonul q → Z.of_nat (length q) < 2 ^ 31 → π `prefix_of` q → M !! k = Some v → q `prefix_of` k →
  prefix_mismatch h (Inner h ks cs) (cstr q) (Z.of_nat (length q)) (Z.of_nat (length π)) =
    Done (Z.of_nat (min (length p) (length q - length π))).
Proof.
  intros Hq Hlen Hpi Hk Hqk. pose proof inner_prefix_short as Hp10. pose proof (prefix_length _ _ Hpi) as Hle.
  pose proof (in_prefix K _ _ _ _ _ _ _ _ HI) as Hp. pose proof Hp as (_ & Hpl & Hpb & _).
  destruct (stored_loop h p q (length π) Hp (inner_bytes K HK HI) Hq Hle) as (r & Hrun & Hr & _ & Hdiff).
  set (max_cmp := Z.min _ _) in *. unfold prefix_mismatch. rewrite art_min_10, Hpl by lia.
  rewrite (art_min_spec (Z.min _ _)) by lia. fold max_cmp. next_by Hrun.
  destruct (Z.ltb_spec (Z.of_nat r) max_cmp) as [Hlt|Hge].
  - exfalso. destruct (Hdiff Hlt) as (c1 & c2 & H1 & H2 & Hne). apply Hne.
    apply (prefix_lookup_some _ k) in H2; [|done].
    assert (k !! (length π + r)%nat = Some c1) as H1'.
    { apply (prefix_lookup_some (π ++ p)); [by eapply (inner_prefix K HI)|]. rewrite lookup_app_r by lia.
      by replace (length π + r - length π)%nat with r by lia. }
    congruence.
  - change MAX_PREFIX_LEN with 10. destruct (Z.ltb_spec 10 (Z.of_nat (length p))); [lia|]. f_equal. lia.
Qed.

(** Going on below the node. *)
Lemma prefix_step q k v :
  (length (π ++ p) < length q)%nat → M !! k = Some v → q `prefix_of` k →
  ∃ c x i, buf_get (cstr q) (Z.of_nat (length (π ++ p))) = Done c ∧ m !! c = Some x ∧
    find_child h ks cs c = Done (Some i) ∧ arr_get cs i = Done x ∧
    (π ++ p ++ [c]) `prefix_of` q ∧ Ms c !! k = Some v.
Proof.
  intros Hlt Hk Hqk. pose proof (inner_prefix K HI k v Hk) as Hpk.
  destruct (lookup_lt_is_Some_2 q (length (π ++ p)) Hlt) as [c Hc].
  pose proof (prefix_lookup_some _ _ _ _ Hqk Hc) as Hkc. pose proof Hk as Hk'.
  rewrite (in_map K _ _ _ _ _ _ _ _ HI k) in Hk'. unfold kids_lookup in Hk'. rewrite Hkc in Hk'.
  destruct (m !! c) as [x|] eqn:Hx; [|done].
  pose proof (in_node K _ _ _ _ _ _ _ _ HI) as Hn. destruct (proj2 Hn c x Hx) as [Hcb _].
  pose proof (find_child_spec h ks cs m c Hn Hcb) as Hfind. rewrite Hx in Hfind.
  destruct Hfind as (i & Hi & Hi0 & Hcs & _). exists c, x, i. split; [by apply cstr_get|].
  split; [done|]. split; [done|]. split; [by apply arr_get_Some|]. split; [|done].
  destruct Hpk as [t ->]. destruct Hqk as [t' Hqk].
  assert ((π ++ p) `prefix_of` q) as [t2 ->].
  { apply prefix_by_lookup; [lia|]. intros j c1 c2 H1 H2.
    apply (lookup_app_l_Some _ t) in H1. apply (lookup_app_l_Some _ t') in H2. congruence. }
  rewrite lookup_app_r in Hc by lia.
  rewrite Nat.sub_diag in Hc. destruct t2 as [|c' t2]; [done|]. injection Hc as ->.
  exists t2. by rewrite <-!app_assoc.
Qed.
End inner.

(** The walk [f] visits the bindings of [M] whose key starts with [q]. *)
Definition visits (f : ∀ S : Type, (art_leaf → S → Z * S) → S → outcome (Z * S)) q M : Prop :=
  ∃ ls, lists ls (with_prefix q M) ∧ walks f ls.

(** The whole node is below the prefix. *)
Lemma whole_node π n M q :
  repr K π n M → (∀ k v, M !! k = Some v → q `prefix_of` k) →
  visits (λ S cb, recursive_iter cb (Datatypes.S (height n)) n) q M.
Proof.
  intros Hr Hall. unfold visits. rewrite with_prefix_all by done. apply (recursive_iter_spec π n M Hr). lia.
Qed.

Section inner.
Context {π h ks cs m p Ms M} (HI : inner K π h ks cs m p Ms M).
Context (q k : list Z) (v : Z) (Hq : nonul q) (Hlen : Z.of_nat (length q) < 2 ^ 31).
Context (Hpi : π `prefix_of` q) (Hk : M !! k = Some v) (Hqk : q `prefix_of` k).

(** Going down to a child. *)
Definition down {S} (cb : art_leaf → S → Z * S) (fuel : nat) (D : Z) (data : S) : outcome (Z * S) :=
  c ← buf_get (cstr q) D;
  child ← find_child h ks cs c;
  match child with
  | Some i => x ← arr_get cs i; iter_prefix_loop cb fuel x (cstr q) (Z.of_nat (length q)) (D + 1) data
  | None => Done (0, data)
  end.

Lemma down_visits fuel :
  (length q - length π < S fuel)%nat →
  (∀ c x, m !! c = Some x → (π ++ p ++ [c]) `prefix_of` q → Ms c !! k = Some v →
    (length q - length (π ++ p ++ [c]) < fuel)%nat →
    visits (λ S cb, iter_prefix_loop cb fuel x (cstr q) (Z.of_nat (length q)) (Z.of_nat (length (π ++ p ++ [c])))) q (Ms c)) →
  (length (π ++ p) < length q)%nat →
  visits (λ S cb, down cb fuel (Z.of_nat (length (π ++ p)))) q M.
Proof.
  intros Hf IH Hlt. destruct (prefix_step HI q k v Hlt Hk Hqk) as (c & x & i & Hc & Hx & Hi & Hxi & Hcq & Hk').
  assert (length (π ++ p ++ [c]) = Datatypes.S (length (π ++ p))) as Hl.
  { rewrite (app_assoc π), (length_app (π ++ p)). cbn. lia. }
  destruct (IH c x Hx Hcq Hk') as (ls & Hls & Hw); [rewrite Hl; rewrite length_app in Hlt |- *; lia|].
  exists ls. split; [by rewrite (with_prefix_child π h ks cs m p Ms M c x q HI Hx Hcq)|].
  intros S cb data. unfold down. next_by Hc. next_by Hi. next_by Hxi.
  replace (Z.of_nat (length (π ++ p)) + 1) with (Z.of_nat (length (π ++ p ++ [c]))) by lia. apply Hw.
Qed.

(** The search ends at the node when the prefix does. *)
Lemma all_below : (length q ≤ length (π ++ p))%nat → ∀ k' v', M !! k' = Some v' → q `prefix_of` k'.
Proof.
  intros Hend k' v' Hk'. etrans; [|by eapply (inner_prefix K HI)].
  pose proof (inner_prefix K HI k v Hk) as [t ->]. destruct Hqk as [t' Hqk'].
  apply prefix_by_lookup; [done|]. intros j c1 c2 H1 H2.
  apply (lookup_app_l_Some _ t') in H1. apply (lookup_app_l_Some _ t) in H2. congruence.
Qed.

Lemma prefix_here fuel :
  length π = length q →
  visits (λ S cb, iter_prefix_loop cb (Datatypes.S fuel) (Inner h ks cs) (cstr q) (Z.of_nat (length q)) (Z.of_nat (length π))) q M.
Proof.
  intros Heq. pose proof (inner_repr K _ _ _ _ _ _ _ _ HI) as Hr.
  assert (length q ≤ length (π ++ p))%nat as Hle by (rewrite length_app; lia).
  destruct (whole_node π (Inner h ks cs) M q Hr (all_below Hle)) as (ls & Hls & Hw).
  destruct (minimum_leaf_spec K _ _ _ Hr) as (l & k1 & v1 & Hmin & Hl & Hk1).
  exists ls. split; [done|]. intros S cb data. cbn [iter_prefix_loop]. rewrite Heq, Z.eqb_refl.
  next_by Hmin. next_by (leaf_prefix_spec l k1 v1 q Hl (all_below Hle k1 v1 Hk1) Hlen). apply Hw.
Qed.

Lemma prefix_beyond fuel :
  (length π < length q)%nat →
  ((length (π ++ p) < length q)%nat → visits (λ S cb, down cb fuel (Z.of_nat (length (π ++ p)))) q M) →
  visits (λ S cb, iter_prefix_loop cb (Datatypes.S fuel) (Inner h ks cs) (cstr q) (Z.of_nat (length q)) (Z.of_nat (length π))) q M.
Proof.
  intros Hne Hdown. pose proof (in_prefix K _ _ _ _ _ _ _ _ HI) as Hp.
  assert ((Z.of_nat (length π) =? Z.of_nat (length q)) = false) as Hneq by (apply Z.eqb_neq; lia).
  pose proof (partial_len_zero h p Hp) as Hpl. destruct (decide (p = [])) as [-> |Hpne].
  - rewrite app_nil_r in Hdown. destruct (Hdown Hne) as (ls & Hls & Hw). exists ls. split; [done|].
    intros S cb data. cbn [iter_prefix_loop]. rewrite Hneq, Hpl, bool_decide_eq_true_2 by done. apply Hw.
  - pose proof (prefix_mismatch_end HI q k v Hq Hlen Hpi Hk Hqk) as Hmis. rewrite length_app in Hdown.
    assert (length p ≠ 0)%nat as Hp0 by (by destruct p). rewrite bool_decide_eq_false_2 in Hpl by done.
    set (r := Z.of_nat (min (length p) (length q - length π))) in *.
    assert ((r =? 0) = false) as Hr0 by (apply Z.eqb_neq; lia).
    destruct (Z.eqb_spec (Z.of_nat (length π) + r) (Z.of_nat (length q))) as [Hend|Hon].
    + destruct (whole_node π (Inner h ks cs) M q (inner_repr K _ _ _ _ _ _ _ _ HI)) as (ls & Hls & Hw).
      { apply all_below. rewrite length_app. lia. }
      exists ls. split; [done|]. intros S cb data. cbn [iter_prefix_loop]. rewrite Hneq, Hpl. cbn [negb].
      next_by Hmis. rewrite Hr0, Hend, Z.eqb_refl. apply Hw.
    + assert (length π + length p < length q)%nat as Hlt by lia.
      destruct (Hdown Hlt) as (ls & Hls & Hw). exists ls. split; [done|]. intros S cb data.
      cbn [iter_prefix_loop]. rewrite Hneq, Hpl. cbn [negb]. next_by Hmis. rewrite Hr0.
      apply Z.eqb_neq in Hon. rewrite Hon. destruct Hp as (_ & -> & _). rewrite s32_small by lia.
      rewrite <-Nat2Z.inj_add. apply Hw.
Qed.
End inner.

(** A prefix of some key: the walk finds all keys it is a prefix of. *)
Lemma iter_prefix_spec π n M : repr K π n M → ∀ q fuel k v,
  nonul q → Z.of_nat (length q) < 2 ^ 31 → π `prefix_of` q → (length q - length π < fuel)%nat →
  M !! k = Some v → q `prefix_of` k →
  visits (λ S cb, iter_prefix_loop cb fuel n (cstr q) (Z.of_nat (length q)) (Z.of_nat (length π))) q M.
Proof.
  induction 1 as [π l k0 v0 HK0 Hl Hpre|π h ks cs m p Ms M Hn Ho Hp Hkids IH HM];
    intros q [|fuel] k v Hq Hlen Hpi Hf Hk Hqk; [lia| |lia|].
  - apply lookup_singleton_Some in Hk as [-> ->]. destruct (whole_node π (Leaf l) {[k := v]} q) as (ls & Hls & Hw).
    + by apply repr_leaf.
    + by intros k' v' [<- _]%lookup_singleton_Some.
    + exists ls. split; [done|]. intros S cb data. cbn [iter_prefix_loop].
      next_by (leaf_prefix_spec l k v q Hl Hqk Hlen). apply (Hw S cb data).
  - assert (inner K π h ks cs m p Ms M) as HI by done. pose proof (prefix_length _ _ Hpi) as Hle.
    destruct (decide (length π = length q)) as [Heq|Hne].
    + by apply (prefix_here HI q k v).
    + apply (prefix_beyond HI q k v Hq Hlen Hpi Hk Hqk); [lia|]. intros Hlt.
      apply (down_visits HI q k v Hk Hqk fuel Hf); [|done]. intros c x Hx Hcq Hk' Hf'. by apply (IH c x Hx q fuel k v).
Qed.

Lemma art_iter_prefix_spec t M q :
  tree_repr K t M → nonul q → (∃ k v, M !! k = Some v ∧ q `prefix_of` k) →
  visits (λ S cb, art_iter_prefix cb t (cstr q) (Z.of_nat (length q))) q M.
Proof.
  intros [_ [[_ ->]|Hr]] Hq (k & v & Hk & Hqk); [by rewrite lookup_empty in Hk|].
  destruct (repr_key K _ _ _ _ _ Hr Hk) as [HKk _]. apply Hshort in HKk. pose proof (prefix_length _ _ Hqk).
  apply (iter_prefix_spec [] (root t) M Hr q _ k v); [done|lia|apply prefix_nil| |done|done].
  rewrite length_cstr. cbn. lia.
Qed.
End walks.
