(* ===== verification/ArtTheorems.v ===== *)
(** * ArtTheorems: what art.c guarantees, and where it does not

    On the key sets of ArtPrefix the tree is a finite map: [art_insert],
    [art_search] and [art_delete] are insertion, lookup and deletion, through
    every growth, split, shrinking and collapse of nodes.  Outside of them,
    and for the walks, runs of the code that lose a key, leak a leaf or
    misorder the children, each on a small tree built by the code itself. *)

From S2P Require Import Prelude.
From S2P Require Import Critbit.
From S2P Require Import MapSpec.
From S2P Require Import Art.
From S2P Require Import ArtArrays.
From S2P Require Import ArtNodes.
From S2P Require Import ArtAdd.
From S2P Require Import ArtRemove.
From S2P Require Import ArtPrefix.
From S2P Require Import ArtTree.
From S2P Require Import ArtInsert.
From S2P Require Import ArtDelete.
From S2P Require Import ArtMap.
From S2P Require Import ArtIter.

(** malloc always finds memory and leaves the four bytes [rest] in a leaf. *)
Definition leaving (rest : list Z) : ArtAlloc := {| calloc_node := λ _, true; malloc_leaf := Some rest |}.
#[local] Instance leaving_total rest : ArtAllocTotal (leaving rest).
Proof. split; [done|by eexists]. Qed.

(** It happens to return zeroed memory. *)
#[local] Instance zeroed : ArtAlloc := leaving [0; 0; 0; 0].
#[local] Instance zeroed_total : ArtAllocTotal zeroed := leaving_total _.

(** Insert keys with the values 1, 2, 3, ... *)
Fixpoint insert_all {AA : ArtAlloc} (t : art_tree) (ks : list (list Z)) (v : Z) : outcome art_tree :=
  match ks with
  | [] => Done t
  | k :: ks => '(t, _) ← art_insert t (cstr k) (Z.of_nat (length k)) v; insert_all t ks (v + 1)
  end.

Definition search_key (t : art_tree) (k : list Z) : outcome Z := art_search t (cstr k) (Z.of_nat (length k)).

(** ** The tree is a map *)

(** Claim C7: [art_insert] on a tree that represents [M] returns the old value
    of the key (null when there is none) and leaves a tree that represents
    [M] with the key bound to the new value; the tree's size is the number of
    keys modulo 2^64.  This covers the replacement of a value, the split of a
    leaf, the split of a prefix (stored or longer than ten bytes), a new child
    in a node with room, and the growth of a full node.  When malloc or calloc
    may fail, the call can also be undefined (a store through the null pointer
    that it got), but nothing else.  The keys are those of a [keyset]: none is a
    proper prefix of another, and they are short, or ASCII and of one length. *)
Theorem art_insert_correct {AA : ArtAlloc} K t M k v :
  keyset K → tree_repr K t M → K k →
  ∃ t', (art_insert t (cstr k) (Z.of_nat (length k)) v = Done (t', find_result M k) ∨
         art_insert t (cstr k) (Z.of_nat (length k)) v = Undef ∧ ¬ ArtAllocTotal AA) ∧
    tree_repr K t' (<[k := v]> M) ∧ art_size t' = u64 (Z.of_nat (base.size (<[k := v]> M))).
Proof.
  intros HK Ht Hk.
  destruct (art_insert_spec (AT := enough_total AA) K HK t M k v Ht Hk) as (t' & Hrun & Ht').
  exists t'. split; [|split; [done|by destruct Ht']].
  apply (stops_done AA (λ AA, @art_insert AA t (cstr k) (Z.of_nat (length k)) v)); [apply art_insert_stops|exact Hrun|].
  intros AT. destruct (art_insert_spec K HK t M k v Ht Hk) as (t1 & Hrun1 & _). by eexists.
Qed.

(** Claim C8: [art_search] returns the value of the key, and null for a key
    that is not in the tree, without reading past the end of any array,
    although it skips the bytes of a prefix that a node does not store.  The
    keys are those of a [keyset], as in all theorems on trees here. *)
Theorem art_search_correct K t M k :
  keyset K → tree_repr K t M → K k →
  art_search t (cstr k) (Z.of_nat (length k)) = Done (find_result M k).
Proof. intros HK. by apply art_search_spec. Qed.

(** Claim C9: [art_delete] returns the value of the key (null when it is
    absent) and leaves a tree that represents the map without it, through
    every shrinking of a node and the collapse of a node with one child.  When
    calloc may fail, the call can also be undefined (shrinking a node needs a
    new one), but nothing else.  The keys are those of a [keyset]. *)
Theorem art_delete_correct {AA : ArtAlloc} K t M k :
  keyset K → tree_repr K t M → K k →
  ∃ t', (art_delete t (cstr k) (Z.of_nat (length k)) = Done (t', find_result M k) ∨
         art_delete t (cstr k) (Z.of_nat (length k)) = Undef ∧ ¬ ArtAllocTotal AA) ∧
    tree_repr K t' (delete k M) ∧ art_size t' = u64 (Z.of_nat (base.size (delete k M))).
Proof.
  intros HK Ht Hk.
  destruct (art_delete_spec (AT := enough_total AA) K HK t M k Ht Hk) as (t' & Hrun & Ht').
  exists t'. split; [|split; [done|by destruct Ht']].
  apply (stops_done AA (λ AA, @art_delete AA t (cstr k) (Z.of_nat (length k)))); [apply art_delete_stops|exact Hrun|].
  intros AT. destruct (art_delete_spec K HK t M k Ht Hk) as (t1 & Hrun1 & _). by eexists.
Qed.

(** The store through a null pointer happens: the first insertion, when malloc
    has no memory for the leaf ... *)
Lemma art_insert_without_memory {AA : ArtAlloc} key klen v :
  malloc_leaf = None → art_insert init_art_tree key klen v = Undef.
Proof. intros H. unfold art_insert, make_leaf. cbn. unfold make_leaf. by rewrite H. Qed.

(** ... and a deletion that shrinks a node, when calloc has none for the new
    one; helper.h lets [add] and [del] report a failure. *)
Lemma art_delete_without_memory :
  ∃ t t', insert_all init_art_tree [[97]; [98]; [99]; [100]; [101]] 1 = Done t ∧
    art_delete t (cstr [97]) 1 = Done (t', 1) ∧
    @art_delete {| calloc_node := λ _, false; malloc_leaf := None |} t' (cstr [98]) 1 = Undef.
Proof.
  do 2 eexists. split; [vm_compute; reflexivity|]. split; [vm_compute; reflexivity|]. vm_compute. reflexivity.
Qed.

(** Claim C10: the functions of helper.h on top of art.c run every sequence of
    [add], [find] and [del] calls (with keys of the key set and values that
    are not null) with the results a finite map gives, as long as there is
    memory.  The key set is a [keyset]. *)
Theorem art_refines_map {AM : ArtMalloc} {AT : ArtMallocTotal AM} malloc_tree K
    (Hm : ∀ ts, malloc_tree ts ≠ 0) (HK : keyset K) obj os M s :
  art_repr K obj M s → ops_ok (MS := art_spec malloc_tree Hm K HK) os M →
  ∃ s', run_ops (MI := art_impl malloc_tree) obj os s = Done ((spec_ops os M).1, s') ∧
    art_repr K obj (spec_ops os M).2 s'.
Proof. intros Hs Hos. exact (run_ops_refines (MS := art_spec malloc_tree Hm K HK) os obj M s Hs Hos). Qed.

(** ** The nodes *)

(** Claim C32: [add_child] under a byte the node does not have inserts into the
    node's map and keeps its prefix, for all four kinds and through the
    growth of a full node into the next kind; when calloc may fail, growing can
    also be undefined. *)
Theorem add_child_correct {AA : ArtAlloc} h ks cs m c x p :
  node_repr h ks cs m → 0 ≤ c < 256 → m !! c = None → x ≠ Null → prefix_repr h p →
  ∃ h' ks' cs', (add_child h ks cs c x = Done (Inner h' ks' cs') ∨
      add_child h ks cs c x = Undef ∧ ¬ ArtAllocTotal AA) ∧
    node_repr h' ks' cs' (<[c := x]> m) ∧ prefix_repr h' p ∧
    (occupancy h (<[c := x]> m) → occupancy h' (<[c := x]> m)).
Proof.
  intros Hn Hc Hnone Hx Hp.
  destruct (add_child_spec (AT := enough_total AA) h ks cs m c x p Hn Hc Hnone Hx Hp)
    as (h' & ks' & cs' & Hrun & Hr & Hp' & Ho).
  exists h', ks', cs'. split; [|split; [done|split; [by apply Hp'|done]]].
  apply (stops_done AA (λ AA, @add_child AA h ks cs c x)); [apply add_child_stops|exact Hrun|].
  intros AT. destruct (add_child_spec h ks cs m c x p Hn Hc Hnone Hx Hp) as (h1 & ks1 & cs1 & Hrun1 & _). by eexists.
Qed.

(** [remove_child] at the position where [find_child] finds a byte
    deletes the byte from the node's map and keeps its prefix, for all four
    kinds and through the shrinking of a sparse node into the kind below; a
    [NODE4] with one child left becomes that child, with the node's prefix
    and the child's byte in front of the child's own prefix. *)
Lemma remove_child_correct {AA : ArtAlloc} {AT : ArtAllocTotal AA} h ks cs m c x p :
  node_repr h ks cs m → occupancy h m → prefix_repr h p → m !! c = Some x →
  ∃ i, find_child h ks cs c = Done (Some i) ∧
    ((∃ h' ks' cs', remove_child h ks cs c i = Done (Inner h' ks' cs') ∧
        node_repr h' ks' cs' (delete c m) ∧ prefix_repr h' p ∧ occupancy h' (delete c m)) ∨
     (∃ c1 x1, delete c m = {[c1 := x1]} ∧ remove_child h ks cs c i = collapse h c1 x1)).
Proof.
  intros Hn Ho Hp Hx. destruct (proj2 Hn c x Hx) as [Hc _].
  pose proof (find_child_spec h ks cs m c Hn Hc) as Hfind. rewrite Hx in Hfind.
  destruct Hfind as (i & Hi & Hfound). exists i. split; [done|].
  destruct (remove_child_spec h ks cs m c x i p Hn Ho Hp Hx Hfound) as [(h' & ks' & cs' & Hrun & Hr & Hp' & Ho')|H]; [left|by right].
  exists h', ks', cs'. split; [done|]. split; [done|]. split; [by apply Hp'|done].
Qed.

(** ** Signed and unsigned bytes *)

(** Three keys of 13 bytes with a common prefix of 12 bytes above 127. *)
Definition high_prefix : list Z := replicate 12 200.
Definition high_keys : list (list Z) := [high_prefix ++ [1]; high_prefix ++ [2]; high_prefix ++ [3]].

(** Past the ten bytes of prefix a node stores, [prefix_mismatch]
    compares the unsigned bytes of a leaf with the signed bytes of the key, so
    equal bytes above 127 look different: the third key is inserted next to a
    child with the same byte, and cannot be found any more. *)
Lemma art_long_high_prefix_loses_key :
  ∃ t, insert_all init_art_tree high_keys 1 = Done t ∧ size t = 3 ∧
    search_key t (high_prefix ++ [1]) = Done 1 ∧ search_key t (high_prefix ++ [2]) = Done 2 ∧
    search_key t (high_prefix ++ [3]) = Done 0.
Proof. eexists. split; [vm_compute; reflexivity|]. vm_compute. done. Qed.

(** [art_search] compares the stored bytes of a prefix with the key
    but then skips the whole prefix without looking at the length of the key:
    with two keys of 30 bytes that share 25 in the tree, a search for the first
    12 of these bytes reads the key at position 25, outside of its buffer. *)
Lemma art_search_reads_past_key :
  ∃ t, insert_all init_art_tree [replicate 25 97 ++ replicate 5 98; replicate 25 97 ++ replicate 5 99] 1 = Done t ∧
    search_key t (replicate 12 97) = Undef.
Proof. eexists. split; [vm_compute; reflexivity|]. vm_compute. reflexivity. Qed.

(** ** Walking the tree *)

(** Claim C33: [art_iter] calls back for every binding of the map exactly once
    until the callback returns a stop value, which it returns.  With keys of at
    most eleven bytes (no prefix then exceeds what a node stores),
    [art_iter_prefix] does the same for the bindings whose key starts with the
    given prefix, provided that there is one. *)
Theorem art_walks_correct K t M q :
  keyset K → tree_repr K t M →
  (∃ ls, lists ls M ∧ ∀ S (cb : art_leaf → S → Z * S) data, art_iter cb t data = Done (visit cb ls data)) ∧
  ((∀ k, K k → (length k ≤ 11)%nat) → nonul q → (∃ k v, M !! k = Some v ∧ q `prefix_of` k) →
   ∃ ls, lists ls (with_prefix q M) ∧ ∀ S (cb : art_leaf → S → Z * S) data,
     art_iter_prefix cb t (cstr q) (Z.of_nat (length q)) data = Done (visit cb ls data)).
Proof.
  intros HK Ht. split; [by apply (art_iter_spec K)|]. intros Hshort Hq Hex.
  by apply (art_iter_prefix_spec K HK Hshort).
Qed.

(** A callback that collects the first bytes of the keys. *)
Definition collect (n : nat) (l : art_leaf) (data : list (list Z)) : Z * list (list Z) :=
  (0, data ++ [take n (leaf_key l)]).

(** [art_iter_prefix] takes the result of [prefix_mismatch] for a match within
    the prefix of the node, but for a prefix of more than ten bytes it is the
    match with the key of some leaf: when that leaf has the whole prefix that
    is asked for, the walk visits all its siblings, too. *)
Lemma art_iter_prefix_visits_others :
  ∃ t, insert_all init_art_tree [replicate 11 97 ++ [98]; replicate 11 97 ++ [99]] 1 = Done t ∧
    art_iter_prefix (collect 12) t (cstr (replicate 11 97 ++ [98])) 12 [] =
      Done (0, [replicate 11 97 ++ [98]; replicate 11 97 ++ [99]]).
Proof. eexists. split; [vm_compute; reflexivity|]. vm_compute. reflexivity. Qed.

(** A key that leaves the prefix of a node half-way is not given up: the walk
    goes on behind the prefix, past the end of a key that is shorter. *)
Lemma art_iter_prefix_reads_past_key :
  ∃ t, insert_all init_art_tree [[97; 98; 99; 100; 101; 49]; [97; 98; 99; 100; 101; 50]] 1 = Done t ∧
    art_iter_prefix (collect 6) t (cstr [97; 98; 120]) 3 [] = Undef.
Proof. eexists. split; [vm_compute; reflexivity|]. vm_compute. reflexivity. Qed.

(** [add_child16] orders the children by signed bytes and the other
    node kinds by unsigned bytes, so in a node of five children
    [art_minimum] returns the leaf of the greatest byte instead of the least. *)
Lemma art_minimum_not_least :
  ∃ t l, insert_all init_art_tree [[97]; [98]; [99]; [100]; [200]] 1 = Done t ∧
    art_minimum t = Done (Some l) ∧ take 1 (leaf_key l) = [200].
Proof. do 2 eexists. split; [vm_compute; reflexivity|]. split; vm_compute; reflexivity. Qed.

(** ** A key that is a prefix of another *)

(** When one key is a proper prefix of another, [split_leaf] files
    the shorter one under the byte that follows it in its block, which malloc
    left indeterminate; unless that byte is 0 the key is lost. *)
Lemma art_prefix_key_lost s :
  1 ≤ s < 256 →
  ∃ t, @insert_all (leaving [s; 0; 0; 0]) init_art_tree [[97; 98]; [97; 98; 99]] 1 = Done t ∧ size t = 2 ∧
    search_key t [97; 98] = Done 0.
Proof.
  intros Hs.
  pose proof (byte_cases (λ s, (s =? 0) ||
    match @insert_all (leaving [s; 0; 0; 0]) init_art_tree [[97; 98]; [97; 98; 99]] 1 with
    | Done t => (size t =? 2) && match search_key t [97; 98] with Done 0 => true | _ => false end
    | _ => false
    end) s ltac:(vm_compute; reflexivity) ltac:(lia)) as H. cbv beta in H.
  destruct (Z.eqb_spec s 0); [lia|]. rewrite orb_false_l in H.
  destruct (@insert_all (leaving [s; 0; 0; 0]) init_art_tree [[97; 98]; [97; 98; 99]] 1) as [t| | |]; [|done..].
  apply andb_prop in H as [Hsz%Z.eqb_eq H]. exists t. split; [done|]. split; [done|].
  destruct (search_key t [97; 98]) as [[| |]| | |]; done.
Qed.

(** ** Destruction *)

(** After a deletion has left a hole among the children of a
    [NODE48], [destroy_node] misses the last of them: a tree of 17 keys (18
    blocks) is destroyed with 17 calls of [free]. *)
Lemma destroy_node48_leaks :
  ∃ t t' t'', insert_all init_art_tree ((λ c, [c]) <$> seqZ 97 18) 1 = Done t ∧
    art_delete t (cstr [97]) 1 = Done (t', 1) ∧ size t' = 17 ∧ destroy_art_tree t' = Done (t'', 17).
Proof.
  do 3 eexists. split; [vm_compute; reflexivity|]. split; [vm_compute; reflexivity|].
  split; vm_compute; reflexivity.
Qed.

(** [clear] frees the nodes of a tree but leaves its root pointer,
    so the first [find] afterwards reads freed memory; helper.h promises an
    empty map. *)
Lemma art_clear_leaves_dangling obj t n s k :
  trees s !! obj = Some t → root t ≠ Null → art_lock s = Rwlock 0 false →
  nonul k → Z.of_nat (length k) < 2 ^ 31 → destroy_art_tree t = Done n →
  ∃ s', clear obj s = Done (tt, s') ∧ find obj (cstr k) s' = Undef.
Proof.
  intros Hobj Hroot Hlock Hk Hlen Hd. unfold clear.
  assert (rwlock_wrlock s = Done (tt, ArtState (trees s) (Rwlock 0 true))) as Hw.
  { unfold rwlock_wrlock. by rewrite Hlock. }
  run_to Hw.
  assert (n.1 = Tree Freed (size t)) as Hn.
  { unfold destroy_art_tree in Hd. destruct (destroy_node _ _); cbn in Hd; [|done..].
    injection Hd as <-. cbn. by destruct (root t). }
  destruct n as [t' cnt]. cbn in Hn. subst t'.
  erewrite bind_done; [|unfold load_tree; cbn [trees]; rewrite Hobj; reflexivity]. cbn beta.
  rewrite Hd. run_by (apply lift_done). cbn beta iota. run_by (reflexivity).
  eexists. split; [reflexivity|]. unfold find.
  run_by (reflexivity). cbn [trees art_lock writer readers].
  erewrite bind_done; [|unfold load_tree; cbn [trees]; rewrite lookup_insert_eq; reflexivity]. cbn beta.
  rewrite (strlen_cstr k Hk). run_by (apply lift_done). reflexivity.
Qed.

Lemma art_prefix_key_lost_witness :
  ∃ t, @insert_all (leaving [99; 0; 0; 0]) init_art_tree [[97; 98]; [97; 98; 99]] 1 = Done t ∧ size t = 2 ∧
    search_key t [97; 98] = Done 0.
Proof. apply (art_prefix_key_lost 99). lia. Defined.

Lemma art_clear_leaves_dangling_witness :
  ∃ s', clear 16 (ArtState {[16 := Tree (Leaf (ArtLeaf 5 1 [97; 0; 0; 0; 0])) 1]} (Rwlock 0 false)) = Done (tt, s') ∧
    find 16 (cstr [97]) s' = Undef.
Proof.
  apply (art_clear_leaves_dangling 16 (Tree (Leaf (ArtLeaf 5 1 [97; 0; 0; 0; 0])) 1)
           (Tree Freed 1, 1) (ArtState {[16 := Tree (Leaf (ArtLeaf 5 1 [97; 0; 0; 0; 0])) 1]} (Rwlock 0 false)) [97]);
    [reflexivity|discriminate|reflexivity|repeat constructor; lia|reflexivity|reflexivity].
Defined.

(** ** Instances of the positive properties *)

(** Three ASCII keys of 14 bytes: two share 12 bytes, more than a node
    stores; the third leaves them after 11. *)
Definition ascii14 (k : list Z) : Prop := Forall (λ c, 0 < c < 128) k ∧ length k = 14%nat.
Definition long_key (a b : Z) : list Z := replicate 11 97 ++ [a; b; 97].
Definition key1 : list Z := long_key 97 98.
Definition key2 : list Z := long_key 97 99.
Definition key3 : list Z := long_key 100 98.

Definition tree_of (o : outcome (art_tree * Z)) : art_tree :=
  match o with Done (t, _) => t | _ => init_art_tree end.
Definition tree2 : art_tree :=
  tree_of (art_insert (tree_of (art_insert init_art_tree (cstr key1) 14 1)) (cstr key2) 14 2).
Definition tree3 : art_tree := tree_of (art_insert tree2 (cstr key3) 14 3).

Lemma ascii14_keyset : keyset ascii14.
Proof. by apply keyset_ascii. Qed.

Lemma long_key_ok a b : 0 < a < 128 → 0 < b < 128 → ascii14 (long_key a b).
Proof.
  intros Ha Hb. split; [|done]. apply Forall_app. split; [by apply Forall_replicate|].
  rewrite !Forall_cons, Forall_nil. lia.
Qed.

Lemma tree_of_insert t M k v :
  tree_repr ascii14 t M → ascii14 k →
  tree_repr ascii14 (tree_of (art_insert t (cstr k) 14 v)) (<[k := v]> M).
Proof.
  intros Ht Hk. destruct (art_insert_spec ascii14 ascii14_keyset t M k v Ht Hk) as (t' & Hrun & Ht').
  destruct Hk as [_ Hlen]. rewrite Hlen in Hrun. change (Z.of_nat 14) with 14 in Hrun. by rewrite Hrun.
Qed.

Lemma tree2_repr : tree_repr ascii14 tree2 {[key2 := 2; key1 := 1]}.
Proof.
  unfold tree2. apply tree_of_insert; [|by apply long_key_ok].
  apply (tree_of_insert init_art_tree ∅ key1 1); [apply init_art_tree_repr|by apply long_key_ok].
Qed.

Lemma tree3_repr : tree_repr ascii14 tree3 {[key3 := 3; key2 := 2; key1 := 1]}.
Proof. unfold tree3. apply tree_of_insert; [apply tree2_repr|by apply long_key_ok]. Qed.

Lemma art_insert_correct_witness :
  ∃ t', art_insert tree2 (cstr key3) 14 3 = Done (t', find_result {[key2 := 2; key1 := 1]} key3) ∧
    tree_repr ascii14 t' (<[key3 := 3]> {[key2 := 2; key1 := 1]}) ∧
    art_size t' = u64 (Z.of_nat (base.size (<[key3 := 3]> ({[key2 := 2; key1 := 1]} : kvmap)))).
Proof.
  pose proof (long_key_ok 100 98 ltac:(lia) ltac:(lia)) as Hk.
  pose proof (art_insert_correct ascii14 tree2 {[key2 := 2; key1 := 1]} key3 3 ascii14_keyset tree2_repr Hk) as (t' & Hrun & H).
  exists t'. split; [|exact H]. destruct Hrun as [Hrun|[_ Hn]]; [exact Hrun|].
  destruct (Hn zeroed_total).
Defined.

Lemma art_search_correct_witness :
  art_search tree3 (cstr key2) 14 = Done (find_result {[key3 := 3; key2 := 2; key1 := 1]} key2).
Proof.
  apply (art_search_correct ascii14 tree3 {[key3 := 3; key2 := 2; key1 := 1]} key2 ascii14_keyset tree3_repr).
  by apply long_key_ok.
Defined.

(** The deletion collapses the lower node and joins the prefixes. *)
Lemma art_delete_correct_witness :
  ∃ t', art_delete tree3 (cstr key3) 14 = Done (t', find_result {[key3 := 3; key2 := 2; key1 := 1]} key3) ∧
    tree_repr ascii14 t' (delete key3 {[key3 := 3; key2 := 2; key1 := 1]}) ∧
    art_size t' = u64 (Z.of_nat (base.size (delete key3 ({[key3 := 3; key2 := 2; key1 := 1]} : kvmap)))).
Proof.
  pose proof (long_key_ok 100 98 ltac:(lia) ltac:(lia)) as Hk.
  pose proof (art_delete_correct ascii14 tree3 {[key3 := 3; key2 := 2; key1 := 1]} key3 ascii14_keyset tree3_repr Hk) as (t' & Hrun & H).
  exists t'. split; [|exact H]. destruct Hrun as [Hrun|[_ Hn]]; [exact Hrun|].
  destruct (Hn zeroed_total).
Defined.

(** The answers do not depend on memory. *)
#[local] Instance zeroed_always : ArtMalloc := λ _, zeroed.
#[local] Instance zeroed_always_total : ArtMallocTotal zeroed_always.
Proof. intros ts. apply zeroed_total. Qed.

(** malloc that always returns the same block. *)
Definition malloc16 (_ : gmap Z art_tree) : Z := 16.
Lemma malloc16_ok ts : malloc16 ts ≠ 0.
Proof. done. Qed.

Definition start_state : art_state := ArtState {[16 := init_art_tree]} (Rwlock 0 false).
Lemma start_state_repr : art_repr ascii14 16 ∅ start_state.
Proof.
  exists init_art_tree, ∅. split; [done|]. split; [done|]. by split; [apply init_art_tree_repr|].
Qed.

Lemma art_refines_map_witness :
  ∃ s', run_ops (MI := art_impl malloc16) 16 [Add key1 5; Find key1; Add key2 6; Del key1; Find key1] start_state =
    Done ([0; 5; 0; 0; 0], s') ∧ art_repr ascii14 16 {[key2 := 6]} s'.
Proof.
  pose proof (long_key_ok 97 98 ltac:(lia) ltac:(lia)) as Hk1. pose proof (long_key_ok 97 99 ltac:(lia) ltac:(lia)) as Hk2.
  apply (art_refines_map malloc16 ascii14 malloc16_ok ascii14_keyset 16
    [Add key1 5; Find key1; Add key2 6; Del key1; Find key1] ∅ start_state start_state_repr).
  cbn -[key1 key2 ascii14]. repeat (split; [done|]). done.
Defined.

(** A full [NODE4] that grows. *)
Definition full4 : list (Z * art_node) := (λ c, (c, Leaf (ArtLeaf c 1 [c]))) <$> [97; 98; 99; 100].
Definition full4_header : art_header := Header NODE4 4 0 (replicate 10 0).

Lemma full4_repr : node_repr full4_header full4.*1 full4.*2 (list_to_map full4).
Proof.
  split.
  - apply Kind4; [done|]. exists full4, [], []. rewrite !app_nil_r. do 5 (split; [done|]).
    split; [|done]. apply (bool_decide_unpack _). vm_compute. done.
  - apply map_Forall_to_list, Forall_forall. intros [c x] Hin. apply elem_of_map_to_list, elem_of_list_to_map_2 in Hin.
    unfold full4 in Hin. apply list_elem_of_fmap in Hin as (c' & [= -> ->] & Hin). split; [|done].
    rewrite !elem_of_cons in Hin. destruct Hin as [->|[->|[->|[->|Hin]]]]; [lia..|]. by apply elem_of_nil in Hin.
Qed.

Lemma full4_prefix : prefix_repr full4_header [].
Proof. done. Qed.

Lemma add_child_correct_witness :
  ∃ h' ks' cs', add_child full4_header full4.*1 full4.*2 101 (Leaf (ArtLeaf 5 1 [101])) = Done (Inner h' ks' cs') ∧
    node_repr h' ks' cs' (<[101 := Leaf (ArtLeaf 5 1 [101])]> (list_to_map full4)) ∧ prefix_repr h' [] ∧
    (occupancy full4_header (<[101 := Leaf (ArtLeaf 5 1 [101])]> (list_to_map full4)) →
     occupancy h' (<[101 := Leaf (ArtLeaf 5 1 [101])]> (list_to_map full4))).
Proof.
  destruct (add_child_correct full4_header full4.*1 full4.*2 (list_to_map full4) 101 (Leaf (ArtLeaf 5 1 [101])) [] full4_repr)
    as (h' & ks' & cs' & [Hrun|[_ Hn]] & H); [lia|vm_compute; reflexivity|done|exact full4_prefix| |].
  - by exists h', ks', cs'.
  - destruct (Hn zeroed_total).
Defined.

Lemma remove_child_correct_witness :
  ∃ i, find_child full4_header full4.*1 full4.*2 98 = Done (Some i) ∧
    ((∃ h' ks' cs', remove_child full4_header full4.*1 full4.*2 98 i = Done (Inner h' ks' cs') ∧
        node_repr h' ks' cs' (delete 98 (list_to_map full4)) ∧ prefix_repr h' [] ∧
        occupancy h' (delete 98 (list_to_map full4))) ∨
     (∃ c1 x1, delete 98 (list_to_map full4 : kidmap) = {[c1 := x1]} ∧
        remove_child full4_header full4.*1 full4.*2 98 i = collapse full4_header c1 x1)).
Proof.
  apply (remove_child_correct full4_header full4.*1 full4.*2 (list_to_map full4) 98 (Leaf (ArtLeaf 98 1 [98])) [] full4_repr);
    [exact (proj1 (Nat.leb_le 2 (base.size (list_to_map full4 : kidmap))) eq_refl)|exact full4_prefix|vm_compute; reflexivity].
Defined.

(** Three keys of three bytes, two of which share two. *)
Definition ascii3 (k : list Z) : Prop := Forall (λ c, 0 < c < 128) k ∧ length k = 3%nat.
Definition short_tree : art_tree :=
  tree_of (art_insert (tree_of (art_insert (tree_of (art_insert init_art_tree (cstr [97; 98; 99]) 3 1))
    (cstr [97; 98; 100]) 3 2)) (cstr [98; 98; 99]) 3 3).
Definition short_map : kvmap := {[ [98; 98; 99] := 3; [97; 98; 100] := 2; [97; 98; 99] := 1 ]}.

Lemma ascii3_keyset : keyset ascii3.
Proof. by apply keyset_ascii. Qed.

Lemma short_tree_repr : tree_repr ascii3 short_tree short_map.
Proof.
  assert (∀ t M k v, tree_repr ascii3 t M → ascii3 k →
    tree_repr ascii3 (tree_of (art_insert t (cstr k) 3 v)) (<[k := v]> M)) as Hins.
  { intros t M k v Ht Hk. destruct (art_insert_spec ascii3 ascii3_keyset t M k v Ht Hk) as (t' & Hrun & Ht').
    destruct Hk as [_ Hlen]. rewrite Hlen in Hrun. change (Z.of_nat 3) with 3 in Hrun. by rewrite Hrun. }
  assert (∀ a b c, 0 < a < 128 → 0 < b < 128 → 0 < c < 128 → ascii3 [a; b; c]) as Hk.
  { intros a b c Ha Hb Hc. split; [|done]. rewrite !Forall_cons, Forall_nil. lia. }
  unfold short_tree, short_map. apply Hins; [|apply Hk; lia]. apply Hins; [|apply Hk; lia].
  apply (Hins init_art_tree ∅); [apply init_art_tree_repr|apply Hk; lia].
Qed.

Lemma art_walks_correct_witness :
  (∃ ls, lists ls short_map ∧ ∀ S (cb : art_leaf → S → Z * S) data,
     art_iter cb short_tree data = Done (visit cb ls data)) ∧
  ∃ ls, lists ls (with_prefix [97; 98] short_map) ∧ ∀ S (cb : art_leaf → S → Z * S) data,
    art_iter_prefix cb short_tree (cstr [97; 98]) 2 data = Done (visit cb ls data).
Proof.
  destruct (art_walks_correct ascii3 short_tree short_map [97; 98] ascii3_keyset short_tree_repr) as [H1 H2].
  split; [exact H1|]. apply H2.
  - intros k [_ ->]. lia.
  - unfold nonul. rewrite !Forall_cons, Forall_nil. lia.
  - exists [97; 98; 99], 1. split; [reflexivity|]. by exists [99].
Defined.
