(* ===== verification/RbTree.v ===== *)
(** * RbTree: the red-black tree of tree.h as bsdtree.c instantiates it

    [RB_GENERATE] generates functions over entries with left, right and
    parent pointers and a colour.  The model keeps a heap of two kinds of
    block, the tree head and the entries with the key's characters behind
    them, and every generated function is a command over it, in the order of
    the C statements.  Where the macros have two branches that differ only by
    exchanging left and right, the model has one command with the side as an
    argument ([rb_side]); [RB_AUGMENT] is empty in this program, but the loads
    made for it are kept.  Loops take the number of live blocks as fuel. *)

From S2P Require Import Prelude.
From S2P Require Import Heap.

(** ** Data *)

Definition RB_BLACK : Z := 0.
Definition RB_RED : Z := 1.
Definition RB_NEGINF : Z := -1.
Definition RB_INF : Z := 1.

Record rb_entry := RbEntry {
  rbe_left : Z;
  rbe_right : Z;
  rbe_parent : Z;
  rbe_color : Z;
}.

Record hash_entry := HashEntry { entries : rb_entry; key : Z; value : Z }.

(** [sizeof(struct hash_entry)] and [sizeof(struct hash_root)]. *)
Definition SIZEOF_HASH_ENTRY : Z := 48.
Definition SIZEOF_HASH_ROOT : Z := 8.

(** A block is a [struct hash_root], i.e. the pointer [rbh_root], or a
    [struct hash_entry] with the characters allocated behind it. *)
Inductive rblock :=
  | BHead (rbh_root : Z)
  | BEntry (e : hash_entry) (chars : list Z).

Notation rheap := (gmap Z rblock).

#[export] Instance rb_entry_eq_dec : EqDecision rb_entry.
Proof. solve_decision. Defined.
#[export] Instance hash_entry_eq_dec : EqDecision hash_entry.
Proof. solve_decision. Defined.
#[export] Instance rblock_eq_dec : EqDecision rblock.
Proof. solve_decision. Defined.

(** ** Field access *)

Definition load_entry (a : Z) : cmd rheap hash_entry := λ m,
  match m !! a with Some (BEntry e _) => Done (e, m) | _ => Undef end.
Definition store_entry (a : Z) (e : hash_entry) : cmd rheap unit := λ m,
  match m !! a with Some (BEntry _ cs) => Done (tt, <[a := BEntry e cs]> m) | _ => Undef end.
Definition modify (a : Z) (f : rb_entry → rb_entry) : cmd rheap unit :=
  e ← load_entry a; store_entry a (HashEntry (f (entries e)) (key e) (value e)).

Definition RB_LEFT (elm : Z) : cmd rheap Z := e ← load_entry elm; mret (rbe_left (entries e)).
Definition RB_RIGHT (elm : Z) : cmd rheap Z := e ← load_entry elm; mret (rbe_right (entries e)).
Definition RB_PARENT (elm : Z) : cmd rheap Z := e ← load_entry elm; mret (rbe_parent (entries e)).
Definition RB_COLOR (elm : Z) : cmd rheap Z := e ← load_entry elm; mret (rbe_color (entries e)).

Definition set_left (p : Z) (x : rb_entry) : rb_entry :=
  RbEntry p (rbe_right x) (rbe_parent x) (rbe_color x).
Definition set_right (p : Z) (x : rb_entry) : rb_entry :=
  RbEntry (rbe_left x) p (rbe_parent x) (rbe_color x).
Definition set_parent (p : Z) (x : rb_entry) : rb_entry :=
  RbEntry (rbe_left x) (rbe_right x) p (rbe_color x).
Definition set_color (c : Z) (x : rb_entry) : rb_entry :=
  RbEntry (rbe_left x) (rbe_right x) (rbe_parent x) c.

Definition SET_PARENT (elm p : Z) : cmd rheap unit := modify elm (set_parent p).
Definition SET_COLOR (elm c : Z) : cmd rheap unit := modify elm (set_color c).

(** The two sides of an entry. *)
Inductive rb_side := LEFT | RIGHT.
#[export] Instance rb_side_eq_dec : EqDecision rb_side.
Proof. solve_decision. Defined.

Definition other (d : rb_side) : rb_side := match d with LEFT => RIGHT | RIGHT => LEFT end.
Definition RB_CHILD (d : rb_side) (elm : Z) : cmd rheap Z :=
  match d with LEFT => RB_LEFT elm | RIGHT => RB_RIGHT elm end.
Definition SET_CHILD (d : rb_side) (elm p : Z) : cmd rheap unit :=
  modify elm (match d with LEFT => set_left p | RIGHT => set_right p end).

Definition RB_ROOT (head : Z) : cmd rheap Z := λ m,
  match m !! head with Some (BHead r) => Done (r, m) | _ => Undef end.
Definition SET_ROOT (head p : Z) : cmd rheap unit := λ m,
  match m !! head with Some (BHead _) => Done (tt, <[head := BHead p]> m) | _ => Undef end.

Definition RB_INIT (head : Z) : cmd rheap unit := SET_ROOT head 0.
Definition RB_EMPTY (head : Z) : cmd rheap bool := r ← RB_ROOT head; mret (r =? 0).

Definition RB_SET (elm parent : Z) : cmd rheap unit :=
  _ ← SET_PARENT elm parent;
  _ ← SET_CHILD RIGHT elm 0;
  _ ← SET_CHILD LEFT elm 0;
  SET_COLOR elm RB_RED.

Definition RB_SET_BLACKRED (black red : Z) : cmd rheap unit :=
  _ ← SET_COLOR black RB_BLACK;
  SET_COLOR red RB_RED.

(** The fuel of a walk: no walk visits a block twice. *)
Definition live_blocks : cmd rheap nat := m ← get_state; mret (size m).

(** ** Rotations *)

(** [if (parent) { if (RB_LEFT(parent) == old) RB_LEFT(parent) = new; else
    RB_RIGHT(parent) = new; } else RB_ROOT(head) = new;], which the rotations
    and [RB_REMOVE] repeat. *)
Definition relink (head parent old new : Z) : cmd rheap unit :=
  if parent =? 0 then SET_ROOT head new
  else
    l ← RB_LEFT parent;
    if l =? old then SET_CHILD LEFT parent new else SET_CHILD RIGHT parent new.

(** [if (elm) RB_PARENT(elm) = parent]. *)
Definition adopt (elm parent : Z) : cmd rheap unit :=
  if elm =? 0 then mret tt else SET_PARENT elm parent.

(** [RB_ROTATE_LEFT] is [RB_ROTATE LEFT], [RB_ROTATE_RIGHT] is
    [RB_ROTATE RIGHT]; the result is what the macro leaves in [tmp]. *)
Definition RB_ROTATE (d : rb_side) (head elm : Z) : cmd rheap Z :=
  tmp ← RB_CHILD (other d) elm;
  inner ← RB_CHILD d tmp;
  _ ← SET_CHILD (other d) elm inner;
  _ ← adopt inner elm;
  parent ← RB_PARENT elm;
  _ ← SET_PARENT tmp parent;
  _ ← relink head parent elm tmp;
  _ ← SET_CHILD d tmp elm;
  _ ← SET_PARENT elm tmp;
  _ ← RB_PARENT tmp;
  mret tmp.

(** ** Insertion *)

(** The rest of an iteration of [RB_INSERT_COLOR] when the uncle is not red:
    [elm] hangs under [parent] on side [d'], [parent] under [gparent] on side
    [d].  It returns the new value of [elm]. *)
Definition insert_rotate (d : rb_side) (head elm parent gparent : Z) : cmd rheap Z :=
  inner ← RB_CHILD (other d) parent;
  ep ← (if inner =? elm then _ ← RB_ROTATE d head parent; mret (parent, elm)
        else mret (elm, parent));
  let '(elm, parent) := ep in
  _ ← RB_SET_BLACKRED parent gparent;
  _ ← RB_ROTATE (other d) head gparent;
  mret elm.

Fixpoint RB_INSERT_COLOR_loop (fuel : nat) (head elm : Z) : cmd rheap unit :=
  match fuel with
  | O => nofuel
  | S fuel =>
      parent ← RB_PARENT elm;
      pcolor ← (if parent =? 0 then mret RB_BLACK else RB_COLOR parent);
      if (parent =? 0) || negb (pcolor =? RB_RED) then mret tt
      else
        gparent ← RB_PARENT parent;
        gleft ← RB_LEFT gparent;
        let d := if parent =? gleft then LEFT else RIGHT in
        tmp ← RB_CHILD (other d) gparent;
        tcolor ← (if tmp =? 0 then mret RB_BLACK else RB_COLOR tmp);
        if negb (tmp =? 0) && (tcolor =? RB_RED) then
          _ ← SET_COLOR tmp RB_BLACK;
          _ ← RB_SET_BLACKRED parent gparent;
          RB_INSERT_COLOR_loop fuel head gparent
        else
          elm ← insert_rotate d head elm parent gparent;
          RB_INSERT_COLOR_loop fuel head elm
  end.

Definition RB_INSERT_COLOR (head elm : Z) : cmd rheap unit :=
  fuel ← live_blocks;
  _ ← RB_INSERT_COLOR_loop fuel head elm;
  root ← RB_ROOT head;
  SET_COLOR root RB_BLACK.

(** The descent of [RB_INSERT]: the entry it stops at with the last
    comparison, or an entry with the same key.  [cmp] is the macro's
    comparison of [elm] with an entry of the tree. *)
Fixpoint RB_INSERT_loop (fuel : nat) (cmp : Z → cmd rheap Z) (tmp parent comp : Z) :
    cmd rheap (Z + Z * Z) :=
  match fuel with
  | O => nofuel
  | S fuel =>
      if tmp =? 0 then mret (inr (parent, comp))
      else
        comp ← cmp tmp;
        if comp <? 0 then t ← RB_LEFT tmp; RB_INSERT_loop fuel cmp t tmp comp
        else if 0 <? comp then t ← RB_RIGHT tmp; RB_INSERT_loop fuel cmp t tmp comp
        else mret (inl tmp)
  end.

Definition RB_INSERT (cmp : Z → cmd rheap Z) (head elm : Z) : cmd rheap Z :=
  fuel ← live_blocks;
  tmp ← RB_ROOT head;
  r ← RB_INSERT_loop fuel cmp tmp 0 0;
  match r with
  | inl tmp => mret tmp
  | inr (parent, comp) =>
      _ ← RB_SET elm parent;
      _ ← (if negb (parent =? 0) then
             if comp <? 0 then SET_CHILD LEFT parent elm else SET_CHILD RIGHT parent elm
           else SET_ROOT head elm);
      _ ← RB_INSERT_COLOR head elm;
      mret 0
  end.

(** ** Removal *)

(** [elm == NULL || RB_COLOR(elm) == RB_BLACK]. *)
Definition is_black (elm : Z) : cmd rheap bool :=
  if elm =? 0 then mret true else c ← RB_COLOR elm; mret (c =? RB_BLACK).

(** [if (elm) RB_COLOR(elm) = RB_BLACK]. *)
Definition blacken (elm : Z) : cmd rheap unit :=
  if elm =? 0 then mret tt else SET_COLOR elm RB_BLACK.

(** The end of the loop of [RB_REMOVE_COLOR], where it breaks: a child of the
    sibling [tmp] is red.  [remove_lift] is the part after its first [if]; the
    result is the new value of [elm]. *)
Definition remove_lift (d : rb_side) (head parent tmp : Z) : cmd rheap Z :=
  pcolor ← RB_COLOR parent;
  _ ← SET_COLOR tmp pcolor;
  _ ← SET_COLOR parent RB_BLACK;
  outer ← RB_CHILD (other d) tmp;
  _ ← blacken outer;
  _ ← RB_ROTATE d head parent;
  RB_ROOT head.

Definition remove_rotate (d : rb_side) (head parent tmp : Z) : cmd rheap Z :=
  outer ← RB_CHILD (other d) tmp;
  b ← is_black outer;
  tmp ← (if (b : bool) then
           inner ← RB_CHILD d tmp;
           _ ← blacken inner;
           _ ← SET_COLOR tmp RB_RED;
           _ ← RB_ROTATE (other d) head tmp;
           RB_CHILD (other d) parent
         else mret tmp);
  remove_lift d head parent tmp.

(** The red sibling of an iteration: it is rotated above [parent], and the
    new sibling is returned. *)
Definition remove_sibling (d : rb_side) (head parent : Z) : cmd rheap Z :=
  tmp ← RB_CHILD (other d) parent;
  c ← RB_COLOR tmp;
  if c =? RB_RED then
    _ ← RB_SET_BLACKRED tmp parent;
    _ ← RB_ROTATE d head parent;
    RB_CHILD (other d) parent
  else mret tmp.

(** The loop of [RB_REMOVE_COLOR]; it returns the last value of [elm]. *)
Fixpoint RB_REMOVE_COLOR_loop (fuel : nat) (head parent elm : Z) : cmd rheap Z :=
  match fuel with
  | O => nofuel
  | S fuel =>
      black ← is_black elm;
      root ← RB_ROOT head;
      if negb black || (elm =? root) then mret elm
      else
        pleft ← RB_LEFT parent;
        let d := if pleft =? elm then LEFT else RIGHT in
        tmp ← remove_sibling d head parent;
        l ← RB_LEFT tmp;
        lblack ← is_black l;
        allblack ← (if (lblack : bool) then r ← RB_RIGHT tmp; is_black r else mret false);
        if (allblack : bool) then
          _ ← SET_COLOR tmp RB_RED;
          up ← RB_PARENT parent;
          RB_REMOVE_COLOR_loop fuel head up parent
        else remove_rotate d head parent tmp
  end.

Definition RB_REMOVE_COLOR (head parent elm : Z) : cmd rheap unit :=
  fuel ← live_blocks;
  elm ← RB_REMOVE_COLOR_loop fuel head parent elm;
  blacken elm.

(** [while ((left = RB_LEFT(elm)) != NULL) elm = left], and its mirror. *)
Fixpoint descend (fuel : nat) (d : rb_side) (elm : Z) : cmd rheap Z :=
  match fuel with
  | O => nofuel
  | S fuel => p ← RB_CHILD d elm; if p =? 0 then mret elm else descend fuel d p
  end.

(** [do { RB_AUGMENT(left); } while ((left = RB_PARENT(left)) != NULL)]. *)
Fixpoint augment_loop (fuel : nat) (left : Z) : cmd rheap unit :=
  match fuel with
  | O => nofuel
  | S fuel => p ← RB_PARENT left; if p =? 0 then mret tt else augment_loop fuel p
  end.

(** The entry [elm] takes the place of [old] in the tree. *)
Definition replace_entry (head old elm : Z) : cmd rheap unit :=
  o ← load_entry old;
  _ ← modify elm (λ _, entries o);
  oparent ← RB_PARENT old;
  _ ← relink head oparent old elm;
  oleft ← RB_LEFT old;
  _ ← SET_PARENT oleft elm;
  oright ← RB_RIGHT old;
  adopt oright elm.

(** The removal of an entry with two children: its successor takes its
    place.  The result is the parent, the child and the colour that
    [RB_REMOVE_COLOR] needs. *)
Definition remove_two (head old : Z) : cmd rheap (Z * Z * Z) :=
  fuel ← live_blocks;
  elm ← RB_RIGHT old;
  elm ← descend fuel LEFT elm;
  child ← RB_RIGHT elm;
  parent ← RB_PARENT elm;
  color ← RB_COLOR elm;
  _ ← adopt child parent;
  _ ← relink head parent elm child;
  eparent ← RB_PARENT elm;
  let parent := if eparent =? old then elm else parent in
  _ ← replace_entry head old elm;
  _ ← (if parent =? 0 then mret tt else augment_loop fuel parent);
  mret (parent, child, color).

(** The removal of an entry with at most one child. *)
Definition remove_one (head elm child : Z) : cmd rheap (Z * Z * Z) :=
  parent ← RB_PARENT elm;
  color ← RB_COLOR elm;
  _ ← adopt child parent;
  _ ← relink head parent elm child;
  mret (parent, child, color).

(** [RB_REMOVE] before the label [color]. *)
Definition unlink_entry (head elm : Z) : cmd rheap (Z * Z * Z) :=
  l ← RB_LEFT elm;
  if l =? 0 then child ← RB_RIGHT elm; remove_one head elm child
  else
    r ← RB_RIGHT elm;
    if r =? 0 then child ← RB_LEFT elm; remove_one head elm child
    else remove_two head elm.

Definition RB_REMOVE (head elm : Z) : cmd rheap Z :=
  pcc ← unlink_entry head elm;
  let '(parent, child, color) := pcc in
  _ ← (if color =? RB_BLACK then RB_REMOVE_COLOR head parent child else mret tt);
  mret elm.

(** ** Searches *)

Fixpoint RB_FIND_loop (fuel : nat) (cmp : Z → cmd rheap Z) (tmp : Z) : cmd rheap Z :=
  match fuel with
  | O => nofuel
  | S fuel =>
      if tmp =? 0 then mret 0
      else
        comp ← cmp tmp;
        if comp <? 0 then t ← RB_LEFT tmp; RB_FIND_loop fuel cmp t
        else if 0 <? comp then t ← RB_RIGHT tmp; RB_FIND_loop fuel cmp t
        else mret tmp
  end.

Definition RB_FIND (cmp : Z → cmd rheap Z) (head : Z) : cmd rheap Z :=
  fuel ← live_blocks;
  tmp ← RB_ROOT head;
  RB_FIND_loop fuel cmp tmp.

Fixpoint RB_NFIND_loop (fuel : nat) (cmp : Z → cmd rheap Z) (tmp res : Z) : cmd rheap Z :=
  match fuel with
  | O => nofuel
  | S fuel =>
      if tmp =? 0 then mret res
      else
        comp ← cmp tmp;
        if comp <? 0 then t ← RB_LEFT tmp; RB_NFIND_loop fuel cmp t tmp
        else if 0 <? comp then t ← RB_RIGHT tmp; RB_NFIND_loop fuel cmp t res
        else mret tmp
  end.

Definition RB_NFIND (cmp : Z → cmd rheap Z) (head : Z) : cmd rheap Z :=
  fuel ← live_blocks;
  tmp ← RB_ROOT head;
  RB_NFIND_loop fuel cmp tmp 0.

(** ** Iteration *)

(** [while (RB_PARENT(elm) && elm == RB_RIGHT(RB_PARENT(elm))) elm =
    RB_PARENT(elm)], and its mirror. *)
Fixpoint climb (fuel : nat) (d : rb_side) (elm : Z) : cmd rheap Z :=
  match fuel with
  | O => nofuel
  | S fuel =>
      p ← RB_PARENT elm;
      if p =? 0 then mret elm
      else c ← RB_CHILD d p; if elm =? c then climb fuel d p else mret elm
  end.

(** [RB_NEXT] is [rb_step RIGHT], [RB_PREV] is [rb_step LEFT]. *)
Definition rb_step (d : rb_side) (elm : Z) : cmd rheap Z :=
  fuel ← live_blocks;
  r ← RB_CHILD d elm;
  if negb (r =? 0) then descend fuel (other d) r
  else
    p ← RB_PARENT elm;
    c ← (if p =? 0 then mret 0 else RB_CHILD (other d) p);
    if negb (p =? 0) && (elm =? c) then mret p
    else elm ← climb fuel d elm; RB_PARENT elm.

Definition RB_NEXT : Z → cmd rheap Z := rb_step RIGHT.
Definition RB_PREV : Z → cmd rheap Z := rb_step LEFT.

Fixpoint RB_MINMAX_loop (fuel : nat) (val tmp parent : Z) : cmd rheap Z :=
  match fuel with
  | O => nofuel
  | S fuel =>
      if tmp =? 0 then mret parent
      else
        t ← (if val <? 0 then RB_LEFT tmp else RB_RIGHT tmp);
        RB_MINMAX_loop fuel val t tmp
  end.

Definition RB_MINMAX (head val : Z) : cmd rheap Z :=
  fuel ← live_blocks;
  tmp ← RB_ROOT head;
  RB_MINMAX_loop fuel val tmp 0.

(** The entries [RB_FOREACH] (step [RB_NEXT]) and [RB_FOREACH_REVERSE] (step
    [RB_PREV]) visit, in order, when the body leaves the tree alone. *)
Fixpoint RB_FOREACH_loop (fuel : nat) (step : Z → cmd rheap Z) (x : Z) : cmd rheap (list Z) :=
  match fuel with
  | O => nofuel
  | S fuel =>
      if x =? 0 then mret []
      else y ← step x; l ← RB_FOREACH_loop fuel step y; mret (x :: l)
  end.

Definition RB_FOREACH (head : Z) : cmd rheap (list Z) :=
  fuel ← live_blocks;
  x ← RB_MINMAX head RB_NEGINF;
  RB_FOREACH_loop fuel RB_NEXT x.

Definition RB_FOREACH_REVERSE (head : Z) : cmd rheap (list Z) :=
  fuel ← live_blocks;
  x ← RB_MINMAX head RB_INF;
  RB_FOREACH_loop fuel RB_PREV x.

(** The same from an entry [y] on, which the macros use as the cursor of the
    walk, too. *)
Definition RB_FOREACH_FROM (y : Z) : cmd rheap (list Z) :=
  fuel ← live_blocks; RB_FOREACH_loop fuel RB_NEXT y.
Definition RB_FOREACH_REVERSE_FROM (y : Z) : cmd rheap (list Z) :=
  fuel ← live_blocks; RB_FOREACH_loop fuel RB_PREV y.

(** ** bsdtree.c *)

Definition load_key (a : Z) : cmd rheap Z := e ← load_entry a; mret (key e).
Definition load_value (a : Z) : cmd rheap Z := e ← load_entry a; mret (value e).

(** The characters a key pointer points to: they follow the entry. *)
Definition load_chars (p : Z) : cmd rheap (list Z) := λ m,
  match m !! (p - SIZEOF_HASH_ENTRY) with Some (BEntry _ cs) => Done (cs, m) | _ => Undef end.
Definition store_chars (p : Z) (cs : list Z) : cmd rheap unit := λ m,
  match m !! (p - SIZEOF_HASH_ENTRY) with
  | Some (BEntry e _) => Done (tt, <[p - SIZEOF_HASH_ENTRY := BEntry e cs]> m)
  | _ => Undef
  end.

(** [strcpy] into a buffer. *)
Definition strcpy (dst src : list Z) : outcome (list Z) :=
  n ← strlen src;
  cs ← buf_take src (n + 1);
  if n + 1 <=? Z.of_nat (length dst) then Done (cs ++ drop (length cs) dst) else Undef.

(** [hash_cmp] with the first entry's key given by its characters: the entry
    [find] compares with lives on its stack and has no other field set. *)
Definition hash_cmp_key (k : list Z) (h2 : Z) : cmd rheap Z :=
  p ← load_key h2;
  cs ← load_chars p;
  lift (strcmp k cs).

Definition hash_cmp (h1 h2 : Z) : cmd rheap Z :=
  p ← load_key h1;
  cs ← load_chars p;
  hash_cmp_key cs h2.

Definition find (obj : Z) (k : list Z) : cmd rheap Z :=
  out ← RB_FIND (hash_cmp_key k) obj;
  if out =? 0 then mret 0 else load_value out.

Definition del (obj : Z) (k : list Z) : cmd rheap Z := mret 0.

Definition free (a : Z) : cmd rheap unit := λ m,
  match m !! a with Some _ => Done (tt, delete a m) | None => Undef end.

(** [RB_FOREACH_SAFE(entry, head, tmp) free(entry)]. *)
Fixpoint clear_loop (fuel : nat) (x : Z) : cmd rheap unit :=
  match fuel with
  | O => nofuel
  | S fuel =>
      if x =? 0 then mret tt
      else y ← RB_NEXT x; _ ← free x; clear_loop fuel y
  end.

Definition clear (obj : Z) : cmd rheap unit :=
  fuel ← live_blocks;
  x ← RB_MINMAX obj RB_NEGINF;
  clear_loop fuel x.

Section alloc.
Context `{A : Allocator rblock}.

Definition malloc_block (size : Z) (contents : rblock) : cmd rheap Z := λ m,
  match alloc m size with
  | Some a => Done (a, <[a := contents]> m)
  | None => Done (0, m)
  end.

(** The contents of fresh memory. *)
Definition garbage_entry : hash_entry :=
  HashEntry (RbEntry indeterminate indeterminate indeterminate indeterminate)
    indeterminate indeterminate.

Definition init : cmd rheap Z := malloc_block SIZEOF_HASH_ROOT (BHead indeterminate).

(** The part of [add] that makes the new entry. *)
Definition make_entry (k : list Z) (val : Z) : cmd rheap Z :=
  n ← lift (strlen k);
  let len := s32 n in
  let size := u64 (SIZEOF_HASH_ENTRY + len + 1) in
  entry ← malloc_block size
    (BEntry garbage_entry (replicate (Z.to_nat (size - SIZEOF_HASH_ENTRY)) (u8 indeterminate)));
  e ← load_entry entry;
  _ ← store_entry entry (HashEntry (entries e) (entry + SIZEOF_HASH_ENTRY) (value e));
  e ← load_entry entry;
  _ ← store_entry entry (HashEntry (entries e) (key e) val);
  kp ← load_key entry;
  buf ← load_chars kp;
  buf ← lift (strcpy buf k);
  _ ← store_chars kp buf;
  mret entry.

Definition add (obj : Z) (k : list Z) (val : Z) : cmd rheap Z :=
  found ← find obj k;
  if negb (found =? 0) then mret 1
  else
    entry ← make_entry k val;
    _ ← RB_INSERT (hash_cmp entry) obj entry;
    mret 0.

End alloc.
