(* ===== verification/RbShape.v ===== *)
(** * RbShape: red-black trees as values

    Trees, zippers, in-order lists, the order of keys, and the red-black
    invariant of a tree ([rb]) and of the context of a hole ([ctx_rb]).  A
    context lists the ancestors of the hole from the parent up, each with the
    side the hole is on and the subtree on the other side. *)

From stdpp Require Import sorting.
From S2P Require Import Prelude.
From S2P Require Import RbTree.

(** ** Trees and contexts *)

Inductive color := Red | Black.
#[export] Instance color_eq_dec : EqDecision color.
Proof. solve_decision. Defined.
Definition color_word (c : color) : Z := match c with Red => RB_RED | Black => RB_BLACK end.

Record nd := Nd { n_at : Z; n_col : color; n_key : list Z; n_val : Z }.
Definition paint (c : color) (x : nd) : nd := Nd (n_at x) c (n_key x) (n_val x).

Inductive rtree := E | T (l : rtree) (x : nd) (r : rtree).

#[export] Instance nd_eq_dec : EqDecision nd.
Proof. solve_decision. Defined.
#[export] Instance rtree_eq_dec : EqDecision rtree.
Proof. solve_decision. Defined.

(** The tree with [t] on side [d]. *)
Definition mk (d : rb_side) (t : rtree) (x : nd) (s : rtree) : rtree :=
  match d with LEFT => T t x s | RIGHT => T s x t end.

Definition ptr (t : rtree) : Z := match t with E => 0 | T _ x _ => n_at x end.

Definition repaint (c : color) (t : rtree) : rtree :=
  match t with E => E | T l x r => T l (paint c x) r end.

Lemma repaint_mk c d t x s : repaint c (mk d t x s) = mk d t (paint c x) s.
Proof. by destruct d. Qed.

Record frame := Fr { f_side : rb_side; f_nd : nd; f_sib : rtree }.
Notation context := (list frame).

Fixpoint plug (ctx : context) (t : rtree) : rtree :=
  match ctx with
  | [] => t
  | Fr d x s :: ctx => plug ctx (mk d t x s)
  end.

Definition up (ctx : context) : Z := match ctx with [] => 0 | f :: _ => n_at (f_nd f) end.

Lemma ptr_mk d t x s : ptr (mk d t x s) = n_at x.
Proof. by destruct d. Qed.

Lemma mk_other d t x s : mk (other d) s x t = mk d t x s.
Proof. by destruct d. Qed.

Lemma mk_cases d t : t ≠ E → ∃ l x r, t = mk d l x r.
Proof. destruct t as [|l x r]; [done|]. intros _. destruct d; [by exists l, x, r|by exists r, x, l]. Qed.

Lemma rt_plug_app c1 c2 t : plug (c1 ++ c2) t = plug c2 (plug c1 t).
Proof. revert t. induction c1 as [|[d x s] c1 IH]; intros t; cbn; [done|]. apply IH. Qed.

Lemma plug_ne ctx t : t ≠ E → plug ctx t ≠ E.
Proof.
  revert t. induction ctx as [|[d x s] ctx IH]; intros t Ht; [done|]. apply IH. by destruct d.
Qed.

(** ** The in-order list *)

Fixpoint ents (t : rtree) : list nd :=
  match t with E => [] | T l x r => ents l ++ x :: ents r end.

Fixpoint before (ctx : context) : list nd :=
  match ctx with
  | [] => []
  | Fr LEFT _ _ :: ctx => before ctx
  | Fr RIGHT x s :: ctx => before ctx ++ ents s ++ [x]
  end.

Fixpoint after (ctx : context) : list nd :=
  match ctx with
  | [] => []
  | Fr LEFT x s :: ctx => x :: ents s ++ after ctx
  | Fr RIGHT _ _ :: ctx => after ctx
  end.

Lemma ents_plug ctx t : ents (plug ctx t) = before ctx ++ ents t ++ after ctx.
Proof.
  revert t. induction ctx as [|[[] x s] ctx IH]; intros t; cbn.
  - by rewrite app_nil_r.
  - rewrite IH. cbn. by rewrite <-app_assoc.
  - rewrite IH. cbn. by rewrite <-!app_assoc.
Qed.

(** Entries up to their colours: what the rebalancing preserves. *)
Definition item (x : nd) : Z * list Z * Z := (n_at x, n_key x, n_val x).
Definition items (t : rtree) : list (Z * list Z * Z) := item <$> ents t.

Lemma items_plug ctx t :
  items (plug ctx t) = (item <$> before ctx) ++ items t ++ (item <$> after ctx).
Proof. unfold items. by rewrite ents_plug, !fmap_app. Qed.

Lemma items_plug_T ctx l x r :
  items (plug ctx (T l x r)) =
  ((item <$> before ctx) ++ items l) ++ item x :: items r ++ (item <$> after ctx).
Proof. rewrite items_plug. unfold items. cbn. by rewrite fmap_app, <-!app_assoc. Qed.

Lemma items_plug_eq ctx t t' : items t = items t' → items (plug ctx t) = items (plug ctx t').
Proof. intros H. by rewrite !items_plug, H. Qed.

Lemma items_repaint c t : items (repaint c t) = items t.
Proof. destruct t as [|l x r]; [done|]. unfold items. cbn. by rewrite !fmap_app. Qed.

(** Changing the colours of a tree node by node. *)
Lemma items_mk d t t' x x' s s' :
  items t = items t' → item x = item x' → items s = items s' →
  items (mk d t x s) = items (mk d t' x' s').
Proof.
  unfold items. intros Ht Hx Hs. destruct d; cbn; rewrite !fmap_app; cbn; by rewrite Ht, Hx, Hs.
Qed.

(** A rotation keeps the list. *)
Lemma items_rotate d a x b y c :
  items (mk d a x (mk d b y c)) = items (mk d (mk d a x b) y c).
Proof.
  unfold items. destruct d; cbn; f_equal.
  - by rewrite <-app_assoc.
  - by rewrite <-app_assoc.
Qed.

(** [items_by d]: two trees with the same list, whichever side [d] is. *)
Ltac items_by d :=
  destruct d; unfold items; cbn; repeat (rewrite ?fmap_app, <-?app_assoc; cbn); reflexivity.

(** ** The red-black invariant *)

(** [rb c n t]: [t] has a root of colour [c] (a leaf counts as black), no red
    node with a red child, and [n] black nodes on every path. *)
Inductive rb : color → nat → rtree → Prop :=
  | rb_E : rb Black 0 E
  | rb_black c1 c2 n l x r :
      n_col x = Black → rb c1 n l → rb c2 n r → rb Black (S n) (T l x r)
  | rb_red n l x r :
      n_col x = Red → rb Black n l → rb Black n r → rb Red n (T l x r).

(** [ctx_rb c n ctx]: a tree of colour [c] and black height [n] fits. *)
Inductive ctx_rb : color → nat → context → Prop :=
  | ctx_rb_nil n : ctx_rb Black n []
  | ctx_rb_black c c' n d x s ctx :
      n_col x = Black → rb c' n s → ctx_rb Black (S n) ctx → ctx_rb c n (Fr d x s :: ctx)
  | ctx_rb_red n d x s ctx :
      n_col x = Red → rb Black n s → ctx_rb Red n ctx → ctx_rb Black n (Fr d x s :: ctx).

(** The invariant of a whole tree. *)
Definition rb_tree (t : rtree) : Prop := ∃ n, rb Black n t.

Lemma rb_mk_black d c1 c2 n t x s :
  n_col x = Black → rb c1 n t → rb c2 n s → rb Black (S n) (mk d t x s).
Proof. intros. destruct d; cbn; by eapply rb_black. Qed.

Lemma rb_mk_red d n t x s :
  n_col x = Red → rb Black n t → rb Black n s → rb Red n (mk d t x s).
Proof. intros. destruct d; cbn; by apply rb_red. Qed.

Lemma rb_mk_inv d c n t x s :
  rb c n (mk d t x s) →
  (n_col x = Black ∧ c = Black ∧ ∃ m c1 c2, n = S m ∧ rb c1 m t ∧ rb c2 m s) ∨
  (n_col x = Red ∧ c = Red ∧ rb Black n t ∧ rb Black n s).
Proof. intros H. destruct d; cbn in H; inversion H; subst; naive_solver. Qed.

Lemma ctx_rb_weaken c n ctx : ctx_rb c n ctx → ctx_rb Black n ctx.
Proof.
  intros H. inversion H; subst; [constructor|by eapply ctx_rb_black|by apply ctx_rb_red].
Qed.

Lemma ctx_rb_red_inv n ctx :
  ctx_rb Red n ctx →
  ∃ d x s c ctx', ctx = Fr d x s :: ctx' ∧ n_col x = Black ∧ rb c n s ∧ ctx_rb Black (S n) ctx'.
Proof. inversion 1; subst. eauto 10. Qed.

Lemma plug_rb c n ctx t : ctx_rb c n ctx → rb c n t → rb_tree (plug ctx t).
Proof.
  intros H. revert t. induction H; intros t Ht; cbn; [by exists n|..].
  - apply IHctx_rb. by eapply rb_mk_black.
  - apply IHctx_rb. by apply rb_mk_red.
Qed.

(** Below a context of a valid tree hangs a tree that fits it. *)
Lemma plug_rb_inv ctx t :
  rb_tree (plug ctx t) → ∃ c n, rb c n t ∧ ctx_rb c n ctx.
Proof.
  revert t. induction ctx as [|[d x s] ctx IH]; intros t H; cbn in *.
  - destruct H as [n H]. exists Black, n. split; [done|constructor].
  - apply IH in H as (c & n & Ht & Hctx).
    apply rb_mk_inv in Ht as [(Hx & -> & m & c1 & c2 & -> & Ht & Hs)|(Hx & -> & Ht & Hs)].
    + exists c1, m. split; [done|]. by eapply ctx_rb_black.
    + exists Black, n. split; [done|]. by apply ctx_rb_red.
Qed.

Lemma rb_col c n l x r : rb c n (T l x r) → n_col x = c.
Proof. inversion 1; by subst. Qed.

Lemma rb_repaint_black c n t : rb c n t → ∃ m, rb Black m (repaint Black t).
Proof. inversion 1; subst; cbn; eexists; econstructor; eauto. Qed.

(** The colour of an ancestor matters, not its key. *)
Lemma ctx_rb_replace c n c2 d x y s ctx :
  n_col x = n_col y →
  ctx_rb c n (c2 ++ Fr d x s :: ctx) → ctx_rb c n (c2 ++ Fr d y s :: ctx).
Proof.
  intros Hc. revert c n. induction c2 as [|f c2 IH]; intros c n; cbn; inversion 1; subst.
  - eapply ctx_rb_black; eauto; congruence.
  - eapply ctx_rb_red; eauto; congruence.
  - eapply ctx_rb_black; eauto.
  - eapply ctx_rb_red; eauto.
Qed.

Lemma rb_tree_replace c2 d x y s ctx t :
  n_col x = n_col y →
  rb_tree (plug (c2 ++ Fr d x s :: ctx) t) → rb_tree (plug (c2 ++ Fr d y s :: ctx) t).
Proof.
  intros Hc (c & n & Ht & Hctx)%plug_rb_inv. eapply plug_rb; [|done]. by eapply ctx_rb_replace.
Qed.

(** ** Height *)

Fixpoint height (t : rtree) : nat :=
  match t with E => 0 | T l _ r => S (height l `max` height r) end.

Lemma rb_height c n t :
  rb c n t → (height t ≤ 2 * n + match c with Red => 1 | Black => 0 end)%nat.
Proof.
  induction 1; cbn; [lia|..].
  - destruct c1, c2; cbn in *; lia.
  - lia.
Qed.

Lemma rb_count c n t : rb c n t → (2 ^ n ≤ length (ents t) + 1)%nat.
Proof.
  induction 1; cbn [ents]; [cbn; lia|..]; rewrite length_app; cbn [length];
    rewrite ?Nat.pow_succ_r'; lia.
Qed.

(** A tree of [N] entries is at most [2 log2 (N + 1)] high. *)
Lemma rb_tree_height t :
  rb_tree t → (height t ≤ 2 * Nat.log2 (length (ents t) + 1))%nat.
Proof.
  intros [n H]. pose proof (rb_height _ _ _ H) as Hh. cbn in Hh.
  pose proof (rb_count _ _ _ H) as Hc. apply Nat.log2_le_mono in Hc.
  rewrite Nat.log2_pow2 in Hc by lia. lia.
Qed.

Lemma height_mk d t x s : height (mk d t x s) = S (height t `max` height s).
Proof. destruct d; cbn; lia. Qed.

(** ** The order of keys *)

(** The lexicographic order of unsigned bytes, which is that of [strcmp]. *)
Fixpoint keylt (a b : list Z) : bool :=
  match a, b with
  | _, [] => false
  | [], _ :: _ => true
  | x :: a, y :: b => (x <? y) || ((x =? y) && keylt a b)
  end.

Notation klt a b := (keylt a b = true).

Lemma keylt_irrefl a : keylt a a = false.
Proof.
  induction a as [|x a IH]; cbn; [done|]. by rewrite Z.ltb_irrefl, Z.eqb_refl.
Qed.

Lemma keylt_trans a b c : klt a b → klt b c → klt a c.
Proof.
  revert b c. induction a as [|x a IH]; intros [|y b] [|z c]; cbn; try done.
  rewrite !orb_true_iff, !andb_true_iff, !Z.ltb_lt, !Z.eqb_eq.
  intros [H1|[-> H1]] [H2|[-> H2]]; [left; lia|left; lia|left; lia|right].
  split; [done|]. by eapply IH.
Qed.

Lemma keylt_total a b : keylt a b = false → keylt b a = false → a = b.
Proof.
  revert b. induction a as [|x a IH]; intros [|y b]; cbn; try done.
  rewrite !orb_false_iff, !andb_false_iff, !Z.ltb_ge, !Z.eqb_neq.
  intros [H1 H2] [H3 H4]. assert (x = y) as -> by lia. f_equal. apply IH; [by destruct H2|by destruct H4].
Qed.

Lemma keylt_asym a b : klt a b → keylt b a = false.
Proof.
  intros Hab. destruct (keylt b a) eqn:Hba; [|done].
  by rewrite <-(keylt_trans _ _ _ Hab Hba), keylt_irrefl.
Qed.

Lemma keylt_ne a b : klt a b → a ≠ b.
Proof. intros H ->. by rewrite keylt_irrefl in H. Qed.

(** [strcmp] of C strings is negative, zero or positive as the order says. *)
Lemma strcmp_keylt k1 k2 :
  nonul k1 → nonul k2 →
  ∃ d, strcmp (cstr k1) (cstr k2) = Done d ∧
    (d <? 0) = keylt k1 k2 ∧ (0 <? d) = keylt k2 k1.
Proof.
  revert k2. induction k1 as [|x k1 IH]; intros [|y k2] H1 H2; cbn -[Z.sub Z.ltb Z.eqb].
  - by exists 0.
  - apply nonul_cons in H2 as [Hy _]. exists (0 - y). destruct (Z.eqb_spec 0 y); [lia|].
    split; [done|]. split; [by apply Z.ltb_lt; lia|by apply Z.ltb_ge; lia].
  - apply nonul_cons in H1 as [Hx _]. exists (x - 0). destruct (Z.eqb_spec x 0); [lia|].
    split; [done|]. split; [by apply Z.ltb_ge; lia|by apply Z.ltb_lt; lia].
  - apply nonul_cons in H1 as [Hx H1], H2 as [Hy H2].
    destruct (Z.eqb_spec x y) as [->|Hne].
    + destruct (Z.eqb_spec y 0); [lia|]. destruct (IH k2 H1 H2) as (d & Hd & Hl & Hg).
      exists d. split; [done|]. by rewrite Z.ltb_irrefl, Z.eqb_refl.
    + exists (x - y). split; [done|].
      destruct (Z.eqb_spec y x) as [->|_]; [done|]. rewrite !andb_false_l, !orb_false_r.
      split; apply eq_true_iff_eq; rewrite !Z.ltb_lt; lia.
Qed.

(** ** Contents and order *)

Definition key_ok (k : list Z) : Prop := nonul k ∧ Z.of_nat (length k) < 2 ^ 31 - 1.
#[export] Instance key_ok_dec k : Decision (key_ok k).
Proof. unfold key_ok. apply _. Defined.

(** Order, keys and contents depend only on the items of a tree. *)
Definition i_at (i : Z * list Z * Z) : Z := i.1.1.
Definition i_key (i : Z * list Z * Z) : list Z := i.1.2.
Definition i_val (i : Z * list Z * Z) : Z := i.2.
Definition sorted (l : list (Z * list Z * Z)) : Prop :=
  StronglySorted (λ a b, klt (i_key a) (i_key b)) l.
Definition items_map (l : list (Z * list Z * Z)) : gmap (list Z) Z :=
  list_to_map ((λ i, (i_key i, i_val i)) <$> l).
Definition t_map (t : rtree) : gmap (list Z) Z := items_map (items t).

Lemma items_map_app l1 l2 : items_map (l1 ++ l2) = items_map l1 ∪ items_map l2.
Proof. unfold items_map. by rewrite fmap_app, list_to_map_app. Qed.

Lemma items_map_cons a k v l : items_map ((a, k, v) :: l) = <[k := v]> (items_map l).
Proof. done. Qed.

Lemma items_map_None l k : k ∉ i_key <$> l → items_map l !! k = None.
Proof.
  intros H. apply not_elem_of_list_to_map_1. by rewrite <-list_fmap_compose.
Qed.

(** All keys of a list are below, or above, a key. *)
Definition below (k : list Z) (l : list (Z * list Z * Z)) : Prop :=
  Forall (λ i, klt (i_key i) k) l.
Definition above (k : list Z) (l : list (Z * list Z * Z)) : Prop :=
  Forall (λ i, klt k (i_key i)) l.

Lemma below_None k l : below k l → items_map l !! k = None.
Proof.
  intros H. apply items_map_None. intros (i & -> & Hi)%list_elem_of_fmap.
  unfold below, above in H. rewrite Forall_forall in H. by eapply keylt_ne; [apply H|].
Qed.

Lemma above_None k l : above k l → items_map l !! k = None.
Proof.
  intros H. apply items_map_None. intros (i & -> & Hi)%list_elem_of_fmap.
  unfold below, above in H. rewrite Forall_forall in H. by eapply keylt_ne; [apply H|].
Qed.

Lemma sorted_app l1 a l2 :
  sorted (l1 ++ a :: l2) ↔ sorted l1 ∧ sorted l2 ∧ below (i_key a) l1 ∧ above (i_key a) l2.
Proof.
  unfold sorted, below, above. induction l1 as [|b l1 IH]; cbn.
  - split.
    + intros [? ?]%StronglySorted_inv. by split_and!; [constructor| |constructor|].
    + intros (_ & ? & _ & ?). by constructor.
  - split.
    + intros [Hs Hf]%StronglySorted_inv. apply IH in Hs as (H1 & H2 & H3 & H4).
      rewrite Forall_app, Forall_cons in Hf. destruct Hf as (Hf1 & Hf2 & Hf3).
      split_and!; [by constructor|done|by constructor|done].
    + intros (H1 & H2 & H3 & H4). apply StronglySorted_inv in H1 as [H1 Hf1].
      apply Forall_cons in H3 as [Hba H3]. constructor; [by apply IH|].
      rewrite Forall_app, Forall_cons. split_and!; [done|done|].
      eapply Forall_impl; [exact H4|]. intros c Hc. cbn in *. by eapply keylt_trans.
Qed.

(** Insertion of an item between smaller and larger keys. *)
Lemma items_map_insert l1 a k v l2 :
  below k l1 → items_map (l1 ++ (a, k, v) :: l2) = <[k := v]> (items_map (l1 ++ l2)).
Proof.
  intros H. rewrite !items_map_app, items_map_cons.
  rewrite insert_union_r; [done|]. by apply below_None.
Qed.

Lemma sorted_insert l1 a k v l2 :
  sorted (l1 ++ l2) → below k l1 → above k l2 → sorted (l1 ++ (a, k, v) :: l2).
Proof.
  intros Hs H1 H2. apply sorted_app. unfold sorted in *.
  split_and!; [|by eapply StronglySorted_app_1_r|done|done].
  by eapply StronglySorted_app_1_l.
Qed.

Lemma sorted_delete l1 a l2 : sorted (l1 ++ a :: l2) → sorted (l1 ++ l2).
Proof.
  intros (H1 & H2 & Hb & Ha)%sorted_app. unfold sorted, below, above in *.
  rewrite Forall_forall in Hb, Ha. apply StronglySorted_app. split_and!; [|done|done].
  intros x y Hx Hy. exact (keylt_trans _ _ _ (Hb x Hx) (Ha y Hy)).
Qed.

Lemma sorted_nodup l : sorted l → NoDup (i_key <$> l).
Proof.
  induction l as [|a l IH]; intros Hs; [constructor|].
  apply (sorted_app [] a l) in Hs as (_ & Hs & _ & Ha). cbn. apply NoDup_cons. split; [|by apply IH].
  intros (i & Hk & Hi)%list_elem_of_fmap. unfold above in Ha. rewrite Forall_forall in Ha.
  by apply (keylt_ne _ _ (Ha i Hi)).
Qed.

(** A valid tree has one entry per key. *)
Lemma size_t_map t : sorted (items t) → size (t_map t) = length (ents t).
Proof.
  intros Hs. unfold t_map, items_map. rewrite map_size_list_to_map.
  - by rewrite length_fmap; unfold items; rewrite length_fmap.
  - rewrite <-list_fmap_compose. by apply sorted_nodup.
Qed.
