(* ===== verification/RbMem.v ===== *)
(** * RbMem: the memory of a red-black tree

    The blocks of a tree ([cells]), of the ancestors of a hole ([spine]), and
    of a tree seen from one of its subtrees ([foc]); the equations of field
    loads and stores on them; and the runs of the link operations of tree.h:
    [adopt], [relink], [RB_ROTATE] and the colour changes. *)

From S2P Require Import Prelude.
From S2P Require Import Own.
From S2P Require Import RbTree.
From S2P Require Import RbShape.

(** ** Blocks *)

Definition nblock (p l r : Z) (x : nd) : rblock :=
  BEntry (HashEntry (RbEntry l r p (color_word (n_col x))) (n_at x + SIZEOF_HASH_ENTRY) (n_val x))
    (cstr (n_key x)).

(** The block of an entry with [a] on side [d] and [b] on the other. *)
Definition sblock (d : rb_side) (p a b : Z) (x : nd) : rblock :=
  match d with LEFT => nblock p a b x | RIGHT => nblock p b a x end.

Fixpoint cells (p : Z) (t : rtree) : list (Z * rblock) :=
  match t with
  | E => []
  | T l x r => (n_at x, nblock p (ptr l) (ptr r) x) :: cells (n_at x) l ++ cells (n_at x) r
  end.

(** The ancestors of a hole that contains the pointer [q]. *)
Fixpoint spine (q : Z) (ctx : context) : list (Z * rblock) :=
  match ctx with
  | [] => []
  | Fr d x s :: ctx =>
      (n_at x, sblock d (up ctx) q (ptr s) x) :: cells (n_at x) s ++ spine (n_at x) ctx
  end.

(** The root pointer when the hole contains [q]. *)
Fixpoint rootp (q : Z) (ctx : context) : Z :=
  match ctx with [] => q | Fr _ x _ :: ctx => rootp (n_at x) ctx end.

(** The head and the ancestors of a hole; a tree seen from a subtree. *)
Definition around (h q : Z) (ctx : context) : list (Z * rblock) :=
  (h, BHead (rootp q ctx)) :: spine q ctx.
Definition foc (h : Z) (t : rtree) (ctx : context) : list (Z * rblock) :=
  cells (up ctx) t ++ around h (ptr t) ctx.

Lemma sblock_other d p a b x : sblock (other d) p a b x = sblock d p b a x.
Proof. by destruct d. Qed.

Lemma cells_mk d p t x s :
  cells p (mk d t x s) ≡ₚ
  (n_at x, sblock d p (ptr t) (ptr s) x) :: cells (n_at x) t ++ cells (n_at x) s.
Proof. destruct d; cbn; [done|]. by rewrite (Permutation_app_comm (cells (n_at x) s)). Qed.

Lemma foc_up h d t x s ctx : foc h t (Fr d x s :: ctx) ≡ₚ foc h (mk d t x s) ctx.
Proof. unfold foc, around. rewrite cells_mk, ptr_mk. cbn. solve_Permutation. Qed.

Lemma foc_plug h t ctx : foc h t ctx ≡ₚ foc h (plug ctx t) [].
Proof. revert t. induction ctx as [|[d x s] ctx IH]; intros t; [done|]. by rewrite foc_up, IH. Qed.

Lemma foc_app h t c2 ctx : foc h t (c2 ++ ctx) ≡ₚ foc h (plug c2 t) ctx.
Proof.
  revert t. induction c2 as [|[d x s] c2 IH]; intros t; [done|]. cbn [app plug].
  by rewrite foc_up, IH.
Qed.

Lemma rootp_plug t ctx : rootp (ptr t) ctx = ptr (plug ctx t).
Proof.
  revert t. induction ctx as [|[d x s] ctx IH]; intros t; cbn; [done|]. by rewrite <-IH, ptr_mk.
Qed.

(** ** Ownership without a block at the null address *)

Section rmem.
Context (fr : rheap).
Implicit Types (cs : list (Z * rblock)) (m : rheap).

Definition rmem cs m : Prop := owns cs fr m ∧ m !! 0 = None.

#[global] Instance rmem_proper : Proper ((≡ₚ) ==> (=) ==> iff) rmem.
Proof. intros cs cs' Hp m ? <-. unfold rmem. by rewrite Hp. Qed.

Lemma rmem_perm cs cs' m : rmem cs m → cs ≡ₚ cs' → rmem cs' m.
Proof. by intros H <-. Qed.

Lemma rmem_perm' cs cs' m : cs ≡ₚ cs' → rmem cs m → rmem cs' m.
Proof. by intros <-. Qed.

Lemma rmem_lookup cs m a b : rmem cs m → (a, b) ∈ cs → m !! a = Some b.
Proof. intros [H _]. by apply owns_lookup with (1 := H). Qed.

Lemma rmem_nonnull cs m a b : rmem cs m → (a, b) ∈ cs → a ≠ 0.
Proof. intros H Hin ->. pose proof (rmem_lookup _ _ _ _ H Hin). destruct H. congruence. Qed.

(** A store to a block of the list. *)
Lemma rmem_store cs1 a b b' cs2 m :
  rmem (cs1 ++ (a, b) :: cs2) m → rmem (cs1 ++ (a, b') :: cs2) (<[a := b']> m).
Proof.
  intros Hm. pose proof (rmem_nonnull _ _ a b Hm) as Ha. destruct Hm as [H H0]. split.
  - apply (owns_perm _ ((a, b) :: cs1 ++ cs2)) in H; [|solve_Permutation].
    apply (owns_store _ _ _ _ _ b') in H. revert H. apply owns_perm. solve_Permutation.
  - rewrite lookup_insert_ne; [done|]. apply Ha, elem_of_app. right. apply list_elem_of_here.
Qed.

Lemma rmem_store0 a b b' cs m : rmem ((a, b) :: cs) m → rmem ((a, b') :: cs) (<[a := b']> m).
Proof. apply (rmem_store []). Qed.
Lemma rmem_store1 c1 a b b' cs m :
  rmem (c1 :: (a, b) :: cs) m → rmem (c1 :: (a, b') :: cs) (<[a := b']> m).
Proof. apply (rmem_store [c1]). Qed.
Lemma rmem_store2 c1 c2 a b b' cs m :
  rmem (c1 :: c2 :: (a, b) :: cs) m → rmem (c1 :: c2 :: (a, b') :: cs) (<[a := b']> m).
Proof. apply (rmem_store [c1; c2]). Qed.
Lemma rmem_store3 c1 c2 c3 a b b' cs m :
  rmem (c1 :: c2 :: c3 :: (a, b) :: cs) m → rmem (c1 :: c2 :: c3 :: (a, b') :: cs) (<[a := b']> m).
Proof. apply (rmem_store [c1; c2; c3]). Qed.

Lemma rmem_alloc cs a b m :
  m !! a = None → a ≠ 0 → rmem cs m → rmem ((a, b) :: cs) (<[a := b]> m).
Proof. intros Ha Hz [H H0]. split; [by apply owns_alloc|]. by rewrite lookup_insert_ne. Qed.

Lemma rmem_free cs a b m : rmem ((a, b) :: cs) m → rmem cs (delete a m).
Proof.
  intros [H H0]. split; [by eapply owns_free|]. by apply lookup_delete_None; right.
Qed.

Lemma rmem_size cs m : rmem cs m → (length cs ≤ size m)%nat.
Proof. intros [H _]. by eapply owns_size. Qed.

(** Blocks of different parts of the list have different addresses. *)
Lemma rmem_ne cs1 cs2 a b a' b' m :
  rmem (cs1 ++ cs2) m → (a, b) ∈ cs1 → (a', b') ∈ cs2 → a ≠ a'.
Proof.
  intros [(Hnd & _) _] H1 H2 ->. rewrite fmap_app in Hnd.
  apply NoDup_app in Hnd as (_ & Hd & _). apply (Hd a').
  - apply list_elem_of_fmap. by exists (a', b).
  - apply list_elem_of_fmap. by exists (a', b').
Qed.

End rmem.

(** The root entry of a tree is among its cells. *)
Lemma cells_root p t : t ≠ E → ∃ b, (ptr t, b) ∈ cells p t.
Proof. destruct t as [|l x r]; [done|]. intros _. eexists. apply list_elem_of_here. Qed.

(** ** Loads and stores on blocks *)

Section access.
Implicit Types (m : rheap) (x : nd).

Lemma load_entry_run m d p a b x q :
  m !! q = Some (sblock d p a b x) →
  load_entry q m =
    Done (HashEntry (match d with LEFT => RbEntry a b p (color_word (n_col x))
                             | RIGHT => RbEntry b a p (color_word (n_col x)) end)
            (n_at x + SIZEOF_HASH_ENTRY) (n_val x), m).
Proof. intros H. unfold load_entry. rewrite H. by destruct d. Qed.

Lemma RB_CHILD_same m d p a b x q :
  m !! q = Some (sblock d p a b x) → RB_CHILD d q m = Done (a, m).
Proof.
  intros H. destruct d; unfold RB_CHILD, RB_LEFT, RB_RIGHT;
    by rewrite (bind_done _ _ _ _ _ (load_entry_run _ _ _ _ _ _ _ H)).
Qed.

Lemma RB_CHILD_other m d p a b x q :
  m !! q = Some (sblock d p a b x) → RB_CHILD (other d) q m = Done (b, m).
Proof. rewrite <-(sblock_other d). apply RB_CHILD_same. Qed.

Lemma RB_LEFT_run m d p a b x q :
  m !! q = Some (sblock d p a b x) →
  RB_LEFT q m = Done (match d with LEFT => a | RIGHT => b end, m).
Proof.
  destruct d; [apply (RB_CHILD_same m LEFT)|apply (RB_CHILD_other m RIGHT)].
Qed.

Lemma RB_PARENT_run m d p a b x q :
  m !! q = Some (sblock d p a b x) → RB_PARENT q m = Done (p, m).
Proof.
  intros H. unfold RB_PARENT. rewrite (bind_done _ _ _ _ _ (load_entry_run _ _ _ _ _ _ _ H)).
  by destruct d.
Qed.

Lemma RB_COLOR_run m d p a b x q :
  m !! q = Some (sblock d p a b x) → RB_COLOR q m = Done (color_word (n_col x), m).
Proof.
  intros H. unfold RB_COLOR. rewrite (bind_done _ _ _ _ _ (load_entry_run _ _ _ _ _ _ _ H)).
  by destruct d.
Qed.

Lemma SET_CHILD_same m d p a b x q a' :
  m !! q = Some (sblock d p a b x) →
  SET_CHILD d q a' m = Done (tt, <[q := sblock d p a' b x]> m).
Proof.
  intros H. unfold SET_CHILD, modify.
  rewrite (bind_done _ _ _ _ _ (load_entry_run _ _ _ _ _ _ _ H)). unfold store_entry.
  rewrite H. by destruct d.
Qed.

Lemma SET_CHILD_other m d p a b x q b' :
  m !! q = Some (sblock d p a b x) →
  SET_CHILD (other d) q b' m = Done (tt, <[q := sblock d p a b' x]> m).
Proof. rewrite <-!(sblock_other d). apply SET_CHILD_same. Qed.

Lemma SET_PARENT_run m d p a b x q p' :
  m !! q = Some (sblock d p a b x) →
  SET_PARENT q p' m = Done (tt, <[q := sblock d p' a b x]> m).
Proof.
  intros H. unfold SET_PARENT, modify.
  rewrite (bind_done _ _ _ _ _ (load_entry_run _ _ _ _ _ _ _ H)). unfold store_entry.
  rewrite H. by destruct d.
Qed.

Lemma SET_COLOR_run m d p a b x q c :
  m !! q = Some (sblock d p a b x) →
  SET_COLOR q (color_word c) m = Done (tt, <[q := sblock d p a b (paint c x)]> m).
Proof.
  intros H. unfold SET_COLOR, modify.
  rewrite (bind_done _ _ _ _ _ (load_entry_run _ _ _ _ _ _ _ H)). unfold store_entry.
  rewrite H. by destruct d.
Qed.

Lemma RB_ROOT_run m h r : m !! h = Some (BHead r) → RB_ROOT h m = Done (r, m).
Proof. intros H. unfold RB_ROOT. by rewrite H. Qed.

Lemma SET_ROOT_run m h r r' :
  m !! h = Some (BHead r) → SET_ROOT h r' m = Done (tt, <[h := BHead r']> m).
Proof. intros H. unfold SET_ROOT. by rewrite H. Qed.

End access.

(** [rb_at H]: the block at an address, from the ownership [H]. *)
Ltac rb_at H := eapply rmem_lookup; [exact H|solve [in_cells]].

(** [rb_load H]: run the load at the head of the goal. *)
Ltac rb_load H :=
  erewrite bind_done;
    [|first [ eapply RB_CHILD_same; rb_at H | eapply RB_CHILD_other; rb_at H
            | eapply RB_PARENT_run; rb_at H | eapply RB_COLOR_run; rb_at H
            | eapply RB_ROOT_run; rb_at H | eapply RB_LEFT_run; rb_at H ] ];
  cbn beta.

(** [rb_new H]: after a store to one of the first blocks, bring [H] up to
    the memory in the goal, and name that memory anew. *)
Ltac rb_new H :=
  match goal with
  | |- context [<[?a := ?b]> ?m] =>
      match type of H with
      | rmem _ _ m =>
          first [ apply (rmem_store0 _ a _ b) in H | apply (rmem_store1 _ _ a _ b) in H
                | apply (rmem_store2 _ _ _ a _ b) in H | apply (rmem_store3 _ _ _ _ a _ b) in H ];
          revert H; generalize (<[a := b]> m); try clear m; let m' := fresh "m" in intros m' H
      end
  end.

(** [rb_store H]: run the store at the head of the goal. *)
Ltac rb_store H :=
  erewrite bind_done;
    [|first [ eapply SET_CHILD_same; rb_at H | eapply SET_CHILD_other; rb_at H
            | eapply SET_PARENT_run; rb_at H
            | eapply (SET_COLOR_run _ _ _ _ _ _ _ Red); rb_at H
            | eapply (SET_COLOR_run _ _ _ _ _ _ _ Black); rb_at H
            | eapply SET_COLOR_run; rb_at H
            | eapply SET_ROOT_run; rb_at H ] ];
  cbn beta; rb_new H.

(** [rb_view H cs]: list the blocks of [H] as [cs]. *)
Tactic Notation "rb_view" ident(H) uconstr(cs) :=
  apply (rmem_perm _ _ cs) in H; [|solve_Permutation].

(** [rb_nonnull H a]: decide [a =? 0] for the address [a] of a block of [H]. *)
Ltac rb_nonnull H a :=
  destruct (Z.eqb_spec a 0) as [|_];
    [exfalso; eapply (rmem_nonnull _ _ _ a _ H); [in_cells|assumption]|].

(** ** Link operations *)

Section links.
Context (fr : rheap).
Implicit Types (m : rheap) (R : list (Z * rblock)).

Lemma adopt_run p p' t R m :
  rmem fr (cells p t ++ R) m →
  ∃ m', adopt (ptr t) p' m = Done (tt, m') ∧ rmem fr (cells p' t ++ R) m'.
Proof.
  intros H. destruct t as [|l x r]; [by exists m|]. cbn [cells ptr app] in H |- *. unfold adopt.
  rb_nonnull H (n_at x).
  rewrite (SET_PARENT_run m LEFT p (ptr l) (ptr r) x _ p') by rb_at H.
  eexists. split; [done|]. by apply (rmem_store0 fr _ _ (nblock p' (ptr l) (ptr r) x)) in H.
Qed.

(** A subtree and an entry outside of it. *)
Lemma sib_ne p s q b R m : rmem fr (cells p s ++ R) m → (q, b) ∈ R → ptr s ≠ q.
Proof.
  intros H Hq. destruct (decide (ptr s = 0)) as [->|Hs].
  - intros <-. eapply (rmem_nonnull fr _ m 0 b H); [|done]. apply elem_of_app. by right.
  - destruct (cells_root p s) as [c Hc]; [intros ->; by apply Hs|].
    by eapply (rmem_ne fr _ _ _ _ _ _ m H).
Qed.

(** Which side of its parent an entry is on. *)
Lemma side_run d d' p q s x m :
  m !! n_at x = Some (sblock d p q (ptr s) x) → ptr s ≠ q →
  ∃ c, RB_CHILD d' (n_at x) m = Done (c, m) ∧ (c =? q) = bool_decide (d = d').
Proof.
  intros Hx Hs. destruct (decide (d = d')) as [<-|Hd].
  - exists q. split; [by eapply RB_CHILD_same|]. by rewrite Z.eqb_refl, bool_decide_eq_true_2.
  - exists (ptr s). split.
    + replace d' with (other d) by (by destruct d, d'). by eapply RB_CHILD_other.
    + rewrite bool_decide_eq_false_2 by done. by apply Z.eqb_neq.
Qed.

(** The pointer in a hole is replaced; the old one is an entry outside of
    the context. *)
Lemma relink_run h q q' b ctx R m :
  rmem fr (around h q ctx ++ R) m → (q, b) ∈ R →
  ∃ m', relink h (up ctx) q q' m = Done (tt, m') ∧ rmem fr (around h q' ctx ++ R) m'.
Proof.
  intros H Hq. unfold relink. destruct ctx as [|[d x s] ctx]; cbn [up f_nd].
  { cbn. erewrite SET_ROOT_run by rb_at H. eexists. split; [done|].
    by apply (rmem_store0 fr h _ (BHead q')) in H. }
  assert (Hs : ptr s ≠ q).
  { unfold around in H. cbn in H. rb_view H (cells (n_at x) s ++
      (h, BHead (rootp (n_at x) ctx)) :: (n_at x, sblock d (up ctx) q (ptr s) x) ::
      spine (n_at x) ctx ++ R).
    eapply sib_ne; [exact H|]. do 2 apply list_elem_of_further. apply elem_of_app. by right. }
  unfold around in *. cbn [rootp spine app] in *.
  assert (Hx : m !! n_at x = Some (sblock d (up ctx) q (ptr s) x)) by rb_at H.
  rb_nonnull H (n_at x). destruct (side_run _ LEFT _ _ _ _ _ Hx Hs) as (l & Hl & Heq).
  run_to Hl. rewrite Heq. exists (<[n_at x := sblock d (up ctx) q' (ptr s) x]> m). split.
  - destruct d; by apply (SET_CHILD_same m _ _ _ _ _ _ _ Hx).
  - by apply (rmem_store1 fr _ _ _ _ _ _ H).
Qed.

(** [RB_ROTATE d] lifts the entry on the side opposite to [d]. *)
Lemma rotate_run h d a x b y c ctx R m :
  rmem fr (foc h (mk d a x (mk d b y c)) ctx ++ R) m →
  ∃ m', RB_ROTATE d h (n_at x) m = Done (n_at y, m') ∧
    rmem fr (foc h (mk d (mk d a x b) y c) ctx ++ R) m'.
Proof.
  intros H. unfold foc in H. rewrite ptr_mk, !cells_mk, ptr_mk in H. unfold RB_ROTATE.
  rb_view H ((n_at x, sblock d (up ctx) (ptr a) (n_at y) x) ::
    (n_at y, sblock d (n_at x) (ptr b) (ptr c) y) :: cells (n_at y) b ++ cells (n_at x) a ++
    cells (n_at y) c ++ around h (n_at x) ctx ++ R).
  rb_load H. rb_load H. rb_store H.
  rb_view H (cells (n_at y) b ++ (n_at x, sblock d (up ctx) (ptr a) (ptr b) x) ::
    (n_at y, sblock d (n_at x) (ptr b) (ptr c) y) :: cells (n_at x) a ++
    cells (n_at y) c ++ around h (n_at x) ctx ++ R).
  destruct (adopt_run _ (n_at x) _ _ _ H) as (m1 & Hrun & H1). run_to Hrun.
  rb_view H1 ((n_at x, sblock d (up ctx) (ptr a) (ptr b) x) ::
    (n_at y, sblock d (n_at x) (ptr b) (ptr c) y) :: cells (n_at x) b ++ cells (n_at x) a ++
    cells (n_at y) c ++ around h (n_at x) ctx ++ R).
  rb_load H1. rb_store H1.
  rb_view H1 (around h (n_at x) ctx ++ (n_at x, sblock d (up ctx) (ptr a) (ptr b) x) ::
    (n_at y, sblock d (up ctx) (ptr b) (ptr c) y) :: cells (n_at x) b ++ cells (n_at x) a ++
    cells (n_at y) c ++ R).
  edestruct (relink_run h (n_at x) (n_at y)) as (m2 & Hrun2 & H2);
    [exact H1|apply list_elem_of_here|]. run_to Hrun2.
  rb_view H2 ((n_at x, sblock d (up ctx) (ptr a) (ptr b) x) ::
    (n_at y, sblock d (up ctx) (ptr b) (ptr c) y) :: cells (n_at x) b ++ cells (n_at x) a ++
    cells (n_at y) c ++ around h (n_at y) ctx ++ R).
  rb_store H2. rb_store H2. rb_load H2. eexists. split; [done|].
  unfold foc. rewrite ptr_mk, !cells_mk, ptr_mk. revert H2. apply rmem_perm'. solve_Permutation.
Qed.
(** ** What a focused tree holds *)

Lemma foc_root h d a x b ctx R m :
  rmem fr (foc h (mk d a x b) ctx ++ R) m →
  m !! n_at x = Some (sblock d (up ctx) (ptr a) (ptr b) x) ∧ n_at x ≠ 0.
Proof.
  intros H. unfold foc in H. rewrite cells_mk in H. split; [rb_at H|].
  eapply (rmem_nonnull fr); [exact H|in_cells].
Qed.

Lemma foc_parent h t d x s ctx R m :
  rmem fr (foc h t (Fr d x s :: ctx) ++ R) m →
  m !! n_at x = Some (sblock d (up ctx) (ptr t) (ptr s) x) ∧ n_at x ≠ 0.
Proof. rewrite foc_up. apply foc_root. Qed.

(** The root of the tree on the other side of the hole. *)
Lemma foc_sibling h t d x d' a y b ctx R m :
  rmem fr (foc h t (Fr d x (mk d' a y b) :: ctx) ++ R) m →
  m !! n_at y = Some (sblock d' (n_at x) (ptr a) (ptr b) y) ∧ n_at y ≠ 0.
Proof.
  intros H. rewrite foc_up in H. rewrite <-mk_other in H. rewrite <-foc_up in H.
  by apply foc_root in H.
Qed.

Lemma foc_head h t ctx R m :
  rmem fr (foc h t ctx ++ R) m → m !! h = Some (BHead (ptr (plug ctx t))).
Proof.
  intros H. rewrite <-rootp_plug. rb_view H (around h (ptr t) ctx ++ cells (up ctx) t ++ R).
  unfold around in H. rb_at H.
Qed.

(** The sibling of a tree is another tree. *)
Lemma foc_sib_ne h t d x s ctx R m :
  rmem fr (foc h t (Fr d x s :: ctx) ++ R) m → t ≠ E ∨ s ≠ E → ptr s ≠ ptr t.
Proof.
  intros H Hne. unfold foc, around in H. cbn in H. destruct (decide (t = E)) as [->|Ht].
  - destruct (cells_root (n_at x) s) as [b Hb]; [by destruct Hne as [[]|]|]. cbn.
    eapply (rmem_nonnull fr); [exact H|]. cbn. do 2 apply list_elem_of_further.
    apply elem_of_app. left. apply elem_of_app. by left.
  - destruct (cells_root (n_at x) t Ht) as [b Hb].
    rb_view H (cells (n_at x) s ++ cells (n_at x) t ++ (h, BHead (rootp (n_at x) ctx)) ::
      (n_at x, sblock d (up ctx) (ptr t) (ptr s) x) :: spine (n_at x) ctx ++ R).
    eapply sib_ne; [exact H|]. apply elem_of_app. left. exact Hb.
Qed.

Lemma foc_side h t d x s ctx R m d' :
  rmem fr (foc h t (Fr d x s :: ctx) ++ R) m → t ≠ E ∨ s ≠ E →
  ∃ c, RB_CHILD d' (n_at x) m = Done (c, m) ∧ (c =? ptr t) = bool_decide (d = d').
Proof.
  intros H Hne. destruct (foc_parent _ _ _ _ _ _ _ _ H) as [Hx _].
  eapply side_run; [exact Hx|by eapply foc_sib_ne].
Qed.

(** A change of colour at the focus. *)
Lemma paint_run h t ctx c R m :
  rmem fr (foc h t ctx ++ R) m → t ≠ E →
  ∃ m', SET_COLOR (ptr t) (color_word c) m = Done (tt, m') ∧
    rmem fr (foc h (repaint c t) ctx ++ R) m'.
Proof.
  intros H Ht. destruct t as [|l x r]; [done|]. cbn [ptr].
  rewrite (SET_COLOR_run _ _ _ _ _ _ _ c (proj1 (foc_root _ LEFT _ _ _ _ _ _ H))).
  eexists. split; [done|]. unfold foc in *. cbn [cells app repaint ptr n_at paint] in *.
  by apply (rmem_store0 fr _ _ (sblock LEFT (up ctx) (ptr l) (ptr r) (paint c x))) in H.
Qed.

Lemma foc_swap h t d x s ctx : foc h t (Fr d x s :: ctx) ≡ₚ foc h s (Fr (other d) x t :: ctx).
Proof. by rewrite !foc_up, mk_other. Qed.

Lemma blacken_run h t ctx R m :
  rmem fr (foc h t ctx ++ R) m →
  ∃ m', blacken (ptr t) m = Done (tt, m') ∧ rmem fr (foc h (repaint Black t) ctx ++ R) m'.
Proof.
  intros H. unfold blacken. destruct t as [|l x r]; [by exists m|]. cbn [ptr].
  destruct (foc_root _ LEFT _ _ _ _ _ _ H) as [_ Hz]. destruct (Z.eqb_spec (n_at x) 0); [done|].
  by apply (paint_run _ (T l x r) _ Black).
Qed.

Lemma is_black_run h t ctx c n R m :
  rmem fr (foc h t ctx ++ R) m → rb c n t →
  is_black (ptr t) m = Done (bool_decide (c = Black), m).
Proof.
  intros H Ht. unfold is_black. destruct t as [|l x r]; [by inversion Ht|]. cbn [ptr].
  destruct (foc_root _ LEFT _ _ _ _ _ _ H) as [Hx Hz]. destruct (Z.eqb_spec (n_at x) 0); [done|].
  run_to (RB_COLOR_run _ _ _ _ _ _ _ Hx). rewrite (rb_col _ _ _ _ _ Ht). by destruct c.
Qed.

(** Two ancestors are different entries. *)
Lemma up_ne h t c2 d o s ctx R m :
  rmem fr (foc h t (c2 ++ Fr d o s :: ctx) ++ R) m → c2 ≠ [] →
  up (c2 ++ Fr d o s :: ctx) ≠ n_at o.
Proof.
  intros H Hc. destruct c2 as [|[d' x s'] c2]; [done|]. cbn [app up f_nd].
  assert (∀ q, ∃ b, (n_at o, b) ∈ spine q (c2 ++ Fr d o s :: ctx)) as Hin.
  { induction c2 as [|[d2 x2 s2] c2 IH] in |- *; intros q; cbn.
    - eexists. apply list_elem_of_here.
    - destruct (IH (n_at x2)) as [b Hb]. exists b. apply list_elem_of_further, elem_of_app. by right. }
  destruct (Hin (n_at x)) as [b Hb]. unfold foc, around in H. cbn [app spine] in H.
  rb_view H ([(n_at x, sblock d' (up (c2 ++ Fr d o s :: ctx)) (ptr t) (ptr s') x)] ++
    spine (n_at x) (c2 ++ Fr d o s :: ctx) ++
    cells (n_at x) s' ++ (h, BHead (rootp (ptr t) (Fr d' x s' :: c2 ++ Fr d o s :: ctx))) ::
    cells (n_at x) t ++ R).
  eapply (rmem_ne fr _ _ _ _ _ _ m H); [apply list_elem_of_here|]. apply elem_of_app. left. exact Hb.
Qed.

(** The root is not the entry in a hole below it. *)
Lemma root_ne h t d x s ctx R m :
  rmem fr (foc h t (Fr d x s :: ctx) ++ R) m → ptr t ≠ ptr (plug (Fr d x s :: ctx) t).
Proof.
  intros H. rewrite <-rootp_plug. unfold foc, around in H. cbn [rootp spine] in *.
  assert (∃ b, (rootp (n_at x) ctx, b) ∈
    (n_at x, sblock d (up ctx) (ptr t) (ptr s) x) :: cells (n_at x) s ++ spine (n_at x) ctx) as [b Hb].
  { clear H. generalize (sblock d (up ctx) (ptr t) (ptr s) x) as b0, (cells (n_at x) s) as c0.
    generalize (n_at x) as q. induction ctx as [|[d' y s'] ctx IH]; intros q b0 c0; cbn.
    - eexists. apply list_elem_of_here.
    - edestruct IH as [b Hb]. exists b. apply list_elem_of_further, elem_of_app. right. exact Hb. }
  rb_view H (cells (n_at x) t ++ ((n_at x, sblock d (up ctx) (ptr t) (ptr s) x) ::
    cells (n_at x) s ++ spine (n_at x) ctx) ++ (h, BHead (rootp (n_at x) ctx)) :: R).
  eapply sib_ne; [exact H|]. apply elem_of_app. left. exact Hb.
Qed.

End links.
