(* ===== verification/RbSearch.v ===== *)
(** * RbSearch: descents and walks of the red-black tree

    The descent of [RB_FIND], [RB_NFIND] and [RB_INSERT] as a function on
    trees ([search]), and the walks of [RB_MINMAX], [RB_NEXT], [RB_PREV] and
    the iteration macros as positions in the in-order list. *)

From S2P Require Import Prelude.
From S2P Require Import Own.
From S2P Require Import RbTree.
From S2P Require Import RbShape.
From S2P Require Import RbMem.

(** ** The descent *)

(** From [t] in [ctx] to the entry with key [k], or to the leaf where it
    belongs. *)
Fixpoint search (k : list Z) (t : rtree) (ctx : context) : rtree * context :=
  match t with
  | E => (E, ctx)
  | T l x r =>
      if keylt k (n_key x) then search k l (Fr LEFT x r :: ctx)
      else if keylt (n_key x) k then search k r (Fr RIGHT x l :: ctx)
      else (t, ctx)
  end.

Lemma search_plug k t ctx t' ctx' : search k t ctx = (t', ctx') → plug ctx' t' = plug ctx t.
Proof.
  revert ctx. induction t as [|l IHl x r IHr]; intros ctx; cbn; [by intros [= <- <-]|].
  destruct (keylt k _); [by intros ?%IHl|]. destruct (keylt _ k); [by intros ?%IHr|].
  by intros [= <- <-].
Qed.

Lemma search_key k t ctx t' ctx' :
  search k t ctx = (t', ctx') →
  match t' with E => True | T _ x _ => n_key x = k end.
Proof.
  revert ctx. induction t as [|l IHl x r IHr]; intros ctx; cbn; [by intros [= <- <-]|].
  destruct (keylt k _) eqn:H1; [by intros ?%IHl|].
  destruct (keylt _ k) eqn:H2; [by intros ?%IHr|].
  intros [= <- <-]. by apply keylt_total.
Qed.

(** The key lies between what is before and after the hole. *)
Definition between (k : list Z) (ctx : context) : Prop :=
  below k (item <$> before ctx) ∧ above k (item <$> after ctx).

Lemma search_between k t ctx t' ctx' :
  sorted (items (plug ctx t)) → between k ctx → search k t ctx = (t', ctx') → between k ctx'.
Proof.
  revert ctx. induction t as [|l IHl x r IHr]; intros ctx Hs [Hb Ha]; cbn; [by intros [= <- <-]|].
  assert (Hs' : below (n_key x) (items l) ∧ above (n_key x) (items r)).
  { rewrite items_plug_T in Hs. apply sorted_app in Hs as (_ & _ & H1 & H2).
    apply Forall_app in H1 as [_ H1], H2 as [H2 _]. by split. }
  destruct Hs' as [Hl Hr].
  destruct (keylt k _) eqn:H1; [|destruct (keylt _ k) eqn:H2].
  - apply IHl; [done|]. split; [done|]. cbn. rewrite fmap_app. unfold above in *.
    apply Forall_cons; split; [done|]. apply Forall_app. split; [|done].
    eapply Forall_impl; [exact Hr|]. intros i Hi. exact (keylt_trans _ _ _ H1 Hi).
  - apply IHr; [done|]. split; [|done]. cbn. rewrite !fmap_app. unfold below in *.
    apply Forall_app. split; [done|]. apply Forall_app. split; [|by apply Forall_singleton].
    eapply Forall_impl; [exact Hl|]. intros i Hi. exact (keylt_trans _ _ _ Hi H2).
  - intros [= <- <-]. by split.
Qed.

(** What a lookup in the map of the tree finds. *)
Lemma search_lookup k t t' ctx' :
  sorted (items t) → search k t [] = (t', ctx') →
  t_map t !! k = match t' with E => None | T _ x _ => Some (n_val x) end.
Proof.
  intros Hs Hf. pose proof (search_key _ _ _ _ _ Hf) as Hk.
  assert (between k ctx') as [Hb Ha].
  { by apply (search_between k t [] t'); [|split; apply Forall_nil_2|]. }
  apply search_plug in Hf. cbn in Hf. subst t. unfold t_map. destruct t' as [|l x r].
  - rewrite items_plug. cbn. rewrite items_map_app, lookup_union_None. split; [by apply below_None|by apply above_None].
  - subst k. rewrite items_plug_T in Hs |- *. apply sorted_app in Hs as (_ & _ & Hl & _).
    unfold item at 2. rewrite items_map_insert by done. by rewrite lookup_insert_eq.
Qed.

(** ** Enough fuel *)

Lemma length_cells p t : length (cells p t) = length (ents t).
Proof.
  revert p. induction t as [|l IHl x r IHr]; intros p; cbn; [done|].
  rewrite !length_app, IHl, IHr. cbn. lia.
Qed.

Lemma height_ents t : (height t ≤ length (ents t))%nat.
Proof. induction t; cbn; [lia|]. rewrite length_app. cbn. lia. Qed.

Lemma depth_ents ctx t : (length ctx + height t ≤ length (ents (plug ctx t)))%nat.
Proof.
  rewrite ents_plug, !length_app. pose proof (height_ents t). induction ctx as [|[[] x s] ctx IH];
    cbn; rewrite ?length_app; cbn; lia.
Qed.

Lemma foc_fuel fr h t ctx R m :
  rmem fr (foc h t ctx ++ R) m → (length (ents (plug ctx t)) < size m)%nat.
Proof.
  intros H. apply rmem_size in H. rewrite foc_plug in H. unfold foc, around in H. cbn in H.
  rewrite !length_app, length_cells in H. cbn in H. lia.
Qed.

(** ** The descents of the code *)

Section descents.
Context (fr : rheap) (k : list Z) (cmp : Z → cmd rheap Z) (m : rheap).

(** [cmp] compares [k] with the key of an entry. *)
Definition compares (x : nd) : Prop :=
  ∃ c, cmp (n_at x) m = Done (c, m) ∧ (c <? 0) = keylt k (n_key x) ∧ (0 <? c) = keylt (n_key x) k.

Lemma compares_sub ctx l x r :
  Forall compares (ents (plug ctx (T l x r))) → compares x.
Proof.
  rewrite ents_plug, !Forall_app. cbn. rewrite Forall_app, Forall_cons. by intros (_ & (_ & ? & _) & _).
Qed.

Lemma RB_FIND_loop_run h fuel : ∀ t ctx R,
  rmem fr (foc h t ctx ++ R) m → Forall compares (ents (plug ctx t)) → (height t < fuel)%nat →
  RB_FIND_loop fuel cmp (ptr t) m = Done (ptr (search k t ctx).1, m).
Proof.
  induction fuel as [|fuel IH]; intros t ctx R H Hc Hf; [lia|]. cbn [RB_FIND_loop].
  destruct t as [|l x r]; [done|]. cbn [ptr search height] in *.
  destruct (foc_root fr _ LEFT _ _ _ _ _ _ H) as [Hx Hz].
  destruct (Z.eqb_spec (n_at x) 0); [done|].
  destruct (compares_sub _ _ _ _ Hc) as (c & Hrun & Hlt & Hgt). run_to Hrun. rewrite Hlt, Hgt.
  destruct (keylt k _); [|destruct (keylt _ k)].
  - run_to (RB_LEFT_run _ _ _ _ _ _ _ Hx). apply (IH l (Fr LEFT x r :: ctx) R); [|done|lia].
    by rewrite foc_up.
  - run_to (RB_CHILD_other _ _ _ _ _ _ _ Hx). apply (IH r (Fr RIGHT x l :: ctx) R); [|done|lia].
    by rewrite foc_up.
  - done.
Qed.

Lemma RB_FIND_run h t R :
  rmem fr (foc h t [] ++ R) m → Forall compares (ents t) →
  RB_FIND cmp h m = Done (ptr (search k t []).1, m).
Proof.
  intros H Hc. unfold RB_FIND. unfold live_blocks. cbn [mbind].
  rewrite (bind_done _ _ m (size m) m) by done.
  run_to (RB_ROOT_run _ _ _ (foc_head _ _ _ _ _ _ H)). eapply RB_FIND_loop_run; [done|done|].
  apply foc_fuel in H. cbn in H. pose proof (height_ents t). lia.
Qed.

(** The first entry of a list. *)
Definition hd_at (l : list nd) : Z := match l with [] => 0 | x :: _ => n_at x end.

Definition nfound (tc : rtree * context) : Z :=
  match tc.1 with E => hd_at (after tc.2) | T _ x _ => n_at x end.

Lemma RB_NFIND_loop_run h fuel : ∀ t ctx R,
  rmem fr (foc h t ctx ++ R) m → Forall compares (ents (plug ctx t)) → (height t < fuel)%nat →
  RB_NFIND_loop fuel cmp (ptr t) (hd_at (after ctx)) m = Done (nfound (search k t ctx), m).
Proof.
  induction fuel as [|fuel IH]; intros t ctx R H Hc Hf; [lia|]. cbn [RB_NFIND_loop].
  destruct t as [|l x r]; [done|]. cbn [ptr search height] in *.
  destruct (foc_root fr _ LEFT _ _ _ _ _ _ H) as [Hx Hz].
  destruct (Z.eqb_spec (n_at x) 0); [done|].
  destruct (compares_sub _ _ _ _ Hc) as (c & Hrun & Hlt & Hgt). run_to Hrun. rewrite Hlt, Hgt.
  destruct (keylt k _); [|destruct (keylt _ k)].
  - run_to (RB_LEFT_run _ _ _ _ _ _ _ Hx). apply (IH l (Fr LEFT x r :: ctx) R); [|done|lia].
    by rewrite foc_up.
  - run_to (RB_CHILD_other _ _ _ _ _ _ _ Hx). apply (IH r (Fr RIGHT x l :: ctx) R); [|done|lia].
    by rewrite foc_up.
  - done.
Qed.

Lemma RB_NFIND_run h t R :
  rmem fr (foc h t [] ++ R) m → Forall compares (ents t) →
  RB_NFIND cmp h m = Done (nfound (search k t []), m).
Proof.
  intros H Hc. unfold RB_NFIND. unfold live_blocks.
  rewrite (bind_done _ _ m (size m) m) by done.
  run_to (RB_ROOT_run _ _ _ (foc_head _ _ _ _ _ _ H)).
  eapply (RB_NFIND_loop_run h _ t []); [done|done|].
  apply foc_fuel in H. cbn in H. pose proof (height_ents t). lia.
Qed.

(** Where the descent of an insertion ends: the parent, and on which side of
    it the last comparison points. *)
Definition descent_end (ctx : context) (comp : Z) : Prop :=
  match ctx with
  | [] => True
  | Fr LEFT _ _ :: _ => comp < 0
  | Fr RIGHT _ _ :: _ => 0 < comp
  end.

Lemma RB_INSERT_loop_run h fuel : ∀ t ctx comp R,
  rmem fr (foc h t ctx ++ R) m → Forall compares (ents (plug ctx t)) → (height t < fuel)%nat →
  descent_end ctx comp →
  ∃ res, RB_INSERT_loop fuel cmp (ptr t) (up ctx) comp m = Done (res, m) ∧
    match search k t ctx with
    | (E, ctx') => ∃ comp', res = inr (up ctx', comp') ∧ descent_end ctx' comp'
    | (T _ x _, _) => res = inl (n_at x)
    end.
Proof.
  induction fuel as [|fuel IH]; intros t ctx comp R H Hc Hf Hd; [lia|]. cbn [RB_INSERT_loop].
  destruct t as [|l x r]; [by repeat eexists|]. cbn [ptr search height] in *.
  destruct (foc_root fr _ LEFT _ _ _ _ _ _ H) as [Hx Hz].
  destruct (Z.eqb_spec (n_at x) 0); [done|].
  destruct (compares_sub _ _ _ _ Hc) as (c & Hrun & Hlt & Hgt). run_to Hrun. rewrite Hlt, Hgt.
  destruct (keylt k _) eqn:Hk1; [|destruct (keylt _ k) eqn:Hk2].
  - run_to (RB_LEFT_run _ _ _ _ _ _ _ Hx).
    apply (IH l (Fr LEFT x r :: ctx) c R); [|done|lia|by apply Z.ltb_lt; congruence]. by rewrite foc_up.
  - run_to (RB_CHILD_other _ _ _ _ _ _ _ Hx).
    apply (IH r (Fr RIGHT x l :: ctx) c R); [|done|lia|by apply Z.ltb_lt; congruence]. by rewrite foc_up.
  - by eexists.
Qed.
End descents.

(** ** Walks *)

(** The in-order list in direction [d]: [RIGHT] is ascending. *)
Definition ents_to (d : rb_side) (t : rtree) : list nd :=
  match d with RIGHT => ents t | LEFT => rev (ents t) end.
Definition after_to (d : rb_side) (ctx : context) : list nd :=
  match d with RIGHT => after ctx | LEFT => rev (before ctx) end.

Lemma ents_to_mk d t x s : ents_to d (mk d t x s) = ents_to d s ++ x :: ents_to d t.
Proof. destruct d; cbn; [|done]. rewrite rev_app_distr. cbn. by rewrite <-app_assoc. Qed.

Lemma ents_to_mk_other d t x s :
  ents_to d (mk (other d) t x s) = ents_to d t ++ x :: ents_to d s.
Proof. rewrite mk_other. apply ents_to_mk. Qed.

Lemma after_to_cons d d' x s ctx :
  after_to d (Fr d' x s :: ctx) =
  if decide (d' = d) then after_to d ctx else x :: ents_to d s ++ after_to d ctx.
Proof.
  destruct d, d'; cbn; try done. by rewrite !rev_app_distr.
Qed.

Lemma hd_at_app l1 l2 : l1 ≠ [] → hd_at (l1 ++ l2) = hd_at l1.
Proof. by destruct l1. Qed.

Lemma ents_to_nil d t : t ≠ E → ents_to d t ≠ [].
Proof.
  intros Ht. destruct (mk_cases d t Ht) as (l & x & r & ->). rewrite ents_to_mk.
  by destruct (ents_to d r).
Qed.

(** The walk to the first entry of a subtree uses the subtree only. *)
Lemma descend_cells d (m : rheap) fuel : ∀ t p,
  (∀ a b, (a, b) ∈ cells p t → m !! a = Some b) → m !! 0 = None → t ≠ E → (height t ≤ fuel)%nat →
  descend fuel (other d) (ptr t) m = Done (hd_at (ents_to d t), m).
Proof.
  induction fuel as [|fuel IH]; intros t p Hm H0 Ht Hf.
  { destruct t; cbn in Hf; [done|lia]. }
  destruct (mk_cases d t Ht) as (r & x & l & ->). rewrite height_mk in Hf. rewrite ptr_mk.
  setoid_rewrite cells_mk in Hm. assert (m !! n_at x = Some (sblock d p (ptr r) (ptr l) x)) as Hx.
  { apply Hm, list_elem_of_here. }
  cbn [descend]. run_to (RB_CHILD_other _ _ _ _ _ _ _ Hx). rewrite ents_to_mk.
  destruct (decide (l = E)) as [->|Hl]; [by destruct d|].
  assert (∀ a b, (a, b) ∈ cells (n_at x) l → m !! a = Some b) as Hsub.
  { intros a b Hab. apply Hm, list_elem_of_further, elem_of_app. by right. }
  destruct (cells_root (n_at x) l Hl) as [b Hb]. apply Hsub in Hb.
  destruct (Z.eqb_spec (ptr l) 0) as [Hz|_]; [congruence|].
  rewrite hd_at_app by by apply ents_to_nil. by apply (IH l (n_at x)); [..|lia].
Qed.

Section walks.
Context (fr : rheap) (m : rheap).

Lemma descend_run h d fuel t ctx R :
  rmem fr (foc h t ctx ++ R) m → t ≠ E → (height t ≤ fuel)%nat →
  descend fuel (other d) (ptr t) m = Done (hd_at (ents_to d t), m).
Proof.
  intros H Ht Hf. apply (descend_cells d m fuel t (up ctx)); [|apply H|done|done].
  intros a b Hab. eapply rmem_lookup; [exact H|]. unfold foc. rewrite <-app_assoc.
  apply elem_of_app. by left.
Qed.

Lemma climb_run h d fuel : ∀ t ctx R,
  rmem fr (foc h t ctx ++ R) m → t ≠ E → (length ctx < fuel)%nat →
  (e ← climb fuel d (ptr t); RB_PARENT e) m = Done (hd_at (after_to d ctx), m).
Proof.
  induction fuel as [|fuel IH]; intros t ctx R H Ht Hf; [lia|].
  destruct (mk_cases LEFT t Ht) as (l & x & r & ->). rewrite ptr_mk. cbn [climb].
  destruct (foc_root fr _ _ _ _ _ _ _ _ H) as [Hx Hz].
  pose proof (RB_PARENT_run _ _ _ _ _ _ _ Hx) as Hp.
  destruct ctx as [|[d' p s] ctx]; cbn [up f_nd] in Hp.
  { rewrite (bind_done _ _ m (n_at x) m).
    - cbn beta. rewrite Hp. by destruct d.
    - by run_to Hp. }
  destruct (foc_parent fr _ _ _ _ _ _ _ _ H) as [_ Hp0].
  destruct (foc_side fr _ _ _ _ _ _ _ _ d H) as (c & Hc & Heq); [by left|].
  rewrite ptr_mk in Heq. rewrite after_to_cons. destruct (decide (d' = d)) as [->|Hd].
  - rewrite bool_decide_eq_true_2 in Heq by done. cbn in Hf.
    specialize (IH (mk d (T l x r) p s) ctx R). rewrite <-foc_up in IH.
    rewrite <-IH; [|done|by destruct d|lia]. rewrite ptr_mk. apply bind_same.
    run_to Hp. destruct (Z.eqb_spec (n_at p) 0); [done|]. run_to Hc.
    by rewrite Z.eqb_sym, Heq.
  - rewrite bool_decide_eq_false_2 in Heq by done. rewrite (bind_done _ _ m (n_at x) m).
    + by rewrite Hp.
    + run_to Hp. destruct (Z.eqb_spec (n_at p) 0); [done|]. run_to Hc. by rewrite Z.eqb_sym, Heq.
Qed.

(** [RB_NEXT] and [RB_PREV] from an entry: the next one in direction [d]. *)
Lemma rb_step_run h d r x l ctx R :
  rmem fr (foc h (mk d r x l) ctx ++ R) m →
  rb_step d (n_at x) m = Done (hd_at (ents_to d r ++ after_to d ctx), m).
Proof.
  intros H. unfold rb_step, live_blocks. rewrite (bind_done _ _ m (size m) m) by done.
  pose proof (foc_fuel _ _ _ _ _ _ H) as Hsz. pose proof (depth_ents ctx (mk d r x l)) as Hdep.
  rewrite height_mk in Hdep. destruct (foc_root fr _ _ _ _ _ _ _ _ H) as [Hx Hz].
  run_to (RB_CHILD_same _ _ _ _ _ _ _ Hx). destruct (decide (r = E)) as [->|Hr].
  - cbn [ptr Z.eqb negb]. pose proof (RB_PARENT_run _ _ _ _ _ _ _ Hx) as Hp. run_to Hp.
    pose proof (climb_run h d (size m) _ _ _ H ltac:(by destruct d) ltac:(lia)) as Hclimb.
    rewrite ptr_mk in Hclimb. replace (ents_to d E) with (@nil nd) by (by destruct d). cbn [app].
    destruct ctx as [|[d' p s] ctx]; cbn [up f_nd] in Hp |- *.
    { rewrite (bind_done _ _ m 0 m) by done. exact Hclimb. }
    destruct (foc_parent fr _ _ _ _ _ _ _ _ H) as [_ Hp0].
    destruct (Z.eqb_spec (n_at p) 0); [done|].
    destruct (foc_side fr _ _ _ _ _ _ _ _ (other d) H) as (c & Hc & Heq); [by left; destruct d|].
    rewrite ptr_mk in Heq. run_to Hc. rewrite Z.eqb_sym, Heq. rewrite after_to_cons in *.
    destruct (decide (d' = d)) as [->|Hd].
    + rewrite bool_decide_eq_false_2 by (by destruct d). by cbn [negb andb].
    + rewrite bool_decide_eq_true_2 by (by destruct d, d'). done.
  - destruct (Z.eqb_spec (ptr r) 0) as [Hr0|_].
    { destruct r as [|rl y rr]; [done|]. exfalso.
      rewrite <-foc_up in H. by destruct (foc_root fr _ LEFT _ _ _ _ _ _ H). }
    cbn [negb]. rewrite hd_at_app by by apply ents_to_nil.
    apply (descend_run h d _ r (Fr d x l :: ctx) R); [by rewrite foc_up|done|lia].
Qed.

(** [RB_MINMAX] finds the first entry in ascending or descending order. *)
Lemma RB_MINMAX_loop_run h val fuel : ∀ t ctx R,
  rmem fr (foc h t ctx ++ R) m → (height t < fuel)%nat →
  let d := if val <? 0 then RIGHT else LEFT in
  RB_MINMAX_loop fuel val (ptr t) (up ctx) m =
    Done (match t with E => up ctx | _ => hd_at (ents_to d t) end, m).
Proof.
  intros t ctx R H Hf d. revert t ctx H Hf. induction fuel as [|fuel IH]; intros t ctx H Hf; [lia|].
  cbn [RB_MINMAX_loop]. destruct (decide (t = E)) as [->|Ht]; [done|].
  destruct (mk_cases d t Ht) as (r & x & l & ->). rewrite height_mk in Hf. rewrite ptr_mk.
  destruct (foc_root fr _ _ _ _ _ _ _ _ H) as [Hx Hz]. destruct (Z.eqb_spec (n_at x) 0); [done|].
  rewrite (bind_done _ _ m (ptr l) m).
  - pose proof (IH l (Fr (other d) x r :: ctx)) as Hl. rewrite foc_up, mk_other in Hl.
    cbn [up f_nd] in Hl. rewrite Hl by (done || lia).
    replace (match mk d r x l with E => up ctx | T _ _ _ => hd_at (ents_to d (mk d r x l)) end)
      with (hd_at (ents_to d (mk d r x l))) by (by destruct d).
    rewrite ents_to_mk. destruct l as [|ll y lr]; [by destruct d|].
    by rewrite hd_at_app by by apply ents_to_nil.
  - unfold d in Hx. destruct (val <? 0); [by apply (RB_CHILD_other _ _ _ _ _ _ _ Hx)|].
    by apply (RB_CHILD_other _ _ _ _ _ _ _ Hx).
Qed.

Lemma RB_MINMAX_run h val t R :
  rmem fr (foc h t [] ++ R) m →
  RB_MINMAX h val m = Done (hd_at (ents_to (if val <? 0 then RIGHT else LEFT) t), m).
Proof.
  intros H. unfold RB_MINMAX, live_blocks. rewrite (bind_done _ _ m (size m) m) by done.
  run_to (RB_ROOT_run _ _ _ (foc_head _ _ _ _ _ _ H)). cbn [plug].
  pose proof (foc_fuel _ _ _ _ _ _ H) as Hsz. cbn [plug] in Hsz. pose proof (height_ents t).
  rewrite (RB_MINMAX_loop_run h val _ t [] R) by (done || lia).
  destruct t; [by destruct (val <? 0)|done].
Qed.
(** ** Iteration *)

Lemma split_cases {A} (a l1 : list A) y x b l2 :
  a ++ y :: b = l1 ++ x :: l2 →
  (∃ c, a = l1 ++ x :: c ∧ l2 = c ++ y :: b) ∨ (x = y ∧ b = l2) ∨ (∃ c, b = c ++ x :: l2).
Proof.
  revert l1. induction a as [|z a IH]; intros [|w l1]; cbn; intros [= -> H].
  - auto.
  - right. right. by exists l1.
  - left. by exists a.
  - destruct (IH l1 H) as [(c & -> & ->)|[?|?]]; [left; by exists c|auto|auto].
Qed.

(** Every entry of the list can be focused. *)
Lemma ents_focus d t l1 x l2 ctx0 :
  ents_to d t = l1 ++ x :: l2 →
  ∃ r l ctx, plug ctx0 t = plug ctx (mk d r x l) ∧
    l2 ++ after_to d ctx0 = ents_to d r ++ after_to d ctx.
Proof.
  revert l1 l2 ctx0. induction t as [|a IHa y b IHb]; intros l1 l2 ctx0 H.
  { destruct d; by destruct l1. }
  assert (∃ tl tr, T a y b = mk d tr y tl ∧
    (∀ l1 l2 ctx0, ents_to d tl = l1 ++ x :: l2 → ∃ r l ctx, plug ctx0 tl = plug ctx (mk d r x l) ∧
      l2 ++ after_to d ctx0 = ents_to d r ++ after_to d ctx) ∧
    (∀ l1 l2 ctx0, ents_to d tr = l1 ++ x :: l2 → ∃ r l ctx, plug ctx0 tr = plug ctx (mk d r x l) ∧
      l2 ++ after_to d ctx0 = ents_to d r ++ after_to d ctx)) as (tl & tr & Ht & IHl & IHr).
  { destruct d; [by exists b, a|by exists a, b]. }
  clear IHa IHb. rewrite Ht in H |- *. rewrite ents_to_mk in H.
  destruct (split_cases _ _ _ _ _ _ H) as [(c & Hl & ->)|[[-> <-]|(c & Hr)]].
  - destruct (IHl _ _ (Fr (other d) y tr :: ctx0) Hl) as (r & l & ctx & Hp & Heq).
    exists r, l, ctx. rewrite <-Hp, <-Heq, after_to_cons, decide_False by (by destruct d).
    cbn [plug]. by rewrite mk_other, <-app_assoc.
  - by exists tr, tl, ctx0.
  - destruct (IHr _ _ (Fr d y tl :: ctx0) Hr) as (r & l & ctx & Hp & Heq).
    exists r, l, ctx. by rewrite <-Hp, <-Heq, after_to_cons, decide_True by done.
Qed.

Lemma ents_split t l1 x l2 :
  ents t = l1 ++ x :: l2 →
  ∃ l r ctx, t = plug ctx (T l x r) ∧ l1 = before ctx ++ ents l ∧ l2 = ents r ++ after ctx.
Proof.
  intros H. destruct (ents_focus RIGHT t l1 x l2 [] H) as (r & l & ctx & Ht & Hl2).
  cbn in Ht, Hl2. rewrite app_nil_r in Hl2. subst t l2. exists l, r, ctx. split; [done|].
  split; [|done]. rewrite ents_plug in H. cbn in H. rewrite <-app_assoc, app_assoc in H.
  by apply app_inv_tail in H.
Qed.

(** One step of an iteration. *)
Lemma rb_step_list h d t R l1 x l2 :
  rmem fr (foc h t [] ++ R) m → ents_to d t = l1 ++ x :: l2 →
  n_at x ≠ 0 ∧ rb_step d (n_at x) m = Done (hd_at l2, m).
Proof.
  intros H Heq. destruct (ents_focus _ _ _ _ _ [] Heq) as (r & l & ctx & Hp & Hl2).
  cbn in Hp. subst t. rewrite <-foc_plug in H. split.
  - by destruct (foc_root _ _ _ _ _ _ _ _ _ H).
  - rewrite (rb_step_run _ _ _ _ _ _ _ H), <-Hl2. by destruct d; rewrite app_nil_r.
Qed.

Lemma foreach_run h d t R fuel : ∀ l1 l2,
  rmem fr (foc h t [] ++ R) m → ents_to d t = l1 ++ l2 → (length l2 < fuel)%nat →
  RB_FOREACH_loop fuel (rb_step d) (hd_at l2) m = Done (n_at <$> l2, m).
Proof.
  induction fuel as [|fuel IH]; intros l1 l2 H Heq Hf; [lia|]. cbn [RB_FOREACH_loop].
  destruct l2 as [|x l2]; [done|]. cbn [hd_at length] in *.
  destruct (rb_step_list _ _ _ _ _ _ _ H Heq) as [Hz Hs]. destruct (Z.eqb_spec (n_at x) 0); [done|].
  run_to Hs. rewrite (bind_done _ _ m (n_at <$> l2) m); [done|].
  apply (IH (l1 ++ [x])); [done|by rewrite <-app_assoc|lia].
Qed.
End walks.

(** Every entry of a tree is at its address. *)
Lemma foc_entry fr h t R m x :
  rmem fr (foc h t [] ++ R) m → x ∈ ents t →
  ∃ p a b, m !! n_at x = Some (sblock LEFT p a b x).
Proof.
  intros H (l1 & l2 & Hx)%list_elem_of_split.
  destruct (ents_split _ _ _ _ Hx) as (l & r & ctx & -> & _).
  rewrite <-foc_plug in H. destruct (foc_root fr _ LEFT _ _ _ _ _ _ H) as [Hb _]. eauto.
Qed.
