(* ===== verification/RbInsert.v ===== *)
(** * RbInsert: rebalancing after an insertion

    [RB_INSERT_COLOR] at a red entry with two valid subtrees of the right
    height, in a context that takes a black tree: it returns, and leaves a
    valid red-black tree with the same entries in the same order. *)

From S2P Require Import Prelude.
From S2P Require Import Own.
From S2P Require Import RbTree.
From S2P Require Import RbShape.
From S2P Require Import RbMem.
From S2P Require Import RbSearch.

Section insert.
Context (fr : rheap).
Implicit Types (m : rheap) (R : list (Z * rblock)).

Notation rmem := (rmem fr).

(** The uncle is red: three colour changes. *)
Lemma insert_recolor h d p d' t s g ul u ur ctx R m :
  rmem (foc h (mk d (mk d' t p s) g (T ul u ur)) ctx ++ R) m →
  ∃ m', (_ ← SET_COLOR (n_at u) RB_BLACK; RB_SET_BLACKRED (n_at p) (n_at g)) m = Done (tt, m') ∧
    rmem (foc h (mk d (mk d' t (paint Black p) s) (paint Red g) (T ul (paint Black u) ur)) ctx ++ R) m'.
Proof.
  intros H. change (T ul u ur) with (mk LEFT ul u ur) in H. unfold foc in H.
  rewrite ptr_mk, !cells_mk, !ptr_mk in H. unfold RB_SET_BLACKRED.
  rb_view H ((n_at u, sblock LEFT (n_at g) (ptr ul) (ptr ur) u) ::
    (n_at p, sblock d' (n_at g) (ptr t) (ptr s) p) ::
    (n_at g, sblock d (up ctx) (n_at p) (n_at u) g) :: cells (n_at u) ul ++ cells (n_at u) ur ++
    cells (n_at p) t ++ cells (n_at p) s ++ around h (n_at g) ctx ++ R).
  rb_store H. rb_store H.
  erewrite (SET_COLOR_run _ _ _ _ _ _ _ Red) by rb_at H.
  eexists. split; [done|]. apply (rmem_store2 fr _ _ _ _ (sblock d (up ctx) (n_at p) (n_at u) (paint Red g))) in H.
  change (T ul (paint Black u) ur) with (mk LEFT ul (paint Black u) ur). unfold foc.
  rewrite ptr_mk, !cells_mk, !ptr_mk. cbn [n_at paint]. revert H. apply rmem_perm'. solve_Permutation.
Qed.

(** The uncle is not red: the parent, or the entry itself, is lifted. *)
Lemma insert_lift h d t p s g u ctx R m :
  rmem (foc h (mk d (mk d t p s) g u) ctx ++ R) m →
  ∃ m', (_ ← RB_SET_BLACKRED (n_at p) (n_at g); RB_ROTATE (other d) h (n_at g)) m =
      Done (n_at p, m') ∧
    rmem (foc h (mk d t (paint Black p) (mk d s (paint Red g) u)) ctx ++ R) m'.
Proof.
  intros H. assert (∃ m1, RB_SET_BLACKRED (n_at p) (n_at g) m = Done (tt, m1) ∧
    rmem (foc h (mk d (mk d t (paint Black p) s) (paint Red g) u) ctx ++ R) m1) as (m1 & Hrun & H1).
  { unfold foc in H. rewrite ptr_mk, !cells_mk, !ptr_mk in H. unfold RB_SET_BLACKRED.
    rb_view H ((n_at p, sblock d (n_at g) (ptr t) (ptr s) p) ::
      (n_at g, sblock d (up ctx) (n_at p) (ptr u) g) :: cells (n_at p) t ++ cells (n_at p) s ++
      cells (n_at g) u ++ around h (n_at g) ctx ++ R).
    rb_store H. erewrite (SET_COLOR_run _ _ _ _ _ _ _ Red) by rb_at H. eexists. split; [done|].
    apply (rmem_store1 fr _ _ _ (sblock d (up ctx) (n_at p) (ptr u) (paint Red g))) in H.
    unfold foc. rewrite ptr_mk, !cells_mk, !ptr_mk. cbn [n_at paint].
    revert H. apply rmem_perm'. solve_Permutation. }
  run_to Hrun.
  rewrite <-(mk_other d (mk d _ _ _)), <-(mk_other d t) in H1.
  destruct (rotate_run fr h (other d) u (paint Red g) s (paint Black p) t ctx R m1 H1)
    as (m2 & Hrun2 & H2).
  exists m2. split; [done|].
  by rewrite <-(mk_other d t), <-(mk_other d s).
Qed.

(** The red uncle as a test of the code. *)
Lemma uncle_run h t d x u ctx R m c n :
  rmem (foc h t (Fr d x u :: ctx) ++ R) m → rb c n u →
  ∃ tc, (if ptr u =? 0 then mret RB_BLACK else RB_COLOR (ptr u)) m = Done (tc, m) ∧
    negb (ptr u =? 0) && (tc =? RB_RED) = bool_decide (c = Red).
Proof.
  intros H Hu. destruct u as [|ul y ur].
  - inversion Hu; subst. by exists RB_BLACK.
  - destruct (foc_sibling fr _ _ _ _ LEFT ul y ur _ _ _ H) as [Hy Hz]. cbn [ptr].
    destruct (Z.eqb_spec (n_at y) 0); [done|]. eexists. split; [by eapply RB_COLOR_run|].
    rewrite (rb_col _ _ _ _ _ Hu). by destruct c.
Qed.

(** The loop ends at the root and below a black parent. *)
Lemma insert_color_exit h fuel ctx t R m :
  t ≠ E → match ctx with [] => True | Fr _ p _ :: _ => n_col p = Black end →
  rmem (foc h t ctx ++ R) m →
  RB_INSERT_COLOR_loop (S fuel) h (ptr t) m = Done (tt, m).
Proof.
  intros Ht Hp H. destruct t as [|l z r]; [done|]. cbn [RB_INSERT_COLOR_loop ptr].
  destruct (foc_root fr _ LEFT _ _ _ _ _ _ H) as [Hzb _].
  run_to (RB_PARENT_run _ _ _ _ _ _ _ Hzb). destruct ctx as [|[d p s] ctx]; [done|].
  destruct (foc_parent fr _ _ _ _ _ _ _ _ H) as [Hpb Hp0]. cbn [up f_nd].
  destruct (Z.eqb_spec (n_at p) 0); [done|].
  run_to (RB_COLOR_run _ _ _ _ _ _ _ Hpb). by rewrite Hp.
Qed.

(** Below a red parent it looks at the uncle. *)
Lemma insert_color_unfold h fuel t d1 p s1 d g u c n ctx R m :
  t ≠ E → n_col p = Red → rb c n u →
  rmem (foc h t (Fr d1 p s1 :: Fr d g u :: ctx) ++ R) m →
  RB_INSERT_COLOR_loop (S fuel) h (ptr t) m =
    match c with
    | Red =>
        (_ ← SET_COLOR (ptr u) RB_BLACK;
         _ ← RB_SET_BLACKRED (n_at p) (n_at g);
         RB_INSERT_COLOR_loop fuel h (n_at g)) m
    | Black =>
        (elm ← insert_rotate d h (ptr t) (n_at p) (n_at g); RB_INSERT_COLOR_loop fuel h elm) m
    end.
Proof.
  intros Ht Hp Hu H. destruct t as [|l z r]; [done|]. cbn [RB_INSERT_COLOR_loop ptr].
  destruct (foc_root fr _ LEFT _ _ _ _ _ _ H) as [Hzb _].
  run_to (RB_PARENT_run _ _ _ _ _ _ _ Hzb). cbn [up f_nd].
  destruct (foc_parent fr _ _ _ _ _ _ _ _ H) as [Hpb Hp0].
  destruct (Z.eqb_spec (n_at p) 0); [done|].
  run_to (RB_COLOR_run _ _ _ _ _ _ _ Hpb). rewrite Hp. cbn [orb negb Z.eqb RB_RED color_word Pos.eqb].
  run_to (RB_PARENT_run _ _ _ _ _ _ _ Hpb). cbn [up f_nd]. rewrite foc_up in H.
  destruct (foc_side fr _ _ _ _ _ _ _ _ LEFT H) as (gl & Hgl & Heq); [by left; destruct d1|].
  rewrite ptr_mk in Heq. run_to Hgl. rewrite (Z.eqb_sym (n_at p)), Heq.
  replace (if bool_decide (d = LEFT) then LEFT else RIGHT) with d by (by destruct d).
  destruct (foc_parent fr _ _ _ _ _ _ _ _ H) as [Hgb _].
  run_to (RB_CHILD_other _ _ _ _ _ _ _ Hgb).
  destruct (uncle_run _ _ _ _ _ _ _ _ _ _ H Hu) as (tc & Htc & Hred). run_to Htc.
  rewrite Hred. by destruct c.
Qed.

(** The rotations turn a red entry with a red parent into a red entry with a
    black parent, in the place of the grandparent. *)
Lemma insert_rotate_run h t d1 p s1 d g u n ctx R m :
  rb Red n t → n_col p = Red → rb Black n s1 → n_col g = Black → rb Black n u →
  rmem (foc h t (Fr d1 p s1 :: Fr d g u :: ctx) ++ R) m →
  ∃ m' t' x s', insert_rotate d h (ptr t) (n_at p) (n_at g) m = Done (ptr t', m') ∧
    rmem (foc h t' (Fr d x s' :: ctx) ++ R) m' ∧ n_col x = Black ∧ rb Red n t' ∧ rb Red n s' ∧
    items (mk d t' x s') = items (mk d (mk d1 t p s1) g u).
Proof.
  intros Ht Hp Hs1 Hg Hu H. unfold insert_rotate.
  assert (Hne : t ≠ E ∨ s1 ≠ E) by (left; intros ->; inversion Ht).
  destruct (foc_side fr _ _ _ _ _ _ _ _ (other d) H Hne) as (inner & Hin & Heq).
  run_to Hin. rewrite Heq. rewrite foc_up in H. destruct (decide (d1 = d)) as [->|Hd].
  - rewrite bool_decide_eq_false_2 by (by destruct d). cbn iota.
    rewrite (bind_done _ _ _ _ _ eq_refl). cbn beta iota. rewrite foc_up in H.
    destruct (insert_lift _ _ _ _ _ _ _ _ _ _ H) as (m1 & Hrun & H1).
    rewrite (bind_done2 _ _ _ _ _ _ Hrun). cbn beta.
    eexists m1, t, (paint Black p), (mk d s1 (paint Red g) u). rewrite <-foc_up in H1.
    split; [done|]. split; [done|]. split; [done|]. split; [done|].
    split; [by apply rb_mk_red|].
    items_by d.
  - assert (d1 = other d) as -> by (by destruct d, d1).
    rewrite bool_decide_eq_true_2 by done. cbn iota.
    destruct (mk_cases d t) as (zl & z & zr & ->); [by intros ->; inversion Ht|].
    rewrite ptr_mk in *. apply rb_mk_inv in Ht as [(? & ? & _)|(Hz & _ & Hzl & Hzr)]; [done|].
    rewrite mk_other in H.
    destruct (rotate_run _ _ _ _ _ _ _ _ _ _ _ H) as (m1 & Hrun & H1). rewrite foc_up in H1.
    rewrite (bind_done _ _ _ _ _ (bind_done _ _ _ _ _ Hrun)). cbn beta iota.
    destruct (insert_lift _ _ _ _ _ _ _ _ _ _ H1) as (m2 & Hrun2 & H2).
    rewrite (bind_done2 _ _ _ _ _ _ Hrun2). cbn beta.
    eexists m2, (mk d s1 p zl), (paint Black z), (mk d zr (paint Red g) u). rewrite <-foc_up in H2.
    rewrite ptr_mk. split_and!; [done..|by apply rb_mk_red|by apply rb_mk_red|].
    items_by d.
Qed.

Lemma insert_color_loop h fuel : ∀ ctx t n R m,
  (length ctx < fuel)%nat → rb Red n t → ctx_rb Black n ctx → rmem (foc h t ctx ++ R) m →
  ∃ m' t', RB_INSERT_COLOR_loop fuel h (ptr t) m = Done (tt, m') ∧
    rmem (foc h t' [] ++ R) m' ∧ items t' = items (plug ctx t) ∧ rb_tree (repaint Black t').
Proof.
  induction fuel as [|fuel IH]; intros ctx t n R m Hf Ht Hctx H; [lia|].
  assert (Hne : t ≠ E) by (intros ->; inversion Ht).
  inversion Hctx as [|c c' ? d p s1 ctx1 Hp Hs1 Hctx1|? d1 p s1 ctx1 Hp Hs1 Hctx1]; subst.
  { exists m, t. rewrite (insert_color_exit _ _ [] t R m) by done. split_and!; [done..|].
    by apply rb_repaint_black in Ht. }
  { exists m, (plug (Fr d p s1 :: ctx1) t).
    rewrite (insert_color_exit _ _ (Fr d p s1 :: ctx1) _ R _ Hne Hp H). rewrite <-foc_plug. split_and!; [done..|].
    destruct (plug_rb Red n (Fr d p s1 :: ctx1) t) as [k Hk]; [by eapply ctx_rb_black|done|].
    by apply rb_repaint_black in Hk. }
  destruct (ctx_rb_red_inv _ _ Hctx1) as (d & g & u & cu & ctx & -> & Hg & Hu & Hctx2).
  cbn in Hf. rewrite (insert_color_unfold _ _ _ _ _ _ _ _ _ _ _ _ _ _ Hne Hp Hu H). destruct cu.
  - inversion Hu as [| |? ul y ur Hy Hul Hur]; subst. cbn [ptr]. rewrite !foc_up in H.
    destruct (insert_recolor _ _ _ _ _ _ _ _ _ _ _ _ _ H) as (m1 & Hrun & H1).
    rewrite (bind_done2 _ _ _ _ _ _ Hrun). cbn beta.
    destruct (IH ctx (mk d (mk d1 t (paint Black p) s1) (paint Red g) (T ul (paint Black y) ur))
      (S n) R m1) as (m' & t' & Hgo & H' & Hit & Hrb); [lia| |done..|].
    + apply rb_mk_red; [done|by eapply rb_mk_black|by eapply rb_black].
    + rewrite ptr_mk in Hgo. exists m', t'. split_and!; [done..| |done].
      rewrite Hit. cbn [plug]. apply items_plug_eq, items_mk; [by apply items_mk|done|].
      by apply (items_repaint Black (T ul y ur)).
  - destruct (insert_rotate_run _ _ _ _ _ _ _ _ _ _ _ _ Ht Hp Hs1 Hg Hu H)
      as (m1 & t1 & x & s' & Hrun & H1 & Hx & Ht1 & Hs' & Hit1). run_to Hrun.
    destruct fuel as [|fuel]; [lia|]. exists m1, (plug (Fr d x s' :: ctx) t1).
    rewrite (insert_color_exit _ _ (Fr d x s' :: ctx) t1 R _ ltac:(by intros ->; inversion Ht1) Hx H1).
    rewrite <-foc_plug. split_and!; [done|done| |].
    + cbn [plug]. by apply items_plug_eq.
    + destruct (plug_rb Red n (Fr d x s' :: ctx) t1) as [k Hk]; [by eapply ctx_rb_black|done|].
      by apply rb_repaint_black in Hk.
Qed.
Lemma insert_color_run h t n ctx R m :
  rb Red n t → ctx_rb Black n ctx → rmem (foc h t ctx ++ R) m →
  ∃ m' t', RB_INSERT_COLOR h (ptr t) m = Done (tt, m') ∧
    rmem (foc h t' [] ++ R) m' ∧ items t' = items (plug ctx t) ∧ rb_tree t'.
Proof.
  intros Ht Hctx H. unfold RB_INSERT_COLOR, live_blocks. rewrite (bind_done _ _ m (size m) m) by done.
  pose proof (foc_fuel _ _ _ _ _ _ H) as Hsz. pose proof (depth_ents ctx t) as Hdep.
  destruct (insert_color_loop h (size m) ctx t n R m) as (m1 & t1 & Hrun & H1 & Hit & Hrb);
    [lia|done..|]. run_to Hrun.
  run_to (RB_ROOT_run _ _ _ (foc_head _ _ _ _ _ _ H1)). cbn [plug].
  destruct (paint_run fr h t1 [] Black R m1 H1) as (m2 & Hrun2 & H2).
  { intros ->. assert (items (plug ctx t) = []) as Hnil by by rewrite <-Hit.
    rewrite items_plug in Hnil. apply app_eq_nil in Hnil as [_ [Hnil _]%app_eq_nil].
    unfold items in Hnil. inversion Ht; subst. cbn in Hnil. by destruct (ents l). }
  exists m2, (repaint Black t1). split; [done|]. split; [done|]. split; [|done].
  by rewrite items_repaint.
Qed.
End insert.
