(* ===== verification/RbRemove.v ===== *)
(** * RbRemove: removal and the rebalancing after it

    [RB_REMOVE_COLOR] at a subtree that is one black node short of what its
    context takes, and [RB_REMOVE] of any entry of a tree: both return, and
    leave a valid red-black tree whose entries are the others, in order. *)

From S2P Require Import Prelude.
From S2P Require Import Own.
From S2P Require Import RbTree.
From S2P Require Import RbShape.
From S2P Require Import RbMem.
From S2P Require Import RbSearch.

Definition root_col (t : rtree) : color := match t with E => Black | T _ x _ => n_col x end.

Lemma root_col_mk d t x s : root_col (mk d t x s) = n_col x.
Proof. by destruct d. Qed.

Lemma rb_root_col c n t : rb c n t → root_col t = c.
Proof. inversion 1; by subst. Qed.

(** The context takes one black node more than [t] has, or [t] is red. *)
Definition short (n : nat) (t : rtree) : Prop :=
  rb Black n t ∨ (root_col t = Red ∧ rb Black (S n) (repaint Black t)).

Lemma short_rb c n t : rb c n t → short n t.
Proof.
  intros Ht. destruct c; [right|by left]. inversion Ht; subst. split; [done|]. by eapply rb_black.
Qed.

(** A valid tree without one entry that has one child at most. *)
Definition fits (c : color) (t : rtree) (ctx : context) : Prop :=
  match c with
  | Red => rb_tree (plug ctx t)
  | Black => ∃ n, short n t ∧ ctx_rb Black (S n) ctx
  end.

Lemma cut_fits d t x ctx : rb_tree (plug ctx (mk d t x E)) → fits (n_col x) t ctx.
Proof.
  intros (c & n & Ht & Hctx)%plug_rb_inv.
  apply rb_mk_inv in Ht as [(Hx & -> & k & c1 & c2 & -> & Ht & _)|(Hx & -> & Ht & _)]; rewrite Hx; cbn.
  - exists k. split; [by eapply short_rb|done].
  - apply ctx_rb_weaken in Hctx. by eapply plug_rb.
Qed.

Section remove.
Context (fr : rheap).
Implicit Types (m : rheap) (R : list (Z * rblock)).

Notation rmem := (rmem fr).

(** A red sibling is rotated away. *)
Lemma remove_sibling_run h n t d p s ctx R m :
  ctx_rb Black (S n) (Fr d p s :: ctx) → rmem (foc h t (Fr d p s :: ctx) ++ R) m →
  ∃ m' p' ctx' s', remove_sibling d h (n_at p) m = Done (ptr s', m') ∧
    rmem (foc h t (Fr d p' s' :: ctx') ++ R) m' ∧ n_at p' = n_at p ∧
    ctx_rb Black (S n) (Fr d p' s' :: ctx') ∧ rb Black (S n) s' ∧
    items (plug (Fr d p' s' :: ctx') t) = items (plug (Fr d p s :: ctx) t) ∧
    (n_col p' = Black → length ctx' = length ctx).
Proof.
  intros Hctx H. assert (∃ c, rb c (S n) s) as [c Hs] by (inversion Hctx; eauto).
  assert (Hne : s ≠ E) by (intros ->; inversion Hs).
  destruct (mk_cases d s Hne) as (a & y & b & ->). unfold remove_sibling.
  destruct (foc_parent fr _ _ _ _ _ _ _ _ H) as [Hp _].
  destruct (foc_sibling fr _ _ _ _ _ _ _ _ _ _ _ H) as [Hy _].
  run_to (RB_CHILD_other _ _ _ _ _ _ _ Hp). rewrite ptr_mk.
  run_to (RB_COLOR_run _ _ _ _ _ _ _ Hy).
  apply rb_mk_inv in Hs as Hs'. destruct Hs' as [(Hc & -> & _)|(Hc & -> & Ha & Hb)]; rewrite Hc.
  { exists m, p, ctx, (mk d a y b). rewrite ptr_mk. split_and!; done. }
  cbn [color_word Z.eqb RB_RED Pos.eqb]. unfold RB_SET_BLACKRED.
  assert (n_col p = Black ∧ ctx_rb Black (S (S n)) ctx) as [Hpc Hctx'].
  { inversion Hctx; subst; [done|]. by match goal with HH : rb Black _ (mk _ _ _ _) |- _ =>
      apply rb_mk_inv in HH as [(? & _)|(? & ? & _)] end; congruence. }
  rewrite foc_swap in H.
  destruct (paint_run fr h _ _ Black R m H) as (m1 & Hrun1 & H1); [by destruct d|].
  rewrite ptr_mk in Hrun1. rewrite foc_swap in H1. rewrite repaint_mk in H1.
  replace (other (other d)) with d in H1 by (by destruct d). rewrite foc_up in H1.
  destruct (paint_run fr h _ _ Red R m1 H1) as (m2 & Hrun2 & H2); [by destruct d|].
  rewrite ptr_mk in Hrun2. rewrite repaint_mk in H2.
  destruct (rotate_run fr _ _ _ _ _ _ _ _ _ _ H2) as (m3 & Hrun3 & H3).
  cbn [n_at paint] in Hrun3.
  erewrite bind_done by (erewrite bind_done by exact Hrun1; exact Hrun2). cbn beta. run_to Hrun3.
  rewrite <-!foc_up in H3. destruct (foc_parent fr _ _ _ _ _ _ _ _ H3) as [Hp3 _].
  exists m3, (paint Red p), (Fr d (paint Black y) b :: ctx), a.
  split; [by apply (RB_CHILD_other _ _ _ _ _ _ _ Hp3)|]. split; [done|].
  split; [done|]. split; [|split; [done|split; [|done]]].
  - apply ctx_rb_red; [done|done|]. by eapply ctx_rb_black.
  - cbn [plug]. apply items_plug_eq. by items_by d.
Qed.

(** The far child of the sibling is red: it takes the missing black node. *)
Lemma remove_lift_run h d t p a y b ctx R m :
  rmem (foc h (mk d t p (mk d a y b)) ctx ++ R) m →
  let t' := mk d (mk d t (paint Black p) a) (paint (n_col p) y) (repaint Black b) in
  ∃ m', remove_lift d h (n_at p) (n_at y) m = Done (ptr (plug ctx t'), m') ∧
    rmem (foc h t' ctx ++ R) m'.
Proof.
  intros H t'. unfold remove_lift. destruct (foc_root fr _ _ _ _ _ _ _ _ H) as [Hp _].
  run_to (RB_COLOR_run _ _ _ _ _ _ _ Hp).
  rewrite <-foc_up, foc_swap in H.
  destruct (paint_run fr h _ _ (n_col p) R m H) as (m1 & Hrun1 & H1); [by destruct d|].
  rewrite ptr_mk in Hrun1. run_to Hrun1. rewrite repaint_mk, foc_up, mk_other in H1.
  destruct (paint_run fr h _ _ Black R m1 H1) as (m2 & Hrun2 & H2); [by destruct d|].
  rewrite ptr_mk in Hrun2. run_to Hrun2. rewrite repaint_mk, <-foc_up, foc_swap in H2.
  destruct (foc_root fr _ _ _ _ _ _ _ _ H2) as [Hy _]. cbn [n_at paint] in Hy.
  run_to (RB_CHILD_other _ _ _ _ _ _ _ Hy). rewrite <-foc_up, foc_swap in H2.
  destruct (blacken_run fr _ _ _ _ _ H2) as (m3 & Hrun3 & H3). run_to Hrun3.
  rewrite foc_up, mk_other, foc_up, mk_other in H3.
  destruct (rotate_run fr _ _ _ _ _ _ _ _ _ _ H3) as (m4 & Hrun4 & H4). cbn [n_at paint] in Hrun4.
  run_to Hrun4. exists m4. split; [|done]. by apply RB_ROOT_run, (foc_head fr _ _ _ R).
Qed.

(** The near child is red and the far one black: a rotation at the sibling
    makes the far one red. *)
Lemma remove_inner_run h d t p z1 z z2 y b ctx R m :
  rmem (foc h (mk d t p (mk d (mk d z1 z z2) y b)) ctx ++ R) m →
  ∃ m', (_ ← blacken (n_at z);
         _ ← SET_COLOR (n_at y) RB_RED;
         _ ← RB_ROTATE (other d) h (n_at y);
         RB_CHILD (other d) (n_at p)) m = Done (n_at z, m') ∧
    rmem (foc h (mk d t p (mk d z1 (paint Black z) (mk d z2 (paint Red y) b))) ctx ++ R) m'.
Proof.
  intros H. rewrite <-foc_up, foc_swap, <-foc_up in H.
  destruct (blacken_run fr _ _ _ _ _ H) as (m1 & Hrun1 & H1). rewrite ptr_mk in Hrun1.
  run_to Hrun1. rewrite repaint_mk, foc_up in H1.
  destruct (paint_run fr h _ _ Red R m1 H1) as (m2 & Hrun2 & H2); [by destruct d|].
  rewrite ptr_mk in Hrun2. run_to Hrun2. rewrite repaint_mk, <-mk_other, <-(mk_other d z1) in H2.
  destruct (rotate_run fr _ _ _ _ _ _ _ _ _ _ H2) as (m3 & Hrun3 & H3). cbn [n_at paint] in Hrun3.
  run_to Hrun3. rewrite mk_other, (mk_other d z2), foc_up, mk_other in H3.
  destruct (foc_root fr _ _ _ _ _ _ _ _ H3) as [Hp _]. rewrite ptr_mk in Hp.
  exists m3. split; [|done]. by apply (RB_CHILD_other _ _ _ _ _ _ _ Hp).
Qed.

(** The breaking branch of the loop makes up for the missing black node. *)
Lemma remove_rotate_run h n d t p a y b ca cb ctx R m :
  rb Black n t → rb ca n a → n_col y = Black → rb cb n b → ca = Red ∨ cb = Red →
  rmem (foc h (mk d t p (mk d a y b)) ctx ++ R) m →
  ∃ m' t', remove_rotate d h (n_at p) (n_at y) m = Done (ptr (plug ctx t'), m') ∧
    rmem (foc h t' ctx ++ R) m' ∧ items t' = items (mk d t p (mk d a y b)) ∧
    rb (n_col p) (match n_col p with Red => S n | Black => S (S n) end) t'.
Proof.
  intros Ht Ha Hy Hb Hred H. unfold remove_rotate.
  pose proof H as Hfar. rewrite <-foc_up, foc_swap, <-foc_up, foc_swap in Hfar.
  pose proof H as Hsib. rewrite <-foc_up, foc_swap in Hsib.
  destruct (foc_root fr _ _ _ _ _ _ _ _ Hsib) as [Hyb _].
  run_to (RB_CHILD_other _ _ _ _ _ _ _ Hyb). run_to (is_black_run fr _ _ _ _ _ _ _ Hfar Hb).
  assert (∀ x a' y' b', rb Black n t → rb Red n b' → (∃ c, rb c n a') →
    rb (n_col x) (match n_col x with Red => S n | Black => S (S n) end)
      (mk d (mk d t (paint Black x) a') (paint (n_col x) y') (repaint Black b'))) as Hrb.
  { intros x a' y' b' Ht' Hb' [c' Ha']. inversion Hb'; subst. cbn [repaint].
    assert (rb Black (S n) (mk d t (paint Black x) a')) by by eapply rb_mk_black.
    destruct (n_col x) eqn:Hx; [apply rb_mk_red|eapply rb_mk_black]; try done; by eapply rb_black. }
  destruct cb; cbn [bool_decide].
  - change (bool_decide (Red = Black)) with false. cbn iota.
    rewrite (bind_done _ _ m (n_at y) m) by done.
    destruct (remove_lift_run _ _ _ _ _ _ _ _ _ _ H) as (m1 & Hrun & H1).
    eexists m1, _. split; [exact Hrun|]. split; [exact H1|]. split; [|by eauto].
    rewrite items_rotate. apply items_mk; [by apply items_mk|done|apply items_repaint].
  - destruct Hred as [->|]; [|done]. change (bool_decide (Black = Black)) with true. cbn iota.
    destruct (mk_cases d a) as (z1 & z & z2 & ->); [by intros ->; inversion Ha|].
    apply rb_mk_inv in Ha as [(? & ? & _)|(Hz & _ & Hz1 & Hz2)]; [done|].
    destruct (remove_inner_run _ _ _ _ _ _ _ _ _ _ _ _ H) as (m1 & Hrun1 & H1).
    rewrite (bind_done _ _ m (n_at z) m1);
      [|run_to (RB_CHILD_same _ _ _ _ _ _ _ Hyb); by rewrite ptr_mk].
    destruct (remove_lift_run _ _ _ _ _ _ _ _ _ _ H1) as (m2 & Hrun2 & H2).
    eexists m2, _. split; [exact Hrun2|]. split; [exact H2|]. split.
    + rewrite repaint_mk. by items_by d.
    + apply Hrb; [done|by apply rb_mk_red|by eexists].
Qed.

(** The loop stops at a red entry and at the root. *)
Lemma remove_color_exit h fuel q t ctx n R m :
  short n t → root_col t = Red ∨ ctx = [] → rmem (foc h t ctx ++ R) m →
  RB_REMOVE_COLOR_loop (S fuel) h q (ptr t) m = Done (ptr t, m).
Proof.
  intros Hs Hex H. cbn [RB_REMOVE_COLOR_loop].
  assert (is_black (ptr t) m = Done (bool_decide (root_col t = Black), m)) as Hrun.
  { destruct Hs as [Hs|[Hc Hs]].
    - rewrite (rb_root_col _ _ _ Hs). by eapply is_black_run.
    - destruct t as [|l x r]; [done|]. destruct (foc_root fr _ LEFT _ _ _ _ _ _ H) as [Hx Hz].
      unfold is_black. cbn [ptr root_col] in *. destruct (Z.eqb_spec (n_at x) 0); [done|].
      run_to (RB_COLOR_run _ _ _ _ _ _ _ Hx). by rewrite Hc. }
  run_to Hrun. run_to (RB_ROOT_run _ _ _ (foc_head fr _ _ _ _ _ H)).
  destruct Hex as [Hex | ->]; [by rewrite Hex|]. cbn [plug]. by rewrite Z.eqb_refl, orb_true_r.
Qed.

(** One iteration at a black subtree that is not the root. *)
Lemma remove_color_unfold h fuel t d p s n ctx R m :
  rb Black n t → ctx_rb Black (S n) (Fr d p s :: ctx) →
  rmem (foc h t (Fr d p s :: ctx) ++ R) m →
  RB_REMOVE_COLOR_loop (S fuel) h (n_at p) (ptr t) m =
    (tmp ← remove_sibling d h (n_at p);
     l ← RB_LEFT tmp;
     lblack ← is_black l;
     allblack ← (if (lblack : bool) then r ← RB_RIGHT tmp; is_black r else mret false);
     if (allblack : bool) then
       _ ← SET_COLOR tmp RB_RED;
       up ← RB_PARENT (n_at p);
       RB_REMOVE_COLOR_loop fuel h up (n_at p)
     else remove_rotate d h (n_at p) tmp) m.
Proof.
  intros Ht Hctx H. cbn [RB_REMOVE_COLOR_loop].
  run_to (is_black_run fr _ _ _ _ _ _ _ H Ht). change (bool_decide (Black = Black)) with true.
  run_to (RB_ROOT_run _ _ _ (foc_head fr _ _ _ _ _ H)).
  destruct (Z.eqb_spec (ptr t) (ptr (plug (Fr d p s :: ctx) t))) as [Heq|_].
  { by apply (root_ne fr _ _ _ _ _ _ _ _ H) in Heq. }
  cbn [negb orb]. destruct (foc_side fr _ _ _ _ _ _ _ _ LEFT H) as (pl & Hpl & Heq).
  { right. intros ->. by inversion Hctx; subst; match goal with HH : rb _ _ E |- _ => inversion HH end. }
  run_to Hpl. rewrite Heq.
  by replace (if bool_decide (d = LEFT) then LEFT else RIGHT) with d by (by destruct d).
Qed.

(** The test whether both children of the sibling are black. *)
Lemma allblack_run h l y r cl cr n ctx R m :
  rb cl n l → rb cr n r → rmem (foc h (T l y r) ctx ++ R) m →
  ∀ (k : bool → cmd rheap Z),
  (l' ← RB_LEFT (n_at y);
   lblack ← is_black l';
   allblack ← (if (lblack : bool) then r' ← RB_RIGHT (n_at y); is_black r' else mret false);
   k allblack) m = k (bool_decide (cl = Black ∧ cr = Black)) m.
Proof.
  intros Hl Hr H k. destruct (foc_root fr _ LEFT _ _ _ _ _ _ H) as [Hy _].
  run_to (RB_LEFT_run _ _ _ _ _ _ _ Hy). pose proof H as Hlf.
  change (T l y r) with (mk LEFT l y r) in Hlf. rewrite <-foc_up in Hlf.
  run_to (is_black_run fr _ _ _ _ _ _ _ Hlf Hl). rewrite foc_swap in Hlf.
  destruct cl; [by destruct cr|]. change (bool_decide (Black = Black)) with true. cbn iota.
  rewrite (bind_done _ _ m (bool_decide (cr = Black)) m); [by destruct cr|].
  run_to (RB_CHILD_other m LEFT _ _ _ _ _ Hy). by eapply is_black_run.
Qed.

(** The iteration that breaks. *)
Lemma remove_break_run h n d t p l y r cl cr ctx R m :
  rb Black n t → rb cl n l → n_col y = Black → rb cr n r → ¬ (cl = Black ∧ cr = Black) →
  ctx_rb Black (S n) (Fr d p (T l y r) :: ctx) →
  rmem (foc h t (Fr d p (T l y r) :: ctx) ++ R) m →
  ∃ m' t', remove_rotate d h (n_at p) (n_at y) m = Done (ptr t', m') ∧
    rmem (foc h t' [] ++ R) m' ∧ items t' = items (plug (Fr d p (T l y r) :: ctx) t) ∧
    rb_tree (repaint Black t').
Proof.
  intros Ht Hl Hy Hr Hb Hctx H. rewrite foc_up in H.
  destruct (mk_cases d (T l y r)) as (a & y' & b & Hab); [done|]. rewrite Hab in H.
  assert (∃ ca cb, rb ca n a ∧ rb cb n b ∧ y' = y ∧ (ca = Red ∨ cb = Red))
    as (ca & cb & Ha & Hb' & -> & Hred).
  { destruct d; injection Hab as -> -> ->;
      [exists cl, cr|exists cr, cl]; destruct cl, cr; tauto. }
  destruct (remove_rotate_run _ _ _ _ _ _ _ _ _ _ _ _ _ Ht Ha Hy Hb' Hred H)
    as (m2 & t2 & Hrun2 & H2 & Hit2 & Hrb2).
  exists m2, (plug ctx t2). split; [exact Hrun2|]. split; [by rewrite <-foc_plug|]. split.
  - rewrite Hab. cbn [plug]. by apply items_plug_eq.
  - destruct (plug_rb (n_col p) (match n_col p with Red => S n | Black => S (S n) end) ctx t2)
      as [k Hk]; [|done|by eapply rb_repaint_black].
    by inversion Hctx as [|? ? ? ? ? ? ? Hp'|? ? ? ? ? Hp' ? Hup]; subst; rewrite Hp'.
Qed.

Lemma remove_color_loop h fuel : ∀ t ctx n R m,
  short n t → ctx_rb Black (S n) ctx → (0 < fuel)%nat →
  (root_col t = Black → (length ctx < fuel)%nat) → rmem (foc h t ctx ++ R) m →
  ∃ m' t' ctx', RB_REMOVE_COLOR_loop fuel h (up ctx) (ptr t) m = Done (ptr t', m') ∧
    rmem (foc h t' ctx' ++ R) m' ∧ items (plug ctx' t') = items (plug ctx t) ∧
    rb_tree (plug ctx' (repaint Black t')).
Proof.
  induction fuel as [|fuel IH]; intros t ctx n R m Ht Hctx Hf0 Hf H; [lia|].
  destruct (decide (root_col t = Red ∨ ctx = [])) as [Hex|Hex].
  { exists m, t, ctx. rewrite (remove_color_exit _ _ _ _ _ _ _ _ Ht Hex H). split_and!; [done..|].
    destruct Ht as [Ht|[Hc Ht]]; [|by eapply plug_rb].
    destruct Hex as [Hr| ->]; [by rewrite (rb_root_col _ _ _ Ht) in Hr|].
    by eapply rb_repaint_black. }
  destruct Ht as [Ht|[Hc _]]; [|tauto]. destruct ctx as [|[d p s] ctx]; [tauto|]. clear Hex.
  specialize (Hf (rb_root_col _ _ _ Ht)). cbn [up f_nd length] in *.
  rewrite (remove_color_unfold _ _ _ _ _ _ _ _ _ _ Ht Hctx H).
  destruct (remove_sibling_run _ _ _ _ _ _ _ _ _ Hctx H)
    as (m1 & p' & ctx' & s' & Hrun & H1 & Hat & Hctx' & Hs' & Hit & Hlen). run_to Hrun.
  rewrite <-Hat. destruct s' as [|l y r]; [inversion Hs'|].
  inversion Hs' as [|cl cr ? ? ? ? Hy Hl Hr|]; subst. cbn [ptr].
  pose proof H1 as Hsw. rewrite foc_swap in Hsw. rewrite (allblack_run _ _ _ _ _ _ _ _ _ _ Hl Hr Hsw).
  destruct (decide (cl = Black ∧ cr = Black)) as [Hb|Hb].
  - rewrite bool_decide_eq_true_2 by done. destruct Hb as [-> ->].
    destruct (paint_run fr _ _ _ Red _ _ Hsw) as (m2 & Hrun2 & H2); [done|]. run_to Hrun2.
    rewrite foc_up in H2. destruct (foc_root fr _ _ _ _ _ _ _ _ H2) as [Hp2 _].
    run_to (RB_PARENT_run _ _ _ _ _ _ _ Hp2). rewrite mk_other in H2. cbn [repaint] in H2.
    assert (Hr' : rb Red n (T l (paint Red y) r)) by by apply rb_red.
    destruct (IH (mk d t p' (T l (paint Red y) r)) ctx'
      (match n_col p' with Red => n | Black => S n end) R m2)
      as (m' & t' & ctx2 & Hgo & H' & Hit' & Hrb); [| |lia| |done|].
    + destruct (n_col p') eqn:Hp'; [right|left; by eapply rb_mk_black].
      split; [by destruct d|]. rewrite repaint_mk. by eapply rb_mk_black.
    + inversion Hctx' as [|? ? ? ? ? ? ? Hp'|? ? ? ? ? Hp' ? Hup]; subst; rewrite Hp'; [done|].
      by eapply ctx_rb_weaken.
    + rewrite root_col_mk. intros Hp'. rewrite (Hlen Hp'). lia.
    + rewrite ptr_mk in Hgo. exists m', t', ctx2. split; [exact Hgo|]. split; [done|]. split; [|done].
      rewrite Hit', <-Hit. cbn [plug]. apply items_plug_eq, items_mk; [done..|].
      by apply (items_repaint Red (T l y r)).
  - rewrite bool_decide_eq_false_2 by done.
    destruct (remove_break_run _ _ _ _ _ _ _ _ _ _ _ _ _ Ht Hl Hy Hr Hb Hctx' H1)
      as (m2 & t2 & Hrun2 & H2 & Hit2 & Hrb2).
    exists m2, t2, []. split_and!; [done|done| |done]. by rewrite <-Hit.
Qed.

Lemma RB_REMOVE_COLOR_run h t ctx n R m :
  short n t → ctx_rb Black (S n) ctx → rmem (foc h t ctx ++ R) m →
  ∃ m' t', RB_REMOVE_COLOR h (up ctx) (ptr t) m = Done (tt, m') ∧
    rmem (foc h t' [] ++ R) m' ∧ items t' = items (plug ctx t) ∧ rb_tree t'.
Proof.
  intros Ht Hctx H. unfold RB_REMOVE_COLOR, live_blocks.
  rewrite (bind_done _ _ m (size m) m) by done.
  pose proof (foc_fuel _ _ _ _ _ _ H) as Hsz. pose proof (depth_ents ctx t) as Hdep.
  destruct (remove_color_loop h (size m) t ctx n R m Ht Hctx) as (m1 & t1 & ctx1 & Hrun & H1 & Hit & Hrb);
    [lia|lia|done|]. run_to Hrun.
  destruct (blacken_run fr _ _ _ _ _ H1) as (m2 & Hrun2 & H2).
  exists m2, (plug ctx1 (repaint Black t1)). split; [done|]. rewrite <-foc_plug. split; [done|].
  split; [|done]. rewrite <-Hit. apply items_plug_eq, items_repaint.
Qed.

(** ** RB_REMOVE *)

(** An entry with one child at most is cut out. *)
Lemma unlink_entry_links h d c x ctx R m :
  rmem (foc h (mk d c x E) ctx ++ R) m →
  ∃ m', (_ ← adopt (ptr c) (up ctx); relink h (up ctx) (n_at x) (ptr c)) m = Done (tt, m') ∧
    rmem (foc h c ctx ++ (n_at x, sblock d (up ctx) (ptr c) 0 x) :: R) m'.
Proof.
  intros H. unfold foc in *. rewrite cells_mk, ptr_mk in H. cbn [cells ptr] in H.
  rb_view H (cells (n_at x) c ++ (n_at x, sblock d (up ctx) (ptr c) 0 x) ::
    around h (n_at x) ctx ++ R).
  destruct (adopt_run fr _ (up ctx) _ _ _ H) as (m1 & Hrun1 & H1). run_to Hrun1.
  rb_view H1 (around h (n_at x) ctx ++ (n_at x, sblock d (up ctx) (ptr c) 0 x) ::
    cells (up ctx) c ++ R).
  edestruct (relink_run fr h (n_at x) (ptr c)) as (m2 & Hrun2 & H2);
    [exact H1|apply list_elem_of_here|]. exists m2. split; [done|].
  revert H2. apply rmem_perm'. solve_Permutation.
Qed.

Lemma remove_one_run h d c x ctx R m :
  rmem (foc h (mk d c x E) ctx ++ R) m →
  ∃ m', remove_one h (n_at x) (ptr c) m =
      Done ((up ctx, ptr c, color_word (n_col x)), m') ∧
    rmem (foc h c ctx ++ (n_at x, sblock d (up ctx) (ptr c) 0 x) :: R) m'.
Proof.
  intros H. destruct (foc_root fr _ _ _ _ _ _ _ _ H) as [Hx _]. unfold remove_one.
  run_to (RB_PARENT_run _ _ _ _ _ _ _ Hx). run_to (RB_COLOR_run _ _ _ _ _ _ _ Hx).
  destruct (unlink_entry_links _ _ _ _ _ _ _ H) as (m1 & Hrun & H1).
  rewrite (bind_done2 _ _ _ _ _ _ Hrun). by exists m1.
Qed.

(** The first entry of a subtree. *)
Lemma min_focus r :
  r ≠ E → ∃ ctx e c, r = plug ctx (T E e c) ∧ Forall (λ f, f_side f = LEFT) ctx.
Proof.
  induction r as [|l IHl x r _]; intros Hr; [done|]. destruct (decide (l = E)) as [->|Hl].
  - exists [], x, r. split; [done|apply Forall_nil_2].
  - destruct (IHl Hl) as (ctx & e & c & -> & Hf). exists (ctx ++ [Fr LEFT x r]), e, c.
    rewrite rt_plug_app. split; [done|]. apply Forall_app. split; [done|]. by apply Forall_singleton.
Qed.

Lemma before_lefts ctx : Forall (λ f, f_side f = LEFT) ctx → before ctx = [].
Proof. induction 1 as [|[d x s] ctx Hd _ IH]; cbn in *; [done|]. by rewrite Hd, IH. Qed.

Lemma augment_loop_run h fuel : ∀ t ctx R m,
  rmem (foc h t ctx ++ R) m → ctx ≠ [] → (length ctx ≤ fuel)%nat →
  augment_loop fuel (up ctx) m = Done (tt, m).
Proof.
  induction fuel as [|fuel IH]; intros t [|[d x s] ctx] R m H Hc Hf; cbn in Hf; [done|lia|done|].
  cbn [augment_loop up f_nd]. destruct (foc_parent fr _ _ _ _ _ _ _ _ H) as [Hx _].
  run_to (RB_PARENT_run _ _ _ _ _ _ _ Hx). destruct ctx as [|[d' y s'] ctx]; [done|].
  rewrite foc_up in H. destruct (foc_parent fr _ _ _ _ _ _ _ _ H) as [_ Hz]. cbn [up f_nd].
  destruct (Z.eqb_spec (n_at y) 0); [done|]. apply (IH _ (Fr d' y s' :: ctx) R m H); [done|cbn in *; lia].
Qed.

Lemma replace_run h l o r e d p a b ctx R m :
  l ≠ E → rmem (foc h (T l o r) ctx ++ (n_at e, sblock d p a b e) :: R) m →
  ∃ m', replace_entry h (n_at o) (n_at e) m = Done (tt, m') ∧
    rmem (foc h (T l (paint (n_col o) e) r) ctx ++
      (n_at o, sblock LEFT (up ctx) (ptr l) (ptr r) o) :: R) m'.
Proof.
  intros Hl H. destruct (foc_root fr _ LEFT _ _ _ _ _ _ H) as [Ho _]. unfold replace_entry, foc in *.
  cbn [cells ptr app] in H. set (e' := paint (n_col o) e).
  rb_view H ((n_at e, sblock d p a b e) ::
    (n_at o, sblock LEFT (up ctx) (ptr l) (ptr r) o) :: cells (n_at o) l ++ cells (n_at o) r ++
    around h (n_at o) ctx ++ R).
  run_to (load_entry_run _ _ _ _ _ _ _ Ho).
  rewrite (bind_done _ _ m tt (<[n_at e := sblock LEFT (up ctx) (ptr l) (ptr r) e']> m)).
  2: { unfold modify. run_to (load_entry_run m d p a b e (n_at e) ltac:(rb_at H)).
       unfold store_entry. assert (Hb : m !! n_at e = Some (sblock d p a b e)) by rb_at H.
       rewrite Hb. by destruct d. }
  cbn beta. apply (rmem_store0 fr _ _ (sblock LEFT (up ctx) (ptr l) (ptr r) e')) in H.
  revert H. generalize (<[n_at e := sblock LEFT (up ctx) (ptr l) (ptr r) e']> m).
  clear m Ho. intros m H. rb_load H.
  rb_view H (around h (n_at o) ctx ++ (n_at o, sblock LEFT (up ctx) (ptr l) (ptr r) o) ::
    (n_at e, sblock LEFT (up ctx) (ptr l) (ptr r) e') :: cells (n_at o) l ++ cells (n_at o) r ++ R).
  edestruct (relink_run fr h (n_at o) (n_at e)) as (m2 & Hrun2 & H2);
    [exact H|apply list_elem_of_here|]. run_to Hrun2.
  rb_view H2 ((n_at o, sblock LEFT (up ctx) (ptr l) (ptr r) o) :: cells (n_at o) l ++
    (n_at e, sblock LEFT (up ctx) (ptr l) (ptr r) e') :: cells (n_at o) r ++ around h (n_at e) ctx ++ R).
  assert (Ho : m2 !! n_at o = Some (sblock LEFT (up ctx) (ptr l) (ptr r) o)) by rb_at H2.
  run_to (RB_LEFT_run _ _ _ _ _ _ _ Ho).
  rb_view H2 (cells (n_at o) l ++ (n_at o, sblock LEFT (up ctx) (ptr l) (ptr r) o) ::
    (n_at e, sblock LEFT (up ctx) (ptr l) (ptr r) e') :: cells (n_at o) r ++ around h (n_at e) ctx ++ R).
  destruct (adopt_run fr _ (n_at e) _ _ _ H2) as (m3 & Hrun3 & H3).
  unfold adopt in Hrun3. destruct (Z.eqb_spec (ptr l) 0) as [Hz|_].
  { destruct (cells_root (n_at o) l Hl) as [bl Hbl]. exfalso.
    eapply (rmem_nonnull fr); [exact H2| |exact Hz]. apply elem_of_app. left. exact Hbl. }
  run_to Hrun3.
  rb_view H3 ((n_at o, sblock LEFT (up ctx) (ptr l) (ptr r) o) ::
    (n_at e, sblock LEFT (up ctx) (ptr l) (ptr r) e') :: cells (n_at e) l ++ cells (n_at o) r ++
    around h (n_at e) ctx ++ R).
  assert (Ho3 : m3 !! n_at o = Some (sblock LEFT (up ctx) (ptr l) (ptr r) o)) by rb_at H3.
  run_to (RB_CHILD_other m3 LEFT _ _ _ _ _ Ho3).
  rb_view H3 (cells (n_at o) r ++ (n_at o, sblock LEFT (up ctx) (ptr l) (ptr r) o) ::
    (n_at e, sblock LEFT (up ctx) (ptr l) (ptr r) e') :: cells (n_at e) l ++ around h (n_at e) ctx ++ R).
  destruct (adopt_run fr _ (n_at e) _ _ _ H3) as (m4 & Hrun4 & H4).
  exists m4. split; [exact Hrun4|]. revert H4. apply rmem_perm'. cbn [cells ptr n_at paint app e'].
  solve_Permutation.
Qed.

(** The successor of an entry with two children. *)
Lemma successor_run h ctx2 e c ctx R m :
  Forall (λ f, f_side f = LEFT) ctx2 →
  rmem (foc h (plug ctx2 (T E e c)) ctx ++ R) m →
  descend (size m) LEFT (ptr (plug ctx2 (T E e c))) m = Done (n_at e, m).
Proof.
  intros Hside H. rewrite (descend_run fr m h RIGHT (size m) _ _ R H); [|by apply plug_ne|].
  - cbn [ents_to]. by rewrite ents_plug, before_lefts by done.
  - pose proof (foc_fuel _ _ _ _ _ _ H). pose proof (depth_ents ctx (plug ctx2 (T E e c))). lia.
Qed.

(** Where rebalancing starts: at the successor when it was a child of the
    removed entry. *)
Lemma successor_parent h ctx2 o e l c ctx R m :
  rmem (foc h c (ctx2 ++ Fr RIGHT o l :: ctx) ++ R) m →
  (if up (ctx2 ++ Fr RIGHT o l :: ctx) =? n_at o then n_at e
   else up (ctx2 ++ Fr RIGHT o l :: ctx)) =
  up (ctx2 ++ Fr RIGHT (paint (n_col o) e) l :: ctx).
Proof.
  intros H. destruct ctx2 as [|f ctx2]; [by cbn; rewrite Z.eqb_refl|].
  pose proof (up_ne fr _ _ _ _ _ _ _ _ _ H ltac:(done)) as Hne.
  by destruct (Z.eqb_spec (up ((f :: ctx2) ++ Fr RIGHT o l :: ctx)) (n_at o)).
Qed.

Lemma remove_two_run h l o ctx2 e c ctx R m :
  l ≠ E → Forall (λ f, f_side f = LEFT) ctx2 →
  rmem (foc h (T l o (plug ctx2 (T E e c))) ctx ++ R) m →
  let ctx' := ctx2 ++ Fr RIGHT (paint (n_col o) e) l :: ctx in
  ∃ m', remove_two h (n_at o) m = Done ((up ctx', ptr c, color_word (n_col e)), m') ∧
    rmem (foc h c ctx' ++
      (n_at o, sblock LEFT (up ctx) (ptr l) (ptr (plug ctx2 c)) o) :: R) m'.
Proof.
  intros Hl Hside H ctx'. unfold remove_two, live_blocks. rewrite (bind_done _ _ m (size m) m) by done.
  set (full := ctx2 ++ Fr RIGHT o l :: ctx).
  destruct (foc_root fr _ LEFT _ _ _ _ _ _ H) as [Ho _].
  run_to (RB_CHILD_other m LEFT _ _ _ _ _ Ho).
  change (T l o ?r) with (mk RIGHT r o l) in H. rewrite <-foc_up in H.
  run_to (successor_run _ _ _ _ _ _ _ Hside H). rewrite <-foc_app in H. fold full in H.
  pose proof (foc_fuel _ _ _ _ _ _ H) as Hsz. pose proof (depth_ents full (T E e c)) as Hdep.
  destruct (foc_root fr _ RIGHT _ _ _ _ _ _ H) as [He _].
  run_to (RB_CHILD_same m RIGHT _ _ _ _ _ He).
  run_to (RB_PARENT_run _ _ _ _ _ _ _ He). run_to (RB_COLOR_run _ _ _ _ _ _ _ He).
  destruct (unlink_entry_links h RIGHT c e full R m H) as (m1 & Hrun1 & H1).
  rewrite (bind_done2 _ _ _ _ _ _ Hrun1). cbn beta.
  assert (He1 : m1 !! n_at e = Some (sblock RIGHT (up full) (ptr c) 0 e)).
  { eapply rmem_lookup; [exact H1|]. apply elem_of_app. right. apply list_elem_of_here. }
  run_to (RB_PARENT_run _ _ _ _ _ _ _ He1). cbn zeta.
  replace (if up full =? n_at o then n_at e else up full) with (up ctx')
    by (symmetry; exact (successor_parent _ _ _ _ _ _ _ _ _ H1)).
  unfold full in H1 at 1. rewrite foc_app, foc_up in H1.
  destruct (replace_run _ _ _ _ _ _ _ _ _ _ _ _ Hl H1) as (m2 & Hrun2 & H2). run_to Hrun2.
  change (T l ?x ?r) with (mk RIGHT r x l) in H2. rewrite <-foc_up, <-foc_app in H2. fold ctx' in H2.
  assert (Hup : up ctx' ≠ 0).
  { unfold ctx'. destruct ctx2 as [|[d x s] ctx2];
      by destruct (foc_parent fr _ _ _ _ _ _ _ _ H2). }
  destruct (Z.eqb_spec (up ctx') 0); [done|].
  rewrite (bind_done _ _ m2 tt m2); [by exists m2|].
  apply (augment_loop_run h (size m) c ctx' _ _ H2); [by unfold ctx'; destruct ctx2|].
  unfold full, ctx' in *. rewrite !length_app in *. cbn in *. lia.
Qed.

(** The block of a removed entry. *)
Definition dead (x : nd) (b : rblock) : Prop := ∃ d p a q, b = sblock d p a q x.

Lemma unlink_entry_run h l x r ctx R m :
  rb_tree (plug ctx (T l x r)) → rmem (foc h (T l x r) ctx ++ R) m →
  ∃ m' t' ctx' c b, unlink_entry h (n_at x) m = Done ((up ctx', ptr t', color_word c), m') ∧
    rmem (foc h t' ctx' ++ (n_at x, b) :: R) m' ∧ dead x b ∧ fits c t' ctx' ∧
    items (plug ctx' t') = item <$> ((before ctx ++ ents l) ++ ents r ++ after ctx).
Proof.
  intros Hrb H. unfold unlink_entry.
  destruct (foc_root fr _ LEFT _ _ _ _ _ _ H) as [Hx _].
  run_to (RB_LEFT_run _ _ _ _ _ _ _ Hx). destruct (decide (l = E)) as [->|Hl].
  { cbn [ptr Z.eqb]. run_to (RB_CHILD_other m LEFT _ _ _ _ _ Hx).
    destruct (remove_one_run h RIGHT r x ctx R m H) as (m1 & Hrun & H1).
    eexists m1, r, ctx, (n_col x), _. split; [done|]. split; [done|]. split; [by repeat eexists|].
    split; [by apply (cut_fits RIGHT)|]. rewrite items_plug, !fmap_app. cbn. by rewrite app_nil_r. }
  destruct (Z.eqb_spec (ptr l) 0) as [Hz|_].
  { exfalso. change (T l x r) with (mk LEFT l x r) in H. rewrite <-foc_up in H.
    destruct l; [done|]. by destruct (foc_root fr _ LEFT _ _ _ _ _ _ H). }
  run_to (RB_CHILD_other m LEFT _ _ _ _ _ Hx). destruct (decide (r = E)) as [->|Hr].
  { cbn [ptr Z.eqb]. run_to (RB_LEFT_run _ _ _ _ _ _ _ Hx).
    destruct (remove_one_run h LEFT l x ctx R m H) as (m1 & Hrun & H1).
    eexists m1, l, ctx, (n_col x), _. split; [done|]. split; [done|]. split; [by repeat eexists|].
    split; [by apply (cut_fits LEFT)|]. rewrite items_plug, !fmap_app. cbn. by rewrite <-app_assoc. }
  destruct (Z.eqb_spec (ptr r) 0) as [Hz|_].
  { exfalso. change (T l x r) with (mk RIGHT r x l) in H. rewrite <-foc_up in H.
    destruct r; [done|]. by destruct (foc_root fr _ LEFT _ _ _ _ _ _ H). }
  destruct (min_focus r Hr) as (ctx2 & e & c & -> & Hside).
  destruct (remove_two_run _ _ _ _ _ _ _ _ _ Hl Hside H) as (m1 & Hrun & H1).
  eexists m1, c, _, (n_col e), _. split; [exact Hrun|]. split; [exact H1|]. split; [by repeat eexists|].
  split.
  - apply (cut_fits RIGHT). apply (rb_tree_replace _ _ x); [done|]. by rewrite rt_plug_app.
  - rewrite rt_plug_app. cbn [plug mk]. rewrite items_plug_T, items_plug, ents_plug, (before_lefts ctx2) by done.
    unfold items. cbn. rewrite !fmap_app. cbn. by rewrite !fmap_app, <-!app_assoc.
Qed.

Lemma RB_REMOVE_run h t l1 x l2 R m :
  rb_tree t → ents t = l1 ++ x :: l2 → rmem (foc h t [] ++ R) m →
  ∃ m' t' b, RB_REMOVE h (n_at x) m = Done (n_at x, m') ∧
    rmem (foc h t' [] ++ (n_at x, b) :: R) m' ∧ dead x b ∧ rb_tree t' ∧
    items t' = item <$> (l1 ++ l2).
Proof.
  intros Hrb Hents H.
  destruct (ents_split _ _ _ _ Hents) as (l & r & ctx & -> & -> & ->). rewrite <-foc_plug in H.
  destruct (unlink_entry_run _ _ _ _ _ _ _ Hrb H)
    as (m1 & t1 & ctx1 & c & b & Hrun & H1 & Hb & Hfit & Hit).
  unfold RB_REMOVE. run_to Hrun. cbn iota. destruct c; cbn [fits color_word] in *.
  - change (RB_RED =? RB_BLACK) with false. cbn iota.
    exists m1, (plug ctx1 t1), b. split; [done|]. by rewrite <-foc_plug.
  - destruct Hfit as (n & Hs & Hctx). change (RB_BLACK =? RB_BLACK) with true. cbn iota.
    destruct (RB_REMOVE_COLOR_run _ _ _ _ _ _ Hs Hctx H1) as (m2 & t2 & Hrun2 & H2 & Hit2 & Hrb2).
    run_to Hrun2. exists m2, t2, b. split_and!; [done..|]. by rewrite Hit2.
Qed.

End remove.
