(* ===== verification/RbMap.v ===== *)
(** * RbMap: bsdtree.c as operations on a finite map

    The representation of a map by a red-black tree in memory ([bst]), and
    the runs of [find], [add] and of the macros of tree.h on it. *)

From stdpp Require Import sorting.
From S2P Require Import Prelude.
From S2P Require Import Own.
From S2P Require Import Heap.
From S2P Require Import RbTree.
From S2P Require Import RbShape.
From S2P Require Import RbMem.
From S2P Require Import RbSearch.
From S2P Require Import RbInsert.
From S2P Require Import RbRemove.

(** A valid tree: red-black, ordered, with keys that are C strings. *)
Record tree_ok (t : rtree) : Prop := {
  ok_rb : rb_tree t;
  ok_sorted : sorted (items t);
  ok_keys : Forall (λ i, key_ok (i_key i)) (items t);
}.

(** Memory holds the tree at [obj] and the frame [fr], and nothing else. *)
Record bst_tree (fr : rheap) (obj : Z) (t : rtree) (m : rheap) : Prop := {
  bst_mem : rmem fr (foc obj t []) m;
  bst_ok : tree_ok t;
}.

Definition bst (fr : rheap) (obj : Z) (M : gmap (list Z) Z) (m : rheap) : Prop :=
  ∃ t, bst_tree fr obj t m ∧ t_map t = M.

Lemma bst_mem_nil fr obj t m : bst_tree fr obj t m → rmem fr (foc obj t [] ++ []) m.
Proof. intros [H _]. by rewrite app_nil_r. Qed.

(** ** Comparisons *)

Lemma load_chars_run m d p a b x q :
  m !! (q - SIZEOF_HASH_ENTRY) = Some (sblock d p a b x) →
  load_chars q m = Done (cstr (n_key x), m).
Proof. intros H. unfold load_chars. rewrite H. by destruct d. Qed.

Lemma load_key_run m d p a b x q :
  m !! q = Some (sblock d p a b x) → load_key q m = Done (n_at x + SIZEOF_HASH_ENTRY, m).
Proof.
  intros H. unfold load_key. rewrite (bind_done _ _ _ _ _ (load_entry_run _ _ _ _ _ _ _ H)).
  by destruct d.
Qed.

Lemma load_value_run m d p a b x q :
  m !! q = Some (sblock d p a b x) → load_value q m = Done (n_val x, m).
Proof.
  intros H. unfold load_value. rewrite (bind_done _ _ _ _ _ (load_entry_run _ _ _ _ _ _ _ H)).
  by destruct d.
Qed.

Lemma hash_cmp_key_run m d p a b x k :
  m !! n_at x = Some (sblock d p a b x) → nonul k → nonul (n_key x) →
  compares k (hash_cmp_key (cstr k)) m x.
Proof.
  intros H Hk Hx. destruct (strcmp_keylt k (n_key x) Hk Hx) as (c & Hc & Hlt & Hgt).
  exists c. split; [|done]. unfold hash_cmp_key. run_to (load_key_run _ _ _ _ _ _ _ H).
  rewrite (bind_done _ _ m (cstr (n_key x)) m).
  - by rewrite Hc.
  - eapply load_chars_run. by replace (n_at x + SIZEOF_HASH_ENTRY - SIZEOF_HASH_ENTRY) with (n_at x) by lia.
Qed.

Lemma keys_compare fr h t R m k :
  rmem fr (foc h t [] ++ R) m → Forall (λ i, key_ok (i_key i)) (items t) → nonul k →
  Forall (compares k (hash_cmp_key (cstr k)) m) (ents t).
Proof.
  intros H Hkeys Hk. unfold items in Hkeys. rewrite Forall_fmap in Hkeys. rewrite Forall_forall in Hkeys |- *. intros x Hx.
  destruct (foc_entry _ _ _ _ _ _ H Hx) as (p & a & b & Hb).
  eapply hash_cmp_key_run; [exact Hb|done|by apply Hkeys].
Qed.

(** ** find *)

Lemma RB_FIND_bst fr obj t m k :
  bst_tree fr obj t m → nonul k →
  RB_FIND (hash_cmp_key (cstr k)) obj m = Done (ptr (search k t []).1, m).
Proof.
  intros Hb Hk. pose proof (bst_mem_nil _ _ _ _ Hb) as H. eapply RB_FIND_run; [exact H|].
  eapply keys_compare; [exact H|apply Hb|done].
Qed.

Lemma bst_find_run fr obj t m k :
  bst_tree fr obj t m → nonul k →
  find obj (cstr k) m = Done (default 0 (t_map t !! k), m).
Proof.
  intros Hb Hk. unfold find. run_to (RB_FIND_bst _ _ _ _ _ Hb Hk).
  destruct (search k t []) as [t' ctx'] eqn:Hs. cbn [fst].
  rewrite (search_lookup _ _ _ _ (ok_sorted _ (bst_ok _ _ _ _ Hb)) Hs).
  pose proof (bst_mem_nil _ _ _ _ Hb) as H. apply search_plug in Hs. cbn in Hs. subst t.
  rewrite <-foc_plug in H. destruct t' as [|l x r]; [done|]. cbn [ptr].
  destruct (foc_root fr _ LEFT _ _ _ _ _ _ H) as [Hx Hz].
  destruct (Z.eqb_spec (n_at x) 0); [done|]. by apply (load_value_run _ _ _ _ _ _ _ Hx).
Qed.

(** ** Insertion *)

(** An entry that has been given its key and value only. *)
Definition loose (g : rb_entry) (x : nd) : rblock :=
  BEntry (HashEntry g (n_at x + SIZEOF_HASH_ENTRY) (n_val x)) (cstr (n_key x)).

Lemma modify_run m q e cs f :
  m !! q = Some (BEntry e cs) →
  modify q f m = Done (tt, <[q := BEntry (HashEntry (f (entries e)) (key e) (value e)) cs]> m).
Proof.
  intros H. unfold modify. rewrite (bind_done _ _ m e m).
  - unfold store_entry. by rewrite H.
  - unfold load_entry. by rewrite H.
Qed.

Lemma RB_SET_run m g x p :
  m !! n_at x = Some (loose g x) → n_col x = Red →
  RB_SET (n_at x) p m = Done (tt, <[n_at x := nblock p 0 0 x]> m).
Proof.
  intros H Hx. unfold RB_SET, SET_PARENT, SET_CHILD, SET_COLOR, loose in *.
  run_by (eapply modify_run; exact H). run_by (eapply modify_run, lookup_insert_eq).
  run_by (eapply modify_run, lookup_insert_eq).
  erewrite modify_run by apply lookup_insert_eq. rewrite !insert_insert_eq. unfold nblock.
  by rewrite Hx.
Qed.

Lemma hash_cmp_loose m g z q :
  m !! n_at z = Some (loose g z) → hash_cmp (n_at z) q m = hash_cmp_key (cstr (n_key z)) q m.
Proof.
  intros H. unfold hash_cmp, load_key, load_chars.
  assert (load_entry (n_at z) m =
    Done (HashEntry g (n_at z + SIZEOF_HASH_ENTRY) (n_val z), m)) as Hload.
  { unfold load_entry. by rewrite H. }
  rewrite (bind_done _ _ _ _ _ (bind_done _ _ _ _ _ Hload)). cbn beta. cbn [key].
  rewrite (bind_done _ _ m (cstr (n_key z)) m); [done|].
  replace (n_at z + _ - _) with (n_at z) by lia. by rewrite H.
Qed.

(** The new entry is hung under the end of the descent. *)
Lemma link_run fr h z ctx comp R m :
  descent_end ctx comp →
  rmem fr (foc h E ctx ++ (n_at z, nblock (up ctx) 0 0 z) :: R) m →
  ∃ m', (if negb (up ctx =? 0) then
           if comp <? 0 then SET_CHILD LEFT (up ctx) (n_at z) else SET_CHILD RIGHT (up ctx) (n_at z)
         else SET_ROOT h (n_at z)) m = Done (tt, m') ∧
    rmem fr (foc h (T E z E) ctx ++ R) m'.
Proof.
  intros Hd H. destruct ctx as [|[d x s] ctx].
  - unfold foc, around in *. cbn in *. erewrite SET_ROOT_run by rb_at H. eexists. split; [done|].
    apply (rmem_store0 fr _ _ (BHead (n_at z))) in H. revert H. apply rmem_perm'. solve_Permutation.
  - destruct (foc_parent fr _ _ _ _ _ _ _ _ H) as [Hx Hz]. cbn [up f_nd] in *.
    destruct (Z.eqb_spec (n_at x) 0); [done|]. cbn [negb].
    exists (<[n_at x := sblock d (up ctx) (n_at z) (ptr s) x]> m). split.
    + destruct d; cbn in Hd; [destruct (Z.ltb_spec comp 0); [|lia]|destruct (Z.ltb_spec comp 0); [lia|]];
        by apply (SET_CHILD_same _ _ _ _ _ _ _ _ Hx).
    + unfold foc, around in *. cbn in *.
      apply (rmem_store1 fr _ _ _ (sblock d (up ctx) (n_at z) (ptr s) x)) in H.
      revert H. apply rmem_perm'. solve_Permutation.
Qed.

(** [RB_INSERT] of a loose entry whose key is new, or is not. *)
Lemma RB_INSERT_run fr h t k cmp g z R m :
  rb_tree t → sorted (items t) → n_col z = Red → n_key z = k →
  rmem fr (foc h t [] ++ (n_at z, loose g z) :: R) m → Forall (compares k cmp m) (ents t) →
  match t_map t !! k with
  | Some _ => ∃ a, RB_INSERT cmp h (n_at z) m = Done (a, m)
  | None => ∃ m' t', RB_INSERT cmp h (n_at z) m = Done (0, m') ∧
      rmem fr (foc h t' [] ++ R) m' ∧ rb_tree t' ∧
      ∃ l1 l2, items t = l1 ++ l2 ∧ items t' = l1 ++ item z :: l2 ∧ below k l1 ∧ above k l2
  end.
Proof.
  intros Hrb Hs Hz Hk H Hcmp. unfold RB_INSERT, live_blocks.
  rewrite (bind_done _ _ m (size m) m) by done.
  run_to (RB_ROOT_run _ _ _ (foc_head fr _ _ _ _ _ H)). cbn [plug].
  pose proof (foc_fuel _ _ _ _ _ _ H) as Hsz. pose proof (height_ents t).
  destruct (RB_INSERT_loop_run fr k cmp m h (size m) t [] 0 _ H Hcmp) as (res & Hrun & Hres);
    [cbn in Hsz; lia|done|]. cbn [up] in Hrun. run_to Hrun.
  destruct (search k t []) as [t1 ctx1] eqn:Hsr. rewrite (search_lookup _ _ _ _ Hs Hsr).
  destruct t1 as [|l x r]; [|subst res; by eexists].
  destruct Hres as (comp & -> & Hend).
  assert (between k ctx1) as [Hb Ha].
  { by apply (search_between k t [] E); [|split; apply Forall_nil_2|]. }
  apply search_plug in Hsr. cbn in Hsr. subst t. rewrite <-foc_plug in H.
  assert (Hzb : m !! n_at z = Some (loose g z)).
  { eapply rmem_lookup; [exact H|]. apply elem_of_app. right. apply list_elem_of_here. }
  run_to (RB_SET_run _ _ _ (up ctx1) Hzb Hz).
  apply (rmem_store fr _ _ _ (nblock (up ctx1) 0 0 z)) in H.
  destruct (link_run _ _ _ _ _ _ _ Hend H) as (m2 & Hrun2 & H2). run_to Hrun2.
  destruct (plug_rb_inv _ _ Hrb) as (c & n & HE & Hctx). inversion HE; subst.
  assert (rb Red 0 (T E z E)) as Hzrb by (by apply rb_red; [|constructor..]).
  destruct (insert_color_run _ _ _ _ _ _ _ Hzrb Hctx H2) as (m3 & t3 & Hrun3 & H3 & Hit & Hrb3).
  cbn [ptr] in Hrun3. run_to Hrun3. exists m3, t3. split_and!; [done..|].
  exists (item <$> before ctx1), (item <$> after ctx1). rewrite Hit, !items_plug. by split_and!.
Qed.

(** ** add *)

Lemma strcpy_cstr dst k :
  nonul k → length dst = S (length k) → strcpy dst (cstr k) = Done (cstr k).
Proof.
  intros Hk Hd. unfold strcpy. rewrite strlen_cstr by done. cbn [mbind outcome_bind].
  rewrite buf_take_cstr by done. cbn [mbind outcome_bind].
  destruct (Z.leb_spec (Z.of_nat (length k) + 1) (Z.of_nat (length dst))); [|lia].
  rewrite length_cstr, drop_ge by lia. by rewrite app_nil_r.
Qed.

Section add.
Context `{A : Allocator rblock} `{!AllocSpec A} `{!AllocTotal A}.

Lemma make_entry_run m k v :
  key_ok k →
  ∃ a, m !! a = None ∧ a ≠ 0 ∧
    make_entry (cstr k) v m =
      Done (a, <[a := loose (entries garbage_entry) (Nd a Red k v)]> m).
Proof.
  intros [Hk Hlen]. unfold make_entry. rewrite strlen_cstr by done. run_by (apply lift_done).
  rewrite s32_small by lia. cbn zeta. unfold SIZEOF_HASH_ENTRY.
  rewrite u64_small by lia. unfold malloc_block.
  destruct (alloc_total m (48 + Z.of_nat (length k) + 1)) as [a Ha].
  pose proof (alloc_fresh _ _ _ Ha) as Hfresh. pose proof (alloc_pos _ _ _ Ha) as Hpos.
  exists a. split; [done|]. split; [lia|]. erewrite bind_done by by rewrite Ha. cbn beta.
  assert (∀ e cs, load_entry a (<[a := BEntry e cs]> m) = Done (e, <[a := BEntry e cs]> m)) as Hload.
  { intros e cs. unfold load_entry. by rewrite lookup_insert_eq. }
  assert (∀ e cs e', store_entry a e' (<[a := BEntry e cs]> m) =
    Done (tt, <[a := BEntry e' cs]> m)) as Hstore.
  { intros e cs e'. unfold store_entry. by rewrite lookup_insert_eq, insert_insert_eq. }
  run_to Hload. run_to Hstore. run_to Hload. run_to Hstore. unfold load_key.
  rewrite (bind_done _ _ _ _ _ (bind_done _ _ _ _ _ (Hload _ _))). cbn beta.
  unfold load_chars, store_chars. cbn [key].
  unfold SIZEOF_HASH_ENTRY. replace (a + 48 - 48) with a by lia.
  run_by (cbn beta; rewrite lookup_insert_eq; reflexivity).
  rewrite strcpy_cstr; [|done|rewrite length_replicate; lia]. run_by (apply lift_done).
  run_by (cbn beta; rewrite lookup_insert_eq; reflexivity). by rewrite insert_insert_eq.
Qed.

Lemma bst_add_run fr obj M m k v :
  bst fr obj M m → key_ok k →
  match M !! k with
  | None => ∃ m', add obj (cstr k) v m = Done (0, m') ∧ bst fr obj (<[k := v]> M) m'
  | Some w =>
      if w =? 0 then
        ∃ a b m', add obj (cstr k) v m = Done (0, m') ∧ m !! a = None ∧ a ≠ 0 ∧
          m' = <[a := b]> m ∧ bst (<[a := b]> fr) obj M m'
      else add obj (cstr k) v m = Done (1, m)
  end.
Proof.
  intros (t & Hb & <-) Hk. pose proof (bst_find_run _ _ _ _ _ Hb (proj1 Hk)) as Hfind.
  destruct Hb as [Hm [Hrb Hs Hkeys]]. unfold add. run_to Hfind.
  destruct (make_entry_run m k v Hk) as (a & Hfresh & Ha & Hmk).
  set (z := Nd a Red k v) in *. set (b := loose (entries garbage_entry) z) in *.
  pose proof (rmem_alloc fr _ a b _ Hfresh Ha Hm) as Hm1.
  assert (Hm2 : rmem fr (foc obj t [] ++ (n_at z, b) :: []) (<[a := b]> m)).
  { revert Hm1. apply rmem_perm'. solve_Permutation. }
  assert (Forall (compares k (hash_cmp (n_at z)) (<[a := b]> m)) (ents t)) as Hcmp.
  { eapply Forall_impl; [apply (keys_compare _ _ _ _ _ k Hm2 Hkeys (proj1 Hk))|].
    intros x (c & Hc & Hd). exists c. split; [|done].
    by rewrite (hash_cmp_loose _ (entries garbage_entry)) by apply lookup_insert_eq. }
  pose proof (RB_INSERT_run fr obj t k _ _ z [] _ Hrb Hs eq_refl eq_refl Hm2 Hcmp) as Hins.
  destruct (t_map t !! k) as [w|] eqn:Hw.
  - change (default 0 (Some w)) with w. destruct (Z.eqb_spec w 0) as [->|]; [|done]. cbn [Z.eqb negb]. run_to Hmk.
    destruct Hins as (r & Hins). cbn [n_at z] in Hins. run_to Hins.
    exists a, b, (<[a := b]> m). split_and!; [done..|]. exists t. split; [|done]. split; [|done].
    destruct Hm1 as [Ho H0]. split; [by apply owns_to_frame|done].
  - cbn [default from_option Z.eqb negb]. run_to Hmk.
    destruct Hins as (m' & t' & Hins & Hm' & Hrb' & l1 & l2 & Hit & Hit' & Hbl & Hab).
    cbn [n_at z] in Hins. run_to Hins. exists m'. split; [done|]. exists t'. rewrite app_nil_r in Hm'.
    rewrite Hit in Hs, Hkeys. apply Forall_app in Hkeys as [Hk1 Hk2]. split.
    + split; [done|]. split; [done| |]; rewrite Hit'.
      * by apply sorted_insert.
      * apply Forall_app. split; [done|]. by apply Forall_cons.
    + unfold t_map. rewrite Hit, Hit'. by apply items_map_insert.
Qed.

End add.

(** ** Removal *)

Lemma rmem_to_frame fr cs a b m : rmem fr ((a, b) :: cs) m → rmem (<[a := b]> fr) cs m.
Proof. intros [H H0]. split; [by apply owns_to_frame|done]. Qed.

(** The entry of a key is found and taken out of the tree. *)
Lemma bst_remove_run fr obj M m k v :
  bst fr obj M m → nonul k → M !! k = Some v →
  ∃ a b m', RB_FIND (hash_cmp_key (cstr k)) obj m = Done (a, m) ∧ a ≠ 0 ∧
    RB_REMOVE obj a m = Done (a, m') ∧ m' !! a = Some b ∧
    bst (<[a := b]> fr) obj (delete k M) m' ∧ bst fr obj (delete k M) (delete a m').
Proof.
  intros (t & Hb & <-) Hk Hv. pose proof (RB_FIND_bst _ _ _ _ _ Hb Hk) as Hfind.
  pose proof (bst_mem_nil _ _ _ _ Hb) as Hm. destruct Hb as [_ [Hrb Hs Hkeys]].
  destruct (search k t []) as [t1 ctx] eqn:Hsr. rewrite (search_lookup _ _ _ _ Hs Hsr) in Hv.
  destruct t1 as [|l x r]; [done|]. injection Hv as <-. cbn [fst ptr] in Hfind.
  pose proof (search_key _ _ _ _ _ Hsr) as Hkey. cbn in Hkey. subst k.
  apply search_plug in Hsr. cbn in Hsr. pose proof Hm as Hfoc. rewrite <-Hsr, <-foc_plug in Hfoc.
  destruct (foc_root fr _ LEFT _ _ _ _ _ _ Hfoc) as [_ Hz].
  assert (ents t = (before ctx ++ ents l) ++ x :: (ents r ++ after ctx)) as Hents.
  { by rewrite <-Hsr, ents_plug; cbn; rewrite <-!app_assoc. }
  destruct (RB_REMOVE_run fr _ _ _ _ _ _ _ Hrb Hents Hm)
    as (m' & t' & b & Hrun & Hm' & _ & Hrb' & Hit).
  assert (rmem fr ((n_at x, b) :: foc obj t' []) m') as Hm2.
  { revert Hm'. apply rmem_perm'. solve_Permutation. }
  assert (tree_ok t' ∧ t_map t' = delete (n_key x) (t_map t)) as [Hok Hmap].
  { set (l1 := item <$> (before ctx ++ ents l)). set (l2 := item <$> (ents r ++ after ctx)).
    assert (items t = l1 ++ item x :: l2) as Hitems by by (unfold items; rewrite Hents, fmap_app).
    assert (items t' = l1 ++ l2) as Hitems' by by rewrite Hit, fmap_app.
    unfold t_map. rewrite Hitems in Hs, Hkeys |- *. rewrite Hitems'. split.
    - split; [done| |]; rewrite Hitems'; [by eapply sorted_delete|].
      rewrite Forall_app, Forall_cons in Hkeys. rewrite Forall_app. tauto.
    - apply sorted_app in Hs as (_ & _ & Hbl & Hab).
      change (item x) with (n_at x, n_key x, n_val x).
      rewrite items_map_insert, delete_insert_id; [done| |done].
      rewrite items_map_app. apply lookup_union_None. split; [by apply below_None|by apply above_None]. }
  exists (n_at x), b, m'. split_and!; [done..| | |].
  - eapply rmem_lookup; [exact Hm2|apply list_elem_of_here].
  - exists t'. split; [|done]. split; [by apply rmem_to_frame|done].
  - exists t'. split; [|done]. split; [by eapply rmem_free|done].
Qed.

(** ** The use after free in [clear]

    [RB_FOREACH_SAFE] reads the successor of an entry before the body frees
    the entry, but the walk to the successor of a right child without a right
    subtree goes up through its parent, which has been freed by then.  The
    lemmas follow [clear] through the in-order list: every step is either the
    step of the intact tree or that access, and the last entry of a tree whose
    root has a right subtree is such a child. *)

Lemma cells_addrs p t : (cells p t).*1 ≡ₚ n_at <$> ents t.
Proof.
  revert p. induction t as [|l IHl x r IHr]; intros p; cbn; [done|].
  rewrite !fmap_app. cbn. rewrite IHl, IHr. solve_Permutation.
Qed.

Lemma foc_nodup fr h t R m : rmem fr (foc h t [] ++ R) m → NoDup (n_at <$> ents t).
Proof.
  intros [(Hnd & _) _]. unfold foc in Hnd. rewrite !fmap_app, cells_addrs, <-app_assoc in Hnd.
  by apply NoDup_app in Hnd as [Hnd _].
Qed.

Lemma live_length (m : rheap) (l : list nd) :
  NoDup (n_at <$> l) → (∀ x, x ∈ l → is_Some (m !! n_at x)) → (length l ≤ size m)%nat.
Proof.
  intros Hnd Hin. rewrite <-size_dom, <-(length_fmap n_at l), <-(size_list_to_set (C := gset Z) _ Hnd).
  apply subseteq_size. intros a Ha%elem_of_list_to_set.
  apply list_elem_of_fmap in Ha as (x & -> & Hx). apply elem_of_dom. by apply Hin.
Qed.

Section clear.
Context (fr : rheap) (h : Z) (t : rtree) (m : rheap).
Hypothesis Hm : rmem fr (foc h t [] ++ []) m.

(** The entries of [l1] have been freed, those of [l2] have not. *)
Record freed (l1 l2 : list nd) (m' : rheap) : Prop := {
  freed_split : ents t = l1 ++ l2;
  freed_gone : ∀ x, x ∈ l1 → m' !! n_at x = None;
  freed_live : ∀ x, x ∈ l2 → m' !! n_at x = m !! n_at x;
  freed_null : m' !! 0 = None;
}.

Lemma freed_is_live l1 l2 m' x : freed l1 l2 m' → x ∈ l2 → is_Some (m' !! n_at x).
Proof.
  intros [Hs _ Hl _] Hx. rewrite Hl by done.
  destruct (foc_entry _ _ _ _ _ x Hm) as (p & a & b & Hb); [|by eexists].
  rewrite Hs. apply elem_of_app. by right.
Qed.

Lemma freed_size l1 l2 m' : freed l1 l2 m' → (length l2 ≤ size m')%nat.
Proof.
  intros Hf. pose proof (foc_nodup _ _ _ _ _ Hm) as Hnd.
  rewrite (freed_split _ _ _ Hf), fmap_app in Hnd. apply NoDup_app in Hnd as (_ & _ & Hnd).
  apply live_length; [done|]. intros x Hx. by eapply freed_is_live.
Qed.

Lemma freed_step l1 x l2 m' :
  freed l1 (x :: l2) m' → freed (l1 ++ [x]) l2 (delete (n_at x) m').
Proof.
  intros [Hs Hg Hl H0]. pose proof (foc_nodup _ _ _ _ _ Hm) as Hnd.
  rewrite Hs, fmap_app in Hnd. cbn in Hnd. apply NoDup_app in Hnd as (_ & _ & Hnd).
  apply NoDup_cons in Hnd as [Hnin _]. split.
  - by rewrite <-app_assoc.
  - intros y [Hy|Hy]%elem_of_app.
    + apply lookup_delete_None. right. by apply Hg.
    + apply list_elem_of_singleton in Hy as ->. apply lookup_delete_None. by left.
  - intros y Hy. rewrite lookup_delete_ne; [by apply Hl, elem_of_cons; right|].
    intros Heq. apply Hnin. rewrite Heq. by apply list_elem_of_fmap_2.
  - apply lookup_delete_None. by right.
Qed.

(** A step from the first live entry is the step of the intact tree, or reads
    a freed parent. *)
Lemma freed_next l1 x l2 m' :
  freed l1 (x :: l2) m' →
  rb_step RIGHT (n_at x) m' = Undef ∨
  rb_step RIGHT (n_at x) m' = Done (hd_at l2, m') ∧ (l2 = [] → ∃ l, t = T l x E).
Proof.
  intros Hf. pose proof Hf as [Hs Hg Hl H0]. destruct (ents_split _ _ _ _ Hs) as (l & r & ctx & Ht & -> & ->).
  pose proof Hm as H. rewrite Ht, <-foc_plug in H.
  destruct (foc_root fr _ LEFT _ _ _ _ _ _ H) as [Hx _].
  assert (m' !! n_at x = Some (sblock LEFT (up ctx) (ptr l) (ptr r) x)) as Hx'.
  { rewrite Hl by apply list_elem_of_here. exact Hx. }
  unfold rb_step, live_blocks. rewrite (bind_done _ _ m' (size m') m') by done.
  run_to (RB_CHILD_other m' LEFT _ _ _ _ _ Hx'). destruct (decide (r = E)) as [->|Hr].
  - cbn [ptr Z.eqb negb]. run_to (RB_PARENT_run _ _ _ _ _ _ _ Hx').
    destruct ctx as [|[d p s] ctx]; cbn [up f_nd] in *.
    { right. split; [|intros _; by exists l]. rewrite (bind_done _ _ m' 0 m') by done. cbn [negb Z.eqb andb].
      destruct (size m') as [|fuel] eqn:Hsz.
      { apply freed_size in Hf. rewrite Hsz in Hf. cbn in Hf. lia. }
      pose proof (RB_PARENT_run _ _ _ _ _ _ _ Hx') as Hp. rewrite (bind_done _ _ m' (n_at x) m'); [exact Hp|].
      cbn [climb]. by run_to Hp. }
    destruct (foc_parent fr _ _ _ _ _ _ _ _ H) as [Hp Hp0]. destruct (Z.eqb_spec (n_at p) 0); [done|].
    destruct d; cbn [before after ents app] in *.
    + right. split; [|done]. rewrite <-(Hl p) in Hp by apply list_elem_of_further, list_elem_of_here.
      run_to (RB_CHILD_same m' LEFT _ _ _ _ _ Hp). cbn [ptr]. by rewrite Z.eqb_refl.
    + left. apply bind_undef. unfold RB_CHILD, other, RB_LEFT. apply bind_undef. unfold load_entry.
      rewrite (Hg p); [done|]. rewrite !elem_of_app. left. right. right. apply list_elem_of_here.
  - right. split; [|intros [Hn _]%app_eq_nil; by destruct (ents_to_nil RIGHT r Hr)].
    assert (∀ a b, (a, b) ∈ cells (n_at x) r → m' !! a = Some b) as Hr'.
    { intros a b Hab. assert (m !! a = Some b) as <-.
      { eapply rmem_lookup; [exact H|]. unfold foc. cbn [cells app]. apply list_elem_of_further.
        rewrite !elem_of_app. by do 2 left; right. }
      assert (a ∈ n_at <$> ents r) as (y & -> & Hy)%list_elem_of_fmap.
      { rewrite <-(cells_addrs (n_at x)). apply list_elem_of_fmap. by exists (a, b). }
      apply Hl, list_elem_of_further, elem_of_app. by left. }
    destruct (cells_root (n_at x) r Hr) as [b Hb]. apply Hr' in Hb.
    destruct (Z.eqb_spec (ptr r) 0) as [Hz|_]; [congruence|]. cbn [negb].
    rewrite hd_at_app by by apply (ents_to_nil RIGHT).
    apply (descend_cells RIGHT m' _ r (n_at x)); [done..|].
    apply freed_size in Hf. cbn in Hf. rewrite length_app in Hf. pose proof (height_ents r). lia.
Qed.

Lemma clear_loop_undef fuel : ∀ l1 l2 m',
  freed l1 l2 m' → l2 ≠ [] → (∀ l x, t ≠ T l x E) → (length l2 < fuel)%nat →
  clear_loop fuel (hd_at l2) m' = Undef.
Proof.
  induction fuel as [|fuel IH]; intros l1 l2 m' Hf Hne Hr Hfuel; [lia|].
  destruct l2 as [|x l2]; [done|]. cbn [clear_loop hd_at].
  destruct (freed_is_live _ _ _ x Hf) as [b Hb]; [apply list_elem_of_here|].
  destruct (Z.eqb_spec (n_at x) 0) as [Hz|_].
  { rewrite Hz, (freed_null _ _ _ Hf) in Hb. done. }
  destruct (freed_next _ _ _ _ Hf) as [Hs|[Hs Hlast]]; [by apply bind_undef|].
  unfold RB_NEXT. run_to Hs. unfold free. rewrite (bind_done _ _ m' tt (delete (n_at x) m')) by by rewrite Hb.
  apply freed_step in Hf. apply (IH _ _ _ Hf); [|done|cbn in Hfuel; lia].
  intros ->. destruct (Hlast eq_refl) as [l Ht]. by apply (Hr l x).
Qed.
End clear.

(** A valid tree whose root has no right subtree has two entries at most. *)
Lemma rb_tree_no_right l x : rb_tree (T l x E) → (length (ents (T l x E)) ≤ 2)%nat.
Proof.
  intros [n Hrb]. inversion Hrb as [|c1 c2 k ? ? ? Hx Hl Hr|]; subst. inversion Hr; subst.
  cbn. rewrite length_app. cbn. inversion Hl as [|? ? ? ? ? ? ? Hll|? ? ? ? ? Hll Hlr]; subst; cbn; [lia|].
  inversion Hll; inversion Hlr; subst; cbn; lia.
Qed.
