(* ===== verification/RbTheorems.v ===== *)
(** * RbTheorems: what bsdtree.c and tree.h guarantee

    [find], [add] and the macros of tree.h on a tree in memory, the invariant
    of every state the operations reach, the number of comparisons of a
    search; and where bsdtree.c falls short: [init] leaves the root
    uninitialised, [del] deletes nothing, [clear] uses freed entries. *)

From S2P Require Import Prelude.
From S2P Require Import Own.
From S2P Require Import Heap.
From S2P Require Import MapSpec.
From S2P Require Import RbTree.
From S2P Require Import RbShape.
From S2P Require Import RbMem.
From S2P Require Import RbSearch.
From S2P Require Import RbMap.

(** ** Examples: small trees the code builds with the bump allocator *)

#[local] Existing Instance bump_alloc.
#[local] Existing Instance bump_alloc_spec.
#[local] Existing Instance bump_alloc_total.

(** An initialised root at address 16, alone in memory. *)
Definition empty_heap : rheap := {[16 := BHead 0]}.

Lemma empty_tree : bst_tree ∅ 16 E empty_heap.
Proof.
  split.
  - split; [|done]. split; [|split].
    + apply NoDup_singleton.
    + intros a _. apply lookup_empty.
    + cbn. by rewrite map_union_empty.
  - split; [by exists 0%nat; constructor|constructor|constructor].
Qed.

Lemma empty_bst : bst ∅ 16 ∅ empty_heap.
Proof. exists E. split; [apply empty_tree|done]. Qed.

(** ** Operations on the map *)

(** [find] returns the value bound to the key, and null when the key
    is not in the tree; it changes nothing. *)
Lemma bsdtree_find_correct fr obj M m k :
  bst fr obj M m → nonul k → find obj (cstr k) m = Done (find_result M k, m).
Proof.
  intros (t & Hb & <-) Hk. rewrite (bst_find_run _ _ _ _ _ Hb Hk). unfold find_result.
  by destruct (t_map t !! k).
Qed.

Lemma bsdtree_find_correct_witness :
  find 16 (cstr [97]) empty_heap = Done (0, empty_heap).
Proof. apply (bsdtree_find_correct ∅ 16 ∅ empty_heap [97] empty_bst). by repeat constructor. Defined.

(** Claim C15: [add] on a tree that represents [M]: a key with a non-null value
    is rejected and nothing changes; a new key is bound, through every
    recolouring and rotation, in a tree that is again red-black, ordered and
    linked consistently; and a key whose value is null is reported as added
    although the map stays the same, because [find] cannot tell it from an
    absent one: the new entry is then reachable from nowhere. *)
Theorem bsdtree_add_correct `{A : Allocator rblock} `{!AllocSpec A} `{!AllocTotal A} fr obj M m k v :
  bst fr obj M m → key_ok k →
  match M !! k with
  | None => ∃ m', add obj (cstr k) v m = Done (0, m') ∧ bst fr obj (<[k := v]> M) m'
  | Some w =>
      if w =? 0 then
        ∃ a b m', add obj (cstr k) v m = Done (0, m') ∧ m !! a = None ∧ a ≠ 0 ∧
          m' = <[a := b]> m ∧ bst (<[a := b]> fr) obj M m'
      else add obj (cstr k) v m = Done (1, m)
  end.
Proof. apply bst_add_run. Qed.

Lemma bsdtree_add_correct_witness :
  ∃ m', add 16 (cstr [97]) 5 empty_heap = Done (0, m') ∧ bst ∅ 16 {[ [97] := 5 ]} m'.
Proof.
  apply (bsdtree_add_correct ∅ 16 ∅ empty_heap [97] 5 empty_bst).
  by split; [repeat constructor|].
Defined.

(** Three keys, added by the code. *)
Definition three_map : gmap (list Z) Z := <[ [99] := 7 ]> (<[ [98] := 6 ]> {[ [97] := 5 ]}).

Lemma three_keys : ∃ m, bst ∅ 16 three_map m.
Proof.
  destruct (bst_add_run ∅ 16 ∅ empty_heap [97] 5 empty_bst) as (m1 & _ & H1); [by split; [repeat constructor|]|].
  destruct (bst_add_run ∅ 16 _ m1 [98] 6 H1) as (m2 & _ & H2); [by split; [repeat constructor|]|].
  destruct (bst_add_run ∅ 16 _ m2 [99] 7 H2) as (m3 & _ & H3); [by split; [repeat constructor|]|].
  by exists m3.
Qed.

(** Claim C16: [RB_REMOVE] of the entry [RB_FIND] returns for a key: the entry
    is unlinked and returned, its block is left to the caller, and what
    remains is a valid tree for the map without the key.  This covers the
    entries with two children, where the successor takes their place, and
    every case of the rebalancing. *)
Theorem RB_REMOVE_correct fr obj M m k v :
  bst fr obj M m → nonul k → M !! k = Some v →
  ∃ a b m', RB_FIND (hash_cmp_key (cstr k)) obj m = Done (a, m) ∧ a ≠ 0 ∧
    RB_REMOVE obj a m = Done (a, m') ∧ m' !! a = Some b ∧
    bst (<[a := b]> fr) obj (delete k M) m' ∧ bst fr obj (delete k M) (delete a m').
Proof. apply bst_remove_run. Qed.

(** The entry in the middle of three is the root, and has two children. *)
Lemma RB_REMOVE_correct_witness :
  ∃ m a b m', bst ∅ 16 three_map m ∧ RB_FIND (hash_cmp_key (cstr [98])) 16 m = Done (a, m) ∧ a ≠ 0 ∧
    RB_REMOVE 16 a m = Done (a, m') ∧ m' !! a = Some b ∧
    bst (<[a := b]> ∅) 16 (delete [98] three_map) m' ∧
    bst ∅ 16 (delete [98] three_map) (delete a m').
Proof.
  destruct three_keys as [m H]. exists m.
  destruct (RB_REMOVE_correct ∅ 16 three_map m [98] 6 H) as (a & b & m' & Hrem);
    [by repeat constructor|reflexivity|]. by exists a, b, m'.
Defined.

(** ** Searches and iteration *)

(** [RB_NFIND] returns the entry with the least key that is not
    below the searched one, and null when all keys are below it. *)
Lemma RB_NFIND_correct fr obj t m k :
  bst_tree fr obj t m → nonul k →
  ∃ a, RB_NFIND (hash_cmp_key (cstr k)) obj m = Done (a, m) ∧
    ((a = 0 ∧ ∀ x, x ∈ ents t → klt (n_key x) k) ∨
     (∃ x, x ∈ ents t ∧ a = n_at x ∧ keylt (n_key x) k = false ∧
       ∀ y, y ∈ ents t → keylt (n_key y) k = false → keylt (n_key y) (n_key x) = false)).
Proof.
  intros Hb Hk. pose proof (bst_mem_nil _ _ _ _ Hb) as H. destruct Hb as [_ [Hrb Hs Hkeys]].
  exists (nfound (search k t [])). split.
  { eapply RB_NFIND_run; [exact H|by eapply keys_compare]. }
  destruct (search k t []) as [t' ctx] eqn:Hsr. unfold nfound. cbn [fst snd].
  assert (between k ctx) as [Hbl Hab].
  { by apply (search_between k t [] t'); [|split; apply Forall_nil_2|]. }
  pose proof (search_key _ _ _ _ _ Hsr) as Hkey. apply search_plug in Hsr. cbn in Hsr. subst t.
  unfold below, above in Hbl, Hab. rewrite Forall_fmap, Forall_forall in Hbl, Hab.
  setoid_rewrite ents_plug. setoid_rewrite elem_of_app. setoid_rewrite elem_of_app.
  destruct t' as [|l x r].
  - destruct (after ctx) as [|x l] eqn:Ha.
    + left. split; [done|]. intros x [Hx|[Hx|Hx]]; [by apply Hbl|by apply elem_of_nil in Hx..].
    + right. exists x. cbn [hd_at]. split; [right; right; apply list_elem_of_here|]. split; [done|].
      assert (klt k (n_key x)) as Hkx by apply Hab, list_elem_of_here.
      split; [by apply keylt_asym|]. rewrite items_plug, Ha in Hs.
      intros y [Hy|[Hy|Hy]] Hyk; [|by apply elem_of_nil in Hy|].
      * pose proof (Hbl y Hy) as Hlt. cbn in Hlt. congruence.
      * apply elem_of_cons in Hy as [->|Hy]; [apply keylt_irrefl|].
        cbn in Hs. apply sorted_app in Hs as (_ & _ & _ & Hgt). unfold above in Hgt.
        rewrite Forall_fmap, Forall_forall in Hgt. by apply keylt_asym, Hgt.
  - right. exists x. subst k. split.
    { right. left. cbn. apply elem_of_app. right. apply list_elem_of_here. }
    split; [done|]. split; [apply keylt_irrefl|]. by intros y _ Hy.
Qed.

Lemma RB_NFIND_correct_witness :
  ∃ a, RB_NFIND (hash_cmp_key (cstr [97])) 16 empty_heap = Done (a, empty_heap) ∧
    ((a = 0 ∧ ∀ x, x ∈ ents E → klt (n_key x) [97]) ∨
     (∃ x, x ∈ ents E ∧ a = n_at x ∧ keylt (n_key x) [97] = false ∧
       ∀ y, y ∈ ents E → keylt (n_key y) [97] = false → keylt (n_key y) (n_key x) = false)).
Proof. apply (RB_NFIND_correct ∅ 16 E empty_heap [97] empty_tree). by repeat constructor. Defined.

(** Claim C37: [RB_FOREACH] visits the entry of every key exactly once, in
    ascending order of the keys, and [RB_FOREACH_REVERSE] visits the same
    entries in the opposite order; each visited entry holds the value the map
    binds its key to. Both walks end, and change nothing. *)
Theorem RB_FOREACH_correct fr obj M m :
  bst fr obj M m →
  ∃ l, RB_FOREACH obj m = Done (i_at <$> l, m) ∧
    RB_FOREACH_REVERSE obj m = Done (reverse (i_at <$> l), m) ∧
    sorted l ∧ items_map l = M ∧
    ∀ i, i ∈ l → load_value (i_at i) m = Done (i_val i, m) ∧
      ∃ kp, load_key (i_at i) m = Done (kp, m) ∧ load_chars kp m = Done (cstr (i_key i), m).
Proof.
  intros (t & Hb & <-). pose proof (bst_mem_nil _ _ _ _ Hb) as H. destruct Hb as [_ [Hrb Hs Hkeys]].
  exists (items t). pose proof (foc_fuel _ _ _ _ _ _ H) as Hsz. cbn [plug] in Hsz.
  assert (i_at <$> items t = n_at <$> ents t) as -> by (unfold items; by rewrite <-list_fmap_compose).
  split_and!; [| |done|done|].
  - unfold RB_FOREACH, live_blocks. rewrite (bind_done _ _ m (size m) m) by done.
    run_to (RB_MINMAX_run fr m obj RB_NEGINF t [] H).
    by apply (foreach_run fr m obj RIGHT t [] _ [] (ents t)).
  - unfold RB_FOREACH_REVERSE, live_blocks. rewrite (bind_done _ _ m (size m) m) by done.
    run_to (RB_MINMAX_run fr m obj RB_INF t [] H). 
    replace (reverse (n_at <$> ents t)) with (n_at <$> rev (ents t))
      by (rewrite rev_alt; apply fmap_reverse).
    apply (foreach_run fr m obj LEFT t [] _ [] (rev (ents t))); [done|done|by rewrite length_rev].
  - intros i (x & -> & Hx)%list_elem_of_fmap.
    destruct (foc_entry _ _ _ _ _ _ H Hx) as (p & a & b & Hxb).
    split; [exact (load_value_run _ _ _ _ _ _ _ Hxb)|].
    eexists. split; [exact (load_key_run _ _ _ _ _ _ _ Hxb)|].
    apply (load_chars_run _ LEFT p a b).
    by replace (n_at x + SIZEOF_HASH_ENTRY - SIZEOF_HASH_ENTRY) with (n_at x) by lia.
Qed.

Lemma RB_FOREACH_correct_witness :
  ∃ m l, bst ∅ 16 three_map m ∧ RB_FOREACH 16 m = Done (i_at <$> l, m) ∧
    RB_FOREACH_REVERSE 16 m = Done (reverse (i_at <$> l), m) ∧ sorted l ∧ items_map l = three_map.
Proof.
  destruct three_keys as [m H]. exists m.
  destruct (RB_FOREACH_correct ∅ 16 three_map m H) as (l & Hfwd & Hback & Hs & Hl & _). by exists l.
Defined.

(** A walk from an entry visits it and the entries after it, or before it. *)
Lemma RB_FOREACH_FROM_correct fr obj t m l1 x l2 :
  bst_tree fr obj t m → ents t = l1 ++ x :: l2 →
  RB_FOREACH_FROM (n_at x) m = Done (n_at <$> x :: l2, m) ∧
  RB_FOREACH_REVERSE_FROM (n_at x) m = Done (n_at <$> x :: rev l1, m).
Proof.
  intros Hb Heq. pose proof (bst_mem_nil _ _ _ _ Hb) as H. pose proof (foc_fuel _ _ _ _ _ _ H) as Hsz.
  cbn [plug] in Hsz. rewrite Heq, length_app in Hsz. cbn [length] in Hsz.
  unfold RB_FOREACH_FROM, RB_FOREACH_REVERSE_FROM, live_blocks.
  rewrite !(bind_done _ _ m (size m) m) by done. split.
  - apply (foreach_run fr m obj RIGHT t [] _ l1 (x :: l2) H Heq). cbn. lia.
  - apply (foreach_run fr m obj LEFT t [] _ (rev l2) (x :: rev l1) H); [|cbn; rewrite length_rev; lia].
    cbn. rewrite Heq, rev_app_distr. cbn. by rewrite <-!app_assoc.
Qed.

(** Claim C36: a search among [n] keys ends after at most [2 log2 (n + 1)]
    comparisons: the loop of [RB_FIND], which compares once in each iteration
    but the one that finds a null pointer, returns when it may run for one
    iteration more than that, and returns the entry of the key with the value
    the map binds it to, or null when the key is not in the map. *)
Theorem RB_FIND_comparisons fr obj M m k :
  bst fr obj M m → nonul k →
  ∃ root a, RB_ROOT obj m = Done (root, m) ∧
    RB_FIND_loop (S (2 * Nat.log2 (size M + 1))) (hash_cmp_key (cstr k)) root m = Done (a, m) ∧
    match M !! k with
    | None => a = 0
    | Some v => a ≠ 0 ∧ hash_cmp_key (cstr k) a m = Done (0, m) ∧ load_value a m = Done (v, m)
    end.
Proof.
  intros (t & Hb & <-) Hk. pose proof (bst_mem_nil _ _ _ _ Hb) as H. destruct Hb as [_ [Hrb Hs Hkeys]].
  pose proof (keys_compare _ _ _ _ _ _ H Hkeys Hk) as Hcmp.
  exists (ptr t), (ptr (search k t []).1). split; [apply RB_ROOT_run; exact (foc_head fr obj t [] [] m H)|]. split.
  { eapply (RB_FIND_loop_run fr k _ m obj _ t []); [exact H|exact Hcmp|].
    rewrite (size_t_map t Hs). pose proof (rb_tree_height t Hrb). lia. }
  destruct (search k t []) as [t' ctx] eqn:Hsr. rewrite (search_lookup _ _ _ _ Hs Hsr).
  pose proof (search_key _ _ _ _ _ Hsr) as Hkey. apply search_plug in Hsr. cbn in Hsr. subst t.
  rewrite <-foc_plug in H. destruct t' as [|l x r]; [done|]. cbn [fst ptr].
  destruct (foc_root fr _ LEFT _ _ _ _ _ _ H) as [Hx Hz].
  destruct (compares_sub _ _ _ _ _ _ _ Hcmp) as (c & Hrun & Hlt & Hgt).
  split; [done|]. split; [|by apply (load_value_run _ _ _ _ _ _ _ Hx)].
  cbn [fst] in Hkey. subst k. rewrite keylt_irrefl in Hlt, Hgt.
  apply Z.ltb_ge in Hlt, Hgt. by replace c with 0 in Hrun by lia.
Qed.

(** The middle one of three keys, with at most four comparisons. *)
Lemma RB_FIND_comparisons_witness :
  ∃ m root a, bst ∅ 16 three_map m ∧ RB_ROOT 16 m = Done (root, m) ∧
    RB_FIND_loop 5 (hash_cmp_key (cstr [98])) root m = Done (a, m) ∧ load_value a m = Done (6, m).
Proof.
  destruct three_keys as [m H]. exists m.
  destruct (RB_FIND_comparisons ∅ 16 three_map m [98] H) as (root & a & Hroot & Hrun & _ & _ & Hv);
    [by repeat constructor|]. by exists root, a.
Defined.

(** ** Every reachable state *)

(** The states of a tree at [obj]: it is allocated and initialised with
    [RB_INIT]; entries are added and looked up; the entry of a key is removed,
    and kept by the caller or freed. *)
Inductive reachable `{A : Allocator rblock} (obj : Z) : rheap → Prop :=
  | reach_init m m1 m2 :
      m !! 0 = None → init m = Done (obj, m1) → obj ≠ 0 → RB_INIT obj m1 = Done (tt, m2) →
      reachable obj m2
  | reach_add m k v r m' :
      reachable obj m → key_ok k → add obj (cstr k) v m = Done (r, m') → reachable obj m'
  | reach_find m k r m' :
      reachable obj m → nonul k → find obj (cstr k) m = Done (r, m') → reachable obj m'
  | reach_remove m k a r m' :
      reachable obj m → nonul k → RB_FIND (hash_cmp_key (cstr k)) obj m = Done (a, m) → a ≠ 0 →
      RB_REMOVE obj a m = Done (r, m') → reachable obj m'
  | reach_remove_free m k a r m' m'' :
      reachable obj m → nonul k → RB_FIND (hash_cmp_key (cstr k)) obj m = Done (a, m) → a ≠ 0 →
      RB_REMOVE obj a m = Done (r, m') → free a m' = Done (tt, m'') → reachable obj m''.

Lemma init_bst fr obj r m :
  m = <[obj := BHead r]> fr → fr !! obj = None → fr !! 0 = None → obj ≠ 0 →
  ∃ m', RB_INIT obj m = Done (tt, m') ∧ bst fr obj ∅ m'.
Proof.
  intros -> Hobj H0 Hz. unfold RB_INIT. erewrite SET_ROOT_run by apply lookup_insert_eq.
  rewrite insert_insert_eq. eexists. split; [done|]. exists E. split; [|done]. split.
  - split; [|by rewrite lookup_insert_ne]. split; [apply NoDup_singleton|]. split.
    + by intros a ->%list_elem_of_singleton.
    + cbn. by rewrite insert_union_singleton_l, insert_empty.
  - split; [by exists 0%nat; constructor|constructor|constructor].
Qed.

Lemma find_some fr obj M m k a :
  bst fr obj M m → nonul k → RB_FIND (hash_cmp_key (cstr k)) obj m = Done (a, m) → a ≠ 0 →
  is_Some (M !! k).
Proof.
  intros (t & Hb & <-) Hk. rewrite (RB_FIND_bst _ _ _ _ _ Hb Hk). intros [= <-] Ha.
  destruct (search k t []) as [t' ctx] eqn:Hs.
  rewrite (search_lookup _ _ _ _ (ok_sorted _ (bst_ok _ _ _ _ Hb)) Hs). by destruct t'.
Qed.

Lemma reachable_bst `{A : Allocator rblock} `{!AllocSpec A} `{!AllocTotal A} obj m :
  reachable obj m → ∃ fr M, bst fr obj M m.
Proof.
  induction 1 as [m m1 m2 H0 Hinit Hobj Hrb|m k v r m' _ (fr & M & IH) Hk Hadd|
    m k r m' _ (fr & M & IH) Hk Hfind|m k a r m' _ (fr & M & IH) Hk Hfind Ha Hrem|
    m k a r m' m'' _ (fr & M & IH) Hk Hfind Ha Hrem Hfree].
  - unfold init, malloc_block in Hinit. destruct (alloc m SIZEOF_HASH_ROOT) as [a|] eqn:Hal; [|by simplify_eq].
    injection Hinit as -> <-. apply alloc_fresh in Hal.
    destruct (init_bst m obj indeterminate _ eq_refl Hal H0 Hobj) as (m' & Hrun & Hb).
    rewrite Hrun in Hrb. injection Hrb as ->. by exists m, ∅.
  - pose proof (bst_add_run _ _ _ _ _ v IH Hk) as Hspec. destruct (M !! k) as [w|].
    + destruct (w =? 0).
      * destruct Hspec as (a & b & m1 & Hrun & _ & _ & _ & Hb). rewrite Hrun in Hadd. simplify_eq. eauto.
      * rewrite Hspec in Hadd. simplify_eq. eauto.
    + destruct Hspec as (m1 & Hrun & Hb). rewrite Hrun in Hadd. simplify_eq. eauto.
  - destruct IH as (t & Hb & HM). rewrite (bst_find_run _ _ _ _ _ Hb Hk) in Hfind. simplify_eq.
    exists fr, (t_map t), t. done.
  - destruct (find_some _ _ _ _ _ _ IH Hk Hfind Ha) as [v Hv].
    destruct (bst_remove_run _ _ _ _ _ _ IH Hk Hv) as (a' & b & m1 & Hf & _ & Hrun & _ & Hb & _).
    rewrite Hf in Hfind. simplify_eq. rewrite Hrun in Hrem. simplify_eq. eauto.
  - destruct (find_some _ _ _ _ _ _ IH Hk Hfind Ha) as [v Hv].
    destruct (bst_remove_run _ _ _ _ _ _ IH Hk Hv) as (a' & b & m1 & Hf & _ & Hrun & Hl & _ & Hb).
    rewrite Hf in Hfind. simplify_eq. rewrite Hrun in Hrem. simplify_eq. unfold free in Hfree. rewrite Hl in Hfree. simplify_eq. eauto.
Qed.

(** Claim C17: in every state that the operations reach from an initialised
    root, the blocks linked from the root form a red-black tree: the root is
    black, no red entry has a red child, all paths to a null pointer pass the
    same number of black entries, parent pointers are the inverse of child
    pointers, keys ascend in order without duplicates, and the height is at
    most twice the logarithm of the number of entries. *)
Theorem rb_invariant `{A : Allocator rblock} `{!AllocSpec A} `{!AllocTotal A} obj m :
  reachable obj m →
  ∃ fr t, owns (cells 0 t ++ [(obj, BHead (ptr t))]) fr m ∧ (∃ n, rb Black n t) ∧
    sorted (items t) ∧ (height t ≤ 2 * Nat.log2 (length (ents t) + 1))%nat.
Proof.
  intros (fr & M & t & [[Hm _] [Hrb Hs _]] & _)%reachable_bst. exists fr, t. split_and!; [|done|done|].
  - revert Hm. apply owns_perm. unfold foc, around. cbn. done.
  - by apply rb_tree_height.
Qed.

Lemma rb_invariant_witness :
  ∃ m fr t, reachable 16 m ∧ owns (cells 0 t ++ [(16, BHead (ptr t))]) fr m ∧ (∃ n, rb Black n t) ∧
    sorted (items t) ∧ (height t ≤ 2 * Nat.log2 (length (ents t) + 1))%nat.
Proof.
  assert (reachable 16 empty_heap) as H.
  { by apply (reach_init 16 ∅ {[16 := BHead 3735928559]}). }
  destruct (bst_add_run ∅ 16 ∅ empty_heap [97] 5 empty_bst) as (m & Hrun & _);
    [by split; [repeat constructor|]|].
  exists m. destruct (rb_invariant 16 m) as (fr & t & Ht).
  - eapply (reach_add _ _ [97] 5); [exact H| |exact Hrun]. by split; [repeat constructor|].
  - exists fr, t. split; [|exact Ht].
    eapply (reach_add _ _ [97] 5); [exact H| |exact Hrun]. by split; [repeat constructor|].
Defined.

(** ** Where bsdtree.c falls short *)

(** [clear] of a tree with three keys or more uses freed memory: the
    walk to the successor of the last entry reads the entry's parent, which
    the loop has freed before. *)
Lemma bsdtree_clear_undefined fr obj M m :
  bst fr obj M m → (3 ≤ size M)%nat → clear obj m = Undef.
Proof.
  intros (t & Hb & <-) Hsz. pose proof (bst_mem_nil _ _ _ _ Hb) as H. destruct Hb as [_ [Hrb Hs _]].
  rewrite (size_t_map t Hs) in Hsz. unfold clear, live_blocks. rewrite (bind_done _ _ m (size m) m) by done.
  run_to (RB_MINMAX_run fr m obj RB_NEGINF t [] H).
  pose proof (foc_fuel _ _ _ _ _ _ H) as Hfuel. cbn [plug] in Hfuel.
  apply (clear_loop_undef fr obj t m H _ [] (ents t) m); [| | |done].
  - split; [done|by intros x ?%elem_of_nil|done|by destruct H].
  - intros Hn. rewrite Hn in Hsz. cbn in Hsz. lia.
  - intros l x ->. pose proof (rb_tree_no_right l x Hrb). lia.
Qed.

Lemma bsdtree_clear_undefined_witness :
  ∃ m, bst ∅ 16 three_map m ∧ clear 16 m = Undef.
Proof.
  destruct three_keys as [m H]. exists m. split; [exact H|].
  apply (bsdtree_clear_undefined _ _ _ _ H). by apply (bool_decide_unpack _); vm_compute.
Defined.

(** [init] does not initialise the root pointer: unless malloc
    happens to return a zero word or the address of an entry, the first [find]
    or [add] on the new root dereferences an indeterminate pointer. *)
Lemma bsdtree_init_uninitialised `{A : Allocator rblock} m obj m1 k v :
  init m = Done (obj, m1) → obj ≠ 0 → indeterminate ≠ 0 →
  (∀ e cs, m1 !! indeterminate ≠ Some (BEntry e cs)) →
  find obj k m1 = Undef ∧ add obj k v m1 = Undef.
Proof.
  intros Hinit Hobj Hi Hm. unfold init, malloc_block in Hinit.
  destruct (alloc m SIZEOF_HASH_ROOT) as [a|]; [|by simplify_eq]. injection Hinit as -> <-.
  assert (find obj k (<[obj := BHead indeterminate]> m) = Undef) as Hfind.
  { unfold find. apply bind_undef. unfold RB_FIND, live_blocks.
    set (m1 := <[obj := BHead indeterminate]> m) in *. rewrite (bind_done _ _ m1 (size m1) m1) by done.
    run_to (RB_ROOT_run m1 obj indeterminate (lookup_insert_eq _ _ _)).
    destruct (size m1) as [|n] eqn:Hn.
    { apply map_size_empty_inv in Hn. by apply insert_non_empty in Hn. }
    cbn [RB_FIND_loop]. destruct (Z.eqb_spec indeterminate 0); [done|].
    apply bind_undef. unfold hash_cmp_key, load_key. apply bind_undef, bind_undef. unfold load_entry.
    destruct (m1 !! indeterminate) as [[r|e cs]|] eqn:Hl; [done|by destruct (Hm e cs)|done]. }
  split; [done|]. unfold add. by apply bind_undef.
Qed.

Lemma bsdtree_init_uninitialised_witness :
  find 16 (cstr [97]) {[16 := BHead 3735928559]} = Undef ∧
  add 16 (cstr [97]) 5 {[16 := BHead 3735928559]} = Undef.
Proof.
  apply (bsdtree_init_uninitialised ∅); [reflexivity|done|done|].
  intros e cs. vm_compute. discriminate.
Defined.

(** ** Sequences of calls *)

#[export] Instance bsdtree_impl `{A : Allocator rblock} : MapImpl rheap := {|
  map_init := init;
  map_add := add;
  map_find := find;
  map_del := del;
  map_clear := clear;
|}.

(** What the calls do to the map: [del] reports success and deletes nothing;
    adding a key that is bound to null reports success and changes nothing. *)
Definition bsdtree_op (o : op) (M : kvmap) : Z * kvmap :=
  match o with
  | Add k v =>
      match M !! k with
      | None => (0, <[k := v]> M)
      | Some w => (if w =? 0 then 0 else 1, M)
      end
  | Find k => (find_result M k, M)
  | Del k => (0, M)
  end.

Fixpoint bsdtree_ops (os : list op) (M : kvmap) : list Z * kvmap :=
  match os with
  | [] => ([], M)
  | o :: os => let '(x, M1) := bsdtree_op o M in let '(xs, M2) := bsdtree_ops os M1 in (x :: xs, M2)
  end.

Definition op_key (o : op) : list Z := match o with Add k _ | Find k | Del k => k end.

Lemma bsdtree_op_run `{A : Allocator rblock} `{!AllocSpec A} `{!AllocTotal A} fr obj M m o :
  bst fr obj M m → key_ok (op_key o) →
  ∃ fr' m', run_op obj o m = Done ((bsdtree_op o M).1, m') ∧ bst fr' obj (bsdtree_op o M).2 m'.
Proof.
  intros Hb Hk. destruct o as [k v|k|k]; cbn in *.
  - pose proof (bst_add_run _ _ _ _ _ v Hb Hk) as Hspec. destruct (M !! k) as [w|].
    + destruct (w =? 0); cbn.
      * destruct Hspec as (a & b & m1 & Hrun & _ & _ & _ & Hb'). by exists (<[a := b]> fr), m1.
      * by exists fr, m.
    + destruct Hspec as (m1 & Hrun & Hb'). by exists fr, m1.
  - exists fr, m. split; [|done]. destruct Hb as (t & Hb & <-). rewrite (bst_find_run _ _ _ _ _ Hb (proj1 Hk)).
    unfold find_result. by destruct (t_map t !! k).
  - by exists fr, m.
Qed.

(** Claim C19: any sequence of [add], [find] and [del] calls returns what the
    map operations of [bsdtree_op] return: a finite map from which nothing can
    be deleted, and in which a key bound to null counts as absent. *)
Theorem bsdtree_refines_map `{A : Allocator rblock} `{!AllocSpec A} `{!AllocTotal A} fr obj M m os :
  bst fr obj M m → Forall (λ o, key_ok (op_key o)) os →
  ∃ fr' m', run_ops obj os m = Done ((bsdtree_ops os M).1, m') ∧
    bst fr' obj (bsdtree_ops os M).2 m'.
Proof.
  intros Hb Hos. revert fr M m Hb. induction Hos as [|o os Ho _ IH]; intros fr M m Hb.
  { by exists fr, m. }
  cbn [run_ops bsdtree_ops]. destruct (bsdtree_op_run _ _ _ _ o Hb Ho) as (fr1 & m1 & Hrun & Hb1).
  destruct (bsdtree_op o M) as [x M1]. cbn in Hrun, Hb1. run_to Hrun.
  destruct (IH _ _ _ Hb1) as (fr2 & m2 & Hrun2 & Hb2). destruct (bsdtree_ops os M1) as [xs M2].
  cbn in Hrun2, Hb2 |- *. run_to Hrun2. by exists fr2, m2.
Qed.

Lemma bsdtree_refines_map_witness :
  ∃ fr' m', run_ops 16 [Add [97] 5; Del [97]; Find [97]; Add [97] 6; Find [98]] empty_heap =
      Done ([0; 0; 5; 1; 0], m') ∧ bst fr' 16 {[ [97] := 5 ]} m'.
Proof.
  apply (bsdtree_refines_map ∅ 16 ∅ empty_heap
    [Add [97] 5; Del [97]; Find [97]; Add [97] 6; Find [98]] empty_bst).
  by repeat constructor.
Defined.
