(* ===== verification/SplTree.v ===== *)
(** * SplTree: the splay trees of tree.h

    SPLAY_GENERATE generates a top-down splay: the path to the key is taken
    apart into a tree of smaller and a tree of larger elements, which hang off
    a local element [__node], and assembled again around the last element
    reached.  The model keeps a heap of two kinds of block, the tree head and
    the elements with their keys, for any comparison function [cmp] of keys;
    every macro and every generated function is a command over it, in the order
    of the C statements.  The copies of a macro that differ only by exchanging
    left and right are one command with the side as an argument ([dir]).
    [__node] is in no heap block: a pointer to an element that can be [&__node]
    is a [place], and its two links are a value.  Loops take the number of live
    blocks as fuel. *)

From S2P Require Import Prelude.

(** ** Data *)

Inductive dir := DL | DR.
#[export] Instance dir_eq_dec : EqDecision dir.
Proof. solve_decision. Defined.

Definition opp (d : dir) : dir := match d with DL => DR | DR => DL end.

(** [SPLAY_ENTRY]. *)
Record spl_entry := Spe { spe_left : Z; spe_right : Z }.

Definition link_of (d : dir) (e : spl_entry) : Z :=
  match d with DL => spe_left e | DR => spe_right e end.
Definition set_link (d : dir) (p : Z) (e : spl_entry) : spl_entry :=
  match d with DL => Spe p (spe_right e) | DR => Spe (spe_left e) p end.

(** A [struct name], i.e. the pointer [sph_root], or an element. *)
Inductive sblock (K : Type) :=
  | SHead (sph_root : Z)
  | SElem (e : spl_entry) (k : K).
Arguments SHead {K}.
Arguments SElem {K}.

(** [&__node] or an element of the heap. *)
Inductive place := Node | At (a : Z).

Definition SPLAY_NEGINF : Z := -1.
Definition SPLAY_INF : Z := 1.

Section code.
Context {K : Type} (cmp : K → K → Z).
Notation sheap := (gmap Z (sblock K)).

Definition live_blocks : cmd sheap nat := m ← get_state; mret (size m).

Definition SPLAY_ROOT (head : Z) : cmd sheap Z := λ m,
  match m !! head with Some (SHead r) => Done (r, m) | _ => Undef end.
Definition SET_ROOT (head p : Z) : cmd sheap unit := λ m,
  match m !! head with Some (SHead _) => Done (tt, <[head := SHead p]> m) | _ => Undef end.

(** [SPLAY_LEFT] and [SPLAY_RIGHT]. *)
Definition SPLAY_LINK (d : dir) (a : Z) : cmd sheap Z := λ m,
  match m !! a with Some (SElem e _) => Done (link_of d e, m) | _ => Undef end.
Definition SET_LINK (d : dir) (a p : Z) : cmd sheap unit := λ m,
  match m !! a with Some (SElem e k) => Done (tt, <[a := SElem (set_link d p e) k]> m) | _ => Undef end.
Definition load_key (a : Z) : cmd sheap K := λ m,
  match m !! a with Some (SElem _ k) => Done (k, m) | _ => Undef end.

(** A store through a pointer that may be [&__node]; the links of [__node]. *)
Definition SET_PLACE (d : dir) (p : place) (v : Z) (node : spl_entry) : cmd sheap spl_entry :=
  match p with
  | Node => mret (set_link d v node)
  | At a => _ ← SET_LINK d a v; mret node
  end.

(** [(cmp)(elm, x)]. *)
Definition compare (elm x : Z) : cmd sheap Z :=
  k ← load_key elm; k' ← load_key x; mret (cmp k k').

Definition SPLAY_INIT (root : Z) : cmd sheap unit := SET_ROOT root 0.
Definition SPLAY_EMPTY (head : Z) : cmd sheap bool := r ← SPLAY_ROOT head; mret (r =? 0).

(** ** The macros *)

(** [SPLAY_ROTATE_RIGHT] is [SPLAY_ROTATE DR]: [tmp] is on the other side. *)
Definition SPLAY_ROTATE (d : dir) (head tmp : Z) : cmd sheap unit :=
  x ← SPLAY_LINK d tmp;
  r ← SPLAY_ROOT head;
  _ ← SET_LINK (opp d) r x;
  r ← SPLAY_ROOT head;
  _ ← SET_LINK d tmp r;
  SET_ROOT head tmp.

(** [SPLAY_LINKLEFT] is [SPLAY_LINKTO DL]; the new [tmp] and [__node]. *)
Definition SPLAY_LINKTO (d : dir) (head : Z) (tmp : place) (node : spl_entry)
    : cmd sheap (place * spl_entry) :=
  r ← SPLAY_ROOT head;
  node ← SET_PLACE d tmp r node;
  r ← SPLAY_ROOT head;
  x ← SPLAY_LINK d r;
  _ ← SET_ROOT head x;
  mret (At r, node).

Definition SPLAY_ASSEMBLE (head : Z) (node : spl_entry) (lp rp : place) : cmd sheap unit :=
  r ← SPLAY_ROOT head;
  x ← SPLAY_LINK DL r;
  node ← SET_PLACE DR lp x node;
  r ← SPLAY_ROOT head;
  x ← SPLAY_LINK DR r;
  node ← SET_PLACE DL rp x node;
  r ← SPLAY_ROOT head;
  _ ← SET_LINK DL r (link_of DR node);
  r ← SPLAY_ROOT head;
  SET_LINK DR r (link_of DL node).

(** ** Splaying *)

(** [__comp < 0] on the left, [__comp > 0] on the right. *)
Definition on_side (d : dir) (c : Z) : bool := match d with DL => c <? 0 | DR => 0 <? c end.

(** One turn of a loop towards side [d], where [again] says whether the next
    element is passed, too; [None] where the loop is left by [break]. *)
Definition splay_turn (d : dir) (head : Z) (again : Z → cmd sheap bool) (p : place) (node : spl_entry)
    : cmd sheap (option (place * spl_entry)) :=
  r ← SPLAY_ROOT head;
  tmp ← SPLAY_LINK d r;
  if tmp =? 0 then mret None
  else
    c ← again tmp;
    stop ← (if (c : bool) then
              _ ← SPLAY_ROTATE (opp d) head tmp;
              r ← SPLAY_ROOT head;
              x ← SPLAY_LINK d r;
              mret (x =? 0)
            else mret false);
    if (stop : bool) then mret None
    else q ← SPLAY_LINKTO d head p node; mret (Some q).

Fixpoint splay_loop (fuel : nat) (head elm : Z) (node : spl_entry) (lp rp : place)
    : cmd sheap (spl_entry * place * place) :=
  match fuel with
  | O => nofuel
  | S fuel =>
      r ← SPLAY_ROOT head;
      comp ← compare elm r;
      if comp <? 0 then
        o ← splay_turn DL head (λ tmp, c ← compare elm tmp; mret (c <? 0)) rp node;
        match o with
        | None => mret (node, lp, rp)
        | Some (rp, node) => splay_loop fuel head elm node lp rp
        end
      else if 0 <? comp then
        o ← splay_turn DR head (λ tmp, c ← compare elm tmp; mret (0 <? c)) lp node;
        match o with
        | None => mret (node, lp, rp)
        | Some (lp, node) => splay_loop fuel head elm node lp rp
        end
      else mret (node, lp, rp)
  end.

Definition SPLAY (head elm : Z) : cmd sheap unit :=
  fuel ← live_blocks;
  '(node, lp, rp) ← splay_loop (S fuel) head elm (Spe 0 0) Node Node;
  SPLAY_ASSEMBLE head node lp rp.

Fixpoint minmax_loop (fuel : nat) (head comp : Z) (node : spl_entry) (lp rp : place)
    : cmd sheap (spl_entry * place * place) :=
  match fuel with
  | O => nofuel
  | S fuel =>
      if comp <? 0 then
        o ← splay_turn DL head (λ _, mret (comp <? 0)) rp node;
        match o with
        | None => mret (node, lp, rp)
        | Some (rp, node) => minmax_loop fuel head comp node lp rp
        end
      else if 0 <? comp then
        o ← splay_turn DR head (λ _, mret (0 <? comp)) lp node;
        match o with
        | None => mret (node, lp, rp)
        | Some (lp, node) => minmax_loop fuel head comp node lp rp
        end
      else minmax_loop fuel head comp node lp rp
  end.

Definition SPLAY_MINMAX (head comp : Z) : cmd sheap unit :=
  fuel ← live_blocks;
  '(node, lp, rp) ← minmax_loop (S fuel) head comp (Spe 0 0) Node Node;
  SPLAY_ASSEMBLE head node lp rp.

(** ** Operations *)

Definition SPLAY_INSERT (head elm : Z) : cmd sheap Z :=
  e ← SPLAY_EMPTY head;
  if (e : bool) then
    _ ← SET_LINK DR elm 0;
    _ ← SET_LINK DL elm 0;
    _ ← SET_ROOT head elm;
    mret 0
  else
    _ ← SPLAY head elm;
    r ← SPLAY_ROOT head;
    comp ← compare elm r;
    if comp <? 0 then
      x ← SPLAY_LINK DL r;
      _ ← SET_LINK DL elm x;
      _ ← SET_LINK DR elm r;
      _ ← SET_LINK DL r 0;
      _ ← SET_ROOT head elm;
      mret 0
    else if 0 <? comp then
      x ← SPLAY_LINK DR r;
      _ ← SET_LINK DR elm x;
      _ ← SET_LINK DL elm r;
      _ ← SET_LINK DR r 0;
      _ ← SET_ROOT head elm;
      mret 0
    else mret r.

Definition SPLAY_REMOVE (head elm : Z) : cmd sheap Z :=
  e ← SPLAY_EMPTY head;
  if (e : bool) then mret 0
  else
    _ ← SPLAY head elm;
    r ← SPLAY_ROOT head;
    comp ← compare elm r;
    if comp =? 0 then
      l ← SPLAY_LINK DL r;
      x ← SPLAY_LINK DR r;
      if l =? 0 then _ ← SET_ROOT head x; mret elm
      else
        _ ← SET_ROOT head l;
        _ ← SPLAY head elm;
        r ← SPLAY_ROOT head;
        _ ← SET_LINK DR r x;
        mret elm
    else mret 0.

Definition SPLAY_FIND (head elm : Z) : cmd sheap Z :=
  e ← SPLAY_EMPTY head;
  if (e : bool) then mret 0
  else
    _ ← SPLAY head elm;
    r ← SPLAY_ROOT head;
    comp ← compare elm r;
    if comp =? 0 then mret r else mret 0.

Fixpoint leftmost_loop (fuel : nat) (elm : Z) : cmd sheap Z :=
  match fuel with
  | O => nofuel
  | S fuel => l ← SPLAY_LINK DL elm; if l =? 0 then mret elm else leftmost_loop fuel l
  end.

Definition SPLAY_NEXT (head elm : Z) : cmd sheap Z :=
  _ ← SPLAY head elm;
  r ← SPLAY_LINK DR elm;
  if r =? 0 then mret 0 else fuel ← live_blocks; leftmost_loop (S fuel) r.

Definition SPLAY_MIN_MAX (head val : Z) : cmd sheap Z := _ ← SPLAY_MINMAX head val; SPLAY_ROOT head.

Definition SPLAY_MIN (head : Z) : cmd sheap Z :=
  e ← SPLAY_EMPTY head; if (e : bool) then mret 0 else SPLAY_MIN_MAX head SPLAY_NEGINF.
Definition SPLAY_MAX (head : Z) : cmd sheap Z :=
  e ← SPLAY_EMPTY head; if (e : bool) then mret 0 else SPLAY_MIN_MAX head SPLAY_INF.

(** [SPLAY_FOREACH]: the elements it visits. *)
Fixpoint foreach_loop (fuel : nat) (head x : Z) : cmd sheap (list Z) :=
  match fuel with
  | O => nofuel
  | S fuel =>
      if x =? 0 then mret []
      else
        y ← SPLAY_NEXT head x;
        l ← foreach_loop fuel head y;
        mret (x :: l)
  end.
Definition SPLAY_FOREACH (head : Z) : cmd sheap (list Z) :=
  x ← SPLAY_MIN head;
  fuel ← live_blocks;
  foreach_loop (S fuel) head x.
End code.
