(* ===== verification/SplShape.v ===== *)
(** * SplShape: splay trees as values

    Trees, their in-order lists, and the two trees a splay takes apart: a list
    of frames, from the outermost to the one that ends in the hole ([asm]).
    [ordered] is the order of the elements under a comparison function that
    meets [CmpSpec]. *)

From stdpp Require Import sorting.
From S2P Require Import Prelude.
From S2P Require Import SplTree.

(** ** Trees *)

Record snode (K : Type) := Sn { s_at : Z; s_key : K }.
Arguments Sn {K}.
Arguments s_at {K}.
Arguments s_key {K}.

#[export] Instance snode_eq_dec {K} `{EqDecision K} : EqDecision (snode K).
Proof. solve_decision. Defined.

Inductive stree (K : Type) := E | T (l : stree K) (x : snode K) (r : stree K).
Arguments E {K}.
Arguments T {K}.

(** The laws of a comparison function: a total preorder. *)
Class CmpSpec {K} (cmp : K → K → Z) : Prop := {
  cmp_anti a b : Z.sgn (cmp b a) = - Z.sgn (cmp a b);
  cmp_trans a b c : cmp a b ≤ 0 → cmp b c ≤ 0 → cmp a c ≤ 0;
}.

Section shape.
Context {K : Type}.
Implicit Types (t s l r : stree K) (x y z : snode K) (d : dir) (fs : list (snode K * stree K)).

(** The tree with [t] on side [d]. *)
Definition mk d t x s : stree K := match d with DL => T t x s | DR => T s x t end.

Lemma mk_opp d t x s : mk (opp d) s x t = mk d t x s.
Proof. by destruct d. Qed.

Lemma spl_mk_cases d t : t = E ∨ ∃ l x r, t = mk d l x r.
Proof. destruct t as [|l x r]; [by left|right]. destruct d; [by exists l, x, r|by exists r, x, l]. Qed.

Lemma mk_ne d t x s : mk d t x s ≠ E.
Proof. by destruct d. Qed.

Fixpoint ents t : list (snode K) := match t with E => [] | T l x r => ents l ++ x :: ents r end.

Lemma ents_mk d t x s :
  ents (mk d t x s) = match d with DL => ents t ++ x :: ents s | DR => ents s ++ x :: ents t end.
Proof. by destruct d. Qed.

Lemma ents_mk_perm d t x s : ents (mk d t x s) ≡ₚ x :: ents t ++ ents s.
Proof. rewrite ents_mk. destruct d; rewrite <-Permutation_middle; [done|]. by rewrite Permutation_app_comm. Qed.

Lemma ents_nil t : ents t = [] → t = E.
Proof. destruct t as [|l x r]; [done|]. cbn. by destruct (ents l). Qed.

(** ** Frames *)

(** The frames of a tree whose hole is on side [d] of the last of them. *)
Fixpoint asm d fs t : stree K :=
  match fs with [] => t | (x, s) :: fs => mk d (asm d fs t) x s end.

Definition ends d fs : list (snode K) := ents (asm d fs E).

Lemma asm_app d fs1 fs2 t : asm d (fs1 ++ fs2) t = asm d fs1 (asm d fs2 t).
Proof. induction fs1 as [|[x s] fs1 IH]; cbn; [done|]. by rewrite IH. Qed.

Lemma ents_asm d fs t :
  ents (asm d fs t) = match d with DL => ents t ++ ends DL fs | DR => ends DR fs ++ ents t end.
Proof.
  unfold ends. induction fs as [|[x s] fs IH]; cbn; [destruct d; [by rewrite app_nil_r|done]|].
  destruct d; cbn in *; rewrite IH.
  - by rewrite <-app_assoc.
  - by rewrite <-app_assoc.
Qed.

Lemma ends_snoc d fs x s :
  ends d (fs ++ [(x, s)]) =
  match d with DL => (x :: ents s) ++ ends DL fs | DR => ends DR fs ++ ents s ++ [x] end.
Proof. unfold ends at 1. rewrite asm_app, ents_asm. by destruct d. Qed.

Lemma ends_snoc_perm d fs x s : ends d (fs ++ [(x, s)]) ≡ₚ x :: ents s ++ ends d fs.
Proof. rewrite ends_snoc. destruct d; [done|]. by rewrite <-Permutation_cons_append, Permutation_app_comm. Qed.

Lemma ends_cons_perm d fs x s : ends d ((x, s) :: fs) ≡ₚ x :: ents s ++ ends d fs.
Proof. unfold ends. cbn [asm]. rewrite ents_mk_perm. by rewrite (Permutation_app_comm (ents s)). Qed.

(** Everything, from the least element to the greatest, while a tree is taken
    apart: the frames of the smaller elements are [F DR]. *)
Definition whole (F : dir → list (snode K * stree K)) t : list (snode K) :=
  ends DR (F DR) ++ ents t ++ ends DL (F DL).

Lemma whole_perm F t d : whole F t ≡ₚ ends d (F d) ++ ends (opp d) (F (opp d)) ++ ents t.
Proof. unfold whole. destruct d; cbn; solve_Permutation. Qed.

(** A frame is added. *)
Definition add_frame (F : dir → list (snode K * stree K)) d x s : dir → list (snode K * stree K) :=
  λ e, if decide (e = d) then F d ++ [(x, s)] else F e.

Lemma add_frame_eq F d x s : add_frame F d x s d = F d ++ [(x, s)].
Proof. unfold add_frame. by rewrite decide_True. Qed.

Lemma add_frame_ne F d x s e : e ≠ d → add_frame F d x s e = F e.
Proof. intros. unfold add_frame. by rewrite decide_False. Qed.

Lemma whole_add_frame F d t x s : whole (add_frame F d x s) t = whole F (mk d t x s).
Proof.
  unfold whole. destruct d; rewrite add_frame_eq, add_frame_ne, ends_snoc by done; cbn;
    rewrite <-!app_assoc; cbn; done.
Qed.

(** The rotation. *)
Lemma ents_rotate d t y u x s : ents (mk d t y (mk d u x s)) = ents (mk d (mk d t y u) x s).
Proof. destruct d; cbn; by rewrite <-!app_assoc. Qed.

Lemma whole_ents F t t' : ents t = ents t' → whole F t = whole F t'.
Proof. unfold whole. by intros ->. Qed.

(** The tree put together around its root. *)
Definition assembled (F : dir → list (snode K * stree K)) l x r : stree K :=
  T (asm DR (F DR) l) x (asm DL (F DL) r).

Lemma ents_assembled F l x r : ents (assembled F l x r) = whole F (T l x r).
Proof. unfold assembled, whole. cbn. rewrite !ents_asm, <-!app_assoc. done. Qed.

(** ** Order *)

Section order.
Context (cmp : K → K → Z) `{!CmpSpec cmp}.

Definition ordered (L : list (snode K)) : Prop := StronglySorted (λ x y, cmp (s_key x) (s_key y) < 0) L.

Lemma cmp_self a : cmp a a = 0.
Proof. pose proof (cmp_anti a a) as H. destruct (Z.sgn_spec (cmp a a)) as [[? ?]|[[? ?]|[? ?]]]; lia. Qed.

Lemma cmp_neg a b : cmp b a < 0 ↔ 0 < cmp a b.
Proof.
  pose proof (cmp_anti a b) as H.
  destruct (Z.sgn_spec (cmp a b)) as [[? ?]|[[? ?]|[? ?]]], (Z.sgn_spec (cmp b a)) as [[? ?]|[[? ?]|[? ?]]]; lia.
Qed.

Lemma cmp_zero a b : cmp b a = 0 ↔ cmp a b = 0.
Proof. pose proof (cmp_neg a b). pose proof (cmp_neg b a). lia. Qed.

Lemma cmp_lt_le a b c : cmp a b < 0 → cmp b c ≤ 0 → cmp a c < 0.
Proof.
  intros Hab Hbc. assert (cmp a c ≤ 0) by (apply (cmp_trans a b c); lia).
  destruct (decide (cmp a c = 0)) as [H0|]; [|lia]. exfalso.
  apply cmp_zero in H0. assert (cmp b a ≤ 0) by (apply (cmp_trans b c a); lia). apply cmp_neg in Hab. lia.
Qed.

Lemma cmp_le_lt a b c : cmp a b ≤ 0 → cmp b c < 0 → cmp a c < 0.
Proof.
  intros Hab Hbc. assert (cmp a c ≤ 0) by (apply (cmp_trans a b c); lia).
  destruct (decide (cmp a c = 0)) as [H0|]; [|lia]. exfalso.
  apply cmp_zero in H0. assert (cmp c b ≤ 0) by (apply (cmp_trans c a b); lia). apply cmp_neg in Hbc. lia.
Qed.

(** The elements on side [d] of which [k] is. *)
Definition beyond d (k : K) x : Prop := on_side d (cmp k (s_key x)) = true.

Lemma ordered_app L1 L2 :
  ordered (L1 ++ L2) ↔ ordered L1 ∧ ordered L2 ∧ ∀ x y, x ∈ L1 → y ∈ L2 → cmp (s_key x) (s_key y) < 0.
Proof.
  unfold ordered. induction L1 as [|x L1 IH]; cbn.
  - split; [|tauto]. intros H. split; [constructor|]. split; [done|]. by intros ? ? ?%elem_of_nil.
  - split.
    + intros [Hs Hf]%StronglySorted_inv. apply IH in Hs as (H1 & H2 & H12).
      apply Forall_app in Hf as [Hf1 Hf2]. split; [by constructor|]. split; [done|].
      intros a b [-> | Ha]%elem_of_cons Hb; [by eapply (proj1 (Forall_forall _ _) Hf2)|by apply H12].
    + intros (H1 & H2 & H12). destruct (StronglySorted_inv H1) as [Hs Hf]. constructor.
      * apply IH. split; [done|]. split; [done|]. intros a b Ha Hb. apply H12; [|done]. apply elem_of_cons. by right.
      * apply Forall_app. split; [done|]. apply Forall_forall. intros b Hb. apply H12; [|done]. apply elem_of_cons. by left.
Qed.

(** What lies past an element that [k] does not reach, [k] does not reach. *)
Lemma beyond_past d k x s :
  ordered (ents (mk d E x s)) → beyond d k x → Forall (beyond d k) (x :: ents s).
Proof.
  intros Ho Hx. constructor; [done|]. apply Forall_forall. intros y Hy. unfold beyond, on_side in *.
  destruct d; cbn in Ho.
  - apply (ordered_app [x]) in Ho as (_ & _ & Hxy). specialize (Hxy x y (list_elem_of_here _ _) Hy).
    apply Z.ltb_lt in Hx. apply Z.ltb_lt. apply cmp_lt_le with (s_key x); [done|lia].
  - apply ordered_app in Ho as (_ & _ & Hxy). specialize (Hxy y x Hy (list_elem_of_here _ _)).
    apply Z.ltb_lt in Hx. apply Z.ltb_lt. apply cmp_neg. apply cmp_lt_le with (s_key x); [done|].
    apply cmp_neg in Hx. lia.
Qed.
End order.
End shape.
