(* ===== verification/SplMem.v ===== *)
(** * SplMem: the memory of a splay tree

    The links of the elements are a function [Lk] of address and side, so that
    a store changes it at one point ([upd_link]).  [shape] says that a tree is
    linked from a pointer, [spine] that the frames of a tree with a hole are.
    [splaying] is the state of a splay: the tree under the head and the two
    trees that hang off [__node]. *)

From S2P Require Import Prelude.
From S2P Require Import Own.
From S2P Require Import SplTree.
From S2P Require Import SplShape.

(** ** Links *)

Notation links := (Z → dir → Z).

Definition upd_link (Lk : links) (a : Z) (d : dir) (v : Z) : links :=
  λ b e, if decide (b = a ∧ e = d) then v else Lk b e.

Lemma upd_link_eq Lk a d v : upd_link Lk a d v a d = v.
Proof. unfold upd_link. by rewrite decide_True. Qed.

Lemma upd_link_ne Lk a d v b e : b ≠ a ∨ e ≠ d → upd_link Lk a d v b e = Lk b e.
Proof. intros. unfold upd_link. rewrite decide_False; [done|]. tauto. Qed.

Lemma opp_ne d : opp d ≠ d.
Proof. by destruct d. Qed.

Lemma link_of_set d p e : link_of d (set_link d p e) = p.
Proof. by destruct d. Qed.

Lemma link_of_set_opp d p e : link_of (opp d) (set_link d p e) = link_of (opp d) e.
Proof. by destruct d. Qed.

Section mem.
Context {K : Type}.
Implicit Types (Lk : links) (t s l r : stree K) (x y z : snode K) (d e : dir).
Implicit Types (fs : list (snode K * stree K)) (xs : list (snode K)).
Notation sheap := (gmap Z (sblock K)).
Notation addrs xs := (s_at <$> xs).

Definition ptr t : Z := match t with E => 0 | T _ x _ => s_at x end.

Lemma spl_ptr_mk d t x s : ptr (mk d t x s) = s_at x.
Proof. by destruct d. Qed.

(** [t] is linked from the pointer [a]. *)
Fixpoint shape Lk t (a : Z) : Prop :=
  match t with
  | E => a = 0
  | T l x r => a = s_at x ∧ shape Lk l (Lk a DL) ∧ shape Lk r (Lk a DR)
  end.

Lemma shape_mk Lk d t x s a :
  shape Lk (mk d t x s) a ↔ a = s_at x ∧ shape Lk t (Lk a d) ∧ shape Lk s (Lk a (opp d)).
Proof. destruct d; cbn; tauto. Qed.

Lemma shape_ptr Lk t a : shape Lk t a → a = ptr t.
Proof. destruct t; cbn; tauto. Qed.

Lemma shape_ext Lk Lk' t a :
  (∀ x e, x ∈ ents t → Lk' (s_at x) e = Lk (s_at x) e) → shape Lk t a → shape Lk' t a.
Proof.
  revert a. induction t as [|l IHl x r IHr]; intros a He; [done|]. cbn. intros (-> & Hl & Hr).
  rewrite !He by (cbn; apply elem_of_app; right; apply elem_of_cons; by left). split; [done|]. split.
  - apply IHl; [|done]. intros y e Hy. apply He. cbn. apply elem_of_app. by left.
  - apply IHr; [|done]. intros y e Hy. apply He. cbn. apply elem_of_app. right. apply elem_of_cons. by right.
Qed.

(** The frames [fs] are linked from [p], and [q] is in the hole. *)
Fixpoint spine Lk d fs (p q : Z) : Prop :=
  match fs with
  | [] => p = q
  | (x, s) :: fs => p = s_at x ∧ shape Lk s (Lk p (opp d)) ∧ spine Lk d fs (Lk p d) q
  end.

Lemma spine_asm Lk d fs p q t : spine Lk d fs p q → shape Lk t q → shape Lk (asm d fs t) p.
Proof.
  revert p. induction fs as [|[x s] fs IH]; intros p; cbn [spine asm]; [by intros ->|].
  intros (-> & Hs & Hsp) Ht. apply shape_mk. split; [done|]. split; [by apply IH|done].
Qed.

Lemma spine_snoc Lk d fs p x s :
  spine Lk d fs p (s_at x) → shape Lk s (Lk (s_at x) (opp d)) →
  spine Lk d (fs ++ [(x, s)]) p (Lk (s_at x) d).
Proof.
  revert p. induction fs as [|[y u] fs IH]; intros p; cbn [spine app]; [by intros ->|].
  intros (-> & Hu & Hsp) Hs. split; [done|]. split; [done|]. by apply IH.
Qed.

Lemma spine_ext Lk Lk' d fs p q :
  (∀ x e, x ∈ ends d fs → Lk' (s_at x) e = Lk (s_at x) e) → spine Lk d fs p q → spine Lk' d fs p q.
Proof.
  revert p. induction fs as [|[x s] fs IH]; intros p He; [done|]. cbn [spine].
  assert (∀ y e, y = x ∨ y ∈ ents s ∨ y ∈ ends d fs → Lk' (s_at y) e = Lk (s_at y) e) as He'.
  { intros y e Hy. apply He. rewrite ends_cons_perm. rewrite elem_of_cons, elem_of_app. tauto. }
  intros (-> & Hs & Hsp). rewrite !He' by tauto. split; [done|]. split.
  - eapply shape_ext; [|exact Hs]. intros y e Hy. apply He'. tauto.
  - apply IH; [|done]. intros y e Hy. apply He'. tauto.
Qed.

(** Where the hole of [fs] is. *)
Definition hole fs : place := match last fs with None => Node | Some (x, _) => At (s_at x) end.

Lemma hole_snoc fs x s : hole (fs ++ [(x, s)]) = At (s_at x).
Proof. unfold hole. by rewrite last_snoc. Qed.

(** A pointer is put into the hole. *)
Lemma spine_set Lk d fs x s v p q :
  NoDup (addrs (ends d (fs ++ [(x, s)]))) → spine Lk d (fs ++ [(x, s)]) p q →
  spine (upd_link Lk (s_at x) d v) d (fs ++ [(x, s)]) p v.
Proof.
  revert p. induction fs as [|[y u] fs IH]; intros p Hnd; cbn [app spine].
  - intros (-> & Hs & _). rewrite upd_link_eq. rewrite upd_link_ne by (right; apply opp_ne).
    split; [done|]. split; [|done]. eapply shape_ext; [|exact Hs]. intros y e Hy. apply upd_link_ne. left.
    cbn [app] in Hnd. rewrite ends_cons_perm in Hnd. cbn [fmap list_fmap] in Hnd. apply NoDup_cons in Hnd as [Hnin _].
    intros Heq. apply Hnin. rewrite <-Heq. apply (list_elem_of_fmap_2 s_at), elem_of_app. by left.
  - intros (-> & Hu & Hsp). cbn [app] in Hnd. rewrite ends_cons_perm, fmap_cons, fmap_app in Hnd.
    apply NoDup_cons in Hnd as [Hy Hnd]. apply NoDup_app in Hnd as (_ & Hdis & Hnd).
    assert (s_at x ∈ addrs (ends d (fs ++ [(x, s)]))) as Hx.
    { apply (list_elem_of_fmap_2 s_at). rewrite ends_snoc_perm. apply elem_of_cons. by left. }
    assert (s_at y ≠ s_at x) as Hyx by (intros Heq; apply Hy, elem_of_app; right; by rewrite Heq).
    rewrite !upd_link_ne by by left. split; [done|]. split; [|by apply IH].
    eapply shape_ext; [|exact Hu]. intros z e Hz. apply upd_link_ne. left. intros Heq.
    apply (Hdis (s_at x)); [|done]. rewrite <-Heq. by apply (list_elem_of_fmap_2 s_at).
Qed.

(** ** Blocks *)

Definition scell Lk x : Z * sblock K := (s_at x, SElem (Spe (Lk (s_at x) DL) (Lk (s_at x) DR)) (s_key x)).

Section smem.
Context (head : Z) (fr : sheap).
Implicit Types (m : sheap).

Definition smem (rt : Z) Lk xs m : Prop :=
  owns ((head, SHead rt) :: (scell Lk <$> xs)) fr m ∧ ∀ x, x ∈ xs → s_at x ≠ 0.

Lemma smem_nodup rt Lk xs m : smem rt Lk xs m → NoDup (addrs xs).
Proof. intros [(Hnd & _ & _) _]. cbn in Hnd. apply NoDup_cons in Hnd as [_ Hnd]. by rewrite <-list_fmap_compose in Hnd. Qed.

Lemma smem_perm rt Lk xs xs' m : xs ≡ₚ xs' → smem rt Lk xs m → smem rt Lk xs' m.
Proof. intros Hp [Ho Hn]. split; [by rewrite <-Hp|]. intros x. rewrite <-Hp. apply Hn. Qed.

Lemma smem_size rt Lk xs m : smem rt Lk xs m → (length xs < size m)%nat.
Proof. intros [Ho _]. apply owns_size in Ho. cbn in Ho. rewrite length_fmap in Ho. lia. Qed.

Lemma smem_lookup rt Lk xs m x :
  smem rt Lk xs m → x ∈ xs → m !! s_at x = Some (SElem (Spe (Lk (s_at x) DL) (Lk (s_at x) DR)) (s_key x)).
Proof.
  intros [Ho _] Hx. eapply owns_lookup; [exact Ho|]. apply elem_of_cons. right.
  by apply (list_elem_of_fmap_2 (scell Lk)).
Qed.

Lemma SPLAY_ROOT_run rt Lk xs m : smem rt Lk xs m → SPLAY_ROOT head m = Done (rt, m).
Proof. intros [Ho _]. unfold SPLAY_ROOT. by rewrite (owns_lookup_hd _ _ _ _ _ Ho). Qed.

Lemma SPL_SET_ROOT_run rt rt' Lk xs m :
  smem rt Lk xs m → ∃ m', SET_ROOT head rt' m = Done (tt, m') ∧ smem rt' Lk xs m'.
Proof.
  intros [Ho Hn]. unfold SET_ROOT. rewrite (owns_lookup_hd _ _ _ _ _ Ho). eexists. split; [done|].
  split; [|done]. by eapply owns_store.
Qed.

Lemma SPLAY_LINK_run rt Lk xs m d x : smem rt Lk xs m → x ∈ xs → SPLAY_LINK d (s_at x) m = Done (Lk (s_at x) d, m).
Proof. intros Hm Hx. unfold SPLAY_LINK. rewrite (smem_lookup _ _ _ _ _ Hm Hx). by destruct d. Qed.

Lemma spl_load_key_run rt Lk xs m x : smem rt Lk xs m → x ∈ xs → load_key (s_at x) m = Done (s_key x, m).
Proof. intros Hm Hx. unfold load_key. by rewrite (smem_lookup _ _ _ _ _ Hm Hx). Qed.

Lemma compare_run (cmp : K → K → Z) rt Lk xs m x y :
  smem rt Lk xs m → x ∈ xs → y ∈ xs → compare cmp (s_at x) (s_at y) m = Done (cmp (s_key x) (s_key y), m).
Proof.
  intros Hm Hx Hy. unfold compare. run_to (spl_load_key_run _ _ _ _ _ Hm Hx). by run_to (spl_load_key_run _ _ _ _ _ Hm Hy).
Qed.

Lemma scells_ext Lk Lk' xs :
  (∀ x e, x ∈ xs → Lk' (s_at x) e = Lk (s_at x) e) → scell Lk' <$> xs = scell Lk <$> xs.
Proof.
  intros He. apply list_fmap_ext. intros i x Hx%list_elem_of_lookup_2. unfold scell. by rewrite !He.
Qed.

Lemma SET_LINK_run rt Lk xs m d x v :
  smem rt Lk xs m → x ∈ xs →
  ∃ m', SET_LINK d (s_at x) v m = Done (tt, m') ∧ smem rt (upd_link Lk (s_at x) d v) xs m'.
Proof.
  intros Hm Hx. unfold SET_LINK. rewrite (smem_lookup _ _ _ _ _ Hm Hx). eexists. split; [done|].
  pose proof (smem_nodup _ _ _ _ Hm) as Hnd. destruct Hm as [Ho Hn]. split; [|done].
  apply list_elem_of_split in Hx as (xs1 & xs2 & ->).
  rewrite fmap_app, fmap_cons in Ho |- *. rewrite fmap_app, fmap_cons, <-Permutation_middle in Hnd.
  apply NoDup_cons in Hnd as [Hnin _]. rewrite <-fmap_app in Hnin.
  assert (∀ y e, y ∈ xs1 ++ xs2 → upd_link Lk (s_at x) d v (s_at y) e = Lk (s_at y) e) as He.
  { intros y e Hy. apply upd_link_ne. left. intros Heq. apply Hnin. rewrite <-Heq.
    by apply (list_elem_of_fmap_2 s_at). }
  rewrite (scells_ext Lk _ xs1) by (intros; apply He, elem_of_app; by left).
  rewrite (scells_ext Lk _ xs2) by (intros; apply He, elem_of_app; by right).
  rewrite <-Permutation_middle, Permutation_swap in Ho |- *. unfold scell at 1.
  replace (Spe _ _) with (set_link d v (Spe (Lk (s_at x) DL) (Lk (s_at x) DR))); [by eapply owns_store|].
  destruct d; cbn; by rewrite upd_link_eq, upd_link_ne by by right.
Qed.
End smem.
End mem.
