(* ===== verification/SplProofs.v ===== *)
(** * SplProofs: splaying

    Each macro on the state of a splay ([splaying]), the turns of the two
    loops ([turn_run]), and SPLAY and SPLAY_MINMAX as a whole: the tree is put
    together with the same elements in the same order, around the element that
    was searched or a neighbour of it. *)

From S2P Require Import Prelude.
From S2P Require Import Own.
From S2P Require Import SplTree.
From S2P Require Import SplShape.
From S2P Require Import SplMem.

Notation addrs xs := (s_at <$> xs).

Section proofs.
Context {K : Type} (cmp : K → K → Z) `{!CmpSpec cmp}.
Context (head : Z) (fr : gmap Z (sblock K)) (xs : list (snode K)).
Implicit Types (Lk : links) (t s u l r : stree K) (x y z : snode K) (d e : dir).
Implicit Types (F : dir → list (snode K * stree K)) (node : spl_entry) (m : gmap Z (sblock K)).

Lemma opp_opp d : opp (opp d) = d.
Proof. by destruct d. Qed.

Lemma addr_ne x z (L : list (snode K)) : NoDup (addrs (x :: L)) → z ∈ L → s_at z ≠ s_at x.
Proof.
  cbn. intros [Hnin _]%NoDup_cons Hz Heq. apply Hnin. rewrite <-Heq. by apply (list_elem_of_fmap_2 s_at).
Qed.

Lemma whole_mk F d t x s :
  whole F (mk d t x s) ≡ₚ x :: ents t ++ ents s ++ ends DR (F DR) ++ ends DL (F DL).
Proof. unfold whole. rewrite ents_mk_perm. solve_Permutation. Qed.

Lemma in_whole F t x : x ∈ whole F t ↔ x ∈ ents t ∨ ∃ d, x ∈ ends d (F d).
Proof.
  unfold whole. rewrite !elem_of_app. split; [|intros [?|[[] ?]]; tauto].
  intros [?|[?|?]]; [|by left|]; right; eauto.
Qed.

(** The tree [t] under the head, and the frames [F] under [__node]. *)
Record splaying Lk F t node m : Prop := {
  sp_mem : smem head fr (ptr t) Lk xs m;
  sp_tree : shape Lk t (ptr t);
  sp_spine d : ∃ q, spine Lk d (F d) (link_of d node) q;
  sp_nodup : NoDup (addrs (whole F t));
  sp_in x : x ∈ whole F t → x ∈ xs;
}.

(** ** The macros *)

Lemma SPLAY_ROTATE_run Lk F d t y u x s node m :
  splaying Lk F (mk d (mk d t y u) x s) node m →
  ∃ Lk' m', SPLAY_ROTATE (opp d) head (s_at y) m = Done (tt, m') ∧
    splaying Lk' F (mk d t y (mk d u x s)) node m'.
Proof.
  intros [Hm Ht Hsp Hnd Hin]. unfold SPLAY_ROTATE. rewrite spl_ptr_mk in Hm, Ht.
  assert (whole F (mk d t y (mk d u x s)) = whole F (mk d (mk d t y u) x s)) as Hwh by apply whole_ents, ents_rotate.
  pose proof Hnd as Hndx. rewrite whole_mk in Hndx.
  assert (x ∈ xs) as Hx by (apply Hin; rewrite whole_mk; apply elem_of_cons; by left).
  assert (whole F (mk d t y (mk d u x s)) ≡ₚ y :: ents t ++ ents (mk d u x s) ++ ends DR (F DR) ++ ends DL (F DL)) as Hpy
    by apply whole_mk.
  assert (y ∈ xs) as Hy by (apply Hin; rewrite <-Hwh, Hpy; apply elem_of_cons; by left).
  pose proof Hnd as Hndy. rewrite <-Hwh, Hpy in Hndy.
  apply shape_mk in Ht as (_ & Ht & Hs). pose proof (shape_ptr _ _ _ Ht) as Hpx. rewrite spl_ptr_mk in Hpx.
  rewrite Hpx in Ht. apply shape_mk in Ht as (_ & Ht & Hu). pose proof (shape_ptr _ _ _ Hu) as Hpu.
  assert (s_at x ≠ s_at y) as Hxy.
  { apply (addr_ne _ _ _ Hndy). rewrite !elem_of_app, ents_mk_perm, elem_of_cons. tauto. }
  run_to (SPLAY_LINK_run head fr _ _ _ _ (opp d) y Hm Hy). run_to (SPLAY_ROOT_run head fr _ _ _ _ Hm).
  rewrite opp_opp. destruct (SET_LINK_run head fr _ _ _ _ d x (Lk (s_at y) (opp d)) Hm Hx) as (m1 & Hrun1 & Hm1).
  run_to Hrun1. run_to (SPLAY_ROOT_run head fr _ _ _ _ Hm1).
  destruct (SET_LINK_run head fr _ _ _ _ (opp d) y (s_at x) Hm1 Hy) as (m2 & Hrun2 & Hm2). run_to Hrun2.
  destruct (SPL_SET_ROOT_run head fr _ (s_at y) _ _ _ Hm2) as (m3 & Hrun3 & Hm3).
  set (Lk' := upd_link _ (s_at y) _ _) in Hm3. exists Lk', m3. split; [exact Hrun3|].
  assert (∀ z e, s_at z ≠ s_at x → s_at z ≠ s_at y → Lk' (s_at z) e = Lk (s_at z) e) as He.
  { intros z e Hzx Hzy. unfold Lk'. rewrite !upd_link_ne by by left. done. }
  assert (∀ z, z ∈ ents t ∨ z ∈ ents u ∨ z ∈ ents s ∨ z ∈ ends DR (F DR) ∨ z ∈ ends DL (F DL) →
    s_at z ≠ s_at x ∧ s_at z ≠ s_at y) as Hne.
  { intros z Hz. split.
    - apply (addr_ne _ _ _ Hndx). rewrite !elem_of_app, ents_mk_perm, elem_of_cons, elem_of_app. tauto.
    - apply (addr_ne _ _ _ Hndy). rewrite !elem_of_app, ents_mk_perm, elem_of_cons, elem_of_app. tauto. }
  split; rewrite ?Hwh; try done.
  - by rewrite spl_ptr_mk.
  - rewrite spl_ptr_mk. apply shape_mk. split; [done|]. split.
    + unfold Lk'. rewrite upd_link_ne by (right; intros Heq; by apply (opp_ne d)). rewrite upd_link_ne by (left; congruence).
      eapply shape_ext; [|exact Ht]. intros z e Hz. apply He; apply Hne; tauto.
    + unfold Lk' at 2. rewrite upd_link_eq. apply shape_mk. split; [done|]. unfold Lk' at 2 4.
      rewrite !(upd_link_ne _ (s_at y)) by by left. rewrite upd_link_eq, upd_link_ne by (right; apply opp_ne).
      split; (eapply shape_ext; [|eassumption]); intros z e Hz; apply He; apply Hne; tauto.
  - intros e. destruct (Hsp e) as [q Hq]. exists q. eapply spine_ext; [|exact Hq].
    intros z e' Hz. apply He; apply Hne; destruct e; tauto.
Qed.

(** A pointer is put into the hole on side [d]. *)
Lemma SET_PLACE_run Lk F d t node m v :
  splaying Lk F t node m →
  ∃ Lk' node' m', SET_PLACE d (hole (F d)) v node m = Done (node', m') ∧ smem head fr (ptr t) Lk' xs m' ∧
    spine Lk' d (F d) (link_of d node') v ∧ link_of (opp d) node' = link_of (opp d) node ∧
    ∀ z e, z ∈ ents t ∨ z ∈ ends (opp d) (F (opp d)) → Lk' (s_at z) e = Lk (s_at z) e.
Proof.
  intros [Hm Ht Hsp Hnd Hin]. destruct (Hsp d) as [q Hq]. destruct (F d) as [|[x s] fs _] eqn:HF using rev_ind.
  - exists Lk, (set_link d v node), m. split; [done|]. split; [done|]. cbn.
    by rewrite link_of_set, link_of_set_opp.
  - rewrite hole_snoc. cbn [SET_PLACE]. rewrite whole_perm, HF in Hnd.
    rewrite ends_snoc_perm in Hnd at 1.
    assert (x ∈ xs) as Hx.
    { apply Hin. rewrite whole_perm, HF. rewrite elem_of_app, ends_snoc_perm, elem_of_cons. tauto. }
    destruct (SET_LINK_run head fr _ _ _ _ d x v Hm Hx) as (m' & Hrun & Hm').
    eexists _, node, m'. split; [by run_to Hrun|]. split; [exact Hm'|]. split.
    + eapply spine_set; [|exact Hq]. rewrite ends_snoc_perm.
      rewrite !fmap_app in Hnd. rewrite fmap_cons in Hnd |- *. by apply NoDup_app in Hnd as [? _].
    + split; [done|]. intros z e Hz. apply upd_link_ne. left. cbn [app] in Hnd. apply (addr_ne _ _ _ Hnd).
      rewrite !elem_of_app. tauto.
Qed.

Lemma SPLAY_LINKTO_run Lk F d t x s node m :
  splaying Lk F (mk d t x s) node m →
  ∃ Lk' node' m', SPLAY_LINKTO d head (hole (F d)) node m = Done ((At (s_at x), node'), m') ∧
    splaying Lk' (add_frame F d x s) t node' m'.
Proof.
  intros Hs. pose proof Hs as [Hm Ht Hsp Hnd Hin]. unfold SPLAY_LINKTO. rewrite spl_ptr_mk in Hm, Ht.
  run_to (SPLAY_ROOT_run head fr _ _ _ _ Hm).
  destruct (SET_PLACE_run Lk F d _ node m (s_at x) Hs) as (Lk' & node' & m1 & Hrun1 & Hm1 & Hspd & Hopp & He).
  rewrite spl_ptr_mk in Hm1. run_to Hrun1. run_to (SPLAY_ROOT_run head fr _ _ _ _ Hm1).
  assert (x ∈ xs) as Hx by (apply Hin; rewrite whole_mk; apply elem_of_cons; by left).
  run_to (SPLAY_LINK_run head fr _ _ _ _ d x Hm1 Hx).
  apply (shape_ext Lk Lk') in Ht; [|intros; apply He; by left].
  apply shape_mk in Ht as (_ & Ht & Hss). pose proof (shape_ptr _ _ _ Ht) as Hpt.
  destruct (SPL_SET_ROOT_run head fr _ (ptr t) _ _ _ Hm1) as (m2 & Hrun2 & Hm2). rewrite Hpt. run_to Hrun2.
  exists Lk', node', m2. split; [done|]. split; rewrite ?whole_add_frame; try done.
  - by rewrite Hpt in Ht.
  - intros e. destruct (decide (e = d)) as [->|Hne].
    + exists (Lk' (s_at x) d). rewrite add_frame_eq. by apply spine_snoc.
    + rewrite add_frame_ne by done. assert (e = opp d) as -> by (by destruct d, e).
      rewrite Hopp. destruct (Hsp (opp d)) as [q Hq]. exists q. eapply spine_ext; [|exact Hq].
      intros z e Hz. apply He. by right.
Qed.

(** ** A turn *)

Lemma root_link Lk F d t x s node m :
  splaying Lk F (mk d t x s) node m →
  x ∈ xs ∧ SPLAY_ROOT head m = Done (s_at x, m) ∧ SPLAY_LINK d (s_at x) m = Done (ptr t, m).
Proof.
  intros [Hm Ht Hsp Hnd Hin]. rewrite spl_ptr_mk in Hm, Ht.
  assert (x ∈ xs) as Hx by (apply Hin; rewrite whole_mk; apply elem_of_cons; by left).
  split; [done|]. split; [exact (SPLAY_ROOT_run head fr _ _ _ _ Hm)|].
  rewrite (SPLAY_LINK_run head fr _ _ _ _ d x Hm Hx).
  apply shape_mk in Ht as (_ & Ht & _). by rewrite (shape_ptr _ _ _ Ht).
Qed.

Lemma in_xs_nonnull Lk F t node m x : splaying Lk F t node m → x ∈ xs → s_at x ≠ 0.
Proof. intros [[_ Hn] _ _ _ _]. apply Hn. Qed.

(** The loop goes on with the subtree [t], or is left at the root [z]. *)
Definition turned d F t' node' F' (B : snode K → Prop) (res : option (place * spl_entry)) : Prop :=
  match res with
  | None => F' = F ∧ ∃ z s, t' = mk d E z s ∧ B z
  | Some (p, n) => n = node' ∧ p = hole (F' d) ∧ t' ≠ E ∧ ∃ z s, F' = add_frame F d z s ∧ B z
  end.

Lemma turn_link Lk F d t x s node m (B : snode K → Prop) :
  splaying Lk F (mk d t x s) node m → t ≠ E → B x →
  ∃ p F' Lk' node' m', SPLAY_LINKTO d head (hole (F d)) node m = Done ((p, node'), m') ∧
    splaying Lk' F' t node' m' ∧ whole F' t = whole F (mk d t x s) ∧
    turned d F t node' F' B (Some (p, node')).
Proof.
  intros Hs Hne HB. destruct (SPLAY_LINKTO_run Lk F d t x s node m Hs) as (Lk' & node' & m' & Hrun & Hs').
  exists (At (s_at x)), (add_frame F d x s), Lk', node', m'. split; [done|]. split; [done|].
  split; [apply whole_add_frame|]. split; [done|].
  rewrite add_frame_eq, hole_snoc. split; [done|]. split; [done|]. by exists x, s.
Qed.

Lemma turn_run Lk F d t x s node m (B : snode K → Prop) again :
  splaying Lk F (mk d t x s) node m → B x →
  (∀ y, y ∈ xs → ∃ b, again (s_at y) m = Done (b, m) ∧ (b = true → B y)) →
  ∃ res F' t' Lk' node' m', splay_turn d head again (hole (F d)) node m = Done (res, m') ∧
    splaying Lk' F' t' node' m' ∧ whole F' t' = whole F (mk d t x s) ∧
    turned d F t' node' F' B res ∧ (res = None → node' = node) ∧
    (res ≠ None → length (ents t') < length (ents (mk d t x s)))%nat.
Proof.
  intros Hs HB Hagain. unfold splay_turn. destruct (root_link _ _ _ _ _ _ _ _ Hs) as (Hx & Hroot & Hlink).
  run_to Hroot. run_to Hlink.
  destruct (spl_mk_cases d t) as [-> | (t2 & y & u & ->)].
  { exists None, F, (mk d E x s), Lk, node, m. split; [done|]. split; [done|]. split; [done|].
    split; [|done]. split; [done|]. by exists x, s. }
  assert (y ∈ xs) as Hy.
  { apply (sp_in _ _ _ _ _ Hs). rewrite whole_mk. rewrite elem_of_cons, elem_of_app, ents_mk_perm, elem_of_cons. tauto. }
  rewrite spl_ptr_mk. destruct (Z.eqb_spec (s_at y) 0) as [H0|_]; [by apply (in_xs_nonnull _ _ _ _ _ _ Hs) in H0|].
  destruct (Hagain y Hy) as (b & Hb & HBy). run_to Hb. destruct b.
  2:{ rewrite (bind_done _ _ m false m eq_refl).
    destruct (turn_link _ _ _ _ _ _ _ _ B Hs) as (p & F' & Lk' & node' & m' & Hrun & Hs' & Hwh & Htu);
      [apply mk_ne|done|].
    exists (Some (p, node')), F', (mk d t2 y u), Lk', node', m'. split; [by run_to Hrun|].
    split_and!; try done. intros _. rewrite (ents_mk_perm d (mk d t2 y u)). cbn [length]. rewrite length_app. lia. }
  destruct (SPLAY_ROTATE_run Lk F d t2 y u x s node m Hs) as (Lk1 & m1 & Hrun1 & Hs1).
  assert (whole F (mk d t2 y (mk d u x s)) = whole F (mk d (mk d t2 y u) x s)) as Hwh1 by apply whole_ents, ents_rotate.
  destruct (root_link _ _ _ _ _ _ _ _ Hs1) as (_ & Hroot1 & Hlink1).
  rewrite (bind_done _ _ m (ptr t2 =? 0) m1) by (run_to Hrun1; run_to Hroot1; by run_to Hlink1).
  destruct (spl_mk_cases d t2) as [-> | (t3 & z & w & ->)].
  { exists None, F, (mk d E y (mk d u x s)), Lk1, node, m1. split; [done|]. split; [done|]. split; [done|].
    split; [|done]. split; [done|]. eexists _, _. split; [done|]. by apply HBy. }
  assert (z ∈ xs) as Hz.
  { apply (sp_in _ _ _ _ _ Hs1). rewrite whole_mk. rewrite elem_of_cons, elem_of_app, ents_mk_perm, elem_of_cons. tauto. }
  rewrite spl_ptr_mk. destruct (Z.eqb_spec (s_at z) 0) as [H0|_]; [by apply (in_xs_nonnull _ _ _ _ _ _ Hs) in H0|].
  destruct (turn_link _ _ _ _ _ _ _ _ B Hs1) as (p & F' & Lk' & node' & m' & Hrun & Hs' & Hwh & Htu);
    [apply mk_ne|by apply HBy|].
  exists (Some (p, node')), F', (mk d t3 z w), Lk', node', m'. split; [by run_to Hrun|].
  split; [done|]. split; [by rewrite Hwh|]. split_and!; try done. intros _.
  rewrite <-ents_rotate, (ents_mk_perm d (mk d t3 z w)). cbn [length]. rewrite length_app. lia.
Qed.

(** ** The search of the loop *)

Section search.
Context (elm : snode K) (Helm : elm ∈ xs).
Notation k := (s_key elm).
Notation beyond := (beyond cmp).
Notation ordered := (ordered cmp).

(** The key is between the two trees that are taken apart. *)
Definition between F : Prop := ∀ d, Forall (beyond d k) (ends d (F d)).

Lemma ordered_whole_mk F d t x s : ordered (whole F (mk d t x s)) → ordered (ents (mk d E x s)).
Proof.
  intros Ho. unfold whole in Ho. apply ordered_app in Ho as (_ & Ho & _). apply ordered_app in Ho as (Ho & _ & _).
  rewrite ents_mk in Ho |- *. destruct d; cbn [ents app].
  - by apply ordered_app in Ho as (_ & Ho & _).
  - change (x :: ents t) with ([x] ++ ents t) in Ho. rewrite app_assoc in Ho. by apply ordered_app in Ho as (Ho & _ & _).
Qed.

Lemma between_add F d x s :
  between F → beyond d k x → ordered (ents (mk d E x s)) → between (add_frame F d x s).
Proof.
  intros HF Hx Ho e. destruct (decide (e = d)) as [->|Hne]; [|rewrite add_frame_ne by done; apply HF].
  rewrite add_frame_eq, ends_snoc_perm. pose proof (beyond_past cmp d k x s Ho Hx) as Hp.
  inversion_clear Hp. constructor; [done|]. apply Forall_app. split; [done|apply HF].
Qed.

Lemma search_turn Lk F d t x s node m :
  splaying Lk F (mk d t x s) node m → beyond d k x → between F → ordered (whole F (mk d t x s)) →
  ∃ res F' t' Lk' node' m',
    splay_turn d head (λ tmp, c ← compare cmp (s_at elm) tmp; mret (on_side d c)) (hole (F d)) node m =
      Done (res, m') ∧
    splaying Lk' F' t' node' m' ∧ whole F' t' = whole F (mk d t x s) ∧ between F' ∧
    F' (opp d) = F (opp d) ∧
    match res with
    | None => node' = node ∧ F' = F ∧ ∃ z s, t' = mk d E z s ∧ beyond d k z
    | Some (p, n) => n = node' ∧ p = hole (F' d) ∧ t' ≠ E ∧ (length (ents t') < length (ents (mk d t x s)))%nat
    end.
Proof.
  intros Hs Hx HF Ho.
  destruct (turn_run Lk F d t x s node m (beyond d k) (λ tmp, c ← compare cmp (s_at elm) tmp; mret (on_side d c)) Hs Hx)
    as (res & F' & t' & Lk' & node' & m' & Hrun & Hs' & Hwh & Htu & Hnone & Hlen).
  { intros y Hy. exists (on_side d (cmp k (s_key y))). split; [|done].
    by run_to (compare_run head fr cmp _ _ _ _ elm y (sp_mem _ _ _ _ _ Hs) Helm Hy). }
  exists res, F', t', Lk', node', m'. split; [exact Hrun|]. split; [done|]. split; [done|].
  destruct res as [[p n]|]; cbn in Htu.
  - destruct Htu as (-> & -> & Hne & z & s' & -> & Hz). split.
    + apply between_add; [done..|]. rewrite <-Hwh, whole_add_frame in Ho. by eapply ordered_whole_mk.
    + rewrite add_frame_ne by apply opp_ne. split; [done|]. split_and!; try done. by apply Hlen.
  - destruct Htu as [-> Hz]. split; [done|]. split; [done|]. split; [by apply Hnone|]. by split.
Qed.

(** Where the search ends: at the key, or below a neighbour of it. *)
Definition reached l z r : Prop :=
  cmp k (s_key z) = 0 ∨ (cmp k (s_key z) < 0 ∧ l = E) ∨ (0 < cmp k (s_key z) ∧ r = E).

Lemma splay_loop_run fuel : ∀ Lk F t node m,
  splaying Lk F t node m → t ≠ E → between F → ordered (whole F t) → (length (ents t) < fuel)%nat →
  ∃ F' l z r Lk' node' m',
    splay_loop cmp fuel head (s_at elm) node (hole (F DR)) (hole (F DL)) m =
      Done ((node', hole (F' DR), hole (F' DL)), m') ∧
    splaying Lk' F' (T l z r) node' m' ∧ whole F' (T l z r) = whole F t ∧ between F' ∧ reached l z r.
Proof.
  induction fuel as [|fuel IH]; intros Lk F t node m Hs Hne HF Ho Hf; [lia|].
  destruct t as [|l x r]; [done|]. cbn [splay_loop].
  destruct (root_link Lk F DL l x r node m Hs) as (Hx & Hroot & _). run_to Hroot.
  run_to (compare_run head fr cmp _ _ _ _ elm x (sp_mem _ _ _ _ _ Hs) Helm Hx).
  destruct (Z.ltb_spec (cmp k (s_key x)) 0) as [Hc|Hc]; [|destruct (Z.ltb_spec 0 (cmp k (s_key x))) as [Hc'|Hc']].
  - destruct (search_turn Lk F DL l x r node m Hs) as (res & F' & t' & Lk' & node' & m' & Hrun & Hs' & Hwh & HF' & Hopp & Hres);
      [by apply Z.ltb_lt|done..|]. run_to Hrun. cbn [mk] in Hwh. destruct res as [[p n]|].
    + destruct Hres as (-> & -> & Hne' & Hlen). cbn in Hopp. rewrite <-Hopp, <-Hwh.
      apply (IH Lk' F' t' node' m'); try done; [by rewrite Hwh|cbn [mk] in *; lia].
    + destruct Hres as (-> & -> & z & s & -> & Hz). exists F, E, z, s, Lk', node, m'. split_and!; try done.
      right. left. split; [by apply Z.ltb_lt|done].
  - destruct (search_turn Lk F DR r x l node m Hs) as (res & F' & t' & Lk' & node' & m' & Hrun & Hs' & Hwh & HF' & Hopp & Hres);
      [by apply Z.ltb_lt|done..|]. run_to Hrun. cbn [mk] in Hwh. destruct res as [[p n]|].
    + destruct Hres as (-> & -> & Hne' & Hlen). cbn in Hopp. rewrite <-Hopp, <-Hwh.
      apply (IH Lk' F' t' node' m'); try done; [by rewrite Hwh|cbn [mk] in *; lia].
    + destruct Hres as (-> & -> & z & s & -> & Hz). exists F, s, z, E, Lk', node, m'. split_and!; try done.
      right. right. split; [by apply Z.ltb_lt|done].
  - exists F, l, x, r, Lk, node, m. split_and!; try done. left. lia.
Qed.
End search.

(** ** Putting the tree together *)

Lemma splaying_place Lk F d t node m v :
  splaying Lk F t node m →
  ∃ Lk' node' m', SET_PLACE d (hole (F d)) v node m = Done (node', m') ∧ splaying Lk' F t node' m' ∧
    spine Lk' d (F d) (link_of d node') v ∧
    (∀ q, spine Lk (opp d) (F (opp d)) (link_of (opp d) node) q →
      spine Lk' (opp d) (F (opp d)) (link_of (opp d) node') q).
Proof.
  intros Hs. destruct (SET_PLACE_run Lk F d t node m v Hs) as (Lk' & node' & m' & Hrun & Hm' & Hsp' & Hopp & He).
  exists Lk', node', m'. destruct Hs as [Hm Ht Hsp Hnd Hin].
  assert (∀ q, spine Lk (opp d) (F (opp d)) (link_of (opp d) node) q →
    spine Lk' (opp d) (F (opp d)) (link_of (opp d) node') q) as Hkeep.
  { intros q Hq. rewrite Hopp. eapply spine_ext; [|exact Hq]. intros z e Hz. apply He. by right. }
  split; [done|]. split; [|done]. split; try done.
  - eapply shape_ext; [|exact Ht]. intros z e Hz. apply He. by left.
  - intros e. destruct (decide (e = d)) as [->|Hne]; [by exists v|].
    assert (e = opp d) as -> by (by destruct d, e). destruct (Hsp (opp d)) as [q Hq]. exists q. by apply Hkeep.
Qed.

(** The tree [t] alone. *)
Definition tree_in t m : Prop :=
  ∃ Lk, smem head fr (ptr t) Lk xs m ∧ shape Lk t (ptr t) ∧ NoDup (addrs (ents t)) ∧ ∀ x, x ∈ ents t → x ∈ xs.

Lemma SPLAY_ASSEMBLE_run Lk F l z r node m :
  splaying Lk F (T l z r) node m →
  ∃ m', SPLAY_ASSEMBLE head node (hole (F DR)) (hole (F DL)) m = Done (tt, m') ∧ tree_in (assembled F l z r) m'.
Proof.
  intros Hs. unfold SPLAY_ASSEMBLE. destruct (root_link Lk F DL l z r node m Hs) as (Hz & Hroot & Hlink).
  run_to Hroot. run_to Hlink. clear Hroot Hlink.
  destruct (splaying_place Lk F DR _ node m (ptr l) Hs) as (Lk1 & node1 & m1 & Hrun1 & Hs1 & Hsp1 & _). run_to Hrun1.
  destruct (root_link Lk1 F DR r z l node1 m1 Hs1) as (_ & Hroot & Hlink). run_to Hroot. run_to Hlink. clear Hroot Hlink.
  destruct (splaying_place Lk1 F DL _ node1 m1 (ptr r) Hs1) as (Lk2 & node2 & m2 & Hrun2 & Hs2 & HspL & Hkeep). run_to Hrun2.
  apply Hkeep in Hsp1. cbn [opp] in Hsp1. clear Hkeep Hrun1 Hrun2 Hs Hs1.
  pose proof Hs2 as [Hm Ht _ Hnd Hin]. cbn [ptr] in Hm.
  run_to (SPLAY_ROOT_run head fr _ _ _ _ Hm).
  destruct (SET_LINK_run head fr _ _ _ _ DL z (link_of DR node2) Hm Hz) as (m3 & Hrun3 & Hm3). run_to Hrun3.
  run_to (SPLAY_ROOT_run head fr _ _ _ _ Hm3).
  destruct (SET_LINK_run head fr _ _ _ _ DR z (link_of DL node2) Hm3 Hz) as (m4 & Hrun4 & Hm4).
  exists m4. split; [exact Hrun4|]. set (Lk4 := upd_link _ _ DR _) in Hm4.
  assert (∀ y e, s_at y ≠ s_at z → Lk4 (s_at y) e = Lk2 (s_at y) e) as He.
  { intros y e Hne. unfold Lk4. by rewrite !upd_link_ne by by left. }
  pose proof Hnd as Hndz. rewrite (whole_mk F DL l z r) in Hndz.
  assert (∀ y, y ∈ ents l ∨ y ∈ ents r ∨ y ∈ ends DR (F DR) ∨ y ∈ ends DL (F DL) → s_at y ≠ s_at z) as Hne.
  { intros y Hy. apply (addr_ne _ _ _ Hndz). rewrite !elem_of_app. tauto. }
  exists Lk4. split; [exact Hm4|]. rewrite ents_assembled. split; [|by split].
  cbn [assembled ptr shape] in *. destruct Ht as (_ & Hl & Hr).
  assert (Lk4 (s_at z) DL = link_of DR node2) as -> by (unfold Lk4; rewrite upd_link_ne by (by right); apply upd_link_eq).
  assert (Lk4 (s_at z) DR = link_of DL node2) as -> by apply upd_link_eq.
  rewrite (shape_ptr _ _ _ Hl) in Hl. rewrite (shape_ptr _ _ _ Hr) in Hr.
  split; [done|]. split; eapply spine_asm.
  - eapply spine_ext; [|exact Hsp1]. intros y e Hy. apply He, Hne. tauto.
  - eapply shape_ext; [|exact Hl]. intros y e Hy. apply He, Hne. tauto.
  - eapply spine_ext; [|exact HspL]. intros y e Hy. apply He, Hne. tauto.
  - eapply shape_ext; [|exact Hr]. intros y e Hy. apply He, Hne. tauto.
Qed.

Lemma tree_in_splaying t m : tree_in t m → ∃ Lk, splaying Lk (λ _, []) t (Spe 0 0) m.
Proof.
  intros (Lk & Hm & Ht & Hnd & Hin). exists Lk.
  assert (whole (λ _, []) t = ents t) as Hwh by (unfold whole; cbn; apply app_nil_r).
  split; rewrite ?Hwh; try done. intros d. exists 0. by destruct d.
Qed.

Lemma tree_size t m : tree_in t m → (length (ents t) < size m)%nat.
Proof.
  intros (Lk & Hm & _ & Hnd & Hin). pose proof (smem_size _ _ _ _ _ _ Hm) as Hs.
  assert (length (ents t) ≤ length xs)%nat; [|lia]. apply submseteq_length, NoDup_submseteq; [|done].
  by apply NoDup_fmap_1 in Hnd.
Qed.

(** ** SPLAY *)

(** The root is the element of key [k], or a neighbour of where it would be. *)
Definition splayed_at (k : K) l z r : Prop :=
  cmp k (s_key z) = 0 ∨
  (cmp k (s_key z) < 0 ∧ ∀ y, y ∈ ents l → 0 < cmp k (s_key y)) ∨
  (0 < cmp k (s_key z) ∧ ∀ y, y ∈ ents r → cmp k (s_key y) < 0).

Lemma SPLAY_run elm t m :
  tree_in t m → elm ∈ xs → t ≠ E → ordered cmp (ents t) →
  ∃ l z r m', SPLAY cmp head (s_at elm) m = Done (tt, m') ∧ tree_in (T l z r) m' ∧
    ents (T l z r) = ents t ∧ splayed_at (s_key elm) l z r.
Proof.
  intros Ht Helm Hne Ho. unfold SPLAY. rewrite (bind_done _ _ m (size m) m eq_refl).
  pose proof (tree_size t m Ht) as Hsize. destruct (tree_in_splaying t m Ht) as (Lk & Hs).
  assert (whole (λ _, []) t = ents t) as Hwh by (unfold whole; cbn; apply app_nil_r).
  destruct (splay_loop_run elm Helm (S (size m)) Lk (λ _, []) t (Spe 0 0) m Hs Hne)
    as (F & l & z & r & Lk' & node' & m1 & Hrun1 & Hs1 & Hwh1 & HF & Hre);
    [intros d; destruct d; constructor|by rewrite Hwh|lia|].
  change (hole (K:=K) []) with Node in Hrun1. run_to Hrun1. cbn beta iota.
  destruct (SPLAY_ASSEMBLE_run Lk' F l z r node' m1 Hs1) as (m' & Hrun' & Ht').
  exists (asm DR (F DR) l), z, (asm DL (F DL) r), m'. split; [exact Hrun'|]. split; [exact Ht'|].
  split; [by rewrite <-Hwh, <-Hwh1, <-ents_assembled|].
  destruct Hre as [?|[[Hc ->]|[Hc ->]]]; [by left|right; left|right; right]; (split; [done|]); intros y Hy.
  - pose proof (HF DR) as HR. rewrite Forall_forall in HR. specialize (HR y Hy). by apply Z.ltb_lt in HR.
  - pose proof (HF DL) as HL. rewrite Forall_forall in HL. specialize (HL y Hy). by apply Z.ltb_lt in HL.
Qed.
End proofs.
