(* ===== verification/SplOps.v ===== *)
(** * SplOps: the operations of splay trees

    [spl_repr] says that a head and its elements, in order, and the elements
    the caller has not inserted are all there is in memory besides a frame.
    Each operation is run on it; that splaying left the frame alone lets
    SPLAY_REMOVE splay one subtree while the other waits ([smem_split]). *)

From S2P Require Import Prelude.
From S2P Require Import Own.
From S2P Require Import SplTree.
From S2P Require Import SplShape.
From S2P Require Import SplMem.
From S2P Require Import SplProofs.

Section ops.
Context {K : Type} (cmp : K → K → Z) `{!CmpSpec cmp}.
Context (head : Z).
Implicit Types (fr m : gmap Z (sblock K)) (xs A B L ys : list (snode K)).
Implicit Types (Lk : links) (t s u l r : stree K) (x y z elm : snode K) (d e : dir).
Implicit Types (F : dir → list (snode K * stree K)) (node : spl_entry).

Notation ordered := (ordered cmp).

(** ** Least and greatest *)

Lemma minmax_loop_run fr xs d comp fuel : on_side d comp = true → ∀ Lk F t node m,
  splaying head fr xs Lk F t node m → t ≠ E → F (opp d) = [] → (length (ents t) < fuel)%nat →
  ∃ F' z s Lk' node' m',
    minmax_loop fuel head comp node (hole (F DR)) (hole (F DL)) m =
      Done ((node', hole (F' DR), hole (F' DL)), m') ∧
    splaying head fr xs Lk' F' (mk d E z s) node' m' ∧ whole F' (mk d E z s) = whole F t ∧ F' (opp d) = [].
Proof.
  intros Hd. induction fuel as [|fuel IH]; intros Lk F t node m Hs Hne HF Hf; [lia|].
  destruct (spl_mk_cases d t) as [|(l & x & r & ->)]; [done|].
  destruct (turn_run head fr xs Lk F d l x r node m (λ _, True) (λ _ m, Done (on_side d comp, m)) Hs I)
    as (res & F' & t' & Lk' & node' & m' & Hrun & Hs' & Hwh & Htu & Hnone & Hlen).
  { intros y Hy. by exists (on_side d comp). }
  assert (F' (opp d) = []) as HF'.
  { destruct res as [[p n]|]; cbn in Htu; [|by destruct Htu as [-> _]].
    destruct Htu as (_ & _ & _ & z & s & -> & _). by rewrite add_frame_ne by apply opp_ne. }
  assert (∀ p n, res = Some (p, n) → ∃ F2 z s Lk2 node2 m2,
    minmax_loop fuel head comp n (hole (F' DR)) (hole (F' DL)) m' =
      Done ((node2, hole (F2 DR), hole (F2 DL)), m2) ∧
    splaying head fr xs Lk2 F2 (mk d E z s) node2 m2 ∧ whole F2 (mk d E z s) = whole F (mk d l x r) ∧
    F2 (opp d) = []) as Hgo.
  { intros p n ->. destruct Htu as (-> & _ & Hne' & _). rewrite <-Hwh. apply (IH Lk' F' t' node' m'); try done.
    specialize (Hlen ltac:(done)). lia. }
  assert (res = None → ∃ z s, t' = mk d E z s ∧ F' = F) as Hstop.
  { intros ->. destruct Htu as [-> (z & s & -> & _)]. by exists z, s. }
  cbn [minmax_loop]. destruct d; cbn [on_side] in Hd, Hrun; rewrite Hd in Hrun |- *.
  2: destruct (Z.ltb_spec comp 0); [apply Z.ltb_lt in Hd; lia|].
  all: run_to Hrun; destruct res as [[p n]|].
  2,4: destruct (Hstop eq_refl) as (z & s & -> & ->); rewrite (Hnone eq_refl) in *;
    by exists F, z, s, Lk', node, m'.
  all: destruct Htu as (-> & -> & _ & zf & sf & HFe & _).
  - cbn in HF, HF'. specialize (Hgo _ _ eq_refl). rewrite HF' in Hgo. by rewrite HF.
  - cbn in HF, HF'. specialize (Hgo _ _ eq_refl). rewrite HF' in Hgo. by rewrite HF.
Qed.

Lemma SPLAY_MINMAX_run fr xs d comp t m :
  on_side d comp = true → tree_in head fr xs t m → t ≠ E →
  ∃ z s m', SPLAY_MINMAX head comp m = Done (tt, m') ∧ tree_in head fr xs (mk d E z s) m' ∧
    ents (mk d E z s) = ents t.
Proof.
  intros Hd Ht Hne. unfold SPLAY_MINMAX. rewrite (bind_done _ _ m (size m) m eq_refl).
  pose proof (tree_size _ _ _ _ _ Ht) as Hsize. destruct (tree_in_splaying _ _ _ t m Ht) as (Lk & Hs).
  assert (whole (λ _, []) t = ents t) as Hwh by (unfold whole; cbn; apply app_nil_r).
  destruct (minmax_loop_run fr xs d comp (S (size m)) Hd Lk (λ _, []) t (Spe 0 0) m Hs Hne eq_refl)
    as (F & z & s & Lk' & node' & m1 & Hrun1 & Hs1 & Hwh1 & HF); [lia|].
  change (hole (K:=K) []) with Node in Hrun1. run_to Hrun1. cbn beta iota.
  destruct d; cbn [mk opp] in *.
  - destruct (SPLAY_ASSEMBLE_run _ _ _ Lk' F E z s node' m1 Hs1) as (m' & Hrun' & Ht').
    exists z, (asm DL (F DL) s), m'. split; [exact Hrun'|].
    assert (assembled F E z s = T E z (asm DL (F DL) s)) as Heq by (unfold assembled; by rewrite HF).
    rewrite <-Heq. split; [done|]. by rewrite ents_assembled, Hwh1.
  - destruct (SPLAY_ASSEMBLE_run _ _ _ Lk' F s z E node' m1 Hs1) as (m' & Hrun' & Ht').
    exists z, (asm DR (F DR) s), m'. split; [exact Hrun'|].
    assert (assembled F s z E = T (asm DR (F DR) s) z E) as Heq by (unfold assembled; by rewrite HF).
    rewrite <-Heq. split; [done|]. by rewrite ents_assembled, Hwh1.
Qed.

(** ** Where a splay ends *)

Notation splayed_at := (splayed_at cmp).

Lemma ordered_T l z r :
  ordered (ents (T l z r)) →
  (∀ y, y ∈ ents l → cmp (s_key y) (s_key z) < 0) ∧ (∀ y, y ∈ ents r → cmp (s_key z) (s_key y) < 0).
Proof.
  cbn. intros (_ & Hr & Hl)%ordered_app. split.
  - intros y Hy. apply Hl; [done|]. apply elem_of_cons. by left.
  - apply (ordered_app cmp [z]) in Hr as (_ & _ & Hr). intros y Hy. apply Hr; [apply list_elem_of_here|done].
Qed.

(** An element of the searched key is the root. *)
Lemma splayed_found k l z r x :
  ordered (ents (T l z r)) → splayed_at k l z r → x ∈ ents (T l z r) → cmp k (s_key x) = 0 →
  x = z ∧ cmp k (s_key z) = 0.
Proof.
  intros [Hol Hor]%ordered_T Hsp Hx Hk. cbn in Hx. apply elem_of_app in Hx as [Hx|[-> | Hx]%elem_of_cons].
  - exfalso. specialize (Hol x Hx). assert (cmp k (s_key z) < 0) as Hkz by (apply (cmp_le_lt cmp _ (s_key x)); [lia|done]).
    destruct Hsp as [?|[[_ Hl]|[? _]]]; [lia| |lia]. specialize (Hl x Hx). lia.
  - split; [done|]. done.
  - exfalso. specialize (Hor x Hx). assert (0 < cmp k (s_key z)) as Hkz.
    { apply (cmp_neg cmp). apply (cmp_lt_le cmp _ (s_key x)); [done|]. apply (cmp_zero cmp) in Hk. lia. }
    destruct Hsp as [?|[[? _]|[_ Hr]]]; [lia|lia|]. specialize (Hr x Hx). lia.
Qed.

(** Otherwise the key belongs on one side of the root. *)
Lemma splayed_between k l z r :
  ordered (ents (T l z r)) → splayed_at k l z r → cmp k (s_key z) ≠ 0 →
  if cmp k (s_key z) <? 0
  then (∀ y, y ∈ ents l → cmp (s_key y) k < 0) ∧ ∀ y, y ∈ z :: ents r → cmp k (s_key y) < 0
  else (∀ y, y ∈ ents l ++ [z] → cmp (s_key y) k < 0) ∧ ∀ y, y ∈ ents r → cmp k (s_key y) < 0.
Proof.
  intros [Hol Hor]%ordered_T Hsp Hne. destruct (Z.ltb_spec (cmp k (s_key z)) 0) as [Hk|Hk].
  - destruct Hsp as [?|[[_ Hl]|[? _]]]; [lia| |lia]. split; [intros y Hy; by apply (cmp_neg cmp), Hl|].
    intros y [-> | Hy]%elem_of_cons; [done|]. apply (cmp_lt_le cmp _ (s_key z)); [done|].
    specialize (Hor y Hy). lia.
  - destruct Hsp as [?|[[? _]|[_ Hr]]]; [lia|lia|]. split; [|done].
    assert (cmp (s_key z) k < 0) as Hzk by (apply (cmp_neg cmp); lia).
    intros y [Hy| ->%list_elem_of_singleton]%elem_of_app; [|done]. apply (cmp_lt_le cmp _ (s_key z)); [by apply Hol|lia].
Qed.

(** ** The representation *)

(** The elements [L] in order, and [ys] that are in no tree. *)
Definition spl_repr fr L ys m : Prop := ∃ t, ents t = L ∧ tree_in head fr (L ++ ys) t m.

Lemma tree_in_perm fr xs xs' t m : xs ≡ₚ xs' → tree_in head fr xs t m → tree_in head fr xs' t m.
Proof.
  intros Hp (Lk & Hm & Ht & Hnd & Hin). exists Lk. split; [by eapply smem_perm|]. split; [done|]. split; [done|].
  intros x Hx. rewrite <-Hp. by apply Hin.
Qed.

Lemma spl_repr_intro fr xs t ys m : tree_in head fr xs t m → xs ≡ₚ ents t ++ ys → spl_repr fr (ents t) ys m.
Proof. intros Ht Hp. exists t. split; [done|]. by eapply tree_in_perm. Qed.

Lemma tree_in_root fr xs t m : tree_in head fr xs t m → SPLAY_ROOT head m = Done (ptr t, m).
Proof. intros (Lk & Hm & _). exact (SPLAY_ROOT_run head fr _ _ _ _ Hm). Qed.

Lemma ptr_nonnull fr xs t m : tree_in head fr xs t m → t ≠ E → ptr t ≠ 0.
Proof.
  intros (Lk & [_ Hn] & _ & _ & Hin) Hne. destruct t as [|l x r]; [done|]. apply Hn, Hin. cbn.
  apply elem_of_app. right. apply elem_of_cons. by left.
Qed.

Lemma SPLAY_EMPTY_run fr xs t m :
  tree_in head fr xs t m → SPLAY_EMPTY head m = Done (match t with E => true | T _ _ _ => false end, m).
Proof.
  intros Ht. unfold SPLAY_EMPTY. run_to (tree_in_root fr xs t m Ht). destruct t as [|l x r]; [done|].
  pose proof (ptr_nonnull _ _ _ _ Ht ltac:(done)). by destruct (Z.eqb_spec (ptr (T l x r)) 0).
Qed.

Lemma tree_compare fr xs t m x y :
  tree_in head fr xs t m → x ∈ xs → y ∈ xs → compare cmp (s_at x) (s_at y) m = Done (cmp (s_key x) (s_key y), m).
Proof. intros (Lk & Hm & _). exact (compare_run head fr cmp _ _ _ _ x y Hm). Qed.

(** Search: the splay, then the comparison with the root. *)
Lemma splay_compare_run fr xs elm t m :
  tree_in head fr xs t m → elm ∈ xs → t ≠ E → ordered (ents t) →
  ∃ l z r m', SPLAY cmp head (s_at elm) m = Done (tt, m') ∧ tree_in head fr xs (T l z r) m' ∧
    ents (T l z r) = ents t ∧ splayed_at (s_key elm) l z r ∧ SPLAY_ROOT head m' = Done (s_at z, m') ∧
    compare cmp (s_at elm) (s_at z) m' = Done (cmp (s_key elm) (s_key z), m').
Proof.
  intros Ht Helm Hne Ho.
  destruct (SPLAY_run cmp head fr xs elm t m Ht Helm Hne Ho) as (l & z & r & m' & Hrun & Ht' & Hents & Hsp).
  exists l, z, r, m'. split_and!; try done; [exact (tree_in_root _ _ _ _ Ht')|].
  eapply tree_compare; [done..|]. destruct Ht' as (_ & _ & _ & _ & Hin). apply Hin. cbn. apply elem_of_app. right.
  apply elem_of_cons. by left.
Qed.

Lemma SPLAY_FIND_run fr L ys elm m :
  spl_repr fr L ys m → elm ∈ L ++ ys → ordered L →
  ∃ m', spl_repr fr L ys m' ∧
    (∀ x, x ∈ L → cmp (s_key elm) (s_key x) = 0 → SPLAY_FIND cmp head (s_at elm) m = Done (s_at x, m')) ∧
    ((∀ x, x ∈ L → cmp (s_key elm) (s_key x) ≠ 0) → SPLAY_FIND cmp head (s_at elm) m = Done (0, m')).
Proof.
  intros (t & <- & Ht) Helm Ho. unfold SPLAY_FIND.
  rewrite (bind_done _ _ _ _ _ (SPLAY_EMPTY_run _ _ _ _ Ht)). destruct t as [|l0 x0 r0].
  { exists m. split; [by exists E|]. split; [by intros x ?%elem_of_nil|done]. }
  assert (T l0 x0 r0 ≠ E) as Hc by done. set (t := T l0 x0 r0) in *.
  destruct (splay_compare_run _ _ elm t m Ht Helm Hc Ho) as (l & z & r & m' & Hrun & Ht' & Hents & Hsp & Hroot & Hcmp).
  exists m'. split; [rewrite <-Hents in Ht' |- *; by exists (T l z r)|].
  rewrite (bind_done _ _ _ _ _ Hrun), (bind_done _ _ _ _ _ Hroot), (bind_done _ _ _ _ _ Hcmp).
  rewrite <-Hents in Ho |- *. split.
  - intros x Hx Hk. destruct (splayed_found _ _ _ _ x Ho Hsp Hx Hk) as [-> ->]. done.
  - intros Hno. destruct (Z.eqb_spec (cmp (s_key elm) (s_key z)) 0) as [H0|]; [|done]. exfalso. eapply Hno, H0.
    cbn. apply elem_of_app. right. apply elem_of_cons. by left.
Qed.

(** ** Least, greatest and next *)

Definition first_at L : Z := match L with [] => 0 | x :: _ => s_at x end.
Definition last_at L : Z := match last L with None => 0 | Some x => s_at x end.

Lemma SPLAY_MIN_run fr L ys m :
  spl_repr fr L ys m → ∃ m', SPLAY_MIN head m = Done (first_at L, m') ∧ spl_repr fr L ys m'.
Proof.
  intros (t & <- & Ht). unfold SPLAY_MIN, SPLAY_MIN_MAX. rewrite (bind_done _ _ _ _ _ (SPLAY_EMPTY_run _ _ _ _ Ht)).
  destruct t as [|l0 x0 r0]; [exists m; split; [done|by exists E]|].
  destruct (SPLAY_MINMAX_run _ _ DL SPLAY_NEGINF _ m eq_refl Ht) as (z & s & m' & Hrun & Ht' & Hents); [done|].
  exists m'. run_to Hrun. rewrite (tree_in_root _ _ _ _ Ht'). cbn [mk] in *. rewrite <-Hents in Ht' |- *.
  split; [done|by exists (T E z s)].
Qed.

Lemma SPLAY_MAX_run fr L ys m :
  spl_repr fr L ys m → ∃ m', SPLAY_MAX head m = Done (last_at L, m') ∧ spl_repr fr L ys m'.
Proof.
  intros (t & <- & Ht). unfold SPLAY_MAX, SPLAY_MIN_MAX. rewrite (bind_done _ _ _ _ _ (SPLAY_EMPTY_run _ _ _ _ Ht)).
  destruct t as [|l0 x0 r0]; [exists m; split; [done|by exists E]|].
  destruct (SPLAY_MINMAX_run _ _ DR SPLAY_INF _ m eq_refl Ht) as (z & s & m' & Hrun & Ht' & Hents); [done|].
  exists m'. run_to Hrun. rewrite (tree_in_root _ _ _ _ Ht'). cbn [mk ptr] in *. rewrite <-Hents in Ht' |- *.
  split; [|by exists (T s z E)]. unfold last_at. cbn [ents]. by rewrite last_snoc.
Qed.

Lemma tree_root_link fr xs d t x s m :
  tree_in head fr xs (mk d t x s) m → x ∈ xs ∧ SPLAY_LINK d (s_at x) m = Done (ptr t, m).
Proof.
  intros Ht. destruct (tree_in_splaying _ _ _ _ _ Ht) as (Lk & Hs).
  destruct (root_link _ _ _ _ _ _ _ _ _ _ _ Hs) as (Hx & _ & Hl). by split.
Qed.

Lemma leftmost_run fr xs Lk rt t m : smem head fr rt Lk xs m → ∀ fuel,
  shape Lk t (ptr t) → (∀ x, x ∈ ents t → x ∈ xs) → t ≠ E → (length (ents t) ≤ fuel)%nat →
  leftmost_loop fuel (ptr t) m = Done (first_at (ents t), m).
Proof.
  intros Hm. induction t as [|l IHl x r _]; intros fuel Ht Hin Hne Hf; [done|].
  cbn [ents] in Hf, Hin. rewrite length_app in Hf. cbn [length] in Hf. destruct fuel as [|fuel]; [lia|].
  cbn [leftmost_loop ptr]. assert (x ∈ xs) as Hx by (apply Hin, elem_of_app; right; apply elem_of_cons; by left).
  run_to (SPLAY_LINK_run head fr _ _ _ _ DL x Hm Hx). cbn [shape ptr] in Ht. destruct Ht as (_ & Hl & _).
  pose proof (shape_ptr _ _ _ Hl) as Hpl. rewrite Hpl in Hl |- *.
  destruct l as [|ll y lr]; [done|]. set (l := T ll y lr) in *.
  assert (s_at y ≠ 0) as Hy.
  { destruct Hm as [_ Hn]. apply Hn, Hin, elem_of_app. left. cbn. apply elem_of_app. right. apply elem_of_cons. by left. }
  change (ptr l) with (s_at y) at 1. destruct (Z.eqb_spec (s_at y) 0); [done|].
  rewrite IHl; [|done| |done|lia].
  - do 2 f_equal. unfold l. cbn. by destruct (ents ll).
  - intros z Hz. apply Hin, elem_of_app. by left.
Qed.

Lemma split_unique x (L1 L2 l r : list (snode K)) :
  NoDup (l ++ x :: r) → L1 ++ x :: L2 = l ++ x :: r → L1 = l ∧ L2 = r.
Proof.
  revert L1. induction l as [|y l IH]; intros [|z L1]; cbn; intros Hnd Heq.
  - injection Heq as ->. done.
  - exfalso. injection Heq as -> Heq. apply NoDup_cons in Hnd as [Hnin _]. apply Hnin. rewrite <-Heq.
    apply elem_of_app. right. apply elem_of_cons. by left.
  - exfalso. injection Heq as -> Heq. apply NoDup_cons in Hnd as [Hnin _]. apply Hnin.
    apply elem_of_app. right. apply elem_of_cons. by left.
  - injection Heq as -> Heq. apply NoDup_cons in Hnd as [_ Hnd]. by destruct (IH L1 Hnd Heq) as [-> ->].
Qed.

Lemma tree_nodup fr xs t m : tree_in head fr xs t m → NoDup (ents t).
Proof. intros (_ & _ & _ & Hnd & _). by apply NoDup_fmap_1 in Hnd. Qed.

(** Splaying an element of the tree makes it the root. *)
Lemma splay_element_run fr L1 x L2 ys m :
  spl_repr fr (L1 ++ x :: L2) ys m → ordered (L1 ++ x :: L2) →
  ∃ l r m', SPLAY cmp head (s_at x) m = Done (tt, m') ∧ tree_in head fr ((L1 ++ x :: L2) ++ ys) (T l x r) m' ∧
    ents l = L1 ∧ ents r = L2.
Proof.
  intros (t & Hents & Ht) Ho. assert (x ∈ L1 ++ x :: L2) as Hx by (apply elem_of_app; right; apply elem_of_cons; by left).
  destruct (SPLAY_run cmp head fr _ x t m Ht) as (l & z & r & m' & Hrun & Ht' & Hents' & Hsp);
    [apply elem_of_app; by left|intros ->; cbn in Hents; by destruct L1|by rewrite Hents|].
  assert (ordered (ents (T l z r))) as Ho' by by rewrite Hents', Hents.
  destruct (splayed_found (s_key x) l z r x Ho' Hsp) as [<- _]; [by rewrite Hents', Hents|apply (cmp_self cmp)|].
  exists l, r, m'. split; [done|]. split; [done|]. pose proof (tree_nodup _ _ _ _ Ht') as Hnd.
  cbn in Hnd, Hents'. rewrite Hents in Hents'. symmetry in Hents'.
  by destruct (split_unique x L1 L2 (ents l) (ents r) Hnd Hents') as [-> ->].
Qed.

Lemma SPLAY_NEXT_run fr L1 x L2 ys m :
  spl_repr fr (L1 ++ x :: L2) ys m → ordered (L1 ++ x :: L2) →
  ∃ m', SPLAY_NEXT cmp head (s_at x) m = Done (first_at L2, m') ∧ spl_repr fr (L1 ++ x :: L2) ys m'.
Proof.
  intros Hr Ho. destruct (splay_element_run fr L1 x L2 ys m Hr Ho) as (l & r & m' & Hrun & Ht & <- & <-).
  exists m'. split; [|by exists (T l x r)]. unfold SPLAY_NEXT. run_to Hrun.
  destruct (tree_root_link _ _ DR r x l m' Ht) as [_ Hlink]. run_to Hlink.
  destruct r as [|rl y rr]; [done|]. set (r := T rl y rr) in *.
  destruct Ht as (Lk & Hm & Hsh & Hnd & Hin). cbn [shape ptr] in Hsh. destruct Hsh as (_ & _ & Hsr).
  rewrite (shape_ptr _ _ _ Hsr) in Hsr.
  assert (s_at y ≠ 0) as Hy.
  { destruct Hm as [_ Hn]. apply Hn, Hin. cbn. apply elem_of_app. right. apply elem_of_cons. right.
    apply elem_of_app. right. apply elem_of_cons. by left. }
  change (ptr r) with (s_at y) at 1. destruct (Z.eqb_spec (s_at y) 0); [done|].
  rewrite (bind_done _ _ m' (size m') m' eq_refl).
  apply (leftmost_run fr _ _ _ _ _ Hm); [done| |done|].
  - intros z Hz. apply Hin. cbn. apply elem_of_app. right. apply elem_of_cons. by right.
  - pose proof (smem_size _ _ _ _ _ _ Hm) as Hs. rewrite !length_app in Hs. cbn [length] in Hs. lia.
Qed.

Lemma spl_foreach_run fr ys L2 : ∀ fuel L1 m,
  spl_repr fr (L1 ++ L2) ys m → ordered (L1 ++ L2) → (length L2 < fuel)%nat →
  ∃ m', foreach_loop cmp fuel head (first_at L2) m = Done (addrs L2, m') ∧ spl_repr fr (L1 ++ L2) ys m'.
Proof.
  induction L2 as [|x L2 IH]; intros fuel L1 m Hr Ho Hf; (destruct fuel as [|fuel]; [cbn in Hf; lia|]).
  { by exists m. }
  cbn [foreach_loop first_at]. assert (s_at x ≠ 0) as Hx.
  { destruct Hr as (t & _ & (Lk & [_ Hn] & _)). apply Hn. apply elem_of_app. left. apply elem_of_app. right.
    apply elem_of_cons. by left. }
  destruct (Z.eqb_spec (s_at x) 0); [done|].
  destruct (SPLAY_NEXT_run fr L1 x L2 ys m Hr Ho) as (m1 & Hrun1 & Hr1). run_to Hrun1.
  rewrite cons_middle, app_assoc in Hr1, Ho. destruct (IH fuel (L1 ++ [x]) m1 Hr1 Ho) as (m' & Hrun & Hr'); [cbn in Hf; lia|].
  exists m'. split; [by run_to Hrun|]. by rewrite <-app_assoc in Hr'.
Qed.

Lemma SPLAY_FOREACH_run fr L ys m :
  spl_repr fr L ys m → ordered L →
  ∃ m', SPLAY_FOREACH cmp head m = Done (addrs L, m') ∧ spl_repr fr L ys m'.
Proof.
  intros Hr Ho. unfold SPLAY_FOREACH. destruct (SPLAY_MIN_run fr L ys m Hr) as (m1 & Hrun1 & Hr1). run_to Hrun1.
  rewrite (bind_done _ _ m1 (size m1) m1 eq_refl). apply (spl_foreach_run fr ys L (S (size m1)) [] m1 Hr1 Ho).
  destruct Hr1 as (t & <- & Ht). pose proof (tree_size _ _ _ _ _ Ht). lia.
Qed.

(** ** Insertion *)

(** The element becomes the root, the old root its child on side [opp d]. *)
Lemma insert_root_run fr xs d a z b elm m :
  tree_in head fr xs (mk d a z b) m → elm ∈ xs → s_at elm ∉ addrs (ents (mk d a z b)) →
  ∃ m', (_ ← SET_LINK d (s_at elm) (ptr a); _ ← SET_LINK (opp d) (s_at elm) (s_at z);
         _ ← SET_LINK d (s_at z) 0; _ ← SET_ROOT head (s_at elm); mret 0) m = Done (0, m') ∧
    tree_in head fr xs (mk d a elm (mk d E z b)) m'.
Proof.
  intros (Lk & Hm & Hsh & Hnd & Hin) Helm Hnin.
  assert (z ∈ ents (mk d a z b)) as Hz by (rewrite ents_mk_perm; apply elem_of_cons; by left).
  apply shape_mk in Hsh as (_ & Ha & Hb). rewrite spl_ptr_mk in Hm, Ha, Hb. rewrite (shape_ptr _ _ _ Ha) in Ha.
  destruct (SET_LINK_run head fr _ _ _ _ d elm (ptr a) Hm Helm) as (m1 & Hrun1 & Hm1). run_to Hrun1.
  destruct (SET_LINK_run head fr _ _ _ _ (opp d) elm (s_at z) Hm1 Helm) as (m2 & Hrun2 & Hm2). run_to Hrun2.
  destruct (SET_LINK_run head fr _ _ _ _ d z 0 Hm2 (Hin z Hz)) as (m3 & Hrun3 & Hm3). run_to Hrun3.
  destruct (SPL_SET_ROOT_run head fr _ (s_at elm) _ _ _ Hm3) as (m4 & Hrun4 & Hm4). run_to Hrun4.
  exists m4. split; [done|]. set (Lk' := upd_link _ (s_at z) _ _) in Hm4. exists Lk'. rewrite spl_ptr_mk. split; [done|].
  assert (ents (mk d a elm (mk d E z b)) ≡ₚ elm :: ents (mk d a z b)) as Hents.
  { rewrite !ents_mk_perm. cbn [ents app]. apply Permutation_skip. symmetry. apply Permutation_middle. }
  assert (s_at elm ≠ s_at z) as Hez by (intros Heq; apply Hnin; rewrite Heq; by apply (list_elem_of_fmap_2 s_at)).
  rewrite ents_mk_perm in Hnd. assert (∀ y, y ∈ ents a ∨ y ∈ ents b → ∀ e, Lk' (s_at y) e = Lk (s_at y) e) as He.
  { intros y Hy e. unfold Lk'. rewrite !upd_link_ne; [done|left..].
    - intros Heq. apply Hnin. rewrite <-Heq. apply (list_elem_of_fmap_2 s_at). rewrite ents_mk_perm, elem_of_cons, elem_of_app. tauto.
    - intros Heq. apply Hnin. rewrite <-Heq. apply (list_elem_of_fmap_2 s_at). rewrite ents_mk_perm, elem_of_cons, elem_of_app. tauto.
    - apply (addr_ne _ _ _ Hnd). rewrite elem_of_app. tauto. }
  split; [|split].
  - apply shape_mk. split; [done|]. split.
    + replace (Lk' (s_at elm) d) with (ptr a); [eapply shape_ext; [|exact Ha]; intros; apply He; by left|].
      unfold Lk'. rewrite upd_link_ne by by left. rewrite upd_link_ne by (right; intros Heq; by apply (opp_ne d)).
      by rewrite upd_link_eq.
    + replace (Lk' (s_at elm) (opp d)) with (s_at z).
      2:{ unfold Lk'. rewrite upd_link_ne by by left. by rewrite upd_link_eq. }
      apply shape_mk. split; [done|]. split; [cbn; unfold Lk'; by rewrite upd_link_eq|].
      replace (Lk' (s_at z) (opp d)) with (Lk (s_at z) (opp d)); [eapply shape_ext; [|exact Hb]; intros; apply He; by right|].
      unfold Lk'. rewrite upd_link_ne by (right; apply opp_ne). rewrite !upd_link_ne by (left; congruence). done.
  - rewrite Hents. cbn. apply NoDup_cons. split; [done|]. by rewrite ents_mk_perm.
  - intros x. rewrite Hents. intros [-> | Hx]%elem_of_cons; [done|by apply Hin].
Qed.

Lemma insert_empty_run fr xs elm m :
  tree_in head fr xs E m → elm ∈ xs →
  ∃ m', (_ ← SET_LINK DR (s_at elm) 0; _ ← SET_LINK DL (s_at elm) 0; _ ← SET_ROOT head (s_at elm); mret 0) m =
      Done (0, m') ∧ tree_in head fr xs (T E elm E) m'.
Proof.
  intros (Lk & Hm & _) Helm.
  destruct (SET_LINK_run head fr _ _ _ _ DR elm 0 Hm Helm) as (m1 & Hrun1 & Hm1). run_to Hrun1.
  destruct (SET_LINK_run head fr _ _ _ _ DL elm 0 Hm1 Helm) as (m2 & Hrun2 & Hm2). run_to Hrun2.
  destruct (SPL_SET_ROOT_run head fr _ (s_at elm) _ _ _ Hm2) as (m3 & Hrun3 & Hm3). run_to Hrun3.
  exists m3. split; [done|]. eexists. split; [exact Hm3|]. cbn. rewrite upd_link_eq.
  rewrite upd_link_ne by (by right). rewrite upd_link_eq. split; [done|]. split; [apply NoDup_singleton|].
  by intros x ->%list_elem_of_singleton.
Qed.

Lemma not_in_tree fr L elm ys t m :
  tree_in head fr (L ++ elm :: ys) t m → s_at elm ∉ addrs L.
Proof.
  intros (Lk & Hm & _). pose proof (smem_nodup _ _ _ _ _ _ Hm) as Hnd. rewrite fmap_app, fmap_cons in Hnd.
  apply NoDup_app in Hnd as (_ & Hdis & _). intros Hin. apply (Hdis _ Hin). apply elem_of_cons. by left.
Qed.

(** The place of a key in the order. *)
Definition key_between (k : K) L1 L2 : Prop :=
  (∀ y, y ∈ L1 → cmp (s_key y) k < 0) ∧ ∀ y, y ∈ L2 → cmp k (s_key y) < 0.

Lemma ordered_insert L1 elm L2 :
  ordered (L1 ++ L2) → key_between (s_key elm) L1 L2 → ordered (L1 ++ elm :: L2).
Proof.
  intros (H1 & H2 & H12)%ordered_app [Hl Hr]. apply ordered_app. split; [done|]. split.
  - constructor; [done|]. by apply Forall_forall.
  - intros x y Hx [-> | Hy]%elem_of_cons; [by apply Hl|by apply H12].
Qed.

Lemma SPLAY_INSERT_run fr L ys elm m :
  spl_repr fr L (elm :: ys) m → ordered L →
  (∀ x, x ∈ L → cmp (s_key elm) (s_key x) = 0 →
    ∃ m', SPLAY_INSERT cmp head (s_at elm) m = Done (s_at x, m') ∧ spl_repr fr L (elm :: ys) m') ∧
  ((∀ x, x ∈ L → cmp (s_key elm) (s_key x) ≠ 0) →
    ∃ L1 L2 m', SPLAY_INSERT cmp head (s_at elm) m = Done (0, m') ∧ L = L1 ++ L2 ∧
      key_between (s_key elm) L1 L2 ∧ spl_repr fr (L1 ++ elm :: L2) ys m').
Proof.
  intros (t & <- & Ht) Ho. pose proof (not_in_tree _ _ _ _ _ _ Ht) as Hnin. unfold SPLAY_INSERT.
  assert (elm ∈ ents t ++ elm :: ys) as Helm by (apply elem_of_app; right; apply elem_of_cons; by left).
  rewrite (bind_done _ _ _ _ _ (SPLAY_EMPTY_run _ _ _ _ Ht)). destruct t as [|l0 x0 r0].
  { split; [by intros x ?%elem_of_nil|]. intros _. destruct (insert_empty_run _ _ elm m Ht Helm) as (m' & Hrun & Ht').
    exists [], [], m'. split; [exact Hrun|]. split; [done|]. split; [split; by intros ? ?%elem_of_nil|].
    by apply (spl_repr_intro _ _ (T E elm E)) with (1 := Ht'). }
  assert (T l0 x0 r0 ≠ E) as Hc by done. set (t := T l0 x0 r0) in *.
  destruct (splay_compare_run _ _ elm t m Ht Helm Hc Ho) as (l & z & r & m1 & Hrun & Ht1 & Hents & Hsp & Hroot & Hcmp).
  run_to Hrun. run_to Hroot. run_to Hcmp. rewrite <-Hents in Ho, Hnin, Ht1 |- *. split.
  { intros x Hx Hk. destruct (splayed_found _ _ _ _ x Ho Hsp Hx Hk) as [-> ->]. exists m1.
    split; [done|]. by exists (T l z r). }
  intros Hno. assert (cmp (s_key elm) (s_key z) ≠ 0) as Hne.
  { apply Hno. cbn. apply elem_of_app. right. apply elem_of_cons. by left. }
  pose proof (splayed_between _ _ _ _ Ho Hsp Hne) as Hbt.
  destruct (Z.ltb_spec (cmp (s_key elm) (s_key z)) 0) as [Hlt|Hge].
  - destruct (tree_root_link _ _ DL l z r m1 Ht1) as [_ Hlink]. run_to Hlink.
    destruct (insert_root_run _ _ DL l z r elm m1 Ht1) as (m' & Hrun' & Ht'); [by rewrite Hents|done|].
    exists (ents l), (z :: ents r), m'. split; [exact Hrun'|]. split; [done|]. split; [done|].
    apply (spl_repr_intro _ _ (T l elm (T E z r))) with (1 := Ht'). cbn. solve_Permutation.
  - destruct (Z.ltb_spec 0 (cmp (s_key elm) (s_key z))); [|lia].
    destruct (tree_root_link _ _ DR r z l m1 Ht1) as [_ Hlink]. run_to Hlink.
    destruct (insert_root_run _ _ DR r z l elm m1 Ht1) as (m' & Hrun' & Ht'); [by rewrite Hents|done|].
    exists (ents l ++ [z]), (ents r), m'. split; [exact Hrun'|]. split; [cbn; by rewrite <-app_assoc|]. split; [done|].
    apply (spl_repr_intro _ _ (T (T l z E) elm r)) with (1 := Ht'). cbn. rewrite <-!app_assoc. cbn. solve_Permutation.
Qed.

(** ** Removal *)

(** The links of the elements [A] are those of [Lk]. *)
Definition joined A Lk Lk' : links := λ a e, if decide (a ∈ addrs A) then Lk a e else Lk' a e.

Lemma joined_in A Lk Lk' x e : x ∈ A → joined A Lk Lk' (s_at x) e = Lk (s_at x) e.
Proof. intros Hx. unfold joined. rewrite decide_True; [done|]. by apply (list_elem_of_fmap_2 s_at). Qed.

Lemma joined_out A Lk Lk' a e : a ∉ addrs A → joined A Lk Lk' a e = Lk' a e.
Proof. intros Ha. unfold joined. by rewrite decide_False. Qed.

(** The elements [A] wait in the frame. *)
Lemma smem_split fr rt Lk A B m :
  smem head fr rt Lk (A ++ B) m →
  ∃ fr', smem head fr' rt Lk B m ∧
    ∀ rt' Lk' m', smem head fr' rt' Lk' B m' → smem head fr rt' (joined A Lk Lk') (A ++ B) m'.
Proof.
  intros Hm. pose proof (smem_nodup _ _ _ _ _ _ Hm) as Hnd. destruct Hm as [Ho Hn].
  rewrite fmap_app in Ho. rewrite fmap_app in Hnd. apply NoDup_app in Hnd as (_ & Hdis & _).
  assert ((head, SHead rt) :: (scell Lk <$> A) ++ (scell Lk <$> B) ≡ₚ
    (scell Lk <$> A) ++ (head, SHead rt) :: (scell Lk <$> B)) as Hp by solve_Permutation.
  rewrite Hp in Ho. apply owns_split in Ho as (fr' & HA & HB). exists fr'. split.
  { split; [done|]. intros x Hx. apply Hn, elem_of_app. by right. }
  intros rt' Lk' m' [HB' _]. split; [|done]. rewrite fmap_app.
  rewrite (scells_ext Lk _ A) by (intros; by apply joined_in).
  rewrite (scells_ext Lk' _ B).
  - pose proof (owns_join _ _ _ _ _ HA HB') as Hj. revert Hj. apply owns_perm. solve_Permutation.
  - intros x e Hx. apply joined_out. intros HA'. apply (Hdis _ HA'). by apply (list_elem_of_fmap_2 s_at).
Qed.

(** A tree without its root and its right subtree [r], which waits until it is
    put to the right of the new root. *)
Lemma detach_run fr xs l z r m :
  tree_in head fr xs (T l z r) m →
  ∃ fr' zs m1, SET_ROOT head (ptr l) m = Done (tt, m1) ∧ tree_in head fr' zs l m1 ∧ xs ≡ₚ ents r ++ zs ∧
    ∀ l' z' m2, tree_in head fr' zs (T l' z' E) m2 → ents l' ++ [z'] = ents l →
      ∃ m3, SET_LINK DR (s_at z') (ptr r) m2 = Done (tt, m3) ∧ tree_in head fr xs (T l' z' r) m3.
Proof.
  intros (Lk & Hm & Hsh & Hnd & Hin). cbn [shape ptr ents] in *. destruct Hsh as (_ & Hshl & Hshr).
  rewrite (shape_ptr _ _ _ Hshl) in Hshl. rewrite (shape_ptr _ _ _ Hshr) in Hshr.
  destruct (SPL_SET_ROOT_run head fr _ (ptr l) _ _ _ Hm) as (m1 & Hrun1 & Hm1).
  rewrite fmap_app, fmap_cons in Hnd. apply NoDup_app in Hnd as (Hndl & Hdis & [_ Hndr]%NoDup_cons).
  assert (∃ zs, xs ≡ₚ ents r ++ zs) as [zs Hzs].
  { assert (ents r ⊆+ xs) as Hsub; [|by apply submseteq_Permutation in Hsub].
    apply NoDup_submseteq; [by apply NoDup_fmap_1 in Hndr|]. intros y Hy. apply Hin, elem_of_app. right.
    apply elem_of_cons. by right. }
  apply (smem_perm _ _ _ _ _ _ _ Hzs) in Hm1. destruct (smem_split _ _ _ _ _ _ Hm1) as (fr' & Hmz & Hback).
  assert (∀ y, y ∈ ents l → s_at y ∉ addrs (ents r)) as Hlr.
  { intros y Hy Hyr. apply (Hdis (s_at y)); [by apply (list_elem_of_fmap_2 s_at)|]. apply elem_of_cons. by right. }
  exists fr', zs, m1. split; [done|]. split; [|split; [done|]].
  { exists Lk. split_and!; try done. intros y Hy.
    assert (y ∈ ents r ++ zs) as [Hyr|?]%elem_of_app by (rewrite <-Hzs; apply Hin, elem_of_app; by left); [|done].
    exfalso. apply (Hlr y Hy). by apply (list_elem_of_fmap_2 s_at). }
  intros l' z' m2 (Lk2 & Hm2 & Hsh2 & Hnd2 & Hin2) Hents. cbn [shape ptr ents] in *. rewrite Hents in Hnd2, Hin2.
  destruct Hsh2 as (_ & Hshl' & _). assert (z' ∈ ents l) as Hz' by (rewrite <-Hents; apply elem_of_app; right; apply list_elem_of_here).
  destruct (SET_LINK_run head fr' _ _ _ _ DR z' (ptr r) Hm2 (Hin2 z' Hz')) as (m3 & Hrun3 & Hm3).
  exists m3. split; [done|]. apply Hback in Hm3. apply (smem_perm _ _ _ _ _ _ _ (symmetry Hzs)) in Hm3.
  eexists. split; [exact Hm3|]. cbn [shape ptr ents]. split; [|split].
  - rewrite !(joined_out (ents r)) by by apply Hlr. rewrite upd_link_eq, upd_link_ne by by right. split; [done|]. split.
    + eapply shape_ext; [|exact Hshl']. intros y e Hy. rewrite joined_out by (apply Hlr; rewrite <-Hents; apply elem_of_app; by left).
      apply upd_link_ne. left. rewrite <-Hents, fmap_app in Hnd2. apply NoDup_app in Hnd2 as (_ & Hd & _).
      intros Heq. apply (Hd (s_at y)); [by apply (list_elem_of_fmap_2 s_at)|]. rewrite Heq. apply list_elem_of_here.
    + eapply shape_ext; [|exact Hshr]. intros y e Hy. by apply joined_in.
  - rewrite cons_middle, app_assoc, Hents, fmap_app. apply NoDup_app. split; [done|]. split; [|done].
    intros a Ha Ha'. apply (Hdis a Ha). apply elem_of_cons. by right.
  - intros y. rewrite cons_middle, app_assoc, Hents. intros [Hy|Hy]%elem_of_app; apply Hin, elem_of_app; [by left|].
    right. apply elem_of_cons. by right.
Qed.

(** The last splay of SPLAY_REMOVE: every element of [l] is less than [elm], so
    the greatest becomes the root, and [r] its right subtree. *)
Lemma splay_left_run fr xs l z r elm m :
  tree_in head fr xs (T l z r) m → elm ∈ xs → elm ∉ ents r → l ≠ E → ordered (ents (T l z r)) →
  cmp (s_key elm) (s_key z) = 0 →
  ∃ m' l', (_ ← SET_ROOT head (ptr l); _ ← SPLAY cmp head (s_at elm); r' ← SPLAY_ROOT head;
      _ ← SET_LINK DR r' (ptr r); mret (s_at elm)) m = Done (s_at elm, m') ∧
    tree_in head fr xs l' m' ∧ ents l' = ents l ++ ents r.
Proof.
  intros Ht Helm Her Hl Ho Hk. destruct (detach_run _ _ _ _ _ _ Ht) as (fr' & zs & m1 & Hrun1 & Htl & Hzs & Hback).
  run_to Hrun1. assert (elm ∈ zs) as Hez by (rewrite Hzs in Helm; apply elem_of_app in Helm; tauto).
  destruct (ordered_T l z r Ho) as [Hlz _]. apply ordered_app in Ho as (Hol & _ & _).
  destruct (SPLAY_run cmp head fr' zs elm l m1 Htl Hez Hl Hol) as (l' & z' & r' & m2 & Hrun2 & Htl' & Hents & Hsp).
  run_to Hrun2. run_to (tree_in_root _ _ _ _ Htl').
  assert (∀ y, y ∈ ents l → 0 < cmp (s_key elm) (s_key y)) as Hgt.
  { intros y Hy. apply (cmp_neg cmp). apply (cmp_lt_le cmp _ (s_key z)); [by apply Hlz|]. apply (cmp_zero cmp) in Hk. lia. }
  rewrite <-Hents in Hgt. cbn [ents] in Hgt.
  assert (0 < cmp (s_key elm) (s_key z')) as Hz' by (apply Hgt, elem_of_app; right; apply elem_of_cons; by left).
  assert (r' = E) as ->.
  { destruct Hsp as [?|[[? _]|[_ Hr]]]; [lia..|]. apply ents_nil. destruct (ents r') as [|y ys]; [done|]. exfalso.
    specialize (Hr y (list_elem_of_here _ _)). specialize (Hgt y). rewrite elem_of_app, !elem_of_cons in Hgt.
    specialize (Hgt ltac:(tauto)). lia. }
  cbn [ents] in Hents. destruct (Hback l' z' m2 Htl' Hents) as (m3 & Hrun3 & Ht3). run_to Hrun3.
  exists m3, (T l' z' r). split; [done|]. split; [done|]. rewrite <-Hents. cbn. by rewrite <-app_assoc.
Qed.

Lemma SPLAY_REMOVE_run fr L ys elm m :
  spl_repr fr L ys m → ordered L → elm ∈ L ++ ys →
  (∀ L1 x L2, L = L1 ++ x :: L2 → cmp (s_key elm) (s_key x) = 0 →
    ∃ m', SPLAY_REMOVE cmp head (s_at elm) m = Done (s_at elm, m') ∧ spl_repr fr (L1 ++ L2) (x :: ys) m') ∧
  ((∀ x, x ∈ L → cmp (s_key elm) (s_key x) ≠ 0) →
    ∃ m', SPLAY_REMOVE cmp head (s_at elm) m = Done (0, m') ∧ spl_repr fr L ys m').
Proof.
  intros (t & <- & Ht) Ho Helm. unfold SPLAY_REMOVE. rewrite (bind_done _ _ _ _ _ (SPLAY_EMPTY_run _ _ _ _ Ht)).
  destruct t as [|l0 x0 r0].
  { split; [intros L1 x L2 Heq; by destruct L1|]. intros _. exists m. split; [done|by exists E]. }
  assert (T l0 x0 r0 ≠ E) as Hc by done. set (t := T l0 x0 r0) in *.
  destruct (splay_compare_run _ _ elm t m Ht Helm Hc Ho) as (l & z & r & m1 & Hrun & Ht1 & Hents & Hsp & Hroot & Hcmp).
  run_to Hrun. run_to Hroot. run_to Hcmp. rewrite <-Hents in *. split.
  2:{ intros Hno. exists m1. split; [|by exists (T l z r)].
      destruct (Z.eqb_spec (cmp (s_key elm) (s_key z)) 0) as [H0|]; [|done]. exfalso. eapply Hno, H0.
      cbn. apply elem_of_app. right. apply elem_of_cons. by left. }
  intros L1 x L2 Heq Hk. assert (x ∈ ents (T l z r)) as Hx by (rewrite Heq; apply elem_of_app; right; apply list_elem_of_here).
  destruct (splayed_found _ _ _ _ x Ho Hsp Hx Hk) as [-> ->]. cbn [Z.eqb].
  pose proof (tree_nodup _ _ _ _ Ht1) as Hnd. cbn [ents] in Heq, Hnd.
  destruct (split_unique z L1 L2 _ _ Hnd (symmetry Heq)) as [-> ->].
  destruct (tree_root_link _ _ DL l z r m1 Ht1) as [_ HlinkL]. run_to HlinkL.
  destruct (tree_root_link _ _ DR r z l m1 Ht1) as [_ HlinkR]. run_to HlinkR.
  assert (ents (T l z r) ++ ys ≡ₚ (ents l ++ ents r) ++ z :: ys) as Hp by (cbn; solve_Permutation).
  destruct (ordered_T l z r Ho) as [_ Hzr].
  assert (elm ∉ ents r) as Her by (intros Hr; specialize (Hzr elm Hr); apply (cmp_zero cmp) in Hk; lia).
  destruct l as [|ll w lr].
  - destruct Ht1 as (Lk & Hm & Hsh & Hnd1 & Hin1). cbn [shape ptr ents app] in *. destruct Hsh as (_ & _ & Hr).
    destruct (SPL_SET_ROOT_run head fr _ (ptr r) _ _ _ Hm) as (m' & Hrun' & Hm'). exists m'. split; [cbn [Z.eqb]; by run_to Hrun'|].
    apply (spl_repr_intro _ ((z :: ents r) ++ ys)); [|done]. exists Lk. split; [done|].
    rewrite (shape_ptr _ _ _ Hr) in Hr. split; [done|]. split; [by apply NoDup_cons in Hnd1 as [_ ?]|].
    intros y Hy. apply Hin1, elem_of_cons. by right.
  - set (l := T ll w lr) in *. assert (ptr l ≠ 0) as Hpl.
    { destruct Ht1 as (_ & [_ Hn] & _ & _ & Hin1). apply Hn, Hin1. cbn. rewrite !elem_of_app, elem_of_cons. tauto. }
    destruct (Z.eqb_spec (ptr l) 0); [done|].
    destruct (splay_left_run fr _ l z r elm m1 Ht1 Helm Her ltac:(done) Ho Hk) as (m' & l' & Hrun' & Ht' & Hents').
    exists m'. split; [exact Hrun'|]. rewrite <-Hents'. apply (spl_repr_intro _ _ _ _ _ Ht'). by rewrite Hents'.
Qed.
End ops.
