(* ===== verification/SplTheorems.v ===== *)
(** * SplTheorems: splay trees implement an ordered list

    The specification keeps the elements of the tree as a list in order and
    those that are in no tree as a pool; the operations search, insert into and
    delete from the list.  [splay_refines_list] is the refinement, for any
    sequence of operations. *)

From stdpp Require Import sorting.
From S2P Require Import Prelude.
From S2P Require Import Own.
From S2P Require Import SplTree.
From S2P Require Import SplShape.
From S2P Require Import SplMem.
From S2P Require Import SplProofs.
From S2P Require Import SplOps.

(** ** The specification *)

Inductive spl_op (K : Type) :=
  | OpInsert (elm : snode K)
  | OpRemove (elm : snode K)
  | OpFind (elm : snode K)
  | OpNext (x : snode K)
  | OpMin
  | OpMax
  | OpForeach.
Arguments OpInsert {K}.
Arguments OpRemove {K}.
Arguments OpFind {K}.
Arguments OpNext {K}.
Arguments OpMin {K}.
Arguments OpMax {K}.
Arguments OpForeach {K}.

Section spec.
Context {K : Type} (cmp : K → K → Z) (head : Z).
Implicit Types (L ys : list (snode K)) (x y elm : snode K) (k : K) (op : spl_op K).

Fixpoint lookup_key k L : option (snode K) :=
  match L with
  | [] => None
  | y :: L => if cmp k (s_key y) =? 0 then Some y else lookup_key k L
  end.

Fixpoint insert_elm elm L : list (snode K) :=
  match L with
  | [] => [elm]
  | y :: L => if cmp (s_key elm) (s_key y) <? 0 then elm :: y :: L else y :: insert_elm elm L
  end.

Definition delete_key k L : list (snode K) := filter (λ y, cmp k (s_key y) ≠ 0) L.
Definition past_key k L : list (snode K) := filter (λ y, cmp k (s_key y) < 0) L.
Definition out_of_pool elm ys : list (snode K) := filter (λ y, s_at y ≠ s_at elm) ys.

(** The tree's elements in order, and the others. *)
Definition spl_state : Type := list (snode K) * list (snode K).

(** What an operation returns, and the state it leaves. *)
Definition spl_spec_op (st : spl_state) op : list Z * spl_state :=
  let '(L, ys) := st in
  match op with
  | OpInsert elm =>
      match lookup_key (s_key elm) L with
      | Some x => ([s_at x], st)
      | None => ([0], (insert_elm elm L, out_of_pool elm ys))
      end
  | OpRemove elm =>
      match lookup_key (s_key elm) L with
      | Some x => ([s_at elm], (delete_key (s_key elm) L, x :: ys))
      | None => ([0], st)
      end
  | OpFind elm =>
      match lookup_key (s_key elm) L with Some x => ([s_at x], st) | None => ([0], st) end
  | OpNext x => ([first_at (past_key (s_key x) L)], st)
  | OpMin => ([first_at L], st)
  | OpMax => ([last_at L], st)
  | OpForeach => (s_at <$> L, st)
  end.

(** What the caller owes: an element that is inserted is in no tree, one that is
    searched exists, and the predecessor of [SPLAY_NEXT] is in the tree. *)
Definition spl_valid_op (st : spl_state) op : Prop :=
  match op with
  | OpInsert elm => elm ∈ st.2
  | OpRemove elm | OpFind elm => elm ∈ st.1 ++ st.2
  | OpNext x => x ∈ st.1
  | OpMin | OpMax | OpForeach => True
  end.

Fixpoint spl_spec_ops (st : spl_state) (ops : list (spl_op K)) : list (list Z) * spl_state :=
  match ops with
  | [] => ([], st)
  | op :: ops =>
      let '(r, st) := spl_spec_op st op in
      let '(rs, st) := spl_spec_ops st ops in
      (r :: rs, st)
  end.

Fixpoint spl_valid_ops (st : spl_state) (ops : list (spl_op K)) : Prop :=
  match ops with
  | [] => True
  | op :: ops => spl_valid_op st op ∧ spl_valid_ops (spl_spec_op st op).2 ops
  end.

(** The calls. *)
Definition spl_run_op op : cmd (gmap Z (sblock K)) (list Z) :=
  match op with
  | OpInsert elm => r ← SPLAY_INSERT cmp head (s_at elm); mret [r]
  | OpRemove elm => r ← SPLAY_REMOVE cmp head (s_at elm); mret [r]
  | OpFind elm => r ← SPLAY_FIND cmp head (s_at elm); mret [r]
  | OpNext x => r ← SPLAY_NEXT cmp head (s_at x); mret [r]
  | OpMin => r ← SPLAY_MIN head; mret [r]
  | OpMax => r ← SPLAY_MAX head; mret [r]
  | OpForeach => SPLAY_FOREACH cmp head
  end.

Fixpoint spl_run_ops (ops : list (spl_op K)) : cmd (gmap Z (sblock K)) (list (list Z)) :=
  match ops with
  | [] => mret []
  | op :: ops => r ← spl_run_op op; rs ← spl_run_ops ops; mret (r :: rs)
  end.
End spec.

(** ** Facts on ordered lists *)

Section lists.
Context {K : Type} (cmp : K → K → Z) `{!CmpSpec cmp}.
Implicit Types (L ys : list (snode K)) (x y elm : snode K) (k : K).

Lemma lookup_key_Some k L x : lookup_key cmp k L = Some x → x ∈ L ∧ cmp k (s_key x) = 0.
Proof.
  induction L as [|y L IH]; [done|]. cbn. destruct (Z.eqb_spec (cmp k (s_key y)) 0).
  - intros [= ->]. split; [apply list_elem_of_here|done].
  - intros [Hx ?]%IH. split; [apply elem_of_cons; by right|done].
Qed.

Lemma lookup_key_None k L : lookup_key cmp k L = None → ∀ x, x ∈ L → cmp k (s_key x) ≠ 0.
Proof.
  induction L as [|y L IH]; cbn; [by intros _ x ?%elem_of_nil|].
  destruct (Z.eqb_spec (cmp k (s_key y)) 0); [done|]. intros HN x [-> | Hx]%elem_of_cons; [done|by apply IH].
Qed.

Lemma insert_elm_split elm L1 L2 :
  key_between cmp (s_key elm) L1 L2 → insert_elm cmp elm (L1 ++ L2) = L1 ++ elm :: L2.
Proof.
  intros [Hl Hr]. induction L1 as [|y L1 IH]; cbn.
  - destruct L2 as [|z L2]; [done|]. cbn. specialize (Hr z (list_elem_of_here _ _)).
    by destruct (Z.ltb_spec (cmp (s_key elm) (s_key z)) 0); [|lia].
  - assert (cmp (s_key y) (s_key elm) < 0) as Hy by apply Hl, list_elem_of_here. apply (cmp_neg cmp) in Hy.
    destruct (Z.ltb_spec (cmp (s_key elm) (s_key y)) 0); [lia|]. rewrite IH; [done|].
    intros z Hz. apply Hl, elem_of_cons. by right.
Qed.

(** The elements before and after one of key [k]. *)
Lemma around_key k L1 x L2 :
  ordered cmp (L1 ++ x :: L2) → cmp k (s_key x) = 0 →
  (∀ y, y ∈ L1 → 0 < cmp k (s_key y)) ∧ ∀ y, y ∈ L2 → cmp k (s_key y) < 0.
Proof.
  intros (_ & H2 & H12)%ordered_app Hk. apply (ordered_app cmp [x]) in H2 as (_ & _ & H2). split.
  - intros y Hy. specialize (H12 y x Hy (list_elem_of_here _ _)). apply (cmp_neg cmp).
    apply (cmp_lt_le cmp _ (s_key x)); [done|]. apply (cmp_zero cmp) in Hk. lia.
  - intros y Hy. apply (cmp_le_lt cmp _ (s_key x)); [lia|]. apply H2; [apply list_elem_of_here|done].
Qed.

Lemma filter_all (P : snode K → Prop) `{!∀ x, Decision (P x)} L : (∀ x, x ∈ L → P x) → filter P L = L.
Proof.
  induction L as [|x L IH]; intros HP; [done|]. rewrite filter_cons_True by apply HP, list_elem_of_here.
  rewrite IH; [done|]. intros y Hy. apply HP, elem_of_cons. by right.
Qed.

Lemma filter_none (P : snode K → Prop) `{!∀ x, Decision (P x)} L : (∀ x, x ∈ L → ¬ P x) → filter P L = [].
Proof.
  induction L as [|x L IH]; intros HP; [done|]. rewrite filter_cons_False by apply HP, list_elem_of_here.
  apply IH. intros y Hy. apply HP, elem_of_cons. by right.
Qed.

Lemma delete_key_split k L1 x L2 :
  ordered cmp (L1 ++ x :: L2) → cmp k (s_key x) = 0 → delete_key cmp k (L1 ++ x :: L2) = L1 ++ L2.
Proof.
  intros Ho Hk. destruct (around_key k L1 x L2 Ho Hk) as [Hl Hr]. unfold delete_key. rewrite filter_app.
  rewrite filter_cons_False by (intros Hne; by apply Hne).
  rewrite !filter_all; [done| |]; intros y Hy; [specialize (Hr y Hy)|specialize (Hl y Hy)]; lia.
Qed.

Lemma past_key_split L1 x L2 : ordered cmp (L1 ++ x :: L2) → past_key cmp (s_key x) (L1 ++ x :: L2) = L2.
Proof.
  intros Ho. destruct (around_key (s_key x) L1 x L2 Ho (cmp_self cmp _)) as [Hl Hr]. unfold past_key.
  rewrite filter_app, (filter_none _ L1) by (intros y Hy; specialize (Hl y Hy); lia).
  rewrite filter_cons_False by (pose proof (cmp_self cmp (s_key x)); lia). by rewrite (filter_all _ L2).
Qed.

Lemma out_of_pool_perm elm ys zs : NoDup (s_at <$> ys) → ys ≡ₚ elm :: zs → out_of_pool elm ys ≡ₚ zs.
Proof.
  intros Hnd Hp. rewrite Hp in Hnd. cbn in Hnd. apply NoDup_cons in Hnd as [Hnin _]. unfold out_of_pool.
  rewrite Hp, filter_cons_False by (intros Hne; by apply Hne). rewrite filter_all; [done|].
  intros y Hy Heq. apply Hnin. rewrite <-Heq. by apply (list_elem_of_fmap_2 s_at).
Qed.
End lists.

(** ** Refinement *)

Section refines.
Context {K : Type} (cmp : K → K → Z) `{!CmpSpec cmp} (head : Z) (fr : gmap Z (sblock K)).
Implicit Types (L ys : list (snode K)) (x y elm : snode K) (op : spl_op K) (m : gmap Z (sblock K)).
Notation spl_repr := (spl_repr head fr).

Lemma spl_repr_pool L ys ys' m : ys ≡ₚ ys' → spl_repr L ys m → spl_repr L ys' m.
Proof. intros Hp (t & Ht & Htr). exists t. split; [done|]. eapply tree_in_perm; [|exact Htr]. by rewrite Hp. Qed.

Lemma spl_repr_nodup L ys m : spl_repr L ys m → NoDup (s_at <$> L ++ ys).
Proof. intros (t & _ & (Lk & Hm & _)). by eapply smem_nodup. Qed.

Lemma insert_refines L ys elm m :
  spl_repr L ys m → ordered cmp L → elm ∈ ys →
  let '(r, st) := spl_spec_op cmp (L, ys) (OpInsert elm) in
  ∃ m', spl_run_op cmp head (OpInsert elm) m = Done (r, m') ∧ spl_repr st.1 st.2 m' ∧ ordered cmp st.1.
Proof.
  intros Hr Ho Helm. apply elem_of_Permutation in Helm as [zs Hzs].
  pose proof (spl_repr_nodup _ _ _ Hr) as Hnd. rewrite fmap_app in Hnd. apply NoDup_app in Hnd as (_ & _ & Hnd).
  pose proof (spl_repr_pool _ _ _ _ Hzs Hr) as Hr'.
  destruct (SPLAY_INSERT_run cmp head fr L zs elm m Hr' Ho) as [Hdup Hnew]. cbn.
  destruct (lookup_key cmp (s_key elm) L) as [x|] eqn:HL.
  - apply lookup_key_Some in HL as [Hx Hk]. destruct (Hdup x Hx Hk) as (m' & Hrun & Hr2). exists m'.
    split; [by run_to Hrun|]. split; [|done]. eapply spl_repr_pool; [|exact Hr2]. by rewrite Hzs.
  - destruct (Hnew (lookup_key_None cmp _ _ HL)) as (L1 & L2 & m' & Hrun & -> & Hkb & Hr2). exists m'.
    split; [by run_to Hrun|]. cbn [fst snd]. rewrite insert_elm_split by done.
    split; [|by apply ordered_insert]. eapply spl_repr_pool; [|exact Hr2]. symmetry. by apply out_of_pool_perm.
Qed.

Lemma remove_refines L ys elm m :
  spl_repr L ys m → ordered cmp L → elm ∈ L ++ ys →
  let '(r, st) := spl_spec_op cmp (L, ys) (OpRemove elm) in
  ∃ m', spl_run_op cmp head (OpRemove elm) m = Done (r, m') ∧ spl_repr st.1 st.2 m' ∧ ordered cmp st.1.
Proof.
  intros Hr Ho Helm. destruct (SPLAY_REMOVE_run cmp head fr L ys elm m Hr Ho Helm) as [Hin Hout]. cbn.
  destruct (lookup_key cmp (s_key elm) L) as [x|] eqn:HL.
  - apply lookup_key_Some in HL as [Hx Hk]. apply list_elem_of_split in Hx as (L1 & L2 & ->).
    destruct (Hin L1 x L2 eq_refl Hk) as (m' & Hrun & Hr2). exists m'. split; [by run_to Hrun|]. cbn [fst snd].
    rewrite (delete_key_split cmp _ _ x) by done. split; [done|].
    apply ordered_app in Ho as (H1 & H2 & H12). apply (ordered_app cmp [x]) in H2 as (_ & H2 & _).
    apply ordered_app. split_and!; [done..|]. intros a b Ha Hb. apply H12; [done|]. apply elem_of_cons. by right.
  - destruct (Hout (lookup_key_None cmp _ _ HL)) as (m' & Hrun & Hr2). exists m'. split; [by run_to Hrun|done].
Qed.

Lemma find_refines L ys elm m :
  spl_repr L ys m → ordered cmp L → elm ∈ L ++ ys →
  let '(r, st) := spl_spec_op cmp (L, ys) (OpFind elm) in
  ∃ m', spl_run_op cmp head (OpFind elm) m = Done (r, m') ∧ spl_repr st.1 st.2 m' ∧ ordered cmp st.1.
Proof.
  intros Hr Ho Helm. destruct (SPLAY_FIND_run cmp head fr L ys elm m Hr Helm Ho) as (m' & Hr2 & Hin & Hout). cbn.
  destruct (lookup_key cmp (s_key elm) L) as [x|] eqn:HL; exists m'; split; try done.
  - apply lookup_key_Some in HL as [Hx Hk]. by run_to (Hin x Hx Hk).
  - by run_to (Hout (lookup_key_None cmp _ _ HL)).
Qed.

Lemma spl_run_op_refines L ys op m :
  spl_repr L ys m → ordered cmp L → spl_valid_op (L, ys) op →
  let '(r, st) := spl_spec_op cmp (L, ys) op in
  ∃ m', spl_run_op cmp head op m = Done (r, m') ∧ spl_repr st.1 st.2 m' ∧ ordered cmp st.1.
Proof.
  intros Hr Ho Hv. destruct op as [elm|elm|elm|x| | |]; cbn in Hv.
  - by apply insert_refines.
  - by apply remove_refines.
  - by apply find_refines.
  - apply list_elem_of_split in Hv as (L1 & L2 & ->). cbn [spl_spec_op spl_run_op]. rewrite past_key_split by done.
    destruct (SPLAY_NEXT_run cmp head fr L1 x L2 ys m Hr Ho) as (m' & Hrun & Hr'). exists m'. split; [by run_to Hrun|done].
  - cbn [spl_spec_op spl_run_op]. destruct (SPLAY_MIN_run head fr L ys m Hr) as (m' & Hrun & Hr'). exists m'. split; [by run_to Hrun|done].
  - cbn [spl_spec_op spl_run_op]. destruct (SPLAY_MAX_run head fr L ys m Hr) as (m' & Hrun & Hr'). exists m'. split; [by run_to Hrun|done].
  - destruct (SPLAY_FOREACH_run cmp head fr L ys m Hr Ho) as (m' & Hrun & Hr'). by exists m'.
Qed.
End refines.

(** Claim C20: the splay trees of tree.h are ordered lists.  Any sequence of
    insertions, removals, searches, successors, least and greatest elements and
    SPLAY_FOREACH walks returns what the same operations on the ordered list of
    the elements return, for any comparison that is a total preorder: an
    insertion refuses an element whose key is there and returns that one, a
    removal takes exactly the element of the key out, and a walk visits every
    element once, in order, though every step of it restructures the tree.
    Every splay terminates, and the memory holds the elements, their links and
    nothing else after each call. *)
Theorem splay_refines_list {K} (cmp : K → K → Z) `{!CmpSpec cmp} head fr L ys m ops :
  spl_repr head fr L ys m → ordered cmp L → spl_valid_ops cmp (L, ys) ops →
  let '(rs, st) := spl_spec_ops cmp (L, ys) ops in
  ∃ m', spl_run_ops cmp head ops m = Done (rs, m') ∧ spl_repr head fr st.1 st.2 m' ∧ ordered cmp st.1.
Proof.
  revert L ys m. induction ops as [|op ops IH]; intros L ys m Hr Ho Hv; [by exists m|].
  destruct Hv as [Hop Hops]. pose proof (spl_run_op_refines cmp head fr L ys op m Hr Ho Hop) as Hstep.
  cbn [spl_spec_ops spl_run_ops]. revert Hops Hstep.
  destruct (spl_spec_op cmp (L, ys) op) as [r [L1 ys1]]. intros Hops Hstep. destruct Hstep as (m1 & Hrun1 & Hr1 & Ho1).
  specialize (IH L1 ys1 m1 Hr1 Ho1 Hops). cbn [fst snd] in IH. revert IH.
  destruct (spl_spec_ops cmp (L1, ys1) ops) as [rs st]. intros IH. destruct IH as (m' & Hrun & Hr' & Ho'). exists m'. split; [|done]. run_to Hrun1. by run_to Hrun.
Qed.

(** ** Example: three elements with integer keys *)

#[local] Instance sub_spec : CmpSpec Z.sub.
Proof. split; intros; lia. Qed.

Definition three : list (snode Z) := [Sn 32 5; Sn 48 3; Sn 64 9].
Definition empty_splay : gmap Z (sblock Z) :=
  list_to_map ((16, SHead 0) :: (scell (λ _ _, 7) <$> three)).

Lemma empty_splay_repr : spl_repr 16 ∅ [] three empty_splay.
Proof.
  exists E. split; [done|]. exists (λ _ _, 7). split; [split|split_and!].
  - split; [|split].
    + apply (bool_decide_unpack _). by vm_compute.
    + intros a _. apply lookup_empty.
    + unfold empty_splay. by rewrite map_union_empty.
  - intros x Hx. cbn in Hx. unfold three in Hx. rewrite !elem_of_cons in Hx.
    by destruct Hx as [-> | [-> | [-> | ?%elem_of_nil]]].
  - done.
  - constructor.
  - by intros x ?%elem_of_nil.
Qed.

(** All three are inserted, a second 5 is refused, the order is walked, 5 is
    removed. *)
Definition three_ops : list (spl_op Z) :=
  [OpInsert (Sn 32 5); OpInsert (Sn 64 9); OpInsert (Sn 48 3); OpForeach; OpRemove (Sn 32 5); OpForeach; OpMax].

Lemma splay_refines_list_witness :
  ∃ m, spl_run_ops Z.sub 16 three_ops empty_splay =
    Done ([[0]; [0]; [0]; [48; 32; 64]; [32]; [48; 64]; [64]], m).
Proof.
  destruct (splay_refines_list Z.sub 16 ∅ [] three empty_splay three_ops empty_splay_repr) as (m & Hrun & _).
  - constructor.
  - cbn [spl_valid_ops three_ops spl_valid_op]. split_and!; try done; apply (bool_decide_unpack _); by vm_compute.
  - exists m. exact Hrun.
Defined.
