(* ===== verification/Queue.v ===== *)
(** * Queue: the list macros of queue.h

    Singly-linked lists (SLIST), singly-linked tail queues (STAILQ), lists
    (LIST) and tail queues (TAILQ) are intrusive: an element is a structure of
    the caller with a [field] of links at a fixed offset, and a back link or a
    tail pointer is the address of a [next] pointer, whether that is in an
    element or in a head.  TAILQ_LAST and TAILQ_PREV go further and read a
    [field] as if it were a head.  So memory is a map from addresses to words
    here, and [&x->field] an addition.  Reading through a null element is
    undefined.

    The macros of the four kinds are separate commands, as in the source.  A
    loop takes its body as an argument, with an accumulator for what the body
    keeps; its fuel is the number of live words.  QUEUE_MACRO_DEBUG is off, so
    TRASHIT and the traces expand to nothing; so do the checks of a kernel
    with INVARIANTS, which are here as commands of their own that return
    whether the check passes. *)

From S2P Require Import Prelude.

Notation qmem := (gmap Z Z).

(** [sizeof(void * )]. *)
Definition PTR : Z := 8.

Definition load (a : Z) : cmd qmem Z := λ m,
  match m !! a with Some v => Done (v, m) | None => Undef end.
Definition store (a v : Z) : cmd qmem unit := λ m,
  match m !! a with Some _ => Done (tt, <[a := v]> m) | None => Undef end.

(** A loop over at most all words of the memory. *)
Definition live_words : cmd qmem nat := m ← get_state; mret (S (size m)).

Section loops.
Context {B : Type} (next : Z → cmd qmem Z).

(** [for (; var; var = next(var)) body] *)
Fixpoint for_loop (body : Z → B → cmd qmem B) (fuel : nat) (var : Z) (acc : B) : cmd qmem B :=
  match fuel with
  | O => nofuel
  | S fuel =>
      if var =? 0 then mret acc
      else acc ← body var acc; var ← next var; for_loop body fuel var acc
  end.

(** [for (; var && (tvar = next(var), 1); var = tvar) body] *)
Fixpoint for_safe_loop (body : Z → B → cmd qmem B) (fuel : nat) (var : Z) (acc : B) : cmd qmem B :=
  match fuel with
  | O => nofuel
  | S fuel =>
      if var =? 0 then mret acc
      else tvar ← next var; acc ← body var acc; for_safe_loop body fuel tvar acc
  end.
End loops.

Section code.
Context (field : Z).

(** [&elm->field], the address of its first word: [sle_next], [stqe_next],
    [le_next] or [tqe_next]; and of its second: [le_prev] or [tqe_prev]. *)
Definition next_at (elm : Z) : Z := elm + field.
Definition prev_at (elm : Z) : Z := next_at elm + PTR.

(** A member of an element, as a value and as the target of an assignment. *)
Definition member (at_ : Z → Z) (elm : Z) : cmd qmem Z :=
  if elm =? 0 then undef else load (at_ elm).
Definition set_member (at_ : Z → Z) (elm v : Z) : cmd qmem unit :=
  if elm =? 0 then undef else store (at_ elm) v.

(** A head is its first pointer, at the head's own address, and in a tail
    queue the pointer [stqh_last] or [tqh_last] after it. *)
Definition last_at (head : Z) : Z := head + PTR.

(** ** SLIST *)

Definition SLIST_FIRST (head : Z) : cmd qmem Z := load head.
Definition SLIST_EMPTY (head : Z) : cmd qmem bool := x ← SLIST_FIRST head; mret (x =? 0).
Definition SLIST_NEXT (elm : Z) : cmd qmem Z := member next_at elm.
Definition SLIST_INIT (head : Z) : cmd qmem unit := store head 0.

Definition SLIST_FOREACH {B} (head : Z) (body : Z → B → cmd qmem B) (acc : B) : cmd qmem B :=
  fuel ← live_words; var ← SLIST_FIRST head; for_loop SLIST_NEXT body fuel var acc.
Definition SLIST_FOREACH_FROM {B} (var head : Z) (body : Z → B → cmd qmem B) (acc : B) : cmd qmem B :=
  fuel ← live_words; var ← (if negb (var =? 0) then mret var else SLIST_FIRST head);
  for_loop SLIST_NEXT body fuel var acc.
Definition SLIST_FOREACH_SAFE {B} (head : Z) (body : Z → B → cmd qmem B) (acc : B) : cmd qmem B :=
  fuel ← live_words; var ← SLIST_FIRST head; for_safe_loop SLIST_NEXT body fuel var acc.
Definition SLIST_FOREACH_FROM_SAFE {B} (var head : Z) (body : Z → B → cmd qmem B) (acc : B) : cmd qmem B :=
  fuel ← live_words; var ← (if negb (var =? 0) then mret var else SLIST_FIRST head);
  for_safe_loop SLIST_NEXT body fuel var acc.

Fixpoint prevptr_loop {B} (body : Z → Z → B → cmd qmem B) (fuel : nat) (varp : Z) (acc : B) : cmd qmem B :=
  match fuel with
  | O => nofuel
  | S fuel =>
      var ← load varp;
      if var =? 0 then mret acc
      else acc ← body var varp acc; prevptr_loop body fuel (next_at var) acc
  end.

Definition SLIST_FOREACH_PREVPTR {B} (head : Z) (body : Z → Z → B → cmd qmem B) (acc : B) : cmd qmem B :=
  fuel ← live_words; prevptr_loop body fuel head acc.

Definition SLIST_INSERT_AFTER (slistelm elm : Z) : cmd qmem unit :=
  n ← SLIST_NEXT slistelm;
  _ ← set_member next_at elm n;
  set_member next_at slistelm elm.

Definition SLIST_INSERT_HEAD (head elm : Z) : cmd qmem unit :=
  n ← SLIST_FIRST head;
  _ ← set_member next_at elm n;
  store head elm.

Definition SLIST_REMOVE_AFTER (elm : Z) : cmd qmem unit :=
  n ← SLIST_NEXT elm;
  nn ← SLIST_NEXT n;
  set_member next_at elm nn.

Definition SLIST_REMOVE_HEAD (head : Z) : cmd qmem unit :=
  x ← SLIST_FIRST head;
  n ← SLIST_NEXT x;
  store head n.

(** [while (NEXT(curelm) != elm) curelm = NEXT(curelm);] *)
Fixpoint find_before (fuel : nat) (elm curelm : Z) : cmd qmem Z :=
  match fuel with
  | O => nofuel
  | S fuel =>
      n ← SLIST_NEXT curelm;
      if n =? elm then mret curelm
      else n ← SLIST_NEXT curelm; find_before fuel elm n
  end.

Definition SLIST_REMOVE (head elm : Z) : cmd qmem unit :=
  x ← SLIST_FIRST head;
  if x =? elm then SLIST_REMOVE_HEAD head
  else
    fuel ← live_words;
    curelm ← SLIST_FIRST head;
    curelm ← find_before fuel elm curelm;
    SLIST_REMOVE_AFTER curelm.

Definition SLIST_SWAP (head1 head2 : Z) : cmd qmem unit :=
  swap_first ← SLIST_FIRST head1;
  x ← SLIST_FIRST head2;
  _ ← store head1 x;
  store head2 swap_first.

(** ** STAILQ *)

Definition STAILQ_FIRST (head : Z) : cmd qmem Z := load head.
Definition STAILQ_EMPTY (head : Z) : cmd qmem bool := x ← STAILQ_FIRST head; mret (x =? 0).
Definition STAILQ_NEXT (elm : Z) : cmd qmem Z := member next_at elm.

Definition STAILQ_INIT (head : Z) : cmd qmem unit :=
  _ ← store head 0;
  store (last_at head) head.

Definition STAILQ_CONCAT (head1 head2 : Z) : cmd qmem unit :=
  e ← STAILQ_EMPTY head2;
  if negb e then
    x ← STAILQ_FIRST head2;
    l1 ← load (last_at head1);
    _ ← store l1 x;
    l2 ← load (last_at head2);
    _ ← store (last_at head1) l2;
    STAILQ_INIT head2
  else mret tt.

Definition STAILQ_FOREACH {B} (head : Z) (body : Z → B → cmd qmem B) (acc : B) : cmd qmem B :=
  fuel ← live_words; var ← STAILQ_FIRST head; for_loop STAILQ_NEXT body fuel var acc.
Definition STAILQ_FOREACH_FROM {B} (var head : Z) (body : Z → B → cmd qmem B) (acc : B) : cmd qmem B :=
  fuel ← live_words; var ← (if negb (var =? 0) then mret var else STAILQ_FIRST head);
  for_loop STAILQ_NEXT body fuel var acc.
Definition STAILQ_FOREACH_SAFE {B} (head : Z) (body : Z → B → cmd qmem B) (acc : B) : cmd qmem B :=
  fuel ← live_words; var ← STAILQ_FIRST head; for_safe_loop STAILQ_NEXT body fuel var acc.
Definition STAILQ_FOREACH_FROM_SAFE {B} (var head : Z) (body : Z → B → cmd qmem B) (acc : B) : cmd qmem B :=
  fuel ← live_words; var ← (if negb (var =? 0) then mret var else STAILQ_FIRST head);
  for_safe_loop STAILQ_NEXT body fuel var acc.

Definition STAILQ_INSERT_AFTER (head tqelm elm : Z) : cmd qmem unit :=
  n ← STAILQ_NEXT tqelm;
  _ ← set_member next_at elm n;
  _ ← (if n =? 0 then store (last_at head) (next_at elm) else mret tt);
  set_member next_at tqelm elm.

Definition STAILQ_INSERT_HEAD (head elm : Z) : cmd qmem unit :=
  n ← STAILQ_FIRST head;
  _ ← set_member next_at elm n;
  _ ← (if n =? 0 then store (last_at head) (next_at elm) else mret tt);
  store head elm.

Definition STAILQ_INSERT_TAIL (head elm : Z) : cmd qmem unit :=
  _ ← set_member next_at elm 0;
  l ← load (last_at head);
  _ ← store l elm;
  store (last_at head) (next_at elm).

(** [__containerof]: from the address of a [next] member to the element. *)
Definition containerof (p : Z) : Z := p - field.

Definition STAILQ_LAST (head : Z) : cmd qmem Z :=
  e ← STAILQ_EMPTY head;
  if (e : bool) then mret 0 else l ← load (last_at head); mret (containerof l).

Definition STAILQ_REMOVE_AFTER (head elm : Z) : cmd qmem unit :=
  n ← STAILQ_NEXT elm;
  nn ← STAILQ_NEXT n;
  _ ← set_member next_at elm nn;
  if nn =? 0 then store (last_at head) (next_at elm) else mret tt.

Definition STAILQ_REMOVE_HEAD (head : Z) : cmd qmem unit :=
  x ← STAILQ_FIRST head;
  n ← STAILQ_NEXT x;
  _ ← store head n;
  if n =? 0 then store (last_at head) head else mret tt.

Definition STAILQ_REMOVE (head elm : Z) : cmd qmem unit :=
  x ← STAILQ_FIRST head;
  if x =? elm then STAILQ_REMOVE_HEAD head
  else
    fuel ← live_words;
    curelm ← STAILQ_FIRST head;
    curelm ← find_before fuel elm curelm;
    STAILQ_REMOVE_AFTER head curelm.

Definition STAILQ_SWAP (head1 head2 : Z) : cmd qmem unit :=
  swap_first ← STAILQ_FIRST head1;
  swap_last ← load (last_at head1);
  x ← STAILQ_FIRST head2;
  _ ← store head1 x;
  l ← load (last_at head2);
  _ ← store (last_at head1) l;
  _ ← store head2 swap_first;
  _ ← store (last_at head2) swap_last;
  e ← STAILQ_EMPTY head1;
  _ ← (if (e : bool) then store (last_at head1) head1 else mret tt);
  e ← STAILQ_EMPTY head2;
  if (e : bool) then store (last_at head2) head2 else mret tt.

(** ** LIST *)

Definition LIST_FIRST (head : Z) : cmd qmem Z := load head.
Definition LIST_EMPTY (head : Z) : cmd qmem bool := x ← LIST_FIRST head; mret (x =? 0).
Definition LIST_NEXT (elm : Z) : cmd qmem Z := member next_at elm.
Definition LIST_INIT (head : Z) : cmd qmem unit := store head 0.

Definition QMD_LIST_CHECK_HEAD (head : Z) : cmd qmem bool :=
  x ← LIST_FIRST head;
  if x =? 0 then mret true
  else x ← LIST_FIRST head; p ← member prev_at x; mret (p =? head).

Definition QMD_LIST_CHECK_NEXT (elm : Z) : cmd qmem bool :=
  x ← LIST_NEXT elm;
  if x =? 0 then mret true
  else x ← LIST_NEXT elm; p ← member prev_at x; mret (p =? next_at elm).

Definition QMD_LIST_CHECK_PREV (elm : Z) : cmd qmem bool :=
  p ← member prev_at elm; x ← load p; mret (x =? elm).

Definition LIST_FOREACH {B} (head : Z) (body : Z → B → cmd qmem B) (acc : B) : cmd qmem B :=
  fuel ← live_words; var ← LIST_FIRST head; for_loop LIST_NEXT body fuel var acc.
Definition LIST_FOREACH_FROM {B} (var head : Z) (body : Z → B → cmd qmem B) (acc : B) : cmd qmem B :=
  fuel ← live_words; var ← (if negb (var =? 0) then mret var else LIST_FIRST head);
  for_loop LIST_NEXT body fuel var acc.
Definition LIST_FOREACH_SAFE {B} (head : Z) (body : Z → B → cmd qmem B) (acc : B) : cmd qmem B :=
  fuel ← live_words; var ← LIST_FIRST head; for_safe_loop LIST_NEXT body fuel var acc.
Definition LIST_FOREACH_FROM_SAFE {B} (var head : Z) (body : Z → B → cmd qmem B) (acc : B) : cmd qmem B :=
  fuel ← live_words; var ← (if negb (var =? 0) then mret var else LIST_FIRST head);
  for_safe_loop LIST_NEXT body fuel var acc.

Definition LIST_INSERT_AFTER (listelm elm : Z) : cmd qmem unit :=
  n ← LIST_NEXT listelm;
  _ ← set_member next_at elm n;
  _ ← (if negb (n =? 0)
       then x ← LIST_NEXT listelm; set_member prev_at x (next_at elm)
       else mret tt);
  _ ← set_member next_at listelm elm;
  set_member prev_at elm (next_at listelm).

Definition LIST_INSERT_BEFORE (listelm elm : Z) : cmd qmem unit :=
  p ← member prev_at listelm;
  _ ← set_member prev_at elm p;
  _ ← set_member next_at elm listelm;
  p ← member prev_at listelm;
  _ ← store p elm;
  set_member prev_at listelm (next_at elm).

Definition LIST_INSERT_HEAD (head elm : Z) : cmd qmem unit :=
  n ← LIST_FIRST head;
  _ ← set_member next_at elm n;
  _ ← (if negb (n =? 0)
       then x ← LIST_FIRST head; set_member prev_at x (next_at elm)
       else mret tt);
  _ ← store head elm;
  set_member prev_at elm head.

Definition LIST_PREV (elm head : Z) : cmd qmem Z :=
  p ← member prev_at elm;
  if p =? head then mret 0
  else p ← member prev_at elm; mret (containerof p).

Definition LIST_REMOVE (elm : Z) : cmd qmem unit :=
  n ← LIST_NEXT elm;
  _ ← (if negb (n =? 0)
       then p ← member prev_at elm; x ← LIST_NEXT elm; set_member prev_at x p
       else mret tt);
  n ← LIST_NEXT elm;
  p ← member prev_at elm;
  store p n.

Definition LIST_SWAP (head1 head2 : Z) : cmd qmem unit :=
  swap_tmp ← LIST_FIRST head1;
  x ← LIST_FIRST head2;
  _ ← store head1 x;
  _ ← store head2 swap_tmp;
  swap_tmp ← LIST_FIRST head1;
  _ ← (if negb (swap_tmp =? 0) then set_member prev_at swap_tmp head1 else mret tt);
  swap_tmp ← LIST_FIRST head2;
  if negb (swap_tmp =? 0) then set_member prev_at swap_tmp head2 else mret tt.

(** ** TAILQ *)

Definition TAILQ_FIRST (head : Z) : cmd qmem Z := load head.
Definition TAILQ_EMPTY (head : Z) : cmd qmem bool := x ← TAILQ_FIRST head; mret (x =? 0).
Definition TAILQ_NEXT (elm : Z) : cmd qmem Z := member next_at elm.

(** [*(((struct headname * )p)->tqh_last)]: the head at [p], which may be the
    [field] of an element, whose [tqe_prev] is at the same offset. *)
Definition deref_last (p : Z) : cmd qmem Z := l ← load (last_at p); load l.

Definition TAILQ_LAST (head : Z) : cmd qmem Z := l ← load (last_at head); deref_last l.
Definition TAILQ_PREV (elm : Z) : cmd qmem Z := p ← member prev_at elm; deref_last p.

Definition TAILQ_INIT (head : Z) : cmd qmem unit :=
  _ ← store head 0;
  store (last_at head) head.

Definition QMD_TAILQ_CHECK_HEAD (head : Z) : cmd qmem bool :=
  e ← TAILQ_EMPTY head;
  if (e : bool) then mret true
  else x ← TAILQ_FIRST head; p ← member prev_at x; mret (p =? head).

Definition QMD_TAILQ_CHECK_TAIL (head : Z) : cmd qmem bool :=
  l ← load (last_at head); x ← load l; mret (x =? 0).

Definition QMD_TAILQ_CHECK_NEXT (elm : Z) : cmd qmem bool :=
  x ← TAILQ_NEXT elm;
  if x =? 0 then mret true
  else x ← TAILQ_NEXT elm; p ← member prev_at x; mret (p =? next_at elm).

Definition QMD_TAILQ_CHECK_PREV (elm : Z) : cmd qmem bool :=
  p ← member prev_at elm; x ← load p; mret (x =? elm).

Definition TAILQ_CONCAT (head1 head2 : Z) : cmd qmem unit :=
  e ← TAILQ_EMPTY head2;
  if negb e then
    x ← TAILQ_FIRST head2;
    l1 ← load (last_at head1);
    _ ← store l1 x;
    x ← TAILQ_FIRST head2;
    l1 ← load (last_at head1);
    _ ← set_member prev_at x l1;
    l2 ← load (last_at head2);
    _ ← store (last_at head1) l2;
    TAILQ_INIT head2
  else mret tt.

Definition TAILQ_FOREACH {B} (head : Z) (body : Z → B → cmd qmem B) (acc : B) : cmd qmem B :=
  fuel ← live_words; var ← TAILQ_FIRST head; for_loop TAILQ_NEXT body fuel var acc.
Definition TAILQ_FOREACH_FROM {B} (var head : Z) (body : Z → B → cmd qmem B) (acc : B) : cmd qmem B :=
  fuel ← live_words; var ← (if negb (var =? 0) then mret var else TAILQ_FIRST head);
  for_loop TAILQ_NEXT body fuel var acc.
Definition TAILQ_FOREACH_SAFE {B} (head : Z) (body : Z → B → cmd qmem B) (acc : B) : cmd qmem B :=
  fuel ← live_words; var ← TAILQ_FIRST head; for_safe_loop TAILQ_NEXT body fuel var acc.
Definition TAILQ_FOREACH_FROM_SAFE {B} (var head : Z) (body : Z → B → cmd qmem B) (acc : B) : cmd qmem B :=
  fuel ← live_words; var ← (if negb (var =? 0) then mret var else TAILQ_FIRST head);
  for_safe_loop TAILQ_NEXT body fuel var acc.

Definition TAILQ_FOREACH_REVERSE {B} (head : Z) (body : Z → B → cmd qmem B) (acc : B) : cmd qmem B :=
  fuel ← live_words; var ← TAILQ_LAST head; for_loop TAILQ_PREV body fuel var acc.
Definition TAILQ_FOREACH_REVERSE_FROM {B} (var head : Z) (body : Z → B → cmd qmem B) (acc : B) : cmd qmem B :=
  fuel ← live_words; var ← (if negb (var =? 0) then mret var else TAILQ_LAST head);
  for_loop TAILQ_PREV body fuel var acc.
Definition TAILQ_FOREACH_REVERSE_SAFE {B} (head : Z) (body : Z → B → cmd qmem B) (acc : B) : cmd qmem B :=
  fuel ← live_words; var ← TAILQ_LAST head; for_safe_loop TAILQ_PREV body fuel var acc.
Definition TAILQ_FOREACH_REVERSE_FROM_SAFE {B} (var head : Z) (body : Z → B → cmd qmem B) (acc : B)
    : cmd qmem B :=
  fuel ← live_words; var ← (if negb (var =? 0) then mret var else TAILQ_LAST head);
  for_safe_loop TAILQ_PREV body fuel var acc.

Definition TAILQ_INSERT_AFTER (head listelm elm : Z) : cmd qmem unit :=
  n ← TAILQ_NEXT listelm;
  _ ← set_member next_at elm n;
  _ ← (if negb (n =? 0)
       then x ← TAILQ_NEXT elm; set_member prev_at x (next_at elm)
       else store (last_at head) (next_at elm));
  _ ← set_member next_at listelm elm;
  set_member prev_at elm (next_at listelm).

Definition TAILQ_INSERT_BEFORE (listelm elm : Z) : cmd qmem unit :=
  p ← member prev_at listelm;
  _ ← set_member prev_at elm p;
  _ ← set_member next_at elm listelm;
  p ← member prev_at listelm;
  _ ← store p elm;
  set_member prev_at listelm (next_at elm).

Definition TAILQ_INSERT_HEAD (head elm : Z) : cmd qmem unit :=
  n ← TAILQ_FIRST head;
  _ ← set_member next_at elm n;
  _ ← (if negb (n =? 0)
       then x ← TAILQ_FIRST head; set_member prev_at x (next_at elm)
       else store (last_at head) (next_at elm));
  _ ← store head elm;
  set_member prev_at elm head.

Definition TAILQ_INSERT_TAIL (head elm : Z) : cmd qmem unit :=
  _ ← set_member next_at elm 0;
  l ← load (last_at head);
  _ ← set_member prev_at elm l;
  l ← load (last_at head);
  _ ← store l elm;
  store (last_at head) (next_at elm).

Definition TAILQ_REMOVE (head elm : Z) : cmd qmem unit :=
  n ← TAILQ_NEXT elm;
  _ ← (if negb (n =? 0)
       then p ← member prev_at elm; x ← TAILQ_NEXT elm; set_member prev_at x p
       else p ← member prev_at elm; store (last_at head) p);
  n ← TAILQ_NEXT elm;
  p ← member prev_at elm;
  store p n.

Definition TAILQ_SWAP (head1 head2 : Z) : cmd qmem unit :=
  swap_first ← TAILQ_FIRST head1;
  swap_last ← load (last_at head1);
  x ← TAILQ_FIRST head2;
  _ ← store head1 x;
  l ← load (last_at head2);
  _ ← store (last_at head1) l;
  _ ← store head2 swap_first;
  _ ← store (last_at head2) swap_last;
  swap_first ← TAILQ_FIRST head1;
  _ ← (if negb (swap_first =? 0) then set_member prev_at swap_first head1
       else store (last_at head1) head1);
  swap_first ← TAILQ_FIRST head2;
  if negb (swap_first =? 0) then set_member prev_at swap_first head2
  else store (last_at head2) head2.
End code.
