(* ===== verification/QueueMem.v ===== *)
(** * QueueMem: a list of queue.h as words of memory

    [chain] gives the words of the elements of a list together with the
    pointers to them, [qcells] those of a list with its head: the end of a list
    is the address where a pointer to a next element would go ([end_at]), so
    that lists are split and joined by [chain_app].  [Take] finds a word among
    owned words by its address, and [runs] steps through a macro. *)

From S2P Require Import Prelude.
From S2P Require Import Own.
From S2P Require Import Queue.

(** The four kinds: with or without back links, with or without a pointer to
    the end. *)
Inductive kind := SLIST | STAILQ | LIST | TAILQ.
#[export] Instance kind_eq_dec : EqDecision kind.
Proof. solve_decision. Defined.
Definition backed (k : kind) : bool := match k with LIST | TAILQ => true | _ => false end.
Definition tailed (k : kind) : bool := match k with STAILQ | TAILQ => true | _ => false end.

(** ** Words found by their address *)

Notation words := (list (Z * Z)).

Class Take (a v : Z) (cs rest : words) : Prop := take_perm : cs ≡ₚ (a, v) :: rest.
#[global] Hint Mode Take + - + - : typeclass_instances.
#[global] Typeclasses Opaque Z.add Z.sub.

#[global] Instance take_here a v cs : Take a v ((a, v) :: cs) cs | 0.
Proof. by unfold Take. Qed.
#[global] Instance take_there a v c cs rest : Take a v cs rest → Take a v (c :: cs) (c :: rest) | 1.
Proof. unfold Take. intros ->. apply Permutation_swap. Qed.
#[global] Instance take_app_r a v cs1 cs2 rest : Take a v cs2 rest → Take a v (cs1 ++ cs2) (cs1 ++ rest) | 2.
Proof. unfold Take. intros ->. by rewrite Permutation_middle. Qed.
#[global] Instance take_app_l a v cs1 cs2 rest : Take a v cs1 rest → Take a v (cs1 ++ cs2) (rest ++ cs2) | 3.
Proof. unfold Take. by intros ->. Qed.

(** ** Running a command to a result that satisfies [Q] *)

Definition runs {A} (c : cmd qmem A) (m : qmem) (Q : A → qmem → Prop) : Prop :=
  ∃ a m', c m = Done (a, m') ∧ Q a m'.

Lemma runs_ret {A} (a : A) m (Q : A → qmem → Prop) : Q a m → runs (mret a) m Q.
Proof. intros. by exists a, m. Qed.

Lemma runs_bind {A B} (c : cmd qmem A) (f : A → cmd qmem B) m Q :
  runs c m (λ a m', runs (f a) m' Q) → runs (c ≫= f) m Q.
Proof. intros (a & m1 & Hc & b & m2 & Hf & HQ). exists b, m2. split; [|done]. by rewrite (bind_done _ _ _ _ _ Hc). Qed.

Lemma runs_mono {A} (c : cmd qmem A) m (P Q : A → qmem → Prop) :
  runs c m P → (∀ a m', P a m' → Q a m') → runs c m Q.
Proof. intros (a & m' & Hc & HP) HPQ. exists a, m'. split; [done|]. by apply HPQ. Qed.

Section steps.
Context (fr : qmem).
Implicit Types (cs rest : words) (m : qmem).

Lemma runs_load a v cs rest {HT : Take a v cs rest} m Q :
  owns cs fr m → Q v m → runs (load a) m Q.
Proof.
  intros Hm HQ. unfold Take in HT; rewrite HT in Hm. exists v, m. split; [|done].
  unfold load. by rewrite (owns_lookup_hd _ _ _ _ _ Hm).
Qed.

Lemma runs_store a v w cs rest {HT : Take a v cs rest} m Q :
  owns cs fr m → (∀ m', owns ((a, w) :: rest) fr m' → Q tt m') → runs (store a w) m Q.
Proof.
  intros Hm HQ. unfold Take in HT; rewrite HT in Hm. exists tt, (<[a := w]> m). split.
  - unfold store. by rewrite (owns_lookup_hd _ _ _ _ _ Hm).
  - apply HQ. by eapply owns_store.
Qed.

Lemma runs_fuel {B} cs m (n : nat) (f : nat → cmd qmem B) Q :
  owns cs fr m → (n ≤ length cs)%nat → (∀ fuel, (n < fuel)%nat → runs (f fuel) m Q) →
  runs (live_words ≫= f) m Q.
Proof.
  intros Hm Hn Hf. apply runs_bind. exists (S (size m)), m. split; [done|]. apply Hf.
  apply owns_size in Hm. lia.
Qed.
End steps.

(** ** Lists *)

Section list.
Context (field : Z) (k : kind).
Notation next_at := (next_at field).
Notation prev_at := (prev_at field).
Implicit Types (h p x y : Z) (xs ys : list Z).

(** The pointer at [p] to an element, and the element's pointer back. *)
Definition node p x : words := (p, x) :: (if backed k then [(prev_at x, p)] else []).

Fixpoint chain p xs : words :=
  match xs with [] => [] | x :: xs => node p x ++ chain (next_at x) xs end.

(** Where the pointer to the element after [xs] is. *)
Fixpoint end_at p xs : Z :=
  match xs with [] => p | x :: xs => end_at (next_at x) xs end.

Definition tail_cell h e : words := if tailed k then [(last_at h, e)] else [].

(** A list with its head. *)
Definition qcells h xs : words := chain h xs ++ (end_at h xs, 0) :: tail_cell h (end_at h xs).

(** The links of an element in no list, and a head before its initialisation,
    with any contents. *)
Definition raw (e : Z * (Z * Z)) : words :=
  (next_at e.1, e.2.1) :: (if backed k then [(prev_at e.1, e.2.2)] else []).
Definition raw_head (e : Z * (Z * Z)) : words := (e.1, e.2.1) :: tail_cell e.1 e.2.2.

Lemma end_at_app p xs ys : end_at p (xs ++ ys) = end_at (end_at p xs) ys.
Proof. revert p. induction xs as [|x xs IH]; intros p; [done|]. apply IH. Qed.

Lemma chain_app p xs ys : chain p (xs ++ ys) = chain p xs ++ chain (end_at p xs) ys.
Proof.
  revert p. induction xs as [|x xs IH]; intros p; [done|]. cbn [app chain end_at]. by rewrite IH, app_assoc.
Qed.

Lemma end_at_snoc p xs x : end_at p (xs ++ [x]) = next_at x.
Proof. by rewrite end_at_app. Qed.

(** The first element, or null. *)
Definition hd0 xs : Z := match xs with [] => 0 | x :: _ => x end.
Definition last0 xs : Z := default 0 (last xs).

Lemma qlast0_snoc xs x : last0 (xs ++ [x]) = x.
Proof. unfold last0. by rewrite last_snoc. Qed.

Lemma hd0_reverse xs : hd0 (reverse xs) = last0 xs.
Proof. destruct xs as [|x xs _] using rev_ind; [done|]. by rewrite reverse_snoc, qlast0_snoc. Qed.

(** The elements with the addresses of the pointers to them. *)
Fixpoint prevptrs p xs : list Z :=
  match xs with [] => [] | x :: xs => x :: p :: prevptrs (next_at x) xs end.

(** The words of the elements [ys] that follow a place [e], to the end. *)
Definition rest h e ys : words := chain e ys ++ (end_at e ys, 0) :: tail_cell h (end_at e ys).

Lemma qcells_split h xs ys : qcells h (xs ++ ys) = chain h xs ++ rest h (end_at h xs) ys.
Proof. unfold qcells, rest. by rewrite end_at_app, chain_app, <-app_assoc. Qed.

Lemma qchain_length p xs : (length xs ≤ length (chain p xs))%nat.
Proof.
  revert p. induction xs as [|x xs IH]; intros p; cbn; [lia|]. rewrite length_app. specialize (IH (next_at x)). lia.
Qed.

Lemma qcells_length h xs R : (length xs ≤ length (qcells h xs ++ R))%nat.
Proof. unfold qcells. rewrite !length_app. pose proof (qchain_length h xs). lia. Qed.
End list.
#[global] Arguments next_at : simpl never.
#[global] Arguments prev_at : simpl never.
#[global] Arguments last_at : simpl never.

(** ** Stepping through a macro *)

(** The words of a kind, spelled out. *)
Ltac spell :=
  cbn [chain rest node raw raw_head tail_cell backed tailed end_at app fst snd hd0] in *.

(** One command: a load or a store of an owned word, a member of an element
    that is not null, a test of a pointer that is known. *)
Ltac run_step :=
  cbv beta;
  match goal with
  | |- runs (mret _) _ _ => apply runs_ret
  | |- runs (_ ≫= _) _ _ => apply runs_bind
  | Hm : owns _ _ ?m |- runs (load ?a) ?m _ => refine (runs_load _ a _ _ _ _ _ Hm _)
  | Hm : owns _ _ ?m |- runs (store ?a _) ?m _ =>
      refine (runs_store _ a _ _ _ _ _ _ Hm _); clear Hm; intros ? Hm
  | |- runs (member _ _) _ _ => unfold member
  | |- runs (set_member _ _ _) _ _ => unfold set_member
  | H : ?x ≠ 0 |- runs (if negb (?x =? 0) then _ else _) _ _ => rewrite (proj2 (Z.eqb_neq x 0) H); cbn [negb]
  | H : ?x ≠ 0 |- runs (if ?x =? 0 then _ else _) _ _ => rewrite (proj2 (Z.eqb_neq x 0) H)
  | |- runs (if negb (0 =? 0) then _ else _) _ _ => cbn [negb Z.eqb]
  | |- runs (if 0 =? 0 then _ else _) _ _ => cbn [Z.eqb]
  | |- runs (if ?x =? ?x then _ else _) _ _ => rewrite (Z.eqb_refl x)
  end.

Ltac same_words :=
  match goal with
  | Hm : owns _ _ ?m |- owns _ _ ?m =>
      refine (owns_perm _ _ _ _ _ Hm); rewrite ?qcells_split; unfold qcells; spell;
      rewrite ?chain_app, ?end_at_app; spell; solve_Permutation
  end.

(** ** The words of a list of any kind *)

Section words.
Context (field : Z) (k : kind).
Notation next_at := (next_at field).
Notation prev_at := (prev_at field).
Notation qcells := (qcells field k).
Notation raw := (raw field k).
Implicit Types (h p x y : Z) (xs ys : list Z) (fr m : qmem) (R : words).

Lemma chain_addrs p xs T :
  ∃ r, (chain field k p xs ++ (end_at field p xs, 0) :: T).*1 ≡ₚ (p :: (next_at <$> xs)) ++ r.
Proof.
  revert p. induction xs as [|x xs IH]; intros p; [by exists T.*1|].
  destruct (IH (next_at x)) as [r Hr]. exists ((if backed k then [prev_at x] else []) ++ r).
  cbn [chain end_at]. rewrite <-app_assoc, fmap_app, Hr. unfold node. destruct (backed k); cbn; solve_Permutation.
Qed.

Lemma qcells_nodup h xs R fr m : owns (qcells h xs ++ R) fr m → NoDup (h :: (next_at <$> xs)).
Proof.
  intros (Hnd & _). unfold qcells in Hnd. rewrite fmap_app in Hnd. apply NoDup_app in Hnd as (Hnd & _).
  destruct (chain_addrs h xs (tail_cell k h (end_at field h xs))) as [r Hr]. rewrite Hr in Hnd.
  by apply NoDup_app in Hnd as (Hnd & _).
Qed.

Lemma elements_nodup h xs R fr m : owns (qcells h xs ++ R) fr m → NoDup xs.
Proof. intros Hm%qcells_nodup. apply NoDup_cons in Hm as [_ Hm]. by apply NoDup_fmap_1 in Hm. Qed.

(** Only the empty list ends in its head. *)
Lemma end_at_head h xs R fr m : owns (qcells h xs ++ R) fr m → end_at field h xs = h → xs = [].
Proof.
  intros Hm%qcells_nodup He. destruct xs as [|x xs _] using rev_ind; [done|]. exfalso.
  rewrite end_at_snoc in He. apply NoDup_cons in Hm as [Hh _]. apply Hh. rewrite <-He, fmap_app.
  apply elem_of_app. right. apply list_elem_of_here.
Qed.

(** Forgetting what is in a list. *)
Lemma qcells_raw h xs :
  ∃ w es, es.*1 = xs ∧ qcells h xs ≡ₚ raw_head k (h, w) ++ (es ≫= raw).
Proof.
  assert (∀ p, ∃ v es, es.*1 = xs ∧
    chain field k p xs ++ [(end_at field p xs, 0)] ≡ₚ (p, v) :: (es ≫= raw)) as Hc.
  { induction xs as [|x xs IH]; intros p; [by exists 0, []|].
    destruct (IH (next_at x)) as (v & es & <- & He). exists x, ((x, (v, p)) :: es). split; [done|].
    cbn [chain end_at]. rewrite <-app_assoc, He. unfold node, raw. cbn.
    destruct (backed k); cbn; solve_Permutation. }
  destruct (Hc h) as (v & es & Hes & He). exists (v, end_at field h xs), es. split; [done|].
  unfold qcells, raw_head. cbn [fst snd]. generalize (tail_cell k h (end_at field h xs)). intros T.
  assert (chain field k h xs ++ (end_at field h xs, 0) :: T ≡ₚ
    (chain field k h xs ++ [(end_at field h xs, 0)]) ++ T) as -> by (by rewrite <-app_assoc).
  rewrite He. solve_Permutation.
Qed.

Lemma load_place h xs ys R fr m :
  owns (qcells h (xs ++ ys) ++ R) fr m → load (end_at field h xs) m = Done (hd0 ys, m).
Proof.
  rewrite qcells_split. intros Hm. unfold load. erewrite owns_lookup; [done|exact Hm|].
  apply elem_of_app. left. apply elem_of_app. right. unfold rest. destruct ys; apply list_elem_of_here.
Qed.

Lemma load_last h xs R fr m :
  tailed k = true → owns (qcells h xs ++ R) fr m → load (last_at h) m = Done (end_at field h xs, m).
Proof.
  intros Hk Hm. unfold load. erewrite owns_lookup; [done|exact Hm|]. unfold qcells, tail_cell. rewrite Hk.
  apply elem_of_app. left. apply elem_of_app. right. by apply elem_of_cons; right; apply list_elem_of_here.
Qed.

Lemma load_prev h xs y ys R fr m :
  backed k = true → owns (qcells h (xs ++ y :: ys) ++ R) fr m →
  load (prev_at y) m = Done (end_at field h xs, m).
Proof.
  rewrite qcells_split. intros Hk Hm. unfold load. erewrite owns_lookup; [done|exact Hm|].
  apply elem_of_app. left. apply elem_of_app. right. unfold rest. cbn [chain]. unfold node. rewrite Hk.
  by apply elem_of_cons; right; apply list_elem_of_here.
Qed.

(** The members of an element of the list. *)
Lemma member_next h xs y ys R fr m :
  y ≠ 0 → owns (qcells h (xs ++ y :: ys) ++ R) fr m → member next_at y m = Done (hd0 ys, m).
Proof.
  intros Hy Hm. unfold member. rewrite (proj2 (Z.eqb_neq y 0) Hy). rewrite <-(end_at_snoc field h xs y).
  eapply load_place. by rewrite <-app_assoc.
Qed.

Lemma member_prev h xs y ys R fr m :
  backed k = true → y ≠ 0 → owns (qcells h (xs ++ y :: ys) ++ R) fr m →
  member prev_at y m = Done (end_at field h xs, m).
Proof.
  intros Hk Hy Hm. unfold member. rewrite (proj2 (Z.eqb_neq y 0) Hy). by eapply load_prev.
Qed.
End words.
