(* ===== verification/QueueOps.v ===== *)
(** * QueueOps: the macros of queue.h as list operations

    Each macro, run on the words of the lists it works on.  A lemma covers the
    macro of every kind that has it: [INSERT_AFTER k] is the INSERT_AFTER of
    kind [k], and so on. *)

From S2P Require Import Prelude.
From S2P Require Import Own.
From S2P Require Import Queue.
From S2P Require Import QueueMem.

(** ** The macros by kind *)

Section by_kind.
Context (field : Z).
Implicit Types (h x y : Z).

Definition unsupported {A} : cmd qmem A := undef.

Definition FIRST (k : kind) : Z → cmd qmem Z :=
  match k with SLIST => SLIST_FIRST | STAILQ => STAILQ_FIRST | LIST => LIST_FIRST | TAILQ => TAILQ_FIRST end.
Definition EMPTY (k : kind) : Z → cmd qmem bool :=
  match k with SLIST => SLIST_EMPTY | STAILQ => STAILQ_EMPTY | LIST => LIST_EMPTY | TAILQ => TAILQ_EMPTY end.
Definition NEXT (k : kind) : Z → cmd qmem Z :=
  match k with
  | SLIST => SLIST_NEXT field | STAILQ => STAILQ_NEXT field | LIST => LIST_NEXT field | TAILQ => TAILQ_NEXT field
  end.
Definition PREV (k : kind) (x h : Z) : cmd qmem Z :=
  match k with LIST => LIST_PREV field x h | TAILQ => TAILQ_PREV field x | _ => unsupported end.
Definition LAST (k : kind) (h : Z) : cmd qmem Z :=
  match k with STAILQ => STAILQ_LAST field h | TAILQ => TAILQ_LAST h | _ => unsupported end.
Definition INIT (k : kind) : Z → cmd qmem unit :=
  match k with SLIST => SLIST_INIT | STAILQ => STAILQ_INIT | LIST => LIST_INIT | TAILQ => TAILQ_INIT end.
Definition INSERT_HEAD (k : kind) (h x : Z) : cmd qmem unit :=
  match k with
  | SLIST => SLIST_INSERT_HEAD field h x
  | STAILQ => STAILQ_INSERT_HEAD field h x
  | LIST => LIST_INSERT_HEAD field h x
  | TAILQ => TAILQ_INSERT_HEAD field h x
  end.
Definition INSERT_TAIL (k : kind) (h x : Z) : cmd qmem unit :=
  match k with
  | STAILQ => STAILQ_INSERT_TAIL field h x | TAILQ => TAILQ_INSERT_TAIL field h x | _ => unsupported
  end.
Definition INSERT_AFTER (k : kind) (h y x : Z) : cmd qmem unit :=
  match k with
  | SLIST => SLIST_INSERT_AFTER field y x
  | STAILQ => STAILQ_INSERT_AFTER field h y x
  | LIST => LIST_INSERT_AFTER field y x
  | TAILQ => TAILQ_INSERT_AFTER field h y x
  end.
Definition INSERT_BEFORE (k : kind) (y x : Z) : cmd qmem unit :=
  match k with
  | LIST => LIST_INSERT_BEFORE field y x | TAILQ => TAILQ_INSERT_BEFORE field y x | _ => unsupported
  end.
Definition REMOVE (k : kind) (h x : Z) : cmd qmem unit :=
  match k with
  | SLIST => SLIST_REMOVE field h x
  | STAILQ => STAILQ_REMOVE field h x
  | LIST => LIST_REMOVE field x
  | TAILQ => TAILQ_REMOVE field h x
  end.
Definition REMOVE_HEAD (k : kind) (h : Z) : cmd qmem unit :=
  match k with
  | SLIST => SLIST_REMOVE_HEAD field h | STAILQ => STAILQ_REMOVE_HEAD field h | _ => unsupported
  end.
Definition REMOVE_AFTER (k : kind) (h y : Z) : cmd qmem unit :=
  match k with
  | SLIST => SLIST_REMOVE_AFTER field y | STAILQ => STAILQ_REMOVE_AFTER field h y | _ => unsupported
  end.
Definition CONCAT (k : kind) (h h' : Z) : cmd qmem unit :=
  match k with STAILQ => STAILQ_CONCAT h h' | TAILQ => TAILQ_CONCAT field h h' | _ => unsupported end.
Definition SWAP (k : kind) (h h' : Z) : cmd qmem unit :=
  match k with
  | SLIST => SLIST_SWAP h h'
  | STAILQ => STAILQ_SWAP h h'
  | LIST => LIST_SWAP field h h'
  | TAILQ => TAILQ_SWAP field h h'
  end.
(** Whether all the checks on an element of a list, and on its head, pass. *)
Definition CHECK (k : kind) (h x : Z) : cmd qmem bool :=
  match k with
  | LIST =>
      a ← QMD_LIST_CHECK_HEAD field h; b ← QMD_LIST_CHECK_NEXT field x; c ← QMD_LIST_CHECK_PREV field x;
      mret (a && b && c)
  | TAILQ =>
      a ← QMD_TAILQ_CHECK_HEAD field h; b ← QMD_TAILQ_CHECK_NEXT field x; c ← QMD_TAILQ_CHECK_PREV field x;
      d ← QMD_TAILQ_CHECK_TAIL h; mret (a && b && c && d)
  | _ => unsupported
  end.

Section foreach.
Context {B : Type}.
Notation walk := (Z → (Z → B → cmd qmem B) → B → cmd qmem B).
Definition FOREACH (k : kind) : walk :=
  match k with
  | SLIST => SLIST_FOREACH field | STAILQ => STAILQ_FOREACH field
  | LIST => LIST_FOREACH field | TAILQ => TAILQ_FOREACH field
  end.
Definition FOREACH_FROM (k : kind) (var : Z) : walk :=
  match k with
  | SLIST => SLIST_FOREACH_FROM field var | STAILQ => STAILQ_FOREACH_FROM field var
  | LIST => LIST_FOREACH_FROM field var | TAILQ => TAILQ_FOREACH_FROM field var
  end.
Definition FOREACH_SAFE (k : kind) : walk :=
  match k with
  | SLIST => SLIST_FOREACH_SAFE field | STAILQ => STAILQ_FOREACH_SAFE field
  | LIST => LIST_FOREACH_SAFE field | TAILQ => TAILQ_FOREACH_SAFE field
  end.
Definition FOREACH_FROM_SAFE (k : kind) (var : Z) : walk :=
  match k with
  | SLIST => SLIST_FOREACH_FROM_SAFE field var | STAILQ => STAILQ_FOREACH_FROM_SAFE field var
  | LIST => LIST_FOREACH_FROM_SAFE field var | TAILQ => TAILQ_FOREACH_FROM_SAFE field var
  end.
End foreach.

(** Loop bodies: keep what is visited, and remove what satisfies [p], too. *)
Definition visit (x : Z) (acc : list Z) : cmd qmem (list Z) := mret (acc ++ [x]).
Definition visit_ptr (x p : Z) (acc : list Z) : cmd qmem (list Z) := mret (acc ++ [x; p]).
Definition drop_if (p : Z → bool) (k : kind) (h x : Z) (acc : list Z) : cmd qmem (list Z) :=
  _ ← (if p x then REMOVE k h x else mret tt); mret (acc ++ [x]).
End by_kind.

Create HintDb queue.
#[export] Hint Unfold SLIST_FIRST SLIST_EMPTY SLIST_NEXT SLIST_INIT SLIST_INSERT_AFTER SLIST_INSERT_HEAD
  SLIST_REMOVE_AFTER SLIST_REMOVE_HEAD SLIST_SWAP
  STAILQ_FIRST STAILQ_EMPTY STAILQ_NEXT STAILQ_INIT STAILQ_CONCAT STAILQ_INSERT_AFTER STAILQ_INSERT_HEAD
  STAILQ_INSERT_TAIL STAILQ_LAST STAILQ_REMOVE_AFTER STAILQ_REMOVE_HEAD STAILQ_SWAP
  LIST_FIRST LIST_EMPTY LIST_NEXT LIST_INIT LIST_INSERT_AFTER LIST_INSERT_BEFORE LIST_INSERT_HEAD
  LIST_PREV LIST_REMOVE LIST_SWAP QMD_LIST_CHECK_HEAD QMD_LIST_CHECK_NEXT QMD_LIST_CHECK_PREV
  TAILQ_FIRST TAILQ_EMPTY TAILQ_NEXT TAILQ_INIT TAILQ_CONCAT TAILQ_INSERT_AFTER TAILQ_INSERT_BEFORE
  TAILQ_INSERT_HEAD TAILQ_INSERT_TAIL TAILQ_LAST TAILQ_PREV TAILQ_REMOVE TAILQ_SWAP deref_last
  QMD_TAILQ_CHECK_HEAD QMD_TAILQ_CHECK_NEXT QMD_TAILQ_CHECK_PREV QMD_TAILQ_CHECK_TAIL : queue.

(** Run a macro, and compare the words it leaves with the goal. *)
Ltac run_macro := repeat (autounfold with queue; run_step).

Section ops.
Context (field : Z) (fr : qmem).
Notation qcells := (qcells field).
Notation raw := (raw field).
Notation end_at := (end_at field).
Implicit Types (h x y : Z) (xs ys : list Z) (c : Z * Z) (R : words) (m : qmem) (k : kind).
Notation nonnull := (Forall (.≠ 0)).

(** Cases for the words of a list that starts with unknown elements. *)
Ltac split_first l H :=
  let z := fresh "z" in let Hz := fresh "Hz" in destruct l as [|z l]; [|apply Forall_cons in H as [Hz H]].

Lemma q_init_run k h c R m :
  owns (raw_head k (h, c) ++ R) fr m → runs (INIT k h) m (λ _ m', owns (qcells k h [] ++ R) fr m').
Proof. destruct c as [n p]. destruct k; cbn [INIT]; intros Hm; spell; run_macro; same_words. Qed.

Lemma insert_head_run k h xs x c R m :
  x ≠ 0 → nonnull xs → owns (raw k (x, c) ++ qcells k h xs ++ R) fr m →
  runs (INSERT_HEAD field k h x) m (λ _ m', owns (qcells k h (x :: xs) ++ R) fr m').
Proof.
  intros Hx Hxs. destruct c as [n p]. unfold qcells.
  destruct k; cbn [INSERT_HEAD]; split_first xs Hxs; intros Hm; spell; run_macro; same_words.
Qed.

Lemma insert_tail_run k h xs x c R m :
  tailed k = true → x ≠ 0 → owns (raw k (x, c) ++ qcells k h xs ++ R) fr m →
  runs (INSERT_TAIL field k h x) m (λ _ m', owns (qcells k h (xs ++ [x]) ++ R) fr m').
Proof.
  intros Hk Hx. destruct c as [n p]. unfold qcells.
  destruct k; try done; cbn [INSERT_TAIL]; intros Hm; spell; run_macro; same_words.
Qed.

Lemma insert_after_run k h xs y ys x c R m :
  y ≠ 0 → x ≠ 0 → nonnull ys → owns (raw k (x, c) ++ qcells k h (xs ++ y :: ys) ++ R) fr m →
  runs (INSERT_AFTER field k h y x) m (λ _ m', owns (qcells k h (xs ++ y :: x :: ys) ++ R) fr m').
Proof.
  intros Hy Hx Hys. rewrite qcells_split. destruct c as [n p].
  destruct k; cbn [INSERT_AFTER]; split_first ys Hys; intros Hm; spell; run_macro; same_words.
Qed.

Lemma insert_before_run k h xs y ys x c R m :
  backed k = true → y ≠ 0 → x ≠ 0 → owns (raw k (x, c) ++ qcells k h (xs ++ y :: ys) ++ R) fr m →
  runs (INSERT_BEFORE field k y x) m (λ _ m', owns (qcells k h (xs ++ x :: y :: ys) ++ R) fr m').
Proof.
  intros Hk Hy Hx. rewrite qcells_split. destruct c as [n p].
  destruct k; try done; cbn [INSERT_BEFORE]; intros Hm; spell; run_macro; same_words.
Qed.

Lemma concat_run k h h' xs ys R m :
  tailed k = true → nonnull ys → owns (qcells k h xs ++ qcells k h' ys ++ R) fr m →
  runs (CONCAT field k h h') m (λ _ m', owns (qcells k h (xs ++ ys) ++ qcells k h' [] ++ R) fr m').
Proof.
  intros Hk Hys. unfold qcells.
  destruct k; try done; cbn [CONCAT]; split_first ys Hys; intros Hm; spell; run_macro; same_words.
Qed.

Lemma swap_run k h h' xs ys R m :
  nonnull xs → nonnull ys → owns (qcells k h xs ++ qcells k h' ys ++ R) fr m →
  runs (SWAP field k h h') m (λ _ m', owns (qcells k h ys ++ qcells k h' xs ++ R) fr m').
Proof.
  intros Hxs Hys. unfold qcells.
  destruct k; cbn [SWAP]; split_first xs Hxs; split_first ys Hys; intros Hm; spell; run_macro; same_words.
Qed.
(** ** Removal *)

Lemma remove_head_run k h x ys R m :
  backed k = false → x ≠ 0 → nonnull ys → owns (qcells k h (x :: ys) ++ R) fr m →
  runs (REMOVE_HEAD field k h) m (λ _ m', ∃ c, owns (raw k (x, c) ++ qcells k h ys ++ R) fr m').
Proof.
  intros Hk Hx Hys. unfold qcells. pose (n := hd0 ys).
  destruct k; try done; cbn [REMOVE_HEAD]; split_first ys Hys; intros Hm; spell; run_macro;
    exists (n, 0); subst n; same_words.
Qed.

Lemma remove_after_run k h xs y x ys R m :
  backed k = false → y ≠ 0 → x ≠ 0 → nonnull ys → owns (qcells k h (xs ++ y :: x :: ys) ++ R) fr m →
  runs (REMOVE_AFTER field k h y) m (λ _ m', ∃ c, owns (raw k (x, c) ++ qcells k h (xs ++ y :: ys) ++ R) fr m').
Proof.
  intros Hk Hy Hx Hys. rewrite qcells_split. pose (n := hd0 ys).
  destruct k; try done; cbn [REMOVE_AFTER]; split_first ys Hys; intros Hm; spell; run_macro;
    exists (n, 0); subst n; same_words.
Qed.

(** There is nothing after the last element to remove. *)
Lemma remove_after_last k h xs y R m :
  backed k = false → y ≠ 0 → owns (qcells k h (xs ++ [y]) ++ R) fr m → REMOVE_AFTER field k h y m = Undef.
Proof.
  intros Hk Hy Hm. apply (member_next field k h xs y [] R fr m Hy) in Hm. cbn in Hm.
  destruct k; try done; cbn [REMOVE_AFTER]; autounfold with queue; by rewrite (bind_done _ _ _ _ _ Hm).
Qed.

(** The loop of SLIST_REMOVE stops at the predecessor of [x]. *)
Lemma find_before_run k h x ys R m bs : ∀ xs a fuel,
  nonnull (a :: bs) → x ∉ bs → (length bs < fuel)%nat → owns (qcells k h (xs ++ a :: bs ++ x :: ys) ++ R) fr m →
  ∃ y zs, find_before field fuel x a m = Done (y, m) ∧ xs ++ a :: bs = zs ++ [y].
Proof.
  induction bs as [|b bs IH]; intros xs a fuel Hnn Hx Hf Hm; (destruct fuel as [|fuel]; [cbn in Hf; lia|]);
    apply Forall_cons in Hnn as [Ha Hnn]; cbn [find_before]; unfold SLIST_NEXT.
  - run_to (member_next field k h xs a _ R fr m Ha Hm). cbn [app hd0]. rewrite Z.eqb_refl.
    by exists a, xs.
  - apply not_elem_of_cons in Hx as [Hxb Hx].
    pose proof (member_next field k h xs a _ R fr m Ha Hm) as Hn. run_to Hn. cbn [app hd0].
    destruct (Z.eqb_spec b x); [done|]. run_to Hn.
    rewrite (cons_middle a xs), app_assoc in Hm |- *. apply IH; [done..|cbn in Hf; lia|done].
Qed.

(** It runs off the end when [x] is not there. *)
Lemma find_before_absent k h x R m bs : ∀ xs a fuel,
  nonnull (a :: bs) → x ≠ 0 → x ∉ bs → (S (length bs) < fuel)%nat → owns (qcells k h (xs ++ a :: bs) ++ R) fr m →
  find_before field fuel x a m = Undef.
Proof.
  induction bs as [|b bs IH]; intros xs a fuel Hnn Hx0 Hx Hf Hm; (destruct fuel as [|fuel]; [cbn in Hf; lia|]);
    apply Forall_cons in Hnn as [Ha Hnn]; cbn [find_before]; unfold SLIST_NEXT;
    pose proof (member_next field k h xs a _ R fr m Ha Hm) as Hn; run_to Hn; cbn [hd0].
  - destruct (Z.eqb_spec 0 x); [done|]. run_to Hn. destruct fuel; [lia|]. done.
  - apply not_elem_of_cons in Hx as [Hxb Hx]. destruct (Z.eqb_spec b x); [done|]. run_to Hn.
    rewrite (cons_middle a xs), app_assoc in Hm. apply (IH (xs ++ [a])); [done..|cbn in Hf |- *; lia|done].
Qed.

Lemma live_words_run n k h xs R m :
  owns (qcells k h xs ++ R) fr m → (n ≤ length xs)%nat →
  ∃ fuel, live_words m = Done (fuel, m) ∧ (S n < fuel)%nat.
Proof.
  intros Hm Hn. exists (S (size m)). split; [done|]. apply owns_size in Hm.
  unfold qcells in Hm. rewrite !length_app in Hm. cbn in Hm. pose proof (qchain_length field k h xs). lia.
Qed.

(** The predecessor of an element that is not the first. *)
Lemma find_before_list k h a bs x ys R m :
  nonnull (a :: bs ++ x :: ys) → owns (qcells k h (a :: bs ++ x :: ys) ++ R) fr m →
  a ≠ x ∧ ∃ fuel y zs, live_words m = Done (fuel, m) ∧ find_before field fuel x a m = Done (y, m) ∧
    a :: bs = zs ++ [y].
Proof.
  intros Hnn Hm. pose proof (elements_nodup field k h _ R fr m Hm) as Hnd.
  apply NoDup_cons in Hnd as [Ha Hnd]. apply NoDup_app in Hnd as (_ & Hdis & _).
  split; [intros ->; apply Ha, elem_of_app; right; apply list_elem_of_here|].
  destruct (live_words_run (length bs) k h _ R m Hm) as (fuel & Hrun & Hf); [cbn; rewrite length_app; lia|].
  destruct (find_before_run k h x ys R m bs [] a fuel) as (y & zs & Hb & Heq); [| |lia|done|by exists fuel, y, zs].
  - apply Forall_cons in Hnn as [Ha0 Hnn]. apply Forall_app in Hnn as [Hnn _]. by constructor.
  - intros Hin. apply (Hdis x Hin), list_elem_of_here.
Qed.

Lemma singly_remove_run k h xs x ys R m :
  backed k = false → nonnull (xs ++ x :: ys) → owns (qcells k h (xs ++ x :: ys) ++ R) fr m →
  runs (REMOVE field k h x) m (λ _ m', ∃ c, owns (raw k (x, c) ++ qcells k h (xs ++ ys) ++ R) fr m').
Proof.
  intros Hk Hnn Hm. pose proof (load_place field k h [] (xs ++ x :: ys) R fr m Hm) as Hfirst.
  pose proof Hnn as (Hxs & [Hx Hys]%Forall_cons)%Forall_app.
  destruct xs as [|a bs].
  - pose proof (remove_head_run k h x ys R m Hk Hx Hys Hm) as (u & m' & Hrun & Hm').
    exists u, m'. split; [|exact Hm']. destruct k; try done; cbn [REMOVE].
    + unfold SLIST_REMOVE. run_to Hfirst. cbn [hd0 app]. by rewrite Z.eqb_refl.
    + unfold STAILQ_REMOVE. run_to Hfirst. cbn [hd0 app]. by rewrite Z.eqb_refl.
  - destruct (find_before_list k h a bs x ys R m Hnn Hm) as (Hax & fuel & y & zs & Hw & Hb & Heq).
    rewrite Heq in Hm, Hxs |- *. rewrite <-app_assoc in Hm. apply Forall_app in Hxs as [_ [Hy _]%Forall_cons].
    destruct (remove_after_run k h zs y x ys R m Hk Hy Hx Hys Hm) as (u & m' & Hrun & Hm').
    rewrite <-app_assoc. exists u, m'. split; [|exact Hm']. apply Z.eqb_neq in Hax. destruct k; try done; cbn [REMOVE].
    + unfold SLIST_REMOVE. run_to Hfirst. cbn [hd0 app]. rewrite Hax. run_to Hw. run_to Hfirst. by run_to Hb.
    + unfold STAILQ_REMOVE. run_to Hfirst. cbn [hd0 app]. rewrite Hax. run_to Hw. run_to Hfirst. by run_to Hb.
Qed.

Lemma doubly_remove_run k h xs x ys R m :
  backed k = true → x ≠ 0 → nonnull ys → owns (qcells k h (xs ++ x :: ys) ++ R) fr m →
  runs (REMOVE field k h x) m (λ _ m', ∃ c, owns (raw k (x, c) ++ qcells k h (xs ++ ys) ++ R) fr m').
Proof.
  intros Hk Hx Hys. rewrite qcells_split. pose (n := hd0 ys).
  destruct k; try done; cbn [REMOVE]; split_first ys Hys; intros Hm; spell; run_macro;
    exists (n, end_at h xs); subst n; same_words.
Qed.

Lemma remove_run k h xs x ys R m :
  nonnull (xs ++ x :: ys) → owns (qcells k h (xs ++ x :: ys) ++ R) fr m →
  runs (REMOVE field k h x) m (λ _ m', ∃ c, owns (raw k (x, c) ++ qcells k h (xs ++ ys) ++ R) fr m').
Proof.
  intros Hnn Hm. destruct (backed k) eqn:Hk; [|by apply singly_remove_run].
  apply Forall_app in Hnn as [_ [Hx Hys]%Forall_cons]. by apply doubly_remove_run.
Qed.

(** The singly-linked lists are searched for the element to remove. *)
Lemma remove_absent k h xs x R m :
  backed k = false → nonnull xs → x ≠ 0 → x ∉ xs → owns (qcells k h xs ++ R) fr m →
  REMOVE field k h x m = Undef.
Proof.
  intros Hk Hnn Hx0 Hx Hm. pose proof (load_place field k h [] xs R fr m Hm) as Hfirst.
  destruct (live_words_run (length xs) k h xs R m Hm) as (fuel & Hw & Hf); [lia|].
  assert (hd0 xs ≠ x) as Hne%Z.eqb_neq.
  { destruct xs; [done|]. by apply not_elem_of_cons in Hx as [? _]. }
  assert (find_before field fuel x (hd0 xs) m = Undef) as Hb.
  { destruct xs as [|a bs]; [by destruct fuel|]. apply not_elem_of_cons in Hx as [_ Hx].
    apply (find_before_absent k h x R m bs [] a fuel); [done..|cbn in Hf; lia|done]. }
  destruct k; try done; cbn [REMOVE]; [unfold SLIST_REMOVE|unfold STAILQ_REMOVE];
    run_to Hfirst; rewrite Hne; run_to Hw; run_to Hfirst; by apply bind_undef.
Qed.

(** ** Reading *)

Lemma first_read k h xs R m :
  owns (qcells k h xs ++ R) fr m → FIRST k h m = Done (hd0 xs, m).
Proof. intros Hm. pose proof (load_place field k h [] xs R fr m Hm) as H. by destruct k. Qed.

Lemma empty_read k h xs R m :
  owns (qcells k h xs ++ R) fr m → EMPTY k h m = Done (hd0 xs =? 0, m).
Proof.
  intros Hm. pose proof (first_read k h xs R m Hm) as H.
  destruct k; cbn [EMPTY FIRST] in *; unfold SLIST_EMPTY, STAILQ_EMPTY, LIST_EMPTY, TAILQ_EMPTY; by run_to H.
Qed.

Lemma next_read k h xs y ys R m :
  y ≠ 0 → owns (qcells k h (xs ++ y :: ys) ++ R) fr m → NEXT field k y m = Done (hd0 ys, m).
Proof. intros Hy Hm%(member_next field k) ; [|done]. by destruct k. Qed.

(** Following two links back from the end of a list. *)
Lemma deref_last_read h xs ys R m :
  owns (qcells TAILQ h (xs ++ ys) ++ R) fr m → deref_last (end_at h xs) m = Done (last0 xs, m).
Proof.
  intros Hm. unfold deref_last. destruct xs as [|x xs _] using rev_ind.
  - pose proof (load_last field TAILQ h _ R fr m eq_refl Hm) as Hl. run_to Hl.
    rewrite <-(app_nil_r ([] ++ ys)) in Hm at 1. exact (load_place field TAILQ h _ [] R fr m Hm).
  - rewrite <-app_assoc in Hm. rewrite end_at_snoc.
    pose proof (load_prev field TAILQ h xs x ys R fr m eq_refl Hm) as Hp.
    change (last_at (next_at field x)) with (prev_at field x). run_to Hp.
    rewrite (load_place field TAILQ h xs _ R fr m Hm). by rewrite qlast0_snoc.
Qed.

Lemma last_read k h xs R m :
  tailed k = true → nonnull xs → owns (qcells k h xs ++ R) fr m → LAST field k h m = Done (last0 xs, m).
Proof.
  intros Hk Hnn Hm. pose proof (load_last field k h xs R fr m Hk Hm) as Hl. destruct k; try done; cbn [LAST].
  - unfold STAILQ_LAST. run_to (empty_read STAILQ h xs R m Hm). destruct xs as [|x xs _] using rev_ind; [done|].
    assert (hd0 (xs ++ [x]) =? 0 = false) as ->.
    { apply Z.eqb_neq. destruct xs; by apply Forall_cons in Hnn as [? _]. }
    run_to Hl. rewrite end_at_snoc. rewrite qlast0_snoc. unfold containerof, next_at.
    by replace (x + field - field) with x by lia.
  - unfold TAILQ_LAST. run_to Hl. apply (deref_last_read h xs [] R). by rewrite app_nil_r.
Qed.

Lemma prev_read k h xs y ys R m :
  backed k = true → y ≠ 0 → owns (qcells k h (xs ++ y :: ys) ++ R) fr m →
  PREV field k y h m = Done (last0 xs, m).
Proof.
  intros Hk Hy Hm. pose proof (member_prev field k h xs y ys R fr m Hk Hy Hm) as Hp.
  destruct k; try done; cbn [PREV].
  - unfold LIST_PREV. run_to Hp. destruct xs as [|x xs _] using rev_ind; [by rewrite Z.eqb_refl|].
    pose proof (qcells_nodup field LIST h _ R fr m Hm) as Hnd. rewrite end_at_snoc in Hp |- *.
    destruct (Z.eqb_spec (next_at field x) h) as [He|_].
    + exfalso. apply NoDup_cons in Hnd as [Hh _]. apply Hh. rewrite <-He. apply list_elem_of_fmap_2.
      apply elem_of_app. left. apply elem_of_app. right. apply list_elem_of_here.
    + run_to Hp. rewrite qlast0_snoc. unfold containerof, next_at.
      by replace (x + field - field) with x by lia.
  - unfold TAILQ_PREV. run_to Hp. by apply (deref_last_read h xs (y :: ys) R).
Qed.

(** The checks of a kernel with INVARIANTS never fail. *)
Lemma check_head_read k h xs R m :
  backed k = true → nonnull xs → owns (qcells k h xs ++ R) fr m →
  (k = LIST → QMD_LIST_CHECK_HEAD field h m = Done (true, m)) ∧
  (k = TAILQ → QMD_TAILQ_CHECK_HEAD field h m = Done (true, m)).
Proof.
  intros Hk Hnn Hm. pose proof (load_place field k h [] xs R fr m Hm) as Hf. cbn [end_at] in Hf.
  assert (∀ x l, xs = x :: l → x =? 0 = false ∧ member (prev_at field) x m = Done (h, m)) as Hx.
  { intros x l ->. apply Forall_cons in Hnn as [Hx _]. split; [by apply Z.eqb_neq|].
    exact (member_prev field k h [] x l R fr m Hk Hx Hm). }
  destruct xs as [|x l]; [|destruct (Hx x l eq_refl) as [H0 Hp]]; cbn [hd0] in Hf; split; intros ->.
  - unfold QMD_LIST_CHECK_HEAD. by run_to Hf.
  - unfold QMD_TAILQ_CHECK_HEAD. by run_to (empty_read TAILQ h [] R m Hm).
  - unfold QMD_LIST_CHECK_HEAD. run_to Hf. rewrite H0. run_to Hf. run_to Hp. by rewrite Z.eqb_refl.
  - unfold QMD_TAILQ_CHECK_HEAD. run_to (empty_read TAILQ h (x :: l) R m Hm). cbn [hd0]. rewrite H0.
    run_to Hf. run_to Hp. by rewrite Z.eqb_refl.
Qed.

Lemma check_read k h xs y ys R m :
  backed k = true → nonnull (xs ++ y :: ys) → owns (qcells k h (xs ++ y :: ys) ++ R) fr m →
  CHECK field k h y m = Done (true, m).
Proof.
  intros Hk Hnn Hm. destruct (check_head_read k h _ R m Hk Hnn Hm) as [HL HT].
  apply Forall_app in Hnn as (_ & [Hy Hys]%Forall_cons).
  pose proof (member_next field k h xs y ys R fr m Hy Hm) as Hn.
  pose proof (member_prev field k h xs y ys R fr m Hk Hy Hm) as Hp.
  pose proof (load_place field k h xs (y :: ys) R fr m Hm) as Hpn. cbn [hd0] in Hpn.
  pose proof (load_place field k h (xs ++ y :: ys) [] R fr m) as Hend. rewrite app_nil_r in Hend. specialize (Hend Hm).
  assert ((x ← member (next_at field) y;
    if x =? 0 then mret true
    else x ← member (next_at field) y; p ← member (prev_at field) x; mret (p =? next_at field y)) m
    = Done (true, m)) as Hcn.
  { run_to Hn. destruct ys as [|z zs]; [done|]. cbn [hd0] in Hn |- *. apply Forall_cons in Hys as [Hz _].
    rewrite (proj2 (Z.eqb_neq z 0) Hz). run_to Hn. rewrite cons_middle, app_assoc in Hm.
    run_to (member_prev field k h (xs ++ [y]) z zs R fr m Hk Hz Hm). by rewrite end_at_snoc, Z.eqb_refl. }
  assert ((p ← member (prev_at field) y; x ← load p; mret (x =? y)) m = Done (true, m)) as Hcp.
  { run_to Hp. run_to Hpn. by rewrite Z.eqb_refl. }
  destruct k; try done; cbn [CHECK].
  - run_to (HL eq_refl). unfold QMD_LIST_CHECK_NEXT. run_to Hcn. unfold QMD_LIST_CHECK_PREV. by run_to Hcp.
  - run_to (HT eq_refl). unfold QMD_TAILQ_CHECK_NEXT. run_to Hcn. unfold QMD_TAILQ_CHECK_PREV. run_to Hcp.
    assert (QMD_TAILQ_CHECK_TAIL h m = Done (true, m)) as Hct.
    { unfold QMD_TAILQ_CHECK_TAIL. run_to (load_last field TAILQ h _ R fr m eq_refl Hm). by run_to Hend. }
    by run_to Hct.
Qed.

(** ** Loops *)

(** [P l acc m]: the elements [l] have been visited. *)
Lemma for_loop_rule {B} (next : Z → cmd qmem Z) (body : Z → B → cmd qmem B) (P : list Z → B → qmem → Prop) xs :
  (∀ l x l' acc m, xs = l ++ x :: l' → x ≠ 0 → P l acc m → runs (body x acc) m (P (l ++ [x]))) →
  (∀ l x l' acc m, xs = l ++ x :: l' → x ≠ 0 → P (l ++ [x]) acc m → next x m = Done (hd0 l', m)) →
  ∀ l' l fuel acc m, xs = l ++ l' → nonnull l' → (length l' < fuel)%nat → P l acc m →
  runs (for_loop next body fuel (hd0 l') acc) m (P xs).
Proof.
  intros Hbody Hnext. induction l' as [|x l' IH]; intros l fuel acc m Hxs Hnn Hf HP;
    (destruct fuel as [|fuel]; [lia|]); cbn [for_loop hd0 Z.eqb].
  - apply runs_ret. by rewrite Hxs, app_nil_r.
  - apply Forall_cons in Hnn as [Hx Hnn]. rewrite (proj2 (Z.eqb_neq x 0) Hx). apply runs_bind.
    eapply runs_mono; [by eapply Hbody|]. intros acc' m' HP'. apply runs_bind.
    exists (hd0 l'), m'. split; [by eapply Hnext|]. apply (IH (l ++ [x])); [by rewrite <-app_assoc|done| |done].
    cbn in Hf. lia.
Qed.

Lemma visit_run k h pre xs R fuel m :
  nonnull xs → (length xs < fuel)%nat → owns (qcells k h (pre ++ xs) ++ R) fr m →
  for_loop (NEXT field k) visit fuel (hd0 xs) [] m = Done (xs, m).
Proof.
  intros Hnn Hf Hm.
  destruct (for_loop_rule (NEXT field k) visit (λ l acc m', acc = l ∧ m' = m) xs) with xs (@nil Z) fuel (@nil Z) m
    as (r & m' & Hrun & -> & ->); [| |done..].
  - intros l x l' acc m' _ _ [-> ->]. by apply runs_ret.
  - intros l x l' acc m' -> Hx [_ ->]. rewrite app_assoc in Hm. by eapply next_read.
Qed.

Lemma visit_back_run h xs post R fuel m :
  nonnull xs → (length xs < fuel)%nat → owns (qcells TAILQ h (xs ++ post) ++ R) fr m →
  for_loop (TAILQ_PREV field) visit fuel (last0 xs) [] m = Done (reverse xs, m).
Proof.
  intros Hnn Hf Hm. rewrite <-hd0_reverse.
  destruct (for_loop_rule (TAILQ_PREV field) visit (λ l acc m', acc = l ∧ m' = m) (reverse xs))
    with (reverse xs) (@nil Z) fuel (@nil Z) m as (r & m' & Hrun & -> & ->);
    [| |done|by apply Forall_reverse|by rewrite length_reverse|done|done].
  - intros l x l' acc m' _ _ [-> ->]. by apply runs_ret.
  - intros l x l' acc m' Heq Hx [_ ->]. apply (f_equal reverse) in Heq.
    rewrite reverse_involutive, reverse_app, reverse_cons in Heq. rewrite Heq, <-!app_assoc in Hm.
    rewrite <-(reverse_involutive l'), hd0_reverse. by eapply (prev_read TAILQ h).
Qed.

Lemma prevptr_run k h R m : ∀ xs pre fuel acc,
  nonnull xs → (length xs < fuel)%nat → owns (qcells k h (pre ++ xs) ++ R) fr m →
  prevptr_loop field visit_ptr fuel (end_at h pre) acc m = Done (acc ++ prevptrs field (end_at h pre) xs, m).
Proof.
  induction xs as [|x xs IH]; intros pre fuel acc Hnn Hf Hm; (destruct fuel as [|fuel]; [lia|]);
    cbn [prevptr_loop prevptrs]; run_to (load_place field k h pre _ R fr m Hm); cbn [hd0].
  - by rewrite app_nil_r.
  - apply Forall_cons in Hnn as [Hx Hnn]. rewrite (proj2 (Z.eqb_neq x 0) Hx).
    run_by (apply ret_done). rewrite cons_middle, app_assoc in Hm.
    rewrite <-(end_at_snoc field h pre x), (IH (pre ++ [x])); [|done|cbn in Hf; lia|done]. by rewrite <-app_assoc.
Qed.

(** ** Loops that remove elements *)

Lemma drop_if_run p k h xs x ys R acc m :
  nonnull (xs ++ x :: ys) → owns (qcells k h (xs ++ x :: ys) ++ R) fr m →
  runs (drop_if field p k h x acc) m (λ r m', r = acc ++ [x] ∧ ∃ es, es.*1 = filter (λ x, p x) [x] ∧
    owns (qcells k h (xs ++ filter (λ x, negb (p x)) [x] ++ ys) ++ (es ≫= raw k) ++ R) fr m').
Proof.
  intros Hnn Hm. unfold drop_if. apply runs_bind. rewrite !filter_cons, !filter_nil. destruct (p x); cbn.
  - eapply runs_mono; [by eapply remove_run|]. intros _ m' [c Hm']. apply runs_ret. split; [done|].
    exists [(x, c)]. split; [done|]. cbn. rewrite app_nil_r. same_words.
  - apply runs_ret, runs_ret. split; [done|]. by exists [].
Qed.

Lemma nonnull_filter (P : Z → Prop) `{!∀ x, Decision (P x)} xs : nonnull xs → nonnull (filter P xs).
Proof. rewrite !Forall_forall. intros Hxs x [_ Hx]%list_elem_of_filter. by apply Hxs. Qed.

Lemma filter_snd (P : Z → Prop) `{!∀ x, Decision (P x)} x xs : filter P (x :: xs) = filter P [x] ++ filter P xs.
Proof. by rewrite <-filter_app. Qed.

(** The removed elements are loose, the others stay. *)
Lemma drop_loop_run p k h : ∀ xs pre R fuel acc m,
  nonnull (pre ++ xs) → (length xs < fuel)%nat → owns (qcells k h (pre ++ xs) ++ R) fr m →
  runs (for_safe_loop (NEXT field k) (drop_if field p k h) fuel (hd0 xs) acc) m
    (λ r m', r = acc ++ xs ∧ ∃ es, es.*1 = filter (λ x, p x) xs ∧
      owns (qcells k h (pre ++ filter (λ x, negb (p x)) xs) ++ (es ≫= raw k) ++ R) fr m').
Proof.
  induction xs as [|x xs IH]; intros pre R fuel acc m Hnn Hf Hm; (destruct fuel as [|fuel]; [lia|]);
    cbn [for_safe_loop hd0 Z.eqb].
  - apply runs_ret. split; [by rewrite app_nil_r|]. by exists [].
  - pose proof Hnn as (Hpre & [Hx Hxs]%Forall_cons)%Forall_app. rewrite (proj2 (Z.eqb_neq x 0) Hx).
    apply runs_bind. exists (hd0 xs), m. split; [by eapply next_read|]. apply runs_bind.
    eapply runs_mono; [by apply (drop_if_run p k h pre x xs R)|]. intros r m1 (-> & es1 & Hes1 & Hm1).
    rewrite (app_assoc pre) in Hm1. eapply runs_mono; [apply IH; [|cbn in Hf; lia|exact Hm1]|].
    + rewrite !Forall_app. split; [split|]; [done| |done]. apply nonnull_filter. by constructor.
    + intros r m2 (-> & es2 & Hes2 & Hm2). split; [by rewrite <-app_assoc|]. exists (es1 ++ es2).
      rewrite fmap_app, Hes1, Hes2, <-filter_snd. split; [done|].
      rewrite (filter_snd _ x xs), bind_app. refine (owns_perm _ _ _ _ _ Hm2).
      rewrite <-(app_assoc pre). solve_Permutation.
Qed.

Lemma drop_back_run p h : ∀ xs post R fuel acc m,
  nonnull (reverse xs ++ post) → (length xs < fuel)%nat → owns (qcells TAILQ h (reverse xs ++ post) ++ R) fr m →
  runs (for_safe_loop (TAILQ_PREV field) (drop_if field p TAILQ h) fuel (hd0 xs) acc) m
    (λ r m', r = acc ++ xs ∧ ∃ es, es.*1 = filter (λ x, p x) xs ∧
      owns (qcells TAILQ h (reverse (filter (λ x, negb (p x)) xs) ++ post) ++ (es ≫= raw TAILQ) ++ R) fr m').
Proof.
  induction xs as [|x xs IH]; intros post R fuel acc m Hnn Hf Hm; (destruct fuel as [|fuel]; [lia|]);
    cbn [for_safe_loop hd0 Z.eqb].
  - apply runs_ret. split; [by rewrite app_nil_r|]. by exists [].
  - rewrite reverse_cons, <-app_assoc in Hm, Hnn. cbn [app] in Hm, Hnn.
    pose proof Hnn as (Hxs & [Hx Hpost]%Forall_cons)%Forall_app. rewrite (proj2 (Z.eqb_neq x 0) Hx).
    apply runs_bind. exists (hd0 xs), m. split.
    { rewrite <-(reverse_involutive xs), hd0_reverse. by eapply (prev_read TAILQ h). }
    apply runs_bind. eapply runs_mono; [by apply (drop_if_run p TAILQ h (reverse xs) x post R)|].
    intros r m1 (-> & es1 & Hes1 & Hm1). eapply runs_mono; [apply IH; [|cbn in Hf; lia|exact Hm1]|].
    + rewrite !Forall_app. split_and!; [done| |done]. apply nonnull_filter. by constructor.
    + intros r m2 (-> & es2 & Hes2 & Hm2). split; [by rewrite <-app_assoc|]. exists (es1 ++ es2).
      rewrite fmap_app, Hes1, Hes2, <-filter_snd. split; [done|].
      rewrite (filter_snd _ x xs), bind_app, reverse_app, <-(app_assoc (reverse _)).
      assert (reverse (filter (λ x, negb (p x)) [x]) = filter (λ x, negb (p x)) [x]) as ->
        by (rewrite filter_cons, filter_nil; by destruct (decide _)).
      refine (owns_perm _ _ _ _ _ Hm2). solve_Permutation.
Qed.
End ops.
