(* ===== verification/QueueTheorems.v ===== *)
(** * QueueTheorems: the lists of queue.h are lists

    The specification keeps, for every head, the list of the elements, and a
    pool of the elements in no list.  [queue_refines_lists] is the refinement,
    for any sequence of macros of any of the four kinds on any number of
    lists. *)

From S2P Require Import Prelude.
From S2P Require Import Own.
From S2P Require Import Queue.
From S2P Require Import QueueMem.
From S2P Require Import QueueOps.

(** ** The specification *)

Inductive q_op :=
  | OpInit (h : Z)
  | OpInsertHead (h x : Z)
  | OpInsertTail (h x : Z)
  | OpInsertAfter (h y x : Z)
  | OpInsertBefore (h y x : Z)
  | OpRemove (h x : Z)
  | OpRemoveHead (h : Z)
  | OpRemoveAfter (h y : Z)
  | OpConcat (h h' : Z)
  | OpSwap (h h' : Z)
  | OpFirst (h : Z)
  | OpLast (h : Z)
  | OpEmpty (h : Z)
  | OpNext (h y : Z)
  | OpPrev (h y : Z)
  | OpCheck (h y : Z)
  | OpForeach (h : Z)
  | OpForeachFrom (h y : Z)
  | OpForeachReverse (h : Z)
  | OpForeachReverseFrom (h y : Z)
  | OpForeachPrevptr (h : Z)
  | OpDrop (h : Z) (p : Z → bool)
  | OpDropFrom (h y : Z) (p : Z → bool)
  | OpDropReverse (h : Z) (p : Z → bool)
  | OpDropReverseFrom (h y : Z) (p : Z → bool).

Record q_state := Qs { q_lists : gmap Z (list Z); q_pool : gset Z }.

(** The elements before and after [y]. *)
Fixpoint before (y : Z) (xs : list Z) : list Z :=
  match xs with [] => [] | x :: xs => if decide (x = y) then [] else x :: before y xs end.
Fixpoint after (y : Z) (xs : list Z) : list Z :=
  match xs with [] => [] | x :: xs => if decide (x = y) then xs else after y xs end.

Lemma before_after y xs : y ∈ xs → xs = before y xs ++ y :: after y xs.
Proof.
  induction xs as [|x xs IH]; [by intros ?%elem_of_nil|]. cbn. destruct (decide (x = y)) as [->|Hne]; [done|].
  intros [? | Hy]%elem_of_cons; [done|]. cbn. f_equal. by apply IH.
Qed.

(** Where a walk from [y] starts, forwards and backwards: at the end of the
    list when [y] is null. *)
Definition from (y : Z) (xs : list Z) : list Z * list Z :=
  if decide (y = 0) then ([], xs) else (before y xs, y :: after y xs).
Definition back_from (y : Z) (xs : list Z) : list Z * list Z :=
  if decide (y = 0) then (xs, []) else (before y xs ++ [y], after y xs).

Notation keeps p := (λ x, negb (p x)).

Section spec.
Context (field : Z).
Implicit Types (Q : gmap Z (list Z)) (st : q_state) (op : q_op).

Definition set_list (h : Z) (xs : list Z) st : q_state := Qs (<[h := xs]> (q_lists st)) (q_pool st).
Definition take_out (x : Z) st : q_state := Qs (q_lists st) (q_pool st ∖ {[x]}).
Definition put_in (xs : list Z) st : q_state := Qs (q_lists st) (list_to_set xs ∪ q_pool st).

(** What a macro returns, and the lists it leaves. *)
Definition q_spec_op st op : list Z * q_state :=
  let L h := q_lists st !!! h in
  match op with
  | OpInit h => ([], put_in (L h) (set_list h [] st))
  | OpInsertHead h x => ([], take_out x (set_list h (x :: L h) st))
  | OpInsertTail h x => ([], take_out x (set_list h (L h ++ [x]) st))
  | OpInsertAfter h y x => ([], take_out x (set_list h (before y (L h) ++ y :: x :: after y (L h)) st))
  | OpInsertBefore h y x => ([], take_out x (set_list h (before y (L h) ++ x :: y :: after y (L h)) st))
  | OpRemove h x => ([], put_in [x] (set_list h (before x (L h) ++ after x (L h)) st))
  | OpRemoveHead h => ([], put_in (take 1 (L h)) (set_list h (drop 1 (L h)) st))
  | OpRemoveAfter h y =>
      ([], put_in (take 1 (after y (L h))) (set_list h (before y (L h) ++ y :: drop 1 (after y (L h))) st))
  | OpConcat h h' => ([], set_list h' [] (set_list h (L h ++ L h') st))
  | OpSwap h h' => ([], set_list h' (L h) (set_list h (L h') st))
  | OpFirst h => ([hd0 (L h)], st)
  | OpLast h => ([last0 (L h)], st)
  | OpEmpty h => ([of_bool (bool_decide (L h = []))], st)
  | OpNext h y => ([hd0 (after y (L h))], st)
  | OpPrev h y => ([last0 (before y (L h))], st)
  | OpCheck h y => ([1], st)
  | OpForeach h => (L h, st)
  | OpForeachFrom h y => ((from y (L h)).2, st)
  | OpForeachReverse h => (reverse (L h), st)
  | OpForeachReverseFrom h y => (reverse (back_from y (L h)).1, st)
  | OpForeachPrevptr h => (prevptrs field h (L h), st)
  | OpDrop h p => (L h, put_in (filter p (L h)) (set_list h (filter (keeps p) (L h)) st))
  | OpDropFrom h y p =>
      let '(pre, xs) := from y (L h) in
      (xs, put_in (filter p xs) (set_list h (pre ++ filter (keeps p) xs) st))
  | OpDropReverse h p =>
      (reverse (L h), put_in (filter p (L h)) (set_list h (filter (keeps p) (L h)) st))
  | OpDropReverseFrom h y p =>
      let '(xs, post) := back_from y (L h) in
      (reverse xs, put_in (filter p xs) (set_list h (filter (keeps p) xs ++ post) st))
  end.

(** What the caller owes: the kind has the macro, the heads are initialised,
    an element that is inserted is in no list, the others are in the list. *)
Definition q_valid_op (k : kind) st op : Prop :=
  let H h := is_Some (q_lists st !! h) in
  let L h := q_lists st !!! h in
  match op with
  | OpInit h | OpFirst h | OpEmpty h | OpForeach h | OpDrop h _ => H h
  | OpInsertHead h x => H h ∧ x ∈ q_pool st
  | OpInsertTail h x => tailed k ∧ H h ∧ x ∈ q_pool st
  | OpInsertAfter h y x => H h ∧ x ∈ q_pool st ∧ y ∈ L h
  | OpInsertBefore h y x => backed k ∧ H h ∧ x ∈ q_pool st ∧ y ∈ L h
  | OpRemove h x | OpNext h x => H h ∧ x ∈ L h
  | OpRemoveHead h => negb (backed k) ∧ H h ∧ L h ≠ []
  | OpRemoveAfter h y => negb (backed k) ∧ H h ∧ y ∈ L h ∧ after y (L h) ≠ []
  | OpConcat h h' => tailed k ∧ H h ∧ H h' ∧ h ≠ h'
  | OpSwap h h' => H h ∧ H h' ∧ h ≠ h'
  | OpLast h => tailed k ∧ H h
  | OpPrev h y | OpCheck h y => backed k ∧ H h ∧ y ∈ L h
  | OpForeachFrom h y | OpDropFrom h y _ => H h ∧ (y = 0 ∨ y ∈ L h)
  | OpForeachReverse h | OpDropReverse h _ => k = TAILQ ∧ H h
  | OpForeachReverseFrom h y | OpDropReverseFrom h y _ => k = TAILQ ∧ H h ∧ (y = 0 ∨ y ∈ L h)
  | OpForeachPrevptr h => k = SLIST ∧ H h
  end.

Fixpoint q_spec_ops st (ops : list q_op) : list (list Z) * q_state :=
  match ops with
  | [] => ([], st)
  | op :: ops =>
      let '(r, st) := q_spec_op st op in
      let '(rs, st) := q_spec_ops st ops in
      (r :: rs, st)
  end.

Fixpoint q_valid_ops (k : kind) st (ops : list q_op) : Prop :=
  match ops with
  | [] => True
  | op :: ops => q_valid_op k st op ∧ q_valid_ops k (q_spec_op st op).2 ops
  end.

(** ** The calls *)

Definition quiet (c : cmd qmem unit) : cmd qmem (list Z) := _ ← c; mret [].
Definition pointer (c : cmd qmem Z) : cmd qmem (list Z) := x ← c; mret [x].
Definition truth (c : cmd qmem bool) : cmd qmem (list Z) := b ← c; mret [of_bool b].

Definition q_run_op (k : kind) op : cmd qmem (list Z) :=
  match op with
  | OpInit h => quiet (INIT k h)
  | OpInsertHead h x => quiet (INSERT_HEAD field k h x)
  | OpInsertTail h x => quiet (INSERT_TAIL field k h x)
  | OpInsertAfter h y x => quiet (INSERT_AFTER field k h y x)
  | OpInsertBefore h y x => quiet (INSERT_BEFORE field k y x)
  | OpRemove h x => quiet (REMOVE field k h x)
  | OpRemoveHead h => quiet (REMOVE_HEAD field k h)
  | OpRemoveAfter h y => quiet (REMOVE_AFTER field k h y)
  | OpConcat h h' => quiet (CONCAT field k h h')
  | OpSwap h h' => quiet (SWAP field k h h')
  | OpFirst h => pointer (FIRST k h)
  | OpLast h => pointer (LAST field k h)
  | OpEmpty h => truth (EMPTY k h)
  | OpNext h y => pointer (NEXT field k y)
  | OpPrev h y => pointer (PREV field k y h)
  | OpCheck h y => truth (CHECK field k h y)
  | OpForeach h => FOREACH field k h visit []
  | OpForeachFrom h y => FOREACH_FROM field k y h visit []
  | OpForeachReverse h => TAILQ_FOREACH_REVERSE field h visit []
  | OpForeachReverseFrom h y => TAILQ_FOREACH_REVERSE_FROM field y h visit []
  | OpForeachPrevptr h => SLIST_FOREACH_PREVPTR field h visit_ptr []
  | OpDrop h p => FOREACH_SAFE field k h (drop_if field p k h) []
  | OpDropFrom h y p => FOREACH_FROM_SAFE field k y h (drop_if field p k h) []
  | OpDropReverse h p => TAILQ_FOREACH_REVERSE_SAFE field h (drop_if field p k h) []
  | OpDropReverseFrom h y p => TAILQ_FOREACH_REVERSE_FROM_SAFE field y h (drop_if field p k h) []
  end.

Fixpoint q_run_ops (k : kind) (ops : list q_op) : cmd qmem (list (list Z)) :=
  match ops with
  | [] => mret []
  | op :: ops => r ← q_run_op k op; rs ← q_run_ops k ops; mret (r :: rs)
  end.

Fixpoint q_init_all (k : kind) (hs : list Z) : cmd qmem unit :=
  match hs with [] => mret tt | h :: hs => _ ← INIT k h; q_init_all k hs end.
End spec.

(** ** Representation *)

Section repr.
Context (field : Z) (k : kind) (fr : qmem).
Notation qcells := (qcells field k).
Notation raw := (raw field k).
Notation nonnull := (Forall (.≠ 0)).
Implicit Types (Q : gmap Z (list Z)) (st : q_state) (m : qmem) (R : words) (es : list (Z * (Z * Z))).
Implicit Types (h x y : Z) (xs ys : list Z).

Definition lists_cells Q : words := map_to_list Q ≫= λ e, qcells e.1 e.2.

Record q_repr st m : Prop := {
  q_nonnull : ∀ h xs, q_lists st !! h = Some xs → nonnull xs;
  q_pool_nonnull : ∀ x, x ∈ q_pool st → x ≠ 0;
  q_owns : ∃ es, list_to_set es.*1 = q_pool st ∧ owns (lists_cells (q_lists st) ++ (es ≫= raw)) fr m;
}.

Lemma lists_cells_take Q h xs :
  Q !! h = Some xs → lists_cells Q ≡ₚ qcells h xs ++ lists_cells (delete h Q).
Proof. intros Hh. unfold lists_cells. by rewrite <-(map_to_list_delete Q h xs Hh). Qed.

Lemma lists_cells_insert Q h xs : lists_cells (<[h := xs]> Q) ≡ₚ qcells h xs ++ lists_cells (delete h Q).
Proof. rewrite (lists_cells_take _ h xs) by apply lookup_insert_eq. by rewrite delete_insert_eq. Qed.

Lemma pool_take x es fr' R m :
  owns (R ++ (es ≫= raw)) fr' m → x ∈ es.*1 →
  ∃ c es', es ≡ₚ (x, c) :: es' ∧ x ∉ es'.*1.
Proof.
  intros (Hnd & _) ([x' c] & -> & Hin)%list_elem_of_fmap. cbn.
  apply elem_of_Permutation in Hin as [es' Hes]. exists c, es'. split; [done|].
  intros ([x2 c2] & Hx & Hin)%list_elem_of_fmap. cbn in Hx. subst x2. apply elem_of_Permutation in Hin as [es2 Hes2].
  rewrite fmap_app, Hes, Hes2 in Hnd. apply NoDup_app in Hnd as (_ & _ & Hnd). cbn in Hnd.
  apply NoDup_cons in Hnd as [Hnd _]. apply Hnd. rewrite !fmap_app. apply elem_of_app. right.
  rewrite fmap_cons. apply list_elem_of_here.
Qed.

(** ** A macro on one list, with elements that leave or join the pool *)

Definition q_step {A} (c : cmd qmem A) m (a : A) st : Prop := runs c m (λ a' m', a' = a ∧ q_repr st m').

(** [es] leave the list. *)
Lemma step_list {A} (c : cmd qmem A) a st h xs xs' out m :
  q_repr st m → q_lists st !! h = Some xs → (nonnull xs → nonnull (xs' ++ out)) →
  (∀ R, nonnull xs → owns (qcells h xs ++ R) fr m → runs c m (λ a' m', a' = a ∧ ∃ es, es.*1 = out ∧
    owns (qcells h xs' ++ (es ≫= raw) ++ R) fr m')) →
  q_step c m a (put_in out (set_list h xs' st)).
Proof.
  intros [Hnn Hpnn (es & Hpool & Hm)] Hh Hxs' Hc. pose proof (Hnn h xs Hh) as Hxs.
  specialize (Hxs' Hxs). apply Forall_app in Hxs' as [Hxs' Hout].
  rewrite (lists_cells_take _ h xs Hh), <-app_assoc in Hm. specialize (Hc _ Hxs Hm).
  eapply runs_mono; [exact Hc|]. intros a' m' (-> & es' & Hes' & Hm'). split; [done|]. split; cbn.
  - intros h2 xs2. rewrite lookup_insert_Some. intros [[_ <-]|[_ ?]]; [done|by eapply Hnn].
  - intros x [Hx%elem_of_list_to_set|Hx]%elem_of_union; [|by apply Hpnn].
    rewrite Forall_forall in Hout. by apply Hout.
  - exists (es' ++ es). split; [by rewrite fmap_app, list_to_set_app_L, Hes', Hpool|].
    refine (owns_perm _ _ _ _ _ Hm'). rewrite lists_cells_insert, bind_app. solve_Permutation.
Qed.

(** [x] joins the list. *)
Lemma step_insert {A} (c : cmd qmem A) a st h xs xs' x m :
  q_repr st m → q_lists st !! h = Some xs → x ∈ q_pool st → (nonnull (x :: xs) → nonnull xs') →
  (∀ n R, x ≠ 0 → nonnull xs → owns (raw (x, n) ++ qcells h xs ++ R) fr m →
    runs c m (λ a' m', a' = a ∧ owns (qcells h xs' ++ R) fr m')) →
  q_step c m a (take_out x (set_list h xs' st)).
Proof.
  intros [Hnn Hpnn (es & Hpool & Hm)] Hh Hx Hxs' Hc. pose proof (Hpnn x Hx) as Hx0.
  destruct (pool_take x es fr (lists_cells (q_lists st)) m Hm) as (n & es' & Hes & Hnin);
    [by rewrite <-Hpool, elem_of_list_to_set in Hx|].
  assert (owns (raw (x, n) ++ qcells h xs ++ lists_cells (delete h (q_lists st)) ++ (es' ≫= raw)) fr m) as Hm1.
  { refine (owns_perm _ _ _ _ _ Hm). rewrite (lists_cells_take _ h xs Hh), Hes. cbn. solve_Permutation. }
  eapply runs_mono; [exact (Hc _ _ Hx0 (Hnn h xs Hh) Hm1)|]. intros a' m' [-> Hm']. split; [done|]. split; cbn.
  - intros h2 xs2. rewrite lookup_insert_Some. intros [[_ <-]|[_ ?]]; [|by eapply Hnn].
    apply Hxs'. constructor; [done|]. by eapply Hnn.
  - intros y [Hy _]%elem_of_difference. by apply Hpnn.
  - exists es'. split; [|by rewrite lists_cells_insert, <-app_assoc].
    rewrite <-Hpool, (list_to_set_perm_L es.*1 ((x, n) :: es').*1) by (by rewrite Hes). cbn.
    rewrite <-(not_elem_of_list_to_set (C := gset Z)) in Hnin.
    rewrite difference_union_distr_l_L, difference_diag_L, (left_id_L ∅ (∪)). symmetry.
    by apply difference_disjoint_L, disjoint_singleton_r.
Qed.

(** Two lists. *)
Lemma step_two {A} (c : cmd qmem A) a st h h' xs ys xs' ys' m :
  q_repr st m → h ≠ h' → q_lists st !! h = Some xs → q_lists st !! h' = Some ys →
  (nonnull xs → nonnull ys → nonnull xs' ∧ nonnull ys') →
  (∀ R, nonnull xs → nonnull ys → owns (qcells h xs ++ qcells h' ys ++ R) fr m →
    runs c m (λ a' m', a' = a ∧ owns (qcells h xs' ++ qcells h' ys' ++ R) fr m')) →
  q_step c m a (set_list h' ys' (set_list h xs' st)).
Proof.
  intros [Hnn Hpnn (es & Hpool & Hm)] Hne Hh Hh' Hnn' Hc.
  pose proof (Hnn h xs Hh) as Hxs. pose proof (Hnn h' ys Hh') as Hys. destruct (Hnn' Hxs Hys) as [Hxs' Hys'].
  assert (delete h (q_lists st) !! h' = Some ys) as Hd by (by rewrite lookup_delete_ne).
  rewrite (lists_cells_take _ h xs Hh), (lists_cells_take _ h' ys Hd), <-!app_assoc in Hm.
  eapply runs_mono; [exact (Hc _ Hxs Hys Hm)|]. intros a' m' [-> Hm']. split; [done|]. split; cbn.
  - intros h2 xs2. rewrite !lookup_insert_Some. intros [[_ <-]|[_ [[_ <-]|[_ ?]]]]; [done..|by eapply Hnn].
  - done.
  - exists es. split; [done|]. refine (owns_perm _ _ _ _ _ Hm').
    rewrite lists_cells_insert, delete_insert_ne by done. rewrite lists_cells_insert, delete_delete.
    rewrite !app_assoc. apply Permutation_app; [|done]. apply Permutation_app; [|done]. apply Permutation_app_comm.
Qed.

(** A macro that changes nothing. *)
Lemma step_read {A} (c : cmd qmem A) a st h xs m :
  q_repr st m → q_lists st !! h = Some xs →
  (∀ R, nonnull xs → owns (qcells h xs ++ R) fr m → c m = Done (a, m)) → q_step c m a st.
Proof.
  intros Hr Hh Hc. pose proof Hr as [Hnn _ (es & _ & Hm)]. exists a, m. split; [|done].
  rewrite (lists_cells_take _ h xs Hh), <-app_assoc in Hm. apply (Hc _ (Hnn h xs Hh) Hm).
Qed.

(** ** Each macro *)

Notation refines op := (∀ st m, q_repr st m → q_valid_op k st op →
  q_step (q_run_op field k op) m (q_spec_op field st op).1 (q_spec_op field st op).2).

Lemma quiet_runs c m (P : qmem → Prop) :
  runs c m (λ _ m', P m') → runs (quiet c) m (λ a m', a = [] ∧ P m').
Proof. intros H. apply runs_bind. eapply runs_mono; [exact H|]. intros ? m' HP. by apply runs_ret. Qed.

(** The lists an operation works on, and the places in them. *)
Ltac lists :=
  repeat match goal with
  | H : _ ∧ _ |- _ => destruct H
  | H : is_Some _ |- _ => let xs := fresh "xs" in let Hh := fresh "Hh" in
      destruct H as [xs Hh]; rewrite ?(lookup_total_correct _ _ _ Hh) in *
  | H : Is_true _ |- _ => apply Is_true_true in H
  end; cbn [fst snd].

Lemma op_insert_head h x : refines (OpInsertHead h x).
Proof.
  intros st m Hr Hv. cbn in *. lists. eapply step_insert; [done..|].
  intros n R Hx Hxs Hm. by eapply quiet_runs, insert_head_run.
Qed.

Lemma op_insert_tail h x : refines (OpInsertTail h x).
Proof.
  intros st m Hr Hv. cbn in *. lists. eapply step_insert; [done..| |].
  - intros [Hx Hxs]%Forall_cons. apply Forall_app. split; [done|]. by constructor.
  - intros n R Hx Hxs Hm. by eapply quiet_runs, insert_tail_run.
Qed.

(** The list, split at an element. *)
Ltac split_at y :=
  match goal with
  | H : y ∈ ?xs |- _ =>
      let Hs := fresh "Hs" in pose proof (before_after y xs H) as Hs; revert Hs;
      generalize (before y xs), (after y xs); intros ? ? Hs; subst xs
  end.

Lemma op_insert_after h y x : refines (OpInsertAfter h y x).
Proof.
  intros st m Hr Hv. cbn in *. lists. split_at y. eapply step_insert; [done..| |].
  - rewrite !Forall_cons, !Forall_app, !Forall_cons. tauto.
  - intros n R Hx [_ [Hy Hys]%Forall_cons]%Forall_app Hm. by eapply quiet_runs, insert_after_run.
Qed.

Lemma op_insert_before h y x : refines (OpInsertBefore h y x).
Proof.
  intros st m Hr Hv. cbn in *. lists. split_at y. eapply step_insert; [done..| |].
  - rewrite !Forall_cons, !Forall_app, !Forall_cons. tauto.
  - intros n R Hx [_ [Hy Hys]%Forall_cons]%Forall_app Hm. by eapply quiet_runs, insert_before_run.
Qed.

Lemma removed_one c m x xs' R h :
  runs c m (λ _ m', ∃ n, owns (raw (x, n) ++ qcells h xs' ++ R) fr m') →
  runs (quiet c) m (λ a m', a = [] ∧ ∃ es, es.*1 = [x] ∧ owns (qcells h xs' ++ (es ≫= raw) ++ R) fr m').
Proof.
  intros H. apply quiet_runs. eapply runs_mono; [exact H|]. intros ? m' [n Hm']. exists [(x, n)]. split; [done|].
  refine (owns_perm _ _ _ _ _ Hm'). cbn. rewrite app_nil_r. solve_Permutation.
Qed.

Lemma op_remove h x : refines (OpRemove h x).
Proof.
  intros st m Hr Hv. cbn in *. lists. split_at x. eapply step_list; [done..| |].
  - rewrite !Forall_app, !Forall_cons. rewrite Forall_nil. tauto.
  - intros R Hxs Hm. by eapply removed_one, remove_run.
Qed.

Lemma op_remove_head h : refines (OpRemoveHead h).
Proof.
  intros st m Hr Hv. cbn in *. lists. destruct xs as [|x xs]; [done|]. cbn. rewrite take_0, drop_0.
  eapply step_list; [done..| |].
  - rewrite !Forall_app, !Forall_cons. rewrite Forall_nil. tauto.
  - intros R [Hx Hxs]%Forall_cons Hm. eapply removed_one, remove_head_run; [by apply negb_true_iff|done..].
Qed.

Lemma op_remove_after h y : refines (OpRemoveAfter h y).
Proof.
  intros st m Hr Hv. cbn in *. lists. pose proof (before_after y xs) as Hs. destruct (after y xs) as [|x ys]; [done|].
  cbn. rewrite take_0, drop_0. rewrite Hs in Hh by done. eapply step_list; [done..| |].
  - rewrite !Forall_app, !Forall_cons. rewrite Forall_nil. tauto.
  - intros R (_ & [Hy [Hx Hys]%Forall_cons]%Forall_cons)%Forall_app Hm.
    eapply removed_one, remove_after_run; [by apply negb_true_iff|done..].
Qed.

Lemma op_concat h h' : refines (OpConcat h h').
Proof.
  intros st m Hr Hv. cbn in *. lists. eapply step_two; [done..| |].
  - intros. split; [by apply Forall_app|done].
  - intros R Hxs Hys Hm. by eapply quiet_runs, concat_run.
Qed.

Lemma op_swap h h' : refines (OpSwap h h').
Proof.
  intros st m Hr Hv. cbn in *. lists. eapply step_two; [done..|].
  intros R Hxs Hys Hm. by eapply quiet_runs, swap_run.
Qed.

Lemma op_init h : refines (OpInit h).
Proof.
  intros st m Hr Hv. cbn in *. lists. eapply step_list; [done..|].
  intros R Hxs Hm. destruct (qcells_raw field k h xs) as (w & es & Hes & He). rewrite He, <-app_assoc in Hm.
  apply (quiet_runs _ _ (λ m', ∃ es, es.*1 = xs ∧ owns (qcells h [] ++ (es ≫= raw) ++ R) fr m')).
  eapply runs_mono; [by apply (q_init_run field fr k h w)|]. intros ? m' Hm'. by exists es.
Qed.

(** ** Reading *)

Lemma pointer_run c m x : c m = Done (x, m) → pointer c m = Done ([x], m).
Proof. intros H. unfold pointer. by run_to H. Qed.

Lemma truth_run c m b : c m = Done (b, m) → truth c m = Done ([of_bool b], m).
Proof. intros H. unfold truth. by run_to H. Qed.

Lemma op_first h : refines (OpFirst h).
Proof.
  intros st m Hr Hv. cbn in *. lists. eapply step_read; [done..|]. intros R Hxs Hm. by eapply pointer_run, first_read.
Qed.

Lemma op_last h : refines (OpLast h).
Proof.
  intros st m Hr Hv. cbn in *. lists. eapply step_read; [done..|]. intros R Hxs Hm. by eapply pointer_run, last_read.
Qed.

Lemma op_empty h : refines (OpEmpty h).
Proof.
  intros st m Hr Hv. cbn in *. lists. eapply step_read; [done..|]. intros R Hxs Hm.
  replace (bool_decide (xs = [])) with (hd0 xs =? 0); [by eapply truth_run, empty_read|].
  destruct xs as [|x xs]; [done|]. apply Forall_cons in Hxs as [Hx _]. by apply Z.eqb_neq.
Qed.

Lemma op_next h y : refines (OpNext h y).
Proof.
  intros st m Hr Hv. cbn in *. lists. split_at y. eapply step_read; [done..|].
  intros R [_ [Hy _]%Forall_cons]%Forall_app Hm. by eapply pointer_run, next_read.
Qed.

Lemma op_prev h y : refines (OpPrev h y).
Proof.
  intros st m Hr Hv. cbn in *. lists. split_at y. eapply step_read; [done..|].
  intros R [_ [Hy _]%Forall_cons]%Forall_app Hm. by eapply pointer_run, prev_read.
Qed.

Lemma op_check h y : refines (OpCheck h y).
Proof.
  intros st m Hr Hv. cbn in *. lists. split_at y. eapply step_read; [done..|].
  intros R Hxs Hm. by eapply (truth_run _ _ true), check_read.
Qed.

(** ** Walks *)

Section walks.
Context {B : Type} (body : Z → B → cmd qmem B) (acc : B).

Lemma FOREACH_unfold h :
  FOREACH field k h body acc = fuel ← live_words; var ← FIRST k h; for_loop (NEXT field k) body fuel var acc.
Proof. by destruct k. Qed.
Lemma FOREACH_FROM_unfold y h :
  FOREACH_FROM field k y h body acc =
    fuel ← live_words; var ← (if negb (y =? 0) then mret y else FIRST k h);
    for_loop (NEXT field k) body fuel var acc.
Proof. by destruct k. Qed.
Lemma FOREACH_SAFE_unfold h :
  FOREACH_SAFE field k h body acc =
    fuel ← live_words; var ← FIRST k h; for_safe_loop (NEXT field k) body fuel var acc.
Proof. by destruct k. Qed.
Lemma FOREACH_FROM_SAFE_unfold y h :
  FOREACH_FROM_SAFE field k y h body acc =
    fuel ← live_words; var ← (if negb (y =? 0) then mret y else FIRST k h);
    for_safe_loop (NEXT field k) body fuel var acc.
Proof. by destruct k. Qed.
End walks.

Lemma from_app y xs : y = 0 ∨ y ∈ xs → (from y xs).1 ++ (from y xs).2 = xs.
Proof.
  intros Hy. unfold from. destruct (decide (y = 0)); [done|]. destruct Hy; [done|]. cbn. by rewrite <-before_after.
Qed.

Lemma back_from_app y xs : y = 0 ∨ y ∈ xs → (back_from y xs).1 ++ (back_from y xs).2 = xs.
Proof.
  intros Hy. unfold back_from. destruct (decide (y = 0)); [apply app_nil_r|]. destruct Hy; [done|]. cbn.
  by rewrite <-app_assoc, <-before_after.
Qed.

(** The first element of a walk. *)
Lemma from_run y h xs R m :
  owns (qcells h xs ++ R) fr m →
  (if negb (y =? 0) then mret y else FIRST k h) m = Done (hd0 (from y xs).2, m).
Proof.
  intros Hm. unfold from. destruct (Z.eqb_spec y 0) as [->|Hy]; cbn.
  - rewrite decide_True by done. by eapply first_read.
  - by rewrite decide_False.
Qed.

Lemma back_from_run y h xs R m :
  k = TAILQ → nonnull xs → owns (qcells h xs ++ R) fr m →
  (if negb (y =? 0) then mret y else TAILQ_LAST h) m = Done (last0 (back_from y xs).1, m).
Proof.
  intros Hk Hxs Hm. unfold back_from. destruct (Z.eqb_spec y 0) as [->|Hy]; cbn [negb].
  - rewrite decide_True by done. rewrite Hk in Hm. by apply (last_read field fr TAILQ h xs R).
  - rewrite decide_False by done. cbn [fst]. by rewrite qlast0_snoc.
Qed.

Lemma op_foreach h : refines (OpForeach h).
Proof.
  intros st m Hr Hv. cbn in *. lists. eapply step_read; [done..|]. intros R Hxs Hm. rewrite FOREACH_unfold.
  destruct (live_words_run field fr (length xs) k h xs R m Hm) as (fuel & Hf & Hlt); [done|]. run_to Hf.
  run_to (first_read field fr k h xs R m Hm). apply (visit_run field fr k h [] xs R); [done|lia|done].
Qed.

Lemma op_foreach_from h y : refines (OpForeachFrom h y).
Proof.
  intros st m Hr Hv. cbn in *. lists. eapply step_read; [done..|]. intros R Hxs Hm. rewrite FOREACH_FROM_unfold.
  pose proof (from_run y h xs R m Hm) as Hst.
  assert (y = 0 ∨ y ∈ xs) as Hy by done. apply from_app in Hy. revert Hst Hy.
  destruct (from y xs) as [pre suf]. intros Hst Hy. cbn in Hst, Hy |- *. subst xs.
  destruct (live_words_run field fr (length suf) k h _ R m Hm) as (fuel & Hf & Hlt); [rewrite length_app; lia|].
  run_to Hf. run_to Hst. apply Forall_app in Hxs as [_ Hsuf]. apply (visit_run field fr k h pre suf R); [done|lia|done].
Qed.

Lemma op_foreach_reverse_from h y : refines (OpForeachReverseFrom h y).
Proof.
  intros st m Hr Hv. cbn in *. lists. eapply step_read; [done..|]. intros R Hxs Hm. unfold TAILQ_FOREACH_REVERSE_FROM.
  pose proof (back_from_run y h xs R m H Hxs Hm) as Hst.
  assert (y = 0 ∨ y ∈ xs) as Hy by done. apply back_from_app in Hy. revert Hst Hy.
  destruct (back_from y xs) as [pre post]. intros Hst Hy. cbn in Hst, Hy |- *. subst xs.
  destruct (live_words_run field fr (length pre) k h _ R m Hm) as (fuel & Hf & Hlt); [rewrite length_app; lia|].
  run_to Hf. run_to Hst. apply Forall_app in Hxs as [Hpre _]. rewrite H in Hm.
  apply (visit_back_run field fr h pre post R); [done|lia|done].
Qed.

Lemma op_foreach_reverse h : refines (OpForeachReverse h).
Proof.
  intros st m Hr Hv. cbn in *. lists. eapply step_read; [done..|]. intros R Hxs Hm. unfold TAILQ_FOREACH_REVERSE.
  destruct (live_words_run field fr (length xs) k h _ R m Hm) as (fuel & Hf & Hlt); [done|]. run_to Hf. rewrite H in Hm.
  run_to (last_read field fr TAILQ h xs R m eq_refl Hxs Hm).
  apply (visit_back_run field fr h xs [] R); [done|lia|by rewrite app_nil_r].
Qed.

Lemma op_foreach_prevptr h : refines (OpForeachPrevptr h).
Proof.
  intros st m Hr Hv. cbn in *. lists. eapply step_read; [done..|]. intros R Hxs Hm. unfold SLIST_FOREACH_PREVPTR.
  destruct (live_words_run field fr (length xs) k h _ R m Hm) as (fuel & Hf & Hlt); [done|]. run_to Hf.
  apply (prevptr_run field fr k h R m xs [] fuel []); [done|lia|done].
Qed.

(** ** Walks that remove elements *)

Lemma runs_head {A} (c : cmd qmem A) {D} (f : A → cmd qmem D) m a (Q : D → qmem → Prop) :
  c m = Done (a, m) → runs (f a) m Q → runs (c ≫= f) m Q.
Proof. intros Hc Hf. apply runs_bind. by exists a, m. Qed.

Lemma op_drop_from h y p : refines (OpDropFrom h y p).
Proof.
  intros st m Hr Hv. cbn in *. lists. pose proof (λ R, from_run y h xs R m) as Hst.
  assert (y = 0 ∨ y ∈ xs) as Hy by done. apply from_app in Hy. revert Hst Hy.
  destruct (from y xs) as [pre suf]. intros Hst Hy. cbn in Hst, Hy |- *. subst xs. eapply step_list; [done..| |].
  - rewrite !Forall_app. intros [? ?]. split_and!; [done|by apply nonnull_filter..].
  - intros R Hxs Hm. rewrite FOREACH_FROM_SAFE_unfold.
    destruct (live_words_run field fr (length suf) k h _ R m Hm) as (fuel & Hf & Hlt); [rewrite length_app; lia|].
    apply (runs_head _ _ _ _ _ Hf), (runs_head _ _ _ _ _ (Hst R Hm)).
    apply (drop_loop_run field fr p k h suf pre R fuel []); [done|lia|done].
Qed.

Lemma op_drop h p : refines (OpDrop h p).
Proof.
  intros st m Hr Hv. cbn in *. lists. eapply step_list; [done..| |].
  - rewrite !Forall_app. intros ?. split; by apply nonnull_filter.
  - intros R Hxs Hm. rewrite FOREACH_SAFE_unfold.
    destruct (live_words_run field fr (length xs) k h _ R m Hm) as (fuel & Hf & Hlt); [done|].
    apply (runs_head _ _ _ _ _ Hf), (runs_head _ _ _ _ _ (first_read field fr k h xs R m Hm)).
    apply (drop_loop_run field fr p k h xs [] R fuel []); [done|lia|done].
Qed.

(** Back from the last element of [pre]. *)
Lemma drop_back_list p h pre post R fuel m :
  k = TAILQ → nonnull (pre ++ post) → (length pre < fuel)%nat → owns (qcells h (pre ++ post) ++ R) fr m →
  runs (for_safe_loop (TAILQ_PREV field) (drop_if field p k h) fuel (last0 pre) []) m
    (λ r m', r = reverse pre ∧ ∃ es, es.*1 = reverse (filter (λ x, p x) pre) ∧
      owns (qcells h (filter (keeps p) pre ++ post) ++ (es ≫= raw) ++ R) fr m').
Proof.
  intros -> Hnn Hf Hm. rewrite <-hd0_reverse. eapply runs_mono.
  - apply (drop_back_run field fr p h (reverse pre) post R fuel []); rewrite ?reverse_involutive; try done.
    by rewrite length_reverse.
  - intros r m' (-> & es & Hes & Hm'). split; [done|]. exists es.
    rewrite Hes. rewrite !filter_reverse, ?reverse_involutive in *. done.
Qed.

Lemma put_in_reverse xs st : put_in (reverse xs) st = put_in xs st.
Proof. unfold put_in. f_equal. f_equal. apply list_to_set_perm_L, reverse_Permutation. Qed.

Lemma op_drop_reverse_from h y p : refines (OpDropReverseFrom h y p).
Proof.
  intros st m Hr Hv. cbn in *. lists. pose proof (λ R, back_from_run y h xs R m H) as Hst.
  assert (y = 0 ∨ y ∈ xs) as Hy by done. apply back_from_app in Hy. revert Hst Hy.
  destruct (back_from y xs) as [pre post]. intros Hst Hy. cbn in Hst, Hy |- *. subst xs.
  rewrite <-put_in_reverse. eapply step_list; [done..| |].
  - rewrite !Forall_app, Forall_reverse. intros [? ?]. split_and!; [by apply nonnull_filter|done|by apply nonnull_filter].
  - intros R Hxs Hm. unfold TAILQ_FOREACH_REVERSE_FROM_SAFE.
    destruct (live_words_run field fr (length pre) k h _ R m Hm) as (fuel & Hf & Hlt); [rewrite length_app; lia|].
    apply (runs_head _ _ _ _ _ Hf), (runs_head _ _ _ _ _ (Hst R Hxs Hm)).
    by apply drop_back_list; [..|lia|].
Qed.

Lemma op_drop_reverse h p : refines (OpDropReverse h p).
Proof.
  intros st m Hr Hv. cbn in *. lists. rewrite <-put_in_reverse. eapply step_list; [done..| |].
  - rewrite !Forall_app, Forall_reverse. intros ?. split; by apply nonnull_filter.
  - intros R Hxs Hm. unfold TAILQ_FOREACH_REVERSE_SAFE.
    destruct (live_words_run field fr (length xs) k h _ R m Hm) as (fuel & Hf & Hlt); [done|].
    assert (TAILQ_LAST h m = Done (last0 xs, m)) as Hl by (rewrite H in Hm; by apply (last_read field fr TAILQ h xs R)).
    apply (runs_head _ _ _ _ _ Hf), (runs_head _ _ _ _ _ Hl).
    pose proof (drop_back_list p h xs [] R fuel m H) as Hd. rewrite !app_nil_r in Hd. apply Hd; [done|lia|done].
Qed.

Lemma q_run_op_refines op : refines op.
Proof.
  destruct op.
  - apply op_init.
  - apply op_insert_head.
  - apply op_insert_tail.
  - apply op_insert_after.
  - apply op_insert_before.
  - apply op_remove.
  - apply op_remove_head.
  - apply op_remove_after.
  - apply op_concat.
  - apply op_swap.
  - apply op_first.
  - apply op_last.
  - apply op_empty.
  - apply op_next.
  - apply op_prev.
  - apply op_check.
  - apply op_foreach.
  - apply op_foreach_from.
  - apply op_foreach_reverse.
  - apply op_foreach_reverse_from.
  - apply op_foreach_prevptr.
  - apply op_drop.
  - apply op_drop_from.
  - apply op_drop_reverse.
  - apply op_drop_reverse_from.
Qed.

Lemma q_run_ops_refines ops st m :
  q_repr st m → q_valid_ops field k st ops →
  q_step (q_run_ops field k ops) m (q_spec_ops field st ops).1 (q_spec_ops field st ops).2.
Proof.
  revert st m. induction ops as [|op ops IH]; intros st m Hr Hv; [by apply runs_ret|].
  destruct Hv as [Hop Hops]. pose proof (q_run_op_refines op st m Hr Hop) as Hstep.
  cbn [q_run_ops q_spec_ops]. revert Hops Hstep. destruct (q_spec_op field st op) as [r st1]. cbn [fst snd].
  intros Hops Hstep. apply runs_bind. eapply runs_mono; [exact Hstep|]. intros r' m1 [-> Hr1].
  specialize (IH st1 m1 Hr1 Hops). revert IH. destruct (q_spec_ops field st1 ops) as [rs st2]. cbn [fst snd]. intros IH.
  apply runs_bind. eapply runs_mono; [exact IH|]. intros rs' m2 [-> Hr2]. by apply runs_ret.
Qed.

(** ** Initialisation *)

Definition q_start (heads elms : list (Z * (Z * Z))) : q_state :=
  Qs (list_to_map ((λ h, (h, [])) <$> heads.*1)) (list_to_set elms.*1).

Lemma init_all_run heads : ∀ R m,
  owns ((heads ≫= raw_head k) ++ R) fr m →
  runs (q_init_all k heads.*1) m (λ _ m', owns ((heads.*1 ≫= λ h, qcells h []) ++ R) fr m').
Proof.
  induction heads as [|[h w] heads IH]; intros R m Hm; [by apply runs_ret|].
  rewrite bind_cons, <-app_assoc in Hm. cbn [fmap list_fmap fst q_init_all]. apply runs_bind.
  eapply runs_mono; [exact (q_init_run field fr k h w _ m Hm)|].
  intros ? m1 Hm1. assert (owns ((heads ≫= raw_head k) ++ qcells h [] ++ R) fr m1) as Hm1'.
  { refine (owns_perm _ _ _ _ _ Hm1). rewrite !app_assoc. apply Permutation_app; [|done]. apply Permutation_app_comm. }
  eapply runs_mono; [by apply IH|]. intros ? m2 Hm2. refine (owns_perm _ _ _ _ _ Hm2).
  rewrite !app_assoc. apply Permutation_app; [|done]. apply Permutation_app_comm.
Qed.

Lemma q_start_repr heads elms m :
  nonnull elms.*1 → owns ((heads.*1 ≫= λ h, qcells h []) ++ (elms ≫= raw)) fr m → q_repr (q_start heads elms) m.
Proof.
  intros Hnn Hm. assert (NoDup heads.*1) as Hnd.
  { destruct Hm as (Hm & _). clear -Hm. rewrite fmap_app in Hm. apply NoDup_app in Hm as (Hm & _).
    induction heads.*1 as [|h hs IH]; [constructor|]. cbn in Hm. rewrite fmap_app in Hm.
    apply NoDup_cons in Hm as [Hh Hm]. apply NoDup_app in Hm as (_ & _ & Hm). constructor; [|by apply IH].
    intros Hin. apply Hh. apply elem_of_app. right. apply list_elem_of_fmap. exists (h, 0). split; [done|].
    apply list_elem_of_bind. exists h. split; [cbn; apply list_elem_of_here|done]. }
  split.
  - intros h xs Hh%elem_of_list_to_map_2. cbn in Hh. apply list_elem_of_fmap in Hh as (? & [= _ ->] & _). constructor.
  - intros x Hx. cbn in Hx. rewrite elem_of_list_to_set in Hx. rewrite Forall_forall in Hnn. by apply Hnn.
  - exists elms. split; [done|]. refine (owns_perm _ _ _ _ _ Hm). apply Permutation_app; [|done].
    unfold lists_cells, q_start. cbn [q_lists]. rewrite map_to_list_to_map.
    + clear. induction heads.*1 as [|h hs IH]; [done|]. cbn. by rewrite IH.
    + rewrite <-list_fmap_compose. by rewrite list_fmap_id.
Qed.
End repr.

(** Claim C21: the SLISTs, STAILQs, LISTs and TAILQs of queue.h are lists.
    Starting from uninitialised memory for any number of heads and elements, the
    INIT macros and then any sequence of the other macros, used as queue(3)
    asks, run without undefined behaviour or endless loop and return what the
    same operations on the lists of elements return: insertion at the head, at
    the tail, before and after an element, removal, concatenation, swapping, the
    neighbours of an element, all FOREACH variants in both directions, also when
    the loop body removes elements from the list that it walks, and the
    consistency checks of a debugging kernel, which always pass.  Memory
    holds the links of the lists and of the loose elements, and nothing else. *)
Theorem queue_refines_lists field k fr heads elms m ops :
  owns ((heads ≫= raw_head k) ++ (elms ≫= raw field k)) fr m → Forall (.≠ 0) elms.*1 →
  q_valid_ops field k (q_start heads elms) ops →
  let '(rs, st) := q_spec_ops field (q_start heads elms) ops in
  ∃ m', (_ ← q_init_all k heads.*1; q_run_ops field k ops) m = Done (rs, m') ∧ q_repr field k fr st m'.
Proof.
  intros Hm Hnn Hv. destruct (init_all_run field k fr heads _ m Hm) as (u & m1 & Hinit & Hm1).
  destruct (q_run_ops_refines field k fr ops _ m1 (q_start_repr field k fr heads elms m1 Hnn Hm1) Hv)
    as (rs' & m2 & Hrun & -> & Hr). destruct (q_spec_ops field (q_start heads elms) ops) as [rs st].
  exists m2. split; [|exact Hr]. by run_to Hinit.
Qed.

(** ** Example: two tail queues and three elements *)

Definition two_heads : list (Z * (Z * Z)) := [(16, (7, 7)); (32, (7, 7))].
Definition three_elms : list (Z * (Z * Z)) := [(64, (7, 7)); (96, (7, 7)); (128, (7, 7))].
Definition garbage : qmem := list_to_map ((two_heads ≫= raw_head TAILQ) ++ (three_elms ≫= raw 8 TAILQ)).

(** All three are inserted, the queue is walked in both directions, appended to
    the other one, and 96 is removed by a walk over that. *)
Definition tailq_ops : list q_op :=
  [OpInsertTail 16 64; OpInsertHead 16 96; OpInsertAfter 16 96 128; OpForeach 16; OpForeachReverseFrom 16 128;
   OpPrev 16 64; OpConcat 32 16; OpEmpty 16; OpDrop 32 (Z.eqb 96); OpCheck 32 64; OpForeach 32; OpLast 32].

Lemma queue_refines_lists_witness :
  ∃ m, (_ ← q_init_all TAILQ [16; 32]; q_run_ops 8 TAILQ tailq_ops) garbage =
    Done ([[]; []; []; [96; 128; 64]; [128; 96]; [128]; []; [1]; [96; 128; 64]; [1]; [128; 64]; [64]], m).
Proof.
  destruct (queue_refines_lists 8 TAILQ ∅ two_heads three_elms garbage tailq_ops) as (m & Hrun & _).
  - split; [|split].
    + apply (bool_decide_unpack _). by vm_compute.
    + intros a _. apply lookup_empty.
    + unfold garbage. by rewrite map_union_empty.
  - repeat constructor; done.
  - cbn [q_valid_ops tailq_ops]. split_and!; try done; cbn [q_valid_op]; apply (bool_decide_unpack _); by vm_compute.
  - exists m. exact Hrun.
Defined.
