(* ===== verification/UtHash.v ===== *)
(** * UtHash: the hash table of uthash.h as uthash.c uses it

    Elements carry a handle that links them twice: in insertion order
    ([prev], [next], pointers to elements) and in their bucket ([hh_prev],
    [hh_next], pointers to handles).  The table with its array of buckets is
    found through the handle of the head element.  Every macro is a command
    over a heap with the four kinds of block uthash.c allocates, in the order
    of the C statements; a handle is a part of its element's block, at offset
    [hho].  The program defines neither HASH_BLOOM, HASH_DEBUG nor
    HASH_EMIT_KEYS, whose macros are empty then.  [uthash_fatal] ends the
    process; a command that can get there yields [None]. *)

From S2P Require Import Prelude.
From S2P Require Import Heap.

(** ** Data *)

Record UT_hash_bucket := Bucket { hh_head : Z; count : Z; expand_mult : Z }.

Record UT_hash_table := Table {
  buckets : Z;
  num_buckets : Z;
  log2_num_buckets : Z;
  num_items : Z;
  tail : Z;
  hho : Z;
  ideal_chain_maxlen : Z;
  nonideal_items : Z;
  ineff_expands : Z;
  noexpand : Z;
  signature : Z;
}.

Record UT_hash_handle := Handle {
  tbl : Z;
  prev : Z;
  next : Z;
  hh_prev : Z;
  hh_next : Z;
  key : Z;
  keylen : Z;
  hashv : Z;
}.

(** A block is a [struct hash_root], i.e. the pointer [head], a table, an
    array of buckets, or a [struct hash_entry] with its key behind it. *)
Inductive ublock :=
  | BHead (head : Z)
  | BTable (t : UT_hash_table)
  | BBuckets (bs : list UT_hash_bucket)
  | BEntry (hh : UT_hash_handle) (value : Z) (chars : list Z).

Notation uheap := (gmap Z ublock).

Definition SIZEOF_UT_hash_handle : Z := 56.
Definition SIZEOF_UT_hash_table : Z := 64.
Definition SIZEOF_UT_hash_bucket : Z := 16.
Definition SIZEOF_HASH_ROOT : Z := 8.
(** [sizeof(struct hash_entry)], which is also the offset of its [key]. *)
Definition SIZEOF_HASH_ENTRY : Z := 64.

Definition HASH_INITIAL_NUM_BUCKETS : Z := 32.
Definition HASH_INITIAL_NUM_BUCKETS_LOG2 : Z := 5.
Definition HASH_BKT_CAPACITY_THRESH : Z := 10.
Definition HASH_SIGNATURE : Z := 2685407201.

(** ** Fields *)

Definition set_prev (p : Z) (h : UT_hash_handle) : UT_hash_handle :=
  Handle (tbl h) p (next h) (hh_prev h) (hh_next h) (key h) (keylen h) (hashv h).
Definition set_next (p : Z) (h : UT_hash_handle) : UT_hash_handle :=
  Handle (tbl h) (prev h) p (hh_prev h) (hh_next h) (key h) (keylen h) (hashv h).
Definition set_hh_prev (p : Z) (h : UT_hash_handle) : UT_hash_handle :=
  Handle (tbl h) (prev h) (next h) p (hh_next h) (key h) (keylen h) (hashv h).
Definition set_hh_next (p : Z) (h : UT_hash_handle) : UT_hash_handle :=
  Handle (tbl h) (prev h) (next h) (hh_prev h) p (key h) (keylen h) (hashv h).
Definition set_tbl (p : Z) (h : UT_hash_handle) : UT_hash_handle :=
  Handle p (prev h) (next h) (hh_prev h) (hh_next h) (key h) (keylen h) (hashv h).
Definition set_key (p len : Z) (h : UT_hash_handle) : UT_hash_handle :=
  Handle (tbl h) (prev h) (next h) (hh_prev h) (hh_next h) p len (hashv h).
Definition set_hashv (v : Z) (h : UT_hash_handle) : UT_hash_handle :=
  Handle (tbl h) (prev h) (next h) (hh_prev h) (hh_next h) (key h) (keylen h) v.

Definition set_tail (p : Z) (t : UT_hash_table) : UT_hash_table :=
  Table (buckets t) (num_buckets t) (log2_num_buckets t) (num_items t) p (hho t)
    (ideal_chain_maxlen t) (nonideal_items t) (ineff_expands t) (noexpand t) (signature t).
Definition set_num_items (n : Z) (t : UT_hash_table) : UT_hash_table :=
  Table (buckets t) (num_buckets t) (log2_num_buckets t) n (tail t) (hho t)
    (ideal_chain_maxlen t) (nonideal_items t) (ineff_expands t) (noexpand t) (signature t).
Definition set_ideal (ideal nonideal : Z) (t : UT_hash_table) : UT_hash_table :=
  Table (buckets t) (num_buckets t) (log2_num_buckets t) (num_items t) (tail t) (hho t)
    ideal nonideal (ineff_expands t) (noexpand t) (signature t).
Definition set_buckets (b n l : Z) (t : UT_hash_table) : UT_hash_table :=
  Table b n l (num_items t) (tail t) (hho t)
    (ideal_chain_maxlen t) (nonideal_items t) (ineff_expands t) (noexpand t) (signature t).
Definition set_expands (ineff no : Z) (t : UT_hash_table) : UT_hash_table :=
  Table (buckets t) (num_buckets t) (log2_num_buckets t) (num_items t) (tail t) (hho t)
    (ideal_chain_maxlen t) (nonideal_items t) ineff no (signature t).

(** ** Loads and stores *)

Definition load_head (root : Z) : cmd uheap Z := λ m,
  match m !! root with Some (BHead p) => Done (p, m) | _ => Undef end.
Definition store_head (root p : Z) : cmd uheap unit := λ m,
  match m !! root with Some (BHead _) => Done (tt, <[root := BHead p]> m) | _ => Undef end.

Definition load_hh (a : Z) : cmd uheap UT_hash_handle := λ m,
  match m !! a with Some (BEntry h _ _) => Done (h, m) | _ => Undef end.
Definition modify_hh (a : Z) (f : UT_hash_handle → UT_hash_handle) : cmd uheap unit := λ m,
  match m !! a with
  | Some (BEntry h v cs) => Done (tt, <[a := BEntry (f h) v cs]> m)
  | _ => Undef
  end.
Definition load_value (a : Z) : cmd uheap Z := λ m,
  match m !! a with Some (BEntry _ v _) => Done (v, m) | _ => Undef end.
(** The characters at a key pointer, which points behind an element. *)
Definition load_chars (p : Z) : cmd uheap (list Z) := λ m,
  match m !! (p - SIZEOF_HASH_ENTRY) with Some (BEntry _ _ cs) => Done (cs, m) | _ => Undef end.

Definition load_table (a : Z) : cmd uheap UT_hash_table := λ m,
  match m !! a with Some (BTable t) => Done (t, m) | _ => Undef end.
Definition modify_table (a : Z) (f : UT_hash_table → UT_hash_table) : cmd uheap unit := λ m,
  match m !! a with Some (BTable t) => Done (tt, <[a := BTable (f t)]> m) | _ => Undef end.

Definition load_bucket (a i : Z) : cmd uheap UT_hash_bucket := λ m,
  match m !! a with
  | Some (BBuckets bs) =>
      if i <? 0 then Undef
      else match bs !! Z.to_nat i with Some b => Done (b, m) | None => Undef end
  | _ => Undef
  end.
Definition store_bucket (a i : Z) (b : UT_hash_bucket) : cmd uheap unit := λ m,
  match m !! a with
  | Some (BBuckets bs) =>
      if (i <? 0) || (Z.of_nat (length bs) <=? i) then Undef
      else Done (tt, <[a := BBuckets (<[Z.to_nat i := b]> bs)]> m)
  | _ => Undef
  end.

Definition free (a : Z) : cmd uheap unit := λ m,
  match m !! a with Some _ => Done (tt, delete a m) | None => Undef end.

Definition live_blocks : cmd uheap nat := m ← get_state; mret (size m).

Definition ELMT_FROM_HH (t : UT_hash_table) (hhp : Z) : Z := hhp - hho t.

(** [memcmp]: the difference of the first bytes that differ among [n]. *)
Fixpoint memcmp (n : nat) (a b : list Z) : outcome Z :=
  match n, a, b with
  | O, _, _ => Done 0
  | S n, x :: a, y :: b => if x =? y then memcmp n a b else Done (x - y)
  | _, _, _ => Undef
  end.
Definition HASH_KEYCMP (a b : list Z) (len : Z) : outcome Z := memcmp (Z.to_nat len) a b.

(** ** The hash function

    [HASH_FCN] is [HASH_JEN], Bob Jenkins' hash on [unsigned]. *)
Definition HASH_JEN_MIX (x : Z * Z * Z) : Z * Z * Z :=
  let '(a, b, c) := x in
  let a := u32 (u32 (a - b) - c) in let a := Z.lxor a (Z.shiftr c 13) in
  let b := u32 (u32 (b - c) - a) in let b := Z.lxor b (u32 (Z.shiftl a 8)) in
  let c := u32 (u32 (c - a) - b) in let c := Z.lxor c (Z.shiftr b 13) in
  let a := u32 (u32 (a - b) - c) in let a := Z.lxor a (Z.shiftr c 12) in
  let b := u32 (u32 (b - c) - a) in let b := Z.lxor b (u32 (Z.shiftl a 16)) in
  let c := u32 (u32 (c - a) - b) in let c := Z.lxor c (Z.shiftr b 5) in
  let a := u32 (u32 (a - b) - c) in let a := Z.lxor a (Z.shiftr c 3) in
  let b := u32 (u32 (b - c) - a) in let b := Z.lxor b (u32 (Z.shiftl a 10)) in
  let c := u32 (u32 (c - a) - b) in let c := Z.lxor c (Z.shiftr b 15) in
  (a, b, c).

(** Four bytes of the key as a little-endian word. *)
Definition jen_word (bytes : list Z) (i : Z) : outcome Z :=
  b0 ← buf_get bytes i;
  b1 ← buf_get bytes (i + 1);
  b2 ← buf_get bytes (i + 2);
  b3 ← buf_get bytes (i + 3);
  Done (u32 (b0 + Z.shiftl b1 8 + Z.shiftl b2 16 + Z.shiftl b3 24)).

(** The blocks of twelve bytes: the registers, the position reached and the
    bytes left. *)
Fixpoint jen_loop (fuel : nat) (bytes : list Z) (pos k : Z) (x : Z * Z * Z)
    : outcome (Z * Z * (Z * Z * Z)) :=
  match fuel with
  | O => NoFuel
  | S fuel =>
      if 12 <=? k then
        let '(i, j, h) := x in
        wi ← jen_word bytes pos;
        wj ← jen_word bytes (pos + 4);
        wh ← jen_word bytes (pos + 8);
        jen_loop fuel bytes (pos + 12) (k - 12)
          (HASH_JEN_MIX (u32 (i + wi), u32 (j + wj), u32 (h + wh)))
      else Done (pos, k, x)
  end.

(** [case n: acc += key[n - 1] << shift] of the switch, which is reached for
    every [k] from [n] on. *)
Definition jen_case (bytes : list Z) (pos k n shift acc : Z) : outcome Z :=
  if n <=? k then c ← buf_get bytes (pos + n - 1); Done (u32 (acc + Z.shiftl c shift))
  else Done acc.

Definition jen_tail (bytes : list Z) (pos k : Z) (x : Z * Z * Z) : outcome (Z * Z * Z) :=
  let '(i, j, h) := x in
  h ← jen_case bytes pos k 11 24 h;
  h ← jen_case bytes pos k 10 16 h;
  h ← jen_case bytes pos k 9 8 h;
  j ← jen_case bytes pos k 8 24 j;
  j ← jen_case bytes pos k 7 16 j;
  j ← jen_case bytes pos k 6 8 j;
  j ← jen_case bytes pos k 5 0 j;
  i ← jen_case bytes pos k 4 24 i;
  i ← jen_case bytes pos k 3 16 i;
  i ← jen_case bytes pos k 2 8 i;
  i ← jen_case bytes pos k 1 0 i;
  Done (i, j, h).

Definition HASH_TO_BKT (hashv num_bkts : Z) : Z := Z.land hashv (u32 (num_bkts - 1)).

(** The hash value and the bucket. *)
Definition HASH_JEN (bytes : list Z) (keylen num_bkts : Z) : outcome (Z * Z) :=
  let k := u32 keylen in
  r ← jen_loop (S (Z.to_nat k)) bytes 0 k (2654435769, 2654435769, 4276993775);
  let '(pos, k, (i, j, h)) := r in
  x ← jen_tail bytes pos k (i, j, u32 (h + keylen));
  let '(i, j, h) := HASH_JEN_MIX x in
  Done (h, Z.land h (u32 (num_bkts - 1))).

(** ** Lookup *)

Fixpoint find_loop (fuel : nat) (t : UT_hash_table) (bytes : list Z) (len out : Z) : cmd uheap Z :=
  match fuel with
  | O => nofuel
  | S fuel =>
      if out =? 0 then mret 0
      else
        h ← load_hh out;
        same ←
          (if keylen h =? len then
             chars ← load_chars (key h);
             cmp ← lift (HASH_KEYCMP chars bytes len);
             mret (cmp =? 0)
           else mret false);
        if (same : bool) then mret out
        else if hh_next h =? 0 then mret 0
        else find_loop fuel t bytes len (ELMT_FROM_HH t (hh_next h))
  end.

Definition HASH_FIND_IN_BKT (t : UT_hash_table) (bkt : Z) (bytes : list Z) (len : Z) : cmd uheap Z :=
  b ← load_bucket (buckets t) bkt;
  fuel ← live_blocks;
  find_loop (S fuel) t bytes len (if hh_head b =? 0 then 0 else ELMT_FROM_HH t (hh_head b)).

Definition HASH_FIND (head : Z) (bytes : list Z) (len : Z) : cmd uheap Z :=
  if head =? 0 then mret 0
  else
    h ← load_hh head;
    t ← load_table (tbl h);
    hb ← lift (HASH_JEN bytes len (num_buckets t));
    HASH_FIND_IN_BKT t hb.2 bytes len.

Definition HASH_FIND_STR (head : Z) (findstr : list Z) : cmd uheap Z :=
  len ← lift (strlen findstr); HASH_FIND head findstr len.

(** ** Deletion *)

Definition HASH_DEL_IN_BKT (bs bkt hh_del : Z) : cmd uheap unit :=
  b ← load_bucket bs bkt;
  _ ← store_bucket bs bkt (Bucket (hh_head b) (u32 (count b - 1)) (expand_mult b));
  d ← load_hh hh_del;
  b ← load_bucket bs bkt;
  _ ← (if hh_head b =? hh_del
       then store_bucket bs bkt (Bucket (hh_next d) (count b) (expand_mult b)) else mret tt);
  _ ← (if negb (hh_prev d =? 0) then modify_hh (hh_prev d) (set_hh_next (hh_next d)) else mret tt);
  d ← load_hh hh_del;
  if negb (hh_next d =? 0) then modify_hh (hh_next d) (set_hh_prev (hh_prev d)) else mret tt.

(** [(head)->hh.tbl], for the head of that moment. *)
Definition head_table (root : Z) : cmd uheap Z := head ← load_head root; h ← load_hh head; mret (tbl h).

Definition HASH_DELETE (root delptr : Z) : cmd uheap unit :=
  d ← load_hh delptr;
  ta ← head_table root;
  if (prev d =? 0) && (next d =? 0) then
    t ← load_table ta;
    _ ← free (buckets t);
    _ ← free ta;
    store_head root 0
  else
    t ← load_table ta;
    _ ← (if delptr =? ELMT_FROM_HH t (tail t)
         then modify_table ta (set_tail (prev d + hho t)) else mret tt);
    _ ← (if negb (prev d =? 0) then modify_hh (prev d + hho t) (set_next (next d))
         else store_head root (next d));
    d ← load_hh delptr;
    _ ← (if negb (next d =? 0) then modify_hh (next d + hho t) (set_prev (prev d)) else mret tt);
    ta ← head_table root;
    t ← load_table ta;
    _ ← HASH_DEL_IN_BKT (buckets t) (HASH_TO_BKT (hashv d) (num_buckets t)) (delptr + hho t);
    modify_table ta (λ t, set_num_items (u32 (num_items t - 1)) t).

Definition HASH_DEL : Z → Z → cmd uheap unit := HASH_DELETE.

Section alloc.
Context {A : Allocator ublock}.

Definition uthash_malloc (n : Z) (b : ublock) : cmd uheap Z := λ m,
  match alloc m n with Some a => Done (a, <[a := b]> m) | None => Done (0, m) end.

Definition garbage_table : UT_hash_table :=
  let x := indeterminate in Table x x x x x x x x x x x.
Definition garbage_handle : UT_hash_handle :=
  let x := indeterminate in Handle x x x x x x x x.
Definition no_bucket : UT_hash_bucket := Bucket 0 0 0.
Definition garbage_bucket : UT_hash_bucket :=
  let x := indeterminate in Bucket x x x.

(** An array of [n] buckets, zeroed by [memset]; [None] when memory is
    exhausted ([uthash_fatal]). *)
Definition new_buckets (n : Z) : cmd uheap (option Z) :=
  a ← uthash_malloc (u64 (n * SIZEOF_UT_hash_bucket)) (BBuckets (replicate (Z.to_nat n) garbage_bucket));
  if a =? 0 then mret None
  else
    m ← get_state;
    _ ← put_state (<[a := BBuckets (replicate (Z.to_nat n) no_bucket)]> m);
    mret (Some a).

(** ** Bucket expansion *)

(** One item moves to its new bucket; the counters are those of the table. *)
Definition expand_item (ta : Z) (nb newbs thh : Z) : cmd uheap unit :=
  h ← load_hh thh;
  let bkt := HASH_TO_BKT (hashv h) nb in
  b ← load_bucket newbs bkt;
  let cnt := u32 (count b + 1) in
  _ ← store_bucket newbs bkt (Bucket (hh_head b) cnt (expand_mult b));
  t ← load_table ta;
  _ ← (if ideal_chain_maxlen t <? cnt then
         _ ← modify_table ta (λ t, set_ideal (ideal_chain_maxlen t) (u32 (nonideal_items t + 1)) t);
         if ideal_chain_maxlen t =? 0 then undef
         else store_bucket newbs bkt (Bucket (hh_head b) cnt (cnt / ideal_chain_maxlen t))
       else mret tt);
  _ ← modify_hh thh (set_hh_prev 0);
  b ← load_bucket newbs bkt;
  _ ← modify_hh thh (set_hh_next (hh_head b));
  _ ← (if negb (hh_head b =? 0) then modify_hh (hh_head b) (set_hh_prev thh) else mret tt);
  store_bucket newbs bkt (Bucket thh (count b) (expand_mult b)).

Fixpoint expand_chain (fuel : nat) (ta nb newbs thh : Z) : cmd uheap unit :=
  match fuel with
  | O => nofuel
  | S fuel =>
      if thh =? 0 then mret tt
      else
        h ← load_hh thh;
        _ ← expand_item ta nb newbs thh;
        expand_chain fuel ta nb newbs (hh_next h)
  end.

Fixpoint expand_loop (n : nat) (i ta newbs : Z) : cmd uheap unit :=
  match n with
  | O => mret tt
  | S n =>
      t ← load_table ta;
      b ← load_bucket (buckets t) i;
      fuel ← live_blocks;
      _ ← expand_chain (S fuel) ta (u32 (num_buckets t * 2)) newbs (hh_head b);
      expand_loop n (i + 1) ta newbs
  end.

(** [None] when memory is exhausted. *)
Definition HASH_EXPAND_BUCKETS (ta : Z) : cmd uheap (option unit) :=
  t ← load_table ta;
  r ← new_buckets (u32 (2 * num_buckets t));
  match r with
  | None => mret None
  | Some newbs =>
      _ ← modify_table ta (λ t, set_ideal
            (u32 (Z.shiftr (num_items t) (log2_num_buckets t + 1) +
              (if Z.land (num_items t) (u32 (num_buckets t * 2 - 1)) =? 0 then 0 else 1))) 0 t);
      t ← load_table ta;
      _ ← expand_loop (Z.to_nat (num_buckets t)) 0 ta newbs;
      t ← load_table ta;
      _ ← free (buckets t);
      _ ← modify_table ta (λ t,
            set_buckets newbs (u32 (num_buckets t * 2)) (u32 (log2_num_buckets t + 1)) t);
      _ ← modify_table ta (λ t, set_expands
            (if Z.shiftr (num_items t) 1 <? nonideal_items t then u32 (ineff_expands t + 1) else 0)
            (noexpand t) t);
      _ ← modify_table ta (λ t, set_expands (ineff_expands t)
            (if 1 <? ineff_expands t then 1 else noexpand t) t);
      mret (Some tt)
  end.

(** ** Insertion *)

Definition HASH_ADD_TO_BKT (bs bkt addhh : Z) : cmd uheap (option unit) :=
  b ← load_bucket bs bkt;
  _ ← store_bucket bs bkt (Bucket (hh_head b) (u32 (count b + 1)) (expand_mult b));
  _ ← modify_hh addhh (set_hh_next (hh_head b));
  _ ← modify_hh addhh (set_hh_prev 0);
  _ ← (if negb (hh_head b =? 0) then modify_hh (hh_head b) (set_hh_prev addhh) else mret tt);
  b ← load_bucket bs bkt;
  _ ← store_bucket bs bkt (Bucket addhh (count b) (expand_mult b));
  h ← load_hh addhh;
  t ← load_table (tbl h);
  if (u32 (u32 (expand_mult b + 1) * HASH_BKT_CAPACITY_THRESH) <=? count b) && negb (noexpand t =? 1)
  then HASH_EXPAND_BUCKETS (tbl h)
  else mret (Some tt).

(** The table of a first element, whose handle is at offset [off]. *)
Definition HASH_MAKE_TABLE (off head : Z) : cmd uheap (option unit) :=
  ta ← uthash_malloc SIZEOF_UT_hash_table (BTable garbage_table);
  _ ← modify_hh (head + off) (set_tbl ta);
  if ta =? 0 then mret None
  else
    _ ← modify_table ta (λ _, Table 0 HASH_INITIAL_NUM_BUCKETS HASH_INITIAL_NUM_BUCKETS_LOG2 0
          (head + off) off 0 0 0 0 0);
    r ← new_buckets HASH_INITIAL_NUM_BUCKETS;
    match r with
    | None => mret None
    | Some bs =>
        _ ← modify_table ta (λ t, set_buckets bs (num_buckets t) (log2_num_buckets t) t);
        _ ← modify_table ta (λ t, Table (buckets t) (num_buckets t) (log2_num_buckets t)
              (num_items t) (tail t) (hho t) (ideal_chain_maxlen t) (nonideal_items t)
              (ineff_expands t) (noexpand t) HASH_SIGNATURE);
        mret (Some tt)
    end.

(** The new element becomes the head of a new table or the last of the list. *)
Definition append (root add : Z) : cmd uheap (option unit) :=
  head ← load_head root;
  if head =? 0 then
    _ ← store_head root add;
    _ ← modify_hh add (set_prev 0);
    HASH_MAKE_TABLE 0 add
  else
    ta ← head_table root;
    t ← load_table ta;
    _ ← modify_hh (tail t) (set_next add);
    _ ← modify_hh add (set_prev (ELMT_FROM_HH t (tail t)));
    _ ← modify_table ta (set_tail (add + hho t));
    mret (Some tt).

(** [bytes] are the characters at [keyptr]. *)
Definition HASH_ADD_KEYPTR (root keyptr : Z) (bytes : list Z) (keylen_in add : Z)
    : cmd uheap (option unit) :=
  _ ← modify_hh add (set_next 0);
  _ ← modify_hh add (set_key keyptr (u32 keylen_in));
  r ← append root add;
  match r with
  | None => mret None
  | Some _ =>
      ta ← head_table root;
      _ ← modify_table ta (λ t, set_num_items (u32 (num_items t + 1)) t);
      _ ← modify_hh add (set_tbl ta);
      t ← load_table ta;
      hb ← lift (HASH_JEN bytes keylen_in (num_buckets t));
      _ ← modify_hh add (set_hashv hb.1);
      HASH_ADD_TO_BKT (buckets t) hb.2 (add + hho t)
  end.

Definition HASH_ADD_STR (root add : Z) : cmd uheap (option unit) :=
  chars ← load_chars (add + SIZEOF_HASH_ENTRY);
  len ← lift (strlen chars);
  HASH_ADD_KEYPTR root (add + SIZEOF_HASH_ENTRY) chars len add.

(** [None] when memory is exhausted; else what [replaced] is set to. *)
Definition HASH_REPLACE_STR (root add : Z) : cmd uheap (option Z) :=
  chars ← load_chars (add + SIZEOF_HASH_ENTRY);
  len ← lift (strlen chars);
  head ← load_head root;
  replaced ← HASH_FIND head chars len;
  _ ← (if negb (replaced =? 0) then HASH_DELETE root replaced else mret tt);
  r ← HASH_ADD_STR root add;
  mret (match r with None => None | Some _ => Some replaced end).

(** ** uthash.c *)

Definition init : cmd uheap Z :=
  root ← uthash_malloc SIZEOF_HASH_ROOT (BHead indeterminate);
  _ ← store_head root 0;
  mret root.

(** The bytes [strcpy] writes: up to and including the NUL. *)
Definition strcpy (src : list Z) (len : Z) : outcome (list Z) := buf_take src (len + 1).

(** A new element: [malloc], the value and the key. *)
Definition make_entry (bytes : list Z) (val : Z) : cmd uheap Z :=
  len ← lift (strlen bytes);
  let len := s32 len in
  entry ← uthash_malloc (u64 (SIZEOF_HASH_ENTRY + len + 1)) (BEntry garbage_handle indeterminate []);
  if entry =? 0 then undef
  else
    chars ← lift (strcpy bytes len);
    m ← get_state;
    _ ← put_state (<[entry := BEntry garbage_handle val chars]> m);
    mret entry.

(** [None] when the table cannot be allocated ([exit]). *)
Definition add (obj : Z) (bytes : list Z) (val : Z) : cmd uheap (option Z) :=
  head ← load_head obj;
  entry ← HASH_FIND_STR head bytes;
  if negb (entry =? 0) then mret (Some 1)
  else
    entry ← make_entry bytes val;
    r ← HASH_ADD_STR obj entry;
    mret (match r with None => None | Some _ => Some 0 end).

Definition find (obj : Z) (bytes : list Z) : cmd uheap Z :=
  head ← load_head obj;
  entry ← HASH_FIND_STR head bytes;
  if negb (entry =? 0) then mret 0 else load_value entry.

(** [find] returns the element or, in [del], what it takes for one. *)
Definition del (obj : Z) (bytes : list Z) : cmd uheap Z :=
  entry ← find obj bytes;
  if entry =? 0 then mret 1
  else _ ← HASH_DEL obj entry; mret 0.

(** [HASH_ITER] with the deletion of each element as its body. *)
Fixpoint clear_loop (fuel : nat) (root entry tmp : Z) : cmd uheap unit :=
  match fuel with
  | O => nofuel
  | S fuel =>
      if entry =? 0 then mret tt
      else
        _ ← HASH_DEL root entry;
        next' ← (if tmp =? 0 then mret 0 else h ← load_hh tmp; mret (next h));
        clear_loop fuel root tmp next'
  end.
Definition clear (obj : Z) : cmd uheap unit :=
  fuel ← live_blocks;
  head ← load_head obj;
  tmp ← (if head =? 0 then mret 0 else h ← load_hh head; mret (next h));
  clear_loop (S fuel) obj head tmp.

Definition HASH_CNT (head : Z) : cmd uheap Z :=
  if head =? 0 then mret 0 else h ← load_hh head; t ← load_table (tbl h); mret (num_items t).

(** The bytes a table takes besides the elements: a [size_t]. *)
Definition HASH_OVERHEAD (head : Z) : cmd uheap Z :=
  h ← load_hh head;
  t ← load_table (tbl h);
  mret (u64 (num_items t * SIZEOF_UT_hash_handle + num_buckets t * SIZEOF_UT_hash_bucket + SIZEOF_UT_hash_table)).

Definition HASH_CLEAR (root : Z) : cmd uheap unit :=
  head ← load_head root;
  if head =? 0 then mret tt
  else
    ta ← head_table root;
    t ← load_table ta;
    _ ← free (buckets t);
    _ ← free ta;
    store_head root 0.

(** ** Selection into a second table

    An element that is to be in two tables has two handles.  The second one, at
    offset [dst_hho], is a block of its own here, at its address.  The lists of
    [dst] are [prev] and [next] of the second handles. *)

(** One element that satisfies the condition; the new [_last_elt]. *)
Definition select_elt (dst dst_hho src_hh elt last_elt : Z) : cmd uheap (option Z) :=
  let dst_hh := elt + dst_hho in
  s ← load_hh src_hh;
  _ ← modify_hh dst_hh (set_key (key s) (keylen s));
  _ ← modify_hh dst_hh (set_hashv (hashv s));
  _ ← modify_hh dst_hh (set_prev last_elt);
  _ ← modify_hh dst_hh (set_next 0);
  _ ← (if negb (last_elt =? 0) then modify_hh (last_elt + dst_hho) (set_next elt) else mret tt);
  head ← load_head dst;
  r ← (if head =? 0 then _ ← store_head dst elt; HASH_MAKE_TABLE dst_hho elt
       else h ← load_hh (head + dst_hho); _ ← modify_hh dst_hh (set_tbl (tbl h)); mret (Some tt));
  match r with
  | None => mret None
  | Some _ =>
      d ← load_hh dst_hh;
      t ← load_table (tbl d);
      r ← HASH_ADD_TO_BKT (buckets t) (HASH_TO_BKT (hashv d) (num_buckets t)) dst_hh;
      match r with
      | None => mret None
      | Some _ =>
          head ← load_head dst;
          h ← load_hh (head + dst_hho);
          _ ← modify_table (tbl h) (λ t, set_num_items (u32 (num_items t + 1)) t);
          mret (Some elt)
      end
  end.

Section select.
Context (dst dst_hho src : Z) (cond : Z → cmd uheap bool).

Fixpoint select_chain (fuel : nat) (src_hh last_elt : Z) : cmd uheap (option Z) :=
  match fuel with
  | O => nofuel
  | S fuel =>
      if src_hh =? 0 then mret (Some last_elt)
      else
        ta ← head_table src;
        t ← load_table ta;
        let elt := ELMT_FROM_HH t src_hh in
        c ← cond elt;
        r ← (if (c : bool) then select_elt dst dst_hho src_hh elt last_elt else mret (Some last_elt));
        match r with
        | None => mret None
        | Some last_elt => h ← load_hh src_hh; select_chain fuel (hh_next h) last_elt
        end
  end.

Fixpoint select_loop (fuel : nat) (src_bkt last_elt : Z) : cmd uheap (option unit) :=
  match fuel with
  | O => nofuel
  | S fuel =>
      ta ← head_table src;
      t ← load_table ta;
      if src_bkt <? num_buckets t then
        b ← load_bucket (buckets t) src_bkt;
        n ← live_blocks;
        r ← select_chain (S n) (hh_head b) last_elt;
        match r with
        | None => mret None
        | Some last_elt => select_loop fuel (src_bkt + 1) last_elt
        end
      else mret (Some tt)
  end.

Definition HASH_SELECT : cmd uheap (option unit) :=
  head ← load_head src;
  if head =? 0 then mret (Some tt)
  else ta ← head_table src; t ← load_table ta; select_loop (S (Z.to_nat (num_buckets t))) 0 0.
End select.
End alloc.
