(* ===== verification/UtMem.v ===== *)
(** * UtMem: the memory of a uthash table

    An element of the table is an [item]; its handle is a value of a function
    [H] from addresses, so that a store to one field of a handle updates [H]
    at one point ([modify_item]).  [linked] says that two pointer fields make
    a list doubly linked, whatever the fields are: uthash links its elements
    in insertion order and again in their buckets. *)

From S2P Require Import Prelude.
From S2P Require Import Own.
From S2P Require Import Heap.
From S2P Require Import UtHash.

Implicit Types (fr m : uheap) (k : list Z) (l c : list Z).

(** Membership in a list that is spelled out. *)
Ltac in_list := repeat (setoid_rewrite elem_of_app || setoid_rewrite elem_of_cons); tauto.

(** ** Doubly linked lists *)

Definition hd0 l : Z := default 0 (head l).
Definition last0 l : Z := default 0 (last l).

Lemma last0_snoc l a : last0 (l ++ [a]) = a.
Proof. unfold last0. by rewrite last_snoc. Qed.

Lemma last0_app_cons l1 a l2 : last0 (l1 ++ a :: l2) = last0 (a :: l2).
Proof. unfold last0. by rewrite last_app_cons. Qed.

Definition linked (P N : Z → Z) l : Prop :=
  ∀ l1 a l2, l = l1 ++ a :: l2 → P a = last0 l1 ∧ N a = hd0 l2.

Lemma linked_nil P N : linked P N [].
Proof. intros [|b l1] a l2 H; discriminate H. Qed.

Lemma linked_ext P N P' N' l :
  (∀ a, a ∈ l → P' a = P a ∧ N' a = N a) → linked P N l → linked P' N' l.
Proof.
  intros He H l1 a l2 Hl. destruct (He a) as [-> ->]; [|by apply H]. rewrite Hl. in_list.
Qed.

(** Cutting a list where an element is known. *)
Lemma app_cons_split l1 l2 u a w :
  l1 ++ l2 = u ++ a :: w →
  (∃ w1, l1 = u ++ a :: w1 ∧ w = w1 ++ l2) ∨ (∃ u2, u = l1 ++ u2 ∧ l2 = u2 ++ a :: w).
Proof.
  revert u. induction l1 as [|b l1 IH]; intros u H; [right; by exists u|].
  destruct u as [|b' u]; injection H as -> H.
  - left. by exists l1.
  - destruct (IH u H) as [(w1 & -> & ->)|(u2 & -> & ->)]; [left; by exists w1|right; by exists u2].
Qed.

Section linked.
Context (P N P' N' : Z → Z).

(** An element is put in front: it becomes the predecessor of the first. *)
Lemma linked_push x l :
  NoDup (x :: l) → linked P N l →
  P' x = 0 → N' x = hd0 l →
  (∀ y, head l = Some y → P' y = x) →
  (∀ a, a ∈ l → head l ≠ Some a → P' a = P a) → (∀ a, a ∈ l → N' a = N a) →
  linked P' N' (x :: l).
Proof.
  intros [Hx Hnd]%NoDup_cons Hl HP HN Hy HPr HNr l1 a l2 Heq.
  destruct l1 as [|b l1]; injection Heq as <- Heq; [by subst|].
  destruct (Hl l1 a l2 Heq) as [HPa HNa]. assert (a ∈ l) as Ha by (rewrite Heq; in_list).
  split; [|by rewrite HNr]. destruct l1 as [|b' l1]; [apply Hy; by rewrite Heq|].
  rewrite HPr, HPa; [done..|]. rewrite Heq. intros [= ->].
  rewrite Heq in Hnd. apply NoDup_cons in Hnd as [Hnin _]. apply Hnin. in_list.
Qed.

(** An element is put at the end. *)
Lemma linked_snoc x l :
  NoDup (l ++ [x]) → linked P N l →
  P' x = last0 l → N' x = 0 →
  (∀ y, last l = Some y → N' y = x) →
  (∀ a, a ∈ l → P' a = P a) → (∀ a, a ∈ l → last l ≠ Some a → N' a = N a) →
  linked P' N' (l ++ [x]).
Proof.
  intros Hnd Hl HP HN Hy HPr HNr l1 a l2 Heq.
  apply app_cons_split in Heq as [(w1 & -> & ->)|(u2 & -> & Heq)].
  - destruct (Hl l1 a w1 eq_refl) as [HPa HNa].
    assert (a ∈ l1 ++ a :: w1) as Ha by in_list.
    split; [by rewrite HPr|]. destruct w1 as [|b w1]; [apply Hy; by rewrite last_snoc|].
    rewrite HNr, HNa; [done..|]. rewrite last_app_cons. intros Hlast.
    apply NoDup_app in Hnd as (Hnd & _ & _). apply NoDup_app in Hnd as (_ & _ & Hnd).
    apply NoDup_cons in Hnd as [Hnin _]. apply Hnin. change (a :: b :: w1) with ([a] ++ b :: w1) in Hlast.
    rewrite last_app_cons in Hlast. by apply last_Some_elem_of.
  - destruct u2 as [|b u2]; [|destruct u2; discriminate Heq]. injection Heq as <- <-.
    by rewrite app_nil_r.
Qed.

(** An element is taken out: its neighbours are linked to each other. *)
Lemma linked_delete l1 x l2 :
  NoDup (l1 ++ x :: l2) → linked P N (l1 ++ x :: l2) →
  (∀ y, head l2 = Some y → P' y = last0 l1) → (∀ y, last l1 = Some y → N' y = hd0 l2) →
  (∀ a, a ∈ l1 ++ l2 → head l2 ≠ Some a → P' a = P a) →
  (∀ a, a ∈ l1 ++ l2 → last l1 ≠ Some a → N' a = N a) →
  linked P' N' (l1 ++ l2).
Proof.
  intros Hnd Hl HP HN HPr HNr u a w Heq.
  assert (a ∈ l1 ++ l2) as Ha by (rewrite Heq; in_list).
  apply app_cons_split in Heq as [(w1 & -> & ->)|(u2 & -> & ->)].
  - destruct (Hl u a (w1 ++ x :: l2)) as [HPa HNa]; [by rewrite <-app_assoc|]. split.
    + rewrite HPr, HPa; [done..|]. intros Hh. apply NoDup_app in Hnd as (_ & Hdis & _).
      apply (Hdis a); [in_list|]. destruct l2; [done|]. injection Hh as ->. in_list.
    + destruct w1 as [|b w1]; [apply HN; by rewrite last_snoc|]. rewrite HNr, HNa; [done..|].
      rewrite last_app_cons. intros Hlast. apply NoDup_app in Hnd as (Hnd & _ & _).
      apply NoDup_app in Hnd as (_ & _ & Hnd). apply NoDup_cons in Hnd as [Hnin _]. apply Hnin.
      change (a :: b :: w1) with ([a] ++ b :: w1) in Hlast. rewrite last_app_cons in Hlast.
      by apply last_Some_elem_of.
  - destruct (Hl (l1 ++ x :: u2) a w) as [HPa HNa]; [by rewrite <-app_assoc|].
    apply NoDup_app in Hnd as (_ & Hdis & [_ Hnd]%NoDup_cons). split.
    + destruct u2 as [|b u2]; [rewrite app_nil_r; by apply HP|]. rewrite HPr, HPa; [|done|].
      * by rewrite !last0_app_cons.
      * intros [= ->]. apply NoDup_cons in Hnd as [Hnin _]. apply Hnin. in_list.
    + rewrite HNr, HNa; [done..|]. intros Hlast%last_Some_elem_of. apply (Hdis a Hlast). in_list.
Qed.
End linked.

(** ** Handles *)

Implicit Types (H : Z → UT_hash_handle) (a : Z).

Definition upd H a (f : UT_hash_handle → UT_hash_handle) : Z → UT_hash_handle :=
  λ b, if b =? a then f (H b) else H b.

Lemma upd_eq H a f : upd H a f a = f (H a).
Proof. unfold upd. by rewrite Z.eqb_refl. Qed.

Lemma upd_ne H a f b : b ≠ a → upd H a f b = H b.
Proof. intros. unfold upd. by destruct (Z.eqb_spec b a). Qed.

(** A field that the store does not touch. *)
Lemma upd_field {T} (p : UT_hash_handle → T) H a f b :
  (∀ h, p (f h) = p h) → p (upd H a f b) = p (H b).
Proof. intros Hp. unfold upd. by destruct (b =? a). Qed.

(** ** Blocks *)

Record item := Item { it_at : Z; it_key : list Z; it_val : Z }.
Implicit Types (xs : list item) (x : item).

#[export] Instance item_eq_dec : EqDecision item.
Proof. solve_decision. Defined.

Notation addrs xs := (it_at <$> xs).

Definition item_cell H x : Z * ublock := (it_at x, BEntry (H (it_at x)) (it_val x) (cstr (it_key x))).

(** The pointer [head], tables, arrays of buckets and elements. *)
Definition ucells (root hd : Z) (tabs : list (Z * UT_hash_table))
    (arrs : list (Z * list UT_hash_bucket)) H xs : list (Z * ublock) :=
  (root, BHead hd) :: (prod_map id BTable <$> tabs) ++ (prod_map id BBuckets <$> arrs) ++
  (item_cell H <$> xs).

Lemma item_cells_ext H H' xs :
  (∀ a, a ∈ addrs xs → H' a = H a) → item_cell H' <$> xs = item_cell H <$> xs.
Proof.
  intros He. apply list_fmap_ext. intros i x Hx. unfold item_cell. rewrite He; [done|].
  by eapply list_elem_of_fmap_2, list_elem_of_lookup_2.
Qed.

Section mem.
Context (root : Z) (fr : uheap).
Implicit Types (hd : Z) (tabs : list (Z * UT_hash_table)) (arrs : list (Z * list UT_hash_bucket)).
Implicit Types (b : UT_hash_bucket) (bs : list UT_hash_bucket) (t : UT_hash_table).

Definition umem hd tabs arrs H xs m : Prop := owns (ucells root hd tabs arrs H xs) fr m.

Lemma umem_nodup hd tabs arrs H xs m : umem hd tabs arrs H xs m → NoDup (addrs xs).
Proof.
  intros (Hnd & _ & _). unfold ucells in Hnd. cbn in Hnd. apply NoDup_cons in Hnd as [_ Hnd].
  rewrite !fmap_app in Hnd. apply NoDup_app in Hnd as (_ & _ & Hnd).
  apply NoDup_app in Hnd as (_ & _ & Hnd). by rewrite <-list_fmap_compose in Hnd.
Qed.

Lemma umem_ext hd tabs arrs H H' xs m :
  (∀ a, a ∈ addrs xs → H' a = H a) → umem hd tabs arrs H xs m → umem hd tabs arrs H' xs m.
Proof. intros He. unfold umem, ucells. by rewrite (item_cells_ext H H'). Qed.

Lemma umem_size hd tabs arrs H xs m : umem hd tabs arrs H xs m → (length xs ≤ size m)%nat.
Proof.
  intros Hm%owns_size. unfold ucells in Hm. cbn in Hm. rewrite !length_app, !length_fmap in Hm. lia.
Qed.

(** *** Loads *)

Lemma umem_item hd tabs arrs H xs m x :
  umem hd tabs arrs H xs m → x ∈ xs →
  m !! it_at x = Some (BEntry (H (it_at x)) (it_val x) (cstr (it_key x))).
Proof.
  intros Hm Hx. eapply owns_lookup; [exact Hm|]. unfold ucells.
  apply elem_of_cons. right. apply elem_of_app. right. apply elem_of_app. right.
  by apply (list_elem_of_fmap_2 (item_cell H)).
Qed.

Lemma load_hh_item hd tabs arrs H xs m a :
  umem hd tabs arrs H xs m → a ∈ addrs xs → load_hh a m = Done (H a, m).
Proof.
  intros Hm (x & -> & Hx)%list_elem_of_fmap. unfold load_hh. by rewrite (umem_item _ _ _ _ _ _ _ Hm Hx).
Qed.

Lemma load_chars_item hd tabs arrs H xs m x :
  umem hd tabs arrs H xs m → x ∈ xs →
  load_chars (it_at x + SIZEOF_HASH_ENTRY) m = Done (cstr (it_key x), m).
Proof.
  intros Hm Hx. unfold load_chars. rewrite Z.add_simpl_r. by rewrite (umem_item _ _ _ _ _ _ _ Hm Hx).
Qed.

Lemma load_head_run hd tabs arrs H xs m : umem hd tabs arrs H xs m → load_head root m = Done (hd, m).
Proof. intros Hm%owns_lookup_hd. unfold load_head. by rewrite Hm. Qed.

Lemma head_table_run hd tabs arrs H xs m :
  umem hd tabs arrs H xs m → hd ∈ addrs xs → head_table root m = Done (tbl (H hd), m).
Proof.
  intros Hm Hhd. unfold head_table. run_to (load_head_run _ _ _ _ _ _ Hm).
  by run_to (load_hh_item _ _ _ _ _ _ _ Hm Hhd).
Qed.

Lemma load_table_run hd ta t tabs arrs H xs m :
  umem hd ((ta, t) :: tabs) arrs H xs m → load_table ta m = Done (t, m).
Proof.
  intros Hm. unfold load_table. erewrite (owns_lookup _ _ _ ta (BTable t) Hm); [done|].
  unfold ucells. cbn. in_cells.
Qed.

Lemma umem_array hd tabs arrs H xs m p bs :
  umem hd tabs arrs H xs m → (p, bs) ∈ arrs → m !! p = Some (BBuckets bs).
Proof.
  intros Hm Hp. eapply owns_lookup; [exact Hm|]. unfold ucells.
  apply elem_of_cons. right. apply elem_of_app. right. apply elem_of_app. left.
  by apply (list_elem_of_fmap_2 (prod_map id BBuckets) _ (p, bs)).
Qed.

Lemma load_bucket_run hd tabs arrs H xs m p bs i b :
  umem hd tabs arrs H xs m → (p, bs) ∈ arrs → bs !! i = Some b →
  load_bucket p (Z.of_nat i) m = Done (b, m).
Proof.
  intros Hm Hp Hb. unfold load_bucket. rewrite (umem_array _ _ _ _ _ _ _ _ Hm Hp).
  destruct (Z.ltb_spec (Z.of_nat i) 0); [lia|]. by rewrite Nat2Z.id, Hb.
Qed.

(** *** Stores *)

Lemma store_head_run hd hd' tabs arrs H xs m :
  umem hd tabs arrs H xs m → ∃ m', store_head root hd' m = Done (tt, m') ∧ umem hd' tabs arrs H xs m'.
Proof.
  intros Hm. unfold store_head. rewrite (owns_lookup_hd _ _ _ _ _ Hm). eexists. split; [done|].
  by apply (owns_store _ _ _ _ (BHead hd)).
Qed.

Lemma modify_table_run hd ta t f tabs arrs H xs m :
  umem hd ((ta, t) :: tabs) arrs H xs m →
  ∃ m', modify_table ta f m = Done (tt, m') ∧ umem hd ((ta, f t) :: tabs) arrs H xs m'.
Proof.
  intros Hm. unfold modify_table. pose proof Hm as Hm'. unfold umem, ucells in Hm'. cbn in Hm'.
  rewrite Permutation_swap in Hm'. rewrite (owns_lookup_hd _ _ _ _ _ Hm').
  eexists. split; [done|]. unfold umem, ucells. cbn. rewrite Permutation_swap.
  by apply (owns_store _ _ _ _ (BTable t)).
Qed.

Lemma ucells_array hd tabs p bs arrs H xs :
  ucells root hd tabs ((p, bs) :: arrs) H xs ≡ₚ (p, BBuckets bs) :: ucells root hd tabs arrs H xs.
Proof. unfold ucells. cbn. by rewrite <-Permutation_middle, Permutation_swap. Qed.

Lemma ucells_table hd ta t tabs arrs H xs :
  ucells root hd ((ta, t) :: tabs) arrs H xs ≡ₚ (ta, BTable t) :: ucells root hd tabs arrs H xs.
Proof. unfold ucells. cbn. by rewrite Permutation_swap. Qed.

Lemma store_bucket_run hd tabs p bs arrs H xs m i b :
  umem hd tabs ((p, bs) :: arrs) H xs m → (i < length bs)%nat →
  ∃ m', store_bucket p (Z.of_nat i) b m = Done (tt, m') ∧
    umem hd tabs ((p, <[i := b]> bs) :: arrs) H xs m'.
Proof.
  intros Hm Hi. unfold store_bucket. erewrite (umem_array _ _ _ _ _ _ p bs Hm) by by apply list_elem_of_here.
  destruct (Z.ltb_spec (Z.of_nat i) 0); [lia|].
  destruct (Z.leb_spec (Z.of_nat (length bs)) (Z.of_nat i)); [lia|]. rewrite Nat2Z.id. cbn.
  eexists. split; [done|]. unfold umem in *. rewrite ucells_array in Hm |- *.
  by apply (owns_store _ _ _ _ (BBuckets bs)).
Qed.

Lemma ucells_item hd tabs arrs H xs1 x xs2 :
  ucells root hd tabs arrs H (xs1 ++ x :: xs2) ≡ₚ
  item_cell H x :: ucells root hd tabs arrs H (xs1 ++ xs2).
Proof. unfold ucells. rewrite !fmap_app, fmap_cons. solve_Permutation. Qed.

Lemma modify_item hd tabs arrs H xs m a f :
  umem hd tabs arrs H xs m → a ∈ addrs xs →
  ∃ m', modify_hh a f m = Done (tt, m') ∧ umem hd tabs arrs (upd H a f) xs m'.
Proof.
  intros Hm (x & -> & Hx)%list_elem_of_fmap. unfold modify_hh.
  rewrite (umem_item _ _ _ _ _ _ _ Hm Hx). eexists. split; [done|].
  apply list_elem_of_split in Hx as (xs1 & xs2 & ->). pose proof (umem_nodup _ _ _ _ _ _ Hm) as Hnd.
  unfold umem in *. rewrite ucells_item in Hm |- *.
  assert (∀ a, a ∈ addrs (xs1 ++ xs2) → upd H (it_at x) f a = H a) as He.
  { intros a Ha. apply upd_ne. intros ->. rewrite fmap_app, fmap_cons in Hnd.
    rewrite <-Permutation_middle, <-fmap_app in Hnd. by apply NoDup_cons in Hnd as [? _]. }
  unfold ucells. rewrite (item_cells_ext H _ _ He).
  unfold item_cell at 1. rewrite upd_eq. eapply owns_store, Hm.
Qed.

(** *** Allocation and release *)

Lemma free_array hd tabs p bs arrs H xs m :
  umem hd tabs ((p, bs) :: arrs) H xs m →
  ∃ m', free p m = Done (tt, m') ∧ umem hd tabs arrs H xs m'.
Proof.
  intros Hm. unfold free. erewrite (umem_array _ _ _ _ _ _ p bs Hm) by by apply list_elem_of_here.
  eexists. split; [done|]. unfold umem in *. rewrite ucells_array in Hm. by apply owns_free in Hm.
Qed.

Lemma free_table hd ta t tabs arrs H xs m :
  umem hd ((ta, t) :: tabs) arrs H xs m →
  ∃ m', free ta m = Done (tt, m') ∧ umem hd tabs arrs H xs m'.
Proof.
  intros Hm. unfold umem in *. rewrite ucells_table in Hm. unfold free.
  rewrite (owns_lookup_hd _ _ _ _ _ Hm). eexists. split; [done|]. by apply owns_free in Hm.
Qed.

Lemma umem_swap_arrays hd tabs p q arrs H xs m :
  umem hd tabs (p :: q :: arrs) H xs m → umem hd tabs (q :: p :: arrs) H xs m.
Proof.
  unfold umem. apply owns_perm. unfold ucells. cbn. do 2 f_equiv. by rewrite Permutation_swap.
Qed.
End mem.
