(* ===== verification/UtTable.v ===== *)
(** * UtTable: the invariant of a uthash table, and lookup

    The hash of a key is total and does not depend on the number of buckets
    ([HASH_JEN_run]).  [buckets_ok] says that an array of buckets holds given
    chains, each linked both ways, counted, and made of the elements whose
    hash selects the bucket; [table_ok] adds the insertion-order list and the
    counters of the table, and [urepr] the memory.  [HASH_FIND_run] is the
    lookup on it. *)

From S2P Require Import Prelude.
From S2P Require Import Own.
From S2P Require Import Heap.
From S2P Require Import UtHash.
From S2P Require Import UtMem.

(** ** Keys and their hash *)

Definition ukey (k : list Z) : Prop := nonul k ∧ Z.of_nat (length k) < 2 ^ 31.

#[export] Instance ukey_dec k : Decision (ukey k).
Proof. unfold ukey. apply _. Defined.

Lemma buf_get_total bs i : 0 ≤ i < Z.of_nat (length bs) → ∃ c, buf_get bs i = Done c.
Proof.
  intros Hi. destruct (lookup_lt_is_Some_2 bs (Z.to_nat i)) as [c Hc]; [lia|].
  exists c. apply buf_get_Some; [lia|done].
Qed.

Lemma jen_word_total bs i : 0 ≤ i → i + 4 ≤ Z.of_nat (length bs) → ∃ w, jen_word bs i = Done w.
Proof.
  intros Hi Hl. unfold jen_word.
  destruct (buf_get_total bs i) as [c0 ->]; [lia|]. destruct (buf_get_total bs (i + 1)) as [c1 Hc1]; [lia|].
  destruct (buf_get_total bs (i + 2)) as [c2 Hc2]; [lia|].
  destruct (buf_get_total bs (i + 3)) as [c3 Hc3]; [lia|].
  cbn -[Z.shiftl]. rewrite Hc1. cbn -[Z.shiftl]. rewrite Hc2. cbn -[Z.shiftl]. rewrite Hc3. by eexists.
Qed.

Lemma jen_loop_total fuel : ∀ bs pos k x,
  0 ≤ pos → 0 ≤ k → pos + k ≤ Z.of_nat (length bs) → (Z.to_nat k < fuel)%nat →
  ∃ pos' k' x', jen_loop fuel bs pos k x = Done (pos', k', x') ∧
    0 ≤ pos' ∧ 0 ≤ k' < 12 ∧ pos' + k' ≤ Z.of_nat (length bs).
Proof.
  induction fuel as [|fuel IH]; intros bs pos k x Hp Hk Hl Hf; [lia|].
  cbn -[jen_word HASH_JEN_MIX Z.leb]. destruct (Z.leb_spec 12 k).
  - destruct x as [[i j] h].
    destruct (jen_word_total bs pos) as [w0 ->]; [lia..|].
    destruct (jen_word_total bs (pos + 4)) as [w1 Hw1]; [lia..|].
    destruct (jen_word_total bs (pos + 8)) as [w2 Hw2]; [lia..|].
    cbn -[jen_word HASH_JEN_MIX]. rewrite Hw1. cbn -[jen_word HASH_JEN_MIX]. rewrite Hw2.
    cbn -[jen_word HASH_JEN_MIX]. apply IH; lia.
  - exists pos, k, x. split_and!; (done || lia).
Qed.

Lemma jen_case_total bs pos k n shift acc :
  0 ≤ pos → 1 ≤ n → pos + k ≤ Z.of_nat (length bs) → ∃ acc', jen_case bs pos k n shift acc = Done acc'.
Proof.
  intros Hp Hn Hl. unfold jen_case. destruct (Z.leb_spec n k); [|by eexists].
  destruct (buf_get_total bs (pos + n - 1)) as [c ->]; [lia|]. by eexists.
Qed.

Lemma jen_tail_total bs pos k x :
  0 ≤ pos → pos + k ≤ Z.of_nat (length bs) → ∃ y, jen_tail bs pos k x = Done y.
Proof.
  intros Hp Hl. destruct x as [[i j] h]. unfold jen_tail.
  repeat match goal with
  | |- context [jen_case bs pos k ?n ?s ?acc] =>
      let Hc := fresh in
      destruct (jen_case_total bs pos k n s acc) as [? Hc]; [lia..|]; rewrite Hc; clear Hc;
      cbn -[jen_case]
  end.
  by eexists.
Qed.

Lemma HASH_JEN_total k :
  ukey k → ∃ h, ∀ n, HASH_JEN (cstr k) (Z.of_nat (length k)) n = Done (h, Z.land h (u32 (n - 1))).
Proof.
  intros [_ Hk]. unfold HASH_JEN. rewrite u32_small by lia.
  destruct (jen_loop_total (S (Z.to_nat (Z.of_nat (length k)))) (cstr k) 0 (Z.of_nat (length k))
    (2654435769, 2654435769, 4276993775)) as (pos & k' & [[i j] h] & -> & Hp & Hk' & Hl);
    [lia|lia|rewrite length_cstr; lia|lia|].
  cbn -[jen_tail HASH_JEN_MIX].
  destruct (jen_tail_total (cstr k) pos k' (i, j, u32 (h + Z.of_nat (length k)))) as [y ->]; [done..|].
  cbn -[HASH_JEN_MIX]. destruct (HASH_JEN_MIX y) as [[i' j'] h']. by exists h'.
Qed.

Definition jen (k : list Z) : Z :=
  match HASH_JEN (cstr k) (Z.of_nat (length k)) 1 with Done (h, _) => h | _ => 0 end.

Lemma HASH_JEN_run k n :
  ukey k → HASH_JEN (cstr k) (Z.of_nat (length k)) n = Done (jen k, Z.land (jen k) (u32 (n - 1))).
Proof. intros (h & Hh)%HASH_JEN_total. unfold jen. by rewrite !Hh. Qed.

Lemma HASH_KEYCMP_cstr k1 k2 :
  length k1 = length k2 →
  ∃ d, HASH_KEYCMP (cstr k1) (cstr k2) (Z.of_nat (length k2)) = Done d ∧ (d = 0 ↔ k1 = k2).
Proof.
  unfold HASH_KEYCMP. rewrite Nat2Z.id. revert k2.
  induction k1 as [|x k1 IH]; intros [|y k2] Hl; try discriminate Hl; [by exists 0|].
  injection Hl as Hl. destruct (IH k2 Hl) as (d & Hd & Hiff). cbn. destruct (Z.eqb_spec x y) as [->|Hne].
  - exists d. split; [done|]. rewrite Hiff. split; [by intros ->|by intros [=]].
  - exists (x - y). split; [done|]. split; [lia|]. by intros [=].
Qed.

(** ** Buckets *)

Implicit Types (H : Z → UT_hash_handle) (xs : list item) (x : item) (c : list Z).
Implicit Types (bs : list UT_hash_bucket) (t : UT_hash_table) (chains : list (list Z)) (m : uheap).

Notation prevs H := (λ a, prev (H a)).
Notation nexts H := (λ a, next (H a)).
Notation hh_prevs H := (λ a, hh_prev (H a)).
Notation hh_nexts H := (λ a, hh_next (H a)).

Definition chain_ok H (i mask : Z) (b : UT_hash_bucket) c : Prop :=
  hh_head b = hd0 c ∧ count b = Z.of_nat (length c) ∧ linked (hh_prevs H) (hh_nexts H) c ∧
  ∀ a, a ∈ c → Z.land (hashv (H a)) mask = i.

Definition buckets_ok H bs chains : Prop :=
  length bs = length chains ∧
  ∀ i b c, bs !! i = Some b → chains !! i = Some c →
    chain_ok H (Z.of_nat i) (Z.of_nat (length bs) - 1) b c.

(** ** The table *)

Definition registered (ta : Z) H x : Prop :=
  let h := H (it_at x) in
  tbl h = ta ∧ key h = it_at x + SIZEOF_HASH_ENTRY ∧ keylen h = Z.of_nat (length (it_key x)) ∧
  hashv h = jen (it_key x).

Definition item_ok (ta : Z) H x : Prop := 0 < it_at x ∧ ukey (it_key x) ∧ registered ta H x.

Record table_ok H xs (ta : Z) t bs chains (lg : Z) : Prop := {
  tb_list : linked (prevs H) (nexts H) (addrs xs);
  tb_items : ∀ x, x ∈ xs → item_ok ta H x;
  tb_keys : NoDup (it_key <$> xs);
  tb_count : num_items t = Z.of_nat (length xs);
  tb_room : Z.of_nat (length xs) < 2 ^ 31;
  tb_tail : tail t = last0 (addrs xs);
  tb_hho : hho t = 0;
  tb_log : log2_num_buckets t = lg;
  tb_lg : 0 ≤ lg ≤ 31;
  tb_num : num_buckets t = 2 ^ lg;
  tb_len : Z.of_nat (length bs) = 2 ^ lg;
  tb_buckets : buckets_ok H bs chains;
  tb_perm : concat chains ≡ₚ addrs xs;
}.

(** The structure at [root] holds the elements [xs], in this order, in
    [2 ^ lg] buckets; without elements there is no table. *)
Inductive urepr (root : Z) (fr : uheap) : list item → Z → uheap → Prop :=
  | urepr_nil H m : umem root fr 0 [] [] H [] m → urepr root fr [] 5 m
  | urepr_cons x xs ta t bs chains lg H m :
      umem root fr (it_at x) [(ta, t)] [(buckets t, bs)] H (x :: xs) m →
      table_ok H (x :: xs) ta t bs chains lg →
      urepr root fr (x :: xs) lg m.

Lemma land_mask h lg : 0 ≤ lg → Z.land h (2 ^ lg - 1) = h mod 2 ^ lg.
Proof.
  intros. rewrite <-Z.land_ones by done. f_equal. unfold Z.ones. rewrite Z.shiftl_1_l. lia.
Qed.

(** The bucket a hash selects. *)
Lemma bucket_index {B} (bs : list B) h lg :
  0 ≤ lg → Z.of_nat (length bs) = 2 ^ lg →
  ∃ i b, Z.land h (2 ^ lg - 1) = Z.of_nat i ∧ bs !! i = Some b.
Proof.
  intros Hlg Hl. rewrite land_mask by done.
  pose proof (Z.mod_pos_bound h (2 ^ lg) ltac:(lia)) as Hb.
  destruct (lookup_lt_is_Some_2 bs (Z.to_nat (h mod 2 ^ lg))) as [b Hb']; [lia|].
  exists (Z.to_nat (h mod 2 ^ lg)), b. split; [lia|done].
Qed.

Lemma u32_mask lg : 0 ≤ lg ≤ 31 → u32 (2 ^ lg - 1) = 2 ^ lg - 1.
Proof.
  intros. apply u32_small.
  pose proof (Z.pow_le_mono_r 2 lg 31 ltac:(lia) ltac:(lia)). pose proof (Z.pow_pos_nonneg 2 lg). lia.
Qed.

Lemma chain_members H bs chains xs i c :
  concat chains ≡ₚ addrs xs → chains !! i = Some c → ∀ a, a ∈ c → a ∈ addrs xs.
Proof.
  intros Hp Hc a Ha. rewrite <-Hp. apply list_elem_of_In, in_concat. exists c.
  split; apply list_elem_of_In; [by eapply list_elem_of_lookup_2|done].
Qed.

Lemma chain_short chains xs i c :
  concat chains ≡ₚ addrs xs → chains !! i = Some c → (length c ≤ length xs)%nat.
Proof.
  intros Hp Hc. rewrite <-(length_fmap it_at xs), <-Hp. apply list_elem_of_split_length in Hc as (l1 & l2 & -> & _).
  rewrite concat_app. cbn. rewrite !length_app. lia.
Qed.

Lemma items_inj xs x y : NoDup (addrs xs) → x ∈ xs → y ∈ xs → it_at y = it_at x → y = x.
Proof.
  intros Hnd [i Hi]%list_elem_of_lookup [j Hj]%list_elem_of_lookup Heq.
  assert (i = j) as ->; [|congruence]. eapply (NoDup_lookup _ _ _ (it_at x) Hnd).
  - by rewrite list_lookup_fmap, Hi.
  - by rewrite list_lookup_fmap, Hj, <-Heq.
Qed.

(** ** Lookup *)

Section find.
Context (root : Z) (fr : uheap).

(** The element of a key, in the order of insertion; null when there is none. *)
Fixpoint find_item (k : list Z) xs : Z :=
  match xs with
  | [] => 0
  | x :: xs => if decide (it_key x = k) then it_at x else find_item k xs
  end.

Lemma find_item_Some xs x : NoDup (it_key <$> xs) → x ∈ xs → find_item (it_key x) xs = it_at x.
Proof.
  induction xs as [|y xs IH]; cbn; intros Hnd Hx; [by apply elem_of_nil in Hx|].
  apply NoDup_cons in Hnd as [Hnin Hnd]. apply elem_of_cons in Hx as [-> | Hx]; [by rewrite decide_True|].
  rewrite decide_False; [by apply IH|]. intros Heq. apply Hnin. rewrite Heq.
  by apply (list_elem_of_fmap_2 it_key).
Qed.

Lemma find_item_None k xs : k ∉ it_key <$> xs → find_item k xs = 0.
Proof.
  induction xs as [|y xs IH]; cbn; [done|]. rewrite not_elem_of_cons. intros [Hne Hk].
  rewrite decide_False by congruence. by apply IH.
Qed.

Lemma find_loop_run hd tabs arrs H xs m t ta k c1 c2 fuel :
  umem root fr hd tabs arrs H xs m → (∀ x, x ∈ xs → item_ok ta H x) → hho t = 0 → ukey k →
  linked (hh_prevs H) (hh_nexts H) (c1 ++ c2) → (∀ a, a ∈ c2 → a ∈ addrs xs) →
  (length c2 < fuel)%nat →
  ∃ r, find_loop fuel t (cstr k) (Z.of_nat (length k)) (hd0 c2) m = Done (r, m) ∧
    ((∃ x, x ∈ xs ∧ it_at x = r ∧ it_key x = k) ∨
     r = 0 ∧ ∀ x, x ∈ xs → it_at x ∈ c2 → it_key x ≠ k).
Proof.
  intros Hm Hok Hho Hk. revert c1 fuel. induction c2 as [|a c2 IH]; intros c1 fuel Hl Hin Hf.
  - destruct fuel as [|fuel]; [cbn in Hf; lia|]. exists 0. split; [done|]. right. split; [done|].
    by intros x _ ?%elem_of_nil.
  - destruct fuel as [|fuel]; [cbn in Hf; lia|].
    assert (a ∈ addrs xs) as (x & -> & Hx)%list_elem_of_fmap by (apply Hin, elem_of_cons; by left).
    destruct (Hok x Hx) as (Hpos & Hkx & Htbl & Hkey & Hlen & Hhash).
    change (hd0 (it_at x :: c2)) with (it_at x). cbn -[cstr].
    destruct (Z.eqb_spec (it_at x) 0); [lia|].
    run_to (load_hh_item root fr _ _ _ _ _ _ _ Hm (list_elem_of_fmap_2 it_at _ _ Hx)).
    assert (∃ b, (if keylen (H (it_at x)) =? Z.of_nat (length k)
        then chars ← load_chars (key (H (it_at x)));
             cmp ← lift (HASH_KEYCMP chars (cstr k) (Z.of_nat (length k))); mret (cmp =? 0)
        else mret false) m = Done (b, m) ∧ (b = true ↔ it_key x = k)) as (b & Hb & Hiff).
    { rewrite Hlen. destruct (Z.eqb_spec (Z.of_nat (length (it_key x))) (Z.of_nat (length k))).
      - rewrite Hkey. run_to (load_chars_item root fr _ _ _ _ _ _ _ Hm Hx).
        destruct (HASH_KEYCMP_cstr (it_key x) k) as (d & -> & Hd); [lia|].
        exists (d =? 0). split; [done|]. by rewrite Z.eqb_eq.
      - exists false. split; [done|]. split; [done|]. intros <-. done. }
    run_to Hb. destruct b.
    + exists (it_at x). split; [done|]. left. exists x. split_and!; [done..|]. by apply Hiff.
    + assert (it_key x ≠ k) as Hne by (intros Heq; by apply Hiff in Heq).
      destruct (Hl c1 (it_at x) c2 eq_refl) as [_ Hnext].
      destruct (IH (c1 ++ [it_at x]) fuel) as (r & Hr & Hcase);
        [by rewrite <-app_assoc|intros; apply Hin, elem_of_cons; by right|cbn in Hf; lia|].
      exists r. split.
      * rewrite Hnext. unfold ELMT_FROM_HH. rewrite Hho, Z.sub_0_r.
        destruct (Z.eqb_spec (hd0 c2) 0) as [H0|]; [|done].
        rewrite H0 in Hr. destruct fuel; [discriminate Hr|]. exact Hr.
      * destruct Hcase as [Hr'|[-> Hno]]; [by left|right]. split; [done|].
        intros y Hy [Heq|Hin']%elem_of_cons; [|by apply Hno].
        assert (y = x) as ->; [|done]. eapply items_inj; [by eapply umem_nodup|done..].
Qed.

(** Every element is in the chain its hash selects. *)
Lemma item_chain H xs ta t bs chains lg x :
  table_ok H xs ta t bs chains lg → x ∈ xs →
  ∃ i b c, bs !! i = Some b ∧ chains !! i = Some c ∧ it_at x ∈ c ∧
    Z.land (jen (it_key x)) (2 ^ lg - 1) = Z.of_nat i ∧ chain_ok H (Z.of_nat i) (2 ^ lg - 1) b c.
Proof.
  intros Hok Hx. destruct (tb_buckets _ _ _ _ _ _ _ Hok) as [Hlen Hbs].
  assert (it_at x ∈ concat chains) as Ha.
  { rewrite (tb_perm _ _ _ _ _ _ _ Hok). by apply (list_elem_of_fmap_2 it_at). }
  apply list_elem_of_In, in_concat in Ha as (c & Hc%list_elem_of_In & Ha%list_elem_of_In).
  apply list_elem_of_lookup in Hc as [i Hi].
  destruct (lookup_lt_is_Some_2 bs i) as [b Hb]; [rewrite Hlen; by eapply lookup_lt_Some|].
  pose proof (Hbs i b c Hb Hi) as Hch. rewrite (tb_len _ _ _ _ _ _ _ Hok) in Hch.
  exists i, b, c. split_and!; try done. destruct Hch as (_ & _ & _ & Hin). specialize (Hin _ Ha).
  destruct (tb_items _ _ _ _ _ _ _ Hok x Hx) as (_ & _ & _ & _ & _ & Hh). by rewrite Hh in Hin.
Qed.

Lemma HASH_FIND_run xs lg m k :
  urepr root fr xs lg m → ukey k →
  HASH_FIND (hd0 (addrs xs)) (cstr k) (Z.of_nat (length k)) m = Done (find_item k xs, m).
Proof.
  intros Hr Hk. destruct Hr as [H m Hm|x xs ta t bs chains lg H m Hm Hok]; [done|].
  destruct (tb_items _ _ _ _ _ _ _ Hok x) as (Hpos & _ & Htbl & _); [apply elem_of_cons; by left|].
  unfold HASH_FIND. change (hd0 (addrs (x :: xs))) with (it_at x).
  destruct (Z.eqb_spec (it_at x) 0); [lia|].
  run_to (load_hh_item root fr _ _ _ _ _ _ (it_at x) Hm (list_elem_of_here _ _)). rewrite Htbl.
  run_to (load_table_run root fr _ _ _ _ _ _ _ _ Hm).
  rewrite HASH_JEN_run, (tb_num _ _ _ _ _ _ _ Hok), u32_mask by (done || apply (tb_lg _ _ _ _ _ _ _ Hok)).
  rewrite (bind_done _ _ m _ m (lift_done _ _)). cbn [fst snd]. unfold HASH_FIND_IN_BKT.
  destruct (tb_buckets _ _ _ _ _ _ _ Hok) as [Hlen Hbs].
  destruct (bucket_index bs (jen k) lg) as (i & b & Hi & Hb);
    [apply (tb_lg _ _ _ _ _ _ _ Hok)|apply (tb_len _ _ _ _ _ _ _ Hok)|].
  rewrite Hi. run_to (load_bucket_run root fr _ _ _ _ _ _ _ bs i b Hm (list_elem_of_here _ _) Hb).
  destruct (lookup_lt_is_Some_2 chains i) as [c Hc]; [rewrite <-Hlen; by eapply lookup_lt_Some|].
  destruct (Hbs i b c Hb Hc) as (Hhd & _ & Hl & _).
  rewrite (bind_done _ _ m _ m eq_refl). rewrite Hhd. unfold ELMT_FROM_HH at 1.
  rewrite (tb_hho _ _ _ _ _ _ _ Hok), Z.sub_0_r.
  pose proof (tb_perm _ _ _ _ _ _ _ Hok) as Hperm.
  destruct (find_loop_run _ _ _ _ _ m t ta k [] c (S (size m)) Hm) as (r & Hrun & Hr);
    [apply (tb_items _ _ _ _ _ _ _ Hok)|apply (tb_hho _ _ _ _ _ _ _ Hok)|done|done
    |by eapply chain_members
    |pose proof (umem_size _ _ _ _ _ _ _ _ Hm); pose proof (chain_short _ _ _ _ Hperm Hc); lia|].
  destruct (Z.eqb_spec (hd0 c) 0) as [H0|]; [rewrite H0 in Hrun|]; rewrite Hrun; do 2 f_equal.
  all: destruct Hr as [(y & Hy & <- & <-)|[-> Hno]];
    [symmetry; apply find_item_Some; [apply (tb_keys _ _ _ _ _ _ _ Hok)|done]|].
  all: symmetry; apply find_item_None; intros (y & -> & Hy)%list_elem_of_fmap;
    destruct (item_chain _ _ _ _ _ _ _ y Hok Hy) as (j & b' & c' & _ & Hc' & Hy' & Hj & _);
    assert (j = i) as -> by lia; simplify_eq; by apply (Hno y).
Qed.

Lemma HASH_FIND_STR_run xs lg m k :
  urepr root fr xs lg m → ukey k →
  HASH_FIND_STR (hd0 (addrs xs)) (cstr k) m = Done (find_item k xs, m).
Proof.
  intros Hr Hk. unfold HASH_FIND_STR. rewrite strlen_cstr by apply Hk.
  rewrite (bind_done _ _ m _ m (lift_done _ _)). by apply (HASH_FIND_run xs lg).
Qed.
End find.
