(* ===== verification/UtExpand.v ===== *)
(** * UtExpand: pushing into a bucket, and bucket expansion

    A new element and a moved one enter a bucket the same way: in front of its
    chain ([pushed], [push_ok]).  During an expansion the elements that have
    not been moved keep their links, those that have are in the new array;
    [HASH_EXPAND_BUCKETS_run] is the whole expansion. *)

From S2P Require Import Prelude.
From S2P Require Import Own.
From S2P Require Import Heap.
From S2P Require Import UtHash.
From S2P Require Import UtMem.
From S2P Require Import UtTable.

Implicit Types (H : Z → UT_hash_handle) (xs : list item) (x : item) (c : list Z).
Implicit Types (bs : list UT_hash_bucket) (t : UT_hash_table) (chains : list (list Z)) (m : uheap).

(** ** In front of a chain *)

(** The fields that are not links of a bucket. *)
Definition stat (h : UT_hash_handle) := (prev h, next h, tbl h, key h, keylen h, hashv h).

Lemma stat_eq h h' :
  stat h' = stat h →
  prev h' = prev h ∧ next h' = next h ∧ tbl h' = tbl h ∧ key h' = key h ∧ keylen h' = keylen h ∧
  hashv h' = hashv h.
Proof. unfold stat. intros [= -> -> -> -> -> ->]. done. Qed.

Definition pushed H H' a c : Prop :=
  H' a = set_hh_prev 0 (set_hh_next (hd0 c) (H a)) ∧
  (∀ y, head c = Some y → H' y = set_hh_prev a (H y)) ∧
  (∀ b, b ≠ a → head c ≠ Some b → H' b = H b).

Lemma pushed_stat H H' a c b : pushed H H' a c → stat (H' b) = stat (H b).
Proof.
  intros (Ha & Hy & Hb). destruct (decide (b = a)) as [-> | Hne]; [by rewrite Ha|].
  destruct (decide (head c = Some b)) as [Hh|Hh]; [by rewrite (Hy b Hh)|by rewrite Hb].
Qed.

Lemma concat_disjoint chains i j c1 c2 a :
  NoDup (concat chains) → chains !! i = Some c1 → chains !! j = Some c2 → a ∈ c1 → a ∈ c2 → i = j.
Proof.
  intros Hnd Hi Hj H1 H2. destruct (decide (i = j)) as [|Hne]; [done|]. exfalso.
  rewrite (concat_take_out _ _ _ Hi) in Hnd. apply NoDup_app in Hnd as (_ & Hdis & _).
  apply (Hdis a H1), elem_of_concat. exists c2. split; [done|].
  apply list_elem_of_lookup. exists j. by rewrite list_lookup_insert_ne by done.
Qed.

Lemma chain_nodup chains i c : NoDup (concat chains) → chains !! i = Some c → NoDup c.
Proof. intros Hnd Hi. rewrite (concat_take_out _ _ _ Hi) in Hnd. by apply NoDup_app in Hnd as (? & _). Qed.

Lemma in_chain chains i c a : chains !! i = Some c → a ∈ c → a ∈ concat chains.
Proof. intros Hi Ha. apply elem_of_concat. exists c. split; [done|by eapply list_elem_of_lookup_2]. Qed.

Lemma concat_push chains i c a :
  chains !! i = Some c → concat (<[i := a :: c]> chains) ≡ₚ a :: concat chains.
Proof. intros Hi. by rewrite (concat_put_in _ _ _ _ Hi), (concat_take_out _ _ _ Hi). Qed.

Lemma push_ok H H' bs chains j b c a em n :
  NoDup (concat chains) → a ∉ concat chains → buckets_ok H bs chains →
  bs !! j = Some b → chains !! j = Some c → pushed H H' a c →
  Z.land (hashv (H a)) (Z.of_nat (length bs) - 1) = Z.of_nat j → n = Z.of_nat (length (a :: c)) →
  buckets_ok H' (<[j := Bucket a n em]> bs) (<[j := a :: c]> chains).
Proof.
  intros Hnd Hnin [Hlen Hok] Hb Hc Hp Hidx ->.
  assert (∀ b, hashv (H' b) = hashv (H b)) as Hhash.
  { intros b'. by destruct (stat_eq _ _ (pushed_stat _ _ _ _ b' Hp)) as (_ & _ & _ & _ & _ & ?). }
  destruct Hp as (Ha & Hy & Hr). split; [by rewrite !length_insert|]. rewrite !length_insert.
  intros i b' c' Hb' Hc'. destruct (decide (i = j)) as [-> | Hne].
  - rewrite list_lookup_insert_eq in Hb' by by eapply lookup_lt_Some.
    rewrite list_lookup_insert_eq in Hc' by by eapply lookup_lt_Some. simplify_eq.
    destruct (Hok j b c Hb Hc) as (_ & _ & Hl & Hin). split; [done|]. split; [done|]. split.
    + assert (a ∉ c) by (intros Hac; apply Hnin; by eapply in_chain).
      apply (linked_push (hh_prevs H) (hh_nexts H)); try done.
      * apply NoDup_cons. split; [done|]. by eapply chain_nodup.
      * by rewrite Ha.
      * by rewrite Ha.
      * intros y Hh. by rewrite (Hy y Hh).
      * intros b' Hb1 Hb2. rewrite Hr; [done| |done]. by intros ->.
      * intros b' Hb1. destruct (decide (head c = Some b')) as [Hh|Hh]; [by rewrite (Hy b' Hh)|].
        rewrite Hr; [done| |done]. by intros ->.
    + intros b' [-> | Hb1]%elem_of_cons; rewrite Hhash; [done|by apply Hin].
  - rewrite list_lookup_insert_ne in Hb' by done. rewrite list_lookup_insert_ne in Hc' by done.
    destruct (Hok i b' c' Hb' Hc') as (Hhd & Hcnt & Hl & Hin). split_and!; [done..| |].
    + apply (linked_ext (hh_prevs H) (hh_nexts H)); [|done]. intros b1 Hb1. rewrite Hr; [done|..].
      * intros ->. apply Hnin. by eapply in_chain.
      * intros Hh. apply head_Some_elem_of in Hh. apply Hne. by eapply concat_disjoint.
    + intros b1 Hb1. rewrite Hhash. by apply Hin.
Qed.

Section push.
Context (root : Z) (fr : uheap).

(** The stores that end a push, after those to the pushed element. *)
Lemma push_run hd tabs arrs H H2 xs m a c :
  umem root fr hd tabs arrs H2 xs m → a ∉ c → (∀ b, b ∈ c → b ∈ addrs xs ∧ b ≠ 0) →
  H2 a = set_hh_prev 0 (set_hh_next (hd0 c) (H a)) → (∀ b, b ≠ a → H2 b = H b) →
  ∃ H' m', (if negb (hd0 c =? 0) then modify_hh (hd0 c) (set_hh_prev a) else mret tt) m = Done (tt, m') ∧
    umem root fr hd tabs arrs H' xs m' ∧ pushed H H' a c.
Proof.
  intros Hm Hnin Hin Ha Hb. destruct c as [|y c]; cbn -[negb].
  - exists H2, m. split_and!; [done..|]. split_and!; [done..|]. intros b Hne _. by apply Hb.
  - change (hd0 (y :: c)) with y. destruct (Hin y) as [Hy Hy0]; [by apply elem_of_cons; left|].
    apply not_elem_of_cons in Hnin as [Hay _].
    destruct (Z.eqb_spec y 0); [done|]. cbn.
    destruct (modify_item root fr _ _ _ _ _ _ y (set_hh_prev a) Hm Hy) as (m' & Hrun & Hm').
    exists (upd H2 y (set_hh_prev a)), m'. split_and!; [done..|]. split_and!.
    + by rewrite upd_ne.
    + intros z [= <-]. by rewrite upd_eq, Hb.
    + intros b Hne Hhd. rewrite upd_ne by (intros ->; by apply Hhd). by apply Hb.
Qed.
End push.

(** ** Moving the elements *)

Lemma chain_length c xs : NoDup c → (∀ a, a ∈ c → a ∈ addrs xs) → (length c ≤ length xs)%nat.
Proof.
  intros Hnd Hin. rewrite <-(length_fmap it_at xs).
  by apply submseteq_length, NoDup_submseteq.
Qed.

Section expand.
Context (root : Z) (fr : uheap) (hd ta : Z) (xs : list item).
Context (H0 : Z → UT_hash_handle) (t0 : UT_hash_table) (bs0 : list UT_hash_bucket) (lg : Z).
Context (nbp ideal : Z).
Hypothesis Hlg : 0 ≤ lg < 31.
Hypothesis Hideal : 0 < ideal.
Hypothesis Hroom : Z.of_nat (length xs) < 2 ^ 31.
Hypothesis Hpos : ∀ a, a ∈ addrs xs → a ≠ 0.

(** The memory while the elements of [chains] are in the new array [bs] and
    the others where they were. *)
Record moving H bs chains (ni : Z) m : Prop := {
  mv_mem : umem root fr hd [(ta, set_ideal ideal ni t0)] [(nbp, bs); (buckets t0, bs0)] H xs m;
  mv_ok : buckets_ok H bs chains;
  mv_len : Z.of_nat (length bs) = 2 ^ (lg + 1);
  mv_stat : ∀ a, stat (H a) = stat (H0 a);
  mv_nodup : NoDup (concat chains);
  mv_in : ∀ a, a ∈ concat chains → a ∈ addrs xs;
  mv_rest : ∀ a, a ∉ concat chains → H a = H0 a;
}.

(** The new array after the elements [l] have been moved by a command. *)
Definition moves (l : list Z) chains (r : outcome (unit * uheap)) : Prop :=
  ∃ H' bs' chains' ni' m', r = Done (tt, m') ∧ moving H' bs' chains' ni' m' ∧
    concat chains' ≡ₚ l ++ concat chains.

(** A chain that outgrows the ideal length is counted. *)
Lemma expand_count_run H bs ni m q i hb cnt em :
  umem root fr hd [(ta, set_ideal ideal ni t0)] [(nbp, bs); q] H xs m →
  bs !! i = Some (Bucket hb cnt em) →
  ∃ ni' em' m',
    (t ← load_table ta;
     if ideal_chain_maxlen t <? cnt then
       _ ← modify_table ta (λ t, set_ideal (ideal_chain_maxlen t) (u32 (nonideal_items t + 1)) t);
       if ideal_chain_maxlen t =? 0 then undef
       else store_bucket nbp (Z.of_nat i) (Bucket hb cnt (cnt / ideal_chain_maxlen t))
     else mret tt) m = Done (tt, m') ∧
    umem root fr hd [(ta, set_ideal ideal ni' t0)] [(nbp, <[i := Bucket hb cnt em']> bs); q] H xs m'.
Proof.
  intros Hm Hb. run_to (load_table_run root fr _ _ _ _ _ _ _ _ Hm). cbn [ideal_chain_maxlen set_ideal].
  destruct (ideal <? cnt).
  - destruct (modify_table_run root fr _ _ _
      (λ t, set_ideal (ideal_chain_maxlen t) (u32 (nonideal_items t + 1)) t) _ _ _ _ _ Hm)
      as (m1 & Hrun & Hm1). run_to Hrun. destruct (Z.eqb_spec ideal 0); [lia|].
    destruct (store_bucket_run root fr _ _ _ _ _ _ _ _ i (Bucket hb cnt (cnt / ideal)) Hm1)
      as (m2 & Hrun2 & Hm2); [by eapply lookup_lt_Some|].
    exists (u32 (ni + 1)), (cnt / ideal), m2. done.
  - exists ni, em, m. split; [done|]. by rewrite list_insert_id.
Qed.

Lemma expand_item_run H bs chains ni m a :
  moving H bs chains ni m → a ∈ addrs xs → a ∉ concat chains →
  moves [a] chains (expand_item ta (2 ^ (lg + 1)) nbp a m).
Proof.
  intros [Hm [Hlen Hok] Hl Hst Hnd Hin Hrest] Ha Hnin. unfold expand_item.
  run_to (load_hh_item root fr _ _ _ _ _ _ _ Hm Ha). unfold HASH_TO_BKT. rewrite u32_mask by lia.
  destruct (bucket_index bs (hashv (H a)) (lg + 1)) as (i & b & Hi & Hb); [lia|done|].
  destruct (lookup_lt_is_Some_2 chains i) as [c Hc]; [rewrite <-Hlen; by eapply lookup_lt_Some|].
  pose proof (Hok i b c Hb Hc) as (Hhd & Hcnt & _). pose proof (lookup_lt_Some _ _ _ Hb) as Hib.
  assert (∀ b, b ∈ c → b ∈ addrs xs ∧ b ≠ 0) as Hcin.
  { intros b' Hb'. assert (b' ∈ addrs xs) by (apply Hin; by eapply in_chain). auto. }
  assert (a ∉ c) as Hac by (intros Hac; apply Hnin; by eapply in_chain).
  rewrite Hi. run_to (load_bucket_run root fr _ _ _ _ _ _ _ bs i b Hm (list_elem_of_here _ _) Hb).
  assert (u32 (count b + 1) = Z.of_nat (length (a :: c))) as Hu.
  { pose proof (chain_length c xs (chain_nodup _ _ _ Hnd Hc) (λ b Hb, proj1 (Hcin b Hb))).
    rewrite Hcnt, u32_small; cbn [length]; lia. }
  rewrite Hu. set (n := Z.of_nat (length (a :: c))) in *.
  destruct (store_bucket_run root fr _ _ _ _ _ _ _ _ i (Bucket (hh_head b) n (expand_mult b)) Hm Hib)
    as (m1 & Hrun1 & Hm1). run_to Hrun1.
  destruct (expand_count_run H _ ni m1 _ i (hh_head b) n (expand_mult b) Hm1)
    as (ni' & em & m2 & Hrun2 & Hm2); [by apply list_lookup_insert_eq|].
  erewrite bind_done2 by exact Hrun2. clear Hrun1 Hrun2 Hm1. rewrite list_insert_insert_eq in Hm2.
  destruct (modify_item root fr _ _ _ _ _ _ a (set_hh_prev 0) Hm2 Ha) as (m3 & Hrun3 & Hm3). run_to Hrun3.
  assert (∀ b', <[i := b']> bs !! i = Some b') as Hbi by (intros; by apply list_lookup_insert_eq).
  run_to (load_bucket_run root fr _ _ _ _ _ _ _ _ i _ Hm3 (list_elem_of_here _ _) (Hbi _)).
  destruct (modify_item root fr _ _ _ _ _ _ a (set_hh_next (hh_head b)) Hm3 Ha) as (m4 & Hrun4 & Hm4).
  run_to Hrun4. cbn [hh_head count expand_mult].
  destruct (push_run root fr _ _ _ H _ _ _ a c Hm4 Hac Hcin) as (H' & m5 & Hrun5 & Hm5 & Hp);
    [by rewrite !upd_eq, Hhd|intros; by rewrite !upd_ne|].
  rewrite Hhd. run_to Hrun5.
  destruct (store_bucket_run root fr _ _ _ _ _ _ _ _ i (Bucket a n em) Hm5) as (m6 & Hrun6 & Hm6);
    [by rewrite length_insert|]. rewrite list_insert_insert_eq in Hm6.
  exists H', (<[i := Bucket a n em]> bs), (<[i := a :: c]> chains), ni', m6.
  pose proof (concat_push chains i c a Hc) as Hperm. split; [done|]. split; [|done]. split.
  - done.
  - eapply push_ok; [done|done|by split|done..|by rewrite Hl|done].
  - by rewrite length_insert.
  - intros a'. by rewrite (pushed_stat _ _ _ _ a' Hp).
  - rewrite Hperm. by apply NoDup_cons.
  - intros a'. rewrite Hperm. intros [-> | Ha']%elem_of_cons; auto.
  - intros a'. rewrite Hperm. intros [Hne Ha']%not_elem_of_cons. rewrite (proj2 (proj2 Hp)), Hrest; try done.
    intros Hh%head_Some_elem_of. apply Ha'. by eapply in_chain.
Qed.

Lemma expand_chain_run c1 c2 : ∀ fuel H bs chains ni m,
  moving H bs chains ni m → linked (hh_prevs H0) (hh_nexts H0) (c1 ++ c2) → NoDup c2 →
  (∀ a, a ∈ c2 → a ∈ addrs xs ∧ a ∉ concat chains) → (length c2 < fuel)%nat →
  moves c2 chains (expand_chain fuel ta (2 ^ (lg + 1)) nbp (hd0 c2) m).
Proof.
  revert c1. induction c2 as [|a c2 IH]; intros c1 fuel H bs chains ni m Hm Hl Hnd Hin Hf;
    (destruct fuel as [|fuel]; [cbn in Hf; lia|]).
  - by exists H, bs, chains, ni, m.
  - destruct (Hin a) as [Ha Hna]; [by apply elem_of_cons; left|]. apply NoDup_cons in Hnd as [Hac Hnd].
    change (hd0 (a :: c2)) with a. cbn. destruct (Z.eqb_spec a 0); [by destruct (Hpos a)|].
    run_to (load_hh_item root fr _ _ _ _ _ _ _ (mv_mem _ _ _ _ _ Hm) Ha).
    rewrite (mv_rest _ _ _ _ _ Hm a Hna). destruct (Hl c1 a c2 eq_refl) as [_ ->].
    destruct (expand_item_run H bs chains ni m a Hm Ha Hna) as (H1 & bs1 & chains1 & ni1 & m1 & Hrun & Hm1 & Hp).
    run_to Hrun. destruct (IH (c1 ++ [a]) fuel H1 bs1 chains1 ni1 m1 Hm1)
      as (H2 & bs2 & chains2 & ni2 & m2 & Hrun2 & Hm2 & Hp2); [by rewrite <-app_assoc|done| |cbn in Hf; lia|].
    + intros b Hb. destruct (Hin b) as [Hb1 Hb2]; [by apply elem_of_cons; right|]. split; [done|].
      rewrite Hp. intros [-> | Hb3]%elem_of_cons; done.
    + exists H2, bs2, chains2, ni2, m2. split; [done|]. split; [done|]. rewrite Hp2, Hp. cbn.
      by rewrite <-Permutation_middle.
Qed.

Context (chains0 : list (list Z)).
Hypothesis Hbs0 : buckets_ok H0 bs0 chains0.
Hypothesis Hperm0 : concat chains0 ≡ₚ addrs xs.
Hypothesis Hnum0 : num_buckets t0 = 2 ^ lg.

Lemma expand_loop_run n : ∀ i H bs chains ni m,
  NoDup (addrs xs) → (i + n)%nat = length bs0 → moving H bs chains ni m →
  concat chains ≡ₚ concat (take i chains0) →
  ∃ H' bs' chains' ni' m', expand_loop n (Z.of_nat i) ta nbp m = Done (tt, m') ∧
    moving H' bs' chains' ni' m' ∧ concat chains' ≡ₚ concat chains0.
Proof.
  induction n as [|n IH]; intros i H bs chains ni m Hnd Hi Hm Hp; destruct Hbs0 as [Hlen Hok].
  - exists H, bs, chains, ni, m. split_and!; [done..|]. by rewrite take_ge in Hp by lia.
  - cbn -[Z.of_nat]. pose proof (mv_mem _ _ _ _ _ Hm) as Hmem.
    run_to (load_table_run root fr _ _ _ _ _ _ _ _ Hmem). cbn [buckets num_buckets set_ideal].
    destruct (lookup_lt_is_Some_2 bs0 i) as [b Hb]; [lia|].
    destruct (lookup_lt_is_Some_2 chains0 i) as [c Hc]; [lia|].
    run_to (load_bucket_run root fr _ _ _ _ _ _ (buckets t0) bs0 i b Hmem
      (list_elem_of_further _ _ _ (list_elem_of_here _ _)) Hb).
    rewrite (bind_done _ _ m _ m eq_refl). destruct (Hok i b c Hb Hc) as (-> & _ & Hl & _).
    assert (NoDup (concat chains0)) as Hnd0 by by rewrite Hperm0.
    assert (u32 (num_buckets t0 * 2) = 2 ^ (lg + 1)) as ->.
    { rewrite Hnum0, Z.pow_add_r by lia. apply u32_small.
      pose proof (Z.pow_le_mono_r 2 lg 30 ltac:(lia) ltac:(lia)). pose proof (Z.pow_pos_nonneg 2 lg). lia. }
    assert (concat (take (S i) chains0) ≡ₚ c ++ concat (take i chains0)) as Htake.
    { rewrite (take_S_r _ _ _ Hc), concat_app. cbn. rewrite app_nil_r. apply Permutation_app_comm. }
    destruct (expand_chain_run [] c (S (size m)) H bs chains ni m Hm Hl)
      as (H1 & bs1 & chains1 & ni1 & m1 & Hrun & Hm1 & Hp1); [by eapply chain_nodup| | |].
    + intros a Ha. split; [by eapply chain_members|]. rewrite Hp. intros Ha'.
      rewrite <-(take_drop (S i) chains0), concat_app, Htake in Hnd0. apply NoDup_app in Hnd0 as (Hnd0 & _).
      apply NoDup_app in Hnd0 as (_ & Hdis & _). by apply (Hdis a).
    + pose proof (umem_size _ _ _ _ _ _ _ _ Hmem). pose proof (chain_short _ _ _ _ Hperm0 Hc). lia.
    + run_to Hrun. replace (Z.of_nat i + 1) with (Z.of_nat (S i)) by lia.
      apply (IH (S i) H1 bs1 chains1 ni1 m1 Hnd); [lia|done|]. by rewrite Hp1, Htake, Hp.
Qed.
End expand.

(** ** The expansion *)

(** A store to the table that [Hm] owns. *)
Ltac run_table Hm :=
  match type of Hm with
  | umem ?root ?fr _ _ _ _ _ ?m =>
      match goal with
      | |- context [modify_table _ ?f] =>
          let m' := fresh "m" in let Hrun := fresh in let Hm' := fresh in
          destruct (modify_table_run root fr _ _ _ f _ _ _ _ m Hm) as (m' & Hrun & Hm');
          run_to Hrun; clear Hrun Hm; cbn beta in Hm'; rename Hm' into Hm
      end
  end.

Section alloc.
Context {A : Allocator ublock} {Hspec : AllocSpec A} {Htotal : AllocTotal A}.
Context (root : Z) (fr : uheap).

Lemma new_buckets_run hd tabs arrs H xs n m :
  umem root fr hd tabs arrs H xs m →
  ∃ p m', new_buckets n m = Done (Some p, m') ∧ p ≠ 0 ∧
    umem root fr hd tabs ((p, replicate (Z.to_nat n) no_bucket) :: arrs) H xs m'.
Proof.
  intros Hm. unfold new_buckets, uthash_malloc.
  destruct (alloc_total m (u64 (n * SIZEOF_UT_hash_bucket))) as [p Hp].
  erewrite bind_done by by rewrite Hp. pose proof (alloc_pos _ _ _ Hp).
  destruct (Z.eqb_spec p 0); [lia|]. rewrite (bind_done _ _ _ _ _ eq_refl).
  rewrite (bind_done _ _ _ _ _ eq_refl). rewrite insert_insert_eq.
  exists p. eexists. split; [done|]. split; [done|]. unfold umem. rewrite ucells_array.
  apply owns_alloc; [by eapply alloc_fresh|done].
Qed.

Lemma empty_buckets_ok H n : buckets_ok H (replicate n no_bucket) (replicate n []).
Proof.
  split; [by rewrite !length_replicate|].
  intros i b c [-> _]%lookup_replicate [-> _]%lookup_replicate.
  split_and!; [done..|by apply linked_nil|by intros a ?%elem_of_nil].
Qed.

Lemma concat_replicate_nil n : concat (replicate n ([] : list Z)) = [].
Proof. by induction n. Qed.

(** The ideal length of a chain is positive. *)
Lemma ideal_pos n lg :
  0 < n < 2 ^ 31 → 0 ≤ lg < 31 →
  0 < u32 (Z.shiftr n (lg + 1) + (if Z.land n (u32 (2 ^ lg * 2 - 1)) =? 0 then 0 else 1)).
Proof.
  intros Hn Hlg. replace (2 ^ lg * 2) with (2 ^ (lg + 1)) by (rewrite Z.pow_add_r; lia).
  rewrite u32_mask, land_mask, Z.shiftr_div_pow2 by lia.
  pose proof (Z.pow_pos_nonneg 2 (lg + 1)) as Hp.
  pose proof (Z.div_le_upper_bound n (2 ^ (lg + 1)) n ltac:(lia) ltac:(nia)).
  pose proof (Z.div_pos n (2 ^ (lg + 1)) ltac:(lia) ltac:(lia)).
  pose proof (Z.div_mod n (2 ^ (lg + 1)) ltac:(lia)).
  rewrite u32_small by (destruct (_ =? 0); lia). destruct (Z.eqb_spec (n mod 2 ^ (lg + 1)) 0); nia.
Qed.

Lemma item_ok_stat ta H H' x : (∀ a, stat (H' a) = stat (H a)) → item_ok ta H x → item_ok ta H' x.
Proof.
  intros Hst. unfold item_ok, registered. by destruct (stat_eq _ _ (Hst (it_at x))) as (_ & _ & -> & -> & -> & ->).
Qed.

Lemma linked_stat H H' c :
  (∀ a, stat (H' a) = stat (H a)) → linked (prevs H) (nexts H) c → linked (prevs H') (nexts H') c.
Proof.
  intros Hst. apply linked_ext. intros a _. by destruct (stat_eq _ _ (Hst a)) as (-> & -> & _).
Qed.

Lemma HASH_EXPAND_BUCKETS_run hd H xs ta t bs chains lg m :
  umem root fr hd [(ta, t)] [(buckets t, bs)] H xs m → table_ok H xs ta t bs chains lg →
  lg < 31 → xs ≠ [] →
  ∃ t' bs' chains' H' m', HASH_EXPAND_BUCKETS ta m = Done (Some tt, m') ∧
    umem root fr hd [(ta, t')] [(buckets t', bs')] H' xs m' ∧
    table_ok H' xs ta t' bs' chains' (lg + 1).
Proof.
  intros Hm [Hlist Hitems Hkeys Hcount Hroom Htail Hhho Hlog Hlg Hnum Hlen Hbk Hperm] Hlt Hne.
  unfold HASH_EXPAND_BUCKETS. run_to (load_table_run root fr _ _ _ _ _ _ _ _ Hm).
  assert (2 ^ (lg + 1) = 2 * 2 ^ lg) as Hpow by (rewrite Z.pow_add_r; lia).
  pose proof (Z.pow_le_mono_r 2 lg 30 ltac:(lia) ltac:(lia)).
  pose proof (Z.pow_pos_nonneg 2 lg ltac:(lia) ltac:(lia)).
  destruct (new_buckets_run _ _ _ _ _ (u32 (2 * num_buckets t)) m Hm) as (p & m1 & Hrun1 & Hp & Hm1).
  run_to Hrun1. cbn iota. rewrite Hnum, u32_small in Hm1 by lia.
  destruct (modify_table_run root fr _ _ _ (λ t, set_ideal
    (u32 (Z.shiftr (num_items t) (log2_num_buckets t + 1) +
      (if Z.land (num_items t) (u32 (num_buckets t * 2 - 1)) =? 0 then 0 else 1))) 0 t) _ _ _ _ _ Hm1)
    as (m2 & Hrun2 & Hm2). run_to Hrun2. cbn beta in Hm2. clear Hrun1 Hrun2 Hm1.
  rewrite Hlog, Hnum, Hcount in Hm2. set (ideal := u32 _) in Hm2.
  assert (0 < ideal) as Hideal.
  { apply ideal_pos; [|lia]. destruct xs; [done|]. cbn [length] in *. lia. }
  run_to (load_table_run root fr _ _ _ _ _ _ _ _ Hm2). cbn [num_buckets set_ideal]. rewrite Hnum.
  assert (moving root fr hd ta xs H t bs lg p ideal H
    (replicate (Z.to_nat (2 * 2 ^ lg)) no_bucket) (replicate (Z.to_nat (2 * 2 ^ lg)) []) 0 m2) as Hmv.
  { split; [done|by apply empty_buckets_ok|rewrite length_replicate; lia|done| | |done];
      rewrite concat_replicate_nil; [by apply NoDup_nil_2|by intros a ?%elem_of_nil]. }
  assert (∀ a, a ∈ addrs xs → a ≠ 0) as Hpos.
  { intros a (x & -> & Hx)%list_elem_of_fmap. destruct (Hitems x Hx). lia. }
  destruct (expand_loop_run root fr hd ta xs H t bs lg p ideal ltac:(lia) Hideal Hroom Hpos chains Hbk
    Hperm Hnum (Z.to_nat (2 ^ lg)) 0 H (replicate (Z.to_nat (2 * 2 ^ lg)) no_bucket)
    (replicate (Z.to_nat (2 * 2 ^ lg)) []) 0 m2)
    as (H' & bs' & chains' & ni & m3 & Hrun3 & [Hm3 Hok3 Hlen3 Hst3 _ _ _] & Hp3);
    [by eapply umem_nodup|lia|done|by rewrite concat_replicate_nil|].
  run_to Hrun3. run_to (load_table_run root fr _ _ _ _ _ _ _ _ Hm3). cbn [buckets set_ideal].
  apply umem_swap_arrays in Hm3. destruct (free_array root fr _ _ _ _ _ _ _ _ Hm3) as (m4 & Hrun4 & Hm4).
  run_to Hrun4. clear Hrun3 Hrun4 Hm3.
  do 3 run_table Hm4.
  match type of Hm4 with umem _ _ _ [(_, ?t')] _ _ _ ?m' => exists t', bs', chains', H', m' end.
  split; [reflexivity|]. split; [exact Hm4|].
  split; cbn [num_items tail hho log2_num_buckets num_buckets set_buckets set_expands set_ideal]; try done.
  - by apply (linked_stat H).
  - intros x Hx. apply (item_ok_stat _ H); [done|]. by apply Hitems.
  - rewrite Hlog, u32_small; lia.
  - lia.
  - rewrite Hnum, u32_small; lia.
  - by rewrite Hp3.
Qed.
End alloc.
