(* ===== verification/UtAdd.v ===== *)
(** * UtAdd: insertion into a uthash table

    A new element is allocated, appended to the insertion-order list (with a
    new table when it is the first) and pushed into its bucket, which may
    expand the array.  [appended] is the state between the last two steps. *)

From S2P Require Import Prelude.
From S2P Require Import Own.
From S2P Require Import Heap.
From S2P Require Import UtHash.
From S2P Require Import UtMem.
From S2P Require Import UtTable.
From S2P Require Import UtExpand.

Implicit Types (H : Z → UT_hash_handle) (xs : list item) (x y : item) (c : list Z).
Implicit Types (bs : list UT_hash_bucket) (t : UT_hash_table) (chains : list (list Z)) (m : uheap).

(** ** What the invariant reads of a handle *)

Definition reg (h : UT_hash_handle) := (tbl h, key h, keylen h, hashv h).
Definition links (h : UT_hash_handle) := (hh_prev h, hh_next h, hashv h).
Definition order (h : UT_hash_handle) := (prev h, next h).

Lemma item_ok_ext ta H H' y :
  reg (H' (it_at y)) = reg (H (it_at y)) → item_ok ta H y → item_ok ta H' y.
Proof. unfold item_ok, registered, reg. by intros [= -> -> -> ->]. Qed.

Lemma order_ext H H' c :
  (∀ a, a ∈ c → order (H' a) = order (H a)) →
  linked (prevs H) (nexts H) c → linked (prevs H') (nexts H') c.
Proof. intros He. apply linked_ext. intros a Ha. specialize (He a Ha). by injection He as -> ->. Qed.

Lemma buckets_ok_ext H H' bs chains :
  (∀ a, a ∈ concat chains → links (H' a) = links (H a)) →
  buckets_ok H bs chains → buckets_ok H' bs chains.
Proof.
  intros He [Hlen Hok]. split; [done|]. intros i b c Hb Hc. destruct (Hok i b c Hb Hc) as (Hhd & Hcnt & Hl & Hin).
  assert (∀ a, a ∈ c → hh_prev (H' a) = hh_prev (H a) ∧ hh_next (H' a) = hh_next (H a) ∧
    hashv (H' a) = hashv (H a)) as He'.
  { intros a Ha. specialize (He a (in_chain _ _ _ _ Hc Ha)). by injection He as -> -> ->. }
  split_and!; [done..| |].
  - apply (linked_ext (hh_prevs H) (hh_nexts H)); [|done]. intros a Ha.
    by destruct (He' a Ha) as (-> & -> & _).
  - intros a Ha. destruct (He' a Ha) as (_ & _ & ->). by apply Hin.
Qed.

Lemma urepr_intro root fr xs ta t bs chains lg H m :
  umem root fr (hd0 (addrs xs)) [(ta, t)] [(buckets t, bs)] H xs m → xs ≠ [] →
  table_ok H xs ta t bs chains lg → urepr root fr xs lg m.
Proof. destruct xs as [|x xs]; [done|]. intros. by econstructor. Qed.

Lemma table_ok_ext H H' xs ta t bs chains lg :
  (∀ a, a ∈ addrs xs → H' a = H a) → table_ok H xs ta t bs chains lg → table_ok H' xs ta t bs chains lg.
Proof.
  intros He [Hlist Hitems Hkeys Hcount Hroom Htail Hhho Hlog Hlg Hnum Hlen Hbk Hperm]. split; try done.
  - apply (order_ext H); [|done]. intros a Ha. by rewrite He.
  - intros y Hy. apply (item_ok_ext _ H); [|by apply Hitems].
    by rewrite He by by apply (list_elem_of_fmap_2 it_at).
  - apply (buckets_ok_ext H); [|done]. intros a Ha. by rewrite He by by rewrite <-Hperm.
Qed.

(** A table whose list has the new last element [x], which is in no bucket. *)
Record appended H xs x (ta : Z) t bs chains (lg : Z) : Prop := {
  ap_list : linked (prevs H) (nexts H) (addrs (xs ++ [x]));
  ap_items : ∀ y, y ∈ xs → item_ok ta H y;
  ap_head : tbl (H (hd0 (addrs (xs ++ [x])))) = ta;
  ap_key : key (H (it_at x)) = it_at x + SIZEOF_HASH_ENTRY;
  ap_keylen : keylen (H (it_at x)) = Z.of_nat (length (it_key x));
  ap_count : num_items t = Z.of_nat (length xs);
  ap_tail : tail t = it_at x;
  ap_hho : hho t = 0;
  ap_log : log2_num_buckets t = lg;
  ap_lg : 0 ≤ lg ≤ 31;
  ap_num : num_buckets t = 2 ^ lg;
  ap_len : Z.of_nat (length bs) = 2 ^ lg;
  ap_buckets : buckets_ok H bs chains;
  ap_perm : concat chains ≡ₚ addrs xs;
}.

(** The fields of the new element that are set before. *)
Definition keyed H x : Prop :=
  next (H (it_at x)) = 0 ∧ key (H (it_at x)) = it_at x + SIZEOF_HASH_ENTRY ∧
  keylen (H (it_at x)) = Z.of_nat (length (it_key x)).

(** An allocated block joins the frame. *)
Lemma urepr_frame_insert root fr xs lg m a (b : ublock) :
  m !! a = None → urepr root fr xs lg m → urepr root (<[a := b]> fr) xs lg (<[a := b]> m).
Proof.
  intros Ha Hr. destruct Hr as [H m Hm|x xs ta t bs chains lg H m Hm Hok].
  - apply (urepr_nil _ _ H). unfold umem in *. by apply owns_frame_insert.
  - eapply (urepr_cons _ _ x xs ta t bs chains); [|exact Hok]. unfold umem in *. by apply owns_frame_insert.
Qed.

(** An element of the frame joins the elements. *)
Lemma umem_take root fr hd tabs arrs H xs m a h v k :
  fr !! a = None → umem root (<[a := BEntry h v (cstr k)]> fr) hd tabs arrs H xs m →
  a ∉ addrs xs ∧ umem root fr hd tabs arrs (upd H a (λ _, h)) (xs ++ [Item a k v]) m.
Proof.
  intros Ha Hm. assert (a ∉ addrs xs) as Hnin.
  { intros (x & -> & Hx)%list_elem_of_fmap. destruct Hm as (_ & Hfr & _). specialize (Hfr (it_at x)).
    rewrite lookup_insert_eq in Hfr. discriminate Hfr. unfold ucells. cbn. rewrite !fmap_app.
    apply elem_of_cons. right. apply elem_of_app. right. apply elem_of_app. right. rewrite <-list_fmap_compose.
    by apply (list_elem_of_fmap_2 (fst ∘ item_cell H)). }
  split; [done|]. apply owns_from_frame in Hm; [|done].
  unfold umem. rewrite ucells_item, app_nil_r. unfold item_cell. cbn. rewrite upd_eq.
  refine (owns_perm _ _ _ _ _ Hm). apply perm_skip. unfold ucells. rewrite (item_cells_ext H (upd H a _)); [done|].
  intros b Hb. apply upd_ne. by intros ->.
Qed.

Section add.
Context {A : Allocator ublock} {Hspec : AllocSpec A} {Htotal : AllocTotal A}.
Context (root : Z) (fr : uheap).

(** ** A new element *)

Lemma ut_make_entry_run m k v :
  ukey k → ∃ a, make_entry (cstr k) v m = Done (a, <[a := BEntry garbage_handle v (cstr k)]> m) ∧ 0 < a ∧ m !! a = None.
Proof.
  intros [Hk Hlen]. unfold make_entry, uthash_malloc. rewrite strlen_cstr by done.
  rewrite (bind_done _ _ m _ m (lift_done _ _)), s32_small by lia.
  destruct (alloc_total m (u64 (SIZEOF_HASH_ENTRY + Z.of_nat (length k) + 1))) as [a Ha].
  erewrite bind_done by by rewrite Ha. pose proof (alloc_pos _ _ _ Ha). pose proof (alloc_fresh _ _ _ Ha) as Hf.
  destruct (Z.eqb_spec a 0); [lia|]. unfold strcpy. rewrite buf_take_cstr by done.
  rewrite (bind_done _ _ _ _ _ (lift_done _ _)).
  do 2 rewrite (bind_done _ _ _ _ _ eq_refl). rewrite insert_insert_eq. by exists a.
Qed.

(** ** Into the bucket *)

Lemma HASH_ADD_TO_BKT_run hd H xs x ta t bs chains lg i m :
  umem root fr hd [(ta, t)] [(buckets t, bs)] H xs m →
  x ∈ xs → it_at x ∉ concat chains → (∀ a, a ∈ concat chains → a ∈ addrs xs ∧ a ≠ 0) →
  tbl (H (it_at x)) = ta → NoDup (concat chains) → buckets_ok H bs chains →
  Z.land (hashv (H (it_at x))) (Z.of_nat (length bs) - 1) = Z.of_nat i → (i < length bs)%nat →
  Z.of_nat (length xs) < 2 ^ 31 → lg < 31 →
  (∀ H' bs' chains', (∀ a, stat (H' a) = stat (H a)) → length bs' = length bs →
    buckets_ok H' bs' chains' → concat chains' ≡ₚ it_at x :: concat chains →
    table_ok H' xs ta t bs' chains' lg) →
  ∃ t' bs' chains' H' lg' m', HASH_ADD_TO_BKT (buckets t) (Z.of_nat i) (it_at x) m = Done (Some tt, m') ∧
    umem root fr hd [(ta, t')] [(buckets t', bs')] H' xs m' ∧ table_ok H' xs ta t' bs' chains' lg' ∧
    lg ≤ lg' ≤ lg + 1.
Proof.
  intros Hm Hx Hnin Hin Htbl Hnd Hbk Hidx Hi Hroom Hlg Hok. unfold HASH_ADD_TO_BKT.
  pose proof (list_elem_of_fmap_2 it_at _ _ Hx) as Ha. pose proof Hbk as [Hlen Hbk'].
  destruct (lookup_lt_is_Some_2 bs i Hi) as [b Hb].
  destruct (lookup_lt_is_Some_2 chains i) as [c Hc]; [by rewrite <-Hlen|].
  destruct (Hbk' i b c Hb Hc) as (Hhd & Hcnt & _).
  assert (∀ b, b ∈ c → b ∈ addrs xs ∧ b ≠ 0) as Hcin by (intros; by eapply Hin, in_chain).
  assert (it_at x ∉ c) as Hac by (intros Hac; apply Hnin; by eapply in_chain).
  run_to (load_bucket_run root fr _ _ _ _ _ _ _ bs i b Hm (list_elem_of_here _ _) Hb).
  assert (u32 (count b + 1) = Z.of_nat (length (it_at x :: c))) as Hu.
  { pose proof (chain_length c xs (chain_nodup _ _ _ Hnd Hc) (λ b Hb, proj1 (Hcin b Hb))).
    rewrite Hcnt, u32_small; cbn [length]; lia. }
  rewrite Hu. set (n := Z.of_nat (length (it_at x :: c))) in *.
  destruct (store_bucket_run root fr _ _ _ _ _ _ _ _ i (Bucket (hh_head b) n (expand_mult b)) Hm Hi)
    as (m1 & Hrun1 & Hm1). run_to Hrun1.
  destruct (modify_item root fr _ _ _ _ _ _ _ (set_hh_next (hh_head b)) Hm1 Ha) as (m2 & Hrun2 & Hm2).
  run_to Hrun2.
  destruct (modify_item root fr _ _ _ _ _ _ _ (set_hh_prev 0) Hm2 Ha) as (m3 & Hrun3 & Hm3). run_to Hrun3.
  destruct (push_run root fr _ _ _ H _ _ _ _ c Hm3 Hac Hcin) as (H' & m4 & Hrun4 & Hm4 & Hp);
    [by rewrite !upd_eq, Hhd|intros; by rewrite !upd_ne|].
  rewrite Hhd in Hm4 |- *. run_to Hrun4. clear Hrun1 Hrun2 Hrun3 Hrun4 Hm1 Hm2 Hm3.
  assert (∀ b', <[i := b']> bs !! i = Some b') as Hbi by (intros; by apply list_lookup_insert_eq).
  run_to (load_bucket_run root fr _ _ _ _ _ _ _ _ i _ Hm4 (list_elem_of_here _ _) (Hbi _)).
  cbn [hh_head count expand_mult].
  destruct (store_bucket_run root fr _ _ _ _ _ _ _ _ i (Bucket (it_at x) n (expand_mult b)) Hm4)
    as (m5 & Hrun5 & Hm5); [by rewrite length_insert|].
  rewrite list_insert_insert_eq in Hm5. run_to Hrun5.
  pose proof (pushed_stat _ _ _ _ (it_at x) Hp) as (_ & _ & Htbl' & _)%stat_eq.
  run_to (load_hh_item root fr _ _ _ _ _ _ _ Hm5 Ha). rewrite Htbl', Htbl.
  run_to (load_table_run root fr _ _ _ _ _ _ _ _ Hm5).
  assert (table_ok H' xs ta t (<[i := Bucket (it_at x) n (expand_mult b)]> bs)
    (<[i := it_at x :: c]> chains) lg) as Hok'.
  { apply Hok; [intros; by eapply pushed_stat|by rewrite length_insert| |by apply concat_push].
    by eapply push_ok. }
  destruct (_ && _).
  - destruct (HASH_EXPAND_BUCKETS_run root fr _ _ _ _ _ _ _ _ _ Hm5 Hok' Hlg)
      as (t' & bs' & chains' & H2 & m6 & Hrun6 & Hm6 & Hok6); [by intros ->; apply elem_of_nil in Hx|].
    exists t', bs', chains', H2, (lg + 1), m6. split_and!; (done || lia).
  - eexists t, _, _, H', lg, m5. split_and!; (done || lia).
Qed.

(** ** At the end of the list *)

Lemma append_new H x m :
  umem root fr 0 [] [] H [x] m → keyed H x → it_at x ≠ 0 →
  ∃ ta t bs chains H' m', append root (it_at x) m = Done (Some tt, m') ∧
    umem root fr (it_at x) [(ta, t)] [(buckets t, bs)] H' [x] m' ∧ appended H' [] x ta t bs chains 5.
Proof.
  intros Hm (Hnext & Hkey & Hlen) Hne. unfold append. run_to (load_head_run root fr _ _ _ _ _ _ Hm).
  cbn [Z.eqb]. destruct (store_head_run root fr _ (it_at x) _ _ _ _ _ Hm) as (m1 & Hrun1 & Hm1). run_to Hrun1.
  assert (it_at x ∈ addrs [x]) as Hx by by apply elem_of_cons; left.
  destruct (modify_item root fr _ _ _ _ _ _ _ (set_prev 0) Hm1 Hx) as (m2 & Hrun2 & Hm2). run_to Hrun2.
  unfold HASH_MAKE_TABLE, uthash_malloc at 1. rewrite Z.add_0_r.
  destruct (alloc_total m2 SIZEOF_UT_hash_table) as [ta Hta]. erewrite bind_done by by rewrite Hta.
  pose proof (alloc_pos _ _ _ Hta). apply (owns_alloc _ _ _ ta (BTable garbage_table)) in Hm2;
    [|by eapply alloc_fresh]. rewrite <-ucells_table in Hm2.
  destruct (modify_item root fr _ _ _ _ _ _ _ (set_tbl ta) Hm2 Hx) as (m3 & Hrun3 & Hm3). run_to Hrun3.
  destruct (Z.eqb_spec ta 0); [lia|]. run_table Hm3.
  destruct (new_buckets_run root fr _ _ _ _ _ HASH_INITIAL_NUM_BUCKETS _ Hm3)
    as (p & m4 & Hrun4 & Hp & Hm4). run_to Hrun4. cbn iota. do 2 run_table Hm4.
  match type of Hm4 with umem _ _ _ [(_, ?t)] [(_, ?bs)] ?H' _ ?m' =>
    exists ta, t, bs, (replicate (Z.to_nat HASH_INITIAL_NUM_BUCKETS) []), H', m' end.
  split; [done|]. split; [exact Hm4|]. split; try done.
  - apply (linked_snoc (prevs H) (nexts H)) with (l := []); try done.
    + by apply NoDup_singleton.
    + by apply linked_nil.
    + cbn. by rewrite !upd_eq.
    + cbn. by rewrite !upd_eq.
    + by intros a ?%elem_of_nil.
    + by intros a ?%elem_of_nil.
  - by intros y ?%elem_of_nil.
  - cbn. by rewrite upd_eq.
  - by rewrite !upd_eq.
  - by rewrite !upd_eq.
  - by apply empty_buckets_ok.
Qed.

Lemma append_old H xs x ta t bs chains lg m :
  umem root fr (hd0 (addrs xs)) [(ta, t)] [(buckets t, bs)] H (xs ++ [x]) m → xs ≠ [] →
  table_ok H xs ta t bs chains lg → keyed H x →
  ∃ t' H' m', append root (it_at x) m = Done (Some tt, m') ∧
    umem root fr (hd0 (addrs (xs ++ [x]))) [(ta, t')] [(buckets t', bs)] H' (xs ++ [x]) m' ∧
    appended H' xs x ta t' bs chains lg.
Proof.
  intros Hm Hne Hok (Hnext & Hkey & Hklen). pose proof (umem_nodup _ _ _ _ _ _ _ _ Hm) as Hnd.
  destruct Hok as [Hlist Hitems Hkeys Hcount Hroom Htail Hhho Hlog Hlg Hnum Hlen Hbk Hperm].
  assert (∃ x0, x0 ∈ xs ∧ hd0 (addrs xs) = it_at x0 ∧ hd0 (addrs (xs ++ [x])) = it_at x0) as (x0 & Hx0 & Hhd & Hhd').
  { destruct xs as [|x0 xs]; [done|]. exists x0. split; [by apply elem_of_cons; left|done]. }
  assert (∃ xl, xl ∈ xs ∧ last (addrs xs) = Some (it_at xl)) as (xl & Hxl & Hlast).
  { destruct (exists_last Hne) as (xs' & xl & ->). exists xl. split; [in_list|].
    rewrite fmap_app. apply last_snoc. }
  assert (tail t = it_at xl) as Htl by (rewrite Htail; unfold last0; by rewrite Hlast).
  rewrite fmap_app in Hnd. cbn in Hnd.
  assert (∀ y, y ∈ xs → it_at y ≠ it_at x) as Hdis.
  { intros y Hy Heq. apply NoDup_app in Hnd as (_ & Hdis & _). apply (Hdis (it_at y)).
    - by apply (list_elem_of_fmap_2 it_at).
    - rewrite Heq. by apply elem_of_cons; left. }
  assert (∀ a, a ∈ addrs xs → a ≠ it_at x) as Hdis'.
  { intros a (y & -> & Hy)%list_elem_of_fmap. by apply Hdis. }
  assert (∀ y, y ∈ xs ∨ y = x → it_at y ∈ addrs (xs ++ [x])) as Hin.
  { intros y Hy. apply (list_elem_of_fmap_2 it_at), elem_of_app. destruct Hy as [Hy | ->]; [by left|].
    right. by apply elem_of_cons; left. }
  destruct (Hitems x0 Hx0) as (Hpos0 & _ & Htbl0 & _).
  unfold append. run_to (load_head_run root fr _ _ _ _ _ _ Hm). rewrite Hhd in Hm |- *.
  destruct (Z.eqb_spec (it_at x0) 0); [lia|].
  run_to (head_table_run root fr _ _ _ _ _ _ Hm (Hin x0 (or_introl Hx0))). rewrite Htbl0.
  run_to (load_table_run root fr _ _ _ _ _ _ _ _ Hm). unfold ELMT_FROM_HH. rewrite Hhho, Z.sub_0_r, Htl.
  destruct (modify_item root fr _ _ _ _ _ _ _ (set_next (it_at x)) Hm (Hin xl (or_introl Hxl)))
    as (m1 & Hrun1 & Hm1). run_to Hrun1.
  destruct (modify_item root fr _ _ _ _ _ _ _ (set_prev (it_at xl)) Hm1 (Hin x (or_intror eq_refl)))
    as (m2 & Hrun2 & Hm2). run_to Hrun2. run_table Hm2.
  match type of Hm2 with umem _ _ _ [(_, ?t)] _ ?H' _ ?m' => exists t, H', m' end.
  split; [done|]. split; [rewrite Hhd'; exact Hm2|].
  split; cbn [tail num_items hho log2_num_buckets num_buckets set_tail]; try done.
  - rewrite fmap_app. apply (linked_snoc (prevs H) (nexts H)); try done.
    + rewrite upd_eq. cbn. unfold last0. by rewrite Hlast.
    + rewrite upd_eq. cbn. rewrite upd_ne by (apply not_eq_sym; auto). done.
    + intros y Hy. rewrite Hlast in Hy. injection Hy as <-. rewrite upd_ne by auto. by rewrite upd_eq.
    + intros a Ha. rewrite upd_ne by auto. by rewrite (upd_field prev).
    + intros a Ha Hl. rewrite upd_ne by auto. rewrite upd_ne; [done|]. intros ->. by apply Hl.
  - intros y Hy. apply (item_ok_ext _ H); [|by apply Hitems]. by rewrite !(upd_field reg).
  - rewrite Hhd'. by rewrite !(upd_field tbl).
  - by rewrite !(upd_field key).
  - by rewrite !(upd_field keylen).
  - lia.
  - apply (buckets_ok_ext H); [|done]. intros a _. by rewrite !(upd_field links).
Qed.

(** ** The whole insertion *)

(** Counting, hashing and pushing the element that was appended. *)
Definition enter (bytes : list Z) (len a : Z) : cmd uheap (option unit) :=
  ta ← head_table root;
  _ ← modify_table ta (λ t, set_num_items (u32 (num_items t + 1)) t);
  _ ← modify_hh a (set_tbl ta);
  t ← load_table ta;
  hb ← lift (HASH_JEN bytes len (num_buckets t));
  _ ← modify_hh a (set_hashv hb.1);
  HASH_ADD_TO_BKT (buckets t) hb.2 (a + hho t).

Lemma ut_enter_run H xs x ta t bs chains lg m :
  umem root fr (hd0 (addrs (xs ++ [x]))) [(ta, t)] [(buckets t, bs)] H (xs ++ [x]) m →
  appended H xs x ta t bs chains lg → 0 < it_at x → ukey (it_key x) → NoDup (it_key <$> xs ++ [x]) →
  Z.of_nat (length (xs ++ [x])) < 2 ^ 31 → lg < 31 →
  ∃ lg' m', enter (cstr (it_key x)) (Z.of_nat (length (it_key x))) (it_at x) m = Done (Some tt, m') ∧
    urepr root fr (xs ++ [x]) lg' m' ∧ lg ≤ lg' ≤ lg + 1.
Proof.
  intros Hm [Hlist Hitems Hhead Hkey Hklen Hcount Htail Hhho Hlog Hlg Hnum Hlen Hbk Hperm]
    Hpos Hk Hkeys Hroom Hlt.
  pose proof (umem_nodup _ _ _ _ _ _ _ _ Hm) as Hnd. assert (x ∈ xs ++ [x]) as Hx by in_list.
  pose proof (list_elem_of_fmap_2 it_at _ _ Hx) as Ha.
  assert (∀ a, a ∈ addrs xs → a ≠ it_at x) as Hdis.
  { intros a Hin ->. rewrite fmap_app in Hnd. apply NoDup_app in Hnd as (_ & Hdis & _).
    apply (Hdis _ Hin). by apply elem_of_cons; left. }
  assert (NoDup (addrs xs)) as Hnd1 by (rewrite fmap_app in Hnd; by apply NoDup_app in Hnd as (? & _)).
  unfold enter.
  assert (hd0 (addrs (xs ++ [x])) ∈ addrs (xs ++ [x])) as Hhd by (destruct xs; apply elem_of_cons; by left).
  run_to (head_table_run root fr _ _ _ _ _ _ Hm Hhd). rewrite Hhead. run_table Hm.
  destruct (modify_item root fr _ _ _ _ _ _ _ (set_tbl ta) Hm Ha) as (m1 & Hrun1 & Hm1). run_to Hrun1.
  run_to (load_table_run root fr _ _ _ _ _ _ _ _ Hm1). cbn [num_buckets buckets hho set_num_items].
  rewrite HASH_JEN_run, Hnum, u32_mask by (done || lia). run_to @lift_done. cbn [fst snd].
  destruct (modify_item root fr _ _ _ _ _ _ _ (set_hashv (jen (it_key x))) Hm1 Ha) as (m2 & Hrun2 & Hm2).
  run_to Hrun2. rewrite Hhho, Z.add_0_r. set (H' := upd (upd H _ _) _ _) in Hm2.
  assert (H' (it_at x) = set_hashv (jen (it_key x)) (set_tbl ta (H (it_at x)))) as Hx'
    by (unfold H'; by rewrite !upd_eq).
  assert (∀ a, a ≠ it_at x → H' a = H a) as Hne by (intros; unfold H'; by rewrite !upd_ne).
  assert (∀ a, a ∈ concat chains → a ∈ addrs xs) as Hch by (intros a; by rewrite Hperm).
  destruct (bucket_index bs (jen (it_key x)) lg) as (i & b & Hi & Hb); [lia|done|]. rewrite Hi.
  destruct (HASH_ADD_TO_BKT_run _ H' _ x _ _ bs chains lg i m2 Hm2 Hx)
    as (t' & bs' & chains' & H2 & lg' & m3 & Hrun3 & Hm3 & Hok3 & Hlg3).
  - intros Hin. by apply (Hdis (it_at x)); [apply Hch|].
  - intros a Hin%Hch. split; [rewrite fmap_app; by apply elem_of_app; left|].
    apply list_elem_of_fmap in Hin as (y & -> & Hy). destruct (Hitems y Hy). lia.
  - by rewrite Hx'.
  - by rewrite Hperm.
  - apply (buckets_ok_ext H); [|done]. intros a Hin%Hch. by rewrite Hne by auto.
  - rewrite Hx', Hlen. done.
  - by eapply lookup_lt_Some.
  - done.
  - done.
  - intros H2 bs2 chains2 Hst Hlen2 Hbk2 Hp2. split; try done.
    + apply (linked_stat H'); [done|]. apply (order_ext H); [|done].
      intros a _. unfold H'. by rewrite !(upd_field order).
    + intros y Hy. apply (item_ok_stat _ H'); [done|]. apply elem_of_app in Hy as [Hy|Hy].
      * apply (item_ok_ext _ H); [|by apply Hitems]. rewrite Hne; [done|].
        apply Hdis. by apply (list_elem_of_fmap_2 it_at).
      * apply list_elem_of_singleton in Hy as ->. unfold item_ok, registered. rewrite Hx'. done.
    + cbn. rewrite Hcount. rewrite length_app in Hroom |- *. cbn [length] in *. rewrite u32_small; lia.
    + cbn. rewrite Htail, fmap_app. symmetry. apply last0_snoc.
    + lia.
    + rewrite Hp2, Hperm, fmap_app. cbn. by rewrite <-Permutation_cons_append.
  - exists lg', m3. split; [exact Hrun3|]. split; [|done]. eapply urepr_intro; [exact Hm3|by destruct xs|done].
Qed.

Lemma HASH_ADD_STR_run hd tabs arrs H xs x lg m :
  umem root fr hd tabs arrs H (xs ++ [x]) m → ukey (it_key x) →
  (∀ H' m', keyed H' x → (∀ a, a ≠ it_at x → H' a = H a) → umem root fr hd tabs arrs H' (xs ++ [x]) m' →
    ∃ ta t bs chains H2 m2, append root (it_at x) m' = Done (Some tt, m2) ∧
      umem root fr (hd0 (addrs (xs ++ [x]))) [(ta, t)] [(buckets t, bs)] H2 (xs ++ [x]) m2 ∧
      appended H2 xs x ta t bs chains lg) →
  ∃ ta t bs chains H2 m2,
    umem root fr (hd0 (addrs (xs ++ [x]))) [(ta, t)] [(buckets t, bs)] H2 (xs ++ [x]) m2 ∧
    appended H2 xs x ta t bs chains lg ∧
    HASH_ADD_STR root (it_at x) m =
      enter (cstr (it_key x)) (Z.of_nat (length (it_key x))) (it_at x) m2.
Proof.
  intros Hm [Hk Hlen] Happ. assert (x ∈ xs ++ [x]) as Hx by in_list.
  pose proof (list_elem_of_fmap_2 it_at _ _ Hx) as Ha.
  unfold HASH_ADD_STR. run_to (load_chars_item root fr _ _ _ _ _ _ _ Hm Hx).
  rewrite strlen_cstr by done. run_to @lift_done. unfold HASH_ADD_KEYPTR.
  destruct (modify_item root fr _ _ _ _ _ _ _ (set_next 0) Hm Ha) as (m1 & Hrun1 & Hm1). run_to Hrun1.
  rewrite u32_small by lia.
  destruct (modify_item root fr _ _ _ _ _ _ _ (set_key (it_at x + SIZEOF_HASH_ENTRY)
    (Z.of_nat (length (it_key x)))) Hm1 Ha) as (m2 & Hrun2 & Hm2). run_to Hrun2.
  eapply Happ in Hm2 as (ta & t & bs & chains & H2 & m3 & Hrun3 & Hm3 & Hap).
  - exists ta, t, bs, chains, H2, m3. split; [done|]. split; [done|]. by run_to Hrun3.
  - unfold keyed. by rewrite !upd_eq.
  - intros a Hne. by rewrite !upd_ne.
Qed.

(** An element that the caller has set up. *)
Lemma HASH_ADD_STR_new xs lg m a h v k :
  urepr root (<[a := BEntry h v (cstr k)]> fr) xs lg m → fr !! a = None → 0 < a → ukey k →
  k ∉ it_key <$> xs → Z.of_nat (length xs) < 2 ^ 31 - 1 → lg < 31 →
  ∃ lg' m', HASH_ADD_STR root a m = Done (Some tt, m') ∧
    urepr root fr (xs ++ [Item a k v]) lg' m' ∧ lg ≤ lg' ≤ lg + 1.
Proof.
  intros Hr Hfr Ha Hk Hnin Hroom Hlt.
  assert (NoDup (it_key <$> xs)) as Hkeys.
  { destruct Hr as [|x xs ta t bs chains lg H m Hm Hok]; [by apply NoDup_nil_2|by apply (tb_keys _ _ _ _ _ _ _ Hok)]. }
  assert (∃ ta t bs chains H2 m2,
      umem root fr (hd0 (addrs (xs ++ [Item a k v]))) [(ta, t)] [(buckets t, bs)] H2 (xs ++ [Item a k v]) m2 ∧
      appended H2 xs (Item a k v) ta t bs chains lg ∧
      HASH_ADD_STR root a m = enter (cstr k) (Z.of_nat (length k)) a m2)
    as (ta & t & bs & chains & H2 & m2 & Hm2 & Hap & Hadd).
  { destruct Hr as [H m Hm|x xs ta t bs chains lg H m Hm Hok]; apply umem_take in Hm as [Hfresh Hm]; try done.
    - apply (HASH_ADD_STR_run _ _ _ _ [] (Item a k v) 5 m Hm Hk).
      intros H' m' Hkd _ Hm'. eapply append_new; [exact Hm'|done|cbn; lia].
    - apply (HASH_ADD_STR_run _ _ _ _ (x :: xs) (Item a k v) lg m Hm Hk).
      intros H' m' Hkd He Hm'. destruct (append_old H' (x :: xs) (Item a k v) ta t bs chains lg m')
        as (t' & H2 & m2 & Hrun2 & Hm2 & Hap); [done|done| |done|by exists ta, t', bs, chains, H2, m2].
      apply (table_ok_ext H); [|done]. intros b Hb. rewrite He; [|intros ->; by apply Hfresh].
      apply upd_ne. by intros ->. }
  destruct (ut_enter_run H2 xs (Item a k v) ta t bs chains lg m2) as (lg' & m3 & Hrun3 & Hr3 & Hlg3); try done.
  - rewrite fmap_app. apply NoDup_app. split; [done|]. split; [|by apply NoDup_singleton].
    by intros k' Hk' ->%list_elem_of_singleton.
  - rewrite length_app. cbn [length]. lia.
  - exists lg', m3. split; [|done]. by rewrite Hadd.
Qed.

Lemma add_new_run xs lg m k v :
  urepr root fr xs lg m → ukey k → k ∉ it_key <$> xs → Z.of_nat (length xs) < 2 ^ 31 - 1 → lg < 31 →
  ∃ a lg' m', add root (cstr k) v m = Done (Some 0, m') ∧ 0 < a ∧
    urepr root fr (xs ++ [Item a k v]) lg' m' ∧ lg ≤ lg' ≤ lg + 1.
Proof.
  intros Hr Hk Hnin Hroom Hlt. unfold add.
  assert (load_head root m = Done (hd0 (addrs xs), m)) as Hhead.
  { destruct Hr; by eapply load_head_run. }
  run_to Hhead. run_to (HASH_FIND_STR_run root fr _ _ _ _ Hr Hk).
  rewrite find_item_None by done. cbn [Z.eqb negb].
  destruct (ut_make_entry_run m k v Hk) as (a & Hmake & Ha & Hfresh). run_to Hmake.
  assert (fr !! a = None) as Hfr.
  { destruct (fr !! a) eqn:E; [|done]. destruct Hr as [H m Hm|x xs ta t bs chains lg H m Hm Hok];
      by rewrite (owns_frame _ _ _ _ _ Hm E) in Hfresh. }
  pose proof (urepr_frame_insert root fr xs lg m a (BEntry garbage_handle v (cstr k)) Hfresh Hr) as Hr1.
  destruct (HASH_ADD_STR_new xs lg _ a garbage_handle v k Hr1 Hfr Ha Hk Hnin Hroom Hlt) as (lg' & m' & Hrun & Hr').
  exists a, lg', m'. split; [|done]. by run_to Hrun.
Qed.
End add.
