(* ===== verification/UtDelete.v ===== *)
(** * UtDelete: removal from a uthash table

    HASH_DELETE takes an element out of the insertion-order list and out of
    its chain, both doubly linked ([unlink], [linked_unlink]); the element
    itself is left to the caller, i.e. its block goes to the frame.  With the
    last element the table is freed.

    Then the functions of uthash.c on a represented table: [init], a second
    [add] of a key, [find] and [del] (which invert the test of the lookup), and
    [clear], whose loop deletes the head until the table is gone; the elements
    it takes out are left in the frame ([left_over]). *)

From S2P Require Import Prelude.
From S2P Require Import Own.
From S2P Require Import Heap.
From S2P Require Import UtHash.
From S2P Require Import UtMem.
From S2P Require Import UtTable.
From S2P Require Import UtExpand.
From S2P Require Import UtAdd.

Implicit Types (H : Z → UT_hash_handle) (xs : list item) (x : item) (c : list Z).
Implicit Types (bs : list UT_hash_bucket) (t : UT_hash_table) (chains : list (list Z)) (m : uheap).

(** ** Taking an element out of a doubly linked list *)

Definition upd_opt H (o : option Z) f : Z → UT_hash_handle :=
  match o with Some y => upd H y f | None => H end.

Lemma upd_opt_ne H o f b : o ≠ Some b → upd_opt H o f b = H b.
Proof. intros Hne. destruct o as [y|]; [|done]. apply upd_ne. by intros ->. Qed.

Lemma upd_opt_field {T} (p : UT_hash_handle → T) H o f b :
  (∀ h, p (f h) = p h) → p (upd_opt H o f b) = p (H b).
Proof. intros Hp. destruct o; [by apply upd_field|done]. Qed.

(** The neighbours of an element between [l1] and [l2] are linked to each
    other by the stores [sp] and [sn]. *)
Definition unlink (sp sn : Z → UT_hash_handle → UT_hash_handle) H l1 l2 : Z → UT_hash_handle :=
  upd_opt (upd_opt H (last l1) (sn (hd0 l2))) (head l2) (sp (last0 l1)).

Lemma unlink_field {T} (p : UT_hash_handle → T) sp sn H l1 l2 b :
  (∀ z h, p (sp z h) = p h) → (∀ z h, p (sn z h) = p h) → p (unlink sp sn H l1 l2 b) = p (H b).
Proof. intros. unfold unlink. by rewrite !upd_opt_field. Qed.

Lemma unlink_ne sp sn H l1 a l2 :
  NoDup (l1 ++ a :: l2) → unlink sp sn H l1 l2 a = H a.
Proof.
  intros (_ & Hdis & [Hnin _]%NoDup_cons)%NoDup_app. unfold unlink. rewrite !upd_opt_ne; [done|..].
  - intros Hl%last_Some_elem_of. apply (Hdis a Hl). in_list.
  - intros Hh%head_Some_elem_of. done.
Qed.

Lemma linked_unlink (P N : UT_hash_handle → Z) sp sn H l1 a l2 :
  (∀ z h, P (sp z h) = z) → (∀ z h, N (sn z h) = z) →
  (∀ z h, P (sn z h) = P h) → (∀ z h, N (sp z h) = N h) →
  NoDup (l1 ++ a :: l2) → linked (λ a, P (H a)) (λ a, N (H a)) (l1 ++ a :: l2) →
  linked (λ a, P (unlink sp sn H l1 l2 a)) (λ a, N (unlink sp sn H l1 l2 a)) (l1 ++ l2).
Proof.
  intros HP HN HPs HNs Hnd Hl. unfold unlink.
  apply (linked_delete (λ a, P (H a)) (λ a, N (H a)) _ _ l1 a l2 Hnd Hl).
  - intros y Hh. rewrite Hh. cbn. by rewrite upd_eq.
  - intros y Hlast. rewrite (upd_opt_field N) by done. rewrite Hlast. cbn. by rewrite upd_eq.
  - intros b _ Hh. rewrite upd_opt_ne by done. by rewrite (upd_opt_field P).
  - intros b _ Hlast. rewrite (upd_opt_field N) by done. by rewrite upd_opt_ne.
Qed.

Lemma nonempty_ends l1 a l2 :
  (∀ b, b ∈ l1 ++ a :: l2 → b ≠ 0) → (last0 l1 = 0 ↔ l1 = []) ∧ (hd0 l2 = 0 ↔ l2 = []).
Proof.
  intros Hne. split; split; try by intros ->.
  - intros H0. destruct (decide (l1 = [])) as [|Hl]; [done|exfalso].
    destruct (exists_last Hl) as (l & b & ->). rewrite last0_snoc in H0. apply (Hne b); [in_list|done].
  - intros H0. destruct l2 as [|b l2]; [done|]. exfalso. apply (Hne b); [in_list|done].
Qed.

Lemma unlink_buckets_ok H bs chains i b c1 a c2 n em :
  NoDup (concat chains) → buckets_ok H bs chains → bs !! i = Some b → chains !! i = Some (c1 ++ a :: c2) →
  n = Z.of_nat (length (c1 ++ c2)) →
  buckets_ok (unlink set_hh_prev set_hh_next H c1 c2)
    (<[i := Bucket (hd0 (c1 ++ c2)) n em]> bs) (<[i := c1 ++ c2]> chains).
Proof.
  intros Hnd [Hlen Hok] Hb Hc ->. destruct (Hok i b _ Hb Hc) as (_ & _ & Hl & Hidx).
  pose proof (chain_nodup _ _ _ Hnd Hc) as Hndc. set (H' := unlink _ _ _ _ _).
  assert (∀ b, hashv (H' b) = hashv (H b)) as Hhash by (intros; by apply unlink_field).
  split; [by rewrite !length_insert|]. rewrite length_insert. intros j b' c' Hb' Hc'.
  destruct (decide (j = i)) as [-> | Hne].
  - rewrite list_lookup_insert_eq in Hb' by by eapply lookup_lt_Some.
    rewrite list_lookup_insert_eq in Hc' by by eapply lookup_lt_Some. simplify_eq.
    split; [done|]. split; [done|]. split.
    + by apply (linked_unlink hh_prev hh_next set_hh_prev set_hh_next H c1 a c2).
    + intros b' Hb'. rewrite Hhash. apply Hidx. apply elem_of_app in Hb'. in_list.
  - rewrite list_lookup_insert_ne in Hb' by done. rewrite list_lookup_insert_ne in Hc' by done.
    destruct (Hok j b' c' Hb' Hc') as (? & ? & Hl' & Hidx'). split_and!; [done..| |].
    + apply (linked_ext (hh_prevs H) (hh_nexts H)); [|done]. intros b1 Hb1. unfold H', unlink.
      rewrite !upd_opt_ne; [done|..].
      * intros Hx%last_Some_elem_of. apply Hne. eapply concat_disjoint; [done..|]. in_list.
      * intros Hx%head_Some_elem_of. apply Hne. eapply concat_disjoint; [done..|]. in_list.
    + intros b1 Hb1. rewrite Hhash. by apply Hidx'.
Qed.

Section delete.
Context (root : Z) (fr : uheap).

Lemma modify_opt hd tabs arrs H xs m (o : option Z) f :
  umem root fr hd tabs arrs H xs m → (∀ y, o = Some y → y ∈ addrs xs ∧ y ≠ 0) →
  ∃ m', (if negb (default 0 o =? 0) then modify_hh (default 0 o) f else mret tt) m = Done (tt, m') ∧
    umem root fr hd tabs arrs (upd_opt H o f) xs m'.
Proof.
  intros Hm Ho. destruct o as [y|]; [|by exists m]. destruct (Ho y eq_refl) as [Hy Hne].
  change (default 0 (Some y)) with y.
  destruct (Z.eqb_spec y 0); [done|]. by apply modify_item.
Qed.

(** ** Out of the bucket *)

Lemma HASH_DEL_IN_BKT_run hd tabs p H xs bs chains i b c1 a c2 m :
  umem root fr hd tabs [(p, bs)] H xs m → (∀ a, a ∈ addrs xs → a ≠ 0) →
  buckets_ok H bs chains → NoDup (concat chains) → (∀ a, a ∈ concat chains → a ∈ addrs xs) →
  Z.of_nat (length xs) < 2 ^ 31 →
  bs !! i = Some b → chains !! i = Some (c1 ++ a :: c2) →
  ∃ bs' m', HASH_DEL_IN_BKT p (Z.of_nat i) a m = Done (tt, m') ∧ length bs' = length bs ∧
    let H' := unlink set_hh_prev set_hh_next H c1 c2 in
    umem root fr hd tabs [(p, bs')] H' xs m' ∧ buckets_ok H' bs' (<[i := c1 ++ c2]> chains).
Proof.
  intros Hm Hpos [Hlen Hok] Hnd Hin Hroom Hb Hc. unfold HASH_DEL_IN_BKT.
  destruct (Hok i b _ Hb Hc) as (Hhd & Hcnt & Hl & Hidx). pose proof (lookup_lt_Some _ _ _ Hb) as Hib.
  pose proof (chain_nodup _ _ _ Hnd Hc) as Hndc.
  assert (∀ b, b ∈ c1 ++ a :: c2 → b ∈ addrs xs) as Hcin by (intros; by eapply Hin, in_chain).
  assert (a ∈ addrs xs) as Ha by (apply Hcin; in_list).
  destruct (Hl c1 a c2 eq_refl) as [Hpa Hna]. cbn beta in Hpa, Hna.
  run_to (load_bucket_run root fr _ _ _ _ _ _ _ bs i b Hm (list_elem_of_here _ _) Hb).
  assert (u32 (count b - 1) = Z.of_nat (length (c1 ++ c2))) as Hu.
  { pose proof (chain_length _ xs Hndc Hcin) as Hle. rewrite Hcnt. rewrite length_app in Hle |- *.
    rewrite length_app. cbn [length] in *. rewrite u32_small; lia. }
  rewrite Hu. set (n := Z.of_nat (length (c1 ++ c2))).
  destruct (store_bucket_run root fr _ _ _ _ _ _ _ _ i (Bucket (hh_head b) n (expand_mult b)) Hm Hib)
    as (m1 & Hrun1 & Hm1). run_to Hrun1.
  run_to (load_hh_item root fr _ _ _ _ _ _ _ Hm1 Ha).
  assert (∀ b', <[i := b']> bs !! i = Some b') as Hbi by (intros; by apply list_lookup_insert_eq).
  run_to (load_bucket_run root fr _ _ _ _ _ _ _ _ i _ Hm1 (list_elem_of_here _ _) (Hbi _)).
  cbn [hh_head count expand_mult].
  assert (∃ m2, (if hh_head b =? a then store_bucket p (Z.of_nat i) (Bucket (hh_next (H a)) n (expand_mult b))
      else mret tt) m1 = Done (tt, m2) ∧
    umem root fr hd tabs [(p, <[i := Bucket (hd0 (c1 ++ c2)) n (expand_mult b)]> bs)] H xs m2)
    as (m2 & Hrun2 & Hm2).
  { rewrite Hhd, Hna. destruct (Z.eqb_spec (hd0 (c1 ++ a :: c2)) a) as [Heq|Hne].
    - destruct c1 as [|b1 c1]; [|exfalso; cbn in Heq, Hndc; subst b1; apply NoDup_cons in Hndc as [Hn _];
        apply Hn; in_list].
      destruct (store_bucket_run root fr _ _ _ _ _ _ _ _ i (Bucket (hd0 c2) n (expand_mult b)) Hm1)
        as (m2 & Hrun2 & Hm2); [by rewrite length_insert|].
      exists m2. split; [done|]. by rewrite list_insert_insert_eq in Hm2.
    - exists m1. split; [done|]. destruct c1 as [|b1 c1]; [done|]. by rewrite Hhd in Hm1. }
  run_to Hrun2. clear Hrun1 Hrun2 Hm1.
  destruct (modify_opt _ _ _ _ _ _ (last c1) (set_hh_next (hh_next (H a))) Hm2) as (m3 & Hrun3 & Hm3).
  { intros y Hy%last_Some_elem_of. assert (y ∈ addrs xs) by (apply Hcin; in_list). auto. }
  fold (last0 c1) in Hrun3. rewrite Hpa. run_to Hrun3.
  run_to (load_hh_item root fr _ _ _ _ _ _ _ Hm3 Ha).
  assert (upd_opt H (last c1) (set_hh_next (hh_next (H a))) a = H a) as ->.
  { apply upd_opt_ne. intros Hla%last_Some_elem_of. apply NoDup_app in Hndc as (_ & Hdis & _).
    apply (Hdis a Hla). in_list. }
  destruct (modify_opt _ _ _ _ _ _ (head c2) (set_hh_prev (hh_prev (H a))) Hm3) as (m4 & Hrun4 & Hm4).
  { intros y Hy%head_Some_elem_of. assert (y ∈ addrs xs) by (apply Hcin; in_list). auto. }
  fold (hd0 c2) in Hrun4. rewrite Hpa in Hrun4. rewrite Hpa, Hna in Hm4. rewrite Hpa, Hna.
  eexists _, m4. split; [exact Hrun4|]. split; [|split; [exact Hm4|]]; [by rewrite length_insert|].
  eapply (unlink_buckets_ok H bs chains); [done|by split|done..].
Qed.

(** ** Out of the list *)

(** The element is left to the frame. *)
Lemma umem_release hd tabs arrs H xs1 x xs2 m :
  umem root fr hd tabs arrs H (xs1 ++ x :: xs2) m →
  umem root (<[it_at x := BEntry (H (it_at x)) (it_val x) (cstr (it_key x))]> fr) hd tabs arrs H
    (xs1 ++ xs2) m.
Proof. unfold umem. rewrite ucells_item. apply owns_to_frame. Qed.

(** The neighbours of the element, or the head. *)
Lemma unlink_order_run hd ta t arrs H xs l1 a l2 m :
  umem root fr hd [(ta, t)] arrs H xs m → hd = hd0 (l1 ++ a :: l2) →
  addrs xs = l1 ++ a :: l2 → (∀ b, b ∈ addrs xs → b ≠ 0) →
  ∃ m1 m2,
    (if negb (last0 l1 =? 0) then modify_hh (last0 l1) (set_next (hd0 l2))
     else store_head root (hd0 l2)) m = Done (tt, m1) ∧
    load_hh a m1 = Done (H a, m1) ∧
    (if negb (hd0 l2 =? 0) then modify_hh (hd0 l2) (set_prev (last0 l1)) else mret tt) m1 = Done (tt, m2) ∧
    umem root fr (hd0 (l1 ++ l2)) [(ta, t)] arrs (unlink set_prev set_next H l1 l2) xs m2.
Proof.
  intros Hm -> Haddrs Hpos. pose proof (umem_nodup _ _ _ _ _ _ _ _ Hm) as Hnd.
  assert (a ∈ addrs xs) as Ha by (rewrite Haddrs; in_list).
  assert (∃ m1, (if negb (last0 l1 =? 0) then modify_hh (last0 l1) (set_next (hd0 l2))
     else store_head root (hd0 l2)) m = Done (tt, m1) ∧
     umem root fr (hd0 (l1 ++ l2)) [(ta, t)] arrs (upd_opt H (last l1) (set_next (hd0 l2))) xs m1)
    as (m1 & Hrun1 & Hm1).
  { destruct (nonempty_ends l1 a l2) as [Hl1 _]; [by rewrite <-Haddrs|].
    destruct (Z.eqb_spec (last0 l1) 0) as [H0|H0]; cbn [negb].
    - apply Hl1 in H0 as ->. cbn. by eapply store_head_run.
    - destruct (modify_opt _ _ _ _ _ _ (last l1) (set_next (hd0 l2)) Hm) as (m1 & Hrun1 & Hm1).
      { intros y Hy%last_Some_elem_of. split; [rewrite Haddrs; in_list|apply Hpos; rewrite Haddrs; in_list]. }
      fold (last0 l1) in Hrun1. destruct (Z.eqb_spec (last0 l1) 0); [done|]. exists m1. split; [done|].
      destruct l1; [by destruct H0|done]. }
  destruct (modify_opt _ _ _ _ _ _ (head l2) (set_prev (last0 l1)) Hm1) as (m2 & Hrun2 & Hm2).
  { intros y Hy%head_Some_elem_of. split; [rewrite Haddrs; in_list|apply Hpos; rewrite Haddrs; in_list]. }
  exists m1, m2. split; [done|]. split; [|done].
  rewrite (load_hh_item root fr _ _ _ _ _ _ _ Hm1 Ha), upd_opt_ne; [done|].
  intros Hl%last_Some_elem_of. rewrite Haddrs in Hnd. apply NoDup_app in Hnd as (_ & Hdis & _).
  apply (Hdis a Hl). in_list.
Qed.

(** The tail of the list without an element. *)
Lemma unlink_tail l1 a l2 :
  NoDup (l1 ++ a :: l2) →
  (if a =? last0 (l1 ++ a :: l2) then last0 l1 else last0 (l1 ++ a :: l2)) = last0 (l1 ++ l2).
Proof.
  intros (_ & _ & [Hnin _]%NoDup_cons)%NoDup_app. rewrite last0_app_cons.
  destruct l2 as [|b l2]; [rewrite app_nil_r; cbn; by rewrite Z.eqb_refl|].
  rewrite last0_app_cons. change (a :: b :: l2) with ([a] ++ b :: l2). rewrite last0_app_cons.
  destruct (Z.eqb_spec a (last0 (b :: l2))) as [Heq|]; [|done]. exfalso. apply Hnin.
  destruct (exists_last (l := b :: l2)) as (l & z & Hl); [done|]. rewrite Hl in Heq |- *.
  rewrite last0_snoc in Heq. subst. in_list.
Qed.

Lemma set_tail_run hd ta t arrs H xs l1 a l2 m :
  umem root fr hd [(ta, t)] arrs H xs m → hho t = 0 → tail t = last0 (l1 ++ a :: l2) →
  NoDup (l1 ++ a :: l2) →
  ∃ m', (if a =? ELMT_FROM_HH t (tail t) then modify_table ta (set_tail (last0 l1 + hho t)) else mret tt) m =
      Done (tt, m') ∧
    umem root fr hd [(ta, set_tail (last0 (l1 ++ l2)) t)] arrs H xs m'.
Proof.
  intros Hm Hho Htail Hnd%unlink_tail. unfold ELMT_FROM_HH. rewrite Hho, Z.sub_0_r, Z.add_0_r, Htail.
  destruct (Z.eqb_spec a (last0 (l1 ++ a :: l2))).
  - rewrite <-Hnd. by apply modify_table_run.
  - exists m. split; [done|]. rewrite <-Hnd, <-Htail. by destruct t.
Qed.

(** The invariant without the element. *)
Lemma table_ok_delete H H' xs1 x xs2 ta t bs bs' chains i c1 c2 lg :
  table_ok H (xs1 ++ x :: xs2) ta t bs chains lg → NoDup (addrs (xs1 ++ x :: xs2)) →
  chains !! i = Some (c1 ++ it_at x :: c2) → length bs' = length bs →
  H' = unlink set_hh_prev set_hh_next (unlink set_prev set_next H (addrs xs1) (addrs xs2)) c1 c2 →
  buckets_ok H' bs' (<[i := c1 ++ c2]> chains) →
  table_ok H' (xs1 ++ xs2) ta
    (set_num_items (u32 (num_items t - 1)) (set_tail (last0 (addrs xs1 ++ addrs xs2)) t))
    bs' (<[i := c1 ++ c2]> chains) lg.
Proof.
  intros [Hlist Hitems Hkeys Hcount Hroom Htail Hhho Hlog Hlg Hnum Hlen Hbk Hperm] Hnd Hc Hlen' -> Hbk'.
  rewrite !fmap_app in *. rewrite !fmap_cons in *. rewrite !length_app in *. cbn [length] in *.
  split; cbn [num_items tail hho log2_num_buckets num_buckets set_num_items set_tail]; try done.
  - rewrite fmap_app. eapply order_ext; [intros b _; by apply (unlink_field order)|].
    by apply (linked_unlink prev next set_prev set_next H (addrs xs1) (it_at x) (addrs xs2)).
  - intros y Hy. apply (item_ok_ext _ H).
    + rewrite (unlink_field reg) by done. by apply (unlink_field reg).
    + apply Hitems. apply elem_of_app in Hy. in_list.
  - rewrite fmap_app. apply (NoDup_app (it_key <$> xs1)) in Hkeys as (Hk1 & Hdis & [_ Hk2]%NoDup_cons).
    apply NoDup_app. split; [done|]. split; [|done]. intros k Hk Hk'. apply (Hdis k Hk). in_list.
  - rewrite Hcount, length_app. rewrite u32_small; lia.
  - rewrite length_app. lia.
  - by rewrite fmap_app.
  - by rewrite Hlen'.
  - rewrite fmap_app. apply (Permutation_cons_inv (a := it_at x)).
    rewrite (concat_put_in _ _ _ _ Hc). rewrite (concat_take_out _ _ _ Hc) in Hperm.
    rewrite (Permutation_middle (addrs xs1)), <-Hperm. solve_Permutation.
Qed.

(** ** HASH_DELETE *)

Notation block H x := (BEntry (H (it_at x)) (it_val x) (cstr (it_key x))).

Lemma hd0_item xs : xs ≠ [] → ∃ x, x ∈ xs ∧ hd0 (addrs xs) = it_at x.
Proof. destruct xs as [|x xs]; [done|]. exists x. split; [by apply elem_of_cons; left|done]. Qed.

Lemma HASH_DELETE_last x lg m :
  urepr root fr [x] lg m →
  ∃ h m', HASH_DELETE root (it_at x) m = Done (tt, m') ∧
    urepr root (<[it_at x := BEntry h (it_val x) (cstr (it_key x))]> fr) [] 5 m'.
Proof.
  intros Hr. inversion Hr as [|x' xs' ta t bs chains lg' H m' Hm Hok]; subst.
  assert (x ∈ [x]) as Hx by by apply elem_of_cons; left.
  pose proof (list_elem_of_fmap_2 it_at _ _ Hx) as Ha.
  destruct (tb_items _ _ _ _ _ _ _ Hok x Hx) as (_ & _ & Htbl & _).
  destruct (tb_list _ _ _ _ _ _ _ Hok [] (it_at x) [] eq_refl) as [Hp Hn]. cbn beta in Hp, Hn.
  unfold HASH_DELETE. run_to (load_hh_item root fr _ _ _ _ _ _ _ Hm Ha).
  run_to (head_table_run root fr _ _ _ _ _ _ Hm Ha). rewrite Hp, Hn, Htbl. cbn [Z.eqb andb last0 hd0].
  change (last0 [] =? 0) with true. change (hd0 [] =? 0) with true. cbn [andb].
  run_to (load_table_run root fr _ _ _ _ _ _ _ _ Hm).
  destruct (free_array root fr _ _ _ _ _ _ _ _ Hm) as (m1 & Hrun1 & Hm1). run_to Hrun1.
  destruct (free_table root fr _ _ _ _ _ _ _ _ Hm1) as (m2 & Hrun2 & Hm2). run_to Hrun2.
  destruct (store_head_run root fr _ 0 _ _ _ _ _ Hm2) as (m3 & Hrun3 & Hm3).
  exists (H (it_at x)), m3. split; [exact Hrun3|]. apply (urepr_nil _ _ H).
  by apply (umem_release _ _ _ _ [] x []).
Qed.

(** Taking an element out of its bucket and of the count. *)
Definition leave (hash a : Z) : cmd uheap unit :=
  ta ← head_table root;
  t ← load_table ta;
  _ ← HASH_DEL_IN_BKT (buckets t) (HASH_TO_BKT hash (num_buckets t)) (a + hho t);
  modify_table ta (λ t, set_num_items (u32 (num_items t - 1)) t).

Section one.
Context (xs1 xs2 : list item) (x : item) (ta : Z) (t : UT_hash_table) (bs : list UT_hash_bucket).
Context (chains : list (list Z)) (lg : Z) (H : Z → UT_hash_handle).
Let xs := xs1 ++ x :: xs2.
Hypothesis Hok : table_ok H xs ta t bs chains lg.
Hypothesis Hne : xs1 ++ xs2 ≠ [].

Lemma delete_addrs : addrs xs = addrs xs1 ++ it_at x :: addrs xs2.
Proof. unfold xs. by rewrite fmap_app. Qed.

Lemma delete_pos a : a ∈ addrs xs → a ≠ 0.
Proof. intros (y & -> & Hy)%list_elem_of_fmap. destruct (tb_items _ _ _ _ _ _ _ Hok y Hy). lia. Qed.

Lemma head_registered ys : ys ≠ [] → (∀ y, y ∈ ys → y ∈ xs) →
  hd0 (addrs ys) ∈ addrs xs ∧ tbl (H (hd0 (addrs ys))) = ta.
Proof.
  intros (y & Hy & ->)%hd0_item Hin. split; [by apply (list_elem_of_fmap_2 it_at), Hin|].
  by destruct (tb_items _ _ _ _ _ _ _ Hok y (Hin y Hy)) as (_ & _ & -> & _).
Qed.

Lemma delete_list_run m :
  umem root fr (hd0 (addrs xs)) [(ta, t)] [(buckets t, bs)] H xs m →
  ∃ m', HASH_DELETE root (it_at x) m = leave (jen (it_key x)) (it_at x) m' ∧
    umem root fr (hd0 (addrs (xs1 ++ xs2))) [(ta, set_tail (last0 (addrs (xs1 ++ xs2))) t)]
      [(buckets t, bs)] (unlink set_prev set_next H (addrs xs1) (addrs xs2)) xs m'.
Proof.
  intros Hm. pose proof delete_addrs as Haddrs. rewrite fmap_app.
  assert (x ∈ xs) as Hx by (unfold xs; in_list).
  pose proof (list_elem_of_fmap_2 it_at _ _ Hx) as Ha. pose proof (umem_nodup _ _ _ _ _ _ _ _ Hm) as Hnd.
  destruct (tb_list _ _ _ _ _ _ _ Hok _ _ _ Haddrs) as [Hp Hn]. cbn beta in Hp, Hn.
  pose proof (tb_hho _ _ _ _ _ _ _ Hok) as Hhho.
  destruct (tb_items _ _ _ _ _ _ _ Hok x Hx) as (_ & _ & _ & _ & _ & Hhash).
  unfold HASH_DELETE. run_to (load_hh_item root fr _ _ _ _ _ _ _ Hm Ha).
  destruct (head_registered xs) as [Hhd Htbl]; [unfold xs; by destruct xs1|done|].
  run_to (head_table_run root fr _ _ _ _ _ _ Hm Hhd). rewrite Htbl, Hp, Hn.
  destruct (nonempty_ends (addrs xs1) (it_at x) (addrs xs2)) as [Hl1 Hl2];
    [rewrite <-Haddrs; apply delete_pos|].
  assert ((last0 (addrs xs1) =? 0) && (hd0 (addrs xs2) =? 0) = false) as ->.
  { apply andb_false_iff. rewrite !Z.eqb_neq, Hl1, Hl2. destruct xs1; [right|by left]. by destruct xs2. }
  run_to (load_table_run root fr _ _ _ _ _ _ _ _ Hm). rewrite Haddrs in Hnd.
  destruct (set_tail_run _ _ _ _ _ _ (addrs xs1) (it_at x) (addrs xs2) _ Hm Hhho) as (m1 & Hrun1 & Hm1);
    [rewrite <-Haddrs; apply (tb_tail _ _ _ _ _ _ _ Hok)|done|].
  run_to Hrun1. rewrite Hhho, !Z.add_0_r. rewrite Haddrs in Hm1 at 1.
  destruct (unlink_order_run _ _ _ _ _ _ (addrs xs1) (it_at x) (addrs xs2) m1 Hm1 eq_refl Haddrs delete_pos)
    as (m2 & m3 & Hrun2 & Hload & Hrun3 & Hm3).
  run_to Hrun2. run_to Hload. rewrite Hp, Hn, Z.add_0_r. run_to Hrun3. rewrite Hhash.
  exists m3. split; [done|exact Hm3].
Qed.

Lemma leave_run m :
  umem root fr (hd0 (addrs (xs1 ++ xs2))) [(ta, set_tail (last0 (addrs (xs1 ++ xs2))) t)]
    [(buckets t, bs)] (unlink set_prev set_next H (addrs xs1) (addrs xs2)) xs m →
  ∃ h m', leave (jen (it_key x)) (it_at x) m = Done (tt, m') ∧
    urepr root (<[it_at x := BEntry h (it_val x) (cstr (it_key x))]> fr) (xs1 ++ xs2) lg m'.
Proof.
  set (H1 := unlink _ _ _ _ _). intros Hm. pose proof delete_addrs as Haddrs.
  assert (x ∈ xs) as Hx by (unfold xs; in_list). pose proof (umem_nodup _ _ _ _ _ _ _ _ Hm) as Hnd.
  destruct (head_registered (xs1 ++ xs2) Hne) as [Hhd Htbl].
  { intros y Hy. apply elem_of_app in Hy. unfold xs. in_list. }
  unfold leave. run_to (head_table_run root fr _ _ _ _ _ _ Hm Hhd).
  assert (tbl (H1 (hd0 (addrs (xs1 ++ xs2)))) = ta) as -> by (unfold H1; by rewrite (unlink_field tbl)).
  run_to (load_table_run root fr _ _ _ _ _ _ _ _ Hm). cbn [buckets num_buckets hho set_tail].
  unfold HASH_TO_BKT. rewrite (tb_hho _ _ _ _ _ _ _ Hok), Z.add_0_r, (tb_num _ _ _ _ _ _ _ Hok), u32_mask
    by apply (tb_lg _ _ _ _ _ _ _ Hok).
  destruct (item_chain _ _ _ _ _ _ _ x Hok Hx) as (i & b & c & Hb & Hc & Hin & Hi & _). rewrite Hi.
  apply list_elem_of_split in Hin as (c1 & c2 & ->).
  pose proof (tb_perm _ _ _ _ _ _ _ Hok) as Hperm.
  assert (buckets_ok H1 bs chains) as Hbk1.
  { apply (buckets_ok_ext H); [|apply (tb_buckets _ _ _ _ _ _ _ Hok)]. intros a _. by apply unlink_field. }
  destruct (HASH_DEL_IN_BKT_run _ _ _ _ _ bs chains i b c1 (it_at x) c2 m Hm delete_pos Hbk1)
    as (bs' & m1 & Hrun1 & Hlen1 & Hm1 & Hbk2);
    [by rewrite Hperm|intros a; by rewrite Hperm|apply (tb_room _ _ _ _ _ _ _ Hok)|done..|].
  run_to Hrun1. set (H2 := unlink _ _ H1 _ _) in Hm1, Hbk2.
  destruct (modify_table_run root fr _ _ _ (λ t, set_num_items (u32 (num_items t - 1)) t) _ _ _ _ _ Hm1)
    as (m2 & Hrun2 & Hm2). exists (H2 (it_at x)), m2. split; [exact Hrun2|].
  apply umem_release in Hm2. cbn beta in Hm2.
  eapply (urepr_intro _ _ _ ta _ _ _ _ _ _ Hm2 Hne). rewrite fmap_app. cbn [num_items set_tail].
  by eapply (table_ok_delete H); [exact Hok|exact Hnd|exact Hc|..].
Qed.
End one.

Lemma HASH_DELETE_run xs1 x xs2 lg m :
  urepr root fr (xs1 ++ x :: xs2) lg m → xs1 ++ xs2 ≠ [] →
  ∃ h m', HASH_DELETE root (it_at x) m = Done (tt, m') ∧
    urepr root (<[it_at x := BEntry h (it_val x) (cstr (it_key x))]> fr) (xs1 ++ xs2) lg m'.
Proof.
  intros Hr Hne. remember (xs1 ++ x :: xs2) as xs eqn:Hxs.
  assert (∃ ta t bs chains H, umem root fr (hd0 (addrs xs)) [(ta, t)] [(buckets t, bs)] H xs m ∧
    table_ok H xs ta t bs chains lg) as (ta & t & bs & chains & H & Hm & Hok).
  { destruct Hr; [by destruct xs1|]. eauto 10. }
  clear Hr. subst xs. destruct (delete_list_run _ _ _ _ _ _ _ _ _ Hok Hne m Hm) as (m1 & -> & Hm1).
  by eapply leave_run.
Qed.

(** Any element; the table goes with the last one. *)
Lemma HASH_DELETE_any xs1 x xs2 lg m :
  urepr root fr (xs1 ++ x :: xs2) lg m →
  ∃ h lg' m', HASH_DELETE root (it_at x) m = Done (tt, m') ∧
    lg' = (if decide (xs1 ++ xs2 = []) then 5 else lg) ∧
    urepr root (<[it_at x := BEntry h (it_val x) (cstr (it_key x))]> fr) (xs1 ++ xs2) lg' m'.
Proof.
  intros Hr. destruct (decide (xs1 ++ xs2 = [])) as [[-> ->]%app_nil|Hne].
  - destruct (HASH_DELETE_last x lg m Hr) as (h & m' & Hrun & Hr'). by exists h, 5, m'.
  - destruct (HASH_DELETE_run xs1 x xs2 lg m Hr Hne) as (h & m' & Hrun & Hr'). by exists h, lg, m'.
Qed.
End delete.

(** ** The functions of uthash.c *)

Implicit Types (fr : uheap) (k : list Z).

Lemma urepr_head root fr xs lg m : urepr root fr xs lg m → load_head root m = Done (hd0 (addrs xs), m).
Proof. intros Hr. destruct Hr; by eapply load_head_run. Qed.

Lemma urepr_pos root fr xs lg m x : urepr root fr xs lg m → x ∈ xs → 0 < it_at x.
Proof.
  intros Hr Hx. destruct Hr as [|x' xs ta t bs chains lg H m Hm Hok]; [by apply elem_of_nil in Hx|].
  by destruct (tb_items _ _ _ _ _ _ _ Hok x Hx).
Qed.

Lemma urepr_addrs root fr xs lg m : urepr root fr xs lg m → NoDup (addrs xs) ∧ NoDup (it_key <$> xs).
Proof.
  intros Hr. destruct Hr as [|x' xs ta t bs chains lg H m Hm Hok]; [split; by apply NoDup_nil_2|].
  split; [by eapply umem_nodup|by apply (tb_keys _ _ _ _ _ _ _ Hok)].
Qed.

Lemma urepr_size root fr xs lg m : urepr root fr xs lg m → (length xs ≤ size m)%nat.
Proof. intros Hr. destruct Hr; by eapply umem_size. Qed.

Lemma load_next_run root fr x xs lg m :
  urepr root fr (x :: xs) lg m → ∃ h, load_hh (it_at x) m = Done (h, m) ∧ next h = hd0 (addrs xs).
Proof.
  intros Hr. inversion Hr as [|x' xs' ta t bs chains lg' H m' Hm Hok]; subst. exists (H (it_at x)). split.
  - eapply load_hh_item; [exact Hm|]. by apply elem_of_cons; left.
  - by destruct (tb_list _ _ _ _ _ _ _ Hok [] (it_at x) (@fmap list _ _ _ it_at xs) eq_refl).
Qed.

Lemma HASH_CNT_run root fr xs lg m :
  urepr root fr xs lg m → HASH_CNT (hd0 (addrs xs)) m = Done (Z.of_nat (length xs), m).
Proof.
  intros Hr. destruct Hr as [|x xs ta t bs chains lg H m Hm Hok]; [done|]. unfold HASH_CNT.
  destruct (tb_items _ _ _ _ _ _ _ Hok x) as (Hpos & _ & Htbl & _); [apply elem_of_cons; by left|].
  change (hd0 (addrs (x :: xs))) with (it_at x). destruct (Z.eqb_spec (it_at x) 0); [lia|].
  run_to (load_hh_item root fr _ _ _ _ _ _ (it_at x) Hm (list_elem_of_here _ _)). rewrite Htbl.
  run_to (load_table_run root fr _ _ _ _ _ _ _ _ Hm). by rewrite (tb_count _ _ _ _ _ _ _ Hok).
Qed.

Lemma find_item_cases root fr xs lg m k :
  urepr root fr xs lg m →
  (k ∈ it_key <$> xs → find_item k xs ≠ 0) ∧ (k ∉ it_key <$> xs → find_item k xs = 0).
Proof.
  intros Hr. split; [|apply find_item_None]. intros (x & -> & Hx)%list_elem_of_fmap.
  rewrite find_item_Some by (done || by apply (urepr_addrs _ _ _ _ _ Hr)).
  pose proof (urepr_pos _ _ _ _ _ _ Hr Hx). lia.
Qed.

(** ** find, del and a second add *)

Lemma ut_find_run root fr xs lg m k :
  urepr root fr xs lg m → ukey k →
  find root (cstr k) m =
    if decide (k ∈ it_key <$> xs) then Done (0, m) else load_value 0 m.
Proof.
  intros Hr Hk. unfold find. run_to (urepr_head _ _ _ _ _ Hr). run_to (HASH_FIND_STR_run _ _ _ _ _ _ Hr Hk).
  destruct (find_item_cases _ _ _ _ _ k Hr) as [Hin Hnin]. destruct (decide _) as [Hd|Hd].
  - by destruct (Z.eqb_spec (find_item k xs) 0); [by destruct (Hin Hd)|].
  - by rewrite (Hnin Hd).
Qed.

Lemma load_value_null m : m !! 0 = None → load_value 0 m = Undef.
Proof. intros H0. unfold load_value. by rewrite H0. Qed.

Section clear.
Context {A : Allocator ublock} {Hspec : AllocSpec A} {Htotal : AllocTotal A}.
Context (root : Z).

Lemma ut_init_run m : ∃ r m', init m = Done (r, m') ∧ 0 < r ∧ urepr r m [] 5 m'.
Proof.
  unfold init, uthash_malloc. destruct (alloc_total m SIZEOF_HASH_ROOT) as [r Hr].
  erewrite bind_done by by rewrite Hr. pose proof (alloc_pos _ _ _ Hr). pose proof (alloc_fresh _ _ _ Hr) as Hf.
  erewrite bind_done; [|unfold store_head; by rewrite lookup_insert_eq]. exists r. eexists. split; [done|].
  split; [done|]. apply (urepr_nil _ _ (λ _, garbage_handle)). unfold umem, ucells. cbn.
  rewrite insert_insert_eq. by apply owns_alloc, owns_nil.
Qed.

Lemma add_dup_run fr xs lg m k v :
  urepr root fr xs lg m → ukey k → k ∈ it_key <$> xs → add root (cstr k) v m = Done (Some 1, m).
Proof.
  intros Hr Hk Hin. unfold add. run_to (urepr_head _ _ _ _ _ Hr).
  run_to (HASH_FIND_STR_run _ _ _ _ _ _ Hr Hk). destruct (find_item_cases _ _ _ _ _ k Hr) as [Hne _].
  by destruct (Z.eqb_spec (find_item k xs) 0); [by destruct (Hne Hin)|].
Qed.

(** ** clear *)

(** The frame [fr'] is [fr] with the blocks of [xs]. *)
Definition left_over xs fr fr' : Prop :=
  (∀ x, x ∈ xs → ∃ h, fr' !! it_at x = Some (BEntry h (it_val x) (cstr (it_key x)))) ∧
  (∀ a, a ∉ addrs xs → fr' !! a = fr !! a).

Lemma left_over_cons x xs fr fr' h :
  it_at x ∉ addrs xs → left_over xs (<[it_at x := BEntry h (it_val x) (cstr (it_key x))]> fr) fr' →
  left_over (x :: xs) fr fr'.
Proof.
  intros Hnin [Hin Hout]. split.
  - intros y [-> | Hy]%elem_of_cons; [|by apply Hin]. exists h. rewrite Hout by done. apply lookup_insert_eq.
  - intros a [Hne Ha]%not_elem_of_cons. rewrite Hout by done. by apply lookup_insert_ne.
Qed.

Lemma delete_head_run fr x xs lg m :
  urepr root fr (x :: xs) lg m →
  ∃ h lg' m', HASH_DEL root (it_at x) m = Done (tt, m') ∧
    urepr root (<[it_at x := BEntry h (it_val x) (cstr (it_key x))]> fr) xs lg' m'.
Proof.
  intros Hr. destruct xs as [|x' xs].
  - destruct (HASH_DELETE_last root fr x lg m Hr) as (h & m' & Hrun & Hr'). by exists h, 5, m'.
  - destruct (HASH_DELETE_run root fr [] x (x' :: xs) lg m Hr) as (h & m' & Hrun & Hr'); [done|].
    by exists h, lg, m'.
Qed.

(** Reading the successor of the head, as [HASH_ITER] does ahead of the body. *)
Lemma iter_next_run fr xs lg m :
  urepr root fr xs lg m →
  (if hd0 (addrs xs) =? 0 then mret 0 else h ← load_hh (hd0 (addrs xs)); mret (next h)) m =
    Done (hd0 (addrs (drop 1 xs)), m).
Proof.
  intros Hr. destruct xs as [|x xs]; [done|]. change (hd0 (addrs (x :: xs))) with (it_at x).
  pose proof (urepr_pos _ _ _ _ _ x Hr (list_elem_of_here _ _)). destruct (Z.eqb_spec (it_at x) 0); [lia|].
  destruct (load_next_run _ _ _ _ _ _ Hr) as (h & Hh & Hn). run_to Hh. by rewrite Hn.
Qed.

Lemma clear_loop_run xs : ∀ fr lg m fuel,
  urepr root fr xs lg m → (length xs < fuel)%nat →
  ∃ fr' m', clear_loop fuel root (hd0 (addrs xs)) (hd0 (addrs (drop 1 xs))) m = Done (tt, m') ∧
    urepr root fr' [] 5 m' ∧ left_over xs fr fr'.
Proof.
  induction xs as [|x xs IH]; intros fr lg m fuel Hr Hf; (destruct fuel as [|fuel]; [cbn in Hf; lia|]).
  - exists fr, m. split; [done|]. inversion Hr; subst. split; [by econstructor|].
    split; [by intros x ?%elem_of_nil|done].
  - cbn. pose proof (urepr_pos _ _ _ _ _ x Hr (list_elem_of_here _ _)).
    change (hd0 (it_at x :: addrs xs)) with (it_at x). destruct (Z.eqb_spec (it_at x) 0); [lia|].
    destruct (delete_head_run fr x xs lg m Hr) as (h & lg' & m1 & Hrun & Hr1). run_to Hrun.
    rewrite drop_0. run_to (iter_next_run _ _ _ _ Hr1).
    destruct (IH _ lg' m1 fuel Hr1) as (fr' & m2 & Hrun2 & Hr2 & Hlo); [cbn in Hf; lia|].
    exists fr', m2. split; [done|]. split; [done|]. eapply left_over_cons, Hlo.
    by apply (urepr_addrs _ _ _ _ _) in Hr as [[? _]%NoDup_cons _].
Qed.

Lemma ut_clear_run fr xs lg m :
  urepr root fr xs lg m →
  ∃ fr' m', clear root m = Done (tt, m') ∧ urepr root fr' [] 5 m' ∧ left_over xs fr fr'.
Proof.
  intros Hr. unfold clear. rewrite (bind_done _ _ m (size m) m) by done.
  run_to (urepr_head _ _ _ _ _ Hr). run_to (iter_next_run _ _ _ _ Hr).
  apply (clear_loop_run _ _ lg); [done|]. pose proof (urepr_size _ _ _ _ _ Hr). lia.
Qed.
End clear.
