(* ===== verification/UtSort.v ===== *)
(** * UtSort: HASH_SRT

    Sorting a table reorders its insertion-order list in place: a merge sort
    from the bottom up on the [prev] and [next] links, which leaves the buckets
    alone.  In every pass runs of [insize] elements are merged two by two; the
    elements that have been put out form a doubly linked list, those that have
    not still have the [next] links of the start of the pass ([pass_inv]). *)

From stdpp Require Import sorting.
From S2P Require Import Prelude.
From S2P Require Import Own.
From S2P Require Import Heap.
From S2P Require Import UtHash.
From S2P Require Import UtMem.
From S2P Require Import UtTable.
From S2P Require Import UtAdd.
From S2P Require Import UtDelete.

(** ** The macro

    [cmpfcn] compares two elements; the local variables are arguments. *)

Section code.
Context (cmpfcn : Z → Z → cmd uheap Z) (root : Z).

(** [(head)->hh.tbl], the table itself. *)
Definition the_table : cmd uheap UT_hash_table := ta ← head_table root; load_table ta.

(** The handle after [p], as in [_hs_q->next ? _hs_q->next + hho : NULL]. *)
Definition next_hh (p : Z) : cmd uheap Z :=
  h ← load_hh p;
  if next h =? 0 then mret 0 else t ← the_table; mret (next h + hho t).

(** [ELMT_FROM_HH] of a handle that may be null. *)
Definition elmt (p : Z) : cmd uheap Z :=
  if negb (p =? 0) then t ← the_table; mret (ELMT_FROM_HH t p) else mret 0.

(** The second run starts [insize] handles further on: [_hs_q], [_hs_psize]. *)
Fixpoint split_run (n : nat) (q psize : Z) : cmd uheap (Z * Z) :=
  match n with
  | O => mret (q, psize)
  | S n =>
      let psize := u32 (psize + 1) in
      q ← next_hh q;
      if q =? 0 then mret (q, psize) else split_run n q psize
  end.

(** [_hs_p = _hs_p->next ...; _hs_psize--] with the test of [_hs_p]. *)
Definition take_p (p q psize qsize : Z) : cmd uheap (Z * Z * Z * Z * Z) :=
  p' ← (if negb (p =? 0) then next_hh p else mret p); mret (p, p', q, u32 (psize - 1), qsize).
Definition take_q (p q psize qsize : Z) : cmd uheap (Z * Z * Z * Z * Z) :=
  q' ← next_hh q; mret (q, p, q', psize, u32 (qsize - 1)).

(** The next element [_hs_e] of the merge, and what is left. *)
Definition choose (p q psize qsize : Z) : cmd uheap (Z * Z * Z * Z * Z) :=
  if psize =? 0 then take_q p q psize qsize
  else if (qsize =? 0) || (q =? 0) then take_p p q psize qsize
  else
    t ← the_table;
    c ← cmpfcn (ELMT_FROM_HH t p) (ELMT_FROM_HH t q);
    if c <=? 0 then take_p p q psize qsize else take_q p q psize qsize.

(** [e] is put out: [_hs_list]. *)
Definition put_out (e list tail : Z) : cmd uheap Z :=
  list ← (if negb (tail =? 0) then x ← elmt e; _ ← modify_hh tail (set_next x); mret list else mret e);
  _ ← (if negb (e =? 0) then x ← elmt tail; modify_hh e (set_prev x) else mret tt);
  mret list.

(** [_hs_q], [_hs_list] and [_hs_tail]. *)
Fixpoint merge_loop (fuel : nat) (p q psize qsize list tail : Z) : cmd uheap (Z * Z * Z) :=
  match fuel with
  | O => nofuel
  | S fuel =>
      if (0 <? psize) || ((0 <? qsize) && negb (q =? 0)) then
        '(e, p, q, psize, qsize) ← choose p q psize qsize;
        list ← put_out e list tail;
        merge_loop fuel p q psize qsize list e
      else mret (q, list, tail)
  end.

(** One pass: [_hs_list], [_hs_tail] and [_hs_nmerges]. *)
Fixpoint pass_loop (fuel : nat) (p insize list tail nmerges : Z) : cmd uheap (Z * Z * Z) :=
  match fuel with
  | O => nofuel
  | S fuel =>
      if p =? 0 then mret (list, tail, nmerges)
      else
        '(q, psize) ← split_run (Z.to_nat insize) p 0;
        mfuel ← live_blocks;
        '(q, list, tail) ← merge_loop (S mfuel) p q psize insize list tail;
        pass_loop fuel q insize list tail (u32 (nmerges + 1))
  end.

Fixpoint sort_loop (fuel : nat) (list insize : Z) : cmd uheap unit :=
  match fuel with
  | O => nofuel
  | S fuel =>
      pfuel ← live_blocks;
      '(list, tail, nmerges) ← pass_loop (S pfuel) list insize 0 0 0;
      _ ← (if negb (tail =? 0) then modify_hh tail (set_next 0) else mret tt);
      if nmerges <=? 1 then
        ta ← head_table root;
        _ ← modify_table ta (set_tail tail);
        t ← the_table;
        store_head root (ELMT_FROM_HH t list)
      else sort_loop fuel list (u32 (insize * 2))
  end.

Definition HASH_SRT : cmd uheap unit :=
  head ← load_head root;
  if head =? 0 then mret tt
  else fuel ← live_blocks; sort_loop (S fuel) head 1.
End code.

(** ** Merging runs *)

Implicit Types (H : Z → UT_hash_handle) (xs L O P Q B : list item) (x : item) (c : list Z).
Implicit Types (bs : list UT_hash_bucket) (t : UT_hash_table) (chains : list (list Z)) (m : uheap).

Section runs.
Context (R : relation item) `{!RelDecision R}.

(** One pass over the list, for runs of [k] elements. *)
Fixpoint merge_runs (fuel k : nat) L : list item :=
  match fuel, L with
  | S fuel, _ :: _ => list_merge R (take k L) (take k (drop k L)) ++ merge_runs fuel k (drop (k + k) L)
  | _, _ => []
  end.

Lemma merge_runs_perm k fuel : (0 < k)%nat → ∀ L, (length L ≤ fuel)%nat → merge_runs fuel k L ≡ₚ L.
Proof.
  intros Hk. induction fuel as [|fuel IH]; intros L Hf; [by destruct L; [|cbn in Hf; lia]|].
  destruct L as [|x L]; [done|]. cbn [merge_runs]. set (L' := x :: L) in *.
  rewrite merge_Permutation, IH by (unfold L' in *; rewrite length_drop; cbn in *; lia).
  rewrite <-app_assoc, <-(drop_drop L' k k). by rewrite !take_drop.
Qed.

(** Consecutive pieces of [k] elements are sorted. *)
Definition sorted_runs (k : nat) L : Prop := ∀ i, Sorted R (take k (drop (i * k) L)).

Lemma sorted_runs_1 L : sorted_runs 1 L.
Proof. intros i. destruct (drop (i * 1) L) as [|x l]; cbn; by repeat constructor. Qed.

Lemma sorted_runs_all k L : (length L ≤ k)%nat → sorted_runs k L → Sorted R L.
Proof. intros Hk Hs. specialize (Hs 0%nat). by rewrite drop_0, take_ge in Hs. Qed.

Lemma sorted_runs_drop k L : sorted_runs k L → sorted_runs k (drop (k + k) L).
Proof. intros Hs i. rewrite drop_drop. specialize (Hs (S (S i))). by replace (k + k + i * k)%nat with (S (S i) * k)%nat by lia. Qed.

Lemma merge_runs_sorted k fuel : (0 < k)%nat → Total R → ∀ L,
  (length L ≤ fuel)%nat → sorted_runs k L → sorted_runs (k + k) (merge_runs fuel k L).
Proof.
  intros Hk HR. induction fuel as [|fuel IH]; intros L Hf Hs; [destruct L; [|cbn in Hf; lia]|].
  { intros i. cbn. rewrite drop_nil, take_nil. constructor. }
  destruct L as [|x L]; [intros i; cbn; rewrite drop_nil, take_nil; constructor|].
  cbn [merge_runs]. set (L' := x :: L) in *. set (M := list_merge R _ _).
  assert (Sorted R M) as HM.
  { apply Sorted_list_merge; [done|apply (Hs 0%nat)|]. specialize (Hs 1%nat). by rewrite Nat.mul_1_l in Hs. }
  assert (length M = min (k + k) (length L')) as HlM.
  { unfold M. rewrite merge_Permutation, length_app, !length_take, length_drop. lia. }
  specialize (IH (drop (k + k) L') ltac:(unfold L' in *; rewrite length_drop; cbn in *; lia) (sorted_runs_drop k L' Hs)).
  intros i. destruct (Nat.le_gt_cases (k + k) (length L')) as [Hle|Hgt].
  - destruct i as [|i]; [rewrite drop_0, take_app_length' by lia; exact HM|].
    replace (S i * (k + k))%nat with (length M + i * (k + k))%nat by lia.
    rewrite <-drop_drop, drop_app_length. apply IH.
  - rewrite (drop_ge L') by lia. replace (merge_runs fuel k []) with (@nil item) by (by destruct fuel).
    rewrite app_nil_r. destruct i as [|i]; [rewrite drop_0, take_ge by lia; exact HM|].
    rewrite drop_ge, take_nil by lia. constructor.
Qed.

(** The number of merges of a pass. *)
Fixpoint num_runs (fuel k : nat) L : nat :=
  match fuel, L with
  | S fuel, _ :: _ => S (num_runs fuel k (drop (k + k) L))
  | _, _ => 0
  end.

Lemma num_runs_le k fuel : (0 < k)%nat → ∀ L, (num_runs fuel k L ≤ length L)%nat.
Proof.
  intros Hk. induction fuel as [|fuel IH]; intros [|x L]; cbn [num_runs length]; try lia.
  specialize (IH (drop (k + k) (x :: L))). rewrite length_drop in IH. cbn [length] in IH. lia.
Qed.

(** A pass with at most one merge is the last. *)
Lemma num_runs_1 k fuel L :
  (0 < k)%nat → (length L ≤ fuel)%nat → (num_runs fuel k L ≤ 1)%nat ↔ (length L ≤ k + k)%nat.
Proof.
  intros Hk Hf. destruct fuel as [|fuel]; [cbn; lia|]. destruct L as [|x L]; [cbn; lia|]. cbn [num_runs].
  pose proof (length_drop (x :: L) (k + k)) as Hd. destruct (drop (k + k) (x :: L)) as [|y L'].
  - destruct fuel; cbn [num_runs length] in *; lia.
  - destruct fuel as [|fuel]; cbn [num_runs length] in *; lia.
Qed.
End runs.
