(* ===== verification/UtSortProofs.v ===== *)
(** * UtSortProofs: HASH_SRT sorts a uthash table

    During a pass the elements that have been put out, [O], are a doubly linked
    list but for the last [next] ([out_ok]); those that have not still have the
    [next] links of the start of the pass ([path]).  A merge is [list_merge]
    of the two runs ([merge_loop_run]), a pass [merge_runs] ([pass_loop_run]),
    and the passes double the runs until one merge is left ([sort_loop_run]). *)

From stdpp Require Import sorting.
From S2P Require Import Prelude.
From S2P Require Import Own.
From S2P Require Import Heap.
From S2P Require Import UtHash.
From S2P Require Import UtMem.
From S2P Require Import UtTable.
From S2P Require Import UtExpand.
From S2P Require Import UtAdd.
From S2P Require Import UtDelete.
From S2P Require Import UtSort.

Implicit Types (H : Z → UT_hash_handle) (xs L O P Q : list item) (x y e : item) (c : list Z).
Implicit Types (bs : list UT_hash_bucket) (t : UT_hash_table) (m : uheap).

(** ** Comparison functions *)

Definition holds_item m x : Prop := ∃ h, m !! it_at x = Some (BEntry h (it_val x) (cstr (it_key x))).

(** [cmpfcn] compares two elements by their keys and values, and changes nothing. *)
Definition compares (cmpfcn : Z → Z → cmd uheap Z) (cmp : item → item → Z) : Prop :=
  ∀ m x y, holds_item m x → holds_item m y → cmpfcn (it_at x) (it_at y) m = Done (cmp x y, m).

Definition cmp_le (cmp : item → item → Z) (x y : item) : Prop := cmp x y ≤ 0.

#[export] Instance cmp_le_dec cmp : RelDecision (cmp_le cmp).
Proof. intros x y. unfold cmp_le. apply _. Defined.

(** ** Links *)

(** The [next] links lead through [l], and to [z] from its last element. *)
Fixpoint path H (l : list Z) (z : Z) : Prop :=
  match l with
  | [] => True
  | a :: l => next (H a) = default z (head l) ∧ path H l z
  end.

Lemma path_ext H H' l z : (∀ a, a ∈ l → next (H' a) = next (H a)) → path H l z → path H' l z.
Proof.
  induction l as [|a l IH]; [done|]. intros He [Ha Hl]. split; [rewrite He by in_list; done|].
  apply IH; [|done]. intros b Hb. apply He. in_list.
Qed.

Lemma path_app H l1 l2 : path H (l1 ++ l2) 0 ↔ path H l1 (hd0 l2) ∧ path H l2 0.
Proof.
  induction l1 as [|a l1 IH]; cbn [app path]; [tauto|]. rewrite IH.
  assert (default 0 (head (l1 ++ l2)) = default (hd0 l2) (head l1)) as -> by (by destruct l1).
  tauto.
Qed.

Lemma linked_path H l : linked (prevs H) (nexts H) l → path H l 0.
Proof.
  enough (∀ l1 l2, linked (prevs H) (nexts H) (l1 ++ l2) → path H l2 0) as Hp by (apply (Hp [])).
  intros l1 l2. revert l1. induction l2 as [|a l2 IH]; [done|]. intros l1 Hl. split.
  - by apply (Hl l1 a l2 eq_refl).
  - apply (IH (l1 ++ [a])). by rewrite <-app_assoc.
Qed.

(** The handles once the list of those put out is ended. *)
Definition ended H (l : list Z) : Z → UT_hash_handle := upd_opt H (last l) (set_next 0).
Definition out_ok H (l : list Z) : Prop := linked (prevs (ended H l)) (nexts (ended H l)) l.

(** [e] is put out behind [l]. *)
Definition put H (l : list Z) (e : Z) : Z → UT_hash_handle :=
  upd (upd_opt H (last l) (set_next e)) e (set_prev (last0 l)).

Lemma put_ne H (l : list Z) (e a : Z) : a ∉ l → a ≠ e → put H l e a = H a.
Proof.
  intros Ha Hne. unfold put. rewrite upd_ne by done. apply upd_opt_ne.
  by intros ?%last_Some_elem_of.
Qed.

Lemma put_field {T} (p : UT_hash_handle → T) H (l : list Z) (e a : Z) :
  (∀ z h, p (set_prev z h) = p h) → (∀ z h, p (set_next z h) = p h) → p (put H l e a) = p (H a).
Proof. intros Hp Hn. unfold put. rewrite (upd_field p) by done. by rewrite (upd_opt_field p). Qed.

Lemma out_ok_put H (l : list Z) (e : Z) : NoDup (l ++ [e]) → out_ok H l → out_ok (put H l e) (l ++ [e]).
Proof.
  intros Hnd Hl. unfold out_ok, ended. rewrite last_snoc. cbn [upd_opt].
  assert (∀ a, a ∈ l → a ≠ e) as Hne.
  { intros a Ha ->. apply NoDup_app in Hnd as (_ & Hdis & _). apply (Hdis e Ha). in_list. }
  apply (linked_snoc _ _ _ _ _ _ Hnd Hl).
  - rewrite (upd_field prev) by done. unfold put. by rewrite upd_eq.
  - by rewrite upd_eq.
  - intros y Hy. rewrite upd_ne by (apply Hne; by apply last_Some_elem_of). unfold put.
    rewrite (upd_field next), Hy by done. cbn. by rewrite upd_eq.
  - intros a Ha. rewrite upd_ne by by apply Hne. unfold put, ended. rewrite upd_ne by by apply Hne.
    by rewrite !(upd_opt_field prev).
  - intros a Ha Hla. rewrite upd_ne by by apply Hne. unfold put, ended. rewrite upd_ne by by apply Hne.
    by rewrite !upd_opt_ne.
Qed.

Lemma addrs_snoc O e : addrs (O ++ [e]) = addrs O ++ [it_at e].
Proof. by rewrite fmap_app. Qed.

(** ** The merge *)

Section sort.
Context (cmpfcn : Z → Z → cmd uheap Z) (cmp : item → item → Z) (Hcmp : compares cmpfcn cmp).
Context (root : Z) (fr : uheap) (xs : list item) (hd ta : Z) (arrs : list (Z * list UT_hash_bucket)).
Context (H0 : Z → UT_hash_handle).
Context (Hhd : hd ∈ addrs xs) (Htbl : tbl (H0 hd) = ta) (Hpos : ∀ a, a ∈ addrs xs → a ≠ 0).
Context (Hroom : Z.of_nat (length xs) < 2 ^ 31).

Notation R := (cmp_le cmp).

(** The memory: only [prev] and [next] have changed. *)
Record sorting t H m : Prop := {
  so_mem : umem root fr hd [(ta, t)] arrs H xs m;
  so_reg : ∀ a, reg (H a) = reg (H0 a);
  so_links : ∀ a, links (H a) = links (H0 a);
  so_hho : hho t = 0;
}.

Lemma the_table_run t H m : sorting t H m → the_table root m = Done (t, m).
Proof.
  intros [Hm Hreg _ _]. unfold the_table. run_to (head_table_run root fr _ _ _ _ _ _ Hm Hhd).
  assert (tbl (H hd) = ta) as -> by (specialize (Hreg hd); injection Hreg; congruence).
  exact (load_table_run root fr _ _ _ _ _ _ _ _ Hm).
Qed.

Lemma next_hh_run t H m a : sorting t H m → a ∈ addrs xs → next_hh root a m = Done (next (H a), m).
Proof.
  intros Hs Ha. unfold next_hh. run_to (load_hh_item root fr _ _ _ _ _ _ _ (so_mem _ _ _ Hs) Ha).
  destruct (Z.eqb_spec (next (H a)) 0) as [->|]; [done|]. run_to (the_table_run _ _ _ Hs).
  by rewrite (so_hho _ _ _ Hs), Z.add_0_r.
Qed.

Lemma elmt_run t H m a : sorting t H m → elmt root a m = Done (a, m).
Proof.
  intros Hs. unfold elmt. destruct (Z.eqb_spec a 0) as [->|]; [done|]. cbn [negb].
  run_to (the_table_run _ _ _ Hs). unfold ELMT_FROM_HH. by rewrite (so_hho _ _ _ Hs), Z.sub_0_r.
Qed.

Lemma modify_sorting t H m a f :
  sorting t H m → a ∈ addrs xs → (∀ h, reg (f h) = reg h) → (∀ h, links (f h) = links h) →
  ∃ m', modify_hh a f m = Done (tt, m') ∧ sorting t (upd H a f) m'.
Proof.
  intros [Hm Hreg Hlinks Hho] Ha Hfr Hfl. destruct (modify_item root fr _ _ _ _ _ _ _ f Hm Ha) as (m' & Hrun & Hm').
  exists m'. split; [done|]. split; [done| | |done]; intros b.
  - by rewrite (upd_field reg).
  - by rewrite (upd_field links).
Qed.

Lemma sorting_holds t H m x : sorting t H m → x ∈ xs → holds_item m x.
Proof. intros Hs Hx. eexists. exact (umem_item root fr _ _ _ _ _ _ _ (so_mem _ _ _ Hs) Hx). Qed.

Lemma put_out_run t H m O e :
  sorting t H m → O ++ [e] ⊆ xs →
  ∃ m', put_out root (it_at e) (hd0 (addrs O)) (last0 (addrs O)) m = Done (hd0 (addrs (O ++ [e])), m') ∧
    sorting t (put H (addrs O) (it_at e)) m'.
Proof.
  intros Hs Hin. unfold put_out.
  assert (it_at e ∈ addrs xs) as He by (apply (list_elem_of_fmap_2 it_at), Hin; in_list).
  assert (∃ m1, (if negb (last0 (addrs O) =? 0)
      then x ← elmt root (it_at e); _ ← modify_hh (last0 (addrs O)) (set_next x); mret (hd0 (addrs O))
      else mret (it_at e)) m = Done (hd0 (addrs (O ++ [e])), m1) ∧
    sorting t (upd_opt H (last (addrs O)) (set_next (it_at e))) m1) as (m1 & Hrun1 & Hs1).
  { destruct O as [|o O _] using rev_ind; [by exists m|].
    assert (it_at o ∈ addrs xs) as Ho by (apply (list_elem_of_fmap_2 it_at), Hin; in_list).
    rewrite addrs_snoc, last_snoc, last0_snoc. cbn [upd_opt].
    destruct (Z.eqb_spec (it_at o) 0) as [H1|_]; [by apply Hpos in H1|]. cbn [negb].
    run_to (elmt_run t H m (it_at e) Hs).
    destruct (modify_sorting t H m _ (set_next (it_at e)) Hs Ho) as (m1 & Hrun1 & Hs1); [done..|].
    exists m1. split; [|done]. run_to Hrun1. do 2 f_equal. rewrite !addrs_snoc. by destruct O. }
  run_to Hrun1. destruct (Z.eqb_spec (it_at e) 0) as [H1|_]; [by apply Hpos in H1|]. cbn [negb].
  destruct (modify_sorting _ _ _ _ (set_prev (last0 (addrs O))) Hs1 He) as (m2 & Hrun2 & Hs2); [done..|].
  exists m2. split; [|done]. rewrite bind_done with (a := tt) (s' := m2); [done|].
  by run_to (elmt_run _ _ _ (last0 (addrs O)) Hs1).
Qed.

(** What [choose] leaves of the runs: it takes [e] from one of them. *)
Definition taken e P Q (qs : nat) P' Q' (qs' : nat) : Prop :=
  (P = e :: P' ∧ Q' = Q ∧ qs' = qs) ∨ (P' = P ∧ Q = e :: Q' ∧ qs = S qs').

Lemma taken_perm e P Q qs P' Q' qs' : taken e P Q qs P' Q' qs' → P ++ Q ≡ₚ e :: P' ++ Q'.
Proof. intros [(-> & -> & ->)|(-> & -> & ->)]; [done|]. by rewrite Permutation_middle. Qed.

Lemma u32_pred n : Z.of_nat (S n) < 2 ^ 31 → u32 (Z.of_nat (S n) - 1) = Z.of_nat n.
Proof. intros. rewrite u32_small; lia. Qed.

Lemma in_addrs x L : L ⊆ xs → x ∈ L → it_at x ∈ addrs xs ∧ it_at x ≠ 0.
Proof. intros HL Hx. assert (it_at x ∈ addrs xs) by by apply (list_elem_of_fmap_2 it_at), HL. auto. Qed.

Lemma take_p_run t H m x P q qs z :
  sorting t H m → x :: P ⊆ xs → path H (addrs (x :: P)) z → Z.of_nat (length (x :: P)) < 2 ^ 31 →
  ∃ p', take_p root (it_at x) q (Z.of_nat (length (x :: P))) qs m =
      Done ((it_at x, p', q, Z.of_nat (length P), qs), m) ∧ (P ≠ [] → p' = hd0 (addrs P)).
Proof.
  intros Hs Hin HP Hl. unfold take_p. destruct (in_addrs x _ Hin) as [Hx Hne]; [in_list|].
  destruct (Z.eqb_spec (it_at x) 0); [done|]. cbn [negb]. run_to (next_hh_run _ _ _ _ Hs Hx).
  exists (next (H (it_at x))). cbn [length] in *. rewrite u32_pred by done. split; [done|].
  destruct HP as [-> _]. by destruct P.
Qed.

Lemma take_q_run t H m p y Q psize qs :
  sorting t H m → y :: Q ⊆ xs → path H (addrs (y :: Q)) 0 → Z.of_nat (S qs) < 2 ^ 31 →
  take_q root p (it_at y) psize (Z.of_nat (S qs)) m =
    Done ((it_at y, p, hd0 (addrs Q), psize, Z.of_nat qs), m).
Proof.
  intros Hs Hin [HQ _] Hl. unfold take_q. assert (it_at y ∈ addrs xs) as Hy by (apply (list_elem_of_fmap_2 it_at), Hin; in_list).
  run_to (next_hh_run _ _ _ _ Hs Hy). cbn beta in HQ. rewrite u32_pred by done. by rewrite HQ.
Qed.

Lemma choose_next_run t H m P Q qs p z :
  sorting t H m → P ++ Q ⊆ xs → path H (addrs P) z → path H (addrs Q) 0 →
  (P ≠ [] → p = hd0 (addrs P)) → Z.of_nat (length P) < 2 ^ 31 → Z.of_nat qs < 2 ^ 31 →
  P ++ take qs Q ≠ [] →
  ∃ e P' Q' qs' p',
    choose cmpfcn root p (hd0 (addrs Q)) (Z.of_nat (length P)) (Z.of_nat qs) m =
      Done ((it_at e, p', hd0 (addrs Q'), Z.of_nat (length P'), Z.of_nat qs'), m) ∧
    taken e P Q qs P' Q' qs' ∧ (P' ≠ [] → p' = hd0 (addrs P')) ∧
    list_merge R P (take qs Q) = e :: list_merge R P' (take qs' Q').
Proof.
  intros Hs Hin HP HQ Hp HlP Hqs Hne. apply list_subseteq_app_iff_l in Hin as [HinP HinQ]. unfold choose.
  destruct P as [|x P].
  { destruct Q as [|y Q]; [by rewrite take_nil in Hne|]. destruct qs as [|qs]; [done|].
    exists y, [], Q, qs, p. split; [by eapply take_q_run|]. split; [by right|]. split; [done|].
    by rewrite !list_merge_nil_l. }
  rewrite Hp by done. change (hd0 (addrs (x :: P))) with (it_at x).
  destruct (take_p_run t H m x P (hd0 (addrs Q)) (Z.of_nat qs) z Hs HinP HP HlP) as (p' & Hrun & Hp').
  destruct (Z.eqb_spec (Z.of_nat (length (x :: P))) 0); [cbn [length] in *; lia|].
  destruct (decide (take qs Q = [])) as [Ht|Ht].
  { exists x, P, Q, qs, p'. split; [|rewrite Ht; split; [by left|split; [done|by rewrite !list_merge_nil_r]]].
    destruct qs as [|qs]; [done|]. destruct Q as [|y Q]; [|done]. cbn [fmap list_fmap] in *.
    rewrite orb_true_r. done. }
  destruct qs as [|qs]; [done|]. destruct Q as [|y Q]; [done|].
  destruct (Z.eqb_spec (Z.of_nat (S qs)) 0); [lia|].
  change (hd0 (addrs (y :: Q))) with (it_at y) in *.
  destruct (in_addrs y _ HinQ) as [Hy Hney]; [in_list|]. destruct (Z.eqb_spec (it_at y) 0); [done|]. cbn [orb].
  run_to (the_table_run _ _ _ Hs). unfold ELMT_FROM_HH. rewrite (so_hho _ _ _ Hs), !Z.sub_0_r.
  rewrite (bind_done _ _ m (cmp x y) m)
    by (apply Hcmp; eapply sorting_holds; [done|apply HinP; in_list|done|apply HinQ; in_list]).
  cbn [take]. destruct (Z.leb_spec (cmp x y) 0).
  - exists x, P, (y :: Q), (S qs), p'. split; [done|]. split; [by left|]. split; [done|].
    cbn. by rewrite decide_True.
  - exists y, (x :: P), Q, qs, (it_at x). split; [by eapply take_q_run|]. split; [by right|]. split; [done|].
    cbn. rewrite decide_False; [done|unfold cmp_le; lia].
Qed.

Lemma taken_path H e P Q qs P' Q' qs' z :
  taken e P Q qs P' Q' qs' → path H (addrs P) z → path H (addrs Q) 0 →
  path H (addrs P') z ∧ path H (addrs Q') 0.
Proof. intros [(-> & -> & ->)|(-> & -> & ->)] HP HQ; cbn in HP, HQ; tauto. Qed.

Lemma taken_length e P Q qs P' Q' qs' :
  taken e P Q qs P' Q' qs' →
  (length P + length (take qs Q) = S (length P' + length (take qs' Q')) ∧
   length P' ≤ length P ∧ qs' ≤ qs)%nat ∧ drop qs Q = drop qs' Q'.
Proof. intros [(-> & -> & ->)|(-> & -> & ->)]; cbn [take drop length]; split; (done || lia). Qed.

(** The elements of [l] are not touched when [e] is put out. *)
Lemma path_put H O e L l z :
  O ++ e :: L ≡ₚ xs → NoDup (addrs xs) → (∀ x, x ∈ l → x ∈ L) →
  path H (addrs l) z → path (put H (addrs O) (it_at e)) (addrs l) z.
Proof.
  intros Hperm Hnd Hl. apply path_ext. intros a (x & -> & Hx)%list_elem_of_fmap. f_equal.
  rewrite <-Hperm, fmap_app, fmap_cons in Hnd. apply NoDup_app in Hnd as (_ & Hdis & [Hnin _]%NoDup_cons).
  assert (it_at x ∈ addrs L) as Ha by by apply (list_elem_of_fmap_2 it_at), Hl.
  apply put_ne; [|intros Heq; by rewrite Heq in Ha]. intros HO. apply (Hdis _ HO). in_list.
Qed.

Lemma merge_more P Q qs :
  P ++ Q ⊆ xs →
  (0 <? Z.of_nat (length P)) || ((0 <? Z.of_nat qs) && negb (hd0 (addrs Q) =? 0)) =
  bool_decide (P ++ take qs Q ≠ []).
Proof.
  intros Hin. destruct P as [|x P]; [|by rewrite bool_decide_true].
  destruct qs as [|qs]; [by rewrite bool_decide_false by naive_solver|].
  destruct Q as [|y Q]; [by rewrite bool_decide_false by naive_solver|].
  rewrite bool_decide_true by done. change (hd0 (addrs (y :: Q))) with (it_at y).
  destruct (in_addrs y _ Hin) as [_ Hy]; [in_list|]. by destruct (Z.eqb_spec (it_at y) 0).
Qed.

Lemma merge_loop_run t fuel : ∀ H m O P Q qs p z,
  sorting t H m → O ++ P ++ Q ≡ₚ xs → out_ok H (addrs O) →
  path H (addrs P) z → path H (addrs Q) 0 → (P ≠ [] → p = hd0 (addrs P)) → Z.of_nat qs < 2 ^ 31 →
  (length P + length (take qs Q) < fuel)%nat →
  let O' := O ++ list_merge R P (take qs Q) in
  ∃ H' m', merge_loop cmpfcn root fuel p (hd0 (addrs Q)) (Z.of_nat (length P)) (Z.of_nat qs)
      (hd0 (addrs O)) (last0 (addrs O)) m =
    Done ((hd0 (addrs (drop qs Q)), hd0 (addrs O'), last0 (addrs O')), m') ∧
    sorting t H' m' ∧ out_ok H' (addrs O') ∧ path H' (addrs (drop qs Q)) 0.
Proof.
  induction fuel as [|fuel IH]; intros H m O P Q qs p z Hs Hperm HO HP HQ Hp Hqs Hf; [lia|].
  pose proof (umem_nodup _ _ _ _ _ _ _ _ (so_mem _ _ _ Hs)) as Hnd.
  assert (P ++ Q ⊆ xs) as Hin by (intros x Hx; rewrite <-Hperm; apply elem_of_app; by right).
  cbn [merge_loop]. rewrite merge_more by done. case_bool_decide as Hne.
  2:{ apply app_nil in Hne as [-> Ht]. exists H, m. rewrite Ht, list_merge_nil_l, app_nil_r.
      split; [|split_and!; [done..|]].
      - destruct qs as [|qs]; [done|]. by destruct Q.
      - destruct qs as [|qs]; [done|]. by destruct Q. }
  assert (Z.of_nat (length P) < 2 ^ 31) as HlP.
  { apply Permutation_length in Hperm. rewrite !length_app in Hperm. lia. }
  destruct (choose_next_run t H m P Q qs p z) as (e & P' & Q' & qs' & p' & Hrun & Ht & Hp' & Hmerge); [done..|].
  destruct (taken_path H _ _ _ _ _ _ _ z Ht HP HQ) as [HP' HQ'].
  destruct (taken_length _ _ _ _ _ _ _ Ht) as [Hlen Hdrop].
  rewrite (taken_perm _ _ _ _ _ _ _ Ht) in Hperm.
  assert (O ++ [e] ⊆ xs) as Hin'.
  { intros x Hx. rewrite <-Hperm. apply elem_of_app in Hx. rewrite list_elem_of_singleton in Hx. in_list. }
  destruct (put_out_run t H m O e Hs Hin') as (m1 & Hrun1 & Hs1).
  destruct (IH _ m1 (O ++ [e]) P' Q' qs' p' z Hs1) as (H' & m' & Hrun' & Hs' & HO' & HQ1).
  - by rewrite <-app_assoc.
  - rewrite addrs_snoc. apply out_ok_put; [|done]. rewrite <-addrs_snoc.
    rewrite <-Hperm, cons_middle, app_assoc, fmap_app in Hnd. by apply NoDup_app in Hnd as (? & _ & _).
  - eapply path_put; [done..|intros; in_list|done].
  - eapply path_put; [done..|intros; in_list|done].
  - done.
  - lia.
  - lia.
  - exists H', m'. rewrite Hmerge, cons_middle, app_assoc, Hdrop. split; [|by split_and!].
    run_to Hrun. cbn -[put_out merge_loop]. run_to Hrun1. rewrite addrs_snoc, last0_snoc in Hrun'.
    rewrite addrs_snoc. exact Hrun'.
Qed.

(** ** A pass *)

Lemma split_run_run t H m n : ∀ L psize,
  sorting t H m → L ⊆ xs → path H (addrs L) 0 → L ≠ [] → 0 ≤ psize →
  psize + Z.of_nat (length L) < 2 ^ 32 →
  split_run root n (hd0 (addrs L)) psize m =
    Done ((hd0 (addrs (drop n L)), psize + Z.of_nat (length (take n L))), m).
Proof.
  induction n as [|n IH]; intros L psize Hs Hin HL Hne Hps Hb.
  { cbn. by rewrite Z.add_0_r, drop_0. }
  destruct L as [|x L]; [done|]. change (hd0 (addrs (x :: L))) with (it_at x).
  cbn [split_run drop take length]. destruct (in_addrs x _ Hin) as [Hx _]; [in_list|].
  cbn [length] in Hb. rewrite u32_small by lia. run_to (next_hh_run _ _ _ _ Hs Hx).
  apply list_subseteq_cons_iff in Hin as [_ Hin]. destruct HL as [-> HL].
  change (default 0 (head _)) with (hd0 (addrs L)).
  destruct L as [|y L]; [cbn; rewrite drop_nil, take_nil; done|].
  destruct (in_addrs y _ Hin) as [_ Hy]; [in_list|]. change (hd0 (addrs (y :: L))) with (it_at y) at 1.
  destruct (Z.eqb_spec (it_at y) 0); [done|]. rewrite IH by (done || lia). do 3 f_equal. lia.
Qed.

Lemma pass_loop_run t k fuel : ∀ H m O L nm,
  sorting t H m → O ++ L ≡ₚ xs → out_ok H (addrs O) → path H (addrs L) 0 →
  (0 < k)%nat → Z.of_nat k < 2 ^ 31 → (length L < fuel)%nat → 0 ≤ nm → nm + Z.of_nat (length L) < 2 ^ 32 →
  let O' := O ++ merge_runs R fuel k L in
  ∃ H' m', pass_loop cmpfcn root fuel (hd0 (addrs L)) (Z.of_nat k) (hd0 (addrs O)) (last0 (addrs O)) nm m =
      Done ((hd0 (addrs O'), last0 (addrs O'), nm + Z.of_nat (num_runs fuel k L)), m') ∧
    sorting t H' m' ∧ out_ok H' (addrs O').
Proof.
  induction fuel as [|fuel IH]; intros H m O L nm Hs Hperm HO HL Hk Hk' Hf Hnm Hb; [lia|].
  destruct L as [|x L0]; [cbn; rewrite app_nil_r, Z.add_0_r; by exists H, m|].
  cbn [merge_runs num_runs pass_loop]. set (L := x :: L0) in *.
  assert (L ⊆ xs) as Hin by (intros y Hy; rewrite <-Hperm; in_list).
  destruct (in_addrs x _ Hin) as [_ Hx]; [unfold L; in_list|]. change (hd0 (addrs L)) with (it_at x) at 1.
  destruct (Z.eqb_spec (it_at x) 0); [done|]. rewrite Nat2Z.id.
  run_by (apply (split_run_run t H m k L 0 Hs Hin HL); (done || lia)). cbn beta iota.
  pose proof (umem_size _ _ _ _ _ _ _ _ (so_mem _ _ _ Hs)) as Hsize.
  pose proof (Permutation_length Hperm) as Hlen. rewrite length_app in Hlen.
  rewrite (bind_done _ _ m (size m) m eq_refl).
  pose proof HL as HPQ. rewrite <-(take_drop k L), fmap_app in HPQ. apply path_app in HPQ as [HP HQ].
  destruct (merge_loop_run t (S (size m)) H m O (take k L) (drop k L) k (hd0 (addrs L))
    (hd0 (addrs (drop k L)))) as (H1 & m1 & Hrun1 & Hs1 & HO1 & HL1); try done.
  { by rewrite take_drop. }
  { destruct k; [lia|]. done. }
  { rewrite !length_take, length_drop. lia. }
  rewrite Z.add_0_l. run_to Hrun1. cbn beta iota. rewrite drop_drop in HL1 |- *.
  assert (length (drop (k + k) L) < length L)%nat as Hlt by (rewrite length_drop; unfold L; cbn [length]; lia).
  destruct (IH H1 m1 (O ++ list_merge R (take k L) (take k (drop k L))) (drop (k + k) L) (nm + 1))
    as (H' & m' & Hrun' & Hs' & HO'); try (done || lia).
  { rewrite <-Hperm, merge_Permutation, <-!app_assoc, <-(drop_drop L k k). by rewrite !take_drop. }
  exists H', m'. rewrite <-app_assoc in Hrun', HO'. split; [|done].
  rewrite u32_small by (unfold L in Hb; cbn [length] in Hb; lia). rewrite Hrun'. do 3 f_equal. lia.
Qed.

(** ** The passes *)

(** The table and its list at the end: [L] in order. *)
Record sorted_table t L H m : Prop := {
  st_mem : umem root fr (hd0 (addrs L)) [(ta, set_tail (last0 (addrs L)) t)] arrs H xs m;
  st_reg : ∀ a, reg (H a) = reg (H0 a);
  st_links : ∀ a, links (H a) = links (H0 a);
  st_list : linked (prevs H) (nexts H) (addrs L);
}.

Lemma end_list_run t H m O :
  sorting t H m → O ⊆ xs → out_ok H (addrs O) →
  ∃ H' m', (if negb (last0 (addrs O) =? 0) then modify_hh (last0 (addrs O)) (set_next 0) else mret tt) m =
      Done (tt, m') ∧ sorting t H' m' ∧ linked (prevs H') (nexts H') (addrs O).
Proof.
  intros Hs Hin HO. unfold out_ok, ended in HO. destruct O as [|e O _] using rev_ind; [by exists H, m|].
  rewrite addrs_snoc, last0_snoc, last_snoc in *. cbn [upd_opt] in HO.
  destruct (in_addrs e _ Hin) as [He Hne]; [in_list|]. destruct (Z.eqb_spec (it_at e) 0); [done|].
  destruct (modify_sorting t H m _ (set_next 0) Hs He) as (m' & Hrun & Hs'); [done..|].
  by exists (upd H (it_at e) (set_next 0)), m'.
Qed.

Lemma finish_run t H m L :
  sorting t H m → linked (prevs H) (nexts H) (addrs L) →
  ∃ m', (ta' ← head_table root; _ ← modify_table ta' (set_tail (last0 (addrs L)));
         t' ← the_table root; store_head root (ELMT_FROM_HH t' (hd0 (addrs L)))) m = Done (tt, m') ∧
    sorted_table t L H m'.
Proof.
  intros [Hm Hreg Hlinks Hho] HL.
  assert (head_table root m = Done (ta, m)) as Hta.
  { rewrite (head_table_run root fr _ _ _ _ _ _ Hm Hhd). specialize (Hreg hd). injection Hreg; congruence. }
  run_to Hta. destruct (modify_table_run root fr _ _ _ (set_tail (last0 (addrs L))) _ _ _ _ _ Hm) as (m1 & Hrun1 & Hm1).
  run_to Hrun1. assert (sorting (set_tail (last0 (addrs L)) t) H m1) as Hs1 by by split.
  run_to (the_table_run _ _ _ Hs1). unfold ELMT_FROM_HH. cbn [hho set_tail]. rewrite Hho, Z.sub_0_r.
  destruct (store_head_run root fr _ (hd0 (addrs L)) _ _ _ _ _ Hm1) as (m' & Hrun & Hm').
  exists m'. split; [done|by split].
Qed.

Lemma sort_loop_run t fuel : Total R → ∀ H m L k,
  sorting t H m → L ≡ₚ xs → linked (prevs H) (nexts H) (addrs L) → sorted_runs R k L →
  (0 < k)%nat → Z.of_nat k < 2 ^ 31 → (0 < fuel)%nat → (length L ≤ k * 2 ^ fuel)%nat →
  ∃ L' H' m', sort_loop cmpfcn root fuel (hd0 (addrs L)) (Z.of_nat k) m = Done (tt, m') ∧
    L' ≡ₚ xs ∧ Sorted R L' ∧ sorted_table t L' H' m'.
Proof.
  intros HR. induction fuel as [|fuel IH]; intros H m L k Hs Hperm HL Hruns Hk Hk' Hf Hlen; [lia|].
  cbn [sort_loop]. pose proof (umem_size _ _ _ _ _ _ _ _ (so_mem _ _ _ Hs)) as Hsize.
  pose proof (Permutation_length Hperm) as HlL. rewrite (bind_done _ _ m (size m) m eq_refl).
  destruct (pass_loop_run t k (S (size m)) H m [] L 0) as (H1 & m1 & Hrun1 & Hs1 & HO1);
    try (done || lia || apply linked_nil || by apply linked_path).
  cbn [app] in Hrun1, HO1. set (L1 := merge_runs R (S (size m)) k L) in *.
  change (hd0 (addrs [])) with 0 in Hrun1. change (last0 (addrs [])) with 0 in Hrun1.
  run_to Hrun1. cbn beta iota.
  assert (L1 ≡ₚ L) as Hp1 by (apply merge_runs_perm; lia).
  assert (L1 ⊆ xs) as Hin1 by (intros x Hx; by rewrite <-Hperm, <-Hp1).
  destruct (end_list_run t H1 m1 L1 Hs1 Hin1 HO1) as (H2 & m2 & Hrun2 & Hs2 & HL2). run_to Hrun2.
  assert (sorted_runs R (k + k) L1) as Hr1 by (apply merge_runs_sorted; (done || lia)).
  pose proof (num_runs_1 k (S (size m)) L Hk ltac:(lia)) as Hnr.
  destruct (Z.leb_spec (0 + Z.of_nat (num_runs (S (size m)) k L)) 1).
  - destruct (finish_run t H2 m2 L1 Hs2 HL2) as (m' & Hrun & Hst). exists L1, H2, m'.
    split; [exact Hrun|]. split; [by rewrite Hp1|]. split; [|done].
    eapply sorted_runs_all; [|done]. rewrite Hp1. lia.
  - assert (fuel ≠ 0)%nat by (intros ->; cbn in Hlen; lia).
    rewrite Nat.pow_succ_r' in Hlen.
    destruct (IH H2 m2 L1 (k + k)%nat Hs2) as (L' & H' & m' & Hrun & HL'); try (done || lia).
    { by rewrite Hp1. }
    { rewrite Hp1. nia. }
    exists L', H', m'. split; [|done]. rewrite <-Hrun. f_equal. rewrite u32_small by lia. lia.
Qed.
End sort.

(** ** HASH_SRT *)

Lemma umem_perm root fr hd tabs arrs H xs xs' m :
  xs ≡ₚ xs' → umem root fr hd tabs arrs H xs m → umem root fr hd tabs arrs H xs' m.
Proof. intros Hp. unfold umem. apply owns_perm. unfold ucells. by rewrite Hp. Qed.

(** The invariant for the list in another order. *)
Lemma table_ok_reorder H H' xs L ta t bs chains lg :
  table_ok H xs ta t bs chains lg → L ≡ₚ xs →
  (∀ a, reg (H' a) = reg (H a)) → (∀ a, links (H' a) = links (H a)) →
  linked (prevs H') (nexts H') (addrs L) →
  table_ok H' L ta (set_tail (last0 (addrs L)) t) bs chains lg.
Proof.
  intros [Hlist Hitems Hkeys Hcount Hroom Htail Hhho Hlog Hlg Hnum Hlen Hbk Hperm] Hp Hreg Hlinks HL.
  split; try done.
  - intros x Hx. apply (item_ok_ext _ H); [done|]. apply Hitems. by rewrite <-Hp.
  - by rewrite Hp.
  - cbn [num_items set_tail]. by rewrite (Permutation_length Hp).
  - by rewrite Hp.
  - by apply (buckets_ok_ext H).
  - by rewrite Hp.
Qed.

Lemma HASH_SRT_run cmpfcn cmp root fr xs lg m :
  compares cmpfcn cmp → Total (cmp_le cmp) → urepr root fr xs lg m →
  ∃ xs' m', HASH_SRT cmpfcn root m = Done (tt, m') ∧ urepr root fr xs' lg m' ∧ xs' ≡ₚ xs ∧
    Sorted (cmp_le cmp) xs'.
Proof.
  intros Hcmp HR Hr. unfold HASH_SRT. destruct Hr as [H m Hm|x xs ta t bs chains lg H m Hm Hok].
  { exists [], m. run_to (load_head_run root fr _ _ _ _ _ _ Hm).
    split; [done|]. split; [by eapply urepr_nil|]. by split. }
  set (L := x :: xs) in *. pose proof Hok as [Hlist Hitems Hkeys Hcount Hroom Htail Hhho Hlog Hlg Hnum Hlen Hbk Hperm].
  assert (∀ a, a ∈ addrs L → a ≠ 0) as Hpos.
  { intros a (y & -> & Hy)%list_elem_of_fmap. destruct (Hitems y Hy) as [? _]. lia. }
  assert (it_at x ∈ addrs L) as Hx by (apply elem_of_cons; by left).
  run_to (load_head_run root fr _ _ _ _ _ _ Hm). destruct (Z.eqb_spec (it_at x) 0) as [H0|_]; [by apply Hpos in H0|].
  rewrite (bind_done _ _ m (size m) m eq_refl). pose proof (umem_size _ _ _ _ _ _ _ _ Hm) as Hsize.
  destruct (sort_loop_run cmpfcn cmp Hcmp root fr L (it_at x) ta
    [(buckets t, bs)] H Hx) with (t := t) (fuel := S (size m))
    (H := H) (m := m) (L := L) (k := 1%nat) as (L' & H' & m' & Hrun & Hp & Hsorted & [Hm' Hreg Hlinks HL']);
    try (done || lia).
  { destruct (Hitems x) as (_ & _ & Ht & _); [apply elem_of_cons; by left|]. exact Ht. }
  { apply sorted_runs_1. }
  { rewrite Nat.mul_1_l. pose proof (Nat.pow_gt_lin_r 2 (S (size m)) ltac:(lia)). lia. }
  exists L', m'. split; [exact Hrun|]. split; [|done]. eapply urepr_intro.
  - eapply umem_perm; [by symmetry|]. exact Hm'.
  - intros ->. by apply Permutation_nil_cons in Hp.
  - by eapply table_ok_reorder.
Qed.
