(* ===== verification/UtFsck.v ===== *)
(** * UtFsck: the consistency check of uthash.h

    Compiled with HASH_DEBUG, uthash checks its links and counters after every
    change: HASH_FSCK walks every bucket and then the insertion order, and
    HASH_OOPS ends the process at the first inconsistency.  The result is
    [false] where HASH_OOPS is reached.  On a table that meets the invariant
    [urepr] the check reaches its end ([HASH_FSCK_run]); HASH_FSCK sees
    neither the keys, nor the tail, nor the bucket of an element, so the
    invariant says more than the check. *)

From S2P Require Import Prelude.
From S2P Require Import Own.
From S2P Require Import Heap.
From S2P Require Import UtHash.
From S2P Require Import UtMem.
From S2P Require Import UtTable.
From S2P Require Import UtExpand.
From S2P Require Import UtAdd.
From S2P Require Import UtSort.
From S2P Require Import UtSortProofs.

(** ** The macro *)

(** One bucket: the number of its items, [_bkt_count]. *)
Fixpoint fsck_chain (fuel : nat) (thh prev' cnt : Z) : cmd uheap (option Z) :=
  match fuel with
  | O => nofuel
  | S fuel =>
      if thh =? 0 then mret (Some cnt)
      else
        h ← load_hh thh;
        if negb (prev' =? hh_prev h) then mret None
        else fsck_chain fuel (hh_next h) thh (u32 (cnt + 1))
  end.

(** The buckets from [i] on: [_count]. *)
Fixpoint fsck_buckets (fuel : nat) (root i cnt : Z) : cmd uheap (option Z) :=
  match fuel with
  | O => nofuel
  | S fuel =>
      t ← the_table root;
      if i <? num_buckets t then
        b ← load_bucket (buckets t) i;
        cfuel ← live_blocks;
        r ← fsck_chain (S cfuel) (hh_head b) 0 0;
        match r with
        | None => mret None
        | Some n =>
            let cnt := u32 (cnt + n) in
            t ← the_table root;
            b ← load_bucket (buckets t) i;
            if negb (count b =? n) then mret None else fsck_buckets fuel root (u32 (i + 1)) cnt
        end
      else mret (Some cnt)
  end.

(** The elements in the order of insertion. *)
Fixpoint fsck_order (fuel : nat) (root thh prev' cnt : Z) : cmd uheap (option Z) :=
  match fuel with
  | O => nofuel
  | S fuel =>
      if thh =? 0 then mret (Some cnt)
      else
        h ← load_hh thh;
        if negb (prev' =? prev h) then mret None
        else
          t ← the_table root;
          next' ← next_hh root thh;
          fsck_order fuel root next' (ELMT_FROM_HH t thh) (u32 (cnt + 1))
  end.

Definition HASH_FSCK (root : Z) : cmd uheap bool :=
  head ← load_head root;
  if head =? 0 then mret true
  else
    t ← the_table root;
    r ← fsck_buckets (S (Z.to_nat (num_buckets t))) root 0 0;
    match r with
    | None => mret false
    | Some cnt =>
        t ← the_table root;
        if negb (cnt =? num_items t) then mret false
        else
          fuel ← live_blocks;
          r ← fsck_order (S fuel) root head 0 0;
          match r with
          | None => mret false
          | Some cnt => t ← the_table root; mret (cnt =? num_items t)
          end
    end.

(** ** The check on a table that meets the invariant *)

Implicit Types (H : Z → UT_hash_handle) (xs : list item) (x : item) (c : list Z).
Implicit Types (bs : list UT_hash_bucket) (t : UT_hash_table) (chains : list (list Z)) (m : uheap).

Section fsck.
Context (root : Z) (fr : uheap) (hd ta : Z) (t : UT_hash_table) (bs : list UT_hash_bucket).
Context (H : Z → UT_hash_handle) (xs : list item) (m : uheap).
Context (Hm : umem root fr hd [(ta, t)] [(buckets t, bs)] H xs m).
Context (Hhd : hd ∈ addrs xs) (Htbl : tbl (H hd) = ta) (Hpos : ∀ a, a ∈ addrs xs → a ≠ 0) (Hhho : hho t = 0).
Context (Hroom : Z.of_nat (length xs) < 2 ^ 31).

Notation state := (sorting root fr xs hd ta [(buckets t, bs)] H t H m).

Lemma fsck_state : state.
Proof. by split. Qed.

Lemma fsck_table_run : the_table root m = Done (t, m).
Proof. exact (the_table_run _ _ _ _ _ _ _ Hhd Htbl _ _ _ fsck_state). Qed.

Lemma fsck_chain_run c2 : ∀ fuel c1 cnt,
  linked (hh_prevs H) (hh_nexts H) (c1 ++ c2) → (∀ a, a ∈ c2 → a ∈ addrs xs) →
  (length c2 < fuel)%nat → 0 ≤ cnt → cnt + Z.of_nat (length c2) < 2 ^ 32 →
  fsck_chain fuel (hd0 c2) (last0 c1) cnt m = Done (Some (cnt + Z.of_nat (length c2)), m).
Proof.
  induction c2 as [|a c2 IH]; intros fuel c1 cnt Hl Hin Hf Hc Hb; (destruct fuel as [|fuel]; [lia|]).
  { cbn. by rewrite Z.add_0_r. }
  cbn [fsck_chain length] in *. change (hd0 (a :: c2)) with a.
  assert (a ∈ addrs xs) as Ha by (apply Hin; in_list). pose proof (Hpos a Ha).
  destruct (Z.eqb_spec a 0); [done|]. run_to (load_hh_item root fr _ _ _ _ _ _ _ Hm Ha).
  destruct (Hl c1 a c2 eq_refl) as [-> ->]. rewrite Z.eqb_refl. cbn [negb].
  rewrite u32_small, <-(last0_snoc c1 a) by lia. rewrite IH; [do 3 f_equal; lia| |intros; apply Hin; in_list|lia..].
  by rewrite <-app_assoc.
Qed.

Lemma fsck_order_run c2 : ∀ fuel c1 cnt,
  linked (prevs H) (nexts H) (c1 ++ c2) → (∀ a, a ∈ c2 → a ∈ addrs xs) →
  (length c2 < fuel)%nat → 0 ≤ cnt → cnt + Z.of_nat (length c2) < 2 ^ 32 →
  fsck_order fuel root (hd0 c2) (last0 c1) cnt m = Done (Some (cnt + Z.of_nat (length c2)), m).
Proof.
  induction c2 as [|a c2 IH]; intros fuel c1 cnt Hl Hin Hf Hc Hb; (destruct fuel as [|fuel]; [lia|]).
  { cbn. by rewrite Z.add_0_r. }
  cbn [fsck_order length] in *. change (hd0 (a :: c2)) with a.
  assert (a ∈ addrs xs) as Ha by (apply Hin; in_list). pose proof (Hpos a Ha).
  destruct (Z.eqb_spec a 0); [done|]. run_to (load_hh_item root fr _ _ _ _ _ _ _ Hm Ha).
  destruct (Hl c1 a c2 eq_refl) as [-> Hn]. rewrite Z.eqb_refl. cbn [negb]. run_to fsck_table_run.
  run_to (next_hh_run _ _ _ _ _ _ _ Hhd Htbl _ _ _ _ fsck_state Ha). cbn beta in Hn. rewrite Hn.
  unfold ELMT_FROM_HH. rewrite Hhho, Z.sub_0_r.
  rewrite u32_small, <-(last0_snoc c1 a) by lia. rewrite IH; [do 3 f_equal; lia| |intros; apply Hin; in_list|lia..].
  by rewrite <-app_assoc.
Qed.

Lemma fsck_buckets_run chains fuel : ∀ i,
  buckets_ok H bs chains → concat chains ≡ₚ addrs xs → num_buckets t = Z.of_nat (length bs) →
  Z.of_nat (length bs) < 2 ^ 32 → (i ≤ length bs)%nat → (length bs - i < fuel)%nat →
  fsck_buckets fuel root (Z.of_nat i) (Z.of_nat (length (concat (take i chains)))) m =
    Done (Some (Z.of_nat (length xs)), m).
Proof.
  intros i Hok Hperm Hnum Hlb. revert i. destruct Hok as [Hlen Hbs].
  assert (length (concat chains) = length xs) as Hall by (rewrite Hperm; apply length_fmap).
  induction fuel as [|fuel IH]; intros i Hi Hf; [lia|].
  cbn [fsck_buckets]. run_to fsck_table_run. rewrite Hnum.
  destruct (Z.ltb_spec (Z.of_nat i) (Z.of_nat (length bs))); [|by rewrite take_ge, Hall by lia].
  destruct (lookup_lt_is_Some_2 bs i) as [b Hb]; [lia|].
  destruct (lookup_lt_is_Some_2 chains i) as [c Hc]; [lia|].
  destruct (Hbs i b c Hb Hc) as (Hhead & Hcnt & Hl & _).
  assert (load_bucket (buckets t) (Z.of_nat i) m = Done (b, m)) as Hload
    by exact (load_bucket_run root fr _ _ _ _ _ _ _ bs i b Hm (list_elem_of_here _ _) Hb).
  run_to Hload. rewrite (bind_done _ _ m (size m) m eq_refl). rewrite Hhead.
  pose proof (umem_size _ _ _ _ _ _ _ _ Hm) as Hsize.
  pose proof (chain_short _ _ _ _ Hperm Hc) as Hshort.
  rewrite (bind_done _ _ _ _ _ (fsck_chain_run c (S (size m)) [] 0 Hl (chain_members H bs _ _ _ _ Hperm Hc)
    ltac:(lia) ltac:(lia) ltac:(lia))). cbn beta iota. run_to fsck_table_run. run_to Hload.
  rewrite Hcnt, Z.add_0_l, Z.eqb_refl. cbn [negb]. specialize (IH (S i) ltac:(lia) ltac:(lia)).
  rewrite (take_S_r _ _ _ Hc), concat_app, length_app in IH. cbn [concat] in IH. rewrite app_nil_r in IH.
  assert (length (concat (take i chains)) + length c ≤ length xs)%nat as Hle.
  { assert (concat chains = concat (take i chains) ++ concat (drop i chains)) as Heq
      by by rewrite <-concat_app, take_drop.
    rewrite <-Hall, Heq, (drop_S _ _ _ Hc). cbn [concat]. rewrite !length_app. lia. }
  rewrite !u32_small by lia. replace (Z.of_nat i + 1) with (Z.of_nat (S i)) by lia.
  rewrite <-Nat2Z.inj_add. exact IH.
Qed.
End fsck.

Lemma HASH_FSCK_run root fr xs lg m : urepr root fr xs lg m → HASH_FSCK root m = Done (true, m).
Proof.
  intros Hr. unfold HASH_FSCK. destruct Hr as [H m Hm|x xs ta t bs chains lg H m Hm Hok].
  { by run_to (load_head_run root fr _ _ _ _ _ _ Hm). }
  set (L := x :: xs) in *. destruct Hok as [Hlist Hitems Hkeys Hcount Hroom Htail Hhho Hlog Hlg Hnum Hlen Hbk Hperm].
  assert (∀ a, a ∈ addrs L → a ≠ 0) as Hpos.
  { intros a (y & -> & Hy)%list_elem_of_fmap. destruct (Hitems y Hy) as [? _]. lia. }
  assert (it_at x ∈ addrs L) as Hx by (apply elem_of_cons; by left).
  assert (tbl (H (it_at x)) = ta) as Htbl by (destruct (Hitems x) as (_ & _ & Ht & _); [apply elem_of_cons; by left|exact Ht]).
  run_to (load_head_run root fr _ _ _ _ _ _ Hm). destruct (Z.eqb_spec (it_at x) 0) as [H0|_]; [by apply Hpos in H0|].
  pose proof (fsck_table_run _ _ _ _ _ _ _ _ _ Hm Hx Htbl Hhho) as Ht. run_to Ht.
  pose proof (Z.pow_le_mono_r 2 lg 31 ltac:(lia) ltac:(lia)) as Hlg'.
  run_by (rewrite Hnum, <-Hlen, Nat2Z.id;
    apply (fsck_buckets_run _ _ _ _ _ _ _ _ _ Hm Hx Htbl Hpos Hhho Hroom chains (S (length bs)) 0 Hbk Hperm); lia).
  cbn beta iota. run_to Ht. rewrite Hcount, Z.eqb_refl. cbn [negb].
  rewrite (bind_done _ _ m (size m) m eq_refl). pose proof (umem_size _ _ _ _ _ _ _ _ Hm) as Hsize.
  run_by (apply (fsck_order_run _ _ _ _ _ _ _ _ _ Hm Hx Htbl Hpos Hhho (addrs L) (S (size m)) [] 0 Hlist);
    first [done | rewrite length_fmap; lia | lia]).
  cbn beta iota. run_to Ht. by rewrite length_fmap, Hcount, Z.add_0_l, Z.eqb_refl.
Qed.

(** ** What the check establishes

    On any memory: the links of a list and of the buckets, whatever the
    elements are. *)

Definition linked_in (P N : UT_hash_handle → Z) m (l1 l : list Z) : Prop :=
  ∀ u a w, l = u ++ a :: w →
    ∃ h, load_hh a m = Done (h, m) ∧ P h = last0 (l1 ++ u) ∧ N h = hd0 w ∧ a ≠ 0.

Lemma linked_in_nil P N m l1 : linked_in P N m l1 [].
Proof. intros u a w Heq. by destruct u. Qed.

Lemma linked_in_cons (P N : UT_hash_handle → Z) m l1 a l h :
  load_hh a m = Done (h, m) → P h = last0 l1 → N h = hd0 l → a ≠ 0 →
  linked_in P N m (l1 ++ [a]) l → linked_in P N m l1 (a :: l).
Proof.
  intros Hh HP HN Ha Hl [|b u] a' w; cbn; intros [= <- Heq].
  - exists h. rewrite app_nil_r. by subst.
  - destruct (Hl u a' w Heq) as (h' & ? & HP' & ? & ?). exists h'. by rewrite <-app_assoc in HP'.
Qed.

Lemma load_hh_inv a m h m' : load_hh a m = Done (h, m') → m' = m.
Proof. unfold load_hh. repeat case_match; congruence. Qed.
Lemma load_head_inv root m a m' : load_head root m = Done (a, m') → m' = m.
Proof. unfold load_head. repeat case_match; congruence. Qed.
Lemma load_bucket_inv a i m b m' : load_bucket a i m = Done (b, m') → m' = m.
Proof. unfold load_bucket. repeat case_match; congruence. Qed.

Lemma u32_add a b : u32 (u32 a + b) = u32 (a + b).
Proof. unfold u32. by rewrite Zplus_mod_idemp_l. Qed.

Lemma u32_idem a : u32 (u32 a) = u32 a.
Proof. apply Zmod_mod. Qed.

Lemma fsck_chain_sound fuel : ∀ m m' thh l1 cnt n,
  fsck_chain fuel thh (last0 l1) cnt m = Done (Some n, m') → cnt = u32 cnt →
  m' = m ∧ ∃ c, thh = hd0 c ∧ n = u32 (cnt + Z.of_nat (length c)) ∧ linked_in hh_prev hh_next m l1 c.
Proof.
  induction fuel as [|fuel IH]; intros m m' thh l1 cnt n Hrun Hcnt; [done|]. cbn [fsck_chain] in Hrun.
  destruct (Z.eqb_spec thh 0) as [->|Hne].
  { injection Hrun as <- <-. split; [done|]. exists []. rewrite Z.add_0_r. split; [done|].
    split; [done|apply linked_in_nil]. }
  apply bind_inv in Hrun as (h & m1 & Hh & Hrun). pose proof (load_hh_inv _ _ _ _ Hh) as ->.
  destruct (Z.eqb_spec (last0 l1) (hh_prev h)) as [Hp|]; [|done]. cbn [negb] in Hrun.
  rewrite <-(last0_snoc l1 thh) in Hrun.
  apply IH in Hrun as (-> & c & Hc & -> & Hl); [|by rewrite u32_idem]. split; [done|].
  exists (thh :: c). split; [done|]. split; [rewrite u32_add; f_equal; cbn [length]; lia|].
  by eapply linked_in_cons.
Qed.

Section sound.
Context (root : Z) (m : uheap) (t : UT_hash_table).
Context (Ht : the_table root m = Done (t, m)) (Hho : hho t = 0).

Lemma fsck_order_sound fuel : ∀ m' thh l1 cnt n,
  fsck_order fuel root thh (last0 l1) cnt m = Done (Some n, m') → cnt = u32 cnt →
  m' = m ∧ ∃ c, thh = hd0 c ∧ n = u32 (cnt + Z.of_nat (length c)) ∧ linked_in prev next m l1 c.
Proof.
  induction fuel as [|fuel IH]; intros m' thh l1 cnt n Hrun Hcnt; [done|]. cbn [fsck_order] in Hrun.
  destruct (Z.eqb_spec thh 0) as [->|Hne].
  { injection Hrun as <- <-. split; [done|]. exists []. rewrite Z.add_0_r. split; [done|].
    split; [done|apply linked_in_nil]. }
  apply bind_inv in Hrun as (h & m1 & Hh & Hrun). pose proof (load_hh_inv _ _ _ _ Hh) as ->.
  destruct (Z.eqb_spec (last0 l1) (prev h)) as [Hp|]; [|done]. cbn [negb] in Hrun.
  rewrite (bind_done _ _ _ _ _ Ht) in Hrun.
  assert (next_hh root thh m = Done (next h, m)) as Hn.
  { unfold next_hh. run_to Hh. destruct (Z.eqb_spec (next h) 0) as [->|]; [done|]. run_to Ht.
    by rewrite Hho, Z.add_0_r. }
  rewrite (bind_done _ _ _ _ _ Hn) in Hrun. unfold ELMT_FROM_HH in Hrun.
  rewrite Hho, Z.sub_0_r, <-(last0_snoc l1 thh) in Hrun.
  apply IH in Hrun as (-> & c & Hc & -> & Hl); [|by rewrite u32_idem]. split; [done|].
  exists (thh :: c). split; [done|]. split; [rewrite u32_add; f_equal; cbn [length]; lia|].
  by eapply linked_in_cons.
Qed.

(** Bucket [i] holds the chain [c]. *)
Definition bucket_holds (i : Z) c : Prop :=
  ∃ b, load_bucket (buckets t) i m = Done (b, m) ∧ hh_head b = hd0 c ∧
    count b = u32 (Z.of_nat (length c)) ∧ linked_in hh_prev hh_next m [] c.

Lemma fsck_buckets_sound fuel : ∀ m' i cnt n,
  fsck_buckets fuel root i cnt m = Done (Some n, m') → cnt = u32 cnt →
  0 ≤ i ≤ num_buckets t → num_buckets t < 2 ^ 32 →
  m' = m ∧ ∃ chains, i + Z.of_nat (length chains) = num_buckets t ∧
    n = u32 (cnt + Z.of_nat (length (concat chains))) ∧
    ∀ j c, chains !! j = Some c → bucket_holds (i + Z.of_nat j) c.
Proof.
  induction fuel as [|fuel IH]; intros m' i cnt n Hrun Hcnt Hi Hnum; [done|]. cbn [fsck_buckets] in Hrun.
  rewrite (bind_done _ _ _ _ _ Ht) in Hrun.
  destruct (Z.ltb_spec i (num_buckets t)) as [Hlt|Hge].
  2:{ injection Hrun as <- <-. split; [done|]. exists []. cbn. rewrite !Z.add_0_r. split; [lia|]. split; [done|].
      intros j c Hj. by rewrite lookup_nil in Hj. }
  apply bind_inv in Hrun as (b & m1 & Hb & Hrun). pose proof (load_bucket_inv _ _ _ _ _ Hb) as ->.
  rewrite (bind_done _ _ m (size m) m eq_refl) in Hrun.
  apply bind_inv in Hrun as (r & m1 & Hr & Hrun). destruct r as [k|]; [|done].
  change 0 with (last0 []) in Hr at 1. apply fsck_chain_sound in Hr as (-> & c & Hc & -> & Hl); [|done].
  rewrite (bind_done _ _ _ _ _ Ht), (bind_done _ _ _ _ _ Hb) in Hrun.
  destruct (Z.eqb_spec (count b) (u32 (0 + Z.of_nat (length c)))) as [Hcount|]; [|done]. cbn [negb] in Hrun.
  rewrite (u32_small (i + 1)) in Hrun by lia.
  apply IH in Hrun as (-> & chains & Hlen & -> & Hch); [|by rewrite u32_idem|lia..].
  split; [done|]. exists (c :: chains). split; [cbn [length]; lia|]. split.
  - cbn [concat]. rewrite length_app, u32_add, Nat2Z.inj_add, (Z.add_comm cnt), <-Z.add_assoc, Z.add_0_l, u32_add.
    f_equal. lia.
  - intros [|j] c'; cbn; intros Hj; [injection Hj as <-|].
    + rewrite Z.add_0_r. exists b. split_and!; try done.
    + apply Hch in Hj. by replace (i + Z.of_nat (S j)) with (i + 1 + Z.of_nat j) by lia.
Qed.

Lemma HASH_FSCK_sound hd m' :
  load_head root m = Done (hd, m) → hd ≠ 0 → 0 ≤ num_buckets t < 2 ^ 32 →
  HASH_FSCK root m = Done (true, m') →
  m' = m ∧
  (∃ c, hd = hd0 c ∧ num_items t = u32 (Z.of_nat (length c)) ∧ linked_in prev next m [] c) ∧
  ∃ chains, Z.of_nat (length chains) = num_buckets t ∧
    num_items t = u32 (Z.of_nat (length (concat chains))) ∧
    ∀ i c, chains !! i = Some c → bucket_holds (Z.of_nat i) c.
Proof.
  intros Hhd Hne Hnum Hrun. unfold HASH_FSCK in Hrun. rewrite (bind_done _ _ _ _ _ Hhd) in Hrun.
  destruct (Z.eqb_spec hd 0) as [|_]; [done|]. rewrite (bind_done _ _ _ _ _ Ht) in Hrun.
  apply bind_inv in Hrun as (r & m1 & Hr & Hrun). destruct r as [k|]; [|done].
  apply fsck_buckets_sound in Hr as (-> & chains & Hlen & -> & Hch); [|done|lia..].
  rewrite (bind_done _ _ _ _ _ Ht) in Hrun.
  destruct (Z.eqb_spec (u32 (0 + Z.of_nat (length (concat chains)))) (num_items t)) as [Hk|]; [|done].
  cbn [negb] in Hrun. rewrite (bind_done _ _ m (size m) m eq_refl) in Hrun.
  apply bind_inv in Hrun as (r & m1 & Hr & Hrun). destruct r as [k|]; [|done].
  change 0 with (last0 []) in Hr at 1. apply fsck_order_sound in Hr as (-> & c & Hc & -> & Hl); [|done].
  rewrite (bind_done _ _ _ _ _ Ht) in Hrun. injection Hrun as Hk' <-. apply Z.eqb_eq in Hk'.
  split; [done|]. split; [by exists c|]. by exists chains.
Qed.
End sound.
