(* ===== verification/UtHashFns.v ===== *)
(** * UtHashFns: the other hash functions of uthash.h

    HASH_FUNCTION selects the hash function of a program; uthash.c keeps the
    default, HASH_JEN of [UtHash].  Here are the others, on [unsigned] and on
    the bytes of the key, with [char] signed and words read little-endian as on
    x86-64.  [HashFcn] states what the table relies on: the function reads no
    byte behind the key, gives a 32-bit value, and selects the bucket by the
    mask.  Every one has it but HASH_MUR, whose last step multiplies in [long]
    and can overflow ([HASH_MUR_overflow]).  The Bloom filter of a program that
    defines HASH_BLOOM is at the end. *)

From S2P Require Import Prelude.
From S2P Require Import Heap.
From S2P Require Import UtHash.
From S2P Require Import UtTable.

(** ** The functions *)

(** A [char] as an operand of [unsigned] arithmetic. *)
Definition char_operand (c : Z) : Z := u32 (s8 c).

(** [x << n] of an [unsigned]. *)
Definition shl32 (x n : Z) : Z := u32 (Z.shiftl x n).

Definition to_bkt (hashv num_bkts : Z) : Z * Z := (hashv, Z.land hashv (u32 (num_bkts - 1))).

(** [while (_hb_keylen--)]. *)
Fixpoint ber_loop (fuel : nat) (bytes : list Z) (pos k hashv : Z) : outcome Z :=
  match fuel with
  | O => NoFuel
  | S fuel =>
      if k =? 0 then Done hashv
      else
        c ← buf_get bytes pos;
        ber_loop fuel bytes (pos + 1) (u32 (k - 1)) (u32 (u32 (hashv * 33) + char_operand c))
  end.
Definition HASH_BER (bytes : list Z) (keylen num_bkts : Z) : outcome (Z * Z) :=
  let k := u32 keylen in
  h ← ber_loop (S (Z.to_nat k)) bytes 0 k 0;
  Done (to_bkt h num_bkts).

(** [for (i = 0; i < keylen; i++)] with the loop's body [f]. *)
Fixpoint char_loop (f : Z → Z → Z) (fuel : nat) (bytes : list Z) (i keylen hashv : Z) : outcome Z :=
  match fuel with
  | O => NoFuel
  | S fuel =>
      if i <? keylen then
        c ← buf_get bytes i;
        char_loop f fuel bytes (u32 (i + 1)) keylen (f hashv (char_operand c))
      else Done hashv
  end.

Definition sax_step (h c : Z) : Z := Z.lxor h (u32 (u32 (shl32 h 5 + Z.shiftr h 2) + c)).
Definition HASH_SAX (bytes : list Z) (keylen num_bkts : Z) : outcome (Z * Z) :=
  h ← char_loop sax_step (S (Z.to_nat keylen)) bytes 0 keylen 0;
  Done (to_bkt h num_bkts).

Definition fnv_step (h c : Z) : Z := Z.lxor (u32 (h * 16777619)) c.
Definition HASH_FNV (bytes : list Z) (keylen num_bkts : Z) : outcome (Z * Z) :=
  h ← char_loop fnv_step (S (Z.to_nat keylen)) bytes 0 keylen 2166136261;
  Done (to_bkt h num_bkts).

Definition oat_step (h c : Z) : Z :=
  let h := u32 (h + c) in
  let h := u32 (h + shl32 h 10) in
  Z.lxor h (Z.shiftr h 6).
Definition HASH_OAT (bytes : list Z) (keylen num_bkts : Z) : outcome (Z * Z) :=
  h ← char_loop oat_step (S (Z.to_nat keylen)) bytes 0 keylen 0;
  let h := u32 (h + shl32 h 3) in
  let h := Z.lxor h (Z.shiftr h 11) in
  let h := u32 (h + shl32 h 15) in
  Done (to_bkt h num_bkts).

(** *** The Paul Hsieh hash function *)

Definition get16bits (bytes : list Z) (d : Z) : outcome Z :=
  b1 ← buf_get bytes (d + 1);
  b0 ← buf_get bytes d;
  Done (u32 (shl32 b1 8 + b0)).

(** The blocks of four bytes: the hash and the position reached. *)
Fixpoint sfh_loop (fuel : nat) (bytes : list Z) (pos len hashv : Z) : outcome (Z * Z) :=
  match fuel with
  | O => NoFuel
  | S fuel =>
      if 0 <? len then
        g ← get16bits bytes pos;
        let h := u32 (hashv + g) in
        g ← get16bits bytes (pos + 2);
        let tmp := Z.lxor (shl32 g 11) h in
        let h := Z.lxor (shl32 h 16) tmp in
        let h := u32 (h + Z.shiftr h 11) in
        sfh_loop fuel bytes (pos + 4) (len - 1) h
      else Done (hashv, pos)
  end.

Definition sfh_end (bytes : list Z) (pos rem h : Z) : outcome Z :=
  if rem =? 3 then
    g ← get16bits bytes pos;
    let h := u32 (h + g) in
    let h := Z.lxor h (shl32 h 16) in
    b ← buf_get bytes (pos + 2);
    let h := Z.lxor h (u32 (Z.shiftl b 18)) in
    Done (u32 (h + Z.shiftr h 11))
  else if rem =? 2 then
    g ← get16bits bytes pos;
    let h := u32 (h + g) in
    let h := Z.lxor h (shl32 h 11) in
    Done (u32 (h + Z.shiftr h 17))
  else if rem =? 1 then
    b ← buf_get bytes pos;
    let h := u32 (h + b) in
    let h := Z.lxor h (shl32 h 10) in
    Done (u32 (h + Z.shiftr h 1))
  else Done h.

Definition sfh_avalanche (h : Z) : Z :=
  let h := Z.lxor h (shl32 h 3) in
  let h := u32 (h + Z.shiftr h 5) in
  let h := Z.lxor h (shl32 h 4) in
  let h := u32 (h + Z.shiftr h 17) in
  let h := Z.lxor h (shl32 h 25) in
  u32 (h + Z.shiftr h 6).

Definition HASH_SFH (bytes : list Z) (keylen num_bkts : Z) : outcome (Z * Z) :=
  let len := u32 keylen in
  let rem := Z.land len 3 in
  let len := Z.shiftr len 2 in
  r ← sfh_loop (S (Z.to_nat len)) bytes 0 len 3405691582;
  h ← sfh_end bytes r.2 rem r.1;
  Done (to_bkt (sfh_avalanche h) num_bkts).

(** ** The Bloom filter

    With HASH_BLOOM defined, a table keeps [2 ^ HASH_BLOOM] bits, one of which
    is set for every element that is added, and a lookup whose bit is clear does
    not search its bucket.  [bloom_nbits] is HASH_BLOOM, which the manual allows
    up to 32. *)

Definition HASH_BLOOM_BITLEN (bloom_nbits : Z) : Z := u64 (Z.shiftl 1 bloom_nbits).
Definition HASH_BLOOM_BYTELEN (bloom_nbits : Z) : Z :=
  HASH_BLOOM_BITLEN bloom_nbits / 8 + (if HASH_BLOOM_BITLEN bloom_nbits mod 8 =? 0 then 0 else 1).

(** The array [bloom_bv] when it has been allocated and zeroed. *)
Definition HASH_BLOOM_MAKE (bloom_nbits : Z) : list Z := replicate (Z.to_nat (HASH_BLOOM_BYTELEN bloom_nbits)) 0.

Definition HASH_BLOOM_BITSET (bv : list Z) (idx : Z) : outcome (list Z) :=
  b ← buf_get bv (idx / 8);
  Done (<[Z.to_nat (idx / 8) := u8 (Z.lor b (Z.shiftl 1 (idx mod 8)))]> bv).
Definition HASH_BLOOM_BITTEST (bv : list Z) (idx : Z) : outcome Z :=
  b ← buf_get bv (idx / 8);
  Done (Z.land b (Z.shiftl 1 (idx mod 8))).

(** [hashv & (uint32_t)((1ULL << bloom_nbits) - 1)] *)
Definition bloom_idx (bloom_nbits hashv : Z) : Z := Z.land hashv (u32 (u64 (Z.shiftl 1 bloom_nbits) - 1)).

Definition HASH_BLOOM_ADD (bloom_nbits : Z) (bv : list Z) (hashv : Z) : outcome (list Z) :=
  HASH_BLOOM_BITSET bv (bloom_idx bloom_nbits hashv).
Definition HASH_BLOOM_TEST (bloom_nbits : Z) (bv : list Z) (hashv : Z) : outcome Z :=
  HASH_BLOOM_BITTEST bv (bloom_idx bloom_nbits hashv).

(** All elements of a table. *)
Fixpoint bloom_add_all (bloom_nbits : Z) (bv : list Z) (hashvs : list Z) : outcome (list Z) :=
  match hashvs with
  | [] => Done bv
  | h :: hashvs => bv ← HASH_BLOOM_ADD bloom_nbits bv h; bloom_add_all bloom_nbits bv hashvs
  end.

(** *** MurmurHash, with HASH_USING_NO_STRICT_ALIASING *)

(** [p[i]], four bytes at [pos]. *)
Definition MUR_GETBLOCK (bytes : list Z) (pos : Z) : outcome Z := jen_word bytes pos.
Definition MUR_ROTL32 (x r : Z) : Z := Z.lor (shl32 x r) (Z.shiftr x (32 - r)).

(** [0xc2b2ae35l] is a [long], and so is the product. *)
Definition MUR_FMIX (h : Z) : outcome Z :=
  let h := Z.lxor h (Z.shiftr h 16) in
  let h := u32 (h * 2246822507) in
  let h := Z.lxor h (Z.shiftr h 13) in
  if 2 ^ 63 <=? h * 3266489909 then Undef
  else
    let h := u32 (h * 3266489909) in
    Done (Z.lxor h (Z.shiftr h 16)).

Definition mur_k1 (k : Z) : Z := u32 (MUR_ROTL32 (u32 (k * 3432918353)) 15 * 461845907).

Fixpoint mur_loop (n : nat) (bytes : list Z) (pos h : Z) : outcome Z :=
  match n with
  | O => Done h
  | S n =>
      k ← MUR_GETBLOCK bytes pos;
      let h := Z.lxor h (mur_k1 k) in
      let h := MUR_ROTL32 h 13 in
      mur_loop n bytes (pos + 4) (u32 (u32 (h * 5) + 3864292196))
  end.

(** [case n: _mur_k1 ^= _mur_tail[n - 1] << shift], reached from [n] on. *)
Definition mur_case (bytes : list Z) (pos rem n shift k : Z) : outcome Z :=
  if n <=? rem then b ← buf_get bytes (pos + n - 1); Done (Z.lxor k (Z.shiftl b shift)) else Done k.

Definition mur_tail (bytes : list Z) (pos rem h : Z) : outcome Z :=
  k ← mur_case bytes pos rem 3 16 0;
  k ← mur_case bytes pos rem 2 8 k;
  k ← mur_case bytes pos rem 1 0 k;
  Done (if 1 <=? rem then Z.lxor h (mur_k1 k) else h).

Definition HASH_MUR (bytes : list Z) (keylen num_bkts : Z) : outcome (Z * Z) :=
  let nblocks := keylen / 4 in
  h ← mur_loop (Z.to_nat nblocks) bytes 0 4170011475;
  h ← mur_tail bytes (nblocks * 4) (Z.land keylen 3) h;
  h ← MUR_FMIX (Z.lxor h (u32 keylen));
  Done (to_bkt h num_bkts).

(** ** What the table relies on *)

Class HashFcn (f : list Z → Z → Z → outcome (Z * Z)) : Prop :=
  hash_fcn : ∀ k, ukey k → ∃ h, 0 ≤ h < 2 ^ 32 ∧ ∀ n, f (cstr k) (Z.of_nat (length k)) n = Done (to_bkt h n).

(** The bucket of a table with a power of two of them. *)
Lemma HashFcn_bucket f `{!HashFcn f} k lg :
  ukey k → 0 ≤ lg ≤ 31 →
  ∃ h b, f (cstr k) (Z.of_nat (length k)) (2 ^ lg) = Done (h, b) ∧ 0 ≤ h < 2 ^ 32 ∧
    b = h mod 2 ^ lg ∧ 0 ≤ b < 2 ^ lg.
Proof.
  intros Hk Hlg. destruct (hash_fcn k Hk) as (h & Hh & Hrun). exists h, (h mod 2 ^ lg).
  rewrite Hrun. unfold to_bkt. rewrite u32_mask, land_mask by lia. split; [done|]. split; [done|].
  split; [done|]. apply Z.mod_pos_bound. lia.
Qed.

(** *** Ranges *)

Definition in32 (z : Z) : Prop := 0 ≤ z < 2 ^ 32.

Lemma in32_u32 z : in32 (u32 z).
Proof. apply u32_range. Qed.

Lemma in32_land z : in32 z ↔ Z.land z (Z.ones 32) = z.
Proof.
  rewrite Z.land_ones by lia. unfold in32. split; [apply Z.mod_small|]. intros <-.
  apply Z.mod_pos_bound. lia.
Qed.

Lemma in32_lxor a b : in32 a → in32 b → in32 (Z.lxor a b).
Proof. rewrite !in32_land. intros <- <-. apply Z.bits_inj'. intros n _. rewrite !Z.land_spec, Z.lxor_spec, !Z.land_spec. by destruct (Z.testbit a n), (Z.testbit b n), (Z.testbit (Z.ones 32) n). Qed.

Lemma in32_lor a b : in32 a → in32 b → in32 (Z.lor a b).
Proof. rewrite !in32_land. intros <- <-. apply Z.bits_inj'. intros n _. rewrite !Z.land_spec, Z.lor_spec, !Z.land_spec. by destruct (Z.testbit a n), (Z.testbit b n), (Z.testbit (Z.ones 32) n). Qed.

Lemma in32_shiftr a n : 0 ≤ n → in32 a → in32 (Z.shiftr a n).
Proof.
  unfold in32. intros Hn Ha. rewrite Z.shiftr_div_pow2 by done. pose proof (Z.pow_pos_nonneg 2 n).
  split; [apply Z.div_pos; lia|]. apply Z.le_lt_trans with a; [|lia]. apply Z.div_le_upper_bound; nia.
Qed.

Create HintDb in32.
#[export] Hint Resolve in32_u32 in32_lxor in32_lor : in32.
#[export] Hint Extern 1 (in32 (Z.shiftr _ _)) => apply in32_shiftr; [lia|] : in32.
#[export] Hint Extern 1 (in32 (shl32 _ _)) => apply in32_u32 : in32.
#[export] Hint Extern 1 (in32 (Zpos _)) => by vm_compute : in32.

(** *** Loops over the bytes *)

Lemma ber_loop_total fuel : ∀ bytes pos k h,
  0 ≤ pos → 0 ≤ k < 2 ^ 32 → pos + k ≤ Z.of_nat (length bytes) → (Z.to_nat k < fuel)%nat → in32 h →
  ∃ h', ber_loop fuel bytes pos k h = Done h' ∧ in32 h'.
Proof.
  induction fuel as [|fuel IH]; intros bytes pos k h Hp Hk Hl Hf Hh; [lia|]. cbn [ber_loop].
  destruct (Z.eqb_spec k 0); [by exists h|]. destruct (buf_get_total bytes pos) as [c ->]; [lia|].
  cbn -[u32]. rewrite (u32_small (k - 1)) by lia. apply IH; (lia || auto with in32).
Qed.

Lemma char_loop_total f : (∀ h c, in32 h → in32 c → in32 (f h c)) → ∀ fuel bytes i n h,
  0 ≤ i ≤ n → n < 2 ^ 32 → n ≤ Z.of_nat (length bytes) → (Z.to_nat (n - i) < fuel)%nat → in32 h →
  ∃ h', char_loop f fuel bytes i n h = Done h' ∧ in32 h'.
Proof.
  intros Hf. induction fuel as [|fuel IH]; intros bytes i n h Hi Hn Hl Hfu Hh; [lia|]. cbn [char_loop].
  destruct (Z.ltb_spec i n); [|by exists h]. destruct (buf_get_total bytes i) as [c ->]; [lia|].
  cbn -[u32 char_operand]. rewrite u32_small by lia. apply IH; try lia. apply Hf; [done|apply in32_u32].
Qed.

Lemma char_loop_key f k h :
  (∀ h c, in32 h → in32 c → in32 (f h c)) → ukey k → in32 h →
  ∃ h', char_loop f (S (Z.to_nat (Z.of_nat (length k)))) (cstr k) 0 (Z.of_nat (length k)) h = Done h' ∧ in32 h'.
Proof. intros Hf [_ Hk] Hh. apply char_loop_total; rewrite ?length_cstr; (done || lia). Qed.

#[export] Instance HASH_BER_fcn : HashFcn HASH_BER.
Proof.
  intros k [_ Hk]. unfold HASH_BER. rewrite u32_small by lia.
  destruct (ber_loop_total (S (Z.to_nat (Z.of_nat (length k)))) (cstr k) 0 (Z.of_nat (length k)) 0)
    as (h & -> & Hh); rewrite ?length_cstr; [lia..|done|]. by exists h.
Qed.

#[export] Instance HASH_SAX_fcn : HashFcn HASH_SAX.
Proof.
  intros k Hk. destruct (char_loop_key sax_step k 0) as (h & Hrun & Hh); [|done..|].
  - intros h c Hh Hc. unfold sax_step. auto with in32.
  - exists h. split; [done|]. intros n. unfold HASH_SAX. by rewrite Hrun.
Qed.

#[export] Instance HASH_FNV_fcn : HashFcn HASH_FNV.
Proof.
  intros k Hk. destruct (char_loop_key fnv_step k 2166136261) as (h & Hrun & Hh); [|done..|].
  - intros h c Hh Hc. unfold fnv_step. auto with in32.
  - exists h. split; [done|]. intros n. unfold HASH_FNV. by rewrite Hrun.
Qed.

#[export] Instance HASH_OAT_fcn : HashFcn HASH_OAT.
Proof.
  intros k Hk. destruct (char_loop_key oat_step k 0) as (h & Hrun & Hh); [|done..|].
  - intros h c Hh Hc. unfold oat_step. auto 6 with in32.
  - eexists. split; [|intros n; unfold HASH_OAT; rewrite Hrun; reflexivity]. apply in32_u32.
Qed.

(** *** Paul Hsieh's function *)

Lemma get16bits_total bytes d :
  0 ≤ d → d + 2 ≤ Z.of_nat (length bytes) → ∃ g, get16bits bytes d = Done g ∧ in32 g.
Proof.
  intros Hd Hl. unfold get16bits. destruct (buf_get_total bytes (d + 1)) as [b1 ->]; [lia|].
  destruct (buf_get_total bytes d) as [b0 Hb0]; [lia|]. cbn -[u32 shl32]. rewrite Hb0. eexists. split; [reflexivity|].
  apply in32_u32.
Qed.

Lemma sfh_loop_total fuel : ∀ bytes pos len h,
  0 ≤ pos → 0 ≤ len → pos + 4 * len ≤ Z.of_nat (length bytes) → (Z.to_nat len < fuel)%nat → in32 h →
  ∃ h', sfh_loop fuel bytes pos len h = Done (h', pos + 4 * len) ∧ in32 h'.
Proof.
  induction fuel as [|fuel IH]; intros bytes pos len h Hp Hn Hl Hf Hh; [lia|]. cbn [sfh_loop].
  destruct (Z.ltb_spec 0 len); [|exists h; split; [do 2 f_equal; lia|done]].
  destruct (get16bits_total bytes pos) as (g1 & -> & _); [lia..|].
  destruct (get16bits_total bytes (pos + 2)) as (g2 & Hg2 & _); [lia..|].
  cbn -[u32 shl32 get16bits Z.mul]. rewrite Hg2. cbn -[u32 shl32 Z.mul].
  replace (pos + 4 * len) with (pos + 4 + 4 * (len - 1)) by lia. apply IH; try lia. apply in32_u32.
Qed.

Lemma sfh_end_total bytes pos rem h :
  0 ≤ pos → 0 ≤ rem < 4 → pos + rem ≤ Z.of_nat (length bytes) → in32 h →
  ∃ h', sfh_end bytes pos rem h = Done h'.
Proof.
  intros Hp Hr Hl Hh. unfold sfh_end.
  destruct (Z.eqb_spec rem 3) as [->|]; [|destruct (Z.eqb_spec rem 2) as [->|];
    [|destruct (Z.eqb_spec rem 1) as [->|]; [|by exists h]]].
  - destruct (get16bits_total bytes pos) as (g & -> & _); [lia..|].
    destruct (buf_get_total bytes (pos + 2)) as [b Hb]; [lia|]. cbn -[u32 shl32]. rewrite Hb. by eexists.
  - destruct (get16bits_total bytes pos) as (g & -> & _); [lia..|]. by eexists.
  - destruct (buf_get_total bytes pos) as [b ->]; [lia|]. by eexists.
Qed.

(** The length in words and what is left. *)
Lemma words_and_rest z : 0 ≤ z → 4 * Z.shiftr z 2 + Z.land z 3 = z ∧ 0 ≤ Z.shiftr z 2 ∧ 0 ≤ Z.land z 3 < 4.
Proof.
  intros Hz. rewrite Z.shiftr_div_pow2 by lia. change (Z.land z 3) with (Z.land z (Z.ones 2)).
  rewrite Z.land_ones by lia. change (2 ^ 2) with 4. pose proof (Z.div_mod z 4 ltac:(lia)).
  pose proof (Z.mod_pos_bound z 4 ltac:(lia)). pose proof (Z.div_pos z 4). lia.
Qed.

#[export] Instance HASH_SFH_fcn : HashFcn HASH_SFH.
Proof.
  intros k [_ Hk]. unfold HASH_SFH. rewrite u32_small by lia. set (z := Z.of_nat (length k)).
  assert (Z.of_nat (length (cstr k)) = z + 1) as Hlen by (rewrite length_cstr; lia).
  destruct (words_and_rest z ltac:(lia)) as (Hz & Hw & Hr).
  destruct (sfh_loop_total (S (Z.to_nat (Z.shiftr z 2))) (cstr k) 0 (Z.shiftr z 2) 3405691582)
    as (h & Hrun & Hh); [lia..|done|].
  destruct (sfh_end_total (cstr k) (4 * Z.shiftr z 2) (Z.land z 3) h) as (h' & Hend); [lia..|done|].
  exists (sfh_avalanche h'). split; [apply in32_u32|]. intros n. cbn zeta. rewrite Z.add_0_l in Hrun.
  rewrite Hrun. cbn -[sfh_end sfh_avalanche Z.mul Z.shiftr Z.land]. by rewrite Hend.
Qed.

(** *** Jenkins' function *)

Lemma jen_mix_in32 x : in32 (HASH_JEN_MIX x).2.
Proof. destruct x as [[a b] c]. unfold HASH_JEN_MIX. cbn [snd]. auto 8 with in32. Qed.

#[export] Instance HASH_JEN_fcn : HashFcn HASH_JEN.
Proof.
  intros k Hk. exists (jen k). split; [|intros n; by apply HASH_JEN_run].
  pose proof (HASH_JEN_run k 1 Hk) as Hrun. unfold HASH_JEN in Hrun.
  destruct (jen_loop _ _ _ _ _) as [[[pos k'] [[i j] h]]| | |]; cbn -[jen_tail HASH_JEN_MIX] in Hrun; try done.
  destruct (jen_tail _ _ _ _) as [y| | |]; cbn -[HASH_JEN_MIX] in Hrun; try done.
  pose proof (jen_mix_in32 y) as Hr. destruct (HASH_JEN_MIX y) as [[i' j'] h'].
  by injection Hrun as <- _.
Qed.

(** *** MurmurHash *)

Lemma mur_loop_total n : ∀ bytes pos h,
  0 ≤ pos → pos + 4 * Z.of_nat n ≤ Z.of_nat (length bytes) → in32 h →
  ∃ h', mur_loop n bytes pos h = Done h' ∧ in32 h'.
Proof.
  induction n as [|n IH]; intros bytes pos h Hp Hl Hh; cbn [mur_loop]; [by exists h|].
  unfold MUR_GETBLOCK. destruct (jen_word_total bytes pos) as [w ->]; [lia..|].
  cbn -[jen_word mur_k1 MUR_ROTL32 u32]. apply IH; (lia || apply in32_u32).
Qed.

Lemma mur_tail_total bytes pos rem h :
  0 ≤ pos → 0 ≤ rem → pos + rem ≤ Z.of_nat (length bytes) → in32 h →
  ∃ h', mur_tail bytes pos rem h = Done h' ∧ in32 h'.
Proof.
  intros Hp Hr Hl Hh. assert (∀ n s k, 1 ≤ n → ∃ k', mur_case bytes pos rem n s k = Done k') as Hc.
  { intros n s k Hn. unfold mur_case. destruct (Z.leb_spec n rem); [|by eexists].
    destruct (buf_get_total bytes (pos + n - 1)) as [b ->]; [lia|]. by eexists. }
  unfold mur_tail. destruct (Hc 3 16 0) as [k3 ->]; [lia|]. cbn -[mur_case mur_k1].
  destruct (Hc 2 8 k3) as [k2 ->]; [lia|]. cbn -[mur_case mur_k1].
  destruct (Hc 1 0 k2) as [k1 ->]; [lia|]. cbn -[mur_k1]. eexists. split; [reflexivity|].
  case_match; [|done]. apply in32_lxor; [done|apply in32_u32].
Qed.

(** HASH_MUR reads the bytes of the key only, and is defined unless the product
    of its last step, a function of the value mixed so far, overflows. *)
Lemma HASH_MUR_total k :
  ukey k → ∃ h, in32 h ∧ ∀ n, HASH_MUR (cstr k) (Z.of_nat (length k)) n = (h ← MUR_FMIX h; Done (to_bkt h n)).
Proof.
  intros [_ Hk]. unfold HASH_MUR. set (z := Z.of_nat (length k)).
  assert (Z.of_nat (length (cstr k)) = z + 1) as Hlen by (rewrite length_cstr; lia).
  destruct (words_and_rest z ltac:(lia)) as (Hz & Hw & Hr).
  rewrite Z.shiftr_div_pow2 in Hz, Hw by lia. change (2 ^ 2) with 4 in Hz, Hw.
  destruct (mur_loop_total (Z.to_nat (z / 4)) (cstr k) 0 4170011475) as (h & Hrun & Hh); [lia|lia|done|].
  destruct (mur_tail_total (cstr k) (z / 4 * 4) (Z.land z 3) h) as (h' & Hend & Hh'); [lia..|done|].
  exists (Z.lxor h' (u32 z)). split; [apply in32_lxor; [done|apply in32_u32]|]. intros n. cbn zeta.
  rewrite Hrun. cbn -[mur_tail MUR_FMIX Z.land Z.div Z.mul u32]. by rewrite Hend.
Qed.

(** The product overflows for some keys of one byte, and not for others. *)
Lemma HASH_MUR_overflow :
  HASH_MUR (cstr [100]) 1 32 = Undef ∧ HASH_MUR (cstr [97]) 1 32 = Done (55066622, 30).
Proof. by vm_compute. Qed.

(** ** The Bloom filter has no false negatives *)

Section bloom.
Context (n : Z) (Hn : 0 ≤ n ≤ 32).
Implicit Types (bv hs : list Z) (h i : Z).

Lemma bloom_bits : HASH_BLOOM_BITLEN n = 2 ^ n ∧ ∀ h, bloom_idx n h = h mod 2 ^ n.
Proof.
  pose proof (Z.pow_le_mono_r 2 n 32 ltac:(lia) ltac:(lia)) as Hp. pose proof (Z.pow_pos_nonneg 2 n ltac:(lia) ltac:(lia)).
  assert (u64 (Z.shiftl 1 n) = 2 ^ n) as Hu by (rewrite Z.shiftl_1_l, u64_small; lia).
  split; [done|]. intros h. unfold bloom_idx. rewrite Hu, u32_small by lia. apply land_mask. lia.
Qed.

Lemma bloom_idx_range h : 0 ≤ bloom_idx n h < 2 ^ n.
Proof. destruct bloom_bits as [_ ->]. apply Z.mod_pos_bound. lia. Qed.

Lemma bloom_bytes i : 0 ≤ i < 2 ^ n → 0 ≤ i / 8 < HASH_BLOOM_BYTELEN n.
Proof.
  intros Hi. unfold HASH_BLOOM_BYTELEN. destruct bloom_bits as [-> _].
  pose proof (Z.div_mod (2 ^ n) 8 ltac:(lia)). pose proof (Z.div_mod i 8 ltac:(lia)).
  pose proof (Z.mod_pos_bound i 8 ltac:(lia)). pose proof (Z.mod_pos_bound (2 ^ n) 8 ltac:(lia)).
  destruct (Z.eqb_spec (2 ^ n mod 8) 0); nia.
Qed.

(** The bits of an array of bytes. *)
Definition bloom_bit bv i : bool := Z.testbit (bv !!! Z.to_nat (i / 8)) (i mod 8).
Definition bloom_ok bv : Prop :=
  Z.of_nat (length bv) = HASH_BLOOM_BYTELEN n ∧ Forall (λ b, 0 ≤ b < 256) bv.

Lemma bloom_get bv i : bloom_ok bv → 0 ≤ i < 2 ^ n →
  buf_get bv (i / 8) = Done (bv !!! Z.to_nat (i / 8)) ∧ 0 ≤ bv !!! Z.to_nat (i / 8) < 256.
Proof.
  intros [Hlen Hb] Hi%bloom_bytes. destruct (lookup_lt_is_Some_2 bv (Z.to_nat (i / 8))) as [b Hbv]; [lia|].
  rewrite (list_lookup_total_correct _ _ _ Hbv). split; [apply buf_get_Some; [lia|done]|].
  rewrite Forall_forall in Hb. by eapply Hb, list_elem_of_lookup_2.
Qed.

Lemma bloom_test_run bv i : bloom_ok bv → 0 ≤ i < 2 ^ n →
  ∃ r, HASH_BLOOM_BITTEST bv i = Done r ∧ (r ≠ 0 ↔ bloom_bit bv i = true).
Proof.
  intros Hok Hi. destruct (bloom_get bv i Hok Hi) as [Hget _]. unfold HASH_BLOOM_BITTEST, bloom_bit. rewrite Hget.
  eexists. split; [reflexivity|]. set (b := bv !!! _). pose proof (Z.mod_pos_bound i 8 ltac:(lia)).
  rewrite Z.shiftl_1_l. split.
  - intros Hne. destruct (Z.testbit b (i mod 8)) eqn:E; [done|]. exfalso. apply Hne. apply Z.bits_inj'. intros k Hk.
    rewrite Z.land_spec, Z.pow2_bits_eqb, Z.bits_0 by lia. destruct (Z.eqb_spec (i mod 8) k) as [<-|]; [by rewrite E|].
    apply andb_false_r.
  - intros Hb H0. assert (Z.testbit (Z.land b (2 ^ (i mod 8))) (i mod 8) = false) as Hc by (by rewrite H0, Z.bits_0).
    rewrite Z.land_spec, Hb, Z.pow2_bits_true in Hc by lia. done.
Qed.

Lemma byte_set_bit b k : 0 ≤ b < 256 → 0 ≤ k < 8 → 0 ≤ Z.lor b (Z.shiftl 1 k) < 256.
Proof.
  intros Hb Hk. assert (0 ≤ Z.lor b (Z.shiftl 1 k)) as H0.
  { apply Z.lor_nonneg. split; [lia|]. apply Z.shiftl_nonneg. lia. }
  split; [done|]. assert (Z.lor b (Z.shiftl 1 k) = Z.lor b (Z.shiftl 1 k) mod 2 ^ 8) as ->.
  { apply Z.bits_inj'. intros j Hj. destruct (Z.lt_ge_cases j 8); [by rewrite Z.mod_pow2_bits_low by lia|].
    rewrite Z.mod_pow2_bits_high by lia. rewrite Z.lor_spec, Z.shiftl_1_l, Z.pow2_bits_false by lia.
    rewrite orb_false_r. destruct (decide (b = 0)) as [->|]; [apply Z.bits_0|]. apply Z.bits_above_log2; [lia|].
    apply Z.log2_lt_pow2; [lia|]. apply Z.lt_le_trans with (2 ^ 8); [lia|]. apply Z.pow_le_mono_r; lia. }
  apply Z.mod_pos_bound. lia.
Qed.

Lemma bloom_set_run bv i : bloom_ok bv → 0 ≤ i < 2 ^ n →
  ∃ bv', HASH_BLOOM_BITSET bv i = Done bv' ∧ bloom_ok bv' ∧
    ∀ j, 0 ≤ j < 2 ^ n → bloom_bit bv' j = (i =? j) || bloom_bit bv j.
Proof.
  intros Hok Hi. destruct (bloom_get bv i Hok Hi) as [Hget Hrange]. unfold HASH_BLOOM_BITSET. rewrite Hget.
  set (b := bv !!! _) in *. pose proof (Z.mod_pos_bound i 8 ltac:(lia)) as Hmod.
  pose proof (byte_set_bit b (i mod 8) Hrange Hmod) as Hset. destruct Hok as [Hlen Hb].
  pose proof (bloom_bytes i Hi) as Hidx. cbn [mbind outcome_bind].
  rewrite u8_small by done. eexists. split; [reflexivity|]. split; [split|].
  - by rewrite length_insert.
  - by apply Forall_insert.
  - intros j Hj. unfold bloom_bit. destruct (decide (i / 8 = j / 8)) as [He|Hne].
    + rewrite <-He, list_lookup_total_insert_eq by lia. rewrite Z.lor_spec, Z.shiftl_1_l, Z.pow2_bits_eqb by lia.
      fold b. rewrite orb_comm. f_equal. pose proof (Z.div_mod i 8 ltac:(lia)). pose proof (Z.div_mod j 8 ltac:(lia)).
      destruct (Z.eqb_spec (i mod 8) (j mod 8)), (Z.eqb_spec i j); try done; lia.
    + pose proof (bloom_bytes j Hj). rewrite list_lookup_total_insert_ne by lia.
      destruct (Z.eqb_spec i j) as [->|]; done.
Qed.

Lemma bloom_add_all_run hs : ∀ bv, bloom_ok bv →
  ∃ bv', bloom_add_all n bv hs = Done bv' ∧ bloom_ok bv' ∧
    ∀ j, 0 ≤ j < 2 ^ n → (bloom_bit bv' j = true ↔ j ∈ bloom_idx n <$> hs ∨ bloom_bit bv j = true).
Proof.
  induction hs as [|h hs IH]; intros bv Hok.
  - exists bv. split; [done|]. split; [done|]. intros j _. split; [by right|]. by intros [?%elem_of_nil|].
  - destruct (bloom_set_run bv (bloom_idx n h) Hok (bloom_idx_range h)) as (bv1 & Hrun1 & Hok1 & Hbit1).
    destruct (IH bv1 Hok1) as (bv2 & Hrun2 & Hok2 & Hbit2). exists bv2. cbn [bloom_add_all]. unfold HASH_BLOOM_ADD.
    rewrite Hrun1. split; [exact Hrun2|]. split; [done|]. intros j Hj.
    rewrite Hbit2, Hbit1, orb_true_iff, Z.eqb_eq, fmap_cons, elem_of_cons by done.
    split; [intros [?|[->|?]]|intros [[->|?]|?]]; auto.
Qed.

(** The filter knows the elements by the low bits of their hash values: it
    never denies one that was added, and admits another one only when these bits
    agree. *)
Lemma HASH_BLOOM_correct hs h :
  ∃ bv r, bloom_add_all n (HASH_BLOOM_MAKE n) hs = Done bv ∧ HASH_BLOOM_TEST n bv h = Done r ∧
    (r ≠ 0 ↔ ∃ h', h' ∈ hs ∧ h' mod 2 ^ n = h mod 2 ^ n).
Proof.
  assert (bloom_ok (HASH_BLOOM_MAKE n)) as Hok.
  { split; [|apply Forall_replicate; lia]. unfold HASH_BLOOM_MAKE. rewrite length_replicate.
    pose proof (bloom_bytes 0). pose proof (Z.pow_pos_nonneg 2 n ltac:(lia) ltac:(lia)). lia. }
  destruct (bloom_add_all_run hs _ Hok) as (bv & Hrun & Hok' & Hbit).
  destruct (bloom_test_run bv (bloom_idx n h) Hok' (bloom_idx_range h)) as (r & Ht & Hr).
  exists bv, r. split; [done|]. split; [done|]. rewrite Hr, (Hbit _ (bloom_idx_range h)).
  assert (bloom_bit (HASH_BLOOM_MAKE n) (bloom_idx n h) = false) as ->.
  { unfold bloom_bit, HASH_BLOOM_MAKE. rewrite lookup_total_replicate_2; [apply Z.bits_0|].
    pose proof (bloom_bytes _ (bloom_idx_range h)). lia. }
  rewrite list_elem_of_fmap. destruct bloom_bits as [_ Hidx]. setoid_rewrite Hidx. split.
  - intros [(h' & Heq & Hin)|?]; [by exists h'|done].
  - intros (h' & Hin & Heq). left. by exists h'.
Qed.
End bloom.
