(* ===== verification/UtTheorems.v ===== *)
(** * UtTheorems: what uthash.h and uthash.c guarantee

    [add] and the lookup, deletion and clearing of a table in memory; and
    where uthash.c falls short: [find] inverts the test of the lookup, so
    that [del] deletes nothing, and [clear] leaks every element. *)

From stdpp Require Import sorting.
From S2P Require Import Prelude.
From S2P Require Import Own.
From S2P Require Import Heap.
From S2P Require Import UtHash.
From S2P Require Import UtMem.
From S2P Require Import UtTable.
From S2P Require Import UtExpand.
From S2P Require Import UtAdd.
From S2P Require Import UtDelete.
From S2P Require Import UtSort.
From S2P Require Import UtSortProofs.
From S2P Require Import UtFsck.

(** ** Examples: tables the code builds with the bump allocator *)

#[local] Existing Instance bump_alloc.
#[local] Existing Instance bump_alloc_spec.
#[local] Existing Instance bump_alloc_total.

(** A root at address 16 without elements, alone in memory. *)
Definition empty_uheap : uheap := {[16 := BHead 0]}.

Lemma empty_urepr : urepr 16 ∅ [] 5 empty_uheap.
Proof.
  apply (urepr_nil _ _ (λ _, garbage_handle)). split; [|split].
  - apply NoDup_singleton.
  - intros a _. apply lookup_empty.
  - cbn. by rewrite map_union_empty.
Qed.

Lemma ukey_byte c : 0 < c < 256 → ukey [c].
Proof. intros Hc. split; [by repeat constructor; lia|cbn; lia]. Qed.

(** A table with one element, and one with two. *)
Lemma one_element : ∃ a lg m, 0 < a ∧ lg < 31 ∧ urepr 16 ∅ [Item a [97] 7] lg m.
Proof.
  destruct (add_new_run 16 ∅ [] 5 empty_uheap [97] 7 empty_urepr) as (a & lg & m & _ & Ha & Hr & Hlg);
    [by apply ukey_byte|by intros ?%elem_of_nil|cbn; lia..|].
  exists a, lg, m. split_and!; (done || lia).
Qed.

Lemma two_elements : ∃ a b lg m, lg < 31 ∧ urepr 16 ∅ [Item a [97] 7; Item b [98] 8] lg m.
Proof.
  destruct (add_new_run 16 ∅ [] 5 empty_uheap [97] 7 empty_urepr) as (a & lg & m & _ & Ha & Hr & Hlg);
    [by apply ukey_byte|by intros ?%elem_of_nil|cbn; lia..|].
  destruct (add_new_run 16 ∅ [Item a [97] 7] lg m [98] 8 Hr) as (b & lg' & m' & _ & _ & Hr' & Hlg');
    [by apply ukey_byte|by intros ?%list_elem_of_singleton|cbn; lia..|].
  exists a, b, lg', m'. split; [lia|done].
Qed.

(** A comparison for sorting: the larger value first. *)
Definition by_value (a b : Z) : cmd uheap Z := v ← load_value a; w ← load_value b; mret (w - v).

Lemma by_value_compares : compares by_value (λ x y, it_val y - it_val x).
Proof. intros m x y [h Hx] [h' Hy]. unfold by_value, load_value, mbind, cmd_bind. by rewrite Hx, Hy. Qed.

(** ** The operations *)

(** Claim C22: [add] of a key that the table has returns 1 and changes nothing;
    of a new key, it returns 0 and leaves a table with a new element of that
    key and value at the end of the insertion order, every element in the
    chain its hash selects and all links and counters consistent, whether the
    table is created, kept or doubled on the way. *)
Theorem uthash_add_correct {A : Allocator ublock} {HS : AllocSpec A} {HT : AllocTotal A} root fr xs lg m k v :
  urepr root fr xs lg m → ukey k →
  (k ∈ it_key <$> xs → add root (cstr k) v m = Done (Some 1, m)) ∧
  (k ∉ it_key <$> xs → Z.of_nat (length xs) < 2 ^ 31 - 1 → lg < 31 →
   ∃ a lg' m', add root (cstr k) v m = Done (Some 0, m') ∧ 0 < a ∧ lg ≤ lg' ≤ lg + 1 ∧
     urepr root fr (xs ++ [Item a k v]) lg' m').
Proof.
  intros Hr Hk. split; [by eapply add_dup_run|]. intros Hnin Hroom Hlg.
  destruct (add_new_run root fr xs lg m k v Hr Hk Hnin Hroom Hlg) as (a & lg' & m' & ? & ? & ? & ?).
  by exists a, lg', m'.
Qed.

Lemma uthash_add_correct_witness :
  (∃ a lg m, add 16 (cstr [97]) 7 empty_uheap = Done (Some 0, m) ∧ urepr 16 ∅ [Item a [97] 7] lg m) ∧
  ∃ m, add 16 (cstr [97]) 9 m = Done (Some 1, m).
Proof.
  split.
  - destruct (uthash_add_correct 16 ∅ [] 5 empty_uheap [97] 7 empty_urepr) as [_ Hnew];
      [by apply ukey_byte|].
    destruct Hnew as (a & lg & m & Hrun & _ & _ & Hr); [by intros ?%elem_of_nil|cbn; lia..|].
    exists a, lg, m. split; [exact Hrun|exact Hr].
  - destruct one_element as (a & lg & m & _ & _ & Hr). exists m.
    apply (uthash_add_correct 16 ∅ _ lg m [97] 9 Hr); [by apply ukey_byte|].
    by apply list_elem_of_here.
Defined.

(** Claim C23: [HASH_FIND_STR] on the head of a table returns the element of the
    key, and null when there is none; it changes nothing. *)
Theorem HASH_FIND_STR_correct root fr xs lg m k :
  urepr root fr xs lg m → ukey k →
  ∃ head r, load_head root m = Done (head, m) ∧ HASH_FIND_STR head (cstr k) m = Done (r, m) ∧
    (k ∉ it_key <$> xs → r = 0) ∧
    ∀ x, x ∈ xs → it_key x = k → r = it_at x ∧ 0 < r.
Proof.
  intros Hr Hk. exists (hd0 (addrs xs)), (find_item k xs).
  split; [by eapply urepr_head|]. split; [by eapply HASH_FIND_STR_run|].
  split; [apply find_item_None|]. intros x Hx <-.
  rewrite find_item_Some by (done || by apply (urepr_addrs _ _ _ _ _ Hr)).
  split; [done|]. by eapply urepr_pos.
Qed.

Lemma HASH_FIND_STR_correct_witness :
  ∃ a m, HASH_FIND_STR a (cstr [97]) m = Done (a, m) ∧ HASH_FIND_STR a (cstr [98]) m = Done (0, m).
Proof.
  destruct one_element as (a & lg & m & Ha & _ & Hr).
  destruct (HASH_FIND_STR_correct 16 ∅ _ lg m [97] Hr) as (h & r & Hh & Hrun & _ & Hin);
    [by apply ukey_byte|].
  destruct (HASH_FIND_STR_correct 16 ∅ _ lg m [98] Hr) as (h' & r' & Hh' & Hrun' & Hnin & _);
    [by apply ukey_byte|].
  rewrite Hnin in Hrun' by by intros ?%list_elem_of_singleton.
  destruct (Hin (Item a [97] 7)) as [-> _]; [by apply list_elem_of_here|done|].
  rewrite (urepr_head _ _ _ _ _ Hr) in Hh, Hh'. injection Hh as <-. injection Hh' as <-.
  exists a, m. split; [exact Hrun|exact Hrun'].
Defined.

(** Claim C24: [HASH_DEL] of any element of a table leaves a table with the
    others in their order, with all links and counters consistent; the table
    is freed with the last one.  The block of the element itself is kept, for
    the caller to free. *)
Theorem HASH_DEL_correct root fr xs1 x xs2 lg m :
  urepr root fr (xs1 ++ x :: xs2) lg m →
  ∃ h lg' m', HASH_DEL root (it_at x) m = Done (tt, m') ∧
    lg' = (if decide (xs1 ++ xs2 = []) then 5 else lg) ∧
    urepr root (<[it_at x := BEntry h (it_val x) (cstr (it_key x))]> fr) (xs1 ++ xs2) lg' m'.
Proof. apply HASH_DELETE_any. Qed.

Lemma HASH_DEL_correct_witness :
  ∃ a b h lg m m', HASH_DEL 16 b m = Done (tt, m') ∧
    urepr 16 {[b := BEntry h 8 (cstr [98])]} [Item a [97] 7] lg m'.
Proof.
  destruct two_elements as (a & b & lg & m & _ & Hr).
  destruct (HASH_DEL_correct 16 ∅ [Item a [97] 7] (Item b [98] 8) [] lg m Hr)
    as (h & lg' & m' & Hrun & _ & Hr').
  exists a, b, h, lg', m, m'. split; [exact Hrun|exact Hr'].
Defined.

(** Claim C27: [clear] deletes every element from the table, which it frees, and
    frees no element: all of them stay in memory with their keys and values. *)
Theorem uthash_clear_leaks root fr xs lg m :
  urepr root fr xs lg m →
  ∃ fr' m', clear root m = Done (tt, m') ∧ urepr root fr' [] 5 m' ∧
    (∀ x, x ∈ xs → ∃ h, m' !! it_at x = Some (BEntry h (it_val x) (cstr (it_key x)))) ∧
    ∀ a, a ∉ addrs xs → fr' !! a = fr !! a.
Proof.
  intros Hr. destruct (ut_clear_run root fr xs lg m Hr) as (fr' & m' & Hrun & Hr' & Hin & Hout).
  exists fr', m'. split_and!; [done..| |done]. intros x Hx. destruct (Hin x Hx) as [h Hh]. exists h.
  inversion Hr' as [H' m2 Hm'|]; subst. by eapply owns_frame.
Qed.

Lemma uthash_clear_leaks_witness :
  ∃ a h m m', clear 16 m = Done (tt, m') ∧ m' !! a = Some (BEntry h 7 (cstr [97])).
Proof.
  destruct one_element as (a & lg & m & _ & _ & Hr).
  destruct (uthash_clear_leaks 16 ∅ _ lg m Hr) as (fr' & m' & Hrun & _ & Hin & _).
  destruct (Hin (Item a [97] 7)) as [h Hh]; [by apply list_elem_of_here|].
  exists a, h, m, m'. split; [exact Hrun|exact Hh].
Defined.

(** Claim C39: [find] inverts the test of its lookup: it returns null for a key
    that the table has, and loads through a null pointer for one that it has
    not.  [del], which asks [find], deletes nothing: it reports a key that the
    table has as missing, and has undefined behaviour for any other. *)
Theorem uthash_find_inverted root fr xs lg m k :
  urepr root fr xs lg m → ukey k →
  (k ∈ it_key <$> xs → find root (cstr k) m = Done (0, m) ∧ del root (cstr k) m = Done (1, m)) ∧
  (k ∉ it_key <$> xs → m !! 0 = None → find root (cstr k) m = Undef ∧ del root (cstr k) m = Undef).
Proof.
  intros Hr Hk. unfold del. pose proof (ut_find_run root fr xs lg m k Hr Hk) as Hf.
  destruct (decide (k ∈ it_key <$> xs)); (split; [intros Hin|intros Hnin H0]); try done.
  - split; [done|]. by run_to Hf.
  - rewrite load_value_null in Hf by done. split; [done|]. by apply bind_undef.
Qed.

Lemma uthash_find_inverted_witness :
  (∃ m, find 16 (cstr [97]) m = Done (0, m) ∧ del 16 (cstr [97]) m = Done (1, m)) ∧
  find 16 (cstr [97]) empty_uheap = Undef ∧ del 16 (cstr [97]) empty_uheap = Undef.
Proof.
  split.
  - destruct one_element as (a & lg & m & _ & _ & Hr). exists m.
    apply (uthash_find_inverted 16 ∅ _ lg m [97] Hr); [by apply ukey_byte|by apply list_elem_of_here].
  - apply (uthash_find_inverted 16 ∅ [] 5 empty_uheap [97] empty_urepr);
      [by apply ukey_byte|by intros ?%elem_of_nil|done].
Defined.

(** ** Sorting *)

(** Claim C25: [HASH_SRT] with a comparison that only reads the two elements and
    is total returns, for a table of any number of elements, and leaves a table
    with the same elements, in the same number of buckets, whose insertion
    order is sorted: no element is followed by one that compares less, and all
    links, chains, counters and the tail are consistent for the new order. *)
Theorem HASH_SRT_correct cmpfcn cmp root fr xs lg m :
  compares cmpfcn cmp → Total (cmp_le cmp) → urepr root fr xs lg m →
  ∃ xs' m', HASH_SRT cmpfcn root m = Done (tt, m') ∧ urepr root fr xs' lg m' ∧ xs' ≡ₚ xs ∧
    Sorted (cmp_le cmp) xs'.
Proof. apply HASH_SRT_run. Qed.

Lemma HASH_SRT_correct_witness :
  ∃ a b lg m m', urepr 16 ∅ [Item a [97] 7; Item b [98] 8] lg m ∧
    HASH_SRT by_value 16 m = Done (tt, m') ∧ urepr 16 ∅ [Item b [98] 8; Item a [97] 7] lg m'.
Proof.
  destruct two_elements as (a & b & lg & m & _ & Hr).
  destruct (HASH_SRT_correct by_value (λ x y, it_val y - it_val x) 16 ∅
    [Item a [97] 7; Item b [98] 8] lg m by_value_compares)
    as (xs & m' & Hrun & Hr' & Hp & Hs); [intros x y; unfold cmp_le; lia|exact Hr|].
  exists a, b, lg, m, m'. split; [exact Hr|]. split; [exact Hrun|].
  symmetry in Hp. apply Permutation_length_2_inv in Hp as [-> | ->]; [|exact Hr'].
  inversion Hs as [|? ? _ Hhd]; subst. inversion Hhd as [|? ? Hle]; subst. unfold cmp_le in Hle. cbn in Hle. lia.
Defined.

(** ** Replacement *)

(** An element of the caller's, with its key. *)
Definition loose (a : Z) (k : list Z) (v : Z) (fr : uheap) : uheap := <[a := BEntry garbage_handle v (cstr k)]> fr.

Lemma frame_block root fr xs lg m a b :
  urepr root fr xs lg m → fr !! a = Some b → m !! a = Some b ∧ a ∉ it_at <$> xs.
Proof.
  intros Hr Ha. assert (∃ hd tabs arrs H, umem root fr hd tabs arrs H xs m) as (hd & tabs & arrs & H & Hm)
    by (destruct Hr; eauto 10).
  split; [by eapply owns_frame|]. intros (x & -> & Hx)%list_elem_of_fmap.
  destruct Hm as (_ & Hfr & _). rewrite Hfr in Ha; [done|]. unfold ucells. cbn. rewrite !fmap_app.
  apply elem_of_cons. right. apply elem_of_app. right. apply elem_of_app. right.
  rewrite <-list_fmap_compose. by apply (list_elem_of_fmap_2 (fst ∘ item_cell H)).
Qed.

(** [HASH_REPLACE_STR] adds an element and yields the one of the same key that
    it took out, which is the caller's again; if there is none, null. *)
Lemma HASH_REPLACE_STR_correct {A : Allocator ublock} {HS : AllocSpec A} {HT : AllocTotal A} root fr xs lg m a k v :
  urepr root (loose a k v fr) xs lg m → fr !! a = None → 0 < a → ukey k →
  Z.of_nat (length xs) < 2 ^ 31 - 1 → lg < 31 →
  ∃ r lg' m', HASH_REPLACE_STR root a m = Done (Some r, m') ∧
    ((r = 0 ∧ k ∉ it_key <$> xs ∧ urepr root fr (xs ++ [Item a k v]) lg' m') ∨
     ∃ xs1 x xs2 h, xs = xs1 ++ x :: xs2 ∧ it_key x = k ∧ r = it_at x ∧
       urepr root (<[r := BEntry h (it_val x) (cstr k)]> fr) (xs1 ++ xs2 ++ [Item a k v]) lg' m').
Proof.
  intros Hr Hfr Ha Hk Hroom Hlg.
  destruct (frame_block _ _ _ _ _ a _ Hr (lookup_insert_eq _ _ _)) as [Hblock Hnin].
  assert (load_chars (a + SIZEOF_HASH_ENTRY) m = Done (cstr k, m)) as Hchars.
  { unfold load_chars. by rewrite Z.add_simpl_r, Hblock. }
  unfold HASH_REPLACE_STR. run_to Hchars. rewrite strlen_cstr by apply Hk. run_to @lift_done.
  run_to (urepr_head _ _ _ _ _ Hr). run_to (HASH_FIND_run _ _ _ _ _ _ Hr Hk).
  destruct (decide (k ∈ it_key <$> xs)) as [Hin|Hout].
  - apply list_elem_of_fmap in Hin as (x & -> & Hx).
    rewrite find_item_Some by (done || by apply (urepr_addrs _ _ _ _ _ Hr)).
    pose proof (urepr_pos _ _ _ _ _ _ Hr Hx) as Hpos. destruct (Z.eqb_spec (it_at x) 0); [lia|]. cbn [negb].
    assert (it_at x ≠ a) as Hxa by (intros <-; by apply Hnin, (list_elem_of_fmap_2 it_at)).
    pose proof (urepr_addrs _ _ _ _ _ Hr) as [_ Hnd].
    apply list_elem_of_split in Hx as (xs1 & xs2 & ->).
    destruct (HASH_DELETE_any root _ xs1 x xs2 lg m Hr) as (h & lg' & m1 & Hrun1 & Hlg' & Hr1). run_to Hrun1.
    unfold loose in Hr1. rewrite insert_insert_ne in Hr1 by done.
    destruct (HASH_ADD_STR_new root _ _ lg' m1 a _ v (it_key x) Hr1) as (lg2 & m2 & Hrun2 & Hr2 & _); [|done|done| | | |].
    + by rewrite lookup_insert_ne.
    + rewrite fmap_app, fmap_cons in Hnd. rewrite fmap_app. intros Hin.
      apply NoDup_app in Hnd as (_ & Hdis & [Hnin2 _]%NoDup_cons). apply elem_of_app in Hin as [Hin|Hin]; [|done].
      apply (Hdis _ Hin), list_elem_of_here.
    + rewrite length_app in Hroom |- *. cbn [length] in Hroom. lia.
    + case_decide; lia.
    + exists (it_at x), lg2, m2. split; [by run_to Hrun2|]. right. exists xs1, x, xs2, h. split_and!; [done..|].
      by rewrite app_assoc.
  - rewrite find_item_None by done. cbn [Z.eqb negb]. run_to @ret_done.
    destruct (HASH_ADD_STR_new root fr xs lg m a _ v k Hr) as (lg2 & m2 & Hrun2 & Hr2 & _); [done..|].
    exists 0, lg2, m2. split; [by run_to Hrun2|]. by left.
Qed.

(** [HASH_OVERHEAD] counts the handles, the buckets and the table. *)
Lemma HASH_OVERHEAD_run root fr x xs lg m :
  urepr root fr (x :: xs) lg m →
  HASH_OVERHEAD (it_at x) m = Done (56 * Z.of_nat (S (length xs)) + 16 * 2 ^ lg + 64, m).
Proof.
  intros Hr. inversion Hr as [|x' xs' ta t bs chains lg' H m' Hm Hok]; subst.
  destruct (tb_items _ _ _ _ _ _ _ Hok x) as (_ & _ & Htbl & _); [apply list_elem_of_here|].
  unfold HASH_OVERHEAD. run_to (load_hh_item root fr _ _ _ _ _ _ _ Hm (list_elem_of_here _ _)). rewrite Htbl.
  run_to (load_table_run root fr _ _ _ _ _ _ _ _ Hm). destruct Hok as [_ _ _ Hcount Hroom _ _ _ Hlg Hnum _ _ _].
  rewrite Hcount, Hnum. pose proof (Z.pow_le_mono_r 2 lg 31 ltac:(lia) ltac:(lia)).
  pose proof (Z.pow_pos_nonneg 2 lg ltac:(lia) ltac:(lia)). unfold mret, cmd_ret. do 2 f_equal.
  unfold SIZEOF_UT_hash_handle, SIZEOF_UT_hash_bucket, SIZEOF_UT_hash_table. cbn [length] in *.
  rewrite u64_small; lia.
Qed.

(** ** Selection *)

(** Two elements, each with a second handle at offset 8, are selected into a
    table at address 24: its first element, the one after it, the number of items
    and the element of the tail. *)
Definition select_both : cmd uheap (Z * Z * Z * Z) :=
  _ ← add 16 (cstr [97]) 7;
  _ ← add 16 (cstr [98]) 8;
  a ← load_head 16;
  h ← load_hh a;
  let b := next h in
  m ← get_state;
  _ ← put_state (<[24 := BHead 0]> (<[a + 8 := BEntry garbage_handle 0 []]>
        (<[b + 8 := BEntry garbage_handle 0 []]> m)));
  _ ← HASH_SELECT 24 8 16 (λ _, mret true);
  d ← load_head 24;
  h ← load_hh (d + 8);
  t ← load_table (tbl h);
  mret (d, next h, num_items t, ELMT_FROM_HH t (tail t)).

(** HASH_SELECT leaves the tail of the new table at its first element, where
    HASH_ADD goes on: it would overwrite the link to the second one. *)
Lemma HASH_SELECT_stale_tail :
  ∃ a b m, a ≠ b ∧ b ≠ 0 ∧ select_both empty_uheap = Done ((a, b, 2, a), m).
Proof. exists 272, 1118480. eexists. split_and!; [done..|]. vm_compute. reflexivity. Qed.

(** ** The consistency check *)

(** Claim C26: [HASH_FSCK] reports no inconsistency, and changes nothing, on
    every table that meets the invariant, so that none of the operations proved
    here trips it.  Conversely, on any memory in which it reports none, the
    elements from the head on are a list linked both ways of as many elements
    as the table counts, and so are the items of every bucket and of all of
    them together (counted modulo 2^32). *)
Theorem HASH_FSCK_correct root m :
  (∀ fr xs lg, urepr root fr xs lg m → HASH_FSCK root m = Done (true, m)) ∧
  (∀ hd t m', load_head root m = Done (hd, m) → hd ≠ 0 → the_table root m = Done (t, m) → hho t = 0 →
    0 ≤ num_buckets t < 2 ^ 32 → HASH_FSCK root m = Done (true, m') →
    m' = m ∧
    (∃ c, hd = hd0 c ∧ num_items t = u32 (Z.of_nat (length c)) ∧ linked_in prev next m [] c) ∧
    ∃ chains, Z.of_nat (length chains) = num_buckets t ∧
      num_items t = u32 (Z.of_nat (length (concat chains))) ∧
      ∀ i c, chains !! i = Some c → bucket_holds m t (Z.of_nat i) c).
Proof.
  split; [intros; by eapply HASH_FSCK_run|]. intros hd t m' Hhd Hne Ht Hho Hnum Hrun.
  by apply (HASH_FSCK_sound root m t Ht Hho hd m').
Qed.

Lemma HASH_FSCK_correct_witness :
  ∃ a m c, HASH_FSCK 16 m = Done (true, m) ∧ a = hd0 c ∧ 2 = u32 (Z.of_nat (length c)) ∧
    linked_in prev next m [] c.
Proof.
  destruct two_elements as (a & b & lg & m & _ & Hr).
  destruct (HASH_FSCK_correct 16 m) as [Hok Hsound]. specialize (Hok _ _ _ Hr).
  pose proof Hr as Hr'. inversion Hr' as [|x xs ta t bs chains lg' H m' Hm Htab]; subst.
  destruct Htab as [Hlist Hitems _ Hcount _ _ Hho _ Hlg Hnum _ _ _].
  destruct (Hitems (Item a [97] 7)) as (Ha & _ & Htbl & _); [by apply list_elem_of_here|]. cbn in Ha.
  destruct (Hsound a t m) as (_ & (c & Hc & Hn & Hl) & _).
  - by eapply load_head_run.
  - lia.
  - eapply fsck_table_run; [exact Hm|by apply list_elem_of_here|exact Htbl|exact Hho].
  - exact Hho.
  - rewrite Hnum. pose proof (Z.pow_le_mono_r 2 lg 31 ltac:(lia) ltac:(lia)).
    pose proof (Z.pow_pos_nonneg 2 lg). lia.
  - exact Hok.
  - exists a, m, c. split; [exact Hok|]. split; [exact Hc|]. split; [|exact Hl]. by rewrite <-Hn, Hcount.
Defined.
