(* ===== verification/Helper.v ===== *)
(** * Helper: the benchmark driver helper.c

    helper.c fills a map with random or numbered keys, looks keys up and
    deletes them, measures how long that takes, and gives up ([exit(-1)]) as
    soon as a call does not behave as it should.  The driver only knows the
    interface of helper.h, so it is modelled against the class [MapImpl]; the
    calls that its threads make are resumptions, given by [ThreadImpl].

    The rest of the C library is in the arguments: [rand seed n] is the [n]-th
    number drawn after [srand(seed)], [clock n] the [n]-th reading of
    gettimeofday, and the value of the environment variable.  A schedule stands
    for the scheduler of the threads.  Printing is not modelled; [main] yields
    the measurements it prints. *)

From S2P Require Import Prelude.
From S2P Require Import Threads.
From S2P Require Import Heap.
From S2P Require Import MapSpec.

(** A function returns, or the process ends. *)
Inductive status (A : Type) : Type := Returned (a : A) | Exited (code : Z).
Arguments Returned {A} a.
Arguments Exited {A} code.

Definition then_ {S A B} (c : cmd S (status A)) (k : A → cmd S (status B)) : cmd S (status B) :=
  r ← c; match r with Returned a => k a | Exited code => mret (Exited code) end.

Notation "x ←! c ; k" := (then_ c (λ x, k)) (at level 20, c at level 100, k at level 200).

(** ** sprintf(buf, "%09d", i) *)

Fixpoint dec_digits (fuel : nat) (n : Z) : list Z :=
  match fuel with
  | O => []
  | S fuel => if n <? 10 then [48 + n] else dec_digits fuel (n / 10) ++ [48 + n mod 10]
  end.

(** At least nine digits, padded with zeroes on the left; [n] is an [int]
    that is not negative. *)
Definition sprintf_09d (n : Z) : list Z :=
  let d := dec_digits 10 n in replicate (9 - length d) 48 ++ d.

(** The number a digit string denotes. *)
Definition atoi_digits (s : list Z) : Z := foldl (λ acc c, 10 * acc + (c - 48)) 0 s.

(** ** atoi *)

Definition isspace (c : Z) : bool := (c =? 32) || ((9 <=? c) && (c <=? 13)).
Definition isdigit (c : Z) : bool := (48 <=? c) && (c <=? 57).

Fixpoint skip_space (s : list Z) : list Z :=
  match s with c :: s' => if isspace c then skip_space s' else s | [] => [] end.

(** The digits in front of any other character; [sign] is 1 or -1, and a
    number that is no [int] is undefined behaviour. *)
Fixpoint atoi_loop (sign : Z) (s : list Z) (acc : Z) : outcome Z :=
  match s with
  | [] => Undef
  | c :: s => if isdigit c then acc ← int_of (10 * acc + sign * (c - 48)); atoi_loop sign s acc
              else Done acc
  end.

Definition atoi (s : list Z) : outcome Z :=
  match skip_space s with
  | c :: s' => if c =? 45 then atoi_loop (-1) s' 0
               else if c =? 43 then atoi_loop 1 s' 0 else atoi_loop 1 (c :: s') 0
  | [] => Undef
  end.

(** [opt_int(name, fallback)]; [env] is what getenv returns for the name. *)
Definition opt_int (env : option (list Z)) (fallback : Z) : outcome Z :=
  match env with
  | None => Done fallback
  | Some s => val ← atoi s; Done (if val =? 0 then fallback else val)
  end.

(** ** Data *)

Definition rand_byte (r : Z) : Z := Z.lor (Z.land r 255) 128.

Definition RANDOM_SEED : Z := 10.
Definition NUM_THREADS : nat := 32.

(** The measured functions, by name. *)
Inductive func_name := SET_RAND | GET_RAND | CLEANUP_RAND | SET | GET_THREADED | CLEANUP.

Record stat := Stat { stat_name : func_name; stat_iter : Z; stat_usec : Z }.

(** What the driver works on: the map, the generator behind rand, and the
    number of times the clock has been read. *)
Record host (St : Type) := Host { h_map : St; h_seed : Z; h_pos : nat; h_now : nat }.
Arguments Host {St} _ _ _ _.
Arguments h_map {St} _.
Arguments h_seed {St} _.
Arguments h_pos {St} _.
Arguments h_now {St} _.

(** The calls of helper.h as threads make them. *)
Class ThreadImpl (St : Type) := {
  t_add : Z → list Z → Z → thread St Z;
  t_find : Z → list Z → thread St Z;
  t_del : Z → list Z → thread St Z;
}.

(** Iterations of the loops, which count to [iter]. *)
Definition loop_fuel (iter : Z) : nat := S (Z.to_nat iter).

Section helper.
Context {St : Type} `{I : MapImpl St} `{T : ThreadImpl St}.
Context (rand : Z → nat → Z) (clock : nat → Z * Z).

Definition on_map {A} (c : cmd St A) : cmd (host St) A := λ h,
  '(a, s) ← c (h_map h); Done (a, Host s (h_seed h) (h_pos h) (h_now h)).

Definition srand (seed : Z) : cmd (host St) unit := λ h,
  Done (tt, Host (h_map h) seed 0 (h_now h)).
Definition next_rand : cmd (host St) Z := λ h,
  Done (rand (h_seed h) (h_pos h), Host (h_map h) (h_seed h) (S (h_pos h)) (h_now h)).

(** ** The clock *)

Definition current_usec : cmd (host St) Z := λ h,
  let '(sec, usec) := clock (h_now h) in
  t ← (s ← int64_of (sec * 1000000); int64_of (s + usec));
  Done (t, Host (h_map h) (h_seed h) (h_pos h) (S (h_now h))).

Definition measure (name : func_name) (func : Z → Z → cmd (host St) (status unit)) (obj iter : Z)
    : cmd (host St) (status stat) :=
  start ← current_usec;
  _ ←! func obj iter;
  now ← current_usec;
  diff ← lift (int64_of (now - start));
  mret (Returned (Stat name iter (s32 diff))).

(** ** The loops

    [fill_rand] writes the bytes of [out] and a NUL. *)
Fixpoint fill_rand (len : nat) : cmd (host St) (list Z) :=
  match len with
  | O => mret []
  | S len => r ← next_rand; rest ← fill_rand len; mret (rand_byte r :: rest)
  end.

(** Iteration [i] works on the key that it writes to [buf]. *)
Section loops.
Context (next_key : Z → cmd (host St) (list Z)) (obj iter : Z).

Fixpoint set_loop (fuel : nat) (i : Z) : cmd (host St) (status unit) :=
  match fuel with
  | O => nofuel
  | S fuel =>
      if i <? iter then
        buf ← next_key i;
        failed ← on_map (map_add obj (cstr buf) i);
        if negb (failed =? 0) then mret (Exited (-1)) else set_loop fuel (i + 1)
      else mret (Returned tt)
  end.

Fixpoint get_loop (fuel : nat) (i : Z) : cmd (host St) (status unit) :=
  match fuel with
  | O => nofuel
  | S fuel =>
      if i <? iter then
        buf ← next_key i;
        out ← on_map (map_find obj (cstr buf));
        if negb (out =? 0) then
          let val := s32 out in
          if negb (val =? i) then mret (Exited (-1)) else get_loop fuel (i + 1)
        else mret (Exited (-1))
      else mret (Returned tt)
  end.

(** [cleanup] exits on a failed deletion, [cleanup_rand] only reports it. *)
Fixpoint cleanup_loop (strict : bool) (fuel : nat) (i : Z) : cmd (host St) (status unit) :=
  match fuel with
  | O => nofuel
  | S fuel =>
      if i <? iter then
        buf ← next_key i;
        failed ← on_map (map_del obj (cstr buf));
        if negb (failed =? 0) && strict then mret (Exited (-1))
        else cleanup_loop strict fuel (i + 1)
      else mret (Returned tt)
  end.
End loops.

Definition numbered (i : Z) : cmd (host St) (list Z) := mret (sprintf_09d i).
Definition random (_ : Z) : cmd (host St) (list Z) := fill_rand 10.

Definition set (obj iter : Z) : cmd (host St) (status unit) :=
  set_loop numbered obj iter (loop_fuel iter) 1.
Definition get (obj iter : Z) : cmd (host St) (status unit) :=
  get_loop numbered obj iter (loop_fuel iter) 1.
Definition cleanup (obj iter : Z) : cmd (host St) (status unit) :=
  cleanup_loop numbered obj iter true (loop_fuel iter) 1.

Definition set_rand (obj iter : Z) : cmd (host St) (status unit) :=
  _ ← srand RANDOM_SEED; set_loop random obj iter (loop_fuel iter) 1.
Definition get_rand (obj iter : Z) : cmd (host St) (status unit) :=
  _ ← srand RANDOM_SEED; get_loop random obj iter (loop_fuel iter) 1.
Definition cleanup_rand (obj iter : Z) : cmd (host St) (status unit) :=
  _ ← srand RANDOM_SEED; cleanup_loop random obj iter false (loop_fuel iter) 1.

(** [get_rand_100]: a hundred rounds over a hundredth of the keys. *)
Fixpoint get_rand_rounds (obj iter : Z) (rounds : nat) : cmd (host St) (status unit) :=
  match rounds with
  | O => mret (Returned tt)
  | S rounds =>
      _ ← srand RANDOM_SEED;
      _ ←! get_loop random obj iter (loop_fuel iter) 1;
      get_rand_rounds obj iter rounds
  end.
Definition get_rand_100 (obj iter : Z) : cmd (host St) (status unit) :=
  get_rand_rounds obj (Z.quot iter 100) 100.

(** ** The threads *)

(** A thread of the map is a thread of the driver. *)
Fixpoint on_map_thread {A} (t : thread St A) : thread (host St) A :=
  match t with
  | Ret a => Ret a
  | Step c k => Step (on_map c) (λ b, on_map_thread (k b))
  end.

(** [thread_iter] is [iter]. *)
Fixpoint get_thread_loop (obj iter : Z) (fuel : nat) (i : Z) : thread (host St) unit :=
  match fuel with
  | O => atomic nofuel
  | S fuel =>
      if i <? iter then
        r ← atomic next_rand;
        let n := Z.rem r iter in
        let buf := cstr (sprintf_09d n) in
        if Z.rem i 200 =? 0 then
          _ ← on_map_thread (t_del obj buf);
          _ ← on_map_thread (t_add obj buf n);
          get_thread_loop obj iter fuel (i + 1)
        else
          _ ← on_map_thread (t_find obj buf);
          get_thread_loop obj iter fuel (i + 1)
      else mret tt
  end.
Definition get_thread (obj iter : Z) : thread (host St) unit :=
  get_thread_loop obj iter (loop_fuel iter) 1.

(** The threads are created, run as the schedule says, and joined: that a
    thread has not [finished] then is a join that waits. *)
Definition get_threaded (sched : list nat) (obj iter : Z) : cmd (host St) (status unit) := λ h,
  '(h, ts) ← run_schedule sched h (replicate NUM_THREADS (get_thread obj iter));
  if forallb finished ts then Done (Returned tt, h) else Blocked.

(** ** main

    [threaded] is the measured function [get_threaded]; the measurements are
    those that are printed. *)
Definition main_with (threaded : Z → Z → cmd (host St) (status unit)) (env : option (list Z))
    : cmd (host St) (status (list stat)) :=
  iter ← lift (opt_int env 10000);
  obj ← on_map map_init;
  s1 ←! measure SET_RAND set_rand obj iter;
  s2 ←! measure GET_RAND get_rand obj iter;
  s3 ←! measure CLEANUP_RAND cleanup_rand obj iter;
  s4 ←! measure SET set obj iter;
  s5 ←! measure GET_THREADED threaded obj iter;
  n ← lift (int_of (stat_iter s5 * Z.of_nat NUM_THREADS));
  s6 ←! measure CLEANUP cleanup obj iter;
  _ ← on_map (map_clear obj);
  mret (Returned [s1; s2; s3; s4; Stat (stat_name s5) n (stat_usec s5); s6]).

Definition main (sched : list nat) : option (list Z) → cmd (host St) (status (list stat)) :=
  main_with (get_threaded sched).
End helper.

(** Calls that a lock makes atomic. *)
Definition atomic_calls {St} `{MapImpl St} : ThreadImpl St := {|
  t_add obj key val := atomic (map_add obj key val);
  t_find obj key := atomic (map_find obj key);
  t_del obj key := atomic (map_del obj key);
|}.

(** ** Digits *)

Lemma dec_digits_range fuel n : 0 ≤ n → Forall (λ c, 48 ≤ c < 58) (dec_digits fuel n).
Proof.
  revert n. induction fuel as [|fuel IH]; intros n Hn; cbn; [done|].
  destruct (Z.ltb_spec n 10).
  - repeat constructor; lia.
  - apply Forall_app. split; [apply IH, Z.div_pos; lia|].
    pose proof (Z.mod_pos_bound n 10). repeat constructor; lia.
Qed.

Lemma dec_digits_length fuel n : (length (dec_digits fuel n) ≤ fuel)%nat.
Proof.
  revert n. induction fuel as [|fuel IH]; intros n; cbn; [done|].
  case_match; cbn; [lia|]. rewrite length_app. specialize (IH (n / 10)). cbn. lia.
Qed.

Lemma atoi_digits_app s c : atoi_digits (s ++ [c]) = 10 * atoi_digits s + (c - 48).
Proof. unfold atoi_digits. by rewrite foldl_app. Qed.

Lemma atoi_dec_digits fuel n :
  0 ≤ n < 10 ^ Z.of_nat fuel → atoi_digits (dec_digits fuel n) = n.
Proof.
  revert n. induction fuel as [|fuel IH]; intros n Hn; [cbn in *; lia|].
  cbn [dec_digits]. destruct (Z.ltb_spec n 10); [cbn; lia|].
  rewrite atoi_digits_app, IH.
  - pose proof (Z.div_mod n 10 ltac:(lia)). lia.
  - rewrite Nat2Z.inj_succ, Z.pow_succ_r in Hn by lia.
    split; [apply Z.div_pos; lia|]. apply Z.div_lt_upper_bound; lia.
Qed.

Lemma atoi_zeros n s : atoi_digits (replicate n 48 ++ s) = atoi_digits s.
Proof. unfold atoi_digits. induction n as [|n IH]; cbn; [done|exact IH]. Qed.

Lemma atoi_sprintf_09d n : 0 ≤ n < 2 ^ 31 → atoi_digits (sprintf_09d n) = n.
Proof. intros Hn. unfold sprintf_09d. rewrite atoi_zeros. apply atoi_dec_digits. lia. Qed.

Lemma sprintf_09d_inj i j :
  0 ≤ i < 2 ^ 31 → 0 ≤ j < 2 ^ 31 → sprintf_09d i = sprintf_09d j → i = j.
Proof. intros Hi Hj H. by rewrite <-(atoi_sprintf_09d i), <-(atoi_sprintf_09d j), H by done. Qed.

Lemma sprintf_09d_range n : 0 ≤ n → Forall (λ c, 48 ≤ c < 58) (sprintf_09d n).
Proof.
  intros Hn. apply Forall_app. split; [|by apply dec_digits_range].
  apply Forall_forall. intros c [-> _]%elem_of_replicate. lia.
Qed.

Lemma sprintf_09d_length n : (9 ≤ length (sprintf_09d n) ≤ 10)%nat.
Proof.
  unfold sprintf_09d. rewrite length_app, length_replicate.
  pose proof (dec_digits_length 10 n). lia.
Qed.

Lemma dec_digits_short k fuel n : 0 ≤ n < 10 ^ Z.of_nat (S k) → (length (dec_digits fuel n) ≤ S k)%nat.
Proof.
  revert fuel n. induction k as [|k IH]; intros [|fuel] n Hn; cbn [dec_digits]; [cbn; lia| |cbn; lia|].
  - destruct (Z.ltb_spec n 10); cbn in *; lia.
  - destruct (Z.ltb_spec n 10); cbn [length]; [lia|]. rewrite length_app. cbn [length].
    rewrite Nat2Z.inj_succ, Z.pow_succ_r in Hn by lia.
    assert (length (dec_digits fuel (n / 10)) ≤ S k)%nat; [|lia].
    apply IH. split; [apply Z.div_pos; lia|]. apply Z.div_lt_upper_bound; lia.
Qed.

(** The numbered keys of the benchmark all have nine characters. *)
Lemma sprintf_09d_nine n : 0 ≤ n < 10 ^ 9 → length (sprintf_09d n) = 9%nat.
Proof.
  intros Hn. unfold sprintf_09d. rewrite length_app, length_replicate.
  pose proof (dec_digits_short 8 10 n Hn). lia.
Qed.
