(* ===== verification/CritBench.v ===== *)
(** * CritBench: the threads of helper.c over those of critbit.c

    The benchmark gives each of its 32 threads deletions to make, but the lock
    protocol of critbit.c only waits for the readers of one of two locks.  Two
    deletions by two benchmark threads and a lookup by a third are enough for
    the lookup to read freed memory. *)

From S2P Require Import Prelude.
From S2P Require Import Threads.
From S2P Require Import KeyBits.
From S2P Require Import Critbit.
From S2P Require Import CritThreads.
From S2P Require Import Heap.
From S2P Require Import MapSpec.
From S2P Require Import CritbitMap.
From S2P Require Import Helper.

(** [add], [find] and [del] of critbit_common.h, made by threads. *)
Instance critbit_threads `{Malloc} (fuel : nat) : ThreadImpl mem := {|
  t_add obj key val := critbit_insert_thread fuel obj key val;
  t_find obj key := res ← critbit_get_thread fuel obj key 0; mret res.2;
  t_del obj key := critbit_delete_thread fuel obj key;
|}.

(** ** A run that goes wrong

    The numbers 1, 2 and 3 are in the tree.  Threads 1 and 2 make 199 lookups
    each and draw the number they are going to delete, 1 and 2; thread 0 draws
    2 and loads [cur_rwlock]. *)
Definition bench_setup : cmd (host mem) Z :=
  obj ← on_map map_init; _ ← Helper.set obj 4; mret obj.
Definition bench_rand (_ : Z) (n : nat) : Z := if (n =? 199)%nat then 1 else 2.
Definition lookups : list nat := replicate 2389 1%nat ++ replicate 2389 2%nat ++ replicate 3 0%nat.

(** Thread 1 deletes its key and swaps the locks, thread 0 takes the lock it
    has loaded and loads the head, and thread 2 deletes its key, waiting for
    the other lock. *)
Definition deletions : list nat := replicate 21 1%nat ++ replicate 2 0%nat ++ replicate 21 2%nat.

Definition bench_threads (sched : list nat) (obj : Z) : cmd (host mem) (status unit) :=
  get_threaded (T := critbit_threads 100) bench_rand sched obj 201.

Definition is_blocked {A} (o : outcome A) : bool := match o with Blocked => true | _ => false end.
Definition is_undef {A} (o : outcome A) : bool := match o with Undef => true | _ => false end.

Lemma is_blocked_spec {A} (o : outcome A) : is_blocked o = true → o = Blocked.
Proof. by destruct o. Qed.
Lemma is_undef_spec {A} (o : outcome A) : is_undef o = true → o = Undef.
Proof. by destruct o. Qed.

(** The benchmark of critbit.c with 201 iterations can read freed
    memory: after the schedule above all is well (the threads have not
    finished yet), and the next step of thread 0, which loads the node that
    thread 2 has freed, is undefined. *)
Lemma critbit_threads_race :
  ∃ obj h, bench_setup (Host ∅ 0 0 0) = Done (obj, h) ∧
    bench_threads (lookups ++ deletions) obj h = Blocked ∧
    bench_threads (lookups ++ deletions ++ [0%nat]) obj h = Undef.
Proof.
  assert (match bench_setup (Host ∅ 0 0 0) with
    | Done (obj, h) => is_blocked (bench_threads (lookups ++ deletions) obj h) &&
                       is_undef (bench_threads (lookups ++ deletions ++ [0%nat]) obj h)
    | _ => false
    end = true) as H by (vm_compute; reflexivity).
  destruct (bench_setup (Host ∅ 0 0 0)) as [[obj h]| | |]; [|discriminate H..].
  apply andb_prop in H as [Hb Hu]. exists obj, h. split; [reflexivity|].
  split; [exact (is_blocked_spec _ Hb)|exact (is_undef_spec _ Hu)].
Qed.
