(* ===== verification/HelperLoops.v ===== *)
(** * HelperLoops: the loops of helper.c on any map

    Filling, checking and emptying a map whose implementation meets the
    contract of MapSpec, for any source of pairwise different keys ([src]):
    numbered keys, or the keys that come out of the generator after
    [srand(RANDOM_SEED)]; and the threads that look keys up. *)

From S2P Require Import Prelude.
From S2P Require Import Heap.
From S2P Require Import MapSpec.
From S2P Require Import Helper.
From S2P Require Import Threads.

Implicit Types M : kvmap.

(** ** Keys *)

(** The bytes that [len] draws from position [pos] on give. *)
Definition drawn (draw : nat → Z) (pos len : nat) : list Z :=
  (λ i, rand_byte (draw (pos + i)%nat)) <$> seq 0 len.

(** The key of iteration [i] after [srand(RANDOM_SEED)]: ten draws each. *)
Definition rand_key (rand : Z → nat → Z) (i : Z) : list Z :=
  drawn (rand RANDOM_SEED) (10 * Z.to_nat (i - 1)) 10.

Lemma length_drawn draw pos len : length (drawn draw pos len) = len.
Proof. unfold drawn. by rewrite length_fmap, length_seq. Qed.

Lemma drawn_S draw pos len :
  drawn draw pos (S len) = rand_byte (draw pos) :: drawn draw (S pos) len.
Proof.
  unfold drawn. cbn. rewrite Nat.add_0_r. f_equal. rewrite <-fmap_S_seq, <-list_fmap_compose.
  apply list_fmap_ext. intros i x _. cbn. do 2 f_equal. lia.
Qed.

(** The bindings of iterations [i .. iter - 1]. *)
Definition bound (key : Z → list Z) (iter : Z) M (i : Z) : Prop := ∀ j, i ≤ j < iter → M !! key j = Some j.

Section client.
Context {St : Type} {I : MapImpl St} {MS : MapSpec I}.
Context (rand : Z → nat → Z) (clock : nat → Z * Z).
Implicit Types (h : host St) (s : St).

Definition with_map s h : host St := Host s (h_seed h) (h_pos h) (h_now h).

Lemma on_map_run {A} (c : cmd St A) h a s :
  c (h_map h) = Done (a, s) → on_map c h = Done (a, with_map s h).
Proof. intros H. unfold on_map. by rewrite H. Qed.

Lemma then_run {S A B} (c : cmd S (status A)) (k : A → cmd S (status B)) m a m' :
  c m = Done (Returned a, m') → then_ c k m = k a m'.
Proof. intros H. unfold then_. by rewrite (bind_done _ _ m _ m' H). Qed.

Lemma fill_rand_run len h :
  fill_rand rand len h =
    Done (drawn (rand (h_seed h)) (h_pos h) len, Host (h_map h) (h_seed h) (h_pos h + len) (h_now h)).
Proof.
  revert h. induction len as [|len IH]; intros [s seed pos now]; cbn [fill_rand].
  - cbn. by rewrite Nat.add_0_r.
  - rewrite (bind_done _ _ _ _ _ eq_refl). cbn [h_map h_seed h_pos h_now].
    rewrite (bind_done _ _ _ _ _ (IH _)). cbn [h_map h_seed h_pos h_now].
    rewrite drawn_S. unfold mret, cmd_ret. do 3 f_equal. lia.
Qed.

(** ** The clock *)

(** Times that 64 bits of microseconds can hold. *)
Definition clock_ok : Prop := ∀ n, 0 ≤ (clock n).1 < 2 ^ 40 ∧ 0 ≤ (clock n).2 < 2 ^ 20.

Lemma current_usec_run h :
  clock_ok → ∃ t, 0 ≤ t < 2 ^ 62 ∧
    current_usec clock h = Done (t, Host (h_map h) (h_seed h) (h_pos h) (S (h_now h))).
Proof.
  intros Hc. unfold current_usec. specialize (Hc (h_now h)). destruct (clock (h_now h)) as [sec usec].
  cbn in Hc. exists (sec * 1000000 + usec). split; [lia|].
  rewrite int64_of_small by lia. cbn -[int64_of]. by rewrite int64_of_small by lia.
Qed.

Lemma measure_run name func obj iter h (P : host St → Prop) :
  clock_ok → (∀ h', h_map h' = h_map h → ∃ h'', func obj iter h' = Done (Returned tt, h'') ∧ P h'') →
  (∀ h' n, P h' → P (Host (h_map h') (h_seed h') (h_pos h') n)) →
  ∃ st h', measure clock name func obj iter h = Done (Returned st, h') ∧ stat_name st = name ∧
    stat_iter st = iter ∧ P h'.
Proof.
  intros Hc Hf HP. unfold measure. destruct (current_usec_run h Hc) as (t & Ht & Hrun). run_to Hrun.
  destruct (Hf (Host (h_map h) (h_seed h) (h_pos h) (S (h_now h))) eq_refl) as (h1 & Hrun1 & H1).
  rewrite (then_run _ _ _ _ _ Hrun1).
  destruct (current_usec_run h1 Hc) as (t' & Ht' & Hrun'). run_to Hrun'.
  rewrite int64_of_small by lia. run_to @lift_done. eexists _, _. split; [done|]. cbn. auto.
Qed.

(** ** The loops *)

Section loops.
Context (key : Z → list Z) (next_key : Z → cmd (host St) (list Z)) (src : Z → host St → Prop) (iter : Z).
Context (Hsrc : ∀ i h, 1 ≤ i → src i h →
  ∃ h', next_key i h = Done (key i, h') ∧ h_map h' = h_map h ∧ src (i + 1) h').
Context (Hsrc_map : ∀ i h s, src i h → src i (with_map s h)).
Context (Hkey : ∀ j, 1 ≤ j < iter → map_key (key j)).
Context (Hinj : ∀ i j, 1 ≤ i < iter → 1 ≤ j < iter → key i = key j → i = j).
Context (Hiter : iter ≤ 2 ^ 31).

Definition unbound M (i : Z) : Prop := ∀ j, i ≤ j < iter → M !! key j = None.

Lemma set_loop_ok obj fuel : ∀ i M h,
  (∀ j, 1 ≤ j < iter → map_val j) → (∀ n, Z.of_nat n < iter → map_room n) →
  1 ≤ i → (Z.to_nat (iter - i) < fuel)%nat → map_repr obj M (h_map h) → src i h →
  Z.of_nat (size M) < i → unbound M i →
  ∃ M' h', set_loop next_key obj iter fuel i h = Done (Returned tt, h') ∧ map_repr obj M' (h_map h') ∧
    bound key iter M' i ∧ (∀ k, (∀ j, i ≤ j < iter → key j ≠ k) → M' !! k = M !! k).
Proof.
  intros i M h Hval Hroom. revert i M h.
  induction fuel as [|fuel IH]; intros i M h Hi Hfuel Hs Hat Hsize Hun; [lia|].
  cbn [set_loop]. destruct (Z.ltb_spec i iter).
  - destruct (Hsrc i h Hi Hat) as (h1 & Hk & Hmap & Hat1). run_to Hk. rewrite <-Hmap in Hs.
    destruct (map_add_new obj M (h_map h1) (key i) i) as (s1 & Hadd & Hs1);
      [done|apply Hkey; lia|apply Hval; lia|apply Hroom; lia|apply Hun; lia|].
    run_to (on_map_run _ h1 _ _ Hadd). cbn [negb Z.eqb].
    destruct (IH (i + 1) (<[key i := i]> M) (with_map s1 h1)) as (M' & h' & Hrun & Hs' & Hb & Hr);
      [lia|lia|done|by apply Hsrc_map| | |].
    + rewrite map_size_insert_None by (apply Hun; lia). lia.
    + intros j Hj. rewrite lookup_insert_ne; [apply Hun; lia|]. intros Heq. apply Hinj in Heq; lia.
    + exists M', h'. split; [done|]. split; [done|]. split.
      * intros j Hj. destruct (decide (j = i)) as [-> |]; [|apply Hb; lia].
        rewrite Hr; [apply lookup_insert_eq|]. intros j Hj' Heq. apply Hinj in Heq; lia.
      * intros k Hk'. rewrite Hr by (intros; apply Hk'; lia). apply lookup_insert_ne, Hk'. lia.
  - exists M, h. split_and!; try done. intros j Hj. lia.
Qed.

Lemma get_loop_ok obj fuel : ∀ i M h,
  1 ≤ i → (Z.to_nat (iter - i) < fuel)%nat → map_repr obj M (h_map h) → src i h → bound key iter M i →
  ∃ h', get_loop next_key obj iter fuel i h = Done (Returned tt, h') ∧ map_repr obj M (h_map h').
Proof.
  induction fuel as [|fuel IH]; intros i M h Hi Hfuel Hs Hat Hb; [lia|].
  cbn [get_loop]. destruct (Z.ltb_spec i iter); [|by exists h].
  destruct (Hsrc i h Hi Hat) as (h1 & Hk & Hmap & Hat1). run_to Hk. rewrite <-Hmap in Hs.
  destruct (map_find_ok obj M (h_map h1) (key i)) as (s1 & Hfind & Hs1);
    [done|apply Hkey; lia|apply map_searchable_present; rewrite Hb by lia; by eexists|].
  run_to (on_map_run _ h1 _ _ Hfind).
  assert (find_result M (key i) = i) as -> by (unfold find_result; rewrite Hb by lia; done).
  destruct (Z.eqb_spec i 0); [lia|]. cbn [negb]. cbv zeta. rewrite s32_small, Z.eqb_refl by lia.
  cbn [negb]. apply (IH (i + 1) M); [lia..|done|by apply Hsrc_map|]. intros j Hj. apply Hb. lia.
Qed.

Lemma cleanup_loop_ok obj strict fuel : ∀ i M h,
  1 ≤ i → (Z.to_nat (iter - i) < fuel)%nat → map_repr obj M (h_map h) → src i h → bound key iter M i →
  ∃ M' h', cleanup_loop next_key obj iter strict fuel i h = Done (Returned tt, h') ∧
    map_repr obj M' (h_map h') ∧ unbound M' i ∧
    (∀ k, (∀ j, i ≤ j < iter → key j ≠ k) → M' !! k = M !! k).
Proof.
  induction fuel as [|fuel IH]; intros i M h Hi Hfuel Hs Hat Hb; [lia|].
  cbn [cleanup_loop]. destruct (Z.ltb_spec i iter).
  - destruct (Hsrc i h Hi Hat) as (h1 & Hk & Hmap & Hat1). run_to Hk. rewrite <-Hmap in Hs.
    destruct (map_del_ok obj M (h_map h1) (key i)) as (s1 & Hdel & Hs1); [done|apply Hkey; lia|].
    rewrite decide_True in Hdel by (rewrite Hb by lia; eauto).
    run_to (on_map_run _ h1 _ _ Hdel). cbn [negb Z.eqb andb].
    destruct (IH (i + 1) (delete (key i) M) (with_map s1 h1)) as (M' & h' & Hrun & Hs' & Hun & Hr);
      [lia|lia|done|by apply Hsrc_map| |].
    + intros j Hj. rewrite lookup_delete_ne; [apply Hb; lia|]. intros Heq. apply Hinj in Heq; lia.
    + exists M', h'. split; [done|]. split; [done|]. split.
      * intros j Hj. destruct (decide (j = i)) as [-> |]; [|apply Hun; lia].
        rewrite Hr; [apply lookup_delete_eq|]. intros j Hj' Heq. apply Hinj in Heq; lia.
      * intros k Hk'. rewrite Hr by (intros; apply Hk'; lia). apply lookup_delete_ne, Hk'. lia.
  - exists M, h. split_and!; try done. intros j Hj. lia.
Qed.

Lemma unbound_empty M :
  unbound M 1 → (∀ k, (∀ j, 1 ≤ j < iter → key j ≠ k) → M !! k = None) → M = ∅.
Proof.
  intros Hun Hr. apply map_eq. intros k. rewrite lookup_empty.
  destruct (decide (Exists (λ j, key j = k) (seqZ 1 (iter - 1)))) as [He|Hn].
  - apply Exists_exists in He as (j & Hj%elem_of_seqZ & <-). apply Hun. lia.
  - apply Hr. intros j Hj Heq. apply Hn, Exists_exists. exists j. rewrite elem_of_seqZ. split; [lia|done].
Qed.
End loops.

(** ** The two sources of keys *)

Lemma numbered_src i h :
  1 ≤ i → True →
  ∃ h', numbered i h = Done (sprintf_09d i, h') ∧ h_map h' = h_map h ∧ True.
Proof. intros _ _. by exists h. Qed.

Definition seeded (i : Z) h : Prop := h_seed h = RANDOM_SEED ∧ h_pos h = (10 * Z.to_nat (i - 1))%nat.

Lemma random_src i h :
  1 ≤ i → seeded i h →
  ∃ h', random rand i h = Done (rand_key rand i, h') ∧ h_map h' = h_map h ∧ seeded (i + 1) h'.
Proof.
  intros Hi [Hseed Hpos]. unfold random. rewrite fill_rand_run, Hseed, Hpos. eexists. split; [done|].
  split; [done|]. split; [by cbn|]. cbn [h_pos]. lia.
Qed.
End client.

(** ** The threads

    Thirty-two threads look random keys up, and take every two-hundredth one
    out and put it back.  Between the two calls the key is missing; the
    invariant says that a missing key is always one that some thread is about
    to put back ([thread_at]), so that in the end every key is bound again. *)

Section threads.
Context {St : Type} {I : MapImpl St} {MS : MapSpec I} {HN : NullSpec MS}.
Context (rand : Z → nat → Z) (obj iter : Z).
Implicit Types (h : host St) (ps : list (option Z)).

#[local] Existing Instance atomic_calls.
Notation key := sprintf_09d.
Notation loop := (get_thread_loop rand obj iter).

Hypothesis Hrand : ∀ seed n, 0 ≤ rand seed n.
Hypothesis Hiter : iter ≤ 2 ^ 31.
Hypothesis Hkey : ∀ n, 0 ≤ n < iter → map_key (key n).
Hypothesis Hval : ∀ n, 1 ≤ n < iter → map_val n.
Hypothesis Hroom : ∀ n, Z.of_nat n ≤ iter → map_room n.
Hypothesis Hsearch : ∀ M k, map_searchable M k.

(** Where a thread is, and the key it has taken out. *)
Inductive thread_at : thread (host St) unit → option Z → Prop :=
  | at_loop fuel i :
      1 ≤ i → (Z.to_nat (iter - i) < fuel)%nat → thread_at (loop fuel i) None
  | at_find fuel i n :
      1 ≤ i → (Z.to_nat (iter - i) < fuel)%nat → 0 ≤ n < iter →
      thread_at (_ ← on_map_thread (t_find obj (cstr (key n))); loop fuel i) None
  | at_del fuel i n :
      1 ≤ i → (Z.to_nat (iter - i) < fuel)%nat → 0 ≤ n < iter →
      thread_at (_ ← on_map_thread (t_del obj (cstr (key n)));
                 _ ← on_map_thread (t_add obj (cstr (key n)) n); loop fuel i) None
  | at_add fuel i n :
      1 ≤ i → (Z.to_nat (iter - i) < fuel)%nat → 0 ≤ n < iter →
      thread_at (_ ← on_map_thread (t_add obj (cstr (key n)) n); loop fuel i) (Some n).

(** Every key is bound or about to be put back, and no others are there. *)
Definition restoring M ps : Prop :=
  (∀ j, 1 ≤ j < iter → M !! key j = Some j ∨ M !! key j = None ∧ Some j ∈ ps) ∧
  ∀ k, is_Some (M !! k) → ∃ j, 0 ≤ j < iter ∧ k = key j.

Definition benching h ts : Prop :=
  ∃ M ps, map_repr obj M (h_map h) ∧ Forall2 thread_at ts ps ∧ restoring M ps.

Lemma restoring_size M ps : restoring M ps → Z.of_nat (size M) ≤ Z.max iter 0.
Proof.
  intros [_ Hdom]. rewrite <-(size_dom (D := gset (list Z))).
  assert (dom M ⊆ (list_to_set (key <$> seqZ 0 iter) : gset (list Z))) as Hsub.
  { intros k Hk%elem_of_dom. destruct (Hdom k Hk) as (j & Hj & ->). apply elem_of_list_to_set.
    apply (list_elem_of_fmap_2 key), elem_of_seqZ. lia. }
  apply subseteq_size in Hsub. rewrite size_list_to_set, length_fmap, length_seqZ in Hsub; [lia|].
  apply NoDup_fmap_2_strong; [|apply NoDup_seqZ].
  intros i j Hi%elem_of_seqZ Hj%elem_of_seqZ. apply sprintf_09d_inj; lia.
Qed.

Lemma restoring_room M ps : 0 ≤ iter → restoring M ps → map_room (size M).
Proof. intros H0 Hr. apply Hroom. pose proof (restoring_size M ps Hr). lia. Qed.

(** A thread without a key in hand moves on. *)
Lemma restoring_keep M ps i o : restoring M ps → ps !! i = Some None → restoring M (<[i := o]> ps).
Proof.
  intros [Hb Hdom] Hi. split; [|done]. intros j Hj. destruct (Hb j Hj) as [|[Hn Hin]]; [by left|right].
  split; [done|]. apply list_elem_of_lookup in Hin as [l Hl]. apply list_elem_of_lookup. exists l.
  rewrite list_lookup_insert_ne; [done|]. intros ->. congruence.
Qed.

Lemma restoring_del M ps i n :
  restoring M ps → ps !! i = Some None → 0 ≤ n < iter →
  restoring (delete (key n) M) (<[i := Some n]> ps).
Proof.
  intros Hr Hi Hn. apply (restoring_keep _ _ i (Some n)) in Hr as [Hb Hdom]; [|done]. split.
  - intros j Hj. destruct (decide (j = n)) as [-> |Hne].
    + right. rewrite lookup_delete_eq. split; [done|]. apply list_elem_of_lookup. exists i.
      apply list_lookup_insert_eq. by eapply lookup_lt_Some.
    + rewrite lookup_delete_ne; [by apply Hb|]. intros Heq. apply sprintf_09d_inj in Heq; lia.
  - intros k [v [_ Hk]%lookup_delete_Some]. apply Hdom. by eexists.
Qed.

Lemma restoring_add M M' ps i n :
  restoring M ps → ps !! i = Some (Some n) → 0 ≤ n < iter →
  (1 ≤ n → M' !! key n = Some n) → (∀ k, k ≠ key n → M' !! k = M !! k) →
  restoring M' (<[i := None]> ps).
Proof.
  intros [Hb Hdom] Hi Hn Hnew Hold. split.
  - intros j Hj. destruct (decide (j = n)) as [-> |Hne]; [left; apply Hnew; lia|].
    rewrite Hold by (intros Heq; apply sprintf_09d_inj in Heq; lia).
    destruct (Hb j Hj) as [|[Hnone Hin]]; [by left|right]. split; [done|].
    apply list_elem_of_lookup in Hin as [l Hl]. apply list_elem_of_lookup. exists l.
    rewrite list_lookup_insert_ne; [done|]. intros ->. congruence.
  - intros k Hk. destruct (decide (k = key n)) as [-> |Hne]; [by exists n|].
    apply Hdom. by rewrite <-Hold.
Qed.

(** Putting a key back, which another thread may have done before. *)
Lemma add_back h M ps i n :
  map_repr obj M (h_map h) → restoring M ps → ps !! i = Some (Some n) → 0 ≤ n < iter →
  ∃ r M' s, map_add obj (cstr (key n)) n (h_map h) = Done (r, s) ∧ map_repr obj M' s ∧
    restoring M' (<[i := None]> ps).
Proof.
  intros Hs Hr Hi Hn. pose proof (restoring_room M ps ltac:(lia) Hr) as Hrm.
  destruct (decide (n = 0)) as [-> |Hn0].
  - destruct (map_add_null obj M (h_map h) (key 0)) as (r & M' & s & Hrun & Hs' & Hold); [done|by apply Hkey|done|].
    exists r, M', s. split; [done|]. split; [done|]. eapply restoring_add; [done..|lia|done].
  - destruct (M !! key n) as [v|] eqn:Hv.
    + destruct (map_add_dup obj M (h_map h) (key n) n) as (s & Hrun & Hs');
        [done|by apply Hkey|apply Hval; lia|done|by eexists|].
      exists 1, M, s. split; [done|]. split; [done|]. eapply restoring_add; [done..| |done].
      intros H1. destruct Hr as [Hb _]. destruct (Hb n) as [|[? _]]; [lia|done|congruence].
    + destruct (map_add_new obj M (h_map h) (key n) n) as (s & Hrun & Hs');
        [done|by apply Hkey|apply Hval; lia|done|done|].
      exists 0, (<[key n := n]> M), s. split; [done|]. split; [done|].
      eapply restoring_add; [done..|intros _; apply lookup_insert_eq|].
      intros k Hk. by apply lookup_insert_ne.
Qed.

Lemma benching_step h ts i t :
  benching h ts → ts !! i = Some t →
  ∃ t' h', advance t h = Done (t', h') ∧ benching h' (<[i := t']> ts).
Proof.
  intros (M & ps & Hs & Hts & Hr) Hi. destruct (Forall2_lookup_l _ _ _ _ _ Hts Hi) as (o & Ho & Ht).
  assert (∀ t' h' M' o', advance t h = Done (t', h') → map_repr obj M' (h_map h') → thread_at t' o' →
    restoring M' (<[i := o']> ps) →
    ∃ t' h', advance t h = Done (t', h') ∧ benching h' (<[i := t']> ts)) as Hgo.
  { intros t' h' M' o' Ha Hs' Ht' Hr'. exists t', h'. split; [done|]. exists M', (<[i := o']> ps).
    split; [done|]. split; [by apply Forall2_insert|done]. }
  destruct Ht as [[|fuel] j Hj Hf|fuel j n Hj Hf Hn|fuel j n Hj Hf Hn|fuel j n Hj Hf Hn]; [lia|..].
  - cbn [get_thread_loop] in *. destruct (Z.ltb_spec j iter) as [Hlt|Hge].
    + set (n := Z.rem (rand (h_seed h) (h_pos h)) iter).
      assert (0 ≤ n < iter) as Hn by (apply Z.rem_bound_pos; [apply Hrand|lia]).
      destruct (Z.rem j 200 =? 0).
      * eapply (Hgo _ _ M None); [reflexivity|done| |by apply restoring_keep].
        cbv beta zeta. fold n. apply (at_del fuel (j + 1) n); (done || lia).
      * eapply (Hgo _ _ M None); [reflexivity|done| |by apply restoring_keep].
        cbv beta zeta. fold n. apply (at_find fuel (j + 1) n); (done || lia).
    + eapply (Hgo _ _ M None); [reflexivity|done| |by apply restoring_keep].
      assert (loop (S fuel) j = Ret tt) as Hend.
      { cbn [get_thread_loop]. by destruct (Z.ltb_spec j iter); [lia|]. }
      change (thread_at (Ret tt) None). rewrite <-Hend. by apply at_loop.
  - destruct (map_find_ok obj M (h_map h) (key n)) as (s & Hrun & Hs'); [done|by apply Hkey|done|].
    eapply (Hgo _ _ M None).
    + apply (advance_done (on_map _)). by apply on_map_run.
    + done.
    + by apply at_loop.
    + by apply restoring_keep.
  - destruct (map_del_ok obj M (h_map h) (key n)) as (s & Hrun & Hs'); [done|by apply Hkey|].
    eapply (Hgo _ _ (delete (key n) M) (Some n)).
    + apply (advance_done (on_map _)). by apply on_map_run.
    + done.
    + by apply at_add.
    + by apply restoring_del.
  - destruct (add_back h M ps i n Hs Hr Ho Hn) as (r & M' & s & Hrun & Hs' & Hr').
    eapply (Hgo _ _ M' None).
    + apply (advance_done (on_map _)). by apply on_map_run.
    + done.
    + by apply at_loop.
    + done.
Qed.

(** An iteration takes at most three steps. *)
Lemma loop_finishes fuel : ∀ i,
  (Z.to_nat (iter - i) < fuel)%nat → finishes (3 * Z.to_nat (iter - i)) (loop fuel i).
Proof.
  induction fuel as [|fuel IH]; intros i Hf; [lia|]. cbn [get_thread_loop].
  destruct (Z.ltb_spec i iter); [|constructor].
  replace (3 * Z.to_nat (iter - i))%nat with (S (S (S (3 * Z.to_nat (iter - (i + 1)))))) by lia.
  constructor. intros r. cbv beta zeta. destruct (Z.rem i 200 =? 0).
  - constructor. intros d. constructor. intros a. apply IH. lia.
  - constructor. intros d. apply (finishes_le (3 * Z.to_nat (iter - (i + 1)))); [lia|]. apply IH. lia.
Qed.

Lemma get_threaded_start h M :
  map_repr obj M (h_map h) → bound key iter M 1 → (∀ k, is_Some (M !! k) → ∃ j, 0 ≤ j < iter ∧ k = key j) →
  benching h (replicate NUM_THREADS (get_thread rand obj iter)).
Proof.
  intros Hs Hb Hdom. exists M, (replicate NUM_THREADS None). split; [done|]. split.
  - apply Forall2_replicate. apply at_loop; [lia|]. unfold loop_fuel. lia.
  - split; [|done]. intros j Hj. left. by apply Hb.
Qed.

(** A key is bound to its number or missing, and no more keys are missing than
    there are threads. *)
Lemma benching_missing h ts :
  benching h ts →
  ∃ M, map_repr obj M (h_map h) ∧ (∀ j, 1 ≤ j < iter → M !! key j = Some j ∨ M !! key j = None) ∧
    ∀ js, NoDup js → Forall (λ j, 1 ≤ j < iter ∧ M !! key j = None) js → (length js ≤ length ts)%nat.
Proof.
  intros (M & ps & Hs & Hts & Hb & _). exists M. split; [done|]. split.
  { intros j Hj. destruct (Hb j Hj) as [|[]]; auto. }
  intros js Hnd Hjs. rewrite (Forall2_length _ _ _ Hts), <-(length_fmap Some js).
  apply submseteq_length, NoDup_submseteq; [by apply NoDup_fmap_2; [apply _|]|].
  intros o (j & -> & Hin)%list_elem_of_fmap. rewrite Forall_forall in Hjs. destruct (Hjs j Hin) as [Hj Hnone].
  destruct (Hb j Hj) as [|[_ ?]]; [congruence|done].
Qed.

(** When the threads have finished, every key is bound. *)
Lemma benching_end h ts :
  benching h ts → forallb finished ts = true →
  ∃ M, map_repr obj M (h_map h) ∧ bound key iter M 1 ∧
    ∀ k, is_Some (M !! k) → ∃ j, 0 ≤ j < iter ∧ k = key j.
Proof.
  intros (M & ps & Hs & Hts & Hb & Hdom) Hfin. exists M. split; [done|]. split; [|done].
  intros j Hj. destruct (Hb j Hj) as [|[_ Hin]]; [done|exfalso].
  apply list_elem_of_lookup in Hin as [i Hi]. destruct (Forall2_lookup_r _ _ _ _ _ Hts Hi) as (t & Ht & Hat).
  rewrite forallb_forall in Hfin. specialize (Hfin t (proj1 (list_elem_of_In _ _) (list_elem_of_lookup_2 _ _ _ Ht))).
  by inversion Hat; subst.
Qed.
(** Every thread is scheduled often enough to finish. *)
Definition fair (sched : list nat) : Prop :=
  ∀ i, (i < NUM_THREADS)%nat → (3 * Z.to_nat (iter - 1) ≤ count_occ Nat.eq_dec sched i)%nat.

(** No schedule of the threads goes wrong, and a fair one finishes them. *)
Lemma benching_run sched h :
  benching h (replicate NUM_THREADS (get_thread rand obj iter)) →
  ∃ h' ts', run_schedule sched h (replicate NUM_THREADS (get_thread rand obj iter)) = Done (h', ts') ∧
    benching h' ts' ∧ (fair sched → forallb finished ts' = true).
Proof.
  intros Hb. destruct (run_safe benching benching_step sched h _
    (replicate NUM_THREADS (3 * Z.to_nat (iter - 1))%nat) Hb) as (h' & ts' & ns' & Hrun & Hb' & Hf & Hc).
  { apply Forall2_replicate. apply loop_finishes. unfold loop_fuel. lia. }
  exists h', ts'. split; [done|]. split; [done|]. intros Hfair. apply forallb_forall. intros t Ht.
  apply list_elem_of_In, list_elem_of_lookup in Ht as [i Hi].
  destruct (Forall2_lookup_r _ _ _ _ _ Hf Hi) as (n & Hn & Hfin).
  assert (i < NUM_THREADS)%nat as Hlt.
  { destruct (decide (i < NUM_THREADS)%nat) as [|Hge]; [done|exfalso].
    apply run_schedule_length in Hrun. apply lookup_lt_Some in Hi. rewrite Hrun, length_replicate in Hi. done. }
  pose proof (Hc i _ (lookup_replicate_2 _ _ _ Hlt)) as Hn'. rewrite Hn in Hn'. injection Hn' as Hn'.
  assert (n = 0%nat) as -> by (rewrite Hn'; specialize (Hfair i Hlt); lia).
  by apply finishes_0 in Hfin as [a ->].
Qed.
End threads.
