(* ===== verification/ArtThreads.v ===== *)
(** * ArtThreads: the functions of art.c called by threads that share its lock

    [add], [find] and [del] of art.c as threads: taking the lock, a search, a
    change and releasing the lock are a step each, so that calls of different
    threads overlap and may wait for each other ([art_threads]).  A thread that
    runs alone is the sequential function ([add_thread_solo], ...).

    The lock makes the calls atomic: every run of threads that make these
    calls is matched by one in which a call is one step ([atomic_calls]), the
    step in which the lock is taken ([related_step]).  No run stands still
    ([related_progress]). *)

From S2P Require Import Prelude.
From S2P Require Import Threads.
From S2P Require Import Critbit.
From S2P Require Import Art.
From S2P Require Import ArtArrays.
From S2P Require Import MapSpec.
From S2P Require Import ArtMap.
From S2P Require Import Heap.
From S2P Require Import Helper.
From S2P Require Import HelperLoops.

Section calls.
Context {AM : ArtMalloc}.

Definition add_thread (obj : Z) (key : list Z) (val : Z) : thread art_state Z :=
  _ ← atomic rwlock_wrlock;
  found ← atomic (
    len ← lift (strlen key);
    t ← load_tree obj;
    lift (art_search t key (s32 len)));
  let ret := if negb (found =? 0) then 1 else 0 in
  ret ← (if ret =? 0 then
           atomic (
             len ← lift (strlen key);
             t ← load_tree obj;
             AA ← current_alloc;
             '(t, old) ← lift (art_insert t key (s32 len) val);
             _ ← store_tree obj t;
             mret (if negb (old =? 0) then 1 else 0))
         else mret ret);
  _ ← atomic rwlock_unlock;
  mret ret.

Definition find_thread (obj : Z) (key : list Z) : thread art_state Z :=
  _ ← atomic rwlock_rdlock;
  out ← atomic (
    t ← load_tree obj;
    len ← lift (strlen key);
    lift (art_search t key (s32 len)));
  _ ← atomic rwlock_unlock;
  mret out.

Definition del_thread (obj : Z) (key : list Z) : thread art_state Z :=
  _ ← atomic rwlock_wrlock;
  out ← atomic (
    t ← load_tree obj;
    len ← lift (strlen key);
    AA ← current_alloc;
    '(t, out) ← lift (art_delete t key (s32 len));
    _ ← store_tree obj t;
    mret out);
  _ ← atomic rwlock_unlock;
  mret (if out =? 0 then 1 else 0).

Definition art_threads : ThreadImpl art_state := {|
  t_add := add_thread;
  t_find := find_thread;
  t_del := del_thread;
|}.

(** ** Threads that run alone *)

Lemma bind_lift {S A B} (o : outcome A) (k : A → cmd S B) s :
  (lift o ≫= k) s = match o with Done a => k a s | Undef => Undef | Blocked => Blocked | NoFuel => NoFuel end.
Proof. by destruct o. Qed.

Lemma bind_load {B} obj (k : art_tree → cmd art_state B) s :
  (load_tree obj ≫= k) s = match trees s !! obj with Some t => k t s | None => Undef end.
Proof. unfold mbind, cmd_bind, load_tree. by destruct (trees s !! obj). Qed.

Lemma bind_alloc {B} (k : ArtAlloc → cmd art_state B) s :
  (current_alloc ≫= k) s = k (art_malloc (trees s)) s.
Proof. done. Qed.

(** Evaluates both sides up to the outcomes of the functions on trees. *)
Local Ltac by_outcomes :=
  repeat (rewrite ?bind_assoc, ?bind_load, ?bind_alloc; cbv beta; rewrite ?bind_assoc, ?bind_lift;
    match goal with |- match ?o with _ => _ end = _ => destruct o eqn:? end; cbv beta); try done.

Lemma find_thread_solo obj key s : solo (find_thread obj key) s = Art.find obj key s.
Proof.
  unfold find_thread, Art.find. cbn [solo mbind thread_bind atomic].
  apply bind_ext. intros [] s1 _. by_outcomes.
Qed.

Lemma del_thread_solo obj key s : solo (del_thread obj key) s = Art.del obj key s.
Proof.
  unfold del_thread, Art.del. cbn [solo mbind thread_bind atomic].
  apply bind_ext. intros [] s1 _. by_outcomes. by case_match.
Qed.

(** The thread loads the tree again for the insertion, and finds the one it
    has searched. *)
Lemma add_thread_solo obj key val s : solo (add_thread obj key val) s = Art.add obj key val s.
Proof.
  unfold add_thread, Art.add. cbn [solo mbind thread_bind atomic].
  apply bind_ext. intros [] s1 _. by_outcomes. destruct (_ =? 0) in |- *; [|done].
  cbn [solo mbind thread_bind atomic negb Z.eqb].
  match goal with H : trees _ !! _ = _ |- _ => rewrite ?bind_assoc, !bind_lift, ?bind_assoc, bind_load, H end.
  by_outcomes.
Qed.
(** Commands that leave the lock alone. *)
Definition keeps_lock {B} (c : cmd art_state B) : Prop :=
  ∀ s b s', c s = Done (b, s') → art_lock s' = art_lock s.

Lemma lock_bind {B C} (c : cmd art_state B) (k : B → cmd art_state C) :
  keeps_lock c → (∀ b, keeps_lock (k b)) → keeps_lock (c ≫= k).
Proof. intros Hc Hk s d s' (b & s1 & H1 & H2)%bind_inv. by rewrite (Hk _ _ _ _ H2), (Hc _ _ _ H1). Qed.

Lemma lock_lift {B} (o : outcome B) : keeps_lock (lift o).
Proof. intros s b s'. unfold lift. by destruct o; cbn; intros [= _ <-] || intros. Qed.

Lemma lock_load obj : keeps_lock (load_tree obj).
Proof. intros s b s'. unfold load_tree. by destruct (trees s !! obj); cbn; intros [= _ <-] || intros. Qed.

Lemma lock_store obj t : keeps_lock (store_tree obj t).
Proof. by intros s b s' [= _ <-]. Qed.

Lemma lock_alloc : keeps_lock current_alloc.
Proof. by intros s b s' [= _ <-]. Qed.

Lemma lock_ret {B} (b : B) : keeps_lock (mret b).
Proof. by intros s b' s' [= _ <-]. Qed.

Create HintDb lock.
#[local] Hint Resolve lock_alloc lock_bind lock_lift lock_load lock_store lock_ret : lock.
#[local] Hint Extern 5 (keeps_lock (let '(_, _) := ?p in _)) => destruct p : lock.

(** ** Their length *)

Lemma add_finishes obj key val : finishes 4 (add_thread obj key val).
Proof.
  do 2 (constructor; intros ?). cbv zeta. destruct (_ =? 0) in |- *; [constructor; intros ?|];
    repeat (constructor; intros ?); constructor.
Qed.

Lemma find_finishes obj key : finishes 3 (find_thread obj key).
Proof. do 3 (constructor; intros ?). constructor. Qed.

Lemma del_finishes obj key : finishes 3 (del_thread obj key).
Proof. do 3 (constructor; intros ?). constructor. Qed.

Lemma finishes_on_map {A} n (t : thread art_state A) : finishes n t → finishes n (on_map_thread t).
Proof. induction 1; constructor; auto. Qed.

(** ** Inside of the lock

    The rest of a reader finds the trees [ts] and returns [r]; the rest of a
    writer keeps the lock up to its last step. *)
Inductive reading (ts : gmap Z art_tree) : thread art_state Z → Z → Prop :=
  | reading_unlock r : reading ts (Step rwlock_unlock (λ _, Ret r)) r
  | reading_step B (c : cmd art_state B) k b r :
      (∀ l, c (ArtState ts l) = Done (b, ArtState ts l)) → reading ts (k b) r → reading ts (Step c k) r.

Inductive writing : thread art_state Z → Prop :=
  | writing_unlock r : writing (Step rwlock_unlock (λ _, Ret r))
  | writing_step B (c : cmd art_state B) k :
      keeps_lock c → (∀ b, writing (k b)) → writing (Step c k).

(** The thread [t] does under the lock what the command [c] does at once. *)
Inductive locked_call : thread art_state Z → cmd art_state Z → Prop :=
  | locked_read body c :
      (∀ ts r s', c (ArtState ts (Rwlock 0 false)) = Done (r, s') →
        s' = ArtState ts (Rwlock 0 false) ∧ reading ts body r) →
      locked_call (Step rwlock_rdlock (λ _, body)) c
  | locked_write body c :
      writing body → (∀ s, solo (Step rwlock_wrlock (λ _, body)) s = c s) →
      locked_call (Step rwlock_wrlock (λ _, body)) c.

Lemma writing_releases t s r s' :
  writing t → art_lock s = Rwlock 0 true → solo t s = Done (r, s') → art_lock s' = Rwlock 0 false.
Proof.
  intros Hw. revert s. induction Hw as [r0|B c k Hc _ IH]; intros s Hl; cbn [solo].
  - intros ([] & s1 & Hu & [= <- <-])%bind_inv. unfold rwlock_unlock in Hu. rewrite Hl in Hu. cbn in Hu. by simplify_eq.
  - intros (b & s1 & Hs1 & Hrun)%bind_inv. eapply IH; [|exact Hrun]. by rewrite (Hc _ _ _ Hs1).
Qed.

Lemma find_locked obj key : locked_call (find_thread obj key) (Art.find obj key).
Proof.
  unfold find_thread. cbn [mbind thread_bind atomic]. apply locked_read. intros ts r s'.
  rewrite <-find_thread_solo. cbn [solo find_thread mbind thread_bind atomic].
  intros ([] & s1 & [= <-] & (out & s2 & Hbody & Hrest)%bind_inv)%bind_inv.
  apply bind_inv in Hbody as (t & s3 & Ht & (len & s4 & Hlen & Hout)%bind_inv).
  unfold load_tree in Ht. cbn [trees] in Ht. destruct (ts !! obj) as [t'|] eqn:Hobj; [|done]. injection Ht as -> <-.
  unfold lift in Hlen, Hout. destruct (strlen key) as [len'| | |] eqn:Hl; [|done..]. injection Hlen as -> <-.
  destruct (art_search t key (s32 len)) as [out'| | |] eqn:Hs; [|done..]. injection Hout as -> <-.
  injection Hrest as <- <-. split; [done|].
  apply (reading_step _ _ _ _ out); [|apply reading_unlock].
  intros l. rewrite bind_load. cbn [trees]. rewrite Hobj, bind_lift. unfold lift. by rewrite Hs.
Qed.

Lemma del_locked obj key : locked_call (del_thread obj key) (Art.del obj key).
Proof.
  pose proof (del_thread_solo obj key) as Hsolo. unfold del_thread in *. cbn [mbind thread_bind atomic] in *.
  apply locked_write; [|done]. apply writing_step; [|intros b; apply writing_unlock].
  eauto 10 with lock.
Qed.

Lemma add_locked obj key val : locked_call (add_thread obj key val) (Art.add obj key val).
Proof.
  pose proof (add_thread_solo obj key val) as Hsolo. unfold add_thread in *. cbn [mbind thread_bind atomic] in *.
  apply locked_write; [|done]. apply writing_step.
  - eauto 10 with lock.
  - intros found. destruct (_ =? 0) in |- *; [|apply writing_unlock].
    apply writing_step; [|intros b; apply writing_unlock]. eauto 15 with lock.
Qed.

(** ** Threads of the benchmark, and calls that are one step

    [corr]: two threads of the driver that are not in a call make the same
    calls, one inside of the lock and the other at once.  Between calls, a
    thread only draws numbers ([local]). *)
Section simulation.
Context {A : Type}.
Notation host := (Helper.host art_state).
Implicit Types (h : host) (s : art_state).

Definition local {B} (c : cmd host B) : Prop := ∀ h b h', c h = Done (b, h') →
  h_map h' = h_map h ∧ ∀ s, c (with_map s h) = Done (b, with_map s h').

Inductive corr : thread host A → thread host A → Prop :=
  | corr_ret a : corr (Ret a) (Ret a)
  | corr_local B (c : cmd host B) kf ka : local c → (∀ b, corr (kf b) (ka b)) → corr (Step c kf) (Step c ka)
  | corr_call tf c kf ka :
      locked_call tf c → (∀ r, corr (kf r) (ka r)) → corr (on_map_thread tf ≫= kf) (Step (on_map c) ka).

(** A thread outside of the lock (0), or reading (1); [ts] are the trees. *)
Inductive reader (ts : gmap Z art_tree) : thread host A → thread host A → nat → Prop :=
  | reader_out tf ta : corr tf ta → reader ts tf ta 0
  | reader_in t r kf ta : reading ts t r → corr (kf r) ta → reader ts (on_map_thread t ≫= kf) ta 1.

(** Some threads are reading, or one is writing, and the others are outside.
    In the run on the right the calls that have begun are over. *)
Inductive related : host → list (thread host A) → host → list (thread host A) → Prop :=
  | related_shared ns tsf h tsa :
      art_lock (h_map h) = Rwlock 0 false → Forall3 (reader (trees (h_map h))) tsf tsa ns →
      related (with_map (ArtState (trees (h_map h)) (Rwlock (Z.of_nat (sum_list ns)) false)) h) tsf h tsa
  | related_exclusive i t kf r s tsf h tsa :
      art_lock (h_map h) = Rwlock 0 false → art_lock s = Rwlock 0 true →
      writing t → solo t s = Done (r, h_map h) → tsf !! i = Some (kf r) → Forall2 corr tsf tsa →
      related (with_map s h) (<[i := on_map_thread t ≫= kf]> tsf) h tsa.

Lemma call_done {B} (c : cmd art_state B) k (kf : Z → thread host A) h b s :
  c (h_map h) = Done (b, s) →
  advance (on_map_thread (Step c k) ≫= kf) h = Done (on_map_thread (k b) ≫= kf, with_map s h).
Proof.
  intros Hc. exact (advance_done (on_map c) (λ b, on_map_thread (k b) ≫= kf) h b _ (on_map_run c h b s Hc)).
Qed.

Lemma call_blocked {B} (c : cmd art_state B) k (kf : Z → thread host A) h :
  c (h_map h) = Blocked → advance (on_map_thread (Step c k) ≫= kf) h = Blocked.
Proof. intros Hc. cbn. unfold mbind, cmd_bind, on_map. by rewrite Hc. Qed.

Lemma with_same_map h : with_map (h_map h) h = h.
Proof. by destruct h. Qed.

Lemma on_map_inv {B} (c : cmd art_state B) h b h' :
  on_map c h = Done (b, h') → ∃ s, c (h_map h) = Done (b, s) ∧ h' = with_map s h.
Proof.
  unfold on_map. destruct (c (h_map h)) as [[b' s]| | |]; [|done..]. intros [= <- <-]. by exists s.
Qed.

Lemma readers_out ts tsf tsa : Forall2 corr tsf tsa → Forall3 (reader ts) tsf tsa (replicate (length tsf) 0%nat).
Proof. induction 1; cbn; [constructor|]. constructor; [by apply reader_out|done]. Qed.

Lemma no_readers ts tsf tsa ns : Forall3 (reader ts) tsf tsa ns → sum_list ns = 0%nat → Forall2 corr tsf tsa.
Proof.
  induction 1 as [|tf ta n tsf tsa ns Hr _ IH]; intros Hs; [constructor|]. cbn in Hs.
  constructor; [|apply IH; cbn; lia]. destruct Hr; [done|lia].
Qed.

Lemma Forall3_insert {X Y U} (R : X → Y → U → Prop) l k k' i x y z :
  Forall3 R l k k' → R x y z → Forall3 R (<[i := x]> l) (<[i := y]> k) (<[i := z]> k').
Proof. intros H Hr. revert i. induction H; intros [|i]; cbn; constructor; auto. Qed.

Lemma nobody_reads ts tsf tsa ns :
  Forall3 (reader ts) tsf tsa ns → Forall (λ n, n ≠ 1%nat) ns → sum_list ns = 0%nat.
Proof.
  induction 1 as [|tf ta n tsf tsa ns Hr _ IH]; [done|]. intros [Hn Hns]%Forall_cons.
  destruct Hr; [|done]. by apply IH.
Qed.

(** The run on the right waits, or takes the same step. *)
Definition matched tsf h0 tsa (i : nat) (tf : thread host A) h' : Prop :=
  related h' (<[i := tf]> tsf) h0 tsa ∨
  ∃ ta ta' h0', tsa !! i = Some ta ∧ advance ta h0 = Done (ta', h0') ∧
    related h' (<[i := tf]> tsf) h0' (<[i := ta']> tsa).

Lemma unlocked_map h : art_lock (h_map h) = Rwlock 0 false → h_map h = ArtState (trees (h_map h)) (Rwlock 0 false).
Proof. intros <-. by destruct (h_map h). Qed.

(** Nobody is in the lock. *)
Lemma related_start h tsf tsa :
  art_lock (h_map h) = Rwlock 0 false → Forall2 corr tsf tsa → related h tsf h tsa.
Proof.
  intros Hfree Hc. rewrite <-(with_same_map h) at 1. rewrite (unlocked_map h) by done.
  pose proof (related_shared (replicate (length tsf) 0%nat) tsf h tsa Hfree (readers_out _ _ _ Hc)) as Hr.
  by rewrite sum_list_replicate, Nat.mul_0_r in Hr.
Qed.

(** A thread in a state without a writer. *)
Section shared.
Context (h : host) (tsf tsa : list (thread host A)) (ns : list nat) (i : nat).
Hypothesis Hfree : art_lock (h_map h) = Rwlock 0 false.
Hypothesis Hreaders : Forall3 (reader (trees (h_map h))) tsf tsa ns.
Notation hf := (with_map (ArtState (trees (h_map h)) (Rwlock (Z.of_nat (sum_list ns)) false)) h).

Lemma reader_counted : ns !! i = Some 1%nat → (0 < sum_list ns)%nat.
Proof. intros Hi. pose proof (sum_list_insert ns i 0%nat 1%nat Hi). lia. Qed.

Lemma reading_advances t r kf ta :
  tsa !! i = Some ta → ns !! i = Some 1%nat → reading (trees (h_map h)) t r → corr (kf r) ta →
  ∃ tf' h', advance (on_map_thread t ≫= kf) hf = Done (tf', h') ∧ related h' (<[i := tf']> tsf) h tsa.
Proof.
  intros Hta Hi Ht Hk. pose proof (reader_counted Hi) as Hpos.
  rewrite <-(list_insert_id tsa i ta) by done.
  destruct Ht as [r|B c k b r Hc Hr].
  - exists (kf r), (with_map (ArtState (trees (h_map h)) (Rwlock (Z.of_nat (sum_list (<[i := 0%nat]> ns))) false)) h).
    split.
    + apply (call_done rwlock_unlock (λ _, Ret r) kf hf tt).
      unfold rwlock_unlock. cbn [art_lock writer readers h_map with_map trees].
      destruct (Z.ltb_spec 0 (Z.of_nat (sum_list ns))); [|lia].
      pose proof (sum_list_insert ns i 0%nat 1%nat Hi). do 4 f_equal. lia.
    + apply related_shared; [done|]. apply Forall3_insert; [done|by apply reader_out].
  - exists (on_map_thread (k b) ≫= kf), hf. split.
    + exact (call_done c k kf hf b _ (Hc _)).
    + rewrite <-(list_insert_id ns i 1%nat) by done. apply related_shared; [done|].
      apply Forall3_insert; [done|by apply (reader_in _ _ r)].
Qed.

(** A reader takes the lock: on the right its call is over. *)
Lemma read_begins body kf c ta' h' :
  tsa !! i = Some (Step (on_map c) ta') → ns !! i = Some 0%nat →
  (∀ ts r s', c (ArtState ts (Rwlock 0 false)) = Done (r, s') →
    s' = ArtState ts (Rwlock 0 false) ∧ reading ts body r) →
  (∀ r, corr (kf r) (ta' r)) → (∃ t, advance (Step (on_map c) ta') h = Done (t, h')) →
  ∃ tf' hf', advance (on_map_thread (Step rwlock_rdlock (λ _, body)) ≫= kf) hf = Done (tf', hf') ∧
    matched tsf h tsa i tf' hf'.
Proof.
  intros Hta Hi Hread Hk (t & Ha). pose proof Ha as (r & h1 & (s1 & Hs1 & ->)%on_map_inv & [= <- <-])%bind_inv.
  rewrite (unlocked_map h Hfree) in Hs1. destruct (Hread _ _ _ Hs1) as [-> Hr].
  exists (on_map_thread body ≫= kf),
    (with_map (ArtState (trees (h_map h)) (Rwlock (Z.of_nat (sum_list (<[i := 1%nat]> ns))) false)) h). split.
  - apply (call_done rwlock_rdlock (λ _, body) kf hf tt). unfold rwlock_rdlock.
    cbn [art_lock writer readers h_map with_map trees].
    pose proof (sum_list_insert ns i 1%nat 0%nat Hi). do 4 f_equal. lia.
  - right. eexists _, _, _. split; [done|]. split; [exact Ha|]. rewrite <-(unlocked_map h Hfree), with_same_map.
    apply related_shared; [done|]. apply Forall3_insert; [done|by apply (reader_in _ _ r)].
Qed.

(** A writer takes the lock when nobody reads. *)
Lemma write_begins body kf c ta' h' :
  tsf !! i = Some (on_map_thread (Step rwlock_wrlock (λ _, body)) ≫= kf) →
  tsa !! i = Some (Step (on_map c) ta') →
  writing body → (∀ s, solo (Step rwlock_wrlock (λ _, body)) s = c s) →
  (∀ r, corr (kf r) (ta' r)) → (∃ t, advance (Step (on_map c) ta') h = Done (t, h')) → sum_list ns = 0%nat →
  ∃ tf' hf', advance (on_map_thread (Step rwlock_wrlock (λ _, body)) ≫= kf) hf = Done (tf', hf') ∧
    matched tsf h tsa i tf' hf'.
Proof.
  intros Htf Hta Hw Hsolo Hk (t & Ha) H0.
  pose proof Ha as (r & h1 & (s1 & Hs1 & ->)%on_map_inv & [= <- <-])%bind_inv. rewrite (unlocked_map h Hfree) in Hs1.
  exists (on_map_thread body ≫= kf), (with_map (ArtState (trees (h_map h)) (Rwlock 0 true)) h). split.
  { apply (call_done rwlock_wrlock (λ _, body) kf hf tt). unfold rwlock_wrlock.
    cbn [art_lock writer readers h_map with_map trees]. by rewrite H0. }
  right. eexists _, _, _. split; [done|]. split; [exact Ha|]. rewrite <-Hsolo in Hs1.
  rewrite <-(list_insert_insert_eq tsf i _ (kf r)).
  apply (related_exclusive i body kf r _ _ (with_map s1 h)); cbn [h_map with_map]; [|done|done|exact Hs1|..].
  - apply (writing_releases body (ArtState (trees (h_map h)) (Rwlock 0 true)) r); [done..|exact Hs1].
  - apply list_lookup_insert_eq. by eapply lookup_lt_Some.
  - apply Forall2_insert; [|done]. by eapply no_readers.
Qed.

(** A thread outside of the lock only waits for readers. *)
Lemma outside_step tf ta :
  tsf !! i = Some tf → tsa !! i = Some ta → ns !! i = Some 0%nat → corr tf ta →
  (∃ ta' h', advance ta h = Done (ta', h')) →
  advance tf hf = Blocked ∧ (0 < sum_list ns)%nat ∨
  ∃ tf' h', advance tf hf = Done (tf', h') ∧ matched tsf h tsa i tf' h'.
Proof.
  intros Htf Hta Hi Hc (ta' & h' & Ha). destruct Hc as [a|B c kf ka Hloc Hk|tf c kf ka Hcall Hk].
  - right. exists (Ret a), hf. split; [done|]. left. rewrite list_insert_id by done. by apply related_shared.
  - right. pose proof Ha as (b & h1 & Hb & [= <- <-])%bind_inv. destruct (Hloc h b h1 Hb) as [Hmap Hwith].
    exists (kf b), (with_map (h_map hf) h1). split.
    { unfold advance. by rewrite (bind_done _ _ _ _ _ (Hwith (h_map hf))). }
    right. exists (Step c ka), (ka b), h1. split; [done|]. split; [done|]. cbn [h_map with_map]. rewrite <-Hmap in *.
    rewrite <-(list_insert_id ns i 0%nat) by done. apply related_shared; [done|].
    apply Forall3_insert; [done|by apply reader_out].
  - destruct Hcall as [body c Hread|body c Hw Hsolo].
    + right. eapply read_begins; [exact Hta|done..|by exists ta'].
    + destruct (decide (sum_list ns = 0%nat)) as [H0|Hn].
      * right. eapply write_begins; [exact Htf|exact Hta|done..|by exists ta'|done].
      * left. split; [|lia]. apply call_blocked. unfold rwlock_wrlock.
        cbn [art_lock writer readers h_map with_map]. by destruct (Z.ltb_spec 0 (Z.of_nat (sum_list ns))); [|lia].
Qed.
End shared.

(** While a writer holds the lock. *)
Section exclusive.
Context (i : nat) (t : thread art_state Z) (kf : Z → thread host A) (r : Z) (s : art_state).
Context (h : host) (tsf tsa : list (thread host A)).
Hypothesis Hfree : art_lock (h_map h) = Rwlock 0 false.
Hypothesis Hlock : art_lock s = Rwlock 0 true.
Hypothesis Hw : writing t.
Hypothesis Hsolo : solo t s = Done (r, h_map h).
Hypothesis Hi : tsf !! i = Some (kf r).
Hypothesis Hcorr : Forall2 corr tsf tsa.
Notation held := (<[i := on_map_thread t ≫= kf]> tsf).

(** Its next step. *)
Lemma writer_step :
  ∃ tf' h', advance (on_map_thread t ≫= kf) (with_map s h) = Done (tf', h') ∧
    related h' (<[i := tf']> tsf) h tsa.
Proof using All.
  destruct Hw as [r0|B c k Hkeep Hk].
  - apply bind_inv in Hsolo as ([] & s1 & Hu & Hret). injection Hret as -> ->. exists (kf r), h. split.
    + rewrite <-(with_same_map h) at 2. exact (call_done rwlock_unlock (λ _, Ret r) kf (with_map s h) tt _ Hu).
    + rewrite list_insert_id by done. by apply related_start.
  - apply bind_inv in Hsolo as (b & s1 & Hs1 & Hrun). exists (on_map_thread (k b) ≫= kf), (with_map s1 h). split.
    + exact (call_done c k kf (with_map s h) b s1 Hs1).
    + apply (related_exclusive i (k b) kf r); try done. by rewrite (Hkeep _ _ _ Hs1).
Qed.

(** The step of another thread, which is between calls or waits. *)
Lemma bystander_step j tf ta :
  j ≠ i → tsf !! j = Some tf → tsa !! j = Some ta → corr tf ta →
  (∃ ta' h', advance ta h = Done (ta', h')) →
  advance tf (with_map s h) = Blocked ∨
  ∃ tf' h', advance tf (with_map s h) = Done (tf', h') ∧ matched held h tsa j tf' h'.
Proof using All.
  intros Hne Hj Hta Hc (ta' & h' & Hat).
  destruct Hc as [a|B c kf' ka Hloc Hk|tf c kf' ka Hcall Hk].
  - right. exists (Ret a), (with_map s h). split; [done|]. left.
    rewrite list_insert_id by (by rewrite list_lookup_insert_ne). by apply (related_exclusive i t kf r).
  - right. pose proof Hat as (b & h1 & Hb & [= <- <-])%bind_inv. destruct (Hloc h b h1 Hb) as [Hmap Hwith].
    exists (kf' b), (with_map s h1). split; [unfold advance; by rewrite (bind_done _ _ _ _ _ (Hwith s))|].
    right. exists (Step c ka), (ka b), h1. split; [done|]. split; [done|].
    rewrite list_insert_insert_ne by done. rewrite <-Hmap in *. apply (related_exclusive i t kf r); try done.
    + by rewrite list_lookup_insert_ne.
    + by apply Forall2_insert.
  - left. destruct Hcall; apply call_blocked; cbn [h_map with_map];
      unfold rwlock_rdlock, rwlock_wrlock; by rewrite Hlock.
Qed.
End exclusive.

Lemma related_step hf tsf ha tsa i tf :
  related hf tsf ha tsa → tsf !! i = Some tf →
  (∀ ta, tsa !! i = Some ta → ∃ ta' h', advance ta ha = Done (ta', h')) →
  advance tf hf = Blocked ∨
  ∃ tf' h', advance tf hf = Done (tf', h') ∧ matched tsf ha tsa i tf' h'.
Proof.
  intros Hr Htf Ha. destruct Hr as [ns tsf h tsa Hfree Hreaders|j t kf r s tsf h tsa Hfree Hlock Hw Hsolo Hj Hc].
  - destruct (Forall3_lookup_l _ _ _ _ _ _ Hreaders Htf) as (ta & n & Hta & Hn & Hreader).
    destruct Hreader as [tf ta Hc|t r kf ta Ht Hk].
    + destruct (outside_step h tsf tsa ns i Hfree Hreaders tf ta) as [[Hb _]|H]; auto.
    + right. destruct (reading_advances h tsf tsa ns i Hfree Hreaders t r kf ta) as (tf' & h' & Hadv & Hr); [done..|].
      exists tf', h'. split; [done|by left].
  - destruct (decide (i = j)) as [-> |Hne].
    + right. rewrite list_lookup_insert_eq in Htf by (by eapply lookup_lt_Some). injection Htf as <-.
      destruct (writer_step j t kf r s h tsf tsa) as (tf' & h' & Hadv & Hr); [done..|].
      exists tf', h'. split; [done|left]. by rewrite list_insert_insert_eq.
    + rewrite list_lookup_insert_ne in Htf by done. destruct (Forall2_lookup_l _ _ _ _ _ Hc Htf) as (ta & Hta & Hcorr).
      apply (bystander_step j t kf r s h tsf tsa) with (ta := ta); auto.
Qed.

(** No state of the run is stuck. *)
Lemma related_progress hf tsf ha tsa :
  related hf tsf ha tsa → (∀ i ta, tsa !! i = Some ta → ∃ ta' h', advance ta ha = Done (ta', h')) →
  forallb finished tsf = false → ∃ i, movable hf tsf i.
Proof.
  intros Hr Ha Hfin. destruct Hr as [ns tsf h tsa Hfree Hreaders|j t kf r s tsf h tsa Hfree Hlock Hw Hsolo Hj Hc].
  - destruct (decide (Exists (λ n, n = 1%nat) ns)) as [Hn|Hn].
    + apply Exists_exists in Hn as (n & (i & Hi)%list_elem_of_lookup & ->).
      destruct (Forall3_lookup_r _ _ _ _ _ _ Hreaders Hi) as (tf & ta & Htf & Hta & Hreader).
      inversion Hreader as [|t r kf ta' Ht Hk]; subst.
      destruct (reading_advances h tsf tsa ns i Hfree Hreaders t r kf ta) as (tf' & h' & Hadv & _); [done..|].
      exists i, (on_map_thread t ≫= kf), tf', h'. split; [done|]. split; [by destruct Ht|done].
    + assert (sum_list ns = 0%nat) as H0.
      { eapply nobody_reads; [done|by apply not_Exists_Forall; [intros; apply _|]]. }
      destruct (unfinished_lookup tsf Hfin) as (i & tf & Htf & Hunf).
      destruct (Forall3_lookup_l _ _ _ _ _ _ Hreaders Htf) as (ta & n & Hta & Hni & Hreader).
      destruct Hreader as [tf ta Hc|t r kf ta Ht Hk].
      * destruct (outside_step h tsf tsa ns i Hfree Hreaders tf ta) as [[_ Hpos]|(tf' & h' & Hadv & _)];
          [done..|by apply (Ha i)|lia|].
        by exists i, tf, tf', h'.
      * destruct Hn. apply Exists_exists. exists 1%nat. split; [by eapply list_elem_of_lookup_2|done].
  - exists j, (on_map_thread t ≫= kf).
    destruct (writer_step j t kf r s h tsf tsa) as (tf' & h' & Hadv & _); [done..|].
    exists tf', h'. split; [apply list_lookup_insert_eq; by eapply lookup_lt_Some|]. split; [by destruct Hw|done].
Qed.

(** When all threads have finished, so they have on the right, and the states
    are the same. *)
Lemma related_finished hf tsf ha tsa :
  related hf tsf ha tsa → forallb finished tsf = true → hf = ha ∧ forallb finished tsa = true.
Proof.
  intros Hr Hfin. destruct Hr as [ns tsf h tsa Hfree Hreaders|j t kf r s tsf h tsa Hfree Hlock Hw Hsolo Hj Hc].
  - assert (sum_list ns = 0%nat ∧ forallb finished tsa = true) as [H0 Hfa].
    { clear Hfree. induction Hreaders as [|tf ta n tsf tsa ns Hr _ IH]; [done|].
      apply andb_prop in Hfin as [Htf Hfin]. destruct (IH Hfin) as [H0 Ha].
      destruct Hr as [tf ta Hc|t r kf ta Ht _]; [|by destruct Ht].
      destruct Hc as [| |? ? ? ? Hcall]; [by cbn; rewrite H0|done|by destruct Hcall]. }
    split; [|done]. rewrite H0. change (Z.of_nat 0) with 0. by rewrite <-(unlocked_map h Hfree), with_same_map.
  - exfalso. assert (finished (on_map_thread t ≫= kf) = true) as Hf; [|by destruct Hw].
    apply (finished_lookup _ j _ Hfin), list_lookup_insert_eq. by eapply lookup_lt_Some.
Qed.
End simulation.

(** ** The threads of the benchmark *)

Section benchmark.
Context (malloc_tree : gmap Z art_tree → Z) (rand : Z → nat → Z) (obj iter : Z).

Notation locked_loop := (get_thread_loop (T := art_threads) rand obj iter).
Notation atomic_loop := (get_thread_loop (T := @atomic_calls _ (art_impl malloc_tree)) rand obj iter).

Lemma local_next_rand : local (next_rand (St := art_state) rand).
Proof. by intros h b h' [= <- <-]. Qed.

Lemma local_nofuel {B} : local (@nofuel (host art_state) B).
Proof. done. Qed.

Lemma corr_loop fuel : ∀ i, corr (locked_loop fuel i) (atomic_loop fuel i).
Proof.
  induction fuel as [|fuel IH]; intros i; cbn [get_thread_loop].
  { apply corr_local; [apply local_nofuel|]. intros b. apply corr_ret. }
  destruct (i <? iter); [|apply corr_ret]. apply corr_local; [apply local_next_rand|].
  intros r. cbn beta zeta. destruct (Z.rem i 200 =? 0).
  - apply (corr_call _ (Art.del obj _)); [apply del_locked|]. intros _.
    apply (corr_call _ (Art.add obj _ _)); [apply add_locked|]. intros _. apply IH.
  - apply (corr_call _ (Art.find obj _)); [apply find_locked|]. intros _. apply IH.
Qed.

(** An iteration takes at most eight steps. *)
Lemma locked_loop_finishes fuel : ∀ i,
  (Z.to_nat (iter - i) < fuel)%nat → finishes (8 * Z.to_nat (iter - i)) (locked_loop fuel i).
Proof.
  induction fuel as [|fuel IH]; intros i Hf; [lia|]. cbn [get_thread_loop].
  destruct (Z.ltb_spec i iter); [|constructor].
  replace (8 * Z.to_nat (iter - i))%nat with (S (3 + (4 + 8 * Z.to_nat (iter - (i + 1)))))%nat by lia.
  constructor. intros r. cbv beta zeta. destruct (Z.rem i 200 =? 0).
  - apply finishes_bind; [apply finishes_on_map, del_finishes|]. intros _.
    apply finishes_bind; [apply finishes_on_map, add_finishes|]. intros _. apply IH. lia.
  - apply finishes_bind; [apply finishes_on_map, find_finishes|]. intros _.
    apply (finishes_le (8 * Z.to_nat (iter - (i + 1)))); [lia|]. apply IH. lia.
Qed.

Section runs.
Context (P : host art_state → list (thread (host art_state) unit) → Prop).
Hypothesis Hstep : ∀ h ts i t, P h ts → ts !! i = Some t →
  ∃ t' h', advance t h = Done (t', h') ∧ P h' (<[i := t']> ts).

(** What an invariant of the calls that are one step says of the calls that
    take the lock. *)
Definition locked_inv (h : host art_state) ts : Prop := ∃ h0 ts0, related h ts h0 ts0 ∧ P h0 ts0.

Lemma locked_step h ts i t :
  locked_inv h ts → ts !! i = Some t →
  advance t h = Blocked ∨ ∃ t' h', advance t h = Done (t', h') ∧ locked_inv h' (<[i := t']> ts).
Proof.
  intros (h0 & ts0 & Hr & HP) Hi.
  destruct (related_step h ts h0 ts0 i t Hr Hi) as [|(t' & h' & Hadv & Hm)]; [|by left|right].
  { intros ta Hta. destruct (Hstep h0 ts0 i ta HP Hta) as (ta' & h' & Ha & _). by exists ta', h'. }
  exists t', h'. split; [done|]. destruct Hm as [Hm|(ta & ta' & h0' & Hta & Ha & Hm)]; [by exists h0, ts0|].
  exists h0', (<[i := ta']> ts0). split; [done|].
  destruct (Hstep h0 ts0 i ta HP Hta) as (ta2 & h2 & Ha2 & HP').
  rewrite Ha in Ha2. by injection Ha2 as -> ->.
Qed.

Lemma locked_progress h ts : locked_inv h ts → forallb finished ts = false → ∃ i, movable h ts i.
Proof.
  intros (h0 & ts0 & Hr & HP). apply (related_progress h ts h0 ts0 Hr).
  intros i ta Hta. destruct (Hstep h0 ts0 i ta HP Hta) as (ta' & h' & Ha & _). by exists ta', h'.
Qed.

(** Every thread is scheduled in every round, and there are enough rounds. *)
Definition fair_rounds (rounds : list (list nat)) : Prop :=
  Forall (λ round, ∀ i, (i < NUM_THREADS)%nat → i ∈ round) rounds ∧
  (NUM_THREADS * (8 * Z.to_nat (iter - 1)) ≤ length rounds)%nat.

Lemma locked_threads_start h :
  art_lock (h_map h) = Rwlock 0 false →
  P h (replicate NUM_THREADS (get_thread (T := @atomic_calls _ (art_impl malloc_tree)) rand obj iter)) →
  locked_inv h (replicate NUM_THREADS (get_thread (T := art_threads) rand obj iter)) ∧
  Forall2 finishes (replicate NUM_THREADS (8 * Z.to_nat (iter - 1))%nat)
    (replicate NUM_THREADS (get_thread (T := art_threads) rand obj iter)).
Proof.
  intros Hfree HP. split.
  - eexists h, _. split; [|exact HP]. apply related_start; [done|]. apply Forall2_replicate, corr_loop.
  - apply Forall2_replicate. apply locked_loop_finishes. unfold loop_fuel. lia.
Qed.

(** No schedule goes wrong, ... *)
Lemma locked_threads_safe sched h :
  art_lock (h_map h) = Rwlock 0 false →
  P h (replicate NUM_THREADS (get_thread (T := @atomic_calls _ (art_impl malloc_tree)) rand obj iter)) →
  ∃ h' ts', run_schedule sched h (replicate NUM_THREADS (get_thread (T := art_threads) rand obj iter)) =
    Done (h', ts') ∧ locked_inv h' ts'.
Proof.
  intros Hfree HP. destruct (locked_threads_start h Hfree HP) as [HQ Hf].
  destruct (round_waits locked_inv locked_step sched h _ _ HQ Hf) as (h' & ts' & _ & Hrun & HQ' & _).
  by exists h', ts'.
Qed.

(** ... and a fair one finishes the threads. *)
Lemma locked_threads_run rounds h :
  fair_rounds rounds → art_lock (h_map h) = Rwlock 0 false →
  P h (replicate NUM_THREADS (get_thread (T := @atomic_calls _ (art_impl malloc_tree)) rand obj iter)) →
  ∃ h' ts' ts0, run_schedule (mjoin rounds) h (replicate NUM_THREADS (get_thread (T := art_threads) rand obj iter)) =
      Done (h', ts') ∧ forallb finished ts' = true ∧ P h' ts0 ∧ forallb finished ts0 = true.
Proof.
  intros [Hrounds Hlen] Hfree HP. destruct (locked_threads_start h Hfree HP) as [HQ Hf].
  destruct (rounds_finish locked_inv locked_step locked_progress rounds h _ _ HQ Hf)
    as (h' & ts' & Hrun & (h0 & ts0 & Hr & HP') & Hfin).
  - by rewrite length_replicate.
  - by rewrite sum_list_replicate.
  - exists h', ts', ts0. destruct (related_finished _ _ _ _ Hr Hfin) as [-> Hfin0]. done.
Qed.
End runs.
End benchmark.
End calls.
