(* ===== verification/CcMap.v ===== *)
(** * CcMap: helper.h over the containers of C++, and the baselines none.c and array.c

    cc_common.h implements the interface with the member functions of
    [MAP_TYPE], which [Container] lists: stlmap.cc and stluomap.cc make it
    std::map and std::unordered_map, sparsehash.cc google::sparse_hash_map, from
    std::string to pointers.  [ContainerSpec] is what all of them document;
    [EraseSpec] what the containers of the standard library document for
    [erase], and [EraseNeedsDeletedKey] that of sparse_hash_map, which must be
    given a deleted key first.  The containers of the standard library are the
    instance [stl_container], a finite map.

    [new_map] is the address that operator new returns; it throws when there is
    no memory, which is not modelled. *)

From S2P Require Import Prelude.
From S2P Require Import Threads.
From S2P Require Import Own.
From S2P Require Import Heap.
From S2P Require Import MapSpec.
From S2P Require Import Helper.
From S2P Require Import HelperLoops.

(** ** MAP_TYPE *)

(** [insert] leaves a key that is there alone and says whether it has inserted,
    [find] yields the value at the position it finds, or nothing for end(),
    and [erase] the number of elements it has removed. *)
Class Container := {
  cont : Type;
  cont_new : cont;
  cont_insert : cont → list Z → Z → bool * cont;
  cont_find : cont → list Z → option Z;
  cont_erase : cont → list Z → outcome (Z * cont);
  cont_clear : cont → cont;
}.

Class ContainerSpec (C : Container) := {
  cont_map : cont → kvmap;
  cont_new_ok : cont_map cont_new = ∅;
  cont_insert_new c k v : cont_map c !! k = None →
    ∃ c', cont_insert c k v = (true, c') ∧ cont_map c' = <[k := v]> (cont_map c);
  cont_insert_dup c k v : is_Some (cont_map c !! k) →
    ∃ c', cont_insert c k v = (false, c') ∧ cont_map c' = cont_map c;
  cont_find_ok c k : cont_find c k = cont_map c !! k;
  cont_clear_ok c : cont_map (cont_clear c) = ∅;
}.

Class EraseSpec {C : Container} (CS : ContainerSpec C) : Prop :=
  cont_erase_ok : ∀ c k, ∃ c',
    cont_erase c k = Done (if decide (is_Some (cont_map c !! k)) then 1 else 0, c') ∧
    cont_map c' = delete k (cont_map c).

(** The program gives no container a deleted key, so that erasing an element
    is outside of what sparse_hash_map promises. *)
Class EraseNeedsDeletedKey {C : Container} (CS : ContainerSpec C) : Prop :=
  cont_erase_undef : ∀ c k, is_Some (cont_map c !! k) → cont_erase c k = Undef.

(** std::map and std::unordered_map. *)
Definition stl_insert (M : kvmap) (k : list Z) (v : Z) : bool * kvmap :=
  match M !! k with Some _ => (false, M) | None => (true, <[k := v]> M) end.

#[export] Instance stl_container : Container := {|
  cont := kvmap;
  cont_new := ∅;
  cont_insert := stl_insert;
  cont_find := λ M k, M !! k;
  cont_erase := λ M k, Done (match M !! k with Some _ => 1 | None => 0 end, delete k M);
  cont_clear := λ _, ∅;
|}.

#[export, refine] Instance stl_container_spec : ContainerSpec stl_container := {|
  cont_map := (λ M, M) : @cont stl_container → kvmap;
|}.
Proof.
  - done.
  - intros M k v Hk. eexists. cbn. unfold stl_insert. by rewrite Hk.
  - intros M k v [w Hk]. eexists. cbn. unfold stl_insert. by rewrite Hk.
  - done.
  - done.
Defined.

#[export] Instance stl_erase_spec : EraseSpec stl_container_spec.
Proof.
  intros M k. eexists. split; [|done]. change (cont_map M) with M. cbn.
  destruct (decide (is_Some ((M : kvmap) !! k))) as [[w Hw]|Hn]; [by rewrite Hw|].
  apply eq_None_not_Some in Hn. by rewrite Hn.
Qed.

(** The containers, by address. *)
Notation cc_state := (gmap Z cont).

(** [std::string(key)]: the characters before the NUL. *)
Definition std_string (key : list Z) : outcome (list Z) :=
  n ← strlen key; Done (take (Z.to_nat n) key).

Lemma std_string_cstr k : nonul k → std_string (cstr k) = Done k.
Proof.
  intros Hk. unfold std_string. rewrite strlen_cstr by done. cbn. rewrite Nat2Z.id. f_equal.
  apply take_app_length.
Qed.

(** ** cc_common.h *)

Module Cc.
Section cc.
Context {C : Container} (new_map : cc_state → Z).

Definition init : cmd cc_state Z := λ s, let m := new_map s in Done (m, <[m := cont_new]> s).

(** The container that [obj] points to. *)
Definition the_map (obj : Z) : cmd cc_state cont := λ s,
  match s !! obj with Some m => Done (m, s) | None => Undef end.
Definition set_map (obj : Z) (m : cont) : cmd cc_state unit := λ s, Done (tt, <[obj := m]> s).

Definition add (obj : Z) (key : list Z) (val : Z) : cmd cc_state Z :=
  m ← the_map obj;
  key ← lift (std_string key);
  let iter := cont_insert m key val in
  _ ← set_map obj iter.2;
  mret (if iter.1 then 0 else 1).

(** Dereferencing end() is undefined. *)
Definition find (obj : Z) (key : list Z) : cmd cc_state Z :=
  m ← the_map obj;
  key ← lift (std_string key);
  match cont_find m key with
  | Some val => mret val
  | None => lift Undef
  end.

Definition del (obj : Z) (key : list Z) : cmd cc_state Z :=
  m ← the_map obj;
  key ← lift (std_string key);
  n ← lift (cont_erase m key);
  _ ← set_map obj n.2;
  mret (if n.1 =? 0 then 1 else 0).

Definition clear (obj : Z) : cmd cc_state unit :=
  m ← the_map obj; set_map obj (cont_clear m).
End cc.
End Cc.

Instance cc_impl {C : Container} (new_map : cc_state → Z) : MapImpl cc_state := {|
  map_init := Cc.init new_map;
  map_add := Cc.add;
  map_find := Cc.find;
  map_del := Cc.del;
  map_clear := Cc.clear;
|}.

(** ** The contract, for keys that are there *)

Section instance.
Context {C : Container} {CS : ContainerSpec C}.

Lemma the_map_run (obj : Z) c (s : cc_state) : s !! obj = Some c → Cc.the_map obj s = Done (c, s).
Proof. intros H. unfold Cc.the_map. by rewrite H. Qed.

(** The first two steps of every function. *)
Lemma cc_call {A : Type} (obj : Z) c (s : cc_state) (k : list Z) (f : cont → list Z → cmd cc_state A) :
  s !! obj = Some c → nonul k →
  (m ← Cc.the_map obj; key ← lift (std_string (cstr k)); f m key) s = f c k s.
Proof.
  intros Hs Hk. rewrite (bind_done _ _ _ _ _ (the_map_run _ _ _ Hs)), std_string_cstr by done.
  by run_to @lift_done.
Qed.

(** The container that [obj] points to holds the map. *)
Definition cc_repr (obj : Z) (M : kvmap) (s : cc_state) : Prop := ∃ c, s !! obj = Some c ∧ cont_map c = M.

Lemma cc_repr_set obj c (s : cc_state) : cc_repr obj (cont_map c) (<[obj := c]> s).
Proof. exists c. split; [apply lookup_insert_eq|done]. Qed.

#[refine] Instance cc_spec {ES : EraseSpec CS} new_map : MapSpec (cc_impl new_map) := {|
  map_key := nonul;
  map_val := λ _, True;
  map_room := λ _, True;
  map_searchable := λ M k, is_Some (M !! k);
  map_repr := cc_repr;
  map_start := λ _, True;
|}.
Proof.
  - intros s _. exists (new_map s). eexists. split; [done|]. rewrite <-cont_new_ok. apply cc_repr_set.
  - intros obj M s (c & Hs & _). eexists. cbn. unfold Cc.clear.
    by rewrite (bind_done _ _ _ _ _ (the_map_run _ _ _ Hs)).
  - done.
  - intros obj M s k v (c & Hs & <-) Hk _ _ Hnone. destruct (cont_insert_new c k v Hnone) as (c' & Hins & <-).
    exists (<[obj := c']> s). cbn. unfold Cc.add. rewrite (cc_call obj c s k _ Hs Hk), Hins.
    split; [done|apply cc_repr_set].
  - intros obj M s k v (c & Hs & <-) Hk _ _ Hsome. destruct (cont_insert_dup c k v Hsome) as (c' & Hins & <-).
    exists (<[obj := c']> s). cbn. unfold Cc.add. rewrite (cc_call obj c s k _ Hs Hk), Hins.
    split; [done|apply cc_repr_set].
  - intros obj M s k (c & Hs & <-) Hk [w Hw]. exists s. cbn. unfold Cc.find.
    rewrite (cc_call obj c s k _ Hs Hk), cont_find_ok, Hw. unfold find_result. rewrite Hw.
    split; [done|by exists c].
  - intros obj M s k (c & Hs & <-) Hk. destruct (cont_erase_ok c k) as (c' & He & <-).
    exists (<[obj := c']> s). cbn. unfold Cc.del. setoid_rewrite (cc_call obj c s k _ Hs Hk).
    rewrite He. run_to @lift_done. split; [|apply cc_repr_set]. by destruct (decide _).
Defined.

(** ** Keys that are not there *)

Lemma cc_find_missing (obj : Z) (M : kvmap) (s : cc_state) (k : list Z) :
  cc_repr obj M s → nonul k → M !! k = None → Cc.find obj (cstr k) s = Undef.
Proof.
  intros (c & Hs & <-) Hk Hnone. unfold Cc.find. by rewrite (cc_call obj c s k _ Hs Hk), cont_find_ok, Hnone.
Qed.

(** ** Containers that need a deleted key *)

Lemma cc_del_undefined {EN : EraseNeedsDeletedKey CS} obj M (s : cc_state) k :
  cc_repr obj M s → nonul k → is_Some (M !! k) → Cc.del obj (cstr k) s = Undef.
Proof.
  intros (c & Hs & <-) Hk Hsome. unfold Cc.del. setoid_rewrite (cc_call obj c s k _ Hs Hk).
  by rewrite (cont_erase_undef c k Hsome).
Qed.

(** What such a container would be with an [erase] that fills a new container
    with the other elements: the calls that do not erase are the same. *)
Definition cont_rebuild (l : list (list Z * Z)) : cont :=
  foldr (λ kv c, (cont_insert c kv.1 kv.2).2) cont_new l.

Lemma cont_rebuild_ok l : NoDup l.*1 → cont_map (cont_rebuild l) = list_to_map l.
Proof.
  induction l as [|[k v] l IH]; cbn; [intros _; apply cont_new_ok|]. intros [Hk Hl]%NoDup_cons.
  fold (cont_rebuild l).
  destruct (cont_insert_new (cont_rebuild l) k v) as (c' & -> & Hc').
  - rewrite IH by done. by apply not_elem_of_list_to_map_1.
  - cbn. by rewrite Hc', IH.
Qed.

Definition rebuilding : Container := {|
  cont := cont;
  cont_new := cont_new;
  cont_insert := cont_insert;
  cont_find := cont_find;
  cont_erase := λ c k,
    Done (match cont_map c !! k with Some _ => 1 | None => 0 end,
          cont_rebuild (map_to_list (delete k (cont_map c))));
  cont_clear := cont_clear;
|}.

Definition rebuilding_spec : ContainerSpec rebuilding := {|
  cont_map := @cont_map C CS : @cont rebuilding → kvmap;
  cont_new_ok := @cont_new_ok C CS;
  cont_insert_new := @cont_insert_new C CS;
  cont_insert_dup := @cont_insert_dup C CS;
  cont_find_ok := @cont_find_ok C CS;
  cont_clear_ok := @cont_clear_ok C CS;
|}.

Lemma rebuilding_erase : EraseSpec rebuilding_spec.
Proof.
  intros c k. eexists. split.
  - cbn. set (M := @cont_map C CS c). destruct (decide (is_Some (M !! k))) as [[w Hw]|Hn]; [by rewrite Hw|].
    apply eq_None_not_Some in Hn. by rewrite Hn.
  - cbn. rewrite cont_rebuild_ok by apply NoDup_fst_map_to_list. apply list_to_map_to_list.
Qed.
End instance.

Lemma nonul_number n : 0 ≤ n → nonul (sprintf_09d n).
Proof. intros Hn. eapply Forall_impl; [by apply sprintf_09d_range|]. cbn. intros; lia. Qed.

(** Claim C38: [find] of cc_common.h dereferences end() for a key that is not in
    the container, where helper.h promises a null pointer; and the driver asks
    for one: [set] binds the numbers from 1 on, [get_threaded] looks up random
    numbers from 0 on, so that the first number drawn being a multiple of
    [iter] is enough for undefined behaviour, even with calls that are atomic,
    and whatever the container. *)
Theorem cc_threads_undefined {C : Container} {CS : ContainerSpec C} new_map rand iter obj h M i sched :
  2 ≤ iter → (i < NUM_THREADS)%nat → cc_repr obj M (h_map h) → M !! sprintf_09d 0 = None →
  Z.rem (rand (h_seed h) (h_pos h)) iter = 0 →
  Cc.find obj (cstr (sprintf_09d 0)) (h_map h) = Undef ∧
  get_threaded (T := @atomic_calls _ (cc_impl new_map)) rand (i :: i :: sched) obj iter h = Undef.
Proof.
  intros Hiter Hi Hs Hnone Hrem.
  assert (Cc.find obj (cstr (sprintf_09d 0)) (h_map h) = Undef) as Hfind
    by (apply (cc_find_missing obj M); [done|by apply nonul_number|done]).
  split; [done|]. set (T := @atomic_calls _ (cc_impl new_map)).
  set (ts := replicate NUM_THREADS (get_thread (T := T) rand obj iter)).
  set (h1 := Host (h_map h) (h_seed h) (S (h_pos h)) (h_now h)).
  set (t := _ ← on_map_thread (t_find (ThreadImpl := T) obj (cstr (sprintf_09d 0)));
            get_thread_loop (T := T) rand obj iter (Z.to_nat iter) 2).
  assert (step_thread i h ts = Done (h1, <[i := t]> ts)) as H1.
  { apply (step_thread_run i h ts (get_thread (T := T) rand obj iter)); [by apply lookup_replicate_2|].
    unfold get_thread, loop_fuel. cbn [get_thread_loop]. destruct (Z.ltb_spec 1 iter); [|lia].
    rewrite (advance_done (next_rand rand) _ h _ h1 eq_refl). cbv beta zeta. by rewrite Hrem. }
  assert (step_thread i h1 (<[i := t]> ts) = Undef) as H2.
  { apply (step_thread_undef i h1 _ t).
    - apply list_lookup_insert_eq. unfold ts. by rewrite length_replicate.
    - unfold t. cbn -[sprintf_09d Cc.find cstr]. unfold mbind, cmd_bind, on_map.
      cbn -[sprintf_09d Cc.find cstr]. by rewrite Hfind. }
  unfold get_threaded. fold ts. cbn [run_schedule]. rewrite H1. cbn -[step_thread get_thread_loop ts t]. by rewrite H2.
Qed.

Definition one_number : kvmap := {[sprintf_09d 1 := 1]}.
Definition one_map : cc_state := {[16 := one_number]}.

Lemma cc_threads_undefined_witness :
  Cc.find 16 (cstr (sprintf_09d 0)) one_map = Undef ∧
  get_threaded (T := @atomic_calls _ (cc_impl (λ _, 16))) (λ _ n, Z.of_nat n) [5; 5]%nat 16 2
    (Host one_map 10 0 0) = Undef.
Proof.
  apply (cc_threads_undefined (λ _, 16) (λ _ n, Z.of_nat n) 2 16 (Host one_map 10 0 0) one_number 5 []).
  - lia.
  - unfold NUM_THREADS. lia.
  - exists one_number. split; reflexivity.
  - reflexivity.
  - reflexivity.
Defined.

(** ** The empty implementation none.c

    none.c measures the driver itself: its functions do nothing.  The driver
    does not get far with it, since it checks what [find] returns. *)

(** ** The functions of none.c, which keep no state *)

Module None.
Definition init : cmd unit Z := mret 0.
Definition add (obj : Z) (key : list Z) (val : Z) : cmd unit Z := mret 0.
Definition find (obj : Z) (key : list Z) : cmd unit Z := mret 0.
Definition del (obj : Z) (key : list Z) : cmd unit Z := mret 0.
Definition clear (obj : Z) : cmd unit unit := mret tt.
End None.

Instance none_impl : MapImpl unit := {|
  map_init := None.init;
  map_add := None.add;
  map_find := None.find;
  map_del := None.del;
  map_clear := None.clear;
|}.

(** ** The driver over none.c *)

Section driver.
Context (rand : Z → nat → Z) (clock : nat → Z * Z).
Implicit Types h : host unit.

Lemma random_runs i h : ∃ k h', random rand i h = Done (k, h').
Proof. unfold random. rewrite fill_rand_run. by eexists _, _. Qed.

(** Every [add] succeeds. *)
Lemma none_set_loop obj iter fuel : ∀ i h,
  (Z.to_nat (iter - i) < fuel)%nat →
  ∃ h', set_loop (random rand) obj iter fuel i h = Done (Returned tt, h').
Proof.
  induction fuel as [|fuel IH]; intros i h Hf; [lia|]. cbn [set_loop].
  destruct (Z.ltb_spec i iter); [|by exists h].
  destruct (random_runs i h) as (k & h1 & Hk). run_to Hk.
  run_to (on_map_run (map_add obj (cstr k) i : cmd unit Z) h1 0 (h_map h1) eq_refl).
  destruct (IH (i + 1) (with_map (h_map h1) h1)) as (h' & Hrun); [lia|]. by exists h'.
Qed.

(** The first [find] ends the process. *)
Lemma none_get_loop obj iter fuel i h :
  i < iter → ∃ h', get_loop (random rand) obj iter (S fuel) i h = Done (Exited (-1), h').
Proof.
  intros Hi. cbn [get_loop]. destruct (Z.ltb_spec i iter); [|lia].
  destruct (random_runs i h) as (k & h1 & Hk). run_to Hk. by eexists.
Qed.

Lemma measure_exits name func obj iter h code :
  clock_ok clock → (∀ h', ∃ h'', func obj iter h' = Done (Exited code, h'')) →
  ∃ h'', measure clock name func obj iter h = Done (Exited code, h'').
Proof.
  intros Hc Hf. unfold measure. destruct (current_usec_run clock h Hc) as (t & _ & Hrun). run_to Hrun.
  destruct (Hf (Host (h_map h) (h_seed h) (h_pos h) (S (h_now h)))) as (h2 & H2).
  exists h2. unfold then_. by rewrite (bind_done _ _ _ _ _ H2).
Qed.
End driver.

(** With none.c the driver ends the process with status -1 as soon as
    there is a key to look up: the null pointer that [find] always returns
    counts as a missing key. *)
Lemma none_main_exits rand clock iter env sched seed pos now :
  opt_int env 10000 = Done iter → 2 ≤ iter → clock_ok clock →
  ∃ h', main (T := @atomic_calls _ none_impl) rand clock sched env (Host tt seed pos now) =
    Done (Exited (-1), h').
Proof.
  intros Henv Hiter Hclock. unfold main, main_with. rewrite Henv. run_to @lift_done.
  run_to (on_map_run (map_init : cmd unit Z) (Host tt seed pos now) 0 tt eq_refl).
  destruct (measure_run clock SET_RAND (set_rand rand) 0 iter (with_map tt (Host tt seed pos now)) (λ _, True))
    as (s1 & h1 & Hrun1 & _); [done| |done|].
  { intros h' _. unfold set_rand. rewrite (bind_done _ _ _ _ _ eq_refl).
    destruct (none_set_loop rand 0 iter (loop_fuel iter) 1 (Host (h_map h') RANDOM_SEED 0 (h_now h')))
      as (h'' & Hrun); [unfold loop_fuel; lia|]. by exists h''. }
  rewrite (then_run _ _ _ _ _ Hrun1).
  destruct (measure_exits clock GET_RAND (get_rand rand) 0 iter h1 (-1)) as (h2 & Hrun2); [done| |].
  { intros h'. unfold get_rand. rewrite (bind_done _ _ _ _ _ eq_refl). by apply none_get_loop; lia. }
  exists h2. unfold then_ at 1. by rewrite (bind_done _ _ _ _ _ Hrun2).
Qed.

Lemma none_main_exits_witness :
  ∃ h', main (T := @atomic_calls _ none_impl) (λ _ n, Z.of_nat n) (λ _, (1, 2)) [] None
    (Host tt 0 0 0) = Done (Exited (-1), h').
Proof. apply (none_main_exits (λ _ n, Z.of_nat n) (λ _, (1, 2)) 10000); [done|lia|by split; cbn]. Defined.

(** ** The array baseline array.c

    array.c keeps the numbered keys in an array of strings, by index; it is not
    in the Makefile, and its [main] uses an [iter] and a [measure] that helper.h
    no longer declares: both are arguments.  [array] is the global pointer;
    [allocate] is what [main] does before it measures. *)

Module Array.
(** An array of [char *], or a string. *)
Inductive ablock :=
  | BArray (slots : list Z)
  | BString (chars : list Z).

Notation aheap := (gmap Z ablock).

Definition load_slot (array i : Z) : cmd aheap Z := λ m,
  match m !! array with Some (BArray ps) => p ← buf_get ps i; Done (p, m) | _ => Undef end.
Definition store_slot (array i p : Z) : cmd aheap unit := λ m,
  match m !! array with
  | Some (BArray ps) => _ ← buf_get ps i; Done (tt, <[array := BArray (<[Z.to_nat i := p]> ps)]> m)
  | _ => Undef
  end.
Definition load_string (p : Z) : cmd aheap (list Z) := λ m,
  match m !! p with Some (BString cs) => Done (cs, m) | _ => Undef end.
(** [free], which accepts a null pointer. *)
Definition free (p : Z) : cmd aheap unit := λ m,
  if p =? 0 then Done (tt, m) else match m !! p with Some _ => Done (tt, delete p m) | None => Undef end.

Section code.
Context {A : Allocator ablock}.

(** A block that is written right after its allocation: a store through null
    when there is no memory. *)
Definition malloc_written (size : Z) (b : ablock) : cmd aheap Z := λ m,
  match alloc m size with Some a => Done (a, <[a := b]> m) | None => Undef end.

Fixpoint set_loop (fuel : nat) (array iter i : Z) : cmd aheap unit :=
  match fuel with
  | O => nofuel
  | S fuel =>
      if i <? iter then
        let buf := cstr (sprintf_09d i) in
        p ← load_slot array i;
        _ ← (if p =? 0 then
               len ← lift (strlen buf);
               chars ← lift (buf_take buf (len + 1));
               str ← malloc_written (len + 1) (BString chars);
               store_slot array i str
             else mret tt);
        set_loop fuel array iter (i + 1)
      else mret tt
  end.
Definition set (array iter : Z) : cmd aheap unit := set_loop (S (Z.to_nat iter)) array iter 0.

(** The indices of the values reported as invalid. *)
Fixpoint get_loop (fuel : nat) (array iter i : Z) : cmd aheap (list Z) :=
  match fuel with
  | O => nofuel
  | S fuel =>
      if i <? iter then
        let buf := cstr (sprintf_09d i) in
        p ← load_slot array i;
        chars ← load_string p;
        c ← lift (strcmp chars buf);
        l ← get_loop fuel array iter (i + 1);
        mret (if negb (c =? 0) then i :: l else l)
      else mret []
  end.
Definition get (array iter : Z) : cmd aheap (list Z) := get_loop (S (Z.to_nat iter)) array iter 0.

Fixpoint cleanup_loop (fuel : nat) (array iter i : Z) : cmd aheap unit :=
  match fuel with
  | O => nofuel
  | S fuel =>
      if i <? iter then p ← load_slot array i; _ ← free p; cleanup_loop fuel array iter (i + 1)
      else mret tt
  end.
Definition cleanup (array iter : Z) : cmd aheap unit :=
  _ ← cleanup_loop (S (Z.to_nat iter)) array iter 0; free array.

(** [size] is an [int]. *)
Definition allocate (iter : Z) : cmd aheap Z :=
  let size := s32 (u64 (iter * 8)) in
  malloc_written size (BArray (replicate (Z.to_nat (size / 8)) 0)).

(** The status, and what [get] has reported. *)
Definition main (measure : ∀ A, (Z → cmd aheap A) → Z → cmd aheap A) (iter : Z) : cmd aheap (Z * list Z) :=
  array ← allocate iter;
  _ ← measure unit (set array) iter;
  invalid ← measure (list Z) (get array) iter;
  _ ← measure unit (cleanup array) iter;
  mret (0, invalid).
End code.

Section proofs.
Context {A : Allocator ablock} {HS : AllocSpec A} {HT : AllocTotal A}.
Context (fr : aheap) (array iter : Z).
Implicit Types (m : aheap) (ps : list Z) (i p : Z).

(** The strings of the numbers from [i] on. *)
Fixpoint strings i ps : list (Z * ablock) :=
  match ps with [] => [] | p :: ps => (p, BString (cstr (sprintf_09d i))) :: strings (i + 1) ps end.

Lemma strings_app i ps p :
  strings i (ps ++ [p]) = strings i ps ++ [(p, BString (cstr (sprintf_09d (i + Z.of_nat (length ps)))))].
Proof.
  revert i. induction ps as [|p' ps IH]; intros i; cbn; [by rewrite Z.add_0_r|].
  rewrite IH. by replace (i + 1 + Z.of_nat (length ps)) with (i + Z.of_nat (S (length ps))) by lia.
Qed.

Lemma load_slot_run ps cells m i p :
  owns ((array, BArray ps) :: cells) fr m → 0 ≤ i → ps !! Z.to_nat i = Some p → load_slot array i m = Done (p, m).
Proof.
  intros Hm Hi Hp. unfold load_slot. rewrite (owns_lookup_hd _ _ _ _ _ Hm). by rewrite (buf_get_Some ps i p Hi Hp).
Qed.

Lemma set_loop_run n : ∀ ps fuel m,
  owns ((array, BArray (ps ++ replicate n 0)) :: strings 0 ps) fr m → Z.of_nat (length ps + n) = iter → (n < fuel)%nat →
  ∃ ps' m', set_loop fuel array iter (Z.of_nat (length ps)) m = Done (tt, m') ∧
    owns ((array, BArray ps') :: strings 0 ps') fr m' ∧ Z.of_nat (length ps') = iter ∧
    (Forall (.≠ 0) ps → Forall (.≠ 0) ps').
Proof.
  induction n as [|n IH]; intros ps fuel m Hm Hlen Hf; (destruct fuel as [|fuel]; [lia|]); cbn [set_loop].
  - destruct (Z.ltb_spec (Z.of_nat (length ps)) iter); [lia|]. rewrite app_nil_r in Hm. exists ps, m. split_and!; (done || lia).
  - destruct (Z.ltb_spec (Z.of_nat (length ps)) iter); [|lia]. set (i := Z.of_nat (length ps)).
    assert ((ps ++ replicate (S n) 0) !! Z.to_nat i = Some 0) as Hslot.
    { unfold i. rewrite Nat2Z.id, lookup_app_r, Nat.sub_diag by lia. done. }
    run_to (load_slot_run _ _ m i 0 Hm ltac:(lia) Hslot). cbn [Z.eqb].
    assert (nonul (sprintf_09d i)) as Hnn by (apply nonul_number; lia).
    destruct (alloc_total m (Z.of_nat (length (sprintf_09d i)) + 1)) as [a Ha].
    pose proof (alloc_pos _ _ _ Ha) as Hpos. pose proof (alloc_fresh _ _ _ Ha) as Hfresh.
    pose proof (owns_alloc _ _ _ a (BString (cstr (sprintf_09d i))) Hfresh Hm) as Hm1.
    rewrite Permutation_swap in Hm1. pose proof (owns_store _ _ _ _ _ (BArray ((ps ++ [a]) ++ replicate n 0)) Hm1) as Hm2.
    match type of Hm2 with owns _ _ ?m => set (m2 := m) in * end.
    assert (owns ((array, BArray ((ps ++ [a]) ++ replicate n 0)) :: strings 0 (ps ++ [a])) fr m2) as Hm3.
    { refine (owns_perm _ _ _ _ _ Hm2). rewrite strings_app. apply perm_skip. apply Permutation_cons_append. }
    destruct (IH (ps ++ [a]) fuel m2 Hm3) as (ps' & m' & Hrun & Hm' & Hlen' & Hnn'); [rewrite length_app; cbn; lia|lia|].
    rewrite length_app in Hrun. cbn [length] in Hrun. replace (Z.of_nat (length ps + 1)) with (i + 1) in Hrun by lia.
    exists ps', m'. split_and!; [|done..|].
    + rewrite (bind_done _ _ m tt m2); [exact Hrun|]. rewrite (strlen_cstr _ Hnn).
      run_to @lift_done. rewrite (buf_take_cstr _ _ eq_refl). run_to @lift_done. unfold malloc_written. erewrite bind_done by by rewrite Ha.
      unfold store_slot. rewrite (owns_lookup_hd _ _ _ _ _ Hm1), (buf_get_Some _ i 0) by (done || lia).
      cbn [mbind outcome_bind]. unfold m2. do 4 f_equal. unfold i.
      rewrite Nat2Z.id, insert_app_r_alt, Nat.sub_diag by lia. cbn. by rewrite <-app_assoc.
    + intros Hps. apply Hnn'. apply Forall_app. split; [done|]. constructor; [lia|done].
Qed.

Lemma get_loop_run ps : ∀ qs fuel m cells,
  owns ((array, BArray (qs ++ ps)) :: strings (Z.of_nat (length qs)) ps ++ cells) fr m →
  Z.of_nat (length qs + length ps) = iter → (length ps < fuel)%nat →
  get_loop fuel array iter (Z.of_nat (length qs)) m = Done ([], m).
Proof.
  induction ps as [|p ps IH]; intros qs fuel m cells Hm Hlen Hf; (destruct fuel as [|fuel]; [cbn in Hf; lia|]);
    cbn [get_loop length] in *; set (i := Z.of_nat (length qs)) in *.
  - by destruct (Z.ltb_spec i iter); [lia|].
  - destruct (Z.ltb_spec i iter); [|lia].
    assert ((qs ++ p :: ps) !! Z.to_nat i = Some p) as Hslot.
    { unfold i. by rewrite Nat2Z.id, lookup_app_r, Nat.sub_diag by lia. }
    run_to (load_slot_run _ _ m i p Hm ltac:(lia) Hslot).
    assert (load_string p m = Done (cstr (sprintf_09d i), m)) as Hstr.
    { unfold load_string. rewrite (owns_lookup _ _ _ p (BString (cstr (sprintf_09d i))) Hm); [done|].
      apply elem_of_cons. right. apply list_elem_of_here. }
    run_to Hstr. rewrite strcmp_cstr_eq by (apply nonul_number; lia). run_to @lift_done.
    rewrite cons_middle, app_assoc in Hm. cbn [strings app] in Hm.
    specialize (IH (qs ++ [p]) fuel m ((p, BString (cstr (sprintf_09d i))) :: cells)). rewrite length_app in IH.
    cbn [length] in IH. replace (Z.of_nat (length qs + 1)) with (i + 1) in IH by lia.
    rewrite (bind_done _ _ m [] m); [done|]. apply IH; [|lia..].
    refine (owns_perm _ _ _ _ _ Hm). apply perm_skip, Permutation_middle.
Qed.

Lemma cleanup_loop_run ps : ∀ qs fuel m,
  owns ((array, BArray (qs ++ ps)) :: strings (Z.of_nat (length qs)) ps) fr m →
  Z.of_nat (length qs + length ps) = iter → Forall (.≠ 0) ps → (length ps < fuel)%nat →
  ∃ m', cleanup_loop fuel array iter (Z.of_nat (length qs)) m = Done (tt, m') ∧
    owns [(array, BArray (qs ++ ps))] fr m'.
Proof.
  induction ps as [|p ps IH]; intros qs fuel m Hm Hlen Hnn Hf; (destruct fuel as [|fuel]; [cbn in Hf; lia|]);
    cbn [cleanup_loop length] in *; set (i := Z.of_nat (length qs)) in *.
  - destruct (Z.ltb_spec i iter); [lia|]. by exists m.
  - destruct (Z.ltb_spec i iter); [|lia]. apply Forall_cons in Hnn as [Hp Hnn].
    assert ((qs ++ p :: ps) !! Z.to_nat i = Some p) as Hslot.
    { unfold i. by rewrite Nat2Z.id, lookup_app_r, Nat.sub_diag by lia. }
    run_to (load_slot_run _ _ m i p Hm ltac:(lia) Hslot). cbn [strings] in Hm. rewrite Permutation_swap in Hm.
    assert (free p m = Done (tt, delete p m)) as Hfree.
    { unfold free. rewrite (proj2 (Z.eqb_neq p 0) Hp). by rewrite (owns_lookup_hd _ _ _ _ _ Hm). }
    run_to Hfree. apply owns_free in Hm. rewrite cons_middle, app_assoc in Hm |- *.
    specialize (IH (qs ++ [p]) fuel (delete p m)). rewrite length_app in IH. cbn [length] in IH.
    replace (Z.of_nat (length qs + 1)) with (i + 1) in IH by lia. apply IH; [done|lia|done|lia].
Qed.
End proofs.

(** [set] fills the array, [get] finds every value as it should be, and
    [cleanup] frees all that was allocated. *)
Lemma array_correct {A : Allocator ablock} {HS : AllocSpec A} {HT : AllocTotal A} iter m :
  0 ≤ iter < 2 ^ 28 →
  ∃ array m1 m2, allocate iter m = Done (array, m1) ∧ set array iter m1 = Done (tt, m2) ∧
    get array iter m2 = Done ([], m2) ∧ cleanup array iter m2 = Done (tt, m).
Proof.
  intros Hiter. assert (s32 (u64 (iter * 8)) = iter * 8) as Hsize by (rewrite u64_small, s32_small; lia).
  destruct (alloc_total m (iter * 8)) as [a Ha]. pose proof (alloc_pos _ _ _ Ha) as Hpos.
  pose proof (owns_alloc [] m m a (BArray (replicate (Z.to_nat iter) 0)) (alloc_fresh _ _ _ Ha)) as Hm1.
  specialize (Hm1 ltac:(by apply owns_nil)).
  destruct (set_loop_run m a iter (Z.to_nat iter) [] (S (Z.to_nat iter)) _ Hm1)
    as (ps & m2 & Hset & Hm2 & Hlen & Hnn); [cbn; lia|lia|]. specialize (Hnn (Forall_nil_2 _)).
  pose proof (get_loop_run m a iter ps [] (S (Z.to_nat iter)) m2 []) as Hget. rewrite app_nil_r in Hget.
  specialize (Hget Hm2 ltac:(cbn; lia) ltac:(lia)).
  destruct (cleanup_loop_run m a iter ps [] (S (Z.to_nat iter)) m2 Hm2) as (m3 & Hclean & Hm3); [cbn; lia|done|lia|].
  eexists a, _, m2. split_and!; [|exact Hset|exact Hget|].
  - unfold allocate. rewrite Hsize. cbn zeta. rewrite Z.div_mul by done. unfold malloc_written. by rewrite Ha.
  - unfold cleanup. run_to Hclean. unfold free. destruct (Z.eqb_spec a 0); [lia|].
    rewrite (owns_lookup_hd _ _ _ _ _ Hm3). apply owns_free, owns_nil in Hm3. by rewrite Hm3.
Qed.
(** With a [measure] that calls the function it measures, the program reports
    nothing, ends with status 0 and has freed what it allocated. *)
Lemma main_correct {A : Allocator ablock} {HS : AllocSpec A} {HT : AllocTotal A} measure iter m :
  (∀ B (func : Z → cmd aheap B) n s, measure B func n s = func n s) → 0 ≤ iter < 2 ^ 28 →
  main measure iter m = Done ((0, []), m).
Proof.
  intros Hm Hiter. destruct (array_correct iter m Hiter) as (array & m1 & m2 & Ha & Hset & Hget & Hclean).
  unfold main. run_to Ha. rewrite <-Hm in Hset, Hget, Hclean. run_to Hset. run_to Hget. by run_to Hclean.
Qed.

Lemma main_correct_witness :
  main (A := bump_alloc) (λ B func, func) 3 ∅ = Done ((0, []), ∅).
Proof.
  apply (main_correct (A := bump_alloc) (HS := bump_alloc_spec) (HT := bump_alloc_total) (λ B func, func) 3 ∅);
    [reflexivity|lia].
Defined.
End Array.
