(* ===== verification/HelperTheorems.v ===== *)
(** * HelperTheorems: the benchmark driver succeeds on a correct map

    [main] of helper.c, over any implementation that satisfies the contract of
    MapSpec and makes its calls atomic, whatever the scheduler does with the
    threads; over art.c with threads that wait for its lock; and without the
    threads over critbit.c, redisdict.c and the C++ maps. *)

From S2P Require Import Prelude.
From S2P Require Import Threads.
From S2P Require Import Art.
From S2P Require Import ArtPrefix.
From S2P Require Import ArtMap.
From S2P Require Import KeyBits.
From S2P Require Import Critbit.
From S2P Require Import CritTree.
From S2P Require Import CritbitProofs.
From S2P Require Import CritbitMap.
From S2P Require Import MapSpec.
From S2P Require Import Heap.
From S2P Require Import Dict.
From S2P Require Import DictMem.
From S2P Require Import DictMap.
From S2P Require Import Helper.
From S2P Require Import HelperLoops.
From S2P Require Import ArtThreads.
From S2P Require Import CcMap.

(** [sprintf("%09d")] followed by reading the digits back is the
    identity on non-negative ints, so different numbers give different keys. *)
Lemma sprintf_09d_roundtrip n : 0 ≤ n < 2 ^ 31 → atoi_digits (sprintf_09d n) = n.
Proof. apply atoi_sprintf_09d. Qed.

Section driver.
Context {St : Type} {I : MapImpl St} {MS : MapSpec I}.
Context (rand : Z → nat → Z) (clock : nat → Z * Z) (iter : Z).
Implicit Types (h : host St) (M : kvmap).

Hypothesis Hiter : - 2 ^ 26 ≤ iter < 2 ^ 26.
Hypothesis Hroom : ∀ n, Z.of_nat n ≤ iter → map_room n.
Hypothesis Hval : ∀ j, 1 ≤ j < iter → map_val j.

(** Filling, checking and emptying with a source of keys. *)
Section round.
Context (key : Z → list Z) (next_key : Z → cmd (host St) (list Z)) (src : Z → host St → Prop) (obj : Z).
Context (Hsrc : ∀ i h, 1 ≤ i → src i h →
  ∃ h', next_key i h = Done (key i, h') ∧ h_map h' = h_map h ∧ src (i + 1) h').
Context (Hsrc_map : ∀ i h s, src i h → src i (with_map s h)).
Context (Hkey : ∀ j, 1 ≤ j < iter → map_key (key j)).
Context (Hinj : ∀ i j, 1 ≤ i < iter → 1 ≤ j < iter → key i = key j → i = j).

(** The map holds the keys of the loops, and perhaps others of [K]. *)
Definition filled (K : list Z → Prop) h : Prop :=
  ∃ M, map_repr obj M (h_map h) ∧ bound key iter M 1 ∧ ∀ k, is_Some (M !! k) → K k.
Definition loop_key (k : list Z) : Prop := ∃ j, 1 ≤ j < iter ∧ k = key j.

Lemma fuel_enough : (Z.to_nat (iter - 1) < loop_fuel iter)%nat.
Proof. unfold loop_fuel. lia. Qed.

(** A property of the keys outside of the loops holds of every key, or else. *)
Lemma loop_key_or k : loop_key k ∨ ∀ j, 1 ≤ j < iter → key j ≠ k.
Proof.
  destruct (decide (Exists (λ j, key j = k) (seqZ 1 (iter - 1)))) as [He|Hn].
  - apply Exists_exists in He as (j & Hj%elem_of_seqZ & <-). left. exists j. split; [lia|done].
  - right. intros j Hj Heq. apply Hn, Exists_exists. exists j. rewrite elem_of_seqZ. split; [lia|done].
Qed.

Lemma fill_ok h :
  map_repr obj ∅ (h_map h) → src 1 h →
  ∃ h', set_loop next_key obj iter (loop_fuel iter) 1 h = Done (Returned tt, h') ∧ filled loop_key h'.
Proof.
  intros Hs Hat.
  destruct (set_loop_ok key next_key src iter Hsrc Hsrc_map Hkey Hinj obj (loop_fuel iter) 1 ∅ h)
    as (M & h' & Hrun & Hs' & Hb & Hr);
    [done|intros; apply Hroom; lia|lia|apply fuel_enough|done|done|by rewrite map_size_empty| |].
  { intros j _. apply lookup_empty. }
  exists h'. split; [done|]. exists M. split; [done|]. split; [done|].
  intros k Hk. destruct (loop_key_or k) as [|Hno]; [done|]. rewrite (Hr k Hno), lookup_empty in Hk.
  by destruct Hk.
Qed.

Lemma check_ok K h :
  filled K h → src 1 h →
  ∃ h', get_loop next_key obj iter (loop_fuel iter) 1 h = Done (Returned tt, h') ∧ filled K h'.
Proof.
  intros (M & Hs & Hb & HK) Hat.
  destruct (get_loop_ok key next_key src iter Hsrc Hsrc_map Hkey ltac:(lia) obj (loop_fuel iter) 1 M h)
    as (h' & Hrun & Hs'); [lia|apply fuel_enough|done..|].
  exists h'. split; [done|]. by exists M.
Qed.

Lemma drain_ok K strict h :
  filled K h → src 1 h →
  ∃ M h', cleanup_loop next_key obj iter strict (loop_fuel iter) 1 h = Done (Returned tt, h') ∧
    map_repr obj M (h_map h') ∧ ((∀ k, K k → loop_key k) → M = ∅).
Proof.
  intros (M & Hs & Hb & HK) Hat.
  destruct (cleanup_loop_ok key next_key src iter Hsrc Hsrc_map Hkey Hinj obj strict (loop_fuel iter) 1 M h)
    as (M' & h' & Hrun & Hs' & Hun & Hr); [lia|apply fuel_enough|done..|].
  exists M', h'. split; [done|]. split; [done|]. intros HKl. apply (unbound_empty key iter M' Hun).
  intros k Hk. rewrite (Hr k Hk). destruct (M !! k) eqn:HM; [|done]. exfalso.
  destruct (HKl k (HK k ltac:(by eexists))) as (j & Hj & ->). by apply (Hk j).
Qed.
End round.

(** The keys of [get_threaded] include that of 0. *)
Definition number_key (k : list Z) : Prop := ∃ j, 0 ≤ j < iter ∧ k = sprintf_09d j.

Hypothesis Hkey : ∀ j, 0 ≤ j < iter → map_key (sprintf_09d j).
Hypothesis Hrand : ∀ j, 1 ≤ j < iter → map_key (rand_key rand j).
Hypothesis Hrinj : ∀ i j, 1 ≤ i < iter → 1 ≤ j < iter → rand_key rand i = rand_key rand j → i = j.
Hypothesis Hclock : clock_ok clock.

Lemma number_inj i j : 1 ≤ i < iter → 1 ≤ j < iter → sprintf_09d i = sprintf_09d j → i = j.
Proof. intros. apply sprintf_09d_inj; (done || lia). Qed.

(** The first two phases, on an empty map: it holds the random keys. *)
Lemma random_filled (obj : Z) h :
  map_repr obj ∅ (h_map h) →
  ∃ s1 s2 h1 h2, measure clock SET_RAND (set_rand rand) obj iter h = Done (Returned s1, h1) ∧
    measure clock GET_RAND (get_rand rand) obj iter h1 = Done (Returned s2, h2) ∧
    filled (rand_key rand) obj (loop_key (rand_key rand)) h2 ∧
    (stat_name s1 = SET_RAND ∧ stat_iter s1 = iter) ∧ stat_name s2 = GET_RAND ∧ stat_iter s2 = iter.
Proof.
  intros Hs. pose proof (random_src (St := St) rand) as Hsrc.
  assert (∀ i h s, seeded i h → seeded (St := St) i (with_map s h)) as Hsm by done.
  destruct (measure_run clock SET_RAND (set_rand rand) obj iter h
    (filled (rand_key rand) obj (loop_key (rand_key rand)))) as (s1 & h1 & Hrun1 & Hn1 & Hi1 & H1); [done| |done|].
  { intros h' Hh'. unfold set_rand. rewrite (bind_done _ _ _ _ _ eq_refl).
    eapply fill_ok; [exact Hsrc|exact Hsm|done..| |done]. cbn. by rewrite Hh'. }
  destruct (measure_run clock GET_RAND (get_rand rand) obj iter h1
    (filled (rand_key rand) obj (loop_key (rand_key rand)))) as (s2 & h2 & Hrun2 & Hn2 & Hi2 & H2); [done| |done|].
  { intros h' Hh'. unfold get_rand. rewrite (bind_done _ _ _ _ _ eq_refl).
    eapply check_ok; [exact Hsrc|exact Hsm|done..| |done]. unfold filled. cbn. by rewrite Hh'. }
  by exists s1, s2, h1, h2.
Qed.

(** The random phases, on an empty map. *)
Lemma random_phases (obj : Z) h (k : stat → stat → stat → cmd (host St) (status (list stat))) :
  map_repr obj ∅ (h_map h) →
  ∃ s1 s2 s3 h',
    (s1 ←! measure clock SET_RAND (set_rand rand) obj iter;
     s2 ←! measure clock GET_RAND (get_rand rand) obj iter;
     s3 ←! measure clock CLEANUP_RAND (cleanup_rand rand) obj iter; k s1 s2 s3) h = k s1 s2 s3 h' ∧
    map_repr obj ∅ (h_map h') ∧ stat_name <$> [s1; s2; s3] = [SET_RAND; GET_RAND; CLEANUP_RAND] ∧
    stat_iter <$> [s1; s2; s3] = [iter; iter; iter].
Proof.
  intros (s1 & s2 & h1 & h2 & Hrun1 & Hrun2 & H2 & [Hn1 Hi1] & Hn2 & Hi2)%random_filled.
  pose proof (random_src (St := St) rand) as Hsrc.
  assert (∀ i h s, seeded i h → seeded (St := St) i (with_map s h)) as Hsm by done.
  destruct (measure_run clock CLEANUP_RAND (cleanup_rand rand) obj iter h2
    (λ h, map_repr obj ∅ (h_map h))) as (s3 & h3 & Hrun3 & Hn3 & Hi3 & H3); [done| |done|].
  { intros h' Hh'. unfold cleanup_rand. rewrite (bind_done _ _ _ _ _ eq_refl).
    destruct (drain_ok (rand_key rand) (random rand) seeded obj Hsrc Hsm Hrand Hrinj (loop_key (rand_key rand)) false
      (Host (h_map h') RANDOM_SEED 0 (h_now h'))) as (M & h'' & Hrun & Hs'' & HM);
      [unfold filled; cbn; rewrite Hh'; exact H2|done|].
    rewrite HM in Hs'' by done. by exists h''. }
  exists s1, s2, s3, h3. split; [|split; [done|cbn; by rewrite Hn1, Hn2, Hn3, Hi1, Hi2, Hi3]].
  by rewrite (then_run _ _ _ _ _ Hrun1), (then_run _ _ _ _ _ Hrun2), (then_run _ _ _ _ _ Hrun3).
Qed.

(** [main], with any function in the place of [get_threaded] that leaves the
    keys bound. *)
Lemma main_with_ok threaded env s seed pos now :
  (∀ obj h, filled sprintf_09d obj number_key h →
    ∃ h', threaded obj iter h = Done (Returned tt, h') ∧ filled sprintf_09d obj number_key h') →
  opt_int env 10000 = Done iter → map_start s →
  ∃ stats h', main_with rand clock threaded env (Host s seed pos now) = Done (Returned stats, h') ∧
    stat_name <$> stats = [SET_RAND; GET_RAND; CLEANUP_RAND; SET; GET_THREADED; CLEANUP] ∧
    stat_iter <$> stats = [iter; iter; iter; iter; iter * 32; iter].
Proof.
  intros Hth Henv Hstart. destruct (map_init_ok s Hstart) as (obj & s0 & Hinit & Hs0).
  unfold main_with. rewrite Henv. run_to @lift_done.
  run_to (on_map_run (St := St) _ (Host s seed pos now) _ _ Hinit).
  destruct (random_phases obj (with_map s0 (Host s seed pos now)) (λ s1 s2 s3,
    s4 ←! measure clock SET set obj iter;
    s5 ←! measure clock GET_THREADED threaded obj iter;
    n ← lift (int_of (stat_iter s5 * Z.of_nat NUM_THREADS));
    s6 ←! measure clock CLEANUP cleanup obj iter;
    _ ← on_map (map_clear obj);
    mret (Returned [s1; s2; s3; s4; Stat (stat_name s5) n (stat_usec s5); s6])) Hs0)
    as (s1 & s2 & s3 & h3 & -> & Hs3 & Hn & Hi).
  pose proof (numbered_src (St := St)) as Hsrc.
  destruct (measure_run clock SET set obj iter h3 (filled sprintf_09d obj number_key))
    as (s4 & h4 & Hrun4 & Hn4 & Hi4 & H4); [done| |done|].
  { intros h' Hh'. destruct (fill_ok sprintf_09d numbered (λ _ _, True) obj Hsrc) with (h := h')
      as (h'' & Hrun & M & HM & Hb & HK); [done|intros; apply Hkey; lia|apply number_inj|by rewrite Hh'|done|].
    exists h''. split; [done|]. exists M. split; [done|]. split; [done|]. intros k (j & Hj & ->)%HK.
    exists j. split; [lia|done]. }
  rewrite (then_run _ _ _ _ _ Hrun4).
  destruct (measure_run clock GET_THREADED threaded obj iter h4 (filled sprintf_09d obj number_key))
    as (s5 & h5 & Hrun5 & Hn5 & Hi5 & H5); [done| |done|].
  { intros h' Hh'. apply Hth. unfold filled. by rewrite Hh'. }
  rewrite (then_run _ _ _ _ _ Hrun5), Hi5. change (Z.of_nat NUM_THREADS) with 32.
  rewrite int_of_small by lia. run_to @lift_done.
  destruct (measure_run clock CLEANUP cleanup obj iter h5 (λ h, ∃ M, map_repr obj M (h_map h) ∧ True))
    as (s6 & h6 & Hrun6 & Hn6 & Hi6 & M & HM & _); [done| |done|].
  { intros h' Hh'. destruct (drain_ok sprintf_09d numbered (λ _ _, True) obj Hsrc) with
      (K := number_key) (strict := true) (h := h') as (M & h'' & Hrun & HM & _);
      [done|intros; apply Hkey; lia|apply number_inj|unfold filled; by rewrite Hh'|done|].
    exists h''. split; [done|]. by exists M. }
  rewrite (then_run _ _ _ _ _ Hrun6).
  destruct (map_clear_ok obj M (h_map h6) HM) as (s7 & Hclear).
  run_to (on_map_run _ h6 _ _ Hclear). eexists _, _. split; [done|].
  change ([s1; s2; s3; s4; Stat (stat_name s5) (iter * 32) (stat_usec s5); s6])
    with ([s1; s2; s3] ++ [s4; Stat (stat_name s5) (iter * 32) (stat_usec s5); s6]).
  rewrite !fmap_app, Hn, Hi. cbn. by rewrite Hn4, Hn5, Hn6, Hi4, Hi6.
Qed.
End driver.

(** ** The threads in the benchmark *)

Section threads.
Context {St : Type} {I : MapImpl St} {MS : MapSpec I} {HN : NullSpec MS}.
Context (rand : Z → nat → Z) (iter : Z).
Hypothesis Hrand : ∀ seed n, 0 ≤ rand seed n.
Hypothesis Hiter : iter ≤ 2 ^ 31.
Hypothesis Hkey : ∀ n, 0 ≤ n < iter → map_key (sprintf_09d n).
Hypothesis Hval : ∀ n, 1 ≤ n < iter → map_val n.
Hypothesis Hroom : ∀ n, Z.of_nat n ≤ iter → map_room n.
Hypothesis Hsearch : ∀ M k, map_searchable M k.

Lemma get_threaded_ok sched obj h :
  fair iter sched → filled iter sprintf_09d obj (number_key iter) h →
  ∃ h', get_threaded (T := atomic_calls) rand sched obj iter h = Done (Returned tt, h') ∧
    filled iter sprintf_09d obj (number_key iter) h'.
Proof.
  intros Hfair (M & Hs & Hb & Hdom).
  destruct (benching_run rand obj iter Hrand Hiter Hkey Hval Hroom Hsearch sched h) as (h' & ts' & Hrun & Hb' & Hf).
  { by apply (get_threaded_start rand obj iter h M). }
  specialize (Hf Hfair). exists h'. split; [|by apply (benching_end rand obj iter h' ts')].
  unfold get_threaded. rewrite Hrun. cbn. by rewrite Hf.
Qed.
End threads.

(** ** The keys of the benchmark *)

Lemma digits_key_ok n : 0 ≤ n → key_ok (sprintf_09d n).
Proof.
  intros Hn. split.
  - eapply Forall_impl; [by apply sprintf_09d_range|]. cbn. intros; lia.
  - pose proof (sprintf_09d_length n). lia.
Qed.

Lemma rand_byte_range r : 128 ≤ rand_byte r < 256.
Proof.
  unfold rand_byte. change 255 with (Z.ones 8). rewrite Z.land_ones by lia.
  pose proof (byte_cases (λ c, (128 <=? Z.lor c 128) && (Z.lor c 128 <? 256)) (r mod 2 ^ 8)
    ltac:(vm_compute; reflexivity) ltac:(apply Z.mod_pos_bound; lia)) as H.
  apply andb_true_iff in H as [H1%Z.leb_le H2%Z.ltb_lt]. done.
Qed.

Lemma rand_key_ok rand n : key_ok (rand_key rand n).
Proof.
  split.
  - unfold rand_key, drawn. apply Forall_fmap, Forall_forall. intros i _. unfold compose.
    edestruct rand_byte_range as [H1 H2]. split; [|exact H2].
    eapply Z.lt_le_trans; [|exact H1]. lia.
  - unfold rand_key. rewrite length_drawn. done.
Qed.

Lemma digits_dkey_ok n : 0 ≤ n → dkey_ok (sprintf_09d n).
Proof.
  intros Hn. split; [by apply digits_key_ok|]. pose proof (sprintf_09d_length n). lia.
Qed.

Lemma rand_dkey_ok rand n : dkey_ok (rand_key rand n).
Proof. split; [apply rand_key_ok|]. unfold rand_key. by rewrite length_drawn. Qed.

(** The keys of the benchmark: ten random bytes above 127, or nine digits. *)
Definition bench_key (k : list Z) : Prop :=
  length k = 10%nat ∧ Forall (λ c, 128 ≤ c < 256) k ∨ length k = 9%nat ∧ Forall (λ c, 48 ≤ c < 58) k.

Lemma bench_keyset : keyset bench_key.
Proof.
  split.
  - intros k [[_ Hk]|[_ Hk]]; (eapply Forall_impl; [exact Hk|]); cbn; intros; lia.
  - intros k [[-> _]|[-> _]]; lia.
  - intros k1 k2 [[H1 F1]|[H1 F1]] [[H2 F2]|[H2 F2]] Hpre; [by apply prefix_length_eq; [|lia]| | |by apply prefix_length_eq; [|lia]].
    + apply prefix_length in Hpre. lia.
    + destruct k1 as [|c k1]; [done|]. destruct Hpre as [t ->]. apply Forall_cons in F1 as [? _].
      cbn in F2. apply Forall_cons in F2 as [? _]. lia.
  - left. intros k [[-> _]|[-> _]]; lia.
Qed.

Lemma digits_bench n : 0 ≤ n < 10 ^ 9 → bench_key (sprintf_09d n).
Proof. intros Hn. right. split; [by apply sprintf_09d_nine|]. apply sprintf_09d_range. lia. Qed.

Lemma rand_bench rand n : bench_key (rand_key rand n).
Proof.
  left. unfold rand_key. split; [by rewrite length_drawn|].
  unfold drawn. apply Forall_fmap, Forall_forall. intros i _. apply rand_byte_range.
Qed.


(** ** The theorems *)

(** The measurements that [main] prints. *)
Definition report (iter : Z) (stats : list stat) : Prop :=
  (λ st, (stat_name st, stat_iter st)) <$> stats =
    [(SET_RAND, iter); (GET_RAND, iter); (CLEANUP_RAND, iter); (SET, iter);
     (GET_THREADED, iter * 32); (CLEANUP, iter)].

Lemma report_intro iter stats :
  stat_name <$> stats = [SET_RAND; GET_RAND; CLEANUP_RAND; SET; GET_THREADED; CLEANUP] →
  stat_iter <$> stats = [iter; iter; iter; iter; iter * 32; iter] → report iter stats.
Proof.
  unfold report. destruct stats as [|s1 [|s2 [|s3 [|s4 [|s5 [|s6 [|]]]]]]]; try done.
  destruct s1, s2, s3, s4, s5, s6. intros [= -> -> -> -> -> ->] [= -> -> -> -> -> ->]. done.
Qed.

(** Claim C28: [main] of helper.c is correct for every implementation of
    helper.h: with any number of keys for which the counts fit in an int
    (taken from the environment or the default), random keys that are pairwise
    different, a clock that 64 bits of microseconds can hold, map calls that
    are atomic, and any interleaving of the 32 threads that lets each of them
    finish, it runs to its end, without the error exit, undefined behaviour or
    a join that waits forever, and prints the six measurements. *)
Theorem main_succeeds {St} {I : MapImpl St} {MS : MapSpec I} {HN : NullSpec MS}
    rand clock iter env sched s seed pos now :
  - 2 ^ 26 ≤ iter < 2 ^ 26 → opt_int env 10000 = Done iter →
  clock_ok clock → (∀ seed n, 0 ≤ rand seed n) → map_start s → fair iter sched →
  (∀ n, Z.of_nat n ≤ iter → map_room n) → (∀ j, 1 ≤ j < iter → map_val j) → (∀ M k, map_searchable M k) →
  (∀ j, 0 ≤ j < iter → map_key (sprintf_09d j)) → (∀ j, 1 ≤ j < iter → map_key (rand_key rand j)) →
  (∀ i j, 1 ≤ i < iter → 1 ≤ j < iter → rand_key rand i = rand_key rand j → i = j) →
  ∃ stats h', main (T := atomic_calls) rand clock sched env (Host s seed pos now) = Done (Returned stats, h') ∧
    report iter stats.
Proof.
  intros Hiter Henv Hclock Hrand Hs Hfair Hroom Hval Hsearch Hkey Hrkey Hinj.
  edestruct (main_with_ok rand clock iter) as (stats & h' & Hrun & Hn & Hi); [exact Hiter|exact Hroom|
    exact Hval|exact Hkey|exact Hrkey|exact Hinj|exact Hclock| |exact Henv|exact Hs|].
  - intros obj h Hh. apply get_threaded_ok; [exact Hrand|lia|exact Hkey|exact Hval|exact Hroom|
      exact Hsearch|exact Hfair|exact Hh].
  - exists stats, h'. split; [exact Hrun|by apply report_intro].
Qed.

(** Claim C30: the threads of [get_threaded] never go wrong and restore the map,
    whatever the scheduler does: after any number of steps every key is bound
    to its number or missing, at most 32 keys are missing, no thread that is
    scheduled three times per iteration is left unfinished, and when all have
    finished every key is bound again. *)
Theorem get_threaded_restores {St} {I : MapImpl St} {MS : MapSpec I} {HN : NullSpec MS}
    rand obj iter sched h M :
  iter ≤ 2 ^ 31 → (∀ seed n, 0 ≤ rand seed n) →
  (∀ n, Z.of_nat n ≤ iter → map_room n) → (∀ j, 1 ≤ j < iter → map_val j) → (∀ M k, map_searchable M k) →
  (∀ j, 0 ≤ j < iter → map_key (sprintf_09d j)) →
  map_repr obj M (h_map h) → bound sprintf_09d iter M 1 → (∀ k, is_Some (M !! k) → number_key iter k) →
  ∃ h' ts' M',
    run_schedule sched h (replicate NUM_THREADS (get_thread (T := atomic_calls) rand obj iter)) =
      Done (h', ts') ∧
    map_repr obj M' (h_map h') ∧
    (∀ j, 1 ≤ j < iter → M' !! sprintf_09d j = Some j ∨ M' !! sprintf_09d j = None) ∧
    (∀ js, NoDup js → Forall (λ j, 1 ≤ j < iter ∧ M' !! sprintf_09d j = None) js → (length js ≤ NUM_THREADS)%nat) ∧
    (fair iter sched → forallb finished ts' = true) ∧
    (forallb finished ts' = true → bound sprintf_09d iter M' 1).
Proof.
  intros Hiter Hrand Hroom Hval Hsearch Hkey Hs Hb Hdom.
  destruct (benching_run rand obj iter Hrand Hiter Hkey Hval Hroom Hsearch sched h) as (h' & ts' & Hrun & Hb' & Hf).
  { by apply (get_threaded_start rand obj iter h M). }
  assert (length ts' = NUM_THREADS) as Hlen.
  { apply run_schedule_length in Hrun. by rewrite Hrun, length_replicate. }
  destruct (forallb finished ts') eqn:Hfin.
  - destruct (benching_end rand obj iter h' ts' Hb' Hfin) as (M' & Hs' & Hb1 & _).
    exists h', ts', M'. split_and!; try done.
    + intros j Hj. left. by apply Hb1.
    + intros [|j js] _ Hjs; [cbn; lia|]. apply Forall_cons in Hjs as [[Hj Hnone] _].
      by rewrite Hb1 in Hnone.
  - destruct (benching_missing rand obj iter h' ts' Hb') as (M' & Hs' & Hb1 & Hm).
    exists h', ts', M'. rewrite Hlen in Hm. split_and!; try done; [by intros Hfair%Hf|]. intros; congruence.
Qed.

(** The hypotheses of the driver's theorems hold of art.c and the keys of the
    benchmark. *)
Section art.
Context {AM : ArtMalloc} {AT : ArtMallocTotal AM} (malloc_tree : gmap Z art_tree → Z) (rand : Z → nat → Z) (clock : nat → Z * Z) (iter : Z).
Hypothesis Hmalloc : ∀ ts, malloc_tree ts ≠ 0.
Hypothesis Hiter : - 2 ^ 26 ≤ iter < 2 ^ 26.
Hypothesis Hclock : clock_ok clock.
Hypothesis Hrand : ∀ seed n, 0 ≤ rand seed n.
Hypothesis Hinj : ∀ i j, 1 ≤ i < iter → 1 ≤ j < iter → rand_key rand i = rand_key rand j → i = j.

Notation impl := (art_impl malloc_tree).
Notation spec := (art_spec malloc_tree Hmalloc bench_key bench_keyset).
Notation numbers_filled := (filled (MS := spec) iter sprintf_09d).

Lemma art_main_with_ok threaded env s seed pos now :
  (∀ obj h, numbers_filled obj (number_key iter) h →
    ∃ h', threaded obj iter h = Done (Returned tt, h') ∧ numbers_filled obj (number_key iter) h') →
  opt_int env 10000 = Done iter → art_lock s = Rwlock 0 false →
  ∃ stats h', main_with (I := impl) rand clock threaded env (Host s seed pos now) = Done (Returned stats, h') ∧ report iter stats.
Proof.
  intros Hth Henv Hlock.
  edestruct (main_with_ok (MS := spec) rand clock iter)
    as (stats & h' & Hrun & Hn & Hi); [exact Hiter|by cbn| | | |exact Hinj|exact Hclock|exact Hth|exact Henv|exact Hlock|].
  - intros j Hj. cbn. lia.
  - intros j Hj. apply digits_bench. lia.
  - intros j _. apply rand_bench.
  - exists stats, h'. split; [exact Hrun|by apply report_intro].
Qed.

Lemma art_threads_ok rounds obj h :
  fair_rounds iter rounds → numbers_filled obj (number_key iter) h →
  ∃ h', get_threaded (T := art_threads) rand (mjoin rounds) obj iter h = Done (Returned tt, h') ∧
    numbers_filled obj (number_key iter) h'.
Proof.
  intros Hfair (M & Hs & Hb & Hdom). pose proof Hs as (t & N & _ & Hfree & _).
  set (HN := art_null_spec malloc_tree Hmalloc bench_key bench_keyset).
  edestruct (locked_threads_run malloc_tree rand obj iter (benching (MS := spec) rand obj iter))
    as (h' & ts' & ts0 & Hrun & Hfin & Hb' & Hfin0); [|exact Hfair|exact Hfree|..].
  - apply (benching_step (HN := HN) rand obj iter Hrand); [lia| | |by cbn|by cbn].
    + intros j Hj. apply digits_bench. lia.
    + intros j Hj. cbn. lia.
  - by apply (get_threaded_start (MS := spec) rand obj iter h M).
  - exists h'. split; [|by apply (benching_end rand obj iter h' ts0)].
    unfold get_threaded. rewrite Hrun. cbn. by rewrite Hfin.
Qed.
End art.

(** Claim C29: [main] over art.c runs to its end, threads included, without the
    error exit and without undefined behaviour, as long as malloc and calloc
    find memory, and whatever malloc leaves behind the leaves' keys.  The
    threads share the lock of art.c: taking it, a search, a change and
    releasing it are a step each, and a schedule is enough in which every
    thread has a turn in each of so many rounds. *)
Theorem art_main_succeeds {AM : ArtMalloc} {AT : ArtMallocTotal AM}
    malloc_tree rand clock iter env rounds s seed pos now :
  (∀ ts, malloc_tree ts ≠ 0) → art_lock s = Rwlock 0 false →
  - 2 ^ 26 ≤ iter < 2 ^ 26 → opt_int env 10000 = Done iter →
  clock_ok clock → (∀ seed n, 0 ≤ rand seed n) → fair_rounds iter rounds →
  (∀ i j, 1 ≤ i < iter → 1 ≤ j < iter → rand_key rand i = rand_key rand j → i = j) →
  ∃ stats h', main (I := art_impl malloc_tree) (T := art_threads)
    rand clock (mjoin rounds) env (Host s seed pos now) = Done (Returned stats, h') ∧ report iter stats.
Proof.
  intros Hm Hlock Hiter Henv Hclock Hrand Hfair Hinj.
  apply (art_main_with_ok malloc_tree rand clock iter Hm); try done.
  intros obj h Hh. by apply art_threads_ok.
Qed.

(** The same with calls of one step, for every schedule that lets the threads
    finish. *)
Lemma art_main_atomic_succeeds {AM : ArtMalloc} {AT : ArtMallocTotal AM} malloc_tree rand clock iter env sched s seed pos now :
  (∀ ts, malloc_tree ts ≠ 0) → art_lock s = Rwlock 0 false →
  - 2 ^ 26 ≤ iter < 2 ^ 26 → opt_int env 10000 = Done iter →
  clock_ok clock → (∀ seed n, 0 ≤ rand seed n) → fair iter sched →
  (∀ i j, 1 ≤ i < iter → 1 ≤ j < iter → rand_key rand i = rand_key rand j → i = j) →
  ∃ stats h', main (I := art_impl malloc_tree) (T := @atomic_calls _ (art_impl malloc_tree))
    rand clock sched env (Host s seed pos now) = Done (Returned stats, h') ∧ report iter stats.
Proof.
  intros Hm Hlock Hiter Henv Hclock Hrand Hfair Hinj.
  apply (art_main_with_ok malloc_tree rand clock iter Hm); try done.
  intros obj h Hh. apply (get_threaded_ok (HN := art_null_spec malloc_tree Hm bench_key bench_keyset) rand iter Hrand);
    [lia| | |by cbn|by cbn|exact Hfair|exact Hh].
  - intros j Hj. apply digits_bench. lia.
  - intros j Hj. cbn. lia.
Qed.

(** The sequential part of the benchmark over critbit.c, redisdict.c and the C++ maps. *)
Definition no_threads {St} (obj iter : Z) : cmd (host St) (status unit) := mret (Returned tt).

Lemma critbit_benchmark_succeeds {MA : Malloc} {MS : MallocSpec MA} {MT : MallocTotal MA}
    rand clock iter env (m : mem) seed pos now :
  - 2 ^ 26 ≤ iter < 2 ^ 26 → opt_int env 10000 = Done iter → clock_ok clock →
  (∀ i j, 1 ≤ i < iter → 1 ≤ j < iter → rand_key rand i = rand_key rand j → i = j) →
  ∃ stats h', main_with rand clock no_threads env (Host m seed pos now) = Done (Returned stats, h') ∧
    report iter stats.
Proof.
  intros Hiter Henv Hclock Hinj.
  edestruct (main_with_ok (MS := critbit_spec m) rand clock iter) with (threaded := @no_threads mem)
    as (stats & h' & Hrun & Hn & Hi); [exact Hiter|by cbn|by cbn| | |exact Hinj|exact Hclock| |exact Henv|reflexivity|].
  - intros j Hj. apply digits_key_ok. lia.
  - intros j _. apply rand_key_ok.
  - intros obj h Hh. by exists h.
  - exists stats, h'. split; [exact Hrun|by apply report_intro].
Qed.

Lemma dict_benchmark_succeeds {A : Allocator dblock} {AS : AllocSpec A} {AT : AllocTotal A}
    rand clock iter env h g seed pos now :
  - 2 ^ 26 ≤ iter < 2 ^ 26 → opt_int env 10000 = Done iter → clock_ok clock → seed_ok g →
  (∀ i j, 1 ≤ i < iter → 1 ≤ j < iter → rand_key rand i = rand_key rand j → i = j) →
  ∃ stats h', main_with rand clock no_threads env (Host (DState h g) seed pos now) = Done (Returned stats, h') ∧
    report iter stats.
Proof.
  intros Hiter Henv Hclock Hg Hinj.
  edestruct (main_with_ok (MS := dict_spec g Hg h) rand clock iter) with (threaded := @no_threads dstate)
    as (stats & h' & Hrun & Hn & Hi); [exact Hiter| |by cbn| | |exact Hinj|exact Hclock| |exact Henv|reflexivity|].
  - intros n Hn. cbn. unfold map_limit. lia.
  - intros j Hj. apply digits_dkey_ok. lia.
  - intros j _. apply rand_dkey_ok.
  - intros obj h' Hh. by exists h'.
  - exists stats, h'. split; [exact Hrun|by apply report_intro].
Qed.

Lemma cc_benchmark_succeeds {C : Container} {CS : ContainerSpec C} {ES : EraseSpec CS}
    new_map rand clock iter env s seed pos now :
  - 2 ^ 26 ≤ iter < 2 ^ 26 → opt_int env 10000 = Done iter → clock_ok clock →
  (∀ i j, 1 ≤ i < iter → 1 ≤ j < iter → rand_key rand i = rand_key rand j → i = j) →
  ∃ stats h', main_with (I := cc_impl new_map) rand clock no_threads env (Host s seed pos now) =
    Done (Returned stats, h') ∧ report iter stats.
Proof.
  intros Hiter Henv Hclock Hinj.
  edestruct (main_with_ok (MS := cc_spec new_map) rand clock iter) with (threaded := @no_threads cc_state)
    as (stats & h' & Hrun & Hn & Hi); [exact Hiter|by cbn|by cbn| | |exact Hinj|exact Hclock| |exact Henv|exact Logic.I|].
  - intros j Hj. apply nonul_number. lia.
  - intros j _. apply rand_key_ok.
  - intros obj h Hh. by exists h.
  - exists stats, h'. split; [exact Hrun|by apply report_intro].
Qed.

(** Over a container that must be given a deleted key before its first [erase],
    as google::sparse_hash_map, the benchmark fails: [cleanup_rand] erases the
    first key that [set_rand] has inserted, and cc_common.h sets no deleted
    key. *)
Lemma cc_benchmark_undefined {C : Container} {CS : ContainerSpec C} {EN : EraseNeedsDeletedKey CS}
    new_map rand clock iter threaded env s seed pos now :
  2 ≤ iter < 2 ^ 26 → opt_int env 10000 = Done iter → clock_ok clock →
  (∀ i j, 1 ≤ i < iter → 1 ≤ j < iter → rand_key rand i = rand_key rand j → i = j) →
  main_with (I := cc_impl new_map) rand clock threaded env (Host s seed pos now) = Undef.
Proof.
  intros Hiter Henv Hclock Hinj. unfold main_with. rewrite Henv. run_to @lift_done.
  set (obj := new_map s).
  run_to (on_map_run (map_init (MapImpl := cc_impl new_map)) (Host s seed pos now) obj (<[obj := cont_new]> s) eq_refl).
  destruct (random_filled (MS := @cc_spec rebuilding rebuilding_spec rebuilding_erase new_map) rand clock iter)
    with (obj := obj) (h := Host (<[obj := cont_new]> s) seed pos now)
    as (s1 & s2 & h1 & h2 & Hrun1 & Hrun2 & (M & HM & Hb & _) & _);
    [lia|by cbn|by cbn|intros j _; apply rand_key_ok|exact Hinj|exact Hclock| |].
  { exists cont_new. split; [apply lookup_insert_eq|]. apply (@cont_new_ok C CS). }
  rewrite (then_run _ _ _ _ _ Hrun1), (then_run _ _ _ _ _ Hrun2).
  unfold then_, measure. apply bind_undef. destruct (current_usec_run clock h2 Hclock) as (t & _ & Ht). run_to Ht.
  unfold then_. apply bind_undef. unfold cleanup_rand. rewrite (bind_done _ _ _ _ _ eq_refl).
  unfold loop_fuel. cbn [cleanup_loop]. destruct (Z.ltb_spec 1 iter); [|lia].
  destruct (random_src (St := gmap Z (@cont C)) rand 1 (Host (h_map h2) RANDOM_SEED 0 (S (h_now h2)))) as (h3 & Hkey & Hh3 & _); [lia|done|].
  run_to Hkey. apply bind_undef. unfold on_map. rewrite Hh3. cbn [map_del cc_impl h_map].
  rewrite (cc_del_undefined (CS := CS) obj M); [done|exact HM|apply rand_key_ok|]. rewrite Hb; [by eexists|lia].
Qed.

(** A container of that kind. *)
Definition sparse_container : Container := {|
  cont := kvmap;
  cont_new := ∅;
  cont_insert := stl_insert;
  cont_find := λ M k, M !! k;
  cont_erase := λ M k, match M !! k with Some _ => Undef | None => Done (0, M) end;
  cont_clear := λ _, ∅;
|}.
Definition sparse_spec : ContainerSpec sparse_container := {|
  cont_map := (λ M, M) : @cont sparse_container → kvmap;
  cont_new_ok := @cont_new_ok _ stl_container_spec;
  cont_insert_new := @cont_insert_new _ stl_container_spec;
  cont_insert_dup := @cont_insert_dup _ stl_container_spec;
  cont_find_ok := @cont_find_ok _ stl_container_spec;
  cont_clear_ok := @cont_clear_ok _ stl_container_spec;
|}.

Lemma sparse_needs_deleted_key : EraseNeedsDeletedKey sparse_spec.
Proof. intros M k [v Hv]. cbn in *. by rewrite Hv. Qed.

(** ** Instances *)

Lemma sprintf_09d_roundtrip_witness : atoi_digits (sprintf_09d 1234567890) = 1234567890.
Proof. apply (sprintf_09d_roundtrip 1234567890). lia. Defined.

(** A stand-in for the library's generator: a counter, never repeating.  The
    clock stands still, and the environment asks for three iterations. *)
Definition counter_rand (_ : Z) (n : nat) : Z := Z.of_nat n.
Definition still_clock (_ : nat) : Z * Z := (1, 2).
Definition three : option (list Z) := Some (cstr [51]).

(** The threads take turns. *)
Definition round_robin (rounds : nat) : list nat := mjoin (replicate rounds (seq 0 NUM_THREADS)).

Lemma counter_keys_differ i j :
  1 ≤ i < 3 → 1 ≤ j < 3 → rand_key counter_rand i = rand_key counter_rand j → i = j.
Proof.
  intros Hi Hj. assert (i = 1 ∨ i = 2) as [-> | ->] by lia;
    assert (j = 1 ∨ j = 2) as [-> | ->] by lia; vm_compute; congruence.
Qed.

Lemma still_clock_ok : clock_ok still_clock.
Proof. intros n. cbn. lia. Qed.

Lemma counter_rand_nonneg seed n : 0 ≤ counter_rand seed n.
Proof. unfold counter_rand. lia. Qed.

Lemma round_robin_count rounds i :
  (i < NUM_THREADS)%nat → count_occ Nat.eq_dec (round_robin rounds) i = rounds.
Proof.
  intros Hi. unfold round_robin. induction rounds as [|rounds IH]; [done|].
  change (mjoin (replicate (S rounds) ?l)) with (l ++ mjoin (replicate rounds l)).
  rewrite count_occ_app, IH. f_equal. change (1 + rounds)%nat with (S rounds).
  assert (Forall (λ i, count_occ Nat.eq_dec (seq 0 NUM_THREADS) i = 1%nat) (seq 0 NUM_THREADS)) as HF.
  { apply (bool_decide_unpack _). vm_compute. exact I. }
  rewrite Forall_forall in HF. rewrite (HF i); [done|]. apply elem_of_seq. lia.
Qed.

Lemma round_robin_fair iter rounds : (3 * Z.to_nat (iter - 1) ≤ rounds)%nat → fair iter (round_robin rounds).
Proof. intros Hle i Hi. by rewrite round_robin_count. Qed.

(** 32 threads of at most 16 steps each. *)
Definition many_rounds : list (list nat) := replicate 512 (seq 0 NUM_THREADS).

Lemma many_rounds_fair : fair_rounds 3 many_rounds.
Proof.
  split; unfold many_rounds.
  - apply Forall_replicate. intros i Hi. apply elem_of_seq. lia.
  - rewrite length_replicate. apply Nat.leb_le. vm_compute. reflexivity.
Qed.

(** art.c as an instance of the contract. *)
Definition leaf_memory : ArtMalloc := λ _, {| calloc_node := λ _, true; malloc_leaf := Some [1; 2; 3; 4] |}.
Lemma leaf_memory_total : ArtMallocTotal leaf_memory.
Proof. intros ts. split; [done|by eexists]. Qed.
Definition art_sixteen := @art_impl leaf_memory (λ _, 16).
Lemma sixteen_nonzero (ts : gmap Z art_tree) : (λ _ : gmap Z art_tree, 16) ts ≠ 0.
Proof. done. Qed.
Definition art_sixteen_spec : MapSpec art_sixteen :=
  @art_spec leaf_memory leaf_memory_total (λ _, 16) sixteen_nonzero bench_key bench_keyset.
Definition art_sixteen_null : NullSpec art_sixteen_spec :=
  @art_null_spec leaf_memory leaf_memory_total (λ _, 16) sixteen_nonzero bench_key bench_keyset.
Definition art_empty : art_state := ArtState ∅ (Rwlock 0 false).

Lemma cc_benchmark_undefined_witness :
  main_with (I := @cc_impl sparse_container (λ _, 16)) counter_rand still_clock no_threads three (Host ∅ 0 0 0) =
    Undef.
Proof.
  apply (cc_benchmark_undefined (CS := sparse_spec) (EN := sparse_needs_deleted_key) (λ _, 16) counter_rand
    still_clock 3 no_threads three ∅ 0 0 0); [lia|reflexivity|exact still_clock_ok|].
  intros i j Hi Hj. apply counter_keys_differ; lia.
Defined.

Lemma main_succeeds_witness :
  ∃ stats h', main (I := art_sixteen) (T := @atomic_calls _ art_sixteen) counter_rand still_clock
    (round_robin 6) three (Host art_empty 0 0 0) = Done (Returned stats, h') ∧ report 3 stats.
Proof.
  apply (@main_succeeds _ art_sixteen art_sixteen_spec art_sixteen_null counter_rand still_clock 3).
  - lia.
  - reflexivity.
  - exact still_clock_ok.
  - exact counter_rand_nonneg.
  - reflexivity.
  - apply round_robin_fair. lia.
  - by cbn.
  - intros j Hj. cbn. lia.
  - by cbn.
  - intros j Hj. apply digits_bench. lia.
  - intros j _. apply rand_bench.
  - exact counter_keys_differ.
Defined.

Lemma art_main_succeeds_witness :
  ∃ stats h', main (I := art_sixteen) (T := @art_threads leaf_memory) counter_rand still_clock
    (mjoin many_rounds) three (Host art_empty 0 0 0) = Done (Returned stats, h') ∧ report 3 stats.
Proof.
  apply (@art_main_succeeds leaf_memory leaf_memory_total (λ _, 16) counter_rand still_clock 3).
  - exact sixteen_nonzero.
  - reflexivity.
  - lia.
  - reflexivity.
  - exact still_clock_ok.
  - exact counter_rand_nonneg.
  - exact many_rounds_fair.
  - exact counter_keys_differ.
Defined.

(** 401 iterations, in two of which each thread deletes a key and adds it
    again, and a fair schedule: the threads finish, and every key is bound. *)
Lemma get_threaded_restores_witness :
  ∃ obj h h' ts' M',
    run_schedule (round_robin 1200) h (replicate NUM_THREADS
      (get_thread (T := @atomic_calls _ art_sixteen) counter_rand obj 401)) = Done (h', ts') ∧
    map_repr (MapSpec := art_sixteen_spec) obj M' (h_map h') ∧
    forallb finished ts' = true ∧ bound sprintf_09d 401 M' 1.
Proof.
  destruct (map_init_ok (MapSpec := art_sixteen_spec) art_empty eq_refl) as (obj & s & _ & Hs).
  edestruct (fill_ok (MS := art_sixteen_spec) 401) with (key := sprintf_09d) (next_key := @numbered art_state)
    (src := λ (_ : Z) (_ : host art_state), True) (obj := obj) (h := Host s 0%Z O O)
    as (h & _ & M & HM & Hb & HK); [by cbn|intros j Hj; cbn; lia|exact numbered_src|done|
    intros j Hj; apply digits_bench; lia|apply number_inj; lia|exact Hs|done|].
  pose proof (@get_threaded_restores _ art_sixteen art_sixteen_spec art_sixteen_null counter_rand obj 401
    (round_robin 1200) h M ltac:(lia) counter_rand_nonneg) as Hthm.
  destruct Hthm as (h' & ts' & M' & Hrun & HM' & _ & _ & Hfin & Hend).
  - by cbn.
  - intros j Hj. cbn. lia.
  - by cbn.
  - intros j Hj. apply digits_bench. lia.
  - exact HM.
  - exact Hb.
  - intros k Hk. destruct (HK k Hk) as (j & Hj & ->). exists j. split; [lia|done].
  - pose proof (Hfin (round_robin_fair 401 1200 ltac:(lia))) as Hdone.
    exists obj, h, h', ts', M'. exact (conj Hrun (conj HM' (conj Hdone (Hend Hdone)))).
Defined.
